(* ===== verification/_CoqProject ===== *)
-Q . S2P
Prelude.v
Ring.v
KMonad.v
Quanta.v
Scull.v
ScullSpec.v
ScullPipe.v
ScullAccess.v
Registry.v
ScullModule.v
KRel.v
Scullc.v
ScullcSpec.v
Scullp.v
ScullpSpec.v
CharModule.v
UsbSkel.v
Sbull.v
SbullModule.v
Snull.v
SnullModule.v
Text.v
XModem.v
ProcPage.v
Jiq.v
Jit.v
Short.v
ShortPrint.v
TinyTty.v
TinyModule.v
TinySerial.v
FifoDev.v
MiscLoop.v
Ldt.v
LdtModule.v
Silly.v
Skull.v
Waiters.v
LddBus.v
Sculld.v
Simple.v
SeqFile.v
Scullv.v
Eeprom.v
EepromModule.v
TimerQueue.v
Buttons.v
Chardev.v
ChardevModule.v
LinkList.v
LinkListSpec.v
PollDev.v
