(* ===== verification/Prelude.v ===== *)
(** * Verification of the drivers of src/ldd4, src/ldt and src/lkd-todo

    The repository collects kernel-programming examples. Its largest body of
    original program logic is [src/ldd4], the sample drivers of "Linux Device
    Drivers"; this development models those drivers and proves what they
    promise, together with the driver template of [src/ldt], a file receiver
    from [src/bbb-sysplay], the EEPROM driver of [src/ldd-johnmadieu] and four
    larger programs of [src/lkd-todo]: two character devices, a thread that serves
    a queue of timed messages, and buttons that restart the machine. From [src/c] it
    has a program of linked lists. Everything else (the
    boot loader and its board files, the small exercises, user-space
    demonstrations) is listed in the manifest with the reason it is left out.

    ** How a driver is modelled

    A driver entry point is a Rocq program of type [K S A] ([KMonad]): it reads
    and updates the state [S] of its driver, asks the kernel through [call],
    may be overtaken by other tasks where the source can sleep ([interfere]),
    and ends with a value, with an oops, or asleep for ever. The kernel is not
    under [src/]: it is an [oracle] that answers each service. A [contract]
    says which answers are documented and what other tasks may do; [wp C m Q s]
    says that under every oracle that obeys [C] the program [m] started in [s]
    does not fault and ends in [Q]. [documented] allows every documented answer
    (failing allocations, faulting user pages, signals); [quiet] is a kernel
    with memory, without signals or faults. A driver is then a state machine: a
    table of entry points, the calls the kernel may make ([allowed]), the moves
    of other tasks; [faultless] and [inductive_inv] are its safety and its
    invariants.

    C integers are values of [Z] with the wrap-around of their type written out
    ([Prelude]); memory blocks are lists of cells, an unwritten byte is [None];
    an access outside a block is an oops of the model.

    ** Files

    Shared by the drivers:

    - [Prelude]: machine integers, error numbers, ioctl words, blocks, tactics.
    - [KMonad]: the monad, its rules, mutexes, state machines, loops, working on
      a part of the state ([zoom]) and on a table of devices ([HasTable]).
    - [KRel]: two programs side by side, and sequences of calls.
    - [Ring]: a block between two wrapping indices as a queue ([ScullPipe],
      [Sbull], [Snull], [Short], [ShortPrint], [TinySerial], [PollDev] use it or
      its lemmas).
    - [Quanta]: the division of a file position into item, slot and offset
      ([Scull], [Scullc], [Scullp]).
    - [Text]: what [sprintf] prints, and reading it back.
    - [ProcPage]: pages /proc lends to a read, and printing into them.
    - [Registry]: regions, numbers and lines a module holds.

    The drivers, one or two files each:

    - [Scull], [ScullSpec]: scull/main.c. [scull_read], [scull_write],
      [scull_follow], [scull_trim], [scull_open], [scull_ioctl],
      [scull_llseek], the seq_file; then the theorems about them.
    - [ScullPipe]: scull/pipe.c. [scull_p_open] ... [scull_p_poll].
    - [ScullAccess]: scull/access.c, the four policies as clients of
      [scull_open] and [scull_trim].
    - [ScullModule]: loading and unloading the three of them together.
    - [Scullc], [ScullcSpec]: scullc/main.c, over a slab cache; compared with
      scull call by call.
    - [Scullp], [ScullpSpec]: scullp/main.c and mmap.c, over a page allocator
      with reference counts; mappings, faults, asynchronous I/O.
    - [CharModule]: loading and unloading of scullp and scullc, once for every
      device that can be trimmed (the class [Trims]).
    - [UsbSkel]: usb/usb-skeleton.c, over explicit reference counts, URBs and
      transfer buffers.
    - [Sbull]: sbull/sbull.c. The three request modes, media change, set-up.
      [SbullModule]: loading and unloading.
    - [Snull]: snull/snull.c. Packet pool, interrupts, polling, transmission.
      [SnullModule]: loading and unloading.
    - [XModem]: bbb-sysplay/EmbC/decode_xmodem.c, a receiver of files over a
      serial line, with the functions of debug.c and serial.c it calls.
    - [Jiq], [Jit]: misc-modules/jiq.c and jit.c, work deferred to queues,
      tasklets and timers that prints for a sleeping reader.
    - [Short]: short/short.c. Ports, interrupts, bottom halves, probing.
    - [ShortPrint]: shortprint/shortprint.c, over [Short]'s ring functions.
    - [TinyTty], [TinyModule], [TinySerial]: tty/tiny_tty.c, tty/tiny_serial.c.
    - [FifoDev]: what the two drivers of [src/ldt] share: reads, writes and polls
      over two kernel FIFOs, which are the class [Kfifo].
    - [MiscLoop]: ldt/misc_loop_drv.c, a port looped back in software.
    - [Ldt], [LdtModule]: ldt/ldt.c, the template with a UART, an ioctl and a
      mapping; its loading and unloading.
    - [Silly]: misc-modules/silly.c, ISA memory by 8, 16 and 32 bits.
    - [Skull]: skull/skull_init.c, a scan of memory for RAM and ROM.
    - [Waiters]: misc-modules/sleepy.c and complete.c, readers that wait for a
      writer; the one file where processes interleave step by step (a [pool]).
    - [SeqFile]: misc-modules/seq.c, the iterator of a file read in sessions.
    - [Simple]: simple/simple.c, physical memory mapped at once or page by page.
    - [Scullv]: scullv/main.c and mmap.c, scullp over vmalloc, with an order of 4
      unless it is loaded with another.
    - [LddBus], [Sculld]: lddbus/lddbus.c, a bus, and sculld on it, which is
      scullp but for its faults, its asynchronous requests and its loading.
    - [Eeprom], [EepromModule]: ldd-johnmadieu, Chapter07/ee24lc512.c, an EEPROM
      on an I2C bus, over the class [Chip] of what the bus answers; its probe
      and remove.
    - [TimerQueue]: lkd-todo/net/tq-master, timer_queue.c, timer_thread.c and
      timer_main.c: a bounded queue kept in the order of expiry and the thread
      that takes messages from it.
    - [Chardev], [ChardevModule]: lkd-todo/char/chardev/chardev.c, strings reversed
      by ioctl, one open file, and a page to map; loading and unloading.
    - [PollDev]: lkd-todo/kernel-internals/poll_kernel.c, a blocking buffer between
      readers and writers, with poll; loading and unloading.
    - [Buttons]: lkd-todo/platform/button-manager/platform_button.c, interrupts
      and timers of two buttons; probe and remove.
    - [LinkList], [LinkListSpec]: c/linklist/linklist.c, four kinds of sorted linked
      lists on an explicit memory, which are instances of the class [SortedList].
      linklist.c does not declare the type whose size one insertion copies: that
      copy is a parameter, and what the circular single list promises is under a
      hypothesis on it (the class [CopiesNode]); no property of the manifest is.

    A file [X]Module owns the devices of [X] as part of its state and runs their
    operations through [zoom]; what is registered is a [Registry].

    ** What the theorems show

    - Safety: in every sequence of the calls that [allowed] lists, under every
      answer of the contract, no entry point of a driver oopses, hangs, leaks a
      lock or a block ([scull_faultless], [scull_pipe_faultless],
      [snull_faultless], [short_faultless], [tiny_tty_faultless]). Each theorem's
      comment says which calls and answers are left out, and names the lemmas
      that show the fault there.
    - Invariants: the pages of scullp are those in its slots and a mapped page
      stays the one that was asked for ([scullp_mapped_safe]); the counts of the
      USB skeleton are its users ([skel_refcounts]); concurrent reads of jit
      print into their own pages only ([jit_reads_isolated]); what goes through
      the FIFOs of [src/ldt] stays in order and waits for nothing that does not
      come ([loop_stream], [ldt_stream]).
    - Function: what each transfer stores and returns, on every branch, and
      round trips ([scull_write_read], [scullp_write_fault],
      [snull_tx_delivers], [xmodem_receives], [loop_roundtrip],
      [ldt_ioctl_roundtrip], [silly_write_spec]); a file read in pieces is read
      whole ([ct_sequence]); the EEPROM stores what is written across its pages,
      or a prefix of it, and never hangs on a busy bus ([eep_write_stores],
      [eep_short_write], [eep_faultless]); chardev reverses strings
      ([chardev_reverses]) and lets one writer in ([chardev_one_writer]); the bytes
      accepted by poll_dev are handed out in order, or counted by a reader whose
      page faults, or discarded by an open ([poll_stream], [poll_write_read]); the
      linked lists keep their links and sort ([linklist_insert], [linklist_sorts]).
      The machine restarts when one button has been held long enough while the
      other is held, and then only ([buttons_restart_exactly],
      [buttons_hold_restarts]).
    - Interleaving: complete lets exactly one read go for each write
      ([complete_exact]), sleepy any number of them but never none
      ([sleepy_outcomes]), unless a signal comes ([sleepy_signal_loses_write]).
    - Equivalence: scullc answers every sequence of calls as scull does, but for
      bytes nobody wrote ([scullc_as_scull]); the four access modes of silly read
      the same ([silly_modes_agree]), the two devices of simple show the same
      memory ([simple_devices_agree]), a call of sculld does what scullp's does
      ([sculld_as_scullp]).
    - Refinement: a call of scullv does what scullp's does, and where the order is
      0 it goes through the states of scullp ([scullv_simulates]);
      the ring buffers implement queues ([shortprint_stream],
      [scull_p_write_spec], [scull_p_read_spec]); the request function of sbull
      implements transfers on a disk; the timer queue implements a sorted list
      of messages, at most a hundred of them ([tq_refines], [tq_deletion],
      [tq_main_fills]).
    - Termination: reads that wait for deferred work end, unless a wake-up is lost
      ([jiq_read_ends], [jiq_tasklet_race], [jiq_timer_race]), busy waits end once
      the clock has gone on, also where it wraps ([jit_fn_waits]), bottom halves end
      ([short_do_tasklet_spec], [ldt_loopback_drains]); the scan of skull ends,
      but for small ROMs ([skull_init_ends], [skull_scan_hangs]); the thread of
      the timer queue takes out what is due ([tq_thread_removes]).
    - Access control: who may open what ([scull_s_exclusive],
      [scull_owned_entitled], [scull_c_private]).
    - Loading and unloading: what was acquired is given back, once, also when a
      step of the load fails, or exactly what is not
      ([scull_module_balanced], [sbull_module_unloads],
      [snull_module_unloads], [tiny_module_unloads], [short_init_balanced],
      [scullc_module_unloads], [ldt_module], [loop_module], [sculld_module],
      [skel_probe_spec], [eep_session_spec], [buttons_load_leaks],
      [poll_load_leaks], [chardev_module_unloads]).

    Faults the code has are proved too, as runs that end in the fault
    ([scull_write_aliases], [sbull_double_vfree], [snull_tx_overruns],
    [jit_signal_use_after_free], [sbull_given_major],
    [eep_empty_write_destroys], [eep_two_files], [eep_class_fault],
    [tq_two_messages], [tq_search_first], [tq_destroy_twice],
    [buttons_stale_handler], [buttons_early_press], [chardev_freed_file],
    [chardev_init_oops], [read_overtaken], [ih_race], [jiq_tasklet_race],
    [jit_wake_up_race], [scullv_default_overflow] and others): the hypotheses
    of the safety theorems exclude those.

    ** Bounds and fuel

    Loops over data recurse on the data. Loops that sleep take [fuel], the
    number of times a task is woken in vain: running out of it is "asleep for
    ever", which a theorem accepts only where its contract says so; the loops
    of the tasklet of [MiscLoop] and the busy wait of [Jit] fault with [Endless]
    when they go round more often than their fuel, which no theorem accepts. The
    theorems about calls that return are proved with fuel for one round, which
    a quiet kernel does not exceed. The loops of [Text] and of the interrupt
    bottom halves take as fuel the largest number of rounds their counters
    allow, and lemmas show that it is enough. A read of [Jiq] needs at most 120
    rounds, since a line has at least 35 characters and a page 4096, and forty
    rounds cannot fill it, since a line has 99 at most; a busy wait
    of [Jit] as many as the clock takes for the delay, and one more; a session of [XModem] as many as
    there are bytes on the line, and one more. The tasklet of [MiscLoop] goes
    round each of its loops twice at most (a third time is a fault), that of [Ldt] once for each of the 128
    bytes a FIFO holds and once more, but for the loop that receives, which lasts
    as long as the UART has bytes; the scan of [Skull] advances by 512 bytes at
    least. A loop over a list of [LinkList] goes round once for each node there is
    at most, and once more. The walks of [TimerQueue] have fuel for 101 messages, one more than a
    queue holds.

    ** Not modelled

    Weak memory and true parallelism: a piece of code between two points where
    it can sleep, or be interrupted where the source leaves interrupts on, runs
    alone, but in [Waiters]. The debugging reports in /proc of scull and scullp,
    which only read the state, messages to the log, and [jit_currentime]. The registers behind
    serial.c. Copies between user memory and a kernel FIFO are one step, so that
    bytes do not arrive in the middle of one. The open and release of the
    EEPROM do not take its mutex; they run between other calls, and so do the
    calls of the threads of a process on the file of chardev. The loops of poll_dev
    that copy run alone under its semaphore, also where a page of the user has to
    be fetched. A handler of jit runs alone up to its [wake_up_interruptible], and
    those of one read do not overlap; one reader of jiq at a time. Counts of
    openings are C ints: theorems about them bound the openings. What the timer
    queue displays, and the signal that ends its program. The modules of
    misc-modules that print or fault on purpose; the user programs. Outside the
    components above: the vendored boot loader and gadget drivers, and
    exercises and book samples that show one kernel call each. *)

From stdpp Require Import base tactics numbers list.
From Stdlib Require Import ZArith Lia.

Open Scope Z_scope.

(** ** Machine integers

    C integers are values of [Z]; every operation of the source that can leave
    the range of its type is followed by the wrap-around of that type. *)

Definition u8 (z : Z) : Z := z mod 2 ^ 8.
Definition u16 (z : Z) : Z := z mod 2 ^ 16.
Definition u32 (z : Z) : Z := z mod 2 ^ 32.
Definition u64 (z : Z) : Z := z mod 2 ^ 64.
Definition s16 (z : Z) : Z := (z + 2 ^ 15) mod 2 ^ 16 - 2 ^ 15.
Definition s32 (z : Z) : Z := (z + 2 ^ 31) mod 2 ^ 32 - 2 ^ 31.
Definition s64 (z : Z) : Z := (z + 2 ^ 63) mod 2 ^ 64 - 2 ^ 63.

(** [INT_MAX], the largest C [int], and [LONG_MAX]. *)
Definition INT_MAX : Z := 2 ^ 31 - 1.
Definition LONG_MAX : Z := 2 ^ 63 - 1.

(** C truth values. *)
Definition c_bool (z : Z) : bool := negb (z =? 0).

(** [1] page, as [asm/page.h] has it on the machines the drivers target. *)
Definition PAGE_SIZE : Z := 4096.
Definition PAGE_SHIFT : Z := 12.

(** ** Error numbers ([errno-base.h], [errno.h] and the kernel-internal ones) *)

Definition EPERM : Z := 1.
Definition EINTR : Z := 4.
Definition EIO : Z := 5.
Definition ENXIO : Z := 6.
Definition EAGAIN : Z := 11.
Definition ENOMEM : Z := 12.
Definition EFAULT : Z := 14.
Definition EBUSY : Z := 16.
Definition ENODEV : Z := 19.
Definition EINVAL : Z := 22.
Definition ENOTTY : Z := 25.
Definition EOPNOTSUPP : Z := 95.
Definition ERESTARTSYS : Z := 512.
Definition ENOIOCTLCMD : Z := 515.
Definition EIOCBQUEUED : Z := 529.

(** ** Ioctl command words ([asm-generic/ioctl.h]) *)

Definition _IOC (dir type nr size : Z) : Z :=
  Z.lor (Z.lor (Z.shiftl dir 30) (Z.shiftl type 8)) (Z.lor nr (Z.shiftl size 16)).
Definition _IOC_DIR (cmd : Z) : Z := Z.land (Z.shiftr cmd 30) 3.
Definition _IOC_TYPE (cmd : Z) : Z := Z.land (Z.shiftr cmd 8) 255.
Definition _IOC_NR (cmd : Z) : Z := Z.land cmd 255.
Definition _IOC_SIZE (cmd : Z) : Z := Z.land (Z.shiftr cmd 16) 16383.
Definition _IOC_WRITE : Z := 1.
Definition _IOC_READ : Z := 2.
Definition _IO (type nr : Z) : Z := _IOC 0 type nr 0.
Definition _IOR (type nr size : Z) : Z := _IOC _IOC_READ type nr size.
Definition _IOW (type nr size : Z) : Z := _IOC _IOC_WRITE type nr size.
Definition _IOWR (type nr size : Z) : Z := _IOC 3 type nr size.

(** Open flags ([asm-generic/fcntl.h]) and file modes. *)
Definition O_ACCMODE : Z := 3.
Definition O_WRONLY : Z := 1.
Definition O_NONBLOCK : Z := 2048.
Definition FMODE_READ : Z := 1.
Definition FMODE_WRITE : Z := 2.

(** What [poll] reports ([asm-generic/poll.h]). *)
Definition POLLIN : Z := 1.
Definition POLLOUT : Z := 4.
Definition POLLRDNORM : Z := 64.
Definition POLLWRNORM : Z := 256.

(** ** Memory cells

    A byte of kernel memory: [Some b] holds [b]; [None] is what [kmalloc]
    returned and nobody wrote yet. *)
Abbreviation cell := (option Z) (only parsing).

(** A block of memory as [kmalloc] (no contents) and [memset(p, 0, n)] give it. *)
Definition uninit (n : Z) : list cell := replicate (Z.to_nat n) None.
Definition zeroed (n : Z) : list cell := replicate (Z.to_nat n) (Some 0).

(** [l[i .. i+n)], for reading a range of a block. *)
Definition slice {A} (i n : Z) (l : list A) : list A :=
  take (Z.to_nat n) (drop (Z.to_nat i) l).

(** Store [src] at offset [i] of a block ([memcpy(l + i, src, |src|)]). *)
Definition store {A} (i : Z) (src l : list A) : list A :=
  list_inserts (Z.to_nat i) src l.

(** Indexing with a C index: [None] when it is negative or past the end. *)
Definition lookupZ {A} (l : list A) (i : Z) : option A :=
  if i <? 0 then None else l !! Z.to_nat i.

Abbreviation lenZ l := (Z.of_nat (length l)).

(** ** Automation *)

Create HintDb ldd.

(** Turn boolean comparisons of the context and the goal into propositions. *)
Ltac zbool :=
  repeat match goal with
  | H : (_ <? _) = true |- _ => apply Z.ltb_lt in H
  | H : (_ <? _) = false |- _ => apply Z.ltb_ge in H
  | H : (_ <=? _) = true |- _ => apply Z.leb_le in H
  | H : (_ <=? _) = false |- _ => apply Z.leb_gt in H
  | H : (_ =? _) = true |- _ => apply Z.eqb_eq in H
  | H : (_ =? _) = false |- _ => apply Z.eqb_neq in H
  | H : (_ >? _) = _ |- _ => rewrite Z.gtb_ltb in H
  | H : (_ >=? _) = _ |- _ => rewrite Z.geb_leb in H
  | H : negb _ = true |- _ => apply negb_true_iff in H
  | H : negb _ = false |- _ => apply negb_false_iff in H
  | H : _ && _ = true |- _ => apply andb_true_iff in H as [? ?]
  | H : _ || _ = false |- _ => apply orb_false_iff in H as [? ?]
  end.

(** Case analysis on every [if] and [match] in the goal, then arithmetic. *)
Ltac zcases :=
  repeat (case_match; zbool; simplify_eq); try lia.

(** Evaluate the comparisons between constants in the goal. *)
Ltac zconst :=
  repeat match goal with
  | |- context [?b] =>
      match b with Z.eqb _ _ => idtac | Z.gtb _ _ => idtac | c_bool _ => idtac end;
      let v := eval vm_compute in b in
      match v with true => change b with true | false => change b with false end
  end; cbn beta iota delta [negb].

(** Split a goal made of conjunctions and close the arithmetic parts. *)
Ltac splits := repeat (split; [|]); try lia; try done.

(** ** Lemmas on machine integers *)

Lemma u64_small z : 0 <= z < 2 ^ 64 → u64 z = z.
Proof. apply Z.mod_small. Qed.

Lemma u32_small z : 0 <= z < 2 ^ 32 → u32 z = z.
Proof. apply Z.mod_small. Qed.

Lemma u8_small z : 0 <= z < 2 ^ 8 → u8 z = z.
Proof. apply Z.mod_small. Qed.

Lemma u64_range z : 0 <= u64 z < 2 ^ 64.
Proof. apply Z.mod_pos_bound. lia. Qed.

Lemma u8_range z : 0 <= u8 z < 2 ^ 8.
Proof. apply Z.mod_pos_bound. lia. Qed.

Lemma s16_small z : - 2 ^ 15 <= z < 2 ^ 15 → s16 z = z.
Proof. intros ?. unfold s16. rewrite Z.mod_small; lia. Qed.

Lemma s32_small z : - 2 ^ 31 <= z < 2 ^ 31 → s32 z = z.
Proof. intros ?. unfold s32. rewrite Z.mod_small; lia. Qed.

Lemma s32_range z : - 2 ^ 31 <= s32 z < 2 ^ 31.
Proof. unfold s32. pose proof (Z.mod_pos_bound (z + 2 ^ 31) (2 ^ 32)). lia. Qed.

Lemma s64_small z : - 2 ^ 63 <= z < 2 ^ 63 → s64 z = z.
Proof. intros ?. unfold s64. rewrite Z.mod_small; lia. Qed.

Lemma s64_range z : - 2 ^ 63 <= s64 z < 2 ^ 63.
Proof. unfold s64. pose proof (Z.mod_pos_bound (z + 2 ^ 63) (2 ^ 64)). lia. Qed.

Lemma u32_s32 z : u32 (s32 z) = u32 z.
Proof.
  unfold u32, s32. rewrite Zminus_mod_idemp_l.
  f_equal. lia.
Qed.

Lemma mod_mul_mod p a b : 0 < a → 0 < b → (p mod (a * b)) mod a = p mod a.
Proof.
  intros. rewrite Z.rem_mul_r by lia.
  rewrite (Z.mul_comm a), Z.mod_add, Z.mod_mod by lia. done.
Qed.

(** The fields of a word do not overlap. *)
Lemma lor_add b a k : 0 <= k → 0 <= a < 2 ^ k → Z.lor (Z.shiftl b k) a = b * 2 ^ k + a.
Proof.
  intros Hk Ha. rewrite <-Z.shiftl_mul_pow2 by done.
  assert (Z.land (Z.shiftl b k) a = 0) as H0.
  { destruct (decide (a = 0)) as [->|Ha0]; [apply Z.land_0_r|].
    apply Z.bits_inj'. intros n Hn. rewrite Z.land_spec, Z.shiftl_spec, Z.bits_0 by done.
    destruct (decide (n < k)); [by rewrite Z.testbit_neg_r by lia|].
    rewrite (Z.bits_above_log2 a), andb_false_r; [done|lia|]. apply Z.log2_lt_pow2; [lia|].
    pose proof (Z.pow_le_mono_r 2 k n). lia. }
  by rewrite <-Z.lxor_lor, Z.add_nocarry_lxor.
Qed.

Lemma ioc_fields dir type nr size :
  0 <= dir < 4 → 0 <= type < 256 → 0 <= nr < 256 → 0 <= size < 2 ^ 14 →
  let cmd := _IOC dir type nr size in
  _IOC_DIR cmd = dir ∧ _IOC_TYPE cmd = type ∧ _IOC_NR cmd = nr ∧ _IOC_SIZE cmd = size.
Proof.
  intros ? ? ? ? cmd. assert (cmd = dir * 2 ^ 30 + (size * 2 ^ 16 + (type * 2 ^ 8 + nr))) as ->.
  { assert (0 <= type * 2 ^ 8 + nr < 2 ^ 16) as H8 by lia.
    assert (0 <= size * 2 ^ 16 + (type * 2 ^ 8 + nr) < 2 ^ 30) as H16 by lia.
    rewrite <-(lor_add dir _ 30), <-(lor_add size _ 16), <-(lor_add type nr 8) by (done || lia).
    unfold cmd, _IOC. rewrite <-!Z.lor_assoc. f_equal. rewrite Z.lor_assoc. apply Z.lor_comm. }
  unfold _IOC_DIR, _IOC_TYPE, _IOC_NR, _IOC_SIZE.
  change 3 with (Z.ones 2). change 255 with (Z.ones 8). change 16383 with (Z.ones 14).
  rewrite !Z.land_ones, !Z.shiftr_div_pow2 by lia. Z.to_euclidean_division_equations. lia.
Qed.

(** ** Lemmas on lists as blocks of memory *)

Section blocks.
Context {A : Type}.
Implicit Types (l src : list A) (i n : Z).

Lemma lookupZ_Some l i x : lookupZ l i = Some x ↔ 0 <= i ∧ l !! Z.to_nat i = Some x.
Proof.
  unfold lookupZ. case_match; zbool; [|naive_solver].
  split; [done|]. intros [? _]. lia.
Qed.

Lemma lookupZ_lt l i x : lookupZ l i = Some x → 0 <= i < lenZ l.
Proof. intros [? ?%lookup_lt_Some]%lookupZ_Some. lia. Qed.

Lemma lookupZ_is_Some l i : is_Some (lookupZ l i) ↔ 0 <= i < lenZ l.
Proof.
  split; [intros [x Hx]; eapply lookupZ_lt; eauto|].
  intros ?. unfold lookupZ. rewrite (proj2 (Z.ltb_ge _ _)) by lia.
  apply lookup_lt_is_Some. lia.
Qed.

Lemma length_slice i n l :
  0 <= i → 0 <= n → i + n <= lenZ l → lenZ (slice i n l) = n.
Proof. intros. unfold slice. rewrite length_take, length_drop. lia. Qed.

Lemma lookup_slice i n l (k : nat) :
  0 <= i → Z.of_nat k < n → slice i n l !! k = l !! (Z.to_nat i + k)%nat.
Proof. intros. unfold slice. rewrite lookup_take_lt by lia. by rewrite lookup_drop. Qed.

Lemma length_store i src l : length (store i src l) = length l.
Proof. apply length_inserts. Qed.

Lemma lookup_store_in i src l (k : nat) :
  0 <= i → i + lenZ src <= lenZ l → i <= Z.of_nat k < i + lenZ src →
  store i src l !! k = src !! (k - Z.to_nat i)%nat.
Proof. intros. unfold store. apply list_lookup_inserts; lia. Qed.

Lemma lookup_store_out i src l (k : nat) :
  0 <= i → Z.of_nat k < i ∨ i + lenZ src <= Z.of_nat k →
  store i src l !! k = l !! k.
Proof.
  intros ? [?|?]; unfold store.
  - apply list_lookup_inserts_lt; lia.
  - apply list_lookup_inserts_ge; lia.
Qed.

Lemma alter_insert_eq (f : A → A) l (k : nat) x :
  l !! k = Some x → alter f k l = <[k := f x]> l.
Proof.
  intros Hk. rewrite list_insert_alter. apply list_alter_ext; [|done].
  intros y ?. by simplify_eq.
Qed.

Lemma slice_store i src l :
  0 <= i → i + lenZ src <= lenZ l → slice i (lenZ src) (store i src l) = src.
Proof.
  intros. apply list_eq. intros k.
  destruct (decide (k < length src)%nat).
  - rewrite lookup_slice by lia. rewrite lookup_store_in by lia. f_equal. lia.
  - rewrite !lookup_ge_None_2; try lia; [done|].
    apply Nat2Z.inj_le. rewrite length_slice; rewrite ?length_store; lia.
Qed.

Lemma slice_all l : slice 0 (lenZ l) l = l.
Proof. unfold slice. rewrite drop_0, take_ge by lia. done. Qed.

Lemma store_full src l : length src = length l → store 0 src l = src.
Proof.
  intros Hl. rewrite <-(slice_store 0 src l) at 2 by lia.
  rewrite Hl, <-(length_store 0 src l). by rewrite slice_all.
Qed.

Lemma store_app i src1 src2 l : 0 <= i →
  store i (src1 ++ src2) l = store (i + lenZ src1) src2 (store i src1 l).
Proof. intros. unfold store. rewrite list_inserts_app_l. f_equal. lia. Qed.

(** What stands before the end of a text stored at offset [i]. *)
Lemma take_store i src rest l :
  0 <= i → i + lenZ src + lenZ rest <= lenZ l →
  take (Z.to_nat i + length src) (store i (src ++ rest) l) = take (Z.to_nat i) l ++ src.
Proof.
  intros Hi Hl. apply list_eq. intros k.
  destruct (decide (k < Z.to_nat i)%nat).
  - rewrite lookup_take_lt, lookup_app_l by (rewrite ?length_take; lia).
    rewrite lookup_store_out, lookup_take_lt by lia. done.
  - rewrite lookup_app_r by (rewrite length_take; lia).
    replace (length (take (Z.to_nat i) l)) with (Z.to_nat i) by (rewrite length_take; lia).
    destruct (decide (k < Z.to_nat i + length src)%nat).
    + rewrite lookup_take_lt by lia.
      rewrite lookup_store_in by (rewrite ?length_app; lia). by rewrite lookup_app_l by lia.
    + rewrite lookup_take_ge, lookup_ge_None_2 by lia. done.
Qed.
End blocks.

(** A queue that keeps its first [n] bytes forgets the same whether they come
    together or one after the other. *)
Lemma take_take_app {A} n (l k : list A) : take n (take n l ++ k) = take n (l ++ k).
Proof.
  destruct (decide (length l <= n)%nat).
  - by rewrite (take_ge l) by lia.
  - rewrite take_app_le by (rewrite length_take; lia). by rewrite take_take, Nat.min_id, take_app_le by lia.
Qed.

Lemma length_uninit n : 0 <= n → lenZ (uninit n) = n.
Proof. intros. unfold uninit. rewrite length_replicate. lia. Qed.

Lemma length_zeroed n : 0 <= n → lenZ (zeroed n) = n.
Proof. intros. unfold zeroed. rewrite length_replicate. lia. Qed.

#[export] Hint Resolve u64_range s32_range s64_range u8_range : ldd.
