(* ===== verification/Ring.v ===== *)
(** * Ring buffers

    The part of a block [b] between a read index and a write index that wrap at
    its end, as a queue. One cell stays free, so equal indices mean empty. The
    pipe of scull and the output buffer of shortprint are rings. *)

From stdpp Require Import base tactics numbers list.
From S2P Require Import Prelude.
From Stdlib Require Import ZArith Lia.

Open Scope Z_scope.

(** An index that reached the end goes back to the start. *)
Definition wrap (len i : Z) : Z := if i =? len then 0 else i.

Definition ring {A} (b : list A) (rp wp : Z) : list A :=
  if rp <=? wp then slice rp (wp - rp) b
  else slice rp (lenZ b - rp) b ++ slice 0 wp b.

(** Cells that can be taken, or filled, without wrapping. *)
Definition ring_avail (len rp wp : Z) : Z := if rp <=? wp then wp - rp else len - rp.
Definition ring_room (len rp wp : Z) : Z :=
  if rp <=? wp then Z.min (len - 1 - (wp - rp)) (len - wp) else rp - wp - 1.

Section slices.
Context {A : Type}.
Implicit Types (b l src : list A) (i n m : Z).

Lemma slice_0 i b : slice i 0 b = [].
Proof. done. Qed.

Lemma slice_app i n m b : 0 <= i → 0 <= n → 0 <= m →
  slice i (n + m) b = slice i n b ++ slice (i + n) m b.
Proof.
  intros. unfold slice. rewrite !Z2Nat.inj_add, <-drop_drop by lia.
  by rewrite take_take_drop.
Qed.

Lemma slice_split i j k b : 0 <= i <= j → j <= k →
  slice i (k - i) b = slice i (j - i) b ++ slice j (k - j) b.
Proof.
  intros. replace (k - i) with ((j - i) + (k - j)) by lia. rewrite slice_app by lia.
  do 2 f_equal. lia.
Qed.

Lemma slice_store_disjoint i n k src b :
  0 <= i → 0 <= k → 0 <= n → i + n <= lenZ b → i + n <= k ∨ k + lenZ src <= i →
  slice i n (store k src b) = slice i n b.
Proof.
  intros ? ? ? ? Hd. apply list_eq. intros j. destruct (decide (Z.of_nat j < n)).
  - rewrite !lookup_slice by lia. apply lookup_store_out; lia.
  - unfold slice. rewrite !lookup_take_ge by lia. done.
Qed.
End slices.

Section ring.
Context {A : Type}.
Implicit Types (b src : list A) (rp wp n : Z).

Lemma length_ring b rp wp :
  0 <= rp < lenZ b → 0 <= wp < lenZ b →
  lenZ (ring b rp wp) = if rp <=? wp then wp - rp else lenZ b - rp + wp.
Proof.
  intros. unfold ring. case_match; zbool; [by apply length_slice; lia|].
  rewrite length_app, Nat2Z.inj_add, !length_slice; lia.
Qed.

Lemma ring_empty b rp : ring b rp rp = [].
Proof. unfold ring. rewrite Z.leb_refl, Z.sub_diag. done. Qed.

(** Taking [n] cells from the front. *)
Lemma ring_pop b rp wp n :
  0 <= rp < lenZ b → 0 <= wp < lenZ b → 0 <= n <= ring_avail (lenZ b) rp wp →
  ring b rp wp = slice rp n b ++ ring b (wrap (lenZ b) (rp + n)) wp.
Proof.
  intros ? ? Hn. unfold ring, ring_avail, wrap in *.
  destruct (rp <=? wp) eqn:E; zbool.
  - destruct (rp + n =? lenZ b) eqn:E2; zbool; [lia|].
    rewrite (proj2 (Z.leb_le (rp + n) wp)) by lia.
    rewrite <-slice_app by lia. f_equal. lia.
  - destruct (rp + n =? lenZ b) eqn:E2; zbool.
    + rewrite (proj2 (Z.leb_le 0 wp)) by lia. do 2 f_equal; lia.
    + rewrite (proj2 (Z.leb_gt (rp + n) wp)) by lia. rewrite app_assoc.
      rewrite <-slice_app by lia. do 2 f_equal. lia.
Qed.

(** Adding [src] at the back. *)
Lemma ring_push b rp wp src :
  0 <= rp < lenZ b → 0 <= wp < lenZ b → lenZ src <= ring_room (lenZ b) rp wp →
  ring (store wp src b) rp (wrap (lenZ b) (wp + lenZ src)) = ring b rp wp ++ src.
Proof.
  intros ? ? Hn. unfold ring, ring_room, wrap in *. rewrite !length_store.
  destruct (rp <=? wp) eqn:E; zbool.
  - assert (slice rp (wp + lenZ src - rp) (store wp src b) = slice rp (wp - rp) b ++ src) as <-.
    { rewrite (slice_split rp wp) by lia. replace (wp + _ - wp) with (lenZ src) by lia.
      by rewrite slice_store_disjoint, slice_store by lia. }
    destruct (wp + lenZ src =? lenZ b) eqn:E2; zbool.
    + rewrite (proj2 (Z.leb_gt rp 0)), slice_0, app_nil_r by lia. f_equal. lia.
    + by rewrite (proj2 (Z.leb_le rp _)) by lia.
  - destruct (wp + lenZ src =? lenZ b) eqn:E2; zbool; [lia|].
    rewrite (proj2 (Z.leb_gt rp _)) by lia. rewrite <-app_assoc.
    rewrite slice_store_disjoint by lia. f_equal.
    rewrite slice_app by lia. rewrite slice_store_disjoint, slice_store by lia. done.
Qed.

(** What is free and what is taken add up to all cells but one. *)
Lemma ring_room_bounds len rp wp :
  0 <= rp < len → 0 <= wp < len → 0 <= ring_room len rp wp.
Proof. intros. unfold ring_room. case_match; zbool; lia. Qed.
End ring.

#[export] Hint Resolve ring_room_bounds : ldd.
