(* ===== verification/KMonad.v ===== *)
(** * The kernel monad

    Driver entry points are programs of type [K S A]: they read and update the
    driver's state [S], ask the kernel (the environment) through [call], may
    be overtaken by other tasks at the points where the source can sleep
    ([interfere]), and end in one of three ways: with a value, with an oops
    (NULL dereference, division by zero, access outside a block, unlocking a
    mutex that is not held, ...), or asleep for ever.

    The kernel itself is not under [src/]; it is the parameter [oracle]. What
    its documentation promises is a [contract], and [wp] quantifies over every
    oracle that obeys a contract. *)

From stdpp Require Import base tactics numbers list.
From S2P Require Import Prelude.
From Stdlib Require Import ZArith Lia.
From Stdlib Require String.

Open Scope Z_scope.

(** ** Programs *)

Inductive fault :=
| NullDeref | DivByZero | OutOfBounds | BadUnlock | Deadlock | DoubleFree | UseAfterFree
| BugOn | BadShift | StackSmash
| Endless.   (* a loop that must end went round more often than its bound *)

Inductive outcome (A : Type) :=
| Done (a : A)
| Oops (f : fault)
| Asleep.
Arguments Done {A} a.
Arguments Oops {A} f.
Arguments Asleep {A}.

#[export] Instance fault_eq_dec : EqDecision fault.
Proof. solve_decision. Defined.

#[export] Instance outcome_ret : MRet outcome := λ A a, Done a.
#[export] Instance outcome_bind : MBind outcome := λ A B f m,
  match m with Done a => f a | Oops e => Oops e | Asleep => Asleep end.

(** The kernel services whose answer the drivers branch on. *)
Inductive kcall :=
| mutex_lock_intr            (* mutex_lock_interruptible, down_interruptible *)
| kmalloc (n : Z)            (* kmalloc, vmalloc, __get_free_pages: 0 is NULL *)
| copy_user (n : Z)          (* copy_to_user, copy_from_user: bytes left *)
| capable                    (* capable(cap) *)
| access_ok
| get_user                   (* __get_user: 0 or -EFAULT *)
| put_user                   (* __put_user: 0 or -EFAULT *)
| user_int                   (* the int a user pointer designates *)
| wait_event                 (* wait_event_interruptible: nonzero on a signal *)
| signal_pending
| io_in (port : Z)           (* inb, ioread8 *)
| actual_length (n : Z)      (* of a bulk transfer of at most n bytes *)
| kint (what : String.string).      (* any other service: an int, or 0 for NULL *)

#[export] Instance kcall_eq_dec : EqDecision kcall.
Proof.
  assert (EqDecision String.string) by exact String.string_dec. solve_decision.
Defined.

Record oracle (S : Type) := Oracle {
  ans : kcall → nat → Z;         (* the answer of the [t]-th service asked *)
  junk : nat → nat → Z;          (* bytes a failing copy_from_user leaves *)
  others : nat → S → S           (* what other tasks do while this one waits *)
}.
Arguments Oracle {S} _ _ _.
Arguments ans {S} _ _ _.
Arguments junk {S} _ _ _.
Arguments others {S} _ _ _.

Definition K (S A : Type) : Type := oracle S → nat * S → outcome (A * (nat * S)).

#[export] Instance K_ret S : MRet (K S) := λ A a o s, Done (a, s).
#[export] Instance K_bind S : MBind (K S) := λ A B f m o s,
  match m o s with
  | Done (a, s') => f a o s'
  | Oops e => Oops e
  | Asleep => Asleep
  end.

Definition get {S} : K S S := λ o '(t, s), Done (s, (t, s)).
Definition put {S} (s' : S) : K S unit := λ o '(t, s), Done (tt, (t, s')).
Definition modify {S} (f : S → S) : K S unit := λ o '(t, s), Done (tt, (t, f s)).
Definition oops {S A} (f : fault) : K S A := λ o s, Oops f.
Definition sleep_forever {S A} : K S A := λ o s, Asleep.
Definition call {S} (c : kcall) : K S Z := λ o '(t, s), Done (ans o c t, (Datatypes.S t, s)).
Definition interfere {S} : K S unit := λ o '(t, s), Done (tt, (Datatypes.S t, others o t s)).
Definition junk_bytes {S} (n : nat) : K S (list Z) := λ o '(t, s),
  Done (junk o t <$> seq 0 n, (Datatypes.S t, s)).

Definition gets {S A} (f : S → A) : K S A := s ← get; mret (f s).

(** A pure computation that may fault. *)
Definition liftO {S A} (m : outcome A) : K S A := λ o s,
  match m with Done a => Done (a, s) | Oops e => Oops e | Asleep => Asleep end.

(** [p->field] for a pointer that may be NULL or out of range. *)
Definition deref {S A} (f : fault) (p : option A) : K S A :=
  match p with Some a => mret a | None => oops f end.

(** C division and remainder. *)
Definition cquot {S} (a b : Z) : K S Z :=
  if b =? 0 then oops DivByZero else mret (Z.quot a b).
Definition crem {S} (a b : Z) : K S Z :=
  if b =? 0 then oops DivByZero else mret (Z.rem a b).

(** Run from tick 0. *)
Definition run {S A} (o : oracle S) (m : K S A) (s : S) : outcome (A * S) :=
  match m o (0%nat, s) with
  | Done (a, (_, s')) => Done (a, s')
  | Oops f => Oops f
  | Asleep => Asleep
  end.

(** The memory read from user space: the [n] bytes of [src], or, when the copy
    stops [left] bytes early, its first [n - left] bytes and then junk. *)
Definition copy_from_user {S} (src : list Z) : K S (list cell * bool) :=
  left ← call (copy_user (lenZ src));
  if left =? 0 then mret (Some <$> src, true) else
  tl ← junk_bytes (Z.to_nat left);
  mret (Some <$> (take (length src - Z.to_nat left) src ++ tl), false).

(** What reaches user space, and whether the copy was complete. *)
Definition copy_to_user {S} (src : list cell) : K S (list cell * bool) :=
  left ← call (copy_user (lenZ src));
  mret (take (length src - Z.to_nat left) src, left =? 0).

(** ** Mutexes

    [lock_of s] says whether the running task holds the device's lock. *)
Class HasLock (S : Type) := {
  lock_of : S → bool;
  set_lock : bool → S → S;
  lock_set : ∀ b s, lock_of (set_lock b s) = b
}.

(** Before it gets the lock a task may wait, and other tasks may run. *)
Definition lock_interruptible {St} `{!HasLock St} : K St bool :=
  interfere;;
  r ← call mutex_lock_intr;
  if r =? 0 then
    s ← get;
    if lock_of s then oops Deadlock else put (set_lock true s);; mret true
  else mret false.

Definition lock {St} `{!HasLock St} : K St unit :=
  interfere;;
  s ← get;
  if lock_of s then oops Deadlock else put (set_lock true s).

Definition unlock {St} `{!HasLock St} : K St unit :=
  s ← get;
  if lock_of s then put (set_lock false s) else oops BadUnlock.

(** [wait_event_interruptible(queue, cond)]: 0 once the condition holds,
    [-ERESTARTSYS] when a signal comes first; a task nobody wakes stays asleep. *)
Definition wait_event_interruptible {St} (cond : St → bool) : K St Z :=
  interfere;;
  s ← get;
  if cond s then mret 0 else
  interfere;;
  r ← call wait_event;
  if negb (r =? 0) then mret (- ERESTARTSYS) else
  s ← get;
  if cond s then mret 0 else sleep_forever.

(** ** Contracts and weakest preconditions *)

Record contract (S : Type) := Contract {
  c_ans : kcall → Z → Prop;      (* answers the services may give *)
  c_rely : S → S → Prop;         (* what other tasks may do *)
  c_sleep : Prop                 (* whether never returning is accepted *)
}.
Arguments Contract {S} _ _ _.
Arguments c_ans {S} _ _ _.
Arguments c_rely {S} _ _ _.
Arguments c_sleep {S} _.

Definition obeys {S} (o : oracle S) (C : contract S) : Prop :=
  (∀ c t, c_ans C c (ans o c t)) ∧ (∀ t s, c_rely C s (others o t s)).

Definition wp {S A} (C : contract S) (m : K S A) (Q : A → S → Prop) (s : S) : Prop :=
  ∀ o, obeys o C → ∀ t,
    match m o (t, s) with
    | Done (a, (_, s')) => Q a s'
    | Oops _ => False
    | Asleep => c_sleep C
    end.

(** The answers the kernel's documentation allows. *)
Definition doc_ans (c : kcall) (z : Z) : Prop :=
  match c with
  | copy_user n | actual_length n => 0 <= z <= Z.max 0 n
  | get_user | put_user => z = 0 ∨ z = - EFAULT
  | user_int => - 2 ^ 31 <= z < 2 ^ 31
  | io_in _ => 0 <= z < 256
  | kint _ => - 2 ^ 31 <= z < 2 ^ 31
  | _ => True
  end.

(** The answers of a kernel that has memory, faults no user page, sends no
    signal and grants every capability. *)
Definition good_ans (c : kcall) (z : Z) : Prop :=
  doc_ans c z ∧
  match c with
  | mutex_lock_intr | copy_user _ | get_user | put_user | wait_event | signal_pending => z = 0
  | kmalloc _ | capable | access_ok => z ≠ 0
  | _ => True
  end.

(** Other tasks leave this device alone. *)
Definition alone {S} : S → S → Prop := eq.

Definition quiet (S : Type) : contract S := Contract good_ans alone False.

(** A kernel obeying [quiet], used to evaluate programs. *)
Definition quiet_ans (c : kcall) (t : nat) : Z :=
  match c with kmalloc _ | capable | access_ok => 1 | _ => 0 end.
Definition quiet_oracle {S} : oracle S := Oracle quiet_ans (λ _ _, 0) (λ _ s, s).

(** ** Rules *)

Section rules.
Context {S : Type}.
Implicit Types (C : contract S) (s : S).

Lemma wp_ret {A} C (a : A) Q s : Q a s → wp C (mret a) Q s.
Proof. by intros ? o _ t. Qed.

Lemma wp_bind {A B} C (m : K S A) (f : A → K S B) Q s :
  wp C m (λ a s', wp C (f a) Q s') s → wp C (m ≫= f) Q s.
Proof.
  intros H o Ho t. specialize (H o Ho t). unfold mbind, K_bind.
  destruct (m o (t, s)) as [[a [t' s']]|f'|]; simpl in *; [|done|done].
  by apply H.
Qed.

(** A step that is known to end. *)
Lemma bind_done {A B} (m : K S A) (f : A → K S B) o ts a ts' :
  m o ts = Done (a, ts') → (m ≫= f) o ts = f a o ts'.
Proof. intros E. unfold mbind, K_bind. by rewrite E. Qed.

Lemma wp_get C Q s : Q s s → wp C get Q s.
Proof. by intros ? o _ t. Qed.

Lemma wp_gets {A} C (f : S → A) Q s : Q (f s) s → wp C (gets f) Q s.
Proof. by intros ? o _ t. Qed.

Lemma wp_put C s' Q s : Q tt s' → wp C (put s') Q s.
Proof. by intros ? o _ t. Qed.

Lemma wp_modify C f Q s : Q tt (f s) → wp C (modify f) Q s.
Proof. by intros ? o _ t. Qed.

Lemma wp_call C c Q s : (∀ z, c_ans C c z → Q z s) → wp C (call c) Q s.
Proof. intros H o [Ho _] t. simpl. apply H, Ho. Qed.

Lemma wp_interfere C Q s : (∀ s', c_rely C s s' → Q tt s') → wp C interfere Q s.
Proof. intros H o [_ Ho] t. simpl. apply H, Ho. Qed.

Lemma wp_junk C n Q s : (∀ l, length l = n → Q l s) → wp C (junk_bytes n) Q s.
Proof. intros H o _ t. simpl. apply H. by rewrite length_fmap, length_seq. Qed.

Lemma wp_sleep {A} C Q s : c_sleep C → wp C (sleep_forever (A:=A)) Q s.
Proof. by intros ? o _ t. Qed.

Lemma wp_liftO {A} C (m : outcome A) Q s a :
  m = Done a → Q a s → wp C (liftO m) Q s.
Proof. intros -> ? o _ t. done. Qed.

Lemma wp_deref {A} C f (p : option A) Q s a :
  p = Some a → Q a s → wp C (deref f p) Q s.
Proof. intros -> ?. by apply wp_ret. Qed.

Lemma wp_cquot C a b Q s : b ≠ 0 → Q (Z.quot a b) s → wp C (cquot a b) Q s.
Proof. intros ? ?. unfold cquot. case_match; zbool; [done|by apply wp_ret]. Qed.

Lemma wp_crem C a b Q s : b ≠ 0 → Q (Z.rem a b) s → wp C (crem a b) Q s.
Proof. intros ? ?. unfold crem. case_match; zbool; [done|by apply wp_ret]. Qed.

Lemma wp_mono {A} C (m : K S A) (P Q : A → S → Prop) s :
  wp C m P s → (∀ a s', P a s' → Q a s') → wp C m Q s.
Proof.
  intros H HPQ o Ho t. specialize (H o Ho t).
  destruct (m o (t, s)) as [[a [t' s']]|f'|]; eauto.
Qed.

Lemma wp_copy_to_user C (src : list cell) Q s :
  (∀ z, c_ans C (copy_user (lenZ src)) z →
        Q (take (length src - Z.to_nat z) src, z =? 0) s) →
  wp C (copy_to_user src) Q s.
Proof. intros H. apply wp_bind, wp_call. intros z Hz. apply wp_ret. by apply H. Qed.

(** All of the source, or a block of the same length. *)
Lemma wp_copy_from_user C (src : list Z) Q s :
  (∀ z, c_ans C (copy_user (lenZ src)) z → doc_ans (copy_user (lenZ src)) z) →
  (∀ z, c_ans C (copy_user (lenZ src)) z → z = 0 → Q (Some <$> src, true) s) →
  (∀ z l, c_ans C (copy_user (lenZ src)) z → z ≠ 0 → length l = length src → Q (l, false) s) →
  wp C (copy_from_user src) Q s.
Proof.
  intros Hdoc Hok Hko. apply wp_bind, wp_call. intros z Hz.
  case_match; zbool; [apply wp_ret; eauto|].
  apply wp_bind, wp_junk. intros l Hl. apply wp_ret. apply (Hko z); [done..|].
  specialize (Hdoc z Hz). simpl in Hdoc.
  rewrite length_fmap, length_app, length_take. lia.
Qed.

Lemma wp_lock_interruptible `{HasLock S} C Q s :
  (∀ s', c_rely C s s' → lock_of s' = false) →
  (∀ s' z, c_rely C s s' → c_ans C mutex_lock_intr z → z = 0 → Q true (set_lock true s')) →
  (∀ s' z, c_rely C s s' → c_ans C mutex_lock_intr z → z ≠ 0 → Q false s') →
  wp C lock_interruptible Q s.
Proof.
  intros Hfree Ht Hf. unfold lock_interruptible.
  apply wp_bind, wp_interfere. intros s' Hs'.
  apply wp_bind, wp_call. intros z Hz.
  case_match; zbool; [|apply wp_ret; eauto].
  apply wp_bind, wp_get. rewrite Hfree by done.
  apply wp_bind, wp_put, wp_ret. eauto.
Qed.

Lemma wp_lock `{HasLock S} C Q s :
  (∀ s', c_rely C s s' → lock_of s' = false) →
  (∀ s', c_rely C s s' → Q tt (set_lock true s')) →
  wp C lock Q s.
Proof.
  intros Hfree Ht. unfold lock.
  apply wp_bind, wp_interfere. intros s' Hs'.
  apply wp_bind, wp_get. rewrite Hfree by done. apply wp_put. eauto.
Qed.

Lemma wp_unlock `{HasLock S} C Q s :
  lock_of s = true → Q tt (set_lock false s) → wp C unlock Q s.
Proof. intros Hl ?. apply wp_bind, wp_get. rewrite Hl. by apply wp_put. Qed.

(** The task wakes to the condition or to a signal, somewhere the other tasks
    led. *)
Lemma wp_wait_event C cond Q s :
  c_sleep C →
  (∀ s1, c_rely C s s1 → cond s1 = true → Q 0 s1) →
  (∀ s1 s2, c_rely C s s1 → c_rely C s1 s2 → cond s2 = true → Q 0 s2) →
  (∀ s1 s2 z, c_rely C s s1 → c_rely C s1 s2 → c_ans C wait_event z → z ≠ 0 →
    Q (- ERESTARTSYS) s2) →
  wp C (wait_event_interruptible cond) Q s.
Proof.
  intros Hsl H1 H2 H3. unfold wait_event_interruptible.
  apply wp_bind, wp_interfere. intros s1 Hs1. apply wp_bind, wp_get.
  destruct (cond s1) eqn:E1; [by apply wp_ret, H1|].
  apply wp_bind, wp_interfere. intros s2 Hs2. apply wp_bind, wp_call. intros z Hz.
  case_match; zbool; [by eapply wp_ret, H3|].
  apply wp_bind, wp_get. destruct (cond s2) eqn:E2; [by eapply wp_ret, H2|by apply wp_sleep].
Qed.

(** From a triple to a run. *)
Lemma wp_run {A} C (m : K S A) Q s o a s' :
  wp C m Q s → obeys o C → run o m s = Done (a, s') → Q a s'.
Proof.
  intros H Ho. unfold run. specialize (H o Ho 0%nat).
  destruct (m o (0%nat, s)) as [[? [? ?]]|f|]; naive_solver.
Qed.

Lemma wp_total {A} C (m : K S A) Q s o :
  wp C m Q s → obeys o C → ¬ c_sleep C → ∃ a s', run o m s = Done (a, s') ∧ Q a s'.
Proof.
  intros H Ho ?. unfold run. specialize (H o Ho 0%nat).
  destruct (m o (0%nat, s)) as [[? [? ?]]|f|]; naive_solver.
Qed.
End rules.

Lemma quiet_obeys {S} : obeys (S:=S) quiet_oracle (quiet S).
Proof.
  split; [|done]. intros c t. split; destruct c; simpl; try done; lia.
Qed.

(** Under a quiet kernel a free lock is taken at once, and waiting changes
    nothing. *)
Lemma wp_interfere_quiet {S} (Q : unit → S → Prop) s : Q tt s → wp (quiet S) interfere Q s.
Proof. intros HQ. apply wp_interfere. intros s' Hr. change (s = s') in Hr. by subst s'. Qed.

Lemma wp_lock_quiet {S} `{!HasLock S} (Q : unit → S → Prop) s :
  lock_of s = false → Q tt (set_lock true s) → wp (quiet S) lock Q s.
Proof.
  intros Hl HQ. apply wp_lock; intros s' Hr; change (s = s') in Hr; by subst s'.
Qed.

Lemma wp_lock_interruptible_quiet {S} `{!HasLock S} (Q : bool → S → Prop) s :
  lock_of s = false → Q true (set_lock true s) → wp (quiet S) lock_interruptible Q s.
Proof.
  intros Hl HQ. apply wp_lock_interruptible.
  - intros s' Hr. change (s = s') in Hr. by subst s'.
  - intros s' z Hr _ _. change (s = s') in Hr. by subst s'.
  - by intros s' z _ [_ ?] ?.
Qed.

(** The documented kernel, with other tasks bound by a rely. *)
Definition documented {S} (rely : S → S → Prop) (sleep : Prop) : contract S :=
  Contract doc_ans rely sleep.

Lemma good_doc c z : good_ans c z → doc_ans c z.
Proof. by intros [? _]. Qed.

(** ** Symbolic execution of a program

    [wp_step] runs one command; the goals left are the side conditions. *)
Ltac wp_step :=
  match goal with
  | |- wp _ (mbind _ _) _ _ => apply wp_bind
  | |- wp _ (mret _) _ _ => apply wp_ret
  | |- wp _ get _ _ => apply wp_get
  | |- wp _ (gets _) _ _ => apply wp_gets
  | |- wp _ (put _) _ _ => apply wp_put
  | |- wp _ (modify _) _ _ => apply wp_modify
  | |- wp _ (call _) _ _ => apply wp_call; intros ? ?
  | |- wp _ interfere _ _ => apply wp_interfere; intros ? ?
  | |- wp _ (junk_bytes _) _ _ => apply wp_junk; intros ? ?
  | |- wp _ (if ?b then _ else _) _ _ => destruct b eqn:?; zbool
  | |- wp _ (match ?x with Some _ => _ | None => _ end) _ _ => destruct x eqn:?
  | |- wp _ (match ?x with (_, _) => _ end) _ _ => destruct x eqn:?
  end.
Ltac wp_go := cbn beta iota delta [negb]; repeat (wp_step; cbn beta iota delta [negb]).

#[export] Hint Resolve quiet_obeys good_doc : ldd.

(** ** Drivers as state machines

    A driver is a family of entry points over a shared state. The kernel calls
    them in any order, within what its documentation allows, and between two
    calls other tasks may act. *)
Section driver.
Context {S Op R : Type} (handle : Op → K S R).
Context (allowed : S → Op → Prop) (C : contract S) (init : S → Prop).

Inductive reachable : S → Prop :=
| reach_init s : init s → reachable s
| reach_call s op o t r t' s' :
    reachable s → allowed s op → obeys o C →
    handle op o (t, s) = Done (r, (t', s')) → reachable s'
| reach_peer s s' : reachable s → c_rely C s s' → reachable s'.

(** No entry point ever faults, or sleeps when that is not accepted. *)
Definition faultless : Prop := ∀ s op o t,
  reachable s → allowed s op → obeys o C →
  match handle op o (t, s) with Done _ => True | Oops _ => False | Asleep => c_sleep C end.

(** [inv] is kept by every call. *)
Definition inductive_inv (inv : S → Prop) : Prop :=
  (∀ s, init s → inv s) ∧
  (∀ s op, inv s → allowed s op → wp C (handle op) (λ _, inv) s) ∧
  (∀ s s', inv s → c_rely C s s' → inv s').

Lemma reachable_inv inv s : inductive_inv inv → reachable s → inv s.
Proof.
  intros (Hinit & Hcall & Hpeer). induction 1 as [| s op o t r t' s' _ IH ? Ho E |]; eauto.
  specialize (Hcall s op IH ltac:(done) o Ho t). by rewrite E in Hcall.
Qed.

Lemma inv_faultless inv : inductive_inv inv → faultless.
Proof.
  intros Hinv s op o t Hs Hop Ho. pose proof (reachable_inv _ _ Hinv Hs).
  destruct Hinv as (_ & Hcall & _). specialize (Hcall s op ltac:(done) Hop o Ho t).
  by destruct (handle op o (t, s)) as [[? []]| |].
Qed.
End driver.
Arguments reachable {S Op R} handle allowed C init s.
Arguments faultless {S Op R} handle allowed C init.

(** The result of an entry point, mapped: what a table of entry points with
    different result types is made of. *)
Definition kfmap {S A B} (f : A → B) (m : K S A) : K S B := a ← m; mret (f a).

Lemma wp_kfmap {S A B} C (f : A → B) (m : K S A) Q s :
  wp C m (λ a, Q (f a)) s → wp C (kfmap f m) Q s.
Proof. intros. apply wp_bind. eapply wp_mono; [done|]. intros. by apply wp_ret. Qed.

(** ** Loops with a counter

    [for (i = 0; i < n; i++) f(i)] *)
Fixpoint for_each {S A} (n i : nat) (f : nat → K S A) : K S unit :=
  match n with
  | O => mret tt
  | Datatypes.S n' => f i;; for_each n' (Datatypes.S i) f
  end.

(** The rule, with an invariant [I] indexed by the counter. *)
Lemma wp_for_each {S A} (C : contract S) n i (f : nat → K S A) (I : nat → S → Prop) Q s :
  I i s →
  (∀ j s, (i <= j < i + n)%nat → I j s → wp C (f j) (λ _ s', I (Datatypes.S j) s') s) →
  (∀ s', I (i + n)%nat s' → Q tt s') →
  wp C (for_each n i f) Q s.
Proof.
  revert i s; induction n as [|n IH]; intros i s Hi Hf HQ; simpl.
  - wp_step. apply HQ. by rewrite Nat.add_0_r.
  - wp_step. eapply wp_mono; [apply Hf; [lia|done]|]. intros a s' Hs'.
    apply (IH (Datatypes.S i)); [done|..].
    + intros j s'' Hj. apply Hf. lia.
    + intros s'' H. apply HQ.
      by replace (i + Datatypes.S n)%nat with (Datatypes.S i + n)%nat by lia.
Qed.

(** A triple for a kernel that may do more holds for one that may do less. *)
Lemma wp_weaken {S A} (C C' : contract S) (m : K S A) Q s :
  (∀ c z, c_ans C' c z → c_ans C c z) → (∀ s1 s2, c_rely C' s1 s2 → c_rely C s1 s2) →
  (c_sleep C → c_sleep C') → wp C m Q s → wp C' m Q s.
Proof.
  intros Ha Hr Hs H o [Ho1 Ho2] t. specialize (H o).
  assert (obeys o C) as Ho by (split; auto).
  specialize (H Ho t). by destruct (m o (t, s)) as [[? [? ?]]| |]; auto.
Qed.

(** ** Working on a part of the state

    A program over [T] run on the part of an [S] that [view] and [update]
    designate; it must not wait, for nobody acts on the rest meanwhile. *)
Section zoom.
Context {S T : Type} (view : S → T) (update : T → S → S).

Definition zoom {A} (m : K T A) : K S A := λ o '(t, s),
  match m (Oracle (ans o) (junk o) (λ _ x, x)) (t, view s) with
  | Done (a, (t', x)) => Done (a, (t', update x s))
  | Oops f => Oops f
  | Asleep => Asleep
  end.

Lemma wp_zoom {A} (C : contract S) (m : K T A) Q s :
  wp (Contract (c_ans C) alone (c_sleep C)) m (λ a x, Q a (update x s)) (view s) →
  wp C (zoom m) Q s.
Proof.
  intros H o Ho t. unfold zoom. cbn.
  specialize (H (Oracle (ans o) (junk o) (λ _ x, x))).
  assert (obeys (Oracle (ans o) (junk o) (λ (_ : nat) (x : T), x))
    (Contract (c_ans C) alone (c_sleep C))) as Ho' by (split; [apply Ho|done]).
  specialize (H Ho' t). destruct (m _ (t, view s)) as [[a [t' x]]| |]; done.
Qed.
End zoom.

(** ** Tables of devices

    A part of the state that is an array, NULL before it is allocated. *)
Class HasTable (S T : Type) := {
  table_of : S → option (list T);
  set_table : list T → S → S;
  table_set : ∀ l s, table_of (set_table l s) = Some l;
  set_set_table : ∀ l l' s, set_table l (set_table l' s) = set_table l s;
  set_table_same : ∀ l s, table_of s = Some l → set_table l s = s
}.

Section table.
Context {S T : Type} `{!HasTable S T}.

(** [m] on the entry [table + i]. *)
Definition at_entry (i : nat) (m : K T unit) : K S unit :=
  d ← gets (λ s : S, table_of s ≫= (.!! i)) ≫= deref OutOfBounds;
  zoom (λ _, d) (λ d s, set_table (<[i := d]> (default [] (table_of s))) s) m.

Lemma wp_at_entry (C : contract S) i (m : K T unit) l x s (Q : unit → S → Prop) :
  table_of s = Some l → l !! i = Some x →
  wp (Contract (c_ans C) alone (c_sleep C)) m (λ _ x', Q tt (set_table (<[i := x']> l) s)) x →
  wp C (at_entry i m) Q s.
Proof.
  intros Hs Hx H. unfold at_entry. wp_step. wp_step. wp_step.
  apply (wp_deref _ _ _ _ _ x); [by rewrite Hs|]. apply wp_zoom.
  eapply wp_mono; [exact H|]. intros [] x'. by rewrite Hs.
Qed.

(** A loop over the entries takes each from [P] to [R]. *)
Lemma wp_for_entries (C : contract S) (m : nat → K T unit) (P R : T → Prop) l s (Q : unit → S → Prop) :
  table_of s = Some l → Forall P l →
  (∀ i x, P x → wp (Contract (c_ans C) alone (c_sleep C)) (m i) (λ _, R) x) →
  (∀ l', length l' = length l → Forall R l' → Q tt (set_table l' s)) →
  wp C (for_each (length l) 0 (λ i, at_entry i (m i))) Q s.
Proof.
  intros Hs HP Hm HQ. apply (wp_for_each _ _ _ _ (λ j s', ∃ l', s' = set_table l' s ∧
    length l' = length l ∧ Forall R (take j l') ∧ Forall P (drop j l'))).
  - exists l. by rewrite set_table_same.
  - intros j s1 Hj (l1 & -> & Hlen & HR & HP1).
    destruct (lookup_lt_is_Some_2 l1 j) as [x Hx]; [lia|].
    apply (wp_at_entry _ _ _ l1 x); [apply table_set|done|].
    rewrite (drop_S _ _ _ Hx) in HP1. apply Forall_cons in HP1 as [Hpx HP1].
    eapply wp_mono; [by apply Hm|]. intros [] x' Hx'. exists (<[j := x']> l1).
    split_and!; [by rewrite set_set_table|by rewrite length_insert| |].
    + rewrite (take_S_r _ _ x') by (apply list_lookup_insert_eq; lia).
      rewrite take_insert_ge by lia. by apply Forall_app_2, Forall_singleton.
    + by rewrite drop_insert_lt by lia.
  - intros s1 (l1 & -> & Hlen & HR & _). apply HQ; [done|].
    rewrite take_ge in HR by lia. done.
Qed.
End table.
