(* ===== verification/Quanta.v ===== *)
(** * Devices made of quanta

    The drivers of the scull family keep a list of arrays of blocks of
    [quantum] bytes. What their transfer routines have in common: the result of
    a transfer, finding the block of a file position, cutting a count at the
    end of a block. *)

From stdpp Require Import base tactics numbers list.
From S2P Require Import Prelude KMonad.
From Stdlib Require Import ZArith Lia.

Open Scope Z_scope.

(** What a transfer returns: the value of the call, the bytes that reached
    user space and the new [*f_pos]. *)
Record xfer := Xfer { retval : Z; out : list cell; pos : Z }.

(** "Find listitem, qset index, and offset in the quantum": the four divisions
    the transfer routines start with. *)
Definition find_slot {S} (quantum itemsize f_pos : Z) : K S (Z * Z * Z) :=
  item ← cquot f_pos itemsize;
  rest ← crem f_pos itemsize;
  s_pos ← cquot (s32 rest) quantum;
  q_pos ← crem (s32 rest) quantum;
  mret (s32 item, s_pos, q_pos).

Lemma slot_bounds q n p :
  0 < q → 0 < n → 0 <= p mod (q * n) / q < n ∧ 0 <= p mod q < q.
Proof.
  intros Hq Hn. pose proof (Z.mod_pos_bound p (q * n)). pose proof (Z.mod_pos_bound p q).
  split; [|lia]. split; [apply Z.div_pos; lia|apply Z.div_lt_upper_bound; lia].
Qed.

(** The index of a block in its array is that of the block of the whole
    device, modulo the arrays. *)
Lemma slot_index q n p : 0 < q → 0 < n → p mod (q * n) / q = (p / q) mod n.
Proof.
  intros Hq Hn. rewrite Z.rem_mul_r, Z.mul_comm, Z.div_add by lia.
  rewrite Z.div_small by (apply Z.mod_pos_bound; lia). lia.
Qed.

(** The index of the list item is an [int]. *)
Lemma wp_find_slot_at {S} (C : contract S) q n f_pos (Q : _ → S → Prop) s :
  0 < q → 0 < n → q * n <= INT_MAX → 0 <= f_pos <= LONG_MAX →
  (∀ item, u32 item = u32 (f_pos / (q * n)) →
    Q (item, f_pos mod (q * n) / q, f_pos mod q) s) →
  wp C (find_slot q (s32 (q * n)) f_pos) Q s.
Proof.
  intros Hq Hn Hm Hp HQ. unfold INT_MAX in *. unfold find_slot.
  assert (0 < q * n) by nia. rewrite (s32_small (q * n)) by lia.
  wp_step. apply wp_cquot; [lia|]. wp_step. apply wp_crem; [lia|].
  wp_step. apply wp_cquot; [lia|]. wp_step. apply wp_crem; [lia|]. wp_step.
  pose proof (Z.mod_pos_bound f_pos (q * n)).
  rewrite Z.quot_div_nonneg, Z.rem_mod_nonneg by lia.
  rewrite (s32_small (f_pos mod _)) by lia.
  rewrite Z.quot_div_nonneg, Z.rem_mod_nonneg, mod_mul_mod by lia.
  apply HQ, u32_s32.
Qed.

(** [if (count > quantum - q_pos) count = quantum - q_pos;] *)
Lemma count_clipped q k n :
  0 <= k < q → q <= INT_MAX →
  (if n >? u64 (q - k) then q - k else n) = Z.min n (q - k).
Proof.
  unfold INT_MAX. intros. rewrite u64_small by lia. case_match; zbool; lia.
Qed.

(** ** Tunables

    The ioctls of the family set and get two tunables in six ways. *)

(** The value of the call and the [int] stored through the user's pointer. *)
Definition ioctl_result : Type := Z * option Z.

Section tunables.
Context {St : Type}.
Implicit Types (field : St → Z) (set : Z → St → St).

(** [__get_user(x, arg)]: [x] is assigned even when the access fails. *)
Definition get_user_into set : K St Z :=
  err ← call get_user;
  x ← call user_int;
  modify (set x);;
  mret err.

(** [__put_user(x, arg)]. *)
Definition put_user_from (x : Z) : K St ioctl_result :=
  err ← call put_user;
  mret (err, if err =? 0 then Some x else None).

(** "S means Set through a ptr, T means Tell directly, G means Get, Q means
    Query, X means eXchange, H means sHift." *)
Definition ioctl_S set : K St ioctl_result :=
  err ← get_user_into set; mret (err, None).
Definition ioctl_T set (arg : Z) : K St ioctl_result :=
  modify (set (s32 arg));; mret (0, None).
Definition ioctl_G field : K St ioctl_result :=
  x ← gets field; put_user_from x.
Definition ioctl_Q field : K St ioctl_result :=
  x ← gets field; mret (x, None).
Definition ioctl_X field set : K St ioctl_result :=
  tmp ← gets field;
  err ← get_user_into set;
  if err =? 0 then put_user_from tmp else mret (err, None).
Definition ioctl_H field set (arg : Z) : K St ioctl_result :=
  tmp ← gets field; modify (set (s32 arg));; mret (tmp, None).

Lemma wp_put_user_from C x s (Q : ioctl_result → St → Prop) :
  (∀ z, c_ans C put_user z → Q (z, if z =? 0 then Some x else None) s) →
  wp C (put_user_from x) Q s.
Proof. intros. unfold put_user_from. wp_go. eauto. Qed.
End tunables.
