(* ===== verification/Scull.v ===== *)
(** * scull: the bare device (src/ldd4/scull/main.c, scull.h)

    A scull device is a list of quantum sets; each set is an array of
    [qset] pointers to quanta of [quantum] bytes. The model keeps the list as
    a Rocq list, a NULL pointer as [None], and a quantum as a block of cells,
    so that bytes nobody wrote are visible. [live] counts the blocks the
    driver holds from [kmalloc]. *)

From stdpp Require Import base tactics numbers list.
From S2P Require Import Prelude KMonad Quanta.
From Stdlib Require Import ZArith Lia.

Open Scope Z_scope.

(** ** Data *)

(** [struct scull_qset]: the array [data] (NULL: [None]); [next] is the tail
    of the list it is in. *)
Abbreviation qset_item := (option (list (option (list cell)))) (only parsing).

(** [struct scull_dev]. [mutex] says whether the running task holds it. *)
Record scull_dev := ScullDev {
  data : list qset_item;
  quantum : Z;
  qset : Z;
  size : Z;
  mutex : bool
}.

(** The device an open file designates, with the globals of the module. *)
Record scull := Scull {
  dev : scull_dev;
  scull_quantum : Z;
  scull_qset : Z;
  scull_p_buffer : Z;
  live : Z
}.

Definition SCULL_QUANTUM : Z := 4000.
Definition SCULL_QSET : Z := 1000.
Definition SCULL_P_BUFFER : Z := 4000.

Definition sizeof_qset : Z := 16.
Definition sizeof_ptr : Z := 8.

(** Field updates. *)
Definition set_data (l : list qset_item) (s : scull) : scull :=
  Scull (ScullDev l (quantum (dev s)) (qset (dev s)) (size (dev s)) (mutex (dev s)))
    (scull_quantum s) (scull_qset s) (scull_p_buffer s) (live s).
Definition set_size (n : Z) (s : scull) : scull :=
  Scull (ScullDev (data (dev s)) (quantum (dev s)) (qset (dev s)) n (mutex (dev s)))
    (scull_quantum s) (scull_qset s) (scull_p_buffer s) (live s).
Definition set_mutex (b : bool) (s : scull) : scull :=
  Scull (ScullDev (data (dev s)) (quantum (dev s)) (qset (dev s)) (size (dev s)) b)
    (scull_quantum s) (scull_qset s) (scull_p_buffer s) (live s).
Definition set_scull_quantum (z : Z) (s : scull) : scull :=
  Scull (dev s) z (scull_qset s) (scull_p_buffer s) (live s).
Definition set_scull_qset (z : Z) (s : scull) : scull :=
  Scull (dev s) (scull_quantum s) z (scull_p_buffer s) (live s).
Definition set_scull_p_buffer (z : Z) (s : scull) : scull :=
  Scull (dev s) (scull_quantum s) (scull_qset s) z (live s).
Definition add_live (n : Z) (s : scull) : scull :=
  Scull (dev s) (scull_quantum s) (scull_qset s) (scull_p_buffer s) (live s + n).

#[export] Instance scull_lock : HasLock scull :=
  { lock_of s := mutex (dev s); set_lock := set_mutex; lock_set b s := eq_refl }.

(** ** Trimming *)

(** [for (i = 0; i < qset; i++) kfree(dptr->data[i]);] The number of blocks
    freed; [kfree(NULL)] frees none. *)
Fixpoint free_quanta (n i : nat) (arr : list (option (list cell))) : outcome Z :=
  match n with
  | O => Done 0
  | S n' =>
      match arr !! i with
      | None => Oops OutOfBounds
      | Some q =>
          k ← free_quanta n' (S i) arr;
          mret (match q with Some _ => 1 + k | None => k end)
      end
  end.

Fixpoint free_items (qset : Z) (l : list qset_item) : outcome Z :=
  match l with
  | [] => Done 0
  | it :: next =>
      k ← match it with
          | Some arr => k ← free_quanta (Z.to_nat qset) 0 arr; mret (1 + k)
          | None => mret 0
          end;
      r ← free_items qset next;
      mret (k + 1 + r)
  end.

Definition scull_trim : K scull Z :=
  s ← get;
  k ← liftO (free_items (qset (dev s)) (data (dev s)));
  put (Scull (ScullDev [] (scull_quantum s) (scull_qset s) 0 (mutex (dev s)))
         (scull_quantum s) (scull_qset s) (scull_p_buffer s) (live s - k));;
  mret 0.

(** ** Open and release *)

Definition scull_open (f_flags : Z) : K scull Z :=
  if Z.land f_flags O_ACCMODE =? O_WRONLY then
    ok ← lock_interruptible;
    if ok : bool then scull_trim;; unlock;; mret 0
    else mret (- ERESTARTSYS)
  else mret 0.

Definition scull_release : K scull Z := mret 0.

(** ** Following the list *)

(** [kmalloc]; false is NULL. *)
Definition alloc (n : Z) : K scull bool :=
  z ← call (kmalloc n);
  if z =? 0 then mret false else modify (add_live 1);; mret true.

(** A zeroed [struct scull_qset] at the end of the list. *)
Definition append_item : K scull bool :=
  ok ← alloc sizeof_qset;
  if ok : bool then modify (λ s, set_data (data (dev s) ++ [None]) s);; mret true
  else mret false.

Fixpoint follow_loop (n i : nat) : K scull (option nat) :=
  match n with
  | O => mret (Some i)
  | S n' =>
      l ← gets (λ s, data (dev s));
      ok ← (if bool_decide (S i < length l)%nat then mret true else append_item);
      if ok : bool then follow_loop n' (S i) else mret None
  end.

(** The result is the index of the item in the list, [None] for NULL. The
    counter of [while (n--)] is an [int]: a negative one wraps. *)
Definition scull_follow (n : Z) : K scull (option nat) :=
  l ← gets (λ s, data (dev s));
  ok ← (if bool_decide (l = []) then append_item else mret true);
  if ok : bool then follow_loop (Z.to_nat (u32 n)) 0 else mret None.

(** ** Read and write *)

(** [dptr->data[s_pos] + q_pos], [n] bytes of it, as the source of a copy. *)
Definition quantum_bytes (q_pos n : Z) (b : list cell) : K scull (list cell) :=
  if bool_decide (0 <= q_pos ∧ 0 <= n ∧ q_pos + n <= lenZ b) then mret (slice q_pos n b)
  else oops OutOfBounds.

Definition scull_read (count f_pos : Z) : K scull xfer :=
  quantum ← gets (λ s, quantum (dev s));
  qset ← gets (λ s, qset (dev s));
  let itemsize := s32 (quantum * qset) in
  ok ← lock_interruptible;
  if negb ok then mret (Xfer (- ERESTARTSYS) [] f_pos) else
  size ← gets (λ s, size (dev s));
  if u64 f_pos >=? size then unlock;; mret (Xfer 0 [] f_pos) else
  let count := if u64 (f_pos + count) >? size then u64 (size - f_pos) else count in
  '(item, s_pos, q_pos) ← find_slot quantum itemsize f_pos;
  dptr ← scull_follow item;
  match dptr with
  | None => unlock;; mret (Xfer 0 [] f_pos)
  | Some i =>
      it ← gets (λ s, data (dev s)) ≫= λ l, deref NullDeref (l !! i);
      match it with
      | None => unlock;; mret (Xfer 0 [] f_pos)
      | Some arr =>
          q ← deref OutOfBounds (lookupZ arr s_pos);
          match q with
          | None => unlock;; mret (Xfer 0 [] f_pos)
          | Some b =>
              let count := if count >? u64 (quantum - q_pos) then quantum - q_pos else count in
              src ← quantum_bytes q_pos count b;
              '(bytes, ok) ← copy_to_user src;
              if negb ok then unlock;; mret (Xfer (- EFAULT) bytes f_pos)
              else unlock;; mret (Xfer count bytes (s64 (f_pos + count)))
          end
      end
  end.

(** [dptr->data = p], [dptr->data[s_pos] = p] for the item of index [i]. *)
Definition set_array (i : nat) (arr : list (option (list cell))) (s : scull) : scull :=
  set_data (<[i := Some arr]> (data (dev s))) s.
Definition set_block (i : nat) (s_pos : Z) (b : list cell) (s : scull) : scull :=
  set_data (alter (fmap (λ arr, <[Z.to_nat s_pos := Some b]> arr)) i (data (dev s))) s.

(** [if (!dptr->data) { dptr->data = kmalloc(...); memset(...) }] *)
Definition ensure_array (i : nat) (qset : Z) : K scull (option (list (option (list cell)))) :=
  it ← gets (λ s, data (dev s)) ≫= λ l, deref NullDeref (l !! i);
  match it with
  | Some arr => mret (Some arr)
  | None =>
      ok ← alloc (qset * sizeof_ptr);
      if ok : bool then
        modify (set_array i (replicate (Z.to_nat qset) None));;
        mret (Some (replicate (Z.to_nat qset) None))
      else mret None
  end.

(** [if (!dptr->data[s_pos]) dptr->data[s_pos] = kmalloc(quantum, ...);] The
    new quantum is not cleared. *)
Definition ensure_block (i : nat) (arr : list (option (list cell))) (s_pos quantum : Z) :
    K scull (option (list cell)) :=
  q ← deref OutOfBounds (lookupZ arr s_pos);
  match q with
  | Some b => mret (Some b)
  | None =>
      ok ← alloc quantum;
      if ok : bool then
        modify (set_block i s_pos (uninit quantum));; mret (Some (uninit quantum))
      else mret None
  end.

(** [buf] is the user's buffer, of [count] bytes. *)
Definition scull_write (buf : list Z) (f_pos : Z) : K scull xfer :=
  quantum ← gets (λ s, quantum (dev s));
  qset ← gets (λ s, qset (dev s));
  let itemsize := s32 (quantum * qset) in
  ok ← lock_interruptible;
  if negb ok then mret (Xfer (- ERESTARTSYS) [] f_pos) else
  '(item, s_pos, q_pos) ← find_slot quantum itemsize f_pos;
  dptr ← scull_follow item;
  match dptr with
  | None => unlock;; mret (Xfer (- ENOMEM) [] f_pos)
  | Some i =>
      arr ← ensure_array i qset;
      match arr with
      | None => unlock;; mret (Xfer (- ENOMEM) [] f_pos)
      | Some arr =>
          b ← ensure_block i arr s_pos quantum;
          match b with
          | None => unlock;; mret (Xfer (- ENOMEM) [] f_pos)
          | Some b =>
              let count := lenZ buf in
              let count := if count >? u64 (quantum - q_pos) then quantum - q_pos else count in
              quantum_bytes q_pos count b;;
              '(bytes, ok) ← copy_from_user (take (Z.to_nat count) buf);
              modify (set_block i s_pos (store q_pos bytes b));;
              if negb ok then unlock;; mret (Xfer (- EFAULT) [] f_pos) else
              let f_pos := s64 (f_pos + count) in
              modify (λ s, if size (dev s) <? u64 f_pos then set_size (u64 f_pos) s else s);;
              unlock;; mret (Xfer count [] f_pos)
          end
      end
  end.

(** ** Ioctl *)

Definition SCULL_IOC_MAGIC : Z := 107.   (* 'k' *)
Definition SCULL_IOC_MAXNR : Z := 14.
Definition SCULL_IOCRESET := _IO SCULL_IOC_MAGIC 0.
Definition SCULL_IOCSQUANTUM := _IOW SCULL_IOC_MAGIC 1 4.
Definition SCULL_IOCSQSET := _IOW SCULL_IOC_MAGIC 2 4.
Definition SCULL_IOCTQUANTUM := _IO SCULL_IOC_MAGIC 3.
Definition SCULL_IOCTQSET := _IO SCULL_IOC_MAGIC 4.
Definition SCULL_IOCGQUANTUM := _IOR SCULL_IOC_MAGIC 5 4.
Definition SCULL_IOCGQSET := _IOR SCULL_IOC_MAGIC 6 4.
Definition SCULL_IOCQQUANTUM := _IO SCULL_IOC_MAGIC 7.
Definition SCULL_IOCQQSET := _IO SCULL_IOC_MAGIC 8.
Definition SCULL_IOCXQUANTUM := _IOWR SCULL_IOC_MAGIC 9 4.
Definition SCULL_IOCXQSET := _IOWR SCULL_IOC_MAGIC 10 4.
Definition SCULL_IOCHQUANTUM := _IO SCULL_IOC_MAGIC 11.
Definition SCULL_IOCHQSET := _IO SCULL_IOC_MAGIC 12.
Definition SCULL_P_IOCTSIZE := _IO SCULL_IOC_MAGIC 13.
Definition SCULL_P_IOCQSIZE := _IO SCULL_IOC_MAGIC 14.

(** [if (!capable(CAP_SYS_ADMIN)) return -EPERM;] *)
Definition if_admin (k : K scull ioctl_result) : K scull ioctl_result :=
  c ← call capable;
  if c =? 0 then mret (- EPERM, None) else k.

Definition scull_ioctl (cmd arg : Z) : K scull ioctl_result :=
  if negb (_IOC_TYPE cmd =? SCULL_IOC_MAGIC) then mret (- ENOTTY, None) else
  if _IOC_NR cmd >? SCULL_IOC_MAXNR then mret (- ENOTTY, None) else
  ok ← (if c_bool (Z.land (_IOC_DIR cmd) _IOC_READ) then call access_ok
        else if c_bool (Z.land (_IOC_DIR cmd) _IOC_WRITE) then call access_ok
        else mret 1);
  if ok =? 0 then mret (- EFAULT, None) else
  if cmd =? SCULL_IOCRESET then
    modify (set_scull_quantum SCULL_QUANTUM);;
    modify (set_scull_qset SCULL_QSET);;
    mret (0, None)
  else if cmd =? SCULL_IOCSQUANTUM then if_admin (ioctl_S set_scull_quantum)
  else if cmd =? SCULL_IOCTQUANTUM then if_admin (ioctl_T set_scull_quantum arg)
  else if cmd =? SCULL_IOCGQUANTUM then ioctl_G scull_quantum
  else if cmd =? SCULL_IOCQQUANTUM then ioctl_Q scull_quantum
  else if cmd =? SCULL_IOCXQUANTUM then if_admin (ioctl_X scull_quantum set_scull_quantum)
  else if cmd =? SCULL_IOCHQUANTUM then if_admin (ioctl_H scull_quantum set_scull_quantum arg)
  else if cmd =? SCULL_IOCSQSET then if_admin (ioctl_S set_scull_qset)
  else if cmd =? SCULL_IOCTQSET then if_admin (ioctl_T set_scull_qset arg)
  else if cmd =? SCULL_IOCGQSET then ioctl_G scull_qset
  else if cmd =? SCULL_IOCQQSET then ioctl_Q scull_qset
  else if cmd =? SCULL_IOCXQSET then if_admin (ioctl_X scull_qset set_scull_qset)
  else if cmd =? SCULL_IOCHQSET then if_admin (ioctl_H scull_qset set_scull_qset arg)
  else if cmd =? SCULL_P_IOCTSIZE then modify (set_scull_p_buffer (s32 arg));; mret (0, None)
  else if cmd =? SCULL_P_IOCQSIZE then ioctl_Q scull_p_buffer
  else mret (- ENOTTY, None).

(** ** Seek *)

(** The value of the call and the new [filp->f_pos]. *)
Definition scull_llseek (off whence f_pos : Z) : K scull (Z * Z) :=
  size ← gets (λ s, size (dev s));
  match whence with
  | 0 => let newpos := off in
      if newpos <? 0 then mret (- EINVAL, f_pos) else mret (newpos, newpos)
  | 1 => let newpos := s64 (f_pos + off) in
      if newpos <? 0 then mret (- EINVAL, f_pos) else mret (newpos, newpos)
  | 2 => let newpos := s64 (size + off) in
      if newpos <? 0 then mret (- EINVAL, f_pos) else mret (newpos, newpos)
  | _ => mret (- EINVAL, f_pos)
  end.

(** ** The seq_file of /proc/scullseq *)

(** A line of the report; items and quanta are named by their index, the
    source prints their addresses. *)
Inductive seq_line :=
| LDevice (index qset quantum size : Z)
| LItem (i : nat)
| LQuantum (j : nat).

Definition scull_seq_start (nr_devs : Z) (p : Z) : option Z :=
  if p >=? nr_devs then None else Some p.

(** The new position and the element there. *)
Definition scull_seq_next (nr_devs : Z) (p : Z) : Z * option Z :=
  let p := p + 1 in (p, if p >=? nr_devs then None else Some p).

(** The lines of the last item's array: [for (i = 0; i < qset; i++)]. *)
Fixpoint show_quanta (n j : nat) (arr : list (option (list cell))) : outcome (list seq_line) :=
  match n with
  | O => Done []
  | S n' =>
      match arr !! j with
      | None => Oops OutOfBounds
      | Some q =>
          l ← show_quanta n' (S j) arr;
          mret (match q with Some _ => LQuantum j :: l | None => l end)
      end
  end.

Fixpoint show_items (qset : Z) (i : nat) (l : list qset_item) : outcome (list seq_line) :=
  match l with
  | [] => Done []
  | it :: next =>
      q ← match it, next with
          | Some arr, [] => show_quanta (Z.to_nat qset) 0 arr
          | _, _ => mret []
          end;
      r ← show_items qset (S i) next;
      mret (LItem i :: q ++ r)
  end.

Definition scull_seq_show (index : Z) : K scull (Z * list seq_line) :=
  ok ← lock_interruptible;
  if negb ok then mret (- ERESTARTSYS, []) else
  d ← gets dev;
  l ← liftO (show_items (qset d) 0 (data d));
  unlock;;
  mret (0, LDevice index (qset d) (quantum d) (size d) :: l).

(** * Invariant *)

Definition wf_block (q : Z) (b : option (list cell)) : Prop :=
  match b with Some b => lenZ b = q | None => True end.
Definition wf_item (q n : Z) (it : qset_item) : Prop :=
  match it with Some arr => lenZ arr = n ∧ Forall (wf_block q) arr | None => True end.

Record wf_dev (d : scull_dev) : Prop := {
  wf_quantum : 0 < quantum d;
  wf_qset : 0 < qset d;
  wf_itemsize : quantum d * qset d <= INT_MAX;
  wf_size : 0 <= size d <= LONG_MAX;
  wf_data : Forall (wf_item (quantum d) (qset d)) (data d)
}.

(** The number of blocks reachable from the device. *)
Definition blocks_of (q : option (list cell)) : Z := match q with Some _ => 1 | None => 0 end.
Fixpoint blocks_in (arr : list (option (list cell))) : Z :=
  match arr with [] => 0 | q :: arr => blocks_of q + blocks_in arr end.
Definition footprint_item (it : qset_item) : Z :=
  match it with Some arr => 2 + blocks_in arr | None => 1 end.
Fixpoint footprint (l : list qset_item) : Z :=
  match l with [] => 0 | it :: l => footprint_item it + footprint l end.

Record wf (s : scull) : Prop := {
  wf_dev_of : wf_dev (dev s);
  wf_scull_quantum : 0 < scull_quantum s;
  wf_scull_qset : 0 < scull_qset s;
  wf_scull_itemsize : scull_quantum s * scull_qset s <= INT_MAX;
  wf_live : live s = footprint (data (dev s))
}.

(** Other tasks keep the invariant, do not touch this task's hold on the
    mutex, and do not change the geometry of the device. *)
Definition peers (s s' : scull) : Prop :=
  (wf s → wf s') ∧ mutex (dev s') = mutex (dev s) ∧
  quantum (dev s') = quantum (dev s) ∧ qset (dev s') = qset (dev s).

(** ** Footprint lemmas *)

Lemma blocks_in_replicate n : blocks_in (replicate n None) = 0.
Proof. induction n; simpl; lia. Qed.

Lemma footprint_app l1 l2 : footprint (l1 ++ l2) = footprint l1 + footprint l2.
Proof. induction l1; simpl; lia. Qed.

Lemma footprint_replicate n : footprint (replicate n None) = Z.of_nat n.
Proof. induction n; simpl; lia. Qed.

Lemma footprint_insert l i it it' :
  l !! i = Some it →
  footprint (<[i := it']> l) = footprint l - footprint_item it + footprint_item it'.
Proof.
  revert i; induction l as [|x l IH]; intros [|i] H; simplify_eq/=; [lia|].
  rewrite (IH i) by done. lia.
Qed.

Lemma blocks_in_insert arr j q q' :
  arr !! j = Some q →
  blocks_in (<[j := q']> arr) = blocks_in arr - blocks_of q + blocks_of q'.
Proof.
  revert j; induction arr as [|x arr IH]; intros [|j] H; simplify_eq/=; [lia|].
  rewrite (IH j) by done. lia.
Qed.

(** Trimming frees exactly the blocks reachable from the device. *)
Lemma free_quanta_spec arr n i :
  (i + n)%nat = length arr → free_quanta n i arr = Done (blocks_in (drop i arr)).
Proof.
  revert i; induction n as [|n IH]; intros i Hi; simpl.
  - by rewrite drop_ge by lia.
  - destruct (lookup_lt_is_Some_2 arr i) as [q Hq]; [lia|].
    rewrite Hq, IH by lia. cbn. rewrite (drop_S _ _ _ Hq).
    destruct q; cbn; do 2 f_equal; lia.
Qed.

Lemma free_items_spec q n l :
  0 < n → Forall (wf_item q n) l → free_items n l = Done (footprint l).
Proof.
  intros Hn. induction 1 as [|it l Hit _ IH]; [done|]. simpl. rewrite IH.
  destruct it as [arr|]; simpl.
  - destruct Hit as [Hlen _]. rewrite free_quanta_spec by lia. cbn.
    rewrite drop_0. f_equal. lia.
  - done.
Qed.

(** ** Following the list *)

(** The list grown by [k] empty items. *)
Definition extend (k : nat) (s : scull) : scull :=
  add_live (Z.of_nat k) (set_data (data (dev s) ++ replicate k None) s).

Lemma extend_0 s : extend 0 s = s.
Proof.
  destruct s as [[] ? ? ? ?]. unfold extend, add_live, set_data; simpl.
  rewrite app_nil_r. f_equal. lia.
Qed.

Lemma extend_S k s : extend k (extend 1 s) = extend (S k) s.
Proof.
  destruct s as [[] ? ? ? ?]. unfold extend, add_live, set_data; simpl.
  rewrite <-app_assoc. f_equal. lia.
Qed.

Lemma length_extend k s :
  length (data (dev (extend k s))) = (length (data (dev s)) + k)%nat.
Proof. unfold extend; cbn. by rewrite length_app, length_replicate. Qed.

Lemma extend_wf k s : wf s → wf (extend k s).
Proof.
  intros [[] ? ? ? Hl]. split; [split|..]; simpl; try done.
  - apply Forall_app; split; [done|]. by apply Forall_replicate.
  - rewrite footprint_app, footprint_replicate. lia.
Qed.

Lemma wp_append_item C s (Q : bool → scull → Prop) :
  (∀ z, c_ans C (kmalloc sizeof_qset) z → z ≠ 0 → Q true (extend 1 s)) →
  (∀ z, c_ans C (kmalloc sizeof_qset) z → z = 0 → Q false s) →
  wp C append_item Q s.
Proof.
  intros Ht Hf. unfold append_item, alloc. wp_go; [by eapply Hf|].
  replace (set_data _ _) with (extend 1 s); [by eapply Ht|].
  by destruct s as [[] ? ? ? ?].
Qed.

(** [follow] only appends empty items; it reaches the item asked for unless an
    allocation fails. *)
Definition followed (C : contract scull) (n : nat) (r : option nat) (s s' : scull) : Prop :=
  ∃ k, s' = extend k s ∧
    match r with
    | Some i => i = n ∧ (n < length (data (dev s')))%nat
    | None => ∃ z, c_ans C (kmalloc sizeof_qset) z ∧ z = 0
    end.

Lemma wp_follow_loop C n i s :
  (i < length (data (dev s)))%nat →
  wp C (follow_loop n i) (λ r s', followed C (i + n) r s s') s.
Proof.
  revert i s; induction n as [|n IH]; intros i s Hi; simpl.
  { apply wp_ret. exists 0%nat. rewrite extend_0. split; [done|]. lia. }
  wp_step. wp_step. wp_step. case_bool_decide.
  - wp_go. replace (i + S n)%nat with (S i + n)%nat by lia. by apply IH.
  - apply wp_append_item; intros z Hz ?; wp_go.
    + eapply wp_mono.
      { apply IH. rewrite length_extend. lia. }
      intros r s' (k & -> & Hr). exists (S k). split; [apply extend_S|].
      destruct r; [|done]. naive_solver lia.
    + exists 0%nat. rewrite extend_0. eauto.
Qed.

Lemma wp_follow C n s :
  wp C (scull_follow n) (λ r s', followed C (Z.to_nat (u32 n)) r s s') s.
Proof.
  unfold scull_follow. wp_step. wp_step. wp_step.
  case_bool_decide as Hl.
  - apply wp_append_item; intros z Hz ?; wp_go.
    + eapply wp_mono.
      { apply wp_follow_loop. rewrite length_extend. lia. }
      intros r s' (k & -> & Hr). exists (S k). split; [apply extend_S|done].
    + exists 0%nat. rewrite extend_0. eauto.
  - wp_go. eapply wp_mono; [apply wp_follow_loop|done].
    destruct (data (dev s)); simpl; [done|lia].
Qed.

(** ** Positions and contents *)

(** The block an index pair designates, and a cell of it. A hole of the device
    and a byte nobody wrote both read as [None]. *)
Definition block_at (s : scull) (i j : nat) : option (list cell) :=
  match data (dev s) !! i with
  | Some (Some arr) => mjoin (arr !! j)
  | _ => None
  end.
Definition cell_at (s : scull) (i j k : nat) : cell :=
  match block_at s i j with Some b => mjoin (b !! k) | None => None end.

(** Where the driver looks for file position [p]: list index, array index and
    offset in the quantum. The list index is an [int]. *)
Definition slot_i (d : scull_dev) (p : Z) : nat := Z.to_nat (u32 (p / (quantum d * qset d))).
Definition slot_j (d : scull_dev) (p : Z) : nat := Z.to_nat (p mod (quantum d * qset d) / quantum d).
Definition slot_k (d : scull_dev) (p : Z) : nat := Z.to_nat (p mod quantum d).

(** The byte stored for file position [p]. *)
Definition byte_at (s : scull) (p : Z) : cell :=
  cell_at s (slot_i (dev s) p) (slot_j (dev s) p) (slot_k (dev s) p).

(** [s'] is [s] with more blocks allocated, all of them without contents. *)
Record grown (s s' : scull) : Prop := {
  grown_wf : wf s → wf s';
  grown_quantum : quantum (dev s') = quantum (dev s);
  grown_qset : qset (dev s') = qset (dev s);
  grown_size : size (dev s') = size (dev s);
  grown_mutex : mutex (dev s') = mutex (dev s);
  grown_cells : ∀ i j k, cell_at s' i j k = cell_at s i j k
}.

#[export] Instance grown_preorder : PreOrder grown.
Proof.
  split; [by intros s; split|].
  intros s1 s2 s3 [] []. split; [tauto|congruence..].
Qed.

Lemma block_at_extend k s i j : block_at (extend k s) i j = block_at s i j.
Proof.
  unfold block_at, extend; cbn.
  destruct (decide (i < length (data (dev s)))%nat).
  - by rewrite lookup_app_l.
  - rewrite lookup_app_r by lia. rewrite (lookup_ge_None_2 _ i) by lia.
    destruct (replicate k None !! _) as [[arr|]|] eqn:E; [|done..].
    by apply lookup_replicate in E as [? _].
Qed.

Lemma grown_extend k s : grown s (extend k s).
Proof.
  split; [apply extend_wf|done..|].
  intros. unfold cell_at. by rewrite block_at_extend.
Qed.

(** ** Updating the contents *)

Lemma wf_add_live s s' l :
  wf_dev (dev s') → wf s →
  scull_quantum s' = scull_quantum s → scull_qset s' = scull_qset s →
  live s' = live s + l → footprint (data (dev s')) = footprint (data (dev s)) + l →
  wf s'.
Proof. intros ? [] ? ? ? ?. split; [done|congruence..|lia]. Qed.

Lemma set_array_grown i s :
  data (dev s) !! i = Some None → 0 < qset (dev s) →
  grown s (set_array i (replicate (Z.to_nat (qset (dev s))) None) (add_live 1 s)).
Proof.
  intros Hi Hn. split; try done.
  - intros H. eapply (wf_add_live s); try done.
    + destruct H as [[] ? ? ? ?]. split; try done. cbn.
      apply Forall_insert; [done|]. split; [rewrite length_replicate; lia|].
      by apply Forall_replicate.
    + cbn. rewrite (footprint_insert _ _ None) by done. cbn.
      rewrite blocks_in_replicate. lia.
  - intros i' j k. unfold cell_at, block_at; cbn.
    destruct (decide (i = i')) as [->|]; [|by rewrite list_lookup_insert_ne].
    rewrite Hi, list_lookup_insert_eq by eauto using lookup_lt_Some. cbn.
    destruct (replicate _ None !! j) as [q|] eqn:E; [|done].
    by apply lookup_replicate in E as [-> _].
Qed.

Lemma data_set_block i j b s :
  data (dev (set_block i j b s)) = alter (fmap (<[Z.to_nat j := Some b]>)) i (data (dev s)).
Proof. done. Qed.

Lemma block_at_set_block i j b s i' j' arr :
  data (dev s) !! i = Some (Some arr) → 0 <= j < lenZ arr →
  block_at (set_block i j b s) i' j' =
    if decide (i' = i ∧ j' = Z.to_nat j) then Some b else block_at s i' j'.
Proof.
  intros Hi Hj. unfold block_at. rewrite data_set_block.
  destruct (decide (i = i')) as [->|].
  2:{ rewrite list_lookup_alter_ne by done. case_decide; [naive_solver|done]. }
  rewrite list_lookup_alter_eq, Hi. cbn.
  destruct (decide (Z.to_nat j = j')) as [<-|].
  - rewrite list_lookup_insert_eq by lia. by rewrite decide_True by done.
  - rewrite list_lookup_insert_ne by done. rewrite decide_False by naive_solver. done.
Qed.

Lemma set_block_wf_dev i j b s arr :
  wf_dev (dev s) → data (dev s) !! i = Some (Some arr) → 0 <= j < lenZ arr →
  lenZ b = quantum (dev s) → wf_dev (dev (set_block i j b s)).
Proof.
  intros [? ? ? ? Hd] Hi Hj Hb. split; try done. rewrite data_set_block.
  apply Forall_alter; [done|]. intros x Hx Hwf. rewrite Hi in Hx. simplify_eq.
  cbn. destruct Hwf as [Hlen Harr]. split; [by rewrite length_insert|].
  by apply Forall_insert.
Qed.

Lemma footprint_set_block i j b s arr q :
  data (dev s) !! i = Some (Some arr) → arr !! Z.to_nat j = Some q →
  footprint (data (dev (set_block i j b s))) = footprint (data (dev s)) + 1 - blocks_of q.
Proof.
  intros Hi Hq. rewrite data_set_block.
  rewrite (alter_insert_eq _ _ _ _ Hi). cbn.
  rewrite (footprint_insert _ _ (Some arr)) by done. cbn.
  rewrite (blocks_in_insert _ _ q) by done. cbn. lia.
Qed.

Lemma block_at_wf s i j b : wf_dev (dev s) → block_at s i j = Some b → lenZ b = quantum (dev s).
Proof.
  intros [? ? ? ? Hd]. unfold block_at. destruct (data (dev s) !! i) as [[arr|]|] eqn:Hi; [|done..].
  destruct (arr !! j) as [[b'|]|] eqn:Hj; [|done..].
  cbn. intros Hb. simplify_eq. destruct (Forall_lookup_1 _ _ _ _ Hd Hi) as [_ Harr].
  exact (Forall_lookup_1 _ _ _ _ Harr Hj).
Qed.

(** A fresh quantum in an empty slot. *)
Lemma set_block_fresh_grown i j s arr :
  wf s → data (dev s) !! i = Some (Some arr) → 0 <= j → arr !! Z.to_nat j = Some None →
  grown s (set_block i j (uninit (quantum (dev s))) (add_live 1 s)).
Proof.
  intros Hwf Hi Hj0 Hj. pose proof (lookup_lt_Some _ _ _ Hj). split; try done.
  - intros _. eapply (wf_add_live s); try done.
    + apply (set_block_wf_dev _ _ _ _ arr); [apply Hwf|done|lia|].
      apply length_uninit. destruct Hwf as [[] ? ? ? ?]. simpl. lia.
    + change (dev (set_block ?i ?j ?b (add_live 1 ?s))) with (dev (set_block i j b s)).
      rewrite (footprint_set_block _ _ _ _ arr None) by done.
      simpl. lia.
  - intros i' j' k. unfold cell_at.
    change (block_at (set_block ?i ?j ?b (add_live 1 ?s))) with (block_at (set_block i j b s)).
    rewrite (block_at_set_block _ _ _ _ _ _ arr) by (done || lia).
    case_decide as E; [|done]. destruct E as [-> ->].
    unfold block_at. rewrite Hi, Hj. cbn. unfold uninit.
    destruct (replicate _ None !! k) as [c|] eqn:E; [|done].
    by apply lookup_replicate in E as [-> _].
Qed.

(** ** Triples of the helpers *)

Lemma followed_grown C n r s s' :
  followed C n r s s' →
  grown s s' ∧
  match r with
  | Some i => i = n ∧ is_Some (data (dev s') !! i)
  | None => ∃ n z, c_ans C (kmalloc n) z ∧ z = 0
  end.
Proof.
  intros (k & -> & Hr). split; [apply grown_extend|].
  destruct r; [|eauto]. destruct Hr as [-> ?]. split; [done|]. by apply lookup_lt_is_Some.
Qed.

Lemma wp_ensure_array C i s it n (Q : _ → scull → Prop) :
  wf s → data (dev s) !! i = Some it → n = qset (dev s) →
  (∀ s' arr, grown s s' → data (dev s') !! i = Some (Some arr) → Q (Some arr) s') →
  (∀ n z, c_ans C (kmalloc n) z → z = 0 → Q None s) →
  wp C (ensure_array i n) Q s.
Proof.
  intros Hwf Hi -> Hok Hko. unfold ensure_array. wp_step. wp_step. wp_step.
  apply (wp_deref _ _ _ _ _ it); [done|]. destruct it as [arr|].
  - wp_step. by apply Hok.
  - unfold alloc. wp_go; [by eapply Hko|]. apply Hok.
    + apply set_array_grown; [done|]. apply Hwf.
    + cbn. apply list_lookup_insert_eq. by eapply lookup_lt_Some.
Qed.

Lemma wp_ensure_block C i j s arr q (Q : _ → scull → Prop) :
  wf s → data (dev s) !! i = Some (Some arr) → 0 <= j < qset (dev s) → q = quantum (dev s) →
  (∀ s' b, grown s s' → block_at s' i (Z.to_nat j) = Some b → Q (Some b) s') →
  (∀ n z, c_ans C (kmalloc n) z → z = 0 → Q None s) →
  wp C (ensure_block i arr j q) Q s.
Proof.
  intros Hwf Hi Hj -> Hok Hko. unfold ensure_block. wp_step.
  assert (lenZ arr = qset (dev s)) as Hlen.
  { destruct Hwf as [[? ? ? ? Hd] ? ? ? ?]. by destruct (Forall_lookup_1 _ _ _ _ Hd Hi). }
  destruct (proj2 (lookupZ_is_Some arr j)) as [q Hq]; [lia|].
  apply (wp_deref _ _ _ _ _ q); [done|].
  apply lookupZ_Some in Hq as [_ Hq]. destruct q as [b|].
  - wp_step. apply Hok; [done|]. unfold block_at. by rewrite Hi, Hq.
  - unfold alloc. wp_go; [by eapply Hko|]. apply Hok.
    + apply (set_block_fresh_grown _ _ _ arr); done || lia.
    + change (block_at (set_block ?i ?j ?b (add_live 1 ?s))) with (block_at (set_block i j b s)).
      rewrite (block_at_set_block _ _ _ _ _ _ arr) by (done || lia).
      by rewrite decide_True.
Qed.

(** Index arithmetic of the two transfer routines, in one place. *)
Lemma wp_find_slot C s d f_pos (Q : _ → scull → Prop) :
  wf_dev d → 0 <= f_pos <= LONG_MAX →
  (∀ item, u32 item = Z.of_nat (slot_i d f_pos) →
    Z.of_nat (slot_j d f_pos) < qset d → Z.of_nat (slot_k d f_pos) < quantum d →
    Q (item, Z.of_nat (slot_j d f_pos), Z.of_nat (slot_k d f_pos)) s) →
  wp C (find_slot (quantum d) (s32 (quantum d * qset d)) f_pos) Q s.
Proof.
  intros [Hq Hn Hm _ _] Hp HQ. apply wp_find_slot_at; [done..|]. intros item Hitem.
  destruct (slot_bounds (quantum d) (qset d) f_pos Hq Hn).
  pose proof (Z.mod_pos_bound (f_pos / (quantum d * qset d)) (2 ^ 32)).
  unfold slot_i, slot_j, slot_k, u32 in *. rewrite !Z2Nat.id in HQ by lia. by apply HQ; [|lia..].
Qed.

(** ** Storing into a quantum *)

(** [s'] is [s] with [bytes] stored at offset [k] of block [(i, j)]. *)
Record patched (s s' : scull) (i j k : nat) (bytes : list cell) : Prop := {
  patched_wf : wf s → wf s';
  patched_quantum : quantum (dev s') = quantum (dev s);
  patched_qset : qset (dev s') = qset (dev s);
  patched_size : size (dev s') = size (dev s);
  patched_mutex : mutex (dev s') = mutex (dev s);
  patched_cells : ∀ i' j' k', cell_at s' i' j' k' =
    if decide (i' = i ∧ j' = j ∧ k ≤ k' < k + length bytes)%nat
    then mjoin (bytes !! (k' - k)%nat) else cell_at s i' j' k'
}.

Lemma block_at_inv s i j b :
  block_at s i j = Some b →
  ∃ arr, data (dev s) !! i = Some (Some arr) ∧ arr !! j = Some (Some b).
Proof.
  unfold block_at. destruct (data (dev s) !! i) as [[arr|]|]; [|done..].
  destruct (arr !! j) as [[b'|]|] eqn:Hj; cbn; naive_solver.
Qed.

Lemma set_block_patched s i j k b bytes :
  wf s → block_at s i j = Some b → (k + length bytes <= length b)%nat →
  patched s (set_block i (Z.of_nat j) (store (Z.of_nat k) bytes b) s) i j k bytes.
Proof.
  intros Hwf Hb Hk. destruct (block_at_inv _ _ _ _ Hb) as (arr & Hi & Hj).
  pose proof (lookup_lt_Some _ _ _ Hj). split; try done.
  - intros _. eapply (wf_add_live s _ 0); try done.
    + eapply set_block_wf_dev; [apply Hwf|done|lia|].
      rewrite length_store. eapply block_at_wf; [apply Hwf|done].
    + cbn. lia.
    + erewrite footprint_set_block by (rewrite ?Nat2Z.id; done). simpl. lia.
  - intros i' j' k'. unfold cell_at.
    rewrite (block_at_set_block _ _ _ _ _ _ arr), Nat2Z.id by (done || lia).
    destruct (decide (i' = i ∧ j' = j)) as [[-> ->]|].
    2:{ rewrite decide_False by tauto. done. }
    rewrite Hb. destruct (decide (k ≤ k' < k + length bytes)%nat).
    + rewrite decide_True by tauto. rewrite lookup_store_in by lia. by rewrite Nat2Z.id.
    + rewrite decide_False by tauto. rewrite lookup_store_out by lia. done.
Qed.

Lemma grown_patched s s1 s2 i j k bytes :
  grown s s1 → patched s1 s2 i j k bytes → patched s s2 i j k bytes.
Proof.
  intros [] []. split; [tauto|congruence..|].
  intros. rewrite patched_cells0. case_decide; [done|apply grown_cells0].
Qed.

Lemma set_mutex_wf b s : wf s → wf (set_mutex b s).
Proof. intros [[] ? ? ? ?]. split; [by split|done..]. Qed.

Lemma set_size_wf n s : 0 <= n <= LONG_MAX → wf s → wf (set_size n s).
Proof. intros ? [[] ? ? ? ?]. split; [by split|done..]. Qed.

(** ** The branches of [scull_write] *)

(** The bytes one call can take: up to the end of the quantum. *)
Definition chunk (d : scull_dev) (f_pos n : Z) : Z :=
  Z.min n (quantum d - f_pos mod quantum d).

Inductive write_outcome (C : contract scull) (s : scull) (buf : list Z) (f_pos : Z) :
    xfer → scull → Prop :=
| WInterrupted s0 z :
    c_rely C s s0 → c_ans C mutex_lock_intr z → z ≠ 0 →
    write_outcome C s buf f_pos (Xfer (- ERESTARTSYS) [] f_pos) s0
| WNoMem s0 s1 n z :
    c_rely C s s0 → c_ans C (kmalloc n) z → z = 0 → grown s0 s1 →
    write_outcome C s buf f_pos (Xfer (- ENOMEM) [] f_pos) s1
| WFault s0 s1 n z bytes :
    c_rely C s s0 → c_ans C (copy_user n) z → z ≠ 0 →
    lenZ bytes = chunk (dev s0) f_pos (lenZ buf) →
    patched s0 s1 (slot_i (dev s0) f_pos) (slot_j (dev s0) f_pos) (slot_k (dev s0) f_pos) bytes →
    write_outcome C s buf f_pos (Xfer (- EFAULT) [] f_pos) s1
| WDone s0 s1 n :
    c_rely C s s0 → n = chunk (dev s0) f_pos (lenZ buf) →
    patched s0 s1 (slot_i (dev s0) f_pos) (slot_j (dev s0) f_pos) (slot_k (dev s0) f_pos)
      (Some <$> take (Z.to_nat n) buf) →
    write_outcome C s buf f_pos (Xfer n [] (f_pos + n))
      (set_size (Z.max (size (dev s0)) (f_pos + n)) s1).

(** The contracts the transfer routines are proved against: documented answers
    and peers that keep the invariant. *)
Record fair_contract (C : contract scull) : Prop := {
  fair_doc : ∀ c z, c_ans C c z → doc_ans c z;
  fair_peers : ∀ s s', c_rely C s s' → peers s s'
}.

Lemma slot_k_mod d p : 0 < quantum d → Z.of_nat (slot_k d p) = p mod quantum d.
Proof. intros. unfold slot_k. pose proof (Z.mod_pos_bound p (quantum d)). lia. Qed.

(** Taking and releasing the mutex does not matter to what the transfer did. *)
Lemma grown_unlock s0 s1 :
  mutex (dev s0) = false → grown (set_mutex true s0) s1 → grown s0 (set_mutex false s1).
Proof.
  intros ? []. split; try done.
  intros ?. apply set_mutex_wf, grown_wf0, set_mutex_wf. done.
Qed.

Lemma patched_unlock s0 s1 i j k bytes :
  mutex (dev s0) = false → patched (set_mutex true s0) s1 i j k bytes →
  patched s0 (set_mutex false s1) i j k bytes.
Proof.
  intros ? []. split; try done.
  intros ?. apply set_mutex_wf, patched_wf0, set_mutex_wf. done.
Qed.

(** Taking the mutex at the start of a transfer. *)
Lemma wp_enter C s (Q : bool → scull → Prop) :
  fair_contract C → wf s → mutex (dev s) = false →
  (∀ s0 z, c_rely C s s0 → c_ans C mutex_lock_intr z → z ≠ 0 → Q false s0) →
  (∀ s0, c_rely C s s0 → wf s0 → mutex (dev s0) = false →
    quantum (dev s) = quantum (dev s0) → qset (dev s) = qset (dev s0) →
    Q true (set_mutex true s0)) →
  wp C lock_interruptible Q s.
Proof.
  intros [_ Hpeers] Hwf Hm Hko Hok. apply wp_lock_interruptible; [|eauto..].
  - intros s' Hs'. apply Hpeers in Hs' as (_ & Hs' & _). simpl. congruence.
  - intros s0 z Hs0 _ _. pose proof (Hpeers _ _ Hs0) as (? & ? & ? & ?).
    apply Hok; [tauto..|congruence|done|done].
Qed.

Lemma wp_quantum_bytes C k n b s (Q : _ → scull → Prop) :
  0 <= k → 0 <= n → k + n <= lenZ b → Q (slice k n b) s → wp C (quantum_bytes k n b) Q s.
Proof. intros. unfold quantum_bytes. rewrite bool_decide_true by lia. by wp_step. Qed.

(** The copy of [scull_write] into the quantum it found, and what follows. *)
Lemma wp_fill {A} C s i j k b src (f : bool → K scull A) Q :
  fair_contract C → wf s → block_at s i j = Some b → (k + length src <= length b)%nat →
  (∀ s', patched s s' i j k (Some <$> src) → wp C (f true) Q s') →
  (∀ s' n z bytes, c_ans C (copy_user n) z → z ≠ 0 → length bytes = length src →
    patched s s' i j k bytes → wp C (f false) Q s') →
  wp C ('(bytes, ok) ← copy_from_user src;
        modify (set_block i (Z.of_nat j) (store (Z.of_nat k) bytes b));; f ok) Q s.
Proof.
  intros HC Hwf Hb Hlen Hok Hko. wp_step.
  apply wp_copy_from_user; [intros; by apply (fair_doc _ HC)|..].
  - intros z _ _. wp_step. wp_step. apply Hok, set_block_patched; [done..|].
    by rewrite length_fmap.
  - intros z l ? ? Hl. wp_step. wp_step. eapply Hko; [done..|].
    apply set_block_patched; [done..|]. lia.
Qed.

(** [out: mutex_unlock(&dev->mutex); return retval;] *)
Lemma wp_exit {A} C s (r : A) (Q : A → scull → Prop) :
  mutex (dev s) = true → Q r (set_mutex false s) → wp C (unlock;; mret r) Q s.
Proof. intros. wp_step. apply wp_unlock; [done|]. by wp_step. Qed.

Lemma grown_locked s0 s1 : grown (set_mutex true s0) s1 → mutex (dev s1) = true.
Proof. by intros []. Qed.

Lemma patched_locked s0 s1 i j k bytes :
  patched (set_mutex true s0) s1 i j k bytes → mutex (dev s1) = true.
Proof. by intros []. Qed.

#[local] Hint Resolve grown_locked patched_locked grown_unlock patched_unlock : ldd.

(** Finding the quantum to write to, allocating on the way; [fail] is the
    [goto out] of the three allocations. *)
Lemma wp_reserve {A} C s item d f_pos q n (fail : K scull A) (f : nat → list cell → K scull A) Q :
  wf s → u32 item = Z.of_nat (slot_i d f_pos) → Z.of_nat (slot_j d f_pos) < n →
  q = quantum (dev s) → n = qset (dev s) →
  (∀ s' m z, grown s s' → c_ans C (kmalloc m) z → z = 0 → wp C fail Q s') →
  (∀ s' b, grown s s' → block_at s' (slot_i d f_pos) (slot_j d f_pos) = Some b →
    lenZ b = q → wp C (f (slot_i d f_pos) b) Q s') →
  wp C (dptr ← scull_follow item;
        match dptr with
        | None => fail
        | Some i =>
            arr ← ensure_array i n;
            match arr with
            | None => fail
            | Some arr =>
                b ← ensure_block i arr (Z.of_nat (slot_j d f_pos)) q;
                match b with None => fail | Some b => f i b end
            end
        end) Q s.
Proof.
  intros Hwf Hitem Hj -> -> Hko Hok. wp_step. eapply wp_mono; [apply wp_follow|].
  intros r s1 [Hg1 Hr]%followed_grown. rewrite Hitem, Nat2Z.id in Hr.
  destruct r as [i|]; [|by destruct Hr as (m & z & ? & ?); eapply Hko].
  destruct Hr as [-> [it Hit]].
  wp_step. eapply (wp_ensure_array _ _ _ it); [by apply Hg1|done|by rewrite (grown_qset _ _ Hg1)|..].
  2:{ intros m z ? ?. by eapply Hko. }
  intros s2 arr Hg2 Harr. assert (grown s s2) as Hg by (by etrans).
  wp_step. eapply wp_ensure_block;
    [by apply Hg|done|rewrite (grown_qset _ _ Hg); lia|by rewrite (grown_quantum _ _ Hg)|..].
  2:{ intros m z ? ?. by eapply Hko. }
  intros s3 b Hg3 Hb. rewrite Nat2Z.id in Hb.
  assert (grown s s3) as Hg' by (by etrans). apply Hok; [done..|].
  rewrite (block_at_wf s3 _ _ _ (wf_dev_of _ (grown_wf _ _ Hg' Hwf)) Hb). apply Hg'.
Qed.

Lemma chunk_bounds d f_pos n :
  0 < quantum d → 0 <= n →
  0 <= chunk d f_pos n <= n ∧ Z.of_nat (slot_k d f_pos) + chunk d f_pos n <= quantum d.
Proof. intros. unfold chunk. rewrite slot_k_mod by lia.
  pose proof (Z.mod_pos_bound f_pos (quantum d)). lia. Qed.

(** [if (dev->size < *f_pos) dev->size = *f_pos;] *)
Lemma update_size n s :
  (if size (dev s) <? n then set_size n s else s) = set_size (Z.max (size (dev s)) n) s.
Proof.
  case_match; zbool; [by rewrite Z.max_r by lia|].
  rewrite Z.max_l by lia. by destruct s as [[] ? ? ? ?].
Qed.

Lemma wp_scull_write C s buf f_pos :
  fair_contract C → wf s → mutex (dev s) = false →
  0 <= f_pos → f_pos + lenZ buf <= LONG_MAX →
  wp C (scull_write buf f_pos) (write_outcome C s buf f_pos) s.
Proof.
  intros HC Hwf Hm Hp Hp'. unfold scull_write. do 5 wp_step.
  apply wp_enter; [done..| |].
  { intros s0 z ? ? ?. wp_go. by econstructor. }
  intros s0 Hs0 Hwf0 Hm0 -> ->. cbn [negb]. wp_step.
  destruct (wf_dev_of _ Hwf0) as [Hq0 Hn0 Hi0 _ _].
  apply (wp_find_slot _ _ (dev s0)); [apply Hwf0|unfold INT_MAX in *; lia|].
  intros item Hitem Hj Hk. cbn beta iota.
  eapply wp_reserve; [by apply set_mutex_wf|done..| |].
  { intros s1 m z Hg ? ?. apply wp_exit; [eauto with ldd|]. eapply WNoMem; eauto with ldd. }
  intros s3 b Hg Hb Hlen. cbn beta zeta.
  assert (quantum (dev s0) <= INT_MAX) by nia.
  rewrite count_clipped by lia. rewrite (slot_k_mod (dev s0)) by lia.
  fold (chunk (dev s0) f_pos (lenZ buf)). rewrite <-slot_k_mod by lia.
  destruct (chunk_bounds (dev s0) f_pos (lenZ buf)) as [Hc Hck]; [lia..|].
  wp_step. apply wp_quantum_bytes; [lia..|].
  assert (length (take (Z.to_nat (chunk (dev s0) f_pos (lenZ buf))) buf) =
    Z.to_nat (chunk (dev s0) f_pos (lenZ buf))) as Hsrc by (rewrite length_take; lia).
  apply (wp_fill C s3 _ _ _ b _ (λ ok, if negb ok then _ else _));
    [done|by apply Hg, set_mutex_wf|done|lia|..]; cbn [negb].
  - intros s4 Hs4. eapply grown_patched in Hs4; [|exact Hg].
    wp_step. apply wp_modify. rewrite update_size. apply wp_exit; [apply Hs4|].
    rewrite s64_small, u64_small by (unfold LONG_MAX, INT_MAX in *; lia).
    rewrite (patched_size _ _ _ _ _ _ Hs4).
    apply (WDone _ _ _ _ s0 (set_mutex false s4)); eauto with ldd.
  - intros s4 n z bytes ? ? ? Hs4. eapply grown_patched in Hs4; [|exact Hg].
    apply wp_exit; [eauto with ldd|]. eapply (WFault _ _ _ _ s0); eauto with ldd. lia.
Qed.

(** ** The branches of [scull_read] *)

(** [n] bytes at offset [k] of block [(i, j)]. *)
Definition cells (s : scull) (i j k : nat) (n : Z) : list cell :=
  (λ m, cell_at s i j (k + m)) <$> seq 0 (Z.to_nat n).

Lemma slice_cells s i j k n b :
  block_at s i j = Some b → 0 <= n → Z.of_nat k + n <= lenZ b →
  slice (Z.of_nat k) n b = cells s i j k n.
Proof.
  intros Hb Hn Hk. apply list_eq. intros m. unfold cells. rewrite list_lookup_fmap.
  destruct (decide (m < Z.to_nat n)%nat).
  - rewrite lookup_slice, lookup_seq_lt, Nat2Z.id by lia. cbn. unfold cell_at. rewrite Hb.
    destruct (lookup_lt_is_Some_2 b (k + m)) as [c Hc]; [lia|]. by rewrite Hc.
  - rewrite !lookup_ge_None_2; [done|rewrite length_seq; lia|].
    apply Nat2Z.inj_le. rewrite length_slice; lia.
Qed.

Inductive read_outcome (C : contract scull) (s : scull) (count f_pos : Z) : xfer → scull → Prop :=
| RInterrupted s0 z :
    c_rely C s s0 → c_ans C mutex_lock_intr z → z ≠ 0 →
    read_outcome C s count f_pos (Xfer (- ERESTARTSYS) [] f_pos) s0
| REof s0 :
    c_rely C s s0 → size (dev s0) <= f_pos →
    read_outcome C s count f_pos (Xfer 0 [] f_pos) s0
| RNoMem s0 s1 n z :
    c_rely C s s0 → c_ans C (kmalloc n) z → z = 0 → grown s0 s1 →
    read_outcome C s count f_pos (Xfer 0 [] f_pos) s1
| RHole s0 s1 :
    c_rely C s s0 → f_pos < size (dev s0) → grown s0 s1 →
    block_at s0 (slot_i (dev s0) f_pos) (slot_j (dev s0) f_pos) = None →
    read_outcome C s count f_pos (Xfer 0 [] f_pos) s1
| RFault s0 s1 n z bytes :
    c_rely C s s0 → c_ans C (copy_user n) z → z ≠ 0 → grown s0 s1 →
    read_outcome C s count f_pos (Xfer (- EFAULT) bytes f_pos) s1
| RDone s0 s1 n :
    c_rely C s s0 → f_pos < size (dev s0) → grown s0 s1 →
    n = chunk (dev s0) f_pos (Z.min count (size (dev s0) - f_pos)) →
    is_Some (block_at s0 (slot_i (dev s0) f_pos) (slot_j (dev s0) f_pos)) →
    read_outcome C s count f_pos
      (Xfer n (cells s0 (slot_i (dev s0) f_pos) (slot_j (dev s0) f_pos)
                 (slot_k (dev s0) f_pos) n) (f_pos + n)) s1.

Lemma set_mutex_idemp s : mutex (dev s) = false → set_mutex false (set_mutex true s) = s.
Proof. destruct s as [[] ? ? ? ?]. cbn. by intros ->. Qed.

(** Following the list, then looking for the quantum without allocating it. *)
Lemma wp_lookup {A} C s item d f_pos q n (miss : K scull A) (f : nat → list cell → K scull A) Q :
  wf s → u32 item = Z.of_nat (slot_i d f_pos) → Z.of_nat (slot_j d f_pos) < n →
  q = quantum (dev s) → n = qset (dev s) →
  (∀ s' m z, grown s s' → c_ans C (kmalloc m) z → z = 0 → wp C miss Q s') →
  (∀ s', grown s s' → block_at s (slot_i d f_pos) (slot_j d f_pos) = None → wp C miss Q s') →
  (∀ s' b, grown s s' → block_at s (slot_i d f_pos) (slot_j d f_pos) = Some b →
    lenZ b = q → wp C (f (slot_i d f_pos) b) Q s') →
  wp C (dptr ← scull_follow item;
        match dptr with
        | None => miss
        | Some i =>
            it ← gets (λ s, data (dev s)) ≫= λ l, deref NullDeref (l !! i);
            match it with
            | None => miss
            | Some arr =>
                q ← deref OutOfBounds (lookupZ arr (Z.of_nat (slot_j d f_pos)));
                match q with None => miss | Some b => f i b end
            end
        end) Q s.
Proof.
  intros Hwf Hitem Hj -> -> Hmem Hmiss Hok. wp_step. eapply wp_mono; [apply wp_follow|].
  intros r s1 Hf. pose proof Hf as [Hg Hr]%followed_grown. rewrite Hitem, Nat2Z.id in Hr.
  destruct r as [i|]; [|by destruct Hr as (m & z & ? & ?); eapply Hmem].
  destruct Hr as [-> [it Hit]].
  destruct Hf as (k & -> & _). pose proof (grown_wf _ _ Hg Hwf) as Hwf1.
  wp_step. wp_step. wp_step. apply (wp_deref _ _ _ _ _ it); [done|].
  assert (block_at s (slot_i d f_pos) (slot_j d f_pos) =
    match it with Some arr => mjoin (arr !! slot_j d f_pos) | None => None end) as Hb.
  { rewrite <-(block_at_extend k). unfold block_at. by rewrite Hit. }
  destruct it as [arr|]; [|by apply Hmiss].
  destruct (Forall_lookup_1 _ _ _ _ (wf_data _ (wf_dev_of _ Hwf1)) Hit) as [Hlen Harr].
  destruct (proj2 (lookupZ_is_Some arr (Z.of_nat (slot_j d f_pos)))) as [c Hc];
    [simpl in *; lia|].
  wp_step. apply (wp_deref _ _ _ _ _ c); [done|].
  apply lookupZ_Some in Hc as [_ Hc]. rewrite Nat2Z.id in Hc. rewrite Hc in Hb. cbn in Hb.
  destruct c as [b|]; [|by apply Hmiss].
  apply Hok; [done..|]. exact (Forall_lookup_1 _ _ _ _ Harr Hc).
Qed.

Lemma wp_scull_read C s count f_pos :
  fair_contract C → wf s → mutex (dev s) = false →
  0 <= count → 0 <= f_pos → f_pos + count <= LONG_MAX →
  wp C (scull_read count f_pos) (read_outcome C s count f_pos) s.
Proof.
  intros HC Hwf Hm Hcount Hp Hp'. unfold scull_read. do 5 wp_step.
  apply wp_enter; [done..| |].
  { intros s0 z ? ? ?. wp_go. by econstructor. }
  intros s0 Hs0 Hwf0 Hm0 -> ->. cbn [negb]. wp_step. wp_step.
  destruct (wf_dev_of _ Hwf0) as [Hq0 Hn0 Hi0 Hsz _]. unfold LONG_MAX, INT_MAX in *.
  cbn [dev set_mutex size]. rewrite (u64_small f_pos), (u64_small (f_pos + count)) by lia.
  wp_step.
  { apply wp_exit; [done|]. rewrite set_mutex_idemp by done. apply REof; [done|lia]. }
  rewrite (u64_small (size (dev s0) - f_pos)) by lia.
  replace (if f_pos + count >? size (dev s0) then size (dev s0) - f_pos else count)
    with (Z.min count (size (dev s0) - f_pos)) by (case_match; zbool; lia).
  wp_step. apply (wp_find_slot _ _ (dev s0)); [apply Hwf0|unfold LONG_MAX; lia|].
  intros item Hitem Hj Hk. cbn beta iota.
  eapply wp_lookup; [by apply set_mutex_wf|done..| | |].
  { intros s1 m z Hg ? ?. apply wp_exit; [eauto with ldd|]. eapply RNoMem; eauto with ldd. }
  { intros s1 Hg ?. apply wp_exit; [eauto with ldd|]. eapply (RHole _ _ _ _ s0); eauto with ldd. }
  intros s1 b Hg Hb Hlen. cbn beta zeta. simpl in Hlen.
  rewrite count_clipped by (unfold INT_MAX; lia). rewrite (slot_k_mod (dev s0)) by lia.
  set (n0 := Z.min count (size (dev s0) - f_pos)).
  assert (0 <= n0) by (unfold n0; lia). fold (chunk (dev s0) f_pos n0). rewrite <-slot_k_mod by lia.
  destruct (chunk_bounds (dev s0) f_pos n0) as [Hc Hck]; [lia..|].
  wp_step. apply wp_quantum_bytes; [lia..|].
  wp_step. apply wp_copy_to_user. intros z Hz. cbn beta iota.
  destruct (z =? 0) eqn:Hz0; zbool; cbn [negb]; (apply wp_exit; [eauto with ldd|]).
  - subst z. rewrite Nat.sub_0_r, take_ge by lia.
    rewrite s64_small by lia. erewrite (slice_cells s0) by (done || lia).
    apply RDone; eauto with ldd.
  - eapply RFault; eauto with ldd.
Qed.
