(* ===== verification/ScullSpec.v ===== *)
(** * scull: what the bare device promises

    The theorems about [Scull]: the driver as a state machine under any kernel
    the documentation allows, the effect of each call under a kernel with
    memory and no signals, and what the code does at the edges of its
    arithmetic. *)

From stdpp Require Import base tactics numbers list.
From S2P Require Import Prelude KMonad Quanta Scull.
From Stdlib Require Import ZArith Lia.

Open Scope Z_scope.

(** ** The table of entry points *)

Inductive scull_op :=
| OpOpen (f_flags : Z)
| OpRelease
| OpRead (count f_pos : Z)
| OpWrite (buf : list Z) (f_pos : Z)
| OpIoctl (cmd arg : Z)
| OpLlseek (off whence f_pos : Z)
| OpSeqShow (index : Z).

(** [scull_fops] and the seq_file of the module, each with its return value. *)
Definition scull_fops (op : scull_op) : K scull Z :=
  match op with
  | OpOpen f_flags => scull_open f_flags
  | OpRelease => scull_release
  | OpRead count f_pos => kfmap retval (scull_read count f_pos)
  | OpWrite buf f_pos => kfmap retval (scull_write buf f_pos)
  | OpIoctl cmd arg => kfmap fst (scull_ioctl cmd arg)
  | OpLlseek off whence f_pos => kfmap fst (scull_llseek off whence f_pos)
  | OpSeqShow index => kfmap fst (scull_seq_show index)
  end.

(** The commands that store a value of the caller's choice in a tunable. *)
Definition retunes (cmd : Z) : bool :=
  existsb (Z.eqb cmd)
    [SCULL_IOCSQUANTUM; SCULL_IOCTQUANTUM; SCULL_IOCXQUANTUM; SCULL_IOCHQUANTUM;
     SCULL_IOCSQSET; SCULL_IOCTQSET; SCULL_IOCXQSET; SCULL_IOCHQSET].

(** When the VFS makes the call: [rw_verify_area] has checked the range of a
    transfer. Retuning is left out: see [scull_zero_quantum_oops]. *)
Definition allowed (_ : scull) (op : scull_op) : Prop :=
  match op with
  | OpRead count f_pos => 0 <= count ∧ 0 <= f_pos ∧ f_pos + count <= LONG_MAX
  | OpWrite buf f_pos => 0 <= f_pos ∧ f_pos + lenZ buf <= LONG_MAX
  | OpIoctl cmd _ => retunes cmd = false
  | _ => True
  end.

(** A device nobody uses, and the invariant between calls. *)
Definition idle (s : scull) : Prop := wf s ∧ mutex (dev s) = false.

(** The device as [scull_init_module] leaves it. *)
Definition scull_init_dev : scull :=
  Scull (ScullDev [] SCULL_QUANTUM SCULL_QSET 0 false) SCULL_QUANTUM SCULL_QSET SCULL_P_BUFFER 0.

Lemma init_idle : idle scull_init_dev.
Proof. split; [|done]. repeat split; cbn; unfold INT_MAX, LONG_MAX, SCULL_QUANTUM, SCULL_QSET; try lia; done. Qed.

Lemma peers_idle s s' : idle s → peers s s' → idle s'.
Proof. intros [] (? & ? & ?). split; [tauto|congruence]. Qed.

(** ** Triples of the remaining operations *)

Lemma trimmed_wf s :
  wf s → mutex (dev s) = true →
  idle (set_mutex false (Scull (ScullDev [] (scull_quantum s) (scull_qset s) 0 (mutex (dev s)))
      (scull_quantum s) (scull_qset s) (scull_p_buffer s) (live s - footprint (data (dev s))))).
Proof.
  intros [? ? ? ? Hl] ?. split; [|done]. split; [split|..]; simpl; try done; unfold LONG_MAX; lia.
Qed.

(** Trimming empties the device and gives every block back. *)
Lemma wp_scull_trim C s (Q : Z → scull → Prop) :
  wf s →
  Q 0 (Scull (ScullDev [] (scull_quantum s) (scull_qset s) 0 (mutex (dev s)))
         (scull_quantum s) (scull_qset s) (scull_p_buffer s) (live s - footprint (data (dev s)))) →
  wp C scull_trim Q s.
Proof.
  intros Hwf HQ. unfold scull_trim. wp_step. wp_step. wp_step.
  eapply wp_liftO; [eapply free_items_spec; [apply Hwf|apply Hwf]|].
  wp_go. done.
Qed.

Lemma wp_scull_open C s f_flags :
  fair_contract C → idle s → wp C (scull_open f_flags) (λ _, idle) s.
Proof.
  intros HC [Hwf Hm]. unfold scull_open. wp_step; [|by wp_step].
  wp_step. apply wp_enter; [done..| |].
  - intros s0 z Hs0 _ _. wp_step. eapply peers_idle; [by split|]. by eapply fair_peers.
  - intros s0 _ Hwf0 Hm0 _ _. wp_step. apply wp_scull_trim; [by apply set_mutex_wf|].
    apply wp_exit; [done|]. by apply (trimmed_wf (set_mutex true s0)); [apply set_mutex_wf|].
Qed.

Lemma show_quanta_total n j arr :
  (j + n)%nat = length arr → ∃ l, show_quanta n j arr = Done l.
Proof.
  revert j; induction n as [|n IH]; intros j Hj; simpl; [eauto|].
  destruct (lookup_lt_is_Some_2 arr j) as [q Hq]; [lia|]. rewrite Hq.
  destruct (IH (S j)) as [l ->]; [lia|]. cbn. eauto.
Qed.

Lemma show_items_total q n i l :
  0 < n → Forall (wf_item q n) l → ∃ ls, show_items n i l = Done ls.
Proof.
  intros Hn Hl. revert i. induction Hl as [|it l Hit _ IH]; intros i; simpl; [eauto|].
  destruct (IH (S i)) as [ls ->]. destruct it as [arr|], l; simpl; eauto.
  destruct Hit as [Hlen _]. destruct (show_quanta_total (Z.to_nat n) 0 arr) as [l' ->]; [lia|].
  cbn. eauto.
Qed.

Lemma wp_scull_seq_show C s index :
  fair_contract C → idle s → wp C (scull_seq_show index) (λ _, idle) s.
Proof.
  intros HC [Hwf Hm]. unfold scull_seq_show. wp_step. apply wp_enter; [done..| |].
  - intros s0 z Hs0 _ _. wp_go. eapply peers_idle; [by split|]. by eapply fair_peers.
  - intros s0 _ Hwf0 Hm0 _ _. cbn [negb]. wp_step. wp_step. wp_step.
    destruct (show_items_total (quantum (dev s0)) (qset (dev s0)) 0 (data (dev s0))) as [ls Hls];
      [apply Hwf0|apply Hwf0|].
    eapply wp_liftO; [exact Hls|]. apply wp_exit; [done|]. split; [|done].
    by apply set_mutex_wf, set_mutex_wf.
Qed.

Lemma wp_scull_llseek C s off whence f_pos :
  wp C (scull_llseek off whence f_pos) (λ _ s', s' = s) s.
Proof. unfold scull_llseek. wp_step. wp_step. repeat case_match; by wp_step. Qed.

(** ** Ioctl *)

(** The state a command may leave behind when it does not retune. *)
Definition retuned (s s' : scull) : Prop :=
  s' = s ∨ s' = set_scull_qset SCULL_QSET (set_scull_quantum SCULL_QUANTUM s) ∨
  ∃ z, s' = set_scull_p_buffer z s.

Lemma retuned_idle s s' : idle s → retuned s s' → idle s'.
Proof.
  intros [Hwf Hm] [->|[->|[z ->]]]; [done|..]; (split; [|done]);
    destruct Hwf; split; try done; cbn; unfold SCULL_QUANTUM, SCULL_QSET, INT_MAX; lia.
Qed.

Lemma wp_if_admin C k s (Q : ioctl_result → scull → Prop) :
  (∀ z, c_ans C capable z → z = 0 → Q (- EPERM, None) s) →
  (∀ z, c_ans C capable z → z ≠ 0 → wp C k Q s) → wp C (if_admin k) Q s.
Proof. intros. unfold if_admin. wp_go; eauto. Qed.

(** A caller without CAP_SYS_ADMIN, or a command that does not retune. *)
Lemma wp_scull_ioctl_keeps C s cmd arg :
  retunes cmd = false ∨ (∀ z, c_ans C capable z → z = 0) →
  wp C (scull_ioctl cmd arg) (λ _, retuned s) s.
Proof.
  intros H. unfold scull_ioctl. assert (retuned s s) by (by left).
  wp_step; [by wp_step|]. wp_step; [by wp_step|].
  apply wp_bind, (wp_mono _ _ (λ _ s', s' = s)).
  { repeat (wp_step; [by wp_step|]). by wp_step. }
  intros ok s' ->. wp_step; [by wp_step|]. wp_step.
  { wp_go. right; left. done. }
  unfold retunes in H; cbn [existsb] in H.
  assert (∀ (b : bool) k, b = true → (b = false ∨ (∀ z, c_ans C capable z → z = 0)) →
    wp C (if_admin k) (λ _, retuned s) s) as Hadmin.
  { intros b k -> [|Hc]; [done|]. apply wp_if_admin; [done|]. intros z Hz ?. by apply Hc in Hz. }
  assert (retunes cmd = false ∨ (∀ z, c_ans C capable z → z = 0)) as Hr by done.
  repeat match goal with
  | |- wp _ (if ?c =? ?d then _ else _) _ _ =>
      destruct (c =? d) eqn:?; [zbool; subst;
        first [by apply (Hadmin (retunes d)) | by apply (Hadmin (retunes c))
              | wp_go; apply wp_put_user_from; by eauto | idtac] |]
  end.
  all: try (unfold ioctl_Q; wp_go; done).
  all: try (wp_go; right; right; eexists; done).
Qed.

(** ** Transfers keep the device idle *)

Lemma grown_idle s s' : idle s → grown s s' → idle s'.
Proof. intros [] []. split; [tauto|congruence]. Qed.

Lemma patched_idle s s' i j k bytes : idle s → patched s s' i j k bytes → idle s'.
Proof. intros [] []. split; [tauto|congruence]. Qed.

Lemma write_outcome_idle C s buf f_pos r s' :
  fair_contract C → idle s → 0 <= f_pos → f_pos + lenZ buf <= LONG_MAX →
  write_outcome C s buf f_pos r s' → idle s'.
Proof.
  intros HC Hs Hp Hp' H.
  assert (∀ s0, c_rely C s s0 → idle s0) as Hpeer by (intros; eapply peers_idle, HC; eauto).
  destruct H as [s0|s0 s1|s0 s1|s0 s1 n H0 -> Hpatch]; eauto using grown_idle, patched_idle.
  destruct (patched_idle _ _ _ _ _ _ (Hpeer _ H0) Hpatch) as [Hwf ?]. split; [|done].
  apply set_size_wf; [|done].
  destruct (wf_dev_of _ (proj1 (Hpeer _ H0))).
  pose proof (chunk_bounds (dev s0) f_pos (lenZ buf)). lia.
Qed.

Lemma read_outcome_idle C s count f_pos r s' :
  fair_contract C → idle s → read_outcome C s count f_pos r s' → idle s'.
Proof.
  intros HC Hs H.
  assert (∀ s0, c_rely C s s0 → idle s0) as Hpeer by (intros; eapply peers_idle, HC; eauto).
  destruct H; eauto using grown_idle.
Qed.

Lemma scull_idle_inductive C :
  fair_contract C → inductive_inv scull_fops allowed C (λ s, s = scull_init_dev) idle.
Proof.
  intros HC. split_and!.
  - intros s ->. apply init_idle.
  - intros s op Hs Hop. destruct op; simpl in *.
    + by apply wp_scull_open.
    + by apply wp_ret.
    + destruct Hs, Hop as (? & ? & ?). apply wp_kfmap. eapply wp_mono; [by apply wp_scull_read|].
      intros. eapply read_outcome_idle; eauto; by split.
    + destruct Hs, Hop as (? & ?). apply wp_kfmap. eapply wp_mono; [by apply wp_scull_write|].
      intros. eapply write_outcome_idle; eauto; by split.
    + apply wp_kfmap. eapply wp_mono; [by apply wp_scull_ioctl_keeps; left|].
      intros. by eapply retuned_idle.
    + apply wp_kfmap. eapply wp_mono; [apply wp_scull_llseek|]. by intros ? ? ->.
    + apply wp_kfmap. by apply wp_scull_seq_show.
  - intros s s' Hs Hr. by eapply peers_idle, HC.
Qed.

(** ** Positions *)

(** The positions the list index, an [int], can tell apart. *)
Definition window (d : scull_dev) (p : Z) : Prop := 0 <= p < 2 ^ 32 * (quantum d * qset d).

Lemma slot_inj d p p' :
  0 < quantum d → 0 < qset d → window d p → window d p' →
  slot_i d p = slot_i d p' → slot_j d p = slot_j d p' → slot_k d p = slot_k d p' → p = p'.
Proof.
  intros Hq Hn [? ?] [? ?]. unfold slot_i, slot_j, slot_k.
  set (D := quantum d * qset d) in *. assert (0 < D) by (unfold D; nia).
  assert (∀ x, 0 <= x → x < 2 ^ 32 * D → 0 <= x / D < 2 ^ 32) as Hd.
  { intros x ? ?. split; [apply Z.div_pos; lia|apply Z.div_lt_upper_bound; lia]. }
  assert (∀ x, 0 <= x → 0 <= x mod D / quantum d) as Hj.
  { intros x ?. apply Z.div_pos; [apply Z.mod_pos_bound; lia|lia]. }
  assert (∀ x, x = D * (x / D) + (quantum d * (x mod D / quantum d) + x mod quantum d)) as Hx.
  { intros x. rewrite <-(mod_mul_mod x (quantum d) (qset d)) by lia. fold D.
    rewrite <-Z.div_mod by lia. apply Z.div_mod. lia. }
  rewrite !u32_small by auto.
  intros E1%Z2Nat.inj E2%Z2Nat.inj E3%Z2Nat.inj;
    [rewrite (Hx p), (Hx p'); congruence|..];
    first [apply Z.mod_pos_bound; lia|apply Hj; done|apply Hd; done].
Qed.

(** Positions of one quantum share their block. *)
Lemma slot_shift d f_pos p :
  0 < quantum d → 0 < qset d → 0 <= f_pos <= p → p - f_pos < quantum d - f_pos mod quantum d →
  slot_i d p = slot_i d f_pos ∧ slot_j d p = slot_j d f_pos ∧
  slot_k d p = (slot_k d f_pos + Z.to_nat (p - f_pos))%nat.
Proof.
  intros Hq Hn Hp Hlt. pose proof (Z.mod_pos_bound f_pos (quantum d)).
  pose proof (Z.div_mod f_pos (quantum d)).
  assert (p / quantum d = f_pos / quantum d ∧ p mod quantum d = f_pos mod quantum d + (p - f_pos))
    as [Hdiv Hmod].
  { apply Z.div_mod_unique with (quantum d); [left; apply Z.mod_pos_bound; lia|left; lia|].
    rewrite <-Z.div_mod by lia. lia. }
  unfold slot_i, slot_j, slot_k. rewrite <-!Z.div_div, !slot_index, Hdiv, Hmod by lia.
  split_and!; [done..|]. lia.
Qed.

Lemma byte_at_grown s s' p : grown s s' → byte_at s' p = byte_at s p.
Proof.
  intros [_ Hq Hn _ _ Hc]. unfold byte_at, slot_i, slot_j, slot_k. rewrite Hq, Hn. apply Hc.
Qed.

Section patch.
Context (s s' : scull) (f_pos n : Z) (bytes : list cell).
Context (Hd : wf_dev (dev s)) (Hp : 0 <= f_pos) (Hlen : lenZ bytes = n).
Context (Hn : 0 <= n <= quantum (dev s) - f_pos mod quantum (dev s)).
Context (Hpatch : patched s s' (slot_i (dev s) f_pos) (slot_j (dev s) f_pos)
                    (slot_k (dev s) f_pos) bytes).

Lemma byte_at_patched_slots p :
  byte_at s' p = cell_at s' (slot_i (dev s) p) (slot_j (dev s) p) (slot_k (dev s) p).
Proof.
  unfold byte_at, slot_i, slot_j, slot_k.
  by rewrite (patched_quantum _ _ _ _ _ _ Hpatch), (patched_qset _ _ _ _ _ _ Hpatch).
Qed.

Lemma byte_at_patched_in p :
  f_pos <= p < f_pos + n → byte_at s' p = mjoin (bytes !! Z.to_nat (p - f_pos)).
Proof.
  intros ?. rewrite byte_at_patched_slots, (patched_cells _ _ _ _ _ _ Hpatch).
  destruct (slot_shift (dev s) f_pos p) as (-> & -> & ->); try apply Hd; [lia..|].
  rewrite decide_True by lia. do 2 f_equal. lia.
Qed.

Lemma byte_at_patched_out p :
  window (dev s) f_pos → window (dev s) p → ¬ f_pos <= p < f_pos + n →
  byte_at s' p = byte_at s p.
Proof.
  intros Hf Hw Hout. rewrite byte_at_patched_slots, (patched_cells _ _ _ _ _ _ Hpatch).
  rewrite decide_False; [done|]. intros (Hi & Hj & Hk1 & Hk2). apply Hout.
  destruct Hd as [Hq Hqs _ _ _].
  set (p' := f_pos + Z.of_nat (slot_k (dev s) p - slot_k (dev s) f_pos)).
  destruct (slot_shift (dev s) f_pos p') as (Hi' & Hj' & Hk'); [done..|unfold p'; lia|unfold p'; lia|].
  assert (p = p') as Heq; [|unfold p' in *; lia].
  apply (slot_inj (dev s)); [done|done|done| |congruence|congruence|rewrite Hk'; unfold p'; lia].
  unfold window in *. split; [unfold p'; lia|].
  assert (slot_k (dev s) p' = slot_k (dev s) p) by (rewrite Hk'; unfold p'; lia).
  pose proof (Z.div_mod f_pos (quantum (dev s))).
  assert (p' < quantum (dev s) * (f_pos / quantum (dev s) + 1)) by (unfold p'; lia).
  assert (f_pos / quantum (dev s) < 2 ^ 32 * qset (dev s)) by (apply Z.div_lt_upper_bound; lia).
  nia.
Qed.
End patch.

(** The bytes of positions [p], [p + 1], ... *)
Definition bytes_from (s : scull) (p n : Z) : list cell :=
  (λ m, byte_at s (p + Z.of_nat m)) <$> seq 0 (Z.to_nat n).

Lemma cells_bytes_from s p n :
  wf_dev (dev s) → 0 <= p → n <= quantum (dev s) - p mod quantum (dev s) →
  cells s (slot_i (dev s) p) (slot_j (dev s) p) (slot_k (dev s) p) n = bytes_from s p n.
Proof.
  intros [] Hp Hn. unfold cells, bytes_from. apply list_fmap_ext. intros i m Hm.
  apply lookup_seq in Hm as [-> ?].
  unfold byte_at. destruct (slot_shift (dev s) p (p + Z.of_nat (0 + i))) as (-> & -> & ->); try lia.
  f_equal. lia.
Qed.

(** ** What each call does under a kernel with memory and no signals *)

Lemma alone_fair {A} : (∀ c z, A c z → doc_ans c z) → fair_contract (Contract A alone False).
Proof. intros HA. split; [done|]. by intros s s' ->. Qed.

Lemma quiet_fair : fair_contract (quiet scull).
Proof. apply alone_fair. apply good_doc. Qed.

#[local] Hint Resolve quiet_fair : ldd.

(** The outcomes such a kernel leaves. *)
Lemma write_outcome_quiet s buf f_pos r s' :
  write_outcome (quiet scull) s buf f_pos r s' →
  ∃ n s1, n = chunk (dev s) f_pos (lenZ buf) ∧ r = Xfer n [] (f_pos + n) ∧
    s' = set_size (Z.max (size (dev s)) (f_pos + n)) s1 ∧
    patched s s1 (slot_i (dev s) f_pos) (slot_j (dev s) f_pos) (slot_k (dev s) f_pos)
      (Some <$> take (Z.to_nat n) buf).
Proof.
  destruct 1 as [s0 z _ [] ?|s0 s1 n z _ [] ?|s0 s1 n z bytes _ [] ?|s0 s1 n Hr -> ?];
    [done..|]. change (s = s0) in Hr. subst s0. eauto 10.
Qed.

Lemma byte_at_set_size n s p : byte_at (set_size n s) p = byte_at s p.
Proof. done. Qed.


Lemma init_window p : 0 <= p < 2 ^ 32 * 4000000 → window (dev scull_init_dev) p.
Proof. done. Qed.


Lemma read_outcome_quiet s count f_pos r s' :
  wf_dev (dev s) → 0 <= f_pos → read_outcome (quiet scull) s count f_pos r s' →
  (grown s s' ∧
   r = if size (dev s) <=? f_pos then Xfer 0 [] f_pos else
       match block_at s (slot_i (dev s) f_pos) (slot_j (dev s) f_pos) with
       | None => Xfer 0 [] f_pos
       | Some _ =>
           let n := chunk (dev s) f_pos (Z.min count (size (dev s) - f_pos)) in
           Xfer n (bytes_from s f_pos n) (f_pos + n)
       end).
Proof.
  intros Hd Hp. destruct 1 as [s0 z _ [] ?|s0 Hr ?|s0 s1 n z _ [] ?|s0 s1 Hr ? ? Hb
    |s0 s1 n z bytes _ [] ?|s0 s1 n Hr Hsz ? -> [b Hb]]; try done.
  all: change (s = s0) in Hr; subst s0; split; [try done|].
  - by rewrite (proj2 (Z.leb_le _ _)) by lia.
  - rewrite (proj2 (Z.leb_gt _ _)) by lia. by rewrite Hb.
  - rewrite (proj2 (Z.leb_gt _ _)) by lia. rewrite Hb. cbv zeta.
    rewrite cells_bytes_from by (done || unfold chunk; lia). done.
Qed.

(** C3: under a kernel with memory and no signals, a read past the end, or in
    a hole of the device, returns 0; any other read returns the bytes stored
    from the file position on, cut at the count, at the end of the data and at
    the end of the quantum, and advances the position by their number. Neither
    the contents nor the size of the device change. *)
Theorem scull_read_returns s count f_pos o :
  idle s → 0 <= count → 0 <= f_pos → f_pos + count <= LONG_MAX → obeys o (quiet scull) →
  ∃ s', run o (scull_read count f_pos) s = Done (
      (if size (dev s) <=? f_pos then Xfer 0 [] f_pos else
       match block_at s (slot_i (dev s) f_pos) (slot_j (dev s) f_pos) with
       | None => Xfer 0 [] f_pos
       | Some _ =>
           let n := Z.min (Z.min count (size (dev s) - f_pos))
                      (quantum (dev s) - f_pos mod quantum (dev s)) in
           Xfer n (bytes_from s f_pos n) (f_pos + n)
       end), s') ∧
    idle s' ∧ size (dev s') = size (dev s) ∧ ∀ p, byte_at s' p = byte_at s p.
Proof.
  intros Hs Hc Hp Hmax Ho.
  destruct (wp_total _ _ _ _ _
    (wp_scull_read _ s count f_pos quiet_fair (proj1 Hs) (proj2 Hs) Hc Hp Hmax) Ho)
    as (r & s' & Hrun & Hout); [by intros []|].
  pose proof (read_outcome_idle _ _ _ _ _ _ quiet_fair Hs Hout) as Hs'.
  apply read_outcome_quiet in Hout as [Hg ->]; [|apply Hs|done].
  exists s'. split_and!; [done|done|apply Hg|]. intros. by apply byte_at_grown.
Qed.

(** Three bytes at the end of the first quantum of a device. *)
Definition example_dev : scull :=
  match run quiet_oracle (scull_write [1; 2; 3] 5) scull_init_dev with
  | Done (_, s) => s
  | _ => scull_init_dev
  end.

Lemma example_idle : idle example_dev.
Proof.
  unfold example_dev.
  destruct (wp_total _ _ _ _ _ (wp_scull_write _ scull_init_dev [1; 2; 3] 5 quiet_fair
    (proj1 init_idle) eq_refl ltac:(done) ltac:(done)) quiet_obeys)
    as (r & s' & -> & Hout); [by intros []|].
  eapply write_outcome_idle, Hout; [apply quiet_fair|apply init_idle|done|done].
Qed.

Lemma scull_read_returns_witness :
  ∃ s', run quiet_oracle (scull_read 2 6) example_dev = Done (Xfer 2 [Some 2; Some 3] 8, s') ∧
    idle s' ∧ size (dev s') = size (dev example_dev) ∧ ∀ p, byte_at s' p = byte_at example_dev p.
Proof.
  apply (scull_read_returns example_dev 2 6 quiet_oracle);
    [apply example_idle|done..|apply quiet_obeys].
Defined.

(** The bytes a write stored, found again. *)
Lemma patched_bytes_from s s' f_pos n bytes m :
  wf_dev (dev s) → 0 <= f_pos → lenZ bytes = n → n <= quantum (dev s) - f_pos mod quantum (dev s) →
  patched s s' (slot_i (dev s) f_pos) (slot_j (dev s) f_pos) (slot_k (dev s) f_pos) (Some <$> bytes) →
  bytes_from (set_size m s') f_pos n = Some <$> bytes.
Proof.
  intros Hd Hp Hlen Hn Hpatch. apply list_eq. intros i. unfold bytes_from.
  rewrite !list_lookup_fmap. destruct (decide (i < Z.to_nat n)%nat) as [Hi|].
  - rewrite lookup_seq_lt by done. cbn. rewrite byte_at_set_size.
    rewrite (byte_at_patched_in s s' f_pos n (Some <$> bytes)); rewrite ?length_fmap; try done; try lia.
    replace (Z.to_nat _) with i by lia. rewrite list_lookup_fmap.
    destruct (lookup_lt_is_Some_2 bytes i) as [b ->]; [lia|done].
  - rewrite !lookup_ge_None_2; rewrite ?length_seq; try done; lia.
Qed.

Lemma patched_block s s' i j k b bytes :
  patched s s' i j k (Some <$> (b :: bytes)) → is_Some (block_at s' i j).
Proof.
  intros Hp. pose proof (patched_cells _ _ _ _ _ _ Hp i j k) as Hc.
  rewrite decide_True in Hc by (split_and!; [done..|cbn; lia]).
  rewrite Nat.sub_diag in Hc. unfold cell_at in Hc. destruct (block_at s' i j); [eauto|done].
Qed.

(** C4: what a write stored, a read of the same position and length gives
    back, whatever the device held before. *)
Theorem scull_write_read s buf f_pos o :
  idle s → 0 <= f_pos → f_pos + lenZ buf <= LONG_MAX → obeys o (quiet scull) → buf ≠ [] →
  ∃ n s1 s2, 0 < n ∧
    run o (scull_write buf f_pos) s = Done (Xfer n [] (f_pos + n), s1) ∧
    run o (scull_read (lenZ buf) f_pos) s1 =
      Done (Xfer n (Some <$> take (Z.to_nat n) buf) (f_pos + n), s2).
Proof.
  intros Hs Hp Hmax Ho Hbuf. pose proof (wf_dev_of _ (proj1 Hs)) as Hd.
  pose proof (wf_quantum _ Hd) as Hq. pose proof (Z.mod_pos_bound f_pos (quantum (dev s)) Hq).
  destruct (wp_total _ _ _ _ _ (wp_scull_write _ s buf f_pos quiet_fair (proj1 Hs) (proj2 Hs) Hp Hmax) Ho)
    as (r & s1 & Hrun & Hout); [by intros []|].
  pose proof (write_outcome_idle _ _ _ _ _ _ quiet_fair Hs Hp Hmax Hout) as Hs1.
  apply write_outcome_quiet in Hout as (n & s' & Hn & -> & -> & Hpatch).
  pose proof (patched_quantum _ _ _ _ _ _ Hpatch) as Hq1.
  pose proof (patched_qset _ _ _ _ _ _ Hpatch) as Hn1.
  set (s1 := set_size _ s') in *. unfold chunk in Hn.
  destruct (wp_total _ _ _ _ _
    (wp_scull_read _ s1 (lenZ buf) f_pos quiet_fair (proj1 Hs1) (proj2 Hs1) ltac:(lia) Hp Hmax) Ho)
    as (r & s2 & Hrun2 & Hout2); [by intros []|].
  apply read_outcome_quiet in Hout2 as [_ ->]; [|apply Hs1|done].
  destruct buf as [|b buf]; [done|]. cbn [length] in *.
  assert (0 < n) as Hpos by lia.
  assert (take (Z.to_nat n) (b :: buf) = b :: take (Z.to_nat (n - 1)) buf) as Htk.
  { replace (Z.to_nat n) with (S (Z.to_nat (n - 1))) by lia. done. }
  exists n, s1, s2. split_and!; [done|done|]. rewrite Hrun2.
  rewrite (proj2 (Z.leb_gt _ _)) by (cbn; lia).
  assert (is_Some (block_at s1 (slot_i (dev s1) f_pos) (slot_j (dev s1) f_pos))) as [blk ->].
  { unfold slot_i, slot_j. cbn [dev s1 set_size quantum qset]. rewrite Hq1, Hn1.
    apply (patched_block s s' _ _ (slot_k (dev s) f_pos) b (take (Z.to_nat (n - 1)) buf)).
    by rewrite <-Htk. }
  cbv zeta. assert (chunk (dev s1) f_pos (Z.min (Z.of_nat (S (length buf))) (size (dev s1) - f_pos)) = n) as ->.
  { unfold chunk. cbn [dev s1 set_size quantum size length]. rewrite Hq1. lia. }
  unfold s1. rewrite (patched_bytes_from s s' f_pos n (take (Z.to_nat n) (b :: buf))); try done; try lia.
  rewrite length_take. cbn [length]. lia.
Qed.

Lemma scull_write_read_witness :
  ∃ n s1 s2, 0 < n ∧
    run quiet_oracle (scull_write [7; 8] 6) example_dev = Done (Xfer n [] (6 + n), s1) ∧
    run quiet_oracle (scull_read 2 6) s1 =
      Done (Xfer n (Some <$> take (Z.to_nat n) [7; 8]) (6 + n), s2).
Proof.
  apply (scull_write_read example_dev [7; 8] 6 quiet_oracle);
    [apply example_idle|done|done|apply quiet_obeys|done].
Defined.

(** ** Safety of the driver *)

(** C1: from the state [scull_init_module] leaves, in any sequence of calls the
    VFS allows but the ioctls that change the quantum and the array size (the
    sets, tells, exchanges and shifts: after a zero quantum a transfer divides by
    zero, [scull_zero_quantum_oops]), under every kernel that answers as
    documented (interrupted waits, failing allocations, faulting user pages) and
    with other tasks that keep the invariant and the geometry of the device: no
    entry point oopses or blocks for ever, every call leaves the mutex free and
    the geometry and list well formed, and the blocks the driver holds are exactly
    those reachable from the device: none is leaked or freed twice. *)
Theorem scull_faultless C :
  fair_contract C →
  faultless scull_fops allowed C (λ s, s = scull_init_dev) ∧
  ∀ s, reachable scull_fops allowed C (λ s, s = scull_init_dev) s →
    wf_dev (dev s) ∧ mutex (dev s) = false ∧ live s = footprint (data (dev s)).
Proof.
  intros HC. pose proof (scull_idle_inductive C HC) as Hinv.
  split; [by eapply inv_faultless|]. intros s Hs.
  destruct (reachable_inv _ _ _ _ _ _ Hinv Hs) as [[]]. done.
Qed.

Lemma documented_fair : fair_contract (documented peers False).
Proof. by split. Qed.

Lemma scull_faultless_witness :
  faultless scull_fops allowed (documented peers False) (λ s, s = scull_init_dev) ∧
  ∀ s, reachable scull_fops allowed (documented peers False) (λ s, s = scull_init_dev) s →
    wf_dev (dev s) ∧ mutex (dev s) = false ∧ live s = footprint (data (dev s)).
Proof. apply (scull_faultless (documented peers False)), documented_fair. Defined.

(** Opening for writing only empties the device: every block is freed, the
    size is 0 and the geometry is that of the module's tunables; any other
    open changes nothing. *)
Theorem scull_open_truncates s f_flags o :
  idle s → obeys o (quiet scull) →
  run o (scull_open f_flags) s = Done (0,
    if Z.land f_flags O_ACCMODE =? O_WRONLY then
      Scull (ScullDev [] (scull_quantum s) (scull_qset s) 0 false)
        (scull_quantum s) (scull_qset s) (scull_p_buffer s) 0
    else s).
Proof.
  intros [Hwf Hm] Ho.
  assert (wp (quiet scull) (scull_open f_flags) (λ r s', r = 0 ∧ s' =
    if Z.land f_flags O_ACCMODE =? O_WRONLY then
      Scull (ScullDev [] (scull_quantum s) (scull_qset s) 0 false)
        (scull_quantum s) (scull_qset s) (scull_p_buffer s) 0
    else s) s) as H.
  { unfold scull_open. wp_step; [|by wp_step]. wp_step.
    apply wp_enter; [apply quiet_fair|done|done|by intros ? ? _ []|].
    intros s0 Hr. change (s = s0) in Hr. subst s0. intros _ _ _ _.
    wp_step. apply wp_scull_trim; [by apply set_mutex_wf|]. apply wp_exit; [done|].
    split; [done|]. unfold set_mutex; cbn. do 2 f_equal. rewrite (wf_live _ Hwf). lia. }
  destruct (wp_total _ _ _ _ _ H Ho) as (r & s' & -> & -> & ->); [by intros []|done].
Qed.

Lemma scull_open_truncates_witness :
  run quiet_oracle (scull_open O_WRONLY) example_dev = Done (0, scull_init_dev).
Proof.
  exact (scull_open_truncates example_dev O_WRONLY quiet_oracle example_idle quiet_obeys).
Defined.

(** A caller without CAP_SYS_ADMIN cannot retune the module: whatever the
    command and the argument, the state is left alone, but for a reset to the
    compiled-in values and for the size of the pipes' buffer. *)
Theorem scull_ioctl_unprivileged s cmd arg o res s' :
  (∀ t, ans o capable t = 0) → (∀ t s, others o t s = s) →
  run o (scull_ioctl cmd arg) s = Done (res, s') →
  s' = s ∨ s' = set_scull_qset SCULL_QSET (set_scull_quantum SCULL_QUANTUM s) ∨
  ∃ z, s' = set_scull_p_buffer z s.
Proof.
  intros Hc Ho Hrun.
  set (C := Contract (λ c z, c = capable → z = 0) alone False : contract scull).
  refine (wp_run C _ (λ _, retuned s) s o res s' _ _ Hrun).
  - apply wp_scull_ioctl_keeps. right. intros z Hz. by apply Hz.
  - split; [intros c t ->; apply Hc|intros t x; symmetry; apply Ho].
Qed.

Definition unprivileged : oracle scull :=
  Oracle (λ c t, match c with capable => 0 | _ => quiet_ans c t end) (λ _ _, 0) (λ _ s, s).

Lemma scull_ioctl_unprivileged_witness :
  run unprivileged (scull_ioctl SCULL_IOCTQUANTUM 0) scull_init_dev
    = Done ((- EPERM, None), scull_init_dev) ∧
  (scull_init_dev = scull_init_dev ∨
   scull_init_dev = set_scull_qset SCULL_QSET (set_scull_quantum SCULL_QUANTUM scull_init_dev) ∨
   ∃ z, scull_init_dev = set_scull_p_buffer z scull_init_dev).
Proof.
  split; [reflexivity|].
  apply (scull_ioctl_unprivileged scull_init_dev SCULL_IOCTQUANTUM 0 unprivileged
    (- EPERM, None) scull_init_dev); [done|done|reflexivity].
Defined.

(** The two tunables and the six access methods of scull.h. *)
Inductive tunable := Quantum | Qset.
Inductive method := MSet | MTell | MGet | MQuery | MExchange | MShift.

Definition word (m : method) (t : tunable) : Z :=
  match m, t with
  | MSet, Quantum => SCULL_IOCSQUANTUM   | MSet, Qset => SCULL_IOCSQSET
  | MTell, Quantum => SCULL_IOCTQUANTUM  | MTell, Qset => SCULL_IOCTQSET
  | MGet, Quantum => SCULL_IOCGQUANTUM   | MGet, Qset => SCULL_IOCGQSET
  | MQuery, Quantum => SCULL_IOCQQUANTUM | MQuery, Qset => SCULL_IOCQQSET
  | MExchange, Quantum => SCULL_IOCXQUANTUM | MExchange, Qset => SCULL_IOCXQSET
  | MShift, Quantum => SCULL_IOCHQUANTUM | MShift, Qset => SCULL_IOCHQSET
  end.

Definition tun (t : tunable) : scull → Z :=
  match t with Quantum => scull_quantum | Qset => scull_qset end.
Definition set_tun (t : tunable) : Z → scull → scull :=
  match t with Quantum => set_scull_quantum | Qset => set_scull_qset end.

(** For a privileged caller each of the twelve tunable commands does what
    its name in scull.h says: "Set" and "eXchange" store the integer the
    argument points to, "Tell" and "sHift" the argument itself; "Get" and
    "eXchange" hand the old value back through the pointer, "Query" and "sHift"
    return it; nothing else changes. *)
Theorem scull_ioctl_tunables m t arg v s o :
  obeys o (quiet scull) → (∀ n, ans o user_int n = v) →
  run o (scull_ioctl (word m t) arg) s = Done (
    match m with
    | MSet | MTell => (0, None)
    | MGet | MExchange => (0, Some (tun t s))
    | MQuery | MShift => (tun t s, None)
    end,
    match m with
    | MSet | MExchange => set_tun t v s
    | MTell | MShift => set_tun t (s32 arg) s
    | MGet | MQuery => s
    end).
Proof.
  intros Ho Hv.
  set (C := Contract (λ c z, good_ans c z ∧ (c = user_int → z = v)) alone False : contract scull).
  assert (obeys o C) as HoC by (split; [intros c n; split; [apply Ho|intros ->; apply Hv]|apply Ho]).
  assert (∀ (r : ioctl_result) s', wp C (scull_ioctl (word m t) arg) (λ x y, x = r ∧ y = s') s →
    run o (scull_ioctl (word m t) arg) s = Done (r, s')) as Hrun.
  { intros r s' H. destruct (wp_total _ _ _ _ _ H HoC) as (? & ? & -> & -> & ->); [by intros []|done]. }
  apply Hrun. clear Hrun. destruct m, t;
    unfold scull_ioctl, word; zconst;
    unfold ioctl_S, ioctl_T, ioctl_G, ioctl_Q, ioctl_X, ioctl_H, if_admin,
      get_user_into, put_user_from; wp_go;
    repeat match goal with H : c_ans C _ _ |- _ => destruct H as [[_ H] ?] end;
    simpl in *; naive_solver.
Qed.

Lemma scull_ioctl_tunables_witness :
  run quiet_oracle (scull_ioctl (word MShift Qset) 5) scull_init_dev =
    Done ((SCULL_QSET, None), set_scull_qset 5 scull_init_dev).
Proof.
  exact (scull_ioctl_tunables MShift Qset 5 0 scull_init_dev quiet_oracle quiet_obeys (λ _, eq_refl)).
Defined.

(** Seeking moves to an offset from the start, the position or the size; a
    target before the start, or another base, is refused and leaves the
    position alone. The position is never negative, not even when the sum
    leaves the range of [loff_t]. *)
Theorem scull_llseek_spec s off whence f_pos o :
  0 <= f_pos →
  ∃ r p, run o (scull_llseek off whence f_pos) s = Done ((r, p), s) ∧ 0 <= p ∧
    let target := match whence with
      | 0 => Some off | 1 => Some (f_pos + off) | 2 => Some (size (dev s) + off) | _ => None
      end in
    ((∀ t, target = Some t → - 2 ^ 63 <= t < 2 ^ 63) →
     (r, p) = match target with
              | Some t => if 0 <=? t then (t, t) else (- EINVAL, f_pos)
              | None => (- EINVAL, f_pos)
              end).
Proof.
  intros Hp. unfold scull_llseek, gets, run, mbind, K_bind, get, mret, K_ret.
  assert (∀ t, ((∀ u, Some t = Some u → - 2 ^ 63 <= u < 2 ^ 63) → s64 t = t)) as Hs64.
  { intros t Ht. by apply s64_small, Ht. }
  destruct whence as [|[w|[w|w|]|]|w]; cbv beta iota zeta; try (do 2 eexists; split_and!; done).
  - destruct (off <? 0) eqn:E; zbool; do 2 eexists; (split_and!; [done|lia|intros _]);
      destruct (Z.leb_spec 0 off); (done || lia).
  - specialize (Hs64 (size (dev s) + off)). revert Hs64.
    generalize (s64 (size (dev s) + off)); intros q Hs64.
    destruct (q <? 0) eqn:E; zbool; do 2 eexists; (split_and!; [done|lia|intros ->%Hs64]);
      destruct (Z.leb_spec 0 (size (dev s) + off)); (done || lia).
  - specialize (Hs64 (f_pos + off)). revert Hs64.
    generalize (s64 (f_pos + off)); intros q Hs64.
    destruct (q <? 0) eqn:E; zbool; do 2 eexists; (split_and!; [done|lia|intros ->%Hs64]);
      destruct (Z.leb_spec 0 (f_pos + off)); (done || lia).
Qed.

Lemma scull_llseek_spec_witness :
  ∃ r p, run quiet_oracle (scull_llseek (-3) 2 0) example_dev = Done ((r, p), example_dev) ∧ 0 <= p ∧
    ((∀ t, Some 5 = Some t → - 2 ^ 63 <= t < 2 ^ 63) → (r, p) = (5, 5)).
Proof. exact (scull_llseek_spec example_dev (-3) 2 0 quiet_oracle ltac:(lia)). Defined.

(** ** The edges of the arithmetic *)

(** The list index is an [int]: positions [2 ^ 32] items apart share a slot. *)
Lemma slot_wraps d p :
  0 < quantum d → 0 < qset d →
  let p' := p + 2 ^ 32 * (quantum d * qset d) in
  slot_i d p' = slot_i d p ∧ slot_j d p' = slot_j d p ∧ slot_k d p' = slot_k d p.
Proof.
  intros Hq Hn p'. unfold p', slot_i, slot_j, slot_k, u32.
  assert (0 < quantum d * qset d) by nia.
  rewrite Z.div_add, Z.mod_add by lia. split_and!; [|done|].
  - replace (p / (quantum d * qset d) + 2 ^ 32) with (p / (quantum d * qset d) + 1 * 2 ^ 32) by lia.
    by rewrite Z.mod_add by lia.
  - replace (p + 2 ^ 32 * (quantum d * qset d)) with (p + 2 ^ 32 * qset d * quantum d) by lia.
    by rewrite Z.mod_add by lia.
Qed.

(** The item number is computed in an [int], so a position and the one
    [2 ^ 32] items further designate the same byte: writing one byte far beyond
    the end overwrites the byte near the start. *)
Theorem scull_write_aliases s b f_pos o :
  idle s → window (dev s) f_pos →
  f_pos + 2 ^ 32 * (quantum (dev s) * qset (dev s)) < LONG_MAX → obeys o (quiet scull) →
  ∃ r s', run o (scull_write [b] (f_pos + 2 ^ 32 * (quantum (dev s) * qset (dev s)))) s = Done (r, s') ∧
    byte_at s' f_pos = Some b.
Proof.
  intros Hs [Hp _] Hmax Ho. set (far := f_pos + _) in *.
  pose proof (wf_dev_of _ (proj1 Hs)) as Hd. pose proof (wf_quantum _ Hd). pose proof (wf_qset _ Hd).
  assert (0 <= far) by (unfold far; nia).
  destruct (wp_total _ _ _ _ _
    (wp_scull_write _ s [b] far quiet_fair (proj1 Hs) (proj2 Hs) ltac:(done) ltac:(cbn; lia)) Ho)
    as (r & s' & Hrun & Hout); [by intros []|].
  apply write_outcome_quiet in Hout as (n & s1 & Hn & -> & -> & Hpatch).
  do 2 eexists. split; [exact Hrun|]. rewrite byte_at_set_size.
  pose proof (Z.mod_pos_bound far (quantum (dev s))).
  assert (n = 1) as -> by (unfold chunk in Hn; cbn in Hn; lia). 
  change (Z.to_nat 1) with 1%nat in Hpatch.
  rewrite (byte_at_patched_slots _ _ _ _ Hpatch), (patched_cells _ _ _ _ _ _ Hpatch).
  destruct (slot_wraps (dev s) f_pos) as (Hi & Hj & Hk); [done..|].
  unfold far. rewrite Hi, Hj, Hk, decide_True by (split_and!; [done..|simpl; lia]). by rewrite Nat.sub_diag.
Qed.

Lemma scull_write_aliases_witness :
  ∃ r s', run quiet_oracle (scull_write [9] (5 + 2 ^ 32 * 4000000)) example_dev = Done (r, s') ∧
    byte_at s' 5 = Some 9.
Proof.
  apply (scull_write_aliases example_dev 9 5 quiet_oracle);
    [apply example_idle|by vm_compute|by vm_compute|apply quiet_obeys].
Defined.

(** Nothing checks the tunables: after "Tell quantum 0" by a privileged
    caller and an open for writing, every write of the device divides by zero. *)
Theorem scull_zero_quantum_oops buf f_pos :
  run quiet_oracle
    (scull_ioctl SCULL_IOCTQUANTUM 0;; scull_open O_WRONLY;; scull_write buf f_pos)
    scull_init_dev = Oops DivByZero.
Proof. reflexivity. Qed.

(** A quantum is not cleared when it is allocated: a write past the start
    of a fresh quantum lets the next reader see the bytes before it, which are
    whatever the allocator left there. *)
Theorem scull_read_uninitialised b :
  ∃ s', run quiet_oracle (scull_write [b] 10;; scull_read 11 0) scull_init_dev
    = Done (Xfer 11 (replicate 10 None ++ [Some b]) 11, s').
Proof. eexists. vm_compute. reflexivity. Qed.

(** What a privileged process does while a reader waits for the mutex: it
    shrinks the quantum and the set to 2, empties the device and refills it. *)
Definition resize (s : scull) : scull :=
  match run quiet_oracle
    (scull_ioctl SCULL_IOCTQUANTUM 2;; scull_ioctl SCULL_IOCTQSET 2;; scull_open O_WRONLY;;
     scull_write [1; 2] 0;; scull_write [3; 4] 2) s with
  | Done (_, s') => s'
  | _ => s
  end.

(** A transfer reads the geometry of the device before it takes the mutex:
    when another process resizes the device in between, the transfer runs with
    the old geometry and copies from beyond the end of a quantum. *)
Theorem scull_read_stale_geometry :
  run (Oracle quiet_ans (λ _ _, 0) (λ t s, if (t =? 0)%nat then resize s else s))
    (scull_read 4 0) scull_init_dev = Oops OutOfBounds.
Proof. vm_compute. reflexivity. Qed.
