(* ===== verification/ScullPipe.v ===== *)
(** * scullpipe: the pipe device (src/ldd4/scull/pipe.c)

    A pipe is a ring buffer between a read and a write pointer; readers and
    writers sleep on two queues. Pointers are kept as offsets from [buffer].
    [written] and [gone] are ghosts: what writers stored, and what has left the
    ring, with whether a reader took it or it was thrown away. *)

From stdpp Require Import base tactics numbers list.
From S2P Require Import Prelude Ring KMonad.
From Stdlib Require Import ZArith Lia.
From stdpp Require Import strings.

Open Scope Z_scope.

(** ** Data *)

(** What a task that sleeps, or asked for SIGIO, is told. *)
Inductive wake := WakeInq | WakeOutq | Sigio.

Record scull_pipe := ScullPipe {
  buffer : option (list cell);   (* None: NULL *)
  end_ : Z;
  buffersize : Z;
  rp : Z;
  wp_ : Z;
  nreaders : Z;
  nwriters : Z;
  pmutex : bool;
  scull_p_buffer : Z;            (* the module parameter *)
  written : list cell;
  gone : list (cell * bool);
  wakes : list wake
}.

(** Field updates. *)
Definition set_pmutex (b : bool) (s : scull_pipe) : scull_pipe :=
  ScullPipe (buffer s) (end_ s) (buffersize s) (rp s) (wp_ s) (nreaders s) (nwriters s) b
    (scull_p_buffer s) (written s) (gone s) (wakes s).
Definition set_buffer (b : option (list cell)) (s : scull_pipe) : scull_pipe :=
  ScullPipe b (end_ s) (buffersize s) (rp s) (wp_ s) (nreaders s) (nwriters s) (pmutex s)
    (scull_p_buffer s) (written s) (gone s) (wakes s).
Definition set_rp (z : Z) (s : scull_pipe) : scull_pipe :=
  ScullPipe (buffer s) (end_ s) (buffersize s) z (wp_ s) (nreaders s) (nwriters s) (pmutex s)
    (scull_p_buffer s) (written s) (gone s) (wakes s).
Definition set_wp (z : Z) (s : scull_pipe) : scull_pipe :=
  ScullPipe (buffer s) (end_ s) (buffersize s) (rp s) z (nreaders s) (nwriters s) (pmutex s)
    (scull_p_buffer s) (written s) (gone s) (wakes s).
Definition set_counts (r w : Z) (s : scull_pipe) : scull_pipe :=
  ScullPipe (buffer s) (end_ s) (buffersize s) (rp s) (wp_ s) r w (pmutex s)
    (scull_p_buffer s) (written s) (gone s) (wakes s).
Definition add_wake (w : wake) (s : scull_pipe) : scull_pipe :=
  ScullPipe (buffer s) (end_ s) (buffersize s) (rp s) (wp_ s) (nreaders s) (nwriters s) (pmutex s)
    (scull_p_buffer s) (written s) (gone s) (w :: wakes s).
Definition add_written (l : list cell) (s : scull_pipe) : scull_pipe :=
  ScullPipe (buffer s) (end_ s) (buffersize s) (rp s) (wp_ s) (nreaders s) (nwriters s) (pmutex s)
    (scull_p_buffer s) (written s ++ l) (gone s) (wakes s).
Definition add_delivered (l : list cell) (s : scull_pipe) : scull_pipe :=
  ScullPipe (buffer s) (end_ s) (buffersize s) (rp s) (wp_ s) (nreaders s) (nwriters s) (pmutex s)
    (scull_p_buffer s) (written s) (gone s ++ ((λ c, (c, true)) <$> l)) (wakes s).
(** What a reader would get, in order. *)
Definition contents (s : scull_pipe) : list cell :=
  match buffer s with Some b => ring b (rp s) (wp_ s) | None => [] end.

(** (Ghost) The ring is about to be emptied. *)
Definition discard (s : scull_pipe) : scull_pipe :=
  ScullPipe (buffer s) (end_ s) (buffersize s) (rp s) (wp_ s) (nreaders s) (nwriters s) (pmutex s)
    (scull_p_buffer s) (written s) (gone s ++ ((λ c, (c, false)) <$> contents s)) (wakes s).

(** [dev->buffersize = scull_p_buffer; dev->end = ...; dev->rp = dev->wp = dev->buffer;] *)
Definition reset_pointers (s : scull_pipe) : scull_pipe :=
  ScullPipe (buffer s) (scull_p_buffer s) (scull_p_buffer s) 0 0 (nreaders s) (nwriters s)
    (pmutex s) (scull_p_buffer s) (written s) (gone s) (wakes s).

#[export] Instance pipe_lock : HasLock scull_pipe :=
  { lock_of := pmutex; set_lock := set_pmutex; lock_set b s := eq_refl }.

(** ** Open and release *)

Definition has_mode (f_mode m : Z) : bool := c_bool (Z.land f_mode m).
Definition one_if (b : bool) : Z := if b then 1 else 0.

(** [if (filp->f_mode & FMODE_READ) dev->nreaders++; ...] with the sign [d]. *)
Definition count_opens (d f_mode : Z) (s : scull_pipe) : scull_pipe :=
  set_counts (s32 (nreaders s + d * one_if (has_mode f_mode FMODE_READ)))
    (s32 (nwriters s + d * one_if (has_mode f_mode FMODE_WRITE))) s.

Definition scull_p_open (f_mode : Z) : K scull_pipe Z :=
  ok ← lock_interruptible;
  if negb ok then mret (- ERESTARTSYS) else
  b ← gets buffer;
  modify discard;;
  got ← match b with
        | Some _ => mret true
        | None =>
            n ← gets scull_p_buffer;
            z ← call (kmalloc n);
            if z =? 0 then mret false
            else modify (set_buffer (Some (uninit n)));; mret true
        end;
  if negb got then unlock;; mret (- ENOMEM) else
  modify reset_pointers;;
  modify (count_opens 1 f_mode);;
  unlock;;
  mret 0.

(** [fasync_helper] keeps the list of asynchronous readers in the kernel. *)
Definition scull_p_fasync : K scull_pipe Z :=
  call (kint "fasync_helper"%string).

Definition scull_p_release (f_mode : Z) : K scull_pipe Z :=
  scull_p_fasync;;
  lock;;
  modify (count_opens (-1) f_mode);;
  modify (λ s, if s32 (nreaders s + nwriters s) =? 0 then set_buffer None (discard s) else s);;
  unlock;;
  mret 0.

(** ** Read *)

(** [n] bytes at offset [off] of the buffer, as the source of a copy. *)
Definition pipe_bytes (off n : Z) : K scull_pipe (list cell) :=
  b ← gets buffer ≫= deref NullDeref;
  if bool_decide (0 <= off ∧ 0 <= n ∧ off + n <= lenZ b) then mret (slice off n b)
  else oops OutOfBounds.

(** [while (dev->rp == dev->wp) ...]: [Some r] is a return from inside the
    loop. [fuel] bounds the number of times the task is woken in vain. *)
Fixpoint wait_readable (fuel : nat) (f_flags : Z) : K scull_pipe (option Z) :=
  match fuel with
  | O => sleep_forever
  | S fuel' =>
      s ← get;
      if rp s =? wp_ s then
        unlock;;
        if c_bool (Z.land f_flags O_NONBLOCK) then mret (Some (- EAGAIN)) else
        r ← wait_event_interruptible (λ s, negb (rp s =? wp_ s));
        if negb (r =? 0) then mret (Some (- ERESTARTSYS)) else
        ok ← lock_interruptible;
        if ok : bool then wait_readable fuel' f_flags else mret (Some (- ERESTARTSYS))
      else mret None
  end.

(** "ok, data is there, return something": the value of the call and the bytes
    that reached user space. *)
Definition take_data (count : Z) : K scull_pipe (Z * list cell) :=
  s ← get;
  let count := if wp_ s >? rp s then Z.min count (u64 (wp_ s - rp s))
               else Z.min count (u64 (end_ s - rp s)) in
  src ← pipe_bytes (rp s) count;
  '(bytes, ok) ← copy_to_user src;
  if negb ok then unlock;; mret (- EFAULT, bytes) else
  modify (λ s, set_rp (rp s + count) s);;
  modify (λ s, if rp s =? end_ s then set_rp 0 s else s);;
  modify (add_delivered bytes);;
  unlock;;
  modify (add_wake WakeOutq);;
  mret (count, bytes).

Definition scull_p_read (fuel : nat) (f_flags count : Z) : K scull_pipe (Z * list cell) :=
  ok ← lock_interruptible;
  if negb ok then mret (- ERESTARTSYS, []) else
  w ← wait_readable fuel f_flags;
  match w with
  | Some r => mret (r, [])
  | None => take_data count
  end.

(** ** Write *)

(** How much space is free? *)
Definition spacefree (s : scull_pipe) : outcome Z :=
  if rp s =? wp_ s then Done (s32 (buffersize s - 1))
  else if buffersize s =? 0 then Oops DivByZero
  else Done (s32 (Z.rem (rp s + buffersize s - wp_ s) (buffersize s) - 1)).

(** [Some r] is a return from inside the loop, with the mutex released. *)
Fixpoint scull_getwritespace (fuel : nat) (f_flags : Z) : K scull_pipe (option Z) :=
  match fuel with
  | O => sleep_forever
  | S fuel' =>
      n ← get ≫= λ s, liftO (spacefree s);
      if n =? 0 then
        unlock;;
        if c_bool (Z.land f_flags O_NONBLOCK) then mret (Some (- EAGAIN)) else
        interfere;;
        n ← get ≫= λ s, liftO (spacefree s);
        (if n =? 0 then interfere else mret tt);;
        sig ← call signal_pending;
        if negb (sig =? 0) then mret (Some (- ERESTARTSYS)) else
        ok ← lock_interruptible;
        if ok : bool then scull_getwritespace fuel' f_flags else mret (Some (- ERESTARTSYS))
      else mret None
  end.

(** "ok, space is there, accept something". [buf] is the user's buffer, of
    [count] bytes. *)
Definition put_data (buf : list Z) : K scull_pipe Z :=
  s ← get;
  free ← liftO (spacefree s);
  let count := Z.min (lenZ buf) (u64 free) in
  let count := if wp_ s >=? rp s then Z.min count (u64 (end_ s - wp_ s))
               else Z.min count (u64 (rp s - wp_ s - 1)) in
  b ← deref NullDeref (buffer s);
  pipe_bytes (wp_ s) count;;
  '(bytes, ok) ← copy_from_user (take (Z.to_nat count) buf);
  modify (set_buffer (Some (store (wp_ s) bytes b)));;
  if negb ok then unlock;; mret (- EFAULT) else
  modify (λ s, set_wp (wp_ s + count) s);;
  modify (λ s, if wp_ s =? end_ s then set_wp 0 s else s);;
  modify (add_written bytes);;
  unlock;;
  modify (add_wake WakeInq);;
  q ← call (kint "async_queue"%string);
  (if negb (q =? 0) then modify (add_wake Sigio) else mret tt);;
  mret count.

Definition scull_p_write (fuel : nat) (f_flags : Z) (buf : list Z) : K scull_pipe Z :=
  ok ← lock_interruptible;
  if negb ok then mret (- ERESTARTSYS) else
  result ← scull_getwritespace fuel f_flags;
  match result with
  | Some r => mret r
  | None => put_data buf
  end.

(** ** Poll *)

Definition scull_p_poll : K scull_pipe Z :=
  lock;;
  s ← get;
  let mask := if negb (rp s =? wp_ s) then Z.lor 0 (Z.lor POLLIN POLLRDNORM) else 0 in
  n ← liftO (spacefree s);
  let mask := if c_bool n then Z.lor mask (Z.lor POLLOUT POLLWRNORM) else mask in
  unlock;;
  mret mask.

(** * Invariant *)

Lemma fst_flagged (f : bool) (l : list cell) : ((λ c, (c, f)) <$> l).*1 = l.
Proof. induction l as [|c l IH]; [done|]. cbn. by f_equal. Qed.

(** Openings fit the counts, so does their sum. *)
Record wf (s : scull_pipe) : Prop := {
  wf_param : 1 < scull_p_buffer s <= INT_MAX;
  wf_counts : 0 <= nreaders s ∧ 0 <= nwriters s ∧ nreaders s + nwriters s <= INT_MAX;
  wf_open : 0 < nreaders s + nwriters s → is_Some (buffer s);
  wf_size : rp s = wp_ s ∨ 0 < buffersize s;
  wf_buffer : ∀ b, buffer s = Some b →
    lenZ b = scull_p_buffer s ∧ buffersize s = scull_p_buffer s ∧ end_ s = scull_p_buffer s ∧
    0 <= rp s < scull_p_buffer s ∧ 0 <= wp_ s < scull_p_buffer s;
  wf_stream : written s = (gone s).*1 ++ contents s
}.

(** One more file can be opened: the counts are [int]s. *)
Definition room_to_open (s : scull_pipe) : Prop := nreaders s + nwriters s <= INT_MAX - 2.

(** Other tasks keep the invariant, this task's hold on the mutex, the module
    parameter, the openings this task has, and room for the one it asked for. *)
Definition peers (s s' : scull_pipe) : Prop :=
  (wf s → wf s') ∧ pmutex s' = pmutex s ∧ scull_p_buffer s' = scull_p_buffer s ∧
  (0 < nreaders s → 0 < nreaders s') ∧ (0 < nwriters s → 0 < nwriters s') ∧
  (room_to_open s → room_to_open s').

(** The mutex is free; and a file this task holds is open. *)
Definition idle (s : scull_pipe) : Prop := wf s ∧ pmutex s = false.
Definition held (s : scull_pipe) : Prop := wf s ∧ pmutex s = true.
Definition opened (s : scull_pipe) : Prop := 0 < nreaders s ∨ 0 < nwriters s.

Record fair_contract (C : contract scull_pipe) : Prop := {
  fair_doc : ∀ c z, c_ans C c z → doc_ans c z;
  fair_peers : ∀ s s', c_rely C s s' → peers s s'
}.

Lemma pipe_peers_idle s s' : idle s → peers s s' → idle s'.
Proof. intros [] (? & ? & _). split; [tauto|congruence]. Qed.

Lemma peers_opened s s' : opened s → peers s s' → opened s'.
Proof. intros [] (_ & _ & _ & ? & ? & _); [left|right]; auto. Qed.

Lemma pipe_held_idle s : held s → idle (set_pmutex false s).
Proof. intros [[] ?]. split; [by split|done]. Qed.

Lemma pipe_idle_held s : idle s → held (set_pmutex true s).
Proof. intros [[] ?]. split; [by split|done]. Qed.

Lemma contents_set_pmutex b s : contents (set_pmutex b s) = contents s.
Proof. done. Qed.

(** Free space and contents add up to the buffer, less the free cell. *)
Lemma spacefree_ring s b :
  wf s → buffer s = Some b →
  spacefree s = Done (buffersize s - 1 - lenZ (contents s)).
Proof.
  intros [Hp ? ? ? Hb _] E. destruct (Hb b E) as (Hl & Hs & _ & Hr & Hw).
  unfold INT_MAX in *. unfold contents, spacefree. rewrite E, length_ring, Hs by lia.
  rewrite (proj2 (Z.eqb_neq (scull_p_buffer s) 0)) by lia.
  destruct (rp s =? wp_ s) eqn:E1; zbool.
  - rewrite E1, Z.leb_refl, s32_small by lia. f_equal. lia.
  - rewrite Z.rem_mod_nonneg by lia. destruct (rp s <=? wp_ s) eqn:E2; zbool.
    + rewrite Z.mod_small, s32_small by lia. f_equal. lia.
    + replace (rp s + scull_p_buffer s - wp_ s) with (rp s - wp_ s + 1 * scull_p_buffer s) by lia.
      rewrite Z.mod_add, Z.mod_small, s32_small by lia. f_equal. lia.
Qed.

(** [spacefree] never faults. *)
Lemma spacefree_total s : wf s → ∃ n, spacefree s = Done n.
Proof.
  intros [? ? ? Hs _ _]. unfold spacefree. destruct (rp s =? wp_ s) eqn:E; zbool; [eauto|].
  rewrite (proj2 (Z.eqb_neq _ 0)); [eauto|]. destruct Hs; [done|lia].
Qed.

Lemma opened_buffer s : wf s → opened s → is_Some (buffer s).
Proof. intros [? (? & ? & _) Ho _ _ _] Hop. apply Ho. destruct Hop; lia. Qed.

(** ** Taking and releasing the mutex *)

Lemma wp_take C s (Q : bool → scull_pipe → Prop) :
  fair_contract C → idle s →
  (∀ s0 z, c_rely C s s0 → idle s0 → c_ans C mutex_lock_intr z → z ≠ 0 → Q false s0) →
  (∀ s0, c_rely C s s0 → idle s0 → Q true (set_pmutex true s0)) →
  wp C lock_interruptible Q s.
Proof.
  intros [_ Hp] Hs Hko Hok. apply wp_lock_interruptible.
  - intros s0 H. by destruct (pipe_peers_idle _ _ Hs (Hp _ _ H)).
  - intros s0 _ H _ _. apply Hok; [done|]. by eapply pipe_peers_idle, Hp.
  - intros s0 z H ? ?. eapply Hko; [done| |done|done]. by eapply pipe_peers_idle, Hp.
Qed.

Lemma wp_take_lock C s (Q : unit → scull_pipe → Prop) :
  fair_contract C → idle s →
  (∀ s0, c_rely C s s0 → idle s0 → Q tt (set_pmutex true s0)) → wp C lock Q s.
Proof.
  intros [_ Hp] Hs Hok. apply wp_lock.
  - intros s0 H. by destruct (pipe_peers_idle _ _ Hs (Hp _ _ H)).
  - intros s0 H. apply Hok; [done|]. by eapply pipe_peers_idle, Hp.
Qed.

(** ** Taking and storing data *)

(** [dev] after [n] bytes were taken, and after [src] was stored. *)
Definition taken (n : Z) (s : scull_pipe) : scull_pipe :=
  add_delivered (take (Z.to_nat n) (contents s)) (set_rp (wrap (end_ s) (rp s + n)) s).
Definition stored (src : list cell) (b : list cell) (s : scull_pipe) : scull_pipe :=
  add_written src (set_wp (wrap (end_ s) (wp_ s + lenZ src)) (set_buffer (Some (store (wp_ s) src b)) s)).

(** The bytes one call can take, and the space one call can fill. *)
Definition avail (s : scull_pipe) : Z := ring_avail (end_ s) (rp s) (wp_ s).
Definition room (s : scull_pipe) : Z := ring_room (end_ s) (rp s) (wp_ s).

(** [dev->rp += count; if (dev->rp == dev->end) dev->rp = dev->buffer;] *)
Lemma advance_rp n s :
  (if rp (set_rp (rp s + n) s) =? end_ (set_rp (rp s + n) s)
   then set_rp 0 (set_rp (rp s + n) s) else set_rp (rp s + n) s)
  = set_rp (wrap (end_ s) (rp s + n)) s.
Proof. cbn. unfold wrap. by case_match. Qed.

Lemma advance_wp n s :
  (if wp_ (set_wp (wp_ s + n) s) =? end_ (set_wp (wp_ s + n) s)
   then set_wp 0 (set_wp (wp_ s + n) s) else set_wp (wp_ s + n) s)
  = set_wp (wrap (end_ s) (wp_ s + n)) s.
Proof. cbn. unfold wrap. by case_match. Qed.

Section buffer_lemmas.
Context (s : scull_pipe) (b : list cell) (Hs : wf s) (Hb : buffer s = Some b).

Lemma buffer_geometry :
  lenZ b = end_ s ∧ buffersize s = end_ s ∧ 1 < end_ s <= INT_MAX ∧
  0 <= rp s < end_ s ∧ 0 <= wp_ s < end_ s.
Proof.
  destruct Hs as [? ? ? ? H _]. destruct (H b Hb) as (? & ? & ? & ? & ?). lia.
Qed.

Lemma avail_pos : rp s ≠ wp_ s → 0 < avail s.
Proof.
  destruct buffer_geometry as (? & ? & ? & ? & ?). intros.
  unfold avail, ring_avail. case_match; zbool; lia.
Qed.

Lemma contents_pop n :
  0 <= n <= avail s → contents s = slice (rp s) n b ++ contents (taken n s).
Proof.
  destruct buffer_geometry as (Hl & ? & ? & ? & ?). intros.
  unfold contents, taken; cbn. rewrite Hb, <-Hl. apply ring_pop; rewrite Hl; done || lia.
Qed.

Lemma take_contents n :
  0 <= n <= avail s → take (Z.to_nat n) (contents s) = slice (rp s) n b.
Proof.
  intros Hn. rewrite (contents_pop n Hn).
  destruct buffer_geometry as (Hl & ? & ? & ? & ?).
  assert (rp s + n <= end_ s) by (unfold avail, ring_avail in Hn; case_match; zbool; lia).
  pose proof (length_slice (rp s) n b). rewrite take_app_length'; [done|lia].
Qed.

Lemma wrap_range i : 0 <= i <= end_ s → 0 <= wrap (end_ s) i < end_ s.
Proof.
  destruct buffer_geometry as (Hl & ? & ? & ? & ?). unfold wrap. case_match; zbool; lia.
Qed.

Lemma taken_wf n : 0 <= n <= avail s → wf (taken n s).
Proof.
  intros Hn. pose proof (contents_pop n Hn) as Hc. pose proof (take_contents n Hn) as Ht.
  destruct buffer_geometry as (Hl & ? & ? & ? & ?).
  destruct Hs as [Hp Hco Ho Hsz Hbuf Hst]. split; try done.
  - right. cbn. lia.
  - intros b' Hb'. cbn in *. destruct (Hbuf b' Hb') as (? & ? & ? & ? & ?).
    pose proof (wrap_range (rp s + n)).
    unfold avail, ring_avail in Hn. split_and!; try done; case_match; zbool; lia.
  - cbn [gone taken add_delivered set_rp]. change (written (taken n s)) with (written s).
    rewrite fmap_app, fst_flagged, Ht, <-app_assoc, <-Hc. apply Hst.
Qed.
Lemma room_nonneg : 0 <= room s.
Proof. destruct buffer_geometry as (_ & _ & _ & ? & ?). by apply ring_room_bounds. Qed.

Lemma contents_push src :
  lenZ src <= room s → contents (stored src b s) = contents s ++ src.
Proof.
  destruct buffer_geometry as (Hl & ? & ? & ? & ?). unfold room. intros.
  unfold contents, stored; cbn. rewrite Hb, <-Hl. apply ring_push; rewrite Hl; done || lia.
Qed.

(** A block stored over, whatever part of it the copy reached. *)
Lemma overwritten_wf src :
  lenZ src <= room s → wf (set_buffer (Some (store (wp_ s) src b)) s).
Proof.
  intros Hn. destruct buffer_geometry as (Hl & ? & ? & ? & ?).
  destruct Hs as [Hp Hco Ho Hsz Hbuf Hst]. split; try done.
  - intros b' [= <-]. cbn. rewrite length_store. by apply Hbuf.
  - cbn. rewrite Hst. f_equal. unfold contents. rewrite Hb. cbn.
    unfold ring, room, ring_room in *. rewrite length_store, <-Hl in *.
    destruct (rp s <=? wp_ s) eqn:E; zbool.
    + by rewrite slice_store_disjoint by lia.
    + by rewrite !slice_store_disjoint by lia.
Qed.

Lemma pipe_stored_wf src : lenZ src <= room s → wf (stored src b s).
Proof.
  intros Hn. pose proof (contents_push src Hn) as Hc.
  destruct buffer_geometry as (Hl & ? & ? & ? & ?).
  destruct Hs as [Hp Hco Ho Hsz Hbuf Hst]. split; try done.
  - right. cbn. lia.
  - intros b' Hb'. injection Hb' as <-. cbn. rewrite length_store.
    destruct (Hbuf b Hb) as (? & ? & ? & ? & ?). pose proof (wrap_range (wp_ s + lenZ src)).
    unfold room, ring_room in Hn. split_and!; try done; case_match; zbool; lia.
  - change (written s ++ src = (gone s).*1 ++ contents (stored src b s)).
    by rewrite Hc, app_assoc, <-Hst.
Qed.

Lemma wp_pipe_bytes C off n (Q : list cell → scull_pipe → Prop) :
  0 <= off → 0 <= n → off + n <= end_ s → Q (slice off n b) s → wp C (pipe_bytes off n) Q s.
Proof.
  destruct buffer_geometry as (Hl & _). intros. unfold pipe_bytes. wp_step. wp_step. wp_step.
  apply (wp_deref _ _ _ _ _ b); [done|]. rewrite bool_decide_true by lia. by wp_step.
Qed.

(** [take_data] takes what can be taken without wrapping, at most [count]. *)
Lemma wp_take_data C count (Q : Z * list cell → scull_pipe → Prop) :
  pmutex s = true → rp s ≠ wp_ s → 0 <= count →
  (∀ n z bytes, c_ans C (copy_user n) z → z ≠ 0 → Q (- EFAULT, bytes) (set_pmutex false s)) →
  (let n := Z.min count (avail s) in
   Q (n, take (Z.to_nat n) (contents s)) (add_wake WakeOutq (set_pmutex false (taken n s)))) →
  wp C (take_data count) Q s.
Proof.
  intros Hm Hne Hc Hko Hok. destruct buffer_geometry as (Hl & ? & ? & ? & ?).
  unfold INT_MAX in *. pose proof (avail_pos Hne) as Hav.
  unfold take_data. wp_step. wp_step.
  replace (if wp_ s >? rp s then _ else _) with (Z.min count (avail s)).
  2:{ unfold avail, ring_avail. destruct (wp_ s >? rp s) eqn:E, (rp s <=? wp_ s) eqn:E2; zbool;
      rewrite u64_small by lia; lia. }
  set (n := Z.min count (avail s)) in *. assert (0 <= n <= avail s) as Hn by lia.
  assert (rp s + n <= end_ s) by (unfold avail, ring_avail in *; case_match; zbool; lia).
  wp_step. apply wp_pipe_bytes; [lia..|]. rewrite <-(take_contents n Hn).
  assert (lenZ (take (Z.to_nat n) (contents s)) = n) as Hlen.
  { rewrite (take_contents n Hn). apply length_slice; lia. }
  wp_step. apply wp_copy_to_user. intros z Hz.
  destruct (z =? 0) eqn:Hz0; zbool; cbn [negb].
  - subst z. rewrite Nat.sub_0_r, take_ge by lia.
    do 2 (wp_step; apply wp_modify). wp_step. apply wp_modify.
    wp_step. apply wp_unlock; [by repeat case_match|]. wp_step. apply wp_modify. wp_step.
    rewrite advance_rp. exact Hok.
  - wp_step. apply wp_unlock; [done|]. wp_step. by eapply Hko.
Qed.
(** The space [scull_p_write] computes is what can be filled without wrapping. *)
Lemma write_count n :
  0 <= n →
  (if wp_ s >=? rp s
   then Z.min (Z.min n (u64 (buffersize s - 1 - lenZ (contents s)))) (u64 (end_ s - wp_ s))
   else Z.min (Z.min n (u64 (buffersize s - 1 - lenZ (contents s)))) (u64 (rp s - wp_ s - 1)))
  = Z.min n (room s).
Proof.
  destruct buffer_geometry as (Hl & Hbs & ? & ? & ?). intros. unfold INT_MAX in *.
  unfold contents. rewrite Hb, length_ring, Hl, Hbs by lia. unfold room, ring_room.
  destruct (wp_ s >=? rp s) eqn:E, (rp s <=? wp_ s) eqn:E2; zbool; try lia;
    rewrite !u64_small by lia; lia.
Qed.

(** [put_data] fills what can be filled without wrapping, at most the buffer. *)
Lemma wp_put_data C buf (Q : Z → scull_pipe → Prop) :
  fair_contract C → pmutex s = true →
  (∀ n z bytes, c_ans C (copy_user n) z → z ≠ 0 →
    lenZ bytes = Z.min (lenZ buf) (room s) →
    Q (- EFAULT) (set_pmutex false (set_buffer (Some (store (wp_ s) bytes b)) s))) →
  (let n := Z.min (lenZ buf) (room s) in
   let s' := add_wake WakeInq (set_pmutex false (stored (Some <$> take (Z.to_nat n) buf) b s)) in
   Q n s' ∧ Q n (add_wake Sigio s')) →
  wp C (put_data buf) Q s.
Proof.
  intros HC Hm Hko Hok. destruct buffer_geometry as (Hl & Hbs & ? & ? & ?).
  unfold put_data. wp_step. wp_step. wp_step.
  eapply wp_liftO; [by eapply spacefree_ring|]. cbv zeta.
  rewrite write_count by lia. set (n := Z.min (lenZ buf) (room s)) in *.
  assert (0 <= n /\ n <= room s) as [Hn Hn'].
  { pose proof (ring_room_bounds (end_ s) (rp s) (wp_ s)). unfold n, room in *. lia. }
  assert (wp_ s + n <= end_ s) by (unfold room, ring_room in *; case_match; zbool; lia).
  wp_step. apply (wp_deref _ _ _ _ _ b); [done|]. wp_step. apply wp_pipe_bytes; [lia..|].
  assert (lenZ (take (Z.to_nat n) buf) = n) as Hlen by (rewrite length_take; unfold n in *; lia).
  wp_step. apply wp_copy_from_user; [intros; by apply (fair_doc _ HC)|..].
  - intros z Hz _. wp_step. apply wp_modify. cbn [negb]. wp_step. apply wp_modify.
    wp_step. apply wp_modify.
    rewrite (advance_wp n (set_buffer (Some (store (wp_ s) (Some <$> take (Z.to_nat n) buf) b)) s)).
    unfold stored in Hok. rewrite length_fmap, Hlen in Hok. destruct Hok.
    wp_step. apply wp_modify. wp_step. apply wp_unlock; [done|]. wp_step. apply wp_modify.
    wp_go; done.
  - intros z l ? ? Hlen'. wp_step. apply wp_modify. cbn [negb]. wp_step. apply wp_unlock; [done|].
    wp_step. eapply Hko; [done..|]. lia.
Qed.
End buffer_lemmas.

(** ** The two waiting loops *)

(** What a loop that holds the mutex leaves: it holds it still, or it is
    returning an error and gave it up. *)
Definition loop_post (s : scull_pipe) (r : option Z) (s' : scull_pipe) : Prop :=
  (opened s → opened s') ∧
  match r with Some e => idle s' ∧ (e = - EAGAIN ∨ e = - ERESTARTSYS) | None => held s' end.

Lemma loop_post_trans s0 s r s' :
  (opened s0 → opened s) → loop_post s r s' → loop_post s0 r s'.
Proof. intros ? [? ?]. split; auto. Qed.

(** The tail of both loops: take the mutex again and go round. *)
Lemma wp_relock C s s0 (next : K scull_pipe (option Z)) P :
  fair_contract C → idle s → (opened s0 → opened s) →
  (∀ s', held s' → (opened s0 → opened s') → wp C next (λ r s', loop_post s0 r s' ∧ P r s') s') →
  (∀ e s', P (Some e) s') →
  wp C (ok ← lock_interruptible;
        if ok : bool then next else mret (Some (- ERESTARTSYS)))
    (λ r s', loop_post s0 r s' ∧ P r s') s.
Proof.
  intros HC Hs Hop Hnext HP. wp_step. apply wp_take; [done..| |].
  - intros s1 z H1 ? _ _. wp_step. split; [|done]. split; [|eauto].
    intros ?. eapply (peers_opened s); [by apply Hop|]. by apply (fair_peers _ HC).
  - intros s1 H1 Hs1. apply Hnext; [by apply pipe_idle_held|].
    intros ?. change (opened s1). eapply (peers_opened s); [by apply Hop|]. by apply (fair_peers _ HC).
Qed.

Lemma wp_wait_readable C fuel f_flags s :
  fair_contract C → c_sleep C → held s →
  wp C (wait_readable fuel f_flags)
    (λ r s', loop_post s r s' ∧ (r = None → rp s' ≠ wp_ s')) s.
Proof.
  intros HC Hsl Hs. assert (∀ s0, (opened s0 → opened s) → wp C (wait_readable fuel f_flags)
    (λ r s', loop_post s0 r s' ∧ (r = None → rp s' ≠ wp_ s')) s) as H; [|by apply H].
  revert s Hs; induction fuel as [|fuel IH]; intros s Hs s0 Hop; simpl; [by apply wp_sleep|].
  wp_step. wp_step. wp_step; [|wp_step; by split; [split|]].
  wp_step. apply wp_unlock; [apply Hs|]. pose proof (pipe_held_idle _ Hs) as Hi.
  wp_step; [wp_step; split; [split; [done|auto]|done]|].
  assert (∀ s1, c_rely C (set_pmutex false s) s1 → idle s1 ∧ (opened s0 → opened s1)) as H1.
  { intros s1 ?. split; [by eapply pipe_peers_idle, (fair_peers _ HC)|].
    intros ?. eapply (peers_opened (set_pmutex false s)); [by apply Hop|by apply (fair_peers _ HC)]. }
  assert (∀ s1 s2, c_rely C (set_pmutex false s) s1 → c_rely C s1 s2 →
    idle s2 ∧ (opened s0 → opened s2)) as H2.
  { intros s1 s2 [? ?]%H1 ?. split; [by eapply pipe_peers_idle, (fair_peers _ HC)|].
    intros ?. eapply (peers_opened s1); [auto|by apply (fair_peers _ HC)]. }
  wp_step. apply wp_wait_event; [done|..].
  - intros s1 [? ?]%H1 _. cbn [negb Z.eqb]. apply wp_relock; [done..| |done]. intros. by apply IH.
  - intros s1 s2 ? [? ?]%(H2 s1) _; [|done]. apply wp_relock; [done..| |done]. intros. by apply IH.
  - intros s1 s2 z ? [? ?]%(H2 s1) _ _; [|done]. wp_step; [|done].
    wp_step. split; [split; [done|auto]|done].
Qed.

Lemma wp_getwritespace C fuel f_flags s :
  fair_contract C → c_sleep C → held s →
  wp C (scull_getwritespace fuel f_flags) (λ r s', loop_post s r s' ∧ True) s.
Proof.
  intros HC Hsl Hs. assert (∀ s0, (opened s0 → opened s) → wp C (scull_getwritespace fuel f_flags)
    (λ r s', loop_post s0 r s' ∧ True) s) as H; [|by apply H].
  revert s Hs; induction fuel as [|fuel IH]; intros s Hs s0 Hop; simpl; [by apply wp_sleep|].
  destruct (spacefree_total s) as [n Hn]; [apply Hs|].
  wp_step. wp_step. wp_step. eapply wp_liftO; [exact Hn|].
  wp_step; [|wp_step; by split; [split|]].
  wp_step. apply wp_unlock; [apply Hs|]. pose proof (pipe_held_idle _ Hs) as Hi.
  wp_step; [wp_step; split; [split; [done|auto]|done]|].
  wp_step. apply wp_interfere. intros s1 Hr1.
  assert (idle s1) as Hi1 by (by eapply pipe_peers_idle, (fair_peers _ HC)).
  assert (opened s0 → opened s1) as Ho1.
  { intros ?. eapply (peers_opened (set_pmutex false s)); [by apply Hop|by apply (fair_peers _ HC)]. }
  destruct (spacefree_total s1) as [n1 Hn1]; [apply Hi1|].
  wp_step. wp_step. wp_step. eapply wp_liftO; [exact Hn1|]. wp_step.
  apply (wp_mono _ _ (λ _ s2, idle s2 ∧ (opened s0 → opened s2))).
  { wp_step; [|by wp_step]. apply wp_interfere. intros s2 Hr2. split; [by eapply pipe_peers_idle, (fair_peers _ HC)|].
    intros ?. eapply (peers_opened s1); [auto|by apply (fair_peers _ HC)]. }
  intros _ s2 [Hi2 Ho2]. wp_step. wp_step. wp_step; [wp_step; split; [split; [done|auto]|done]|].
  apply wp_relock; [done..| |done]. intros. by apply IH.
Qed.

(** ** The table of entry points *)

Inductive pipe_op :=
| OpOpen (f_mode : Z)
| OpRelease (f_mode : Z)
| OpRead (fuel : nat) (f_flags count : Z)
| OpWrite (fuel : nat) (f_flags : Z) (buf : list Z)
| OpPoll.

Definition scull_pipe_fops (op : pipe_op) : K scull_pipe Z :=
  match op with
  | OpOpen f_mode => scull_p_open f_mode
  | OpRelease f_mode => scull_p_release f_mode
  | OpRead fuel f_flags count => kfmap fst (scull_p_read fuel f_flags count)
  | OpWrite fuel f_flags buf => scull_p_write fuel f_flags buf
  | OpPoll => scull_p_poll
  end.

(** When the VFS makes the call: on a file that is open in the mode the call
    needs; a release closes such a file. *)
Definition allowed (s : scull_pipe) (op : pipe_op) : Prop :=
  match op with
  | OpRelease f_mode =>
      (has_mode f_mode FMODE_READ = true → 0 < nreaders s) ∧
      (has_mode f_mode FMODE_WRITE = true → 0 < nwriters s)
  | OpRead _ _ count => 0 < nreaders s ∧ 0 <= count
  | OpWrite _ _ _ => 0 < nwriters s
  | OpOpen _ => room_to_open s
  | OpPoll => True
  end.

(** A pipe as [scull_p_init] leaves it. *)
Definition scull_p_init_dev (scull_p_buffer : Z) : scull_pipe :=
  ScullPipe None 0 0 0 0 0 0 false scull_p_buffer [] [] [].

Lemma pipe_init_idle n : 1 < n <= INT_MAX → idle (scull_p_init_dev n).
Proof.
  intros. split; [|done]. split; simpl; try done; lia.
Qed.

Lemma one_if_bounds b : 0 <= one_if b <= 1.
Proof. destruct b; simpl; lia. Qed.

(** The state an open leaves: an empty ring of the current size. *)
Definition reset_wf_pre (s : scull_pipe) : Prop :=
  1 < scull_p_buffer s <= INT_MAX ∧ 0 <= nreaders s ∧ 0 <= nwriters s ∧ room_to_open s ∧
  written s = (gone s).*1 ∧ ∃ b, buffer s = Some b ∧ lenZ b = scull_p_buffer s.

Lemma reset_held m s :
  pmutex s = true → reset_wf_pre s → held (count_opens 1 m (reset_pointers s)).
Proof.
  intros Hm (Hp & ? & ? & Hroom & Hst & b & Hb & Hl). split; [|done]. unfold room_to_open, INT_MAX in *.
  pose proof (one_if_bounds (has_mode m FMODE_READ)).
  pose proof (one_if_bounds (has_mode m FMODE_WRITE)).
  split; cbn -[one_if s32]; rewrite ?s32_small by lia; try done; unfold INT_MAX; try lia.
  - rewrite Hb. intros b' [= <-]. lia.
  - rewrite Hst. unfold contents; cbn -[one_if s32]. rewrite Hb. cbn. by rewrite app_nil_r.
Qed.

Lemma fst_discard s : (gone (discard s)).*1 = (gone s).*1 ++ contents s.
Proof. cbn. by rewrite fmap_app, fst_flagged. Qed.

Lemma wf_reset_pre s b : wf s → room_to_open s → buffer s = Some b → reset_wf_pre (discard s).
Proof.
  intros [Hp (? & ? & _) ? ? Hb Hst] Hroom E. destruct (Hb b E). unfold reset_wf_pre. rewrite fst_discard.
  split_and!; [apply Hp..|done|done|done|exact Hst|]. exists b. by split.
Qed.

(** Without a buffer there is nothing to discard. *)
Lemma discard_none s : buffer s = None → discard s = s.
Proof. destruct s. cbn. intros ->. unfold discard, contents. cbn. by rewrite app_nil_r. Qed.

Lemma wp_scull_p_open C s m :
  fair_contract C → idle s → room_to_open s → wp C (scull_p_open m) (λ _, idle) s.
Proof.
  intros HC Hs Hroom. unfold scull_p_open. wp_step. apply wp_take; [done..| |].
  { intros. by wp_go. }
  intros s0 Hr Hs0. destruct (fair_peers _ HC _ _ Hr) as (_ & _ & _ & _ & _ & Hroom0%(λ f, f Hroom)).
  cbn [negb]. apply pipe_idle_held in Hs0 as [Hwf Hm]. set (s1 := set_pmutex true s0) in *.
  wp_step. wp_step. wp_step. wp_step. wp_step.
  apply (wp_mono _ _ (λ ok s1, pmutex s1 = true ∧ if ok : bool then reset_wf_pre s1 else wf s1)).
  - destruct (buffer s1) as [b|] eqn:E.
    + wp_step. split; [done|]. by eapply wf_reset_pre.
    + rewrite (discard_none _ E). pose proof Hwf as [Hp (? & ? & _) _ _ _ Hst]. cbn match. wp_go; [by split|]. split; [done|].
      unfold contents in Hst. rewrite E, app_nil_r in Hst. unfold reset_wf_pre. split_and!; [apply Hp..|done|done|done|done|].
      eexists; split; [done|]. apply length_uninit. cbn. cbn in Hp. lia.
  - intros [] s2 [Hm2 H2]; cbn [negb].
    + do 2 (wp_step; apply wp_modify). wp_step. apply wp_unlock; [done|]. wp_step.
      by apply pipe_held_idle, reset_held.
    + wp_step. apply wp_unlock; [done|]. wp_step. by apply pipe_held_idle.
Qed.

(** A release: the counts drop, and the last one frees the buffer. *)
Definition released (m : Z) (s : scull_pipe) : scull_pipe :=
  let s := count_opens (-1) m s in
  if s32 (nreaders s + nwriters s) =? 0 then set_buffer None (discard s) else s.

Lemma released_held m s : held s → allowed s (OpRelease m) → held (released m s).
Proof.
  intros [[Hp (? & ? & ?) Ho Hsz Hb Hst] Hm] [Hr Hw]. unfold released, INT_MAX in *.
  assert (one_if (has_mode m FMODE_READ) <= nreaders s)
    by (destruct (has_mode m FMODE_READ); simpl; [specialize (Hr eq_refl)|]; lia).
  assert (one_if (has_mode m FMODE_WRITE) <= nwriters s)
    by (destruct (has_mode m FMODE_WRITE); simpl; [specialize (Hw eq_refl)|]; lia).
  pose proof (one_if_bounds (has_mode m FMODE_READ)).
  pose proof (one_if_bounds (has_mode m FMODE_WRITE)).
  set (s' := count_opens (-1) m s). assert (nreaders s' = nreaders s - one_if (has_mode m FMODE_READ) ∧
    nwriters s' = nwriters s - one_if (has_mode m FMODE_WRITE)) as [Er Ew].
  { cbn -[one_if s32]. rewrite !s32_small by lia. lia. }
  destruct (s32 (nreaders s' + nwriters s') =? 0) eqn:E; (split; [|done]).
  - zbool. rewrite s32_small in E by lia. split; try done; unfold INT_MAX; cbn [nreaders nwriters set_buffer discard]; try lia.
    cbn [set_buffer contents buffer]. change (gone (set_buffer None (discard s'))) with (gone (discard s')).
    rewrite fst_discard. cbn [contents buffer set_buffer]. rewrite app_nil_r. exact Hst.
  - split; try done; unfold INT_MAX; try lia. intros ?. apply Ho. lia.
Qed.

Lemma wp_scull_p_release C s m :
  fair_contract C → idle s → allowed s (OpRelease m) → wp C (scull_p_release m) (λ _, idle) s.
Proof.
  intros HC Hs [Hr Hw]. unfold scull_p_release, scull_p_fasync. wp_step. wp_step. wp_step.
  apply wp_take_lock; [done..|]. intros s0 Hs0 Hi. do 2 (wp_step; apply wp_modify).
  destruct (fair_peers _ HC _ _ Hs0) as (_ & _ & _ & ? & ? & _).
  assert (held (released m (set_pmutex true s0))) as Hh.
  { apply released_held; [by apply pipe_idle_held|]. cbn. split; auto. }
  wp_step. apply wp_unlock; [apply Hh|]. wp_step. by apply pipe_held_idle.
Qed.

Lemma wp_scull_p_read C fuel s f_flags count :
  fair_contract C → c_sleep C → idle s → opened s → 0 <= count →
  wp C (scull_p_read fuel f_flags count) (λ _, idle) s.
Proof.
  intros HC Hsl Hs Hop Hc. unfold scull_p_read. wp_step. apply wp_take; [done..| |].
  { intros. by wp_go. }
  intros s0 Hr0 Hs0. wp_step; [done|]. wp_step.
  assert (opened (set_pmutex true s0)) by exact (peers_opened _ _ Hop (fair_peers _ HC _ _ Hr0)).
  eapply wp_mono; [apply wp_wait_readable; [done|done|by apply pipe_idle_held]|].
  intros [e|] s1 [[Ho1 H1] Hne]; [wp_step; apply H1|]. specialize (Hne eq_refl).
  destruct H1 as [Hwf1 Hm1]. destruct (opened_buffer s1) as [b Hb]; [done|auto|].
  pose proof (buffer_geometry s1 b Hwf1 Hb) as (_ & _ & _ & ? & ?).
  apply (wp_take_data s1 b); [done..| |].
  - intros. by apply pipe_held_idle.
  - cbv zeta. pose proof (avail_pos s1 b Hwf1 Hb Hne).
    assert (wf (taken (Z.min count (avail s1)) s1)) as [] by (apply (taken_wf s1 b); [done|done|lia]).
    by split.
Qed.

Lemma wp_scull_p_write C fuel s f_flags buf :
  fair_contract C → c_sleep C → idle s → opened s →
  wp C (scull_p_write fuel f_flags buf) (λ _, idle) s.
Proof.
  intros HC Hsl Hs Hop. unfold scull_p_write. wp_step. apply wp_take; [done..| |].
  { intros. by wp_go. }
  intros s0 Hr0 Hs0. wp_step; [done|]. wp_step.
  assert (opened (set_pmutex true s0)) by exact (peers_opened _ _ Hop (fair_peers _ HC _ _ Hr0)).
  eapply wp_mono; [apply wp_getwritespace; [done|done|by apply pipe_idle_held]|].
  intros [e|] s1 [[Ho1 H1] _]; [wp_step; apply H1|].
  destruct H1 as [Hwf1 Hm1]. destruct (opened_buffer s1) as [b Hb]; [done|auto|].
  apply (wp_put_data s1 b); [done..| |].
  - intros n z bytes _ _ Hl. apply (pipe_held_idle (set_buffer _ s1)). split; [|done].
    apply overwritten_wf; [done..|lia].
  - cbv zeta. pose proof (room_nonneg s1 b Hwf1 Hb). assert (wf (stored (Some <$> take (Z.to_nat (Z.min (lenZ buf) (room s1))) buf) b s1)) as [].
    { apply pipe_stored_wf; [done..|]. rewrite length_fmap, length_take. lia. }
    split; by split.
Qed.

Lemma wp_scull_p_poll C s :
  fair_contract C → idle s → wp C scull_p_poll (λ _, idle) s.
Proof.
  intros HC Hs. unfold scull_p_poll. wp_step. apply wp_take_lock; [done..|].
  intros s0 _ Hs0. wp_step. wp_step. apply pipe_idle_held in Hs0.
  destruct (spacefree_total (set_pmutex true s0)) as [n Hn]; [apply Hs0|].
  wp_step. eapply wp_liftO; [exact Hn|]. wp_step. apply wp_unlock; [done|]. wp_step.
  by apply pipe_held_idle.
Qed.

Lemma pipe_idle_inductive C n :
  fair_contract C → c_sleep C → 1 < n <= INT_MAX →
  inductive_inv scull_pipe_fops allowed C (λ s, s = scull_p_init_dev n) idle.
Proof.
  intros HC Hsl Hn. split_and!.
  - intros s ->. by apply pipe_init_idle.
  - intros s [] Hs Hop; simpl in *.
    + by apply wp_scull_p_open.
    + by apply wp_scull_p_release.
    + destruct Hop. apply wp_kfmap. apply wp_scull_p_read; try done. by left.
    + apply wp_scull_p_write; try done. by right.
    + by apply wp_scull_p_poll.
  - intros s s' Hs Hr. by eapply pipe_peers_idle, (fair_peers _ HC).
Qed.

(** * What the pipe promises *)


Lemma pipe_documented_fair : fair_contract (documented peers True).
Proof. by split. Qed.


Lemma peers_refl s : peers s s.
Proof. done. Qed.

Lemma pipe_quiet_fair : fair_contract (quiet scull_pipe).
Proof. split; [apply good_doc|]. by intros s s' ->. Qed.

(** Under a quiet kernel the mutex is taken at once, and nothing else happens. *)
Lemma wp_take_quiet s (Q : bool → scull_pipe → Prop) :
  idle s → Q true (set_pmutex true s) → wp (quiet scull_pipe) lock_interruptible Q s.
Proof.
  intros Hs HQ. apply wp_take; [apply pipe_quiet_fair|done|by intros s0 z _ _ [] ?|].
  intros s0 Hr _. change (s = s0) in Hr. by subst s0.
Qed.

Lemma contents_nil s b : wf s → buffer s = Some b → contents s = [] ↔ rp s = wp_ s.
Proof.
  intros Hwf Hb. pose proof (buffer_geometry s b Hwf Hb) as (Hl & _ & _ & ? & ?).
  unfold contents. rewrite Hb. split; [|intros ->; apply ring_empty].
  intros Hr. apply (f_equal (λ l, lenZ l)) in Hr. rewrite length_ring in Hr by lia.
  simpl in Hr. case_match; zbool; lia.
Qed.

Lemma set_pmutex_idemp s : pmutex s = false → set_pmutex false (set_pmutex true s) = s.
Proof. destruct s. cbn. by intros ->. Qed.

(** The two ways a read goes under a quiet kernel. *)
Lemma wp_read_empty s b fuel f_flags count :
  idle s → buffer s = Some b → contents s = [] → c_bool (Z.land f_flags O_NONBLOCK) = true →
  wp (quiet scull_pipe) (scull_p_read (S fuel) f_flags count)
    (λ r s', r = (- EAGAIN, []) ∧ s' = s) s.
Proof.
  intros Hs Hb E Hnb. destruct (Hs) as [Hwf Hm]. apply (contents_nil s b Hwf Hb) in E.
  unfold scull_p_read. wp_step. apply wp_take_quiet; [done|]. cbn [negb wait_readable].
  wp_step. wp_step. wp_step. cbn [rp wp_ set_pmutex]. rewrite E, Z.eqb_refl.
  wp_step. apply wp_unlock; [done|]. rewrite Hnb. wp_step. wp_step.
  split; [done|]. by apply set_pmutex_idemp.
Qed.

Lemma wp_read_takes s b fuel f_flags count :
  idle s → buffer s = Some b → contents s ≠ [] → 0 < count →
  let n := Z.min count (avail s) in
  wp (quiet scull_pipe) (scull_p_read (S fuel) f_flags count)
    (λ r s', r = (n, take (Z.to_nat n) (contents s)) ∧
      s' = add_wake WakeOutq (set_pmutex false (taken n (set_pmutex true s)))) s.
Proof.
  intros Hs Hb E Hc n. destruct (Hs) as [Hwf Hm].
  assert (rp s ≠ wp_ s) as Hne by (by rewrite <-(contents_nil s b)).
  unfold scull_p_read. wp_step. apply wp_take_quiet; [done|]. cbn [negb wait_readable].
  wp_step. wp_step. wp_step. cbn [rp wp_ set_pmutex]. rewrite (proj2 (Z.eqb_neq _ _) Hne).
  wp_step. apply (wp_take_data (set_pmutex true s) b);
    [by apply pipe_idle_held|done|done|done|lia|by intros ? ? ? []|done].
Qed.

Lemma contents_taken s b n :
  wf s → buffer s = Some b → 0 <= n <= avail s →
  contents (taken n s) = drop (Z.to_nat n) (contents s).
Proof.
  intros Hwf Hb Hn. pose proof (buffer_geometry s b Hwf Hb) as (Hl & _ & _ & ? & ?).
  rewrite (contents_pop s b Hwf Hb n Hn), drop_app_length'; [done|].
  assert (rp s + n <= lenZ b).
  { unfold avail, ring_avail in Hn. case_match; zbool; lia. }
  pose proof (length_slice (rp s) n b). lia.
Qed.

(** C33: a read of a pipe that is not empty hands over, without sleeping, the
    oldest bytes, as many as the caller asks for and as lie before the end of
    the buffer; the rest stays, in order, and the writers are woken. A read of
    an empty pipe opened with O_NONBLOCK returns -EAGAIN and changes nothing. *)
Theorem scull_p_read_spec s b fuel f_flags count o :
  idle s → buffer s = Some b → 0 < count → obeys o (quiet scull_pipe) →
  if decide (contents s = []) then
    c_bool (Z.land f_flags O_NONBLOCK) = true →
    run o (scull_p_read (S fuel) f_flags count) s = Done ((- EAGAIN, []), s)
  else
    ∃ n s', run o (scull_p_read (S fuel) f_flags count) s =
        Done ((n, take (Z.to_nat n) (contents s)), s') ∧
      0 < n <= count ∧ contents s' = drop (Z.to_nat n) (contents s) ∧
      (n < count → n < lenZ (contents s) → rp s + n = lenZ b) ∧
      wakes s' = WakeOutq :: wakes s ∧ idle s'.
Proof.
  intros Hs Hb Hc Ho. destruct (Hs) as [Hwf Hm].
  pose proof (buffer_geometry s b Hwf Hb) as (Hl & _ & _ & ? & ?). case_decide as E.
  - intros Hnb. destruct (wp_total _ _ _ _ _ (wp_read_empty s b fuel f_flags count Hs Hb E Hnb) Ho)
      as (? & ? & -> & -> & ->); [by intros []|done].
  - destruct (wp_total _ _ _ _ _ (wp_read_takes s b fuel f_flags count Hs Hb E Hc) Ho)
      as (? & s' & Hrun & -> & ->); [by intros []|].
    set (n := Z.min count (avail s)) in *. set (s1 := set_pmutex true s) in *.
    assert (wf s1) as Hwf1 by apply (pipe_idle_held _ Hs).
    assert (0 < avail s) by (apply (avail_pos s b Hwf Hb); by rewrite <-(contents_nil s b)).
    assert (0 <= n <= avail s1) as Hn by (unfold n; change (avail s1) with (avail s); lia).
    exists n. eexists. split_and!; [exact Hrun|unfold n; lia|unfold n; lia| | |done|].
    + exact (contents_taken s1 b n Hwf1 Hb Hn).
    + unfold n. intros ? Hlt. unfold contents, avail, ring_avail in *. rewrite Hb in Hlt.
      rewrite length_ring in Hlt by lia. case_match; zbool; lia.
    + destruct (taken_wf s1 b Hwf1 Hb n Hn). split; by split.
Qed.

(** A pipe of four bytes, opened for both, holding [7; 8] across its end. *)
Definition example_pipe : scull_pipe :=
  ScullPipe (Some [Some 8; None; Some 6; Some 7]) 4 4 3 1 1 1 false 4
    [Some 6; Some 7; Some 8] [(Some 6, true)] [].

Lemma pipe_example_idle : idle example_pipe.
Proof.
  split; [|done]. split; simpl; try done; try lia.
  intros b [= <-]. simpl. lia.
Qed.

Lemma scull_p_read_spec_witness :
  ∃ n s', run quiet_oracle (scull_p_read 1 0 5) example_pipe = Done ((n, take (Z.to_nat n) [Some 7; Some 8]), s') ∧
      0 < n <= 5 ∧ contents s' = drop (Z.to_nat n) [Some 7; Some 8] ∧
      (n < 5 → n < 2 → 3 + n = 4) ∧ wakes s' = [WakeOutq] ∧ idle s'.
Proof.
  exact (scull_p_read_spec example_pipe [Some 8; None; Some 6; Some 7] 0 0 5 quiet_oracle
    pipe_example_idle eq_refl eq_refl quiet_obeys).
Defined.

Lemma room_full s b :
  wf s → buffer s = Some b → room s = 0 ↔ lenZ (contents s) = buffersize s - 1.
Proof.
  intros Hwf Hb. pose proof (buffer_geometry s b Hwf Hb) as (Hl & -> & _ & ? & ?).
  unfold contents, room, ring_room. rewrite Hb, length_ring, Hl by lia. case_match; zbool; lia.
Qed.

(** The two ways a write goes under a quiet kernel. *)
Lemma wp_write_full s b fuel f_flags buf :
  idle s → buffer s = Some b → lenZ (contents s) = buffersize s - 1 →
  c_bool (Z.land f_flags O_NONBLOCK) = true →
  wp (quiet scull_pipe) (scull_p_write (S fuel) f_flags buf) (λ r s', r = - EAGAIN ∧ s' = s) s.
Proof.
  intros Hs Hb E Hnb. destruct (Hs) as [Hwf Hm]. unfold scull_p_write.
  wp_step. apply wp_take_quiet; [done|]. cbn [negb scull_getwritespace].
  do 3 wp_step. wp_step. eapply wp_liftO; [exact (spacefree_ring s b Hwf Hb)|].
  rewrite E, Z.sub_diag. wp_step; [|done].
  wp_step. apply wp_unlock; [done|]. rewrite Hnb. wp_step. wp_step.
  split; [done|]. by apply set_pmutex_idemp.
Qed.

Lemma wp_write_stores s b fuel f_flags buf :
  idle s → buffer s = Some b → lenZ (contents s) ≠ buffersize s - 1 →
  let n := Z.min (lenZ buf) (room s) in
  wp (quiet scull_pipe) (scull_p_write (S fuel) f_flags buf) (λ r s',
    r = n ∧ contents s' = contents s ++ (Some <$> take (Z.to_nat n) buf) ∧ wf s' ∧
    pmutex s' = false ∧ In WakeInq (wakes s') ∧ buffersize s' = buffersize s ∧
    is_Some (buffer s')) s.
Proof.
  intros Hs Hb E n. destruct (Hs) as [Hwf Hm]. pose proof (room_nonneg s b Hwf Hb).
  set (s1 := set_pmutex true s). set (src := Some <$> take (Z.to_nat n) buf).
  assert (wf s1) as Hwf1 by apply (pipe_idle_held _ Hs).
  assert (lenZ src = n) as Hlen by (unfold src; rewrite length_fmap, length_take; unfold n in *; lia).
  assert (lenZ src <= room s1) as Hn by (change (room s1) with (room s); lia).
  pose proof (contents_push s1 b Hwf1 Hb src Hn) as Hc.
  destruct (pipe_stored_wf s1 b Hwf1 Hb src Hn).
  unfold scull_p_write. wp_step. apply wp_take_quiet; [done|]. cbn [negb scull_getwritespace].
  do 3 wp_step. wp_step. eapply wp_liftO; [exact (spacefree_ring s b Hwf Hb)|].
  wp_step; [lia|]. wp_step.
  apply (wp_put_data s1 b); [done|done|apply pipe_quiet_fair|done|by intros ? ? ? []|].
  split; (split_and!; [done|done|by split|done|cbn; tauto|done|eauto]).
Qed.

Lemma contents_bound s : wf s → is_Some (buffer s) → lenZ (contents s) <= buffersize s - 1.
Proof.
  intros Hwf [b Hb]. pose proof (room_nonneg s b Hwf Hb). unfold room, ring_room in *.
  pose proof (buffer_geometry s b Hwf Hb) as (Hl & -> & _ & ? & ?).
  unfold contents. rewrite Hb, length_ring, Hl by lia. case_match; zbool; lia.
Qed.

(** C32: a write to a pipe with free space stores, without sleeping, a prefix of
    the caller's bytes behind those already there, as long as the space before
    the end of the buffer allows and never the last free cell, and wakes the
    readers. A write to a full pipe opened with O_NONBLOCK returns -EAGAIN and
    changes nothing. *)
Theorem scull_p_write_spec s b fuel f_flags buf o :
  idle s → buffer s = Some b → obeys o (quiet scull_pipe) →
  if decide (lenZ (contents s) = buffersize s - 1) then
    c_bool (Z.land f_flags O_NONBLOCK) = true →
    run o (scull_p_write (S fuel) f_flags buf) s = Done (- EAGAIN, s)
  else
    ∃ n s', run o (scull_p_write (S fuel) f_flags buf) s = Done (n, s') ∧
      (0 < lenZ buf → 0 < n) ∧ n <= lenZ buf ∧
      contents s' = contents s ++ (Some <$> take (Z.to_nat n) buf) ∧
      lenZ (contents s') <= buffersize s - 1 ∧
      In WakeInq (wakes s') ∧ idle s'.
Proof.
  intros Hs Hb Ho. destruct (Hs) as [Hwf Hm].
  pose proof (room_full s b Hwf Hb) as Hfull. pose proof (room_nonneg s b Hwf Hb) as Hr.
  case_decide as E.
  - intros Hnb. destruct (wp_total _ _ _ _ _ (wp_write_full s b fuel f_flags buf Hs Hb E Hnb) Ho)
      as (? & ? & -> & -> & ->); [by intros []|done].
  - destruct (wp_total _ _ _ _ _ (wp_write_stores s b fuel f_flags buf Hs Hb E) Ho)
      as (? & s' & Hrun & -> & Hc' & Hwf' & ? & ? & Hbs & Hb'); [by intros []|].
    do 2 eexists. split_and!; [exact Hrun|lia|lia|done| |done|by split].
    rewrite <-Hbs. by apply contents_bound.
Qed.

Lemma scull_p_write_spec_witness :
  ∃ n s', run quiet_oracle (scull_p_write 1 0 [1; 2; 3]) example_pipe = Done (n, s') ∧
      (0 < 3 → 0 < n) ∧ n <= 3 ∧
      contents s' = [Some 7; Some 8] ++ (Some <$> take (Z.to_nat n) [1; 2; 3]) ∧
      lenZ (contents s') <= 4 - 1 ∧ In WakeInq (wakes s') ∧ idle s'.
Proof.
  exact (scull_p_write_spec example_pipe [Some 8; None; Some 6; Some 7] 0 0 [1; 2; 3] quiet_oracle
    pipe_example_idle eq_refl quiet_obeys).
Defined.

(** Poll reports a pipe readable exactly when it holds data and writable
    exactly when it has room for a byte, and changes nothing. *)
Theorem scull_p_poll_mask s b o :
  idle s → buffer s = Some b → obeys o (quiet scull_pipe) →
  run o scull_p_poll s = Done (
    Z.lor (if decide (contents s = []) then 0 else Z.lor POLLIN POLLRDNORM)
          (if decide (lenZ (contents s) < buffersize s - 1) then Z.lor POLLOUT POLLWRNORM else 0), s).
Proof.
  intros Hs Hb Ho. destruct (Hs) as [Hwf Hm].
  assert (wp (quiet scull_pipe) scull_p_poll (λ r s', r =
    Z.lor (if decide (contents s = []) then 0 else Z.lor POLLIN POLLRDNORM)
          (if decide (lenZ (contents s) < buffersize s - 1) then Z.lor POLLOUT POLLWRNORM else 0) ∧
    s' = s) s) as H.
  { unfold scull_p_poll. wp_step. apply wp_take_lock; [apply pipe_quiet_fair|done|].
    intros s0 Hr _. change (s = s0) in Hr. subst s0. wp_step. wp_step. wp_step.
    eapply wp_liftO; [exact (spacefree_ring s b Hwf Hb)|].
    wp_step. apply wp_unlock; [done|]. wp_step. split; [|by apply set_pmutex_idemp].
    pose proof (contents_nil s b Hwf Hb). pose proof (contents_bound s Hwf ltac:(eauto)).
    cbn [rp wp_ set_pmutex]. unfold c_bool.
    destruct (rp s =? wp_ s) eqn:E1, (_ - _ - _ =? 0) eqn:E2; zbool; cbn [negb];
      repeat case_decide; try done; try lia; tauto. }
  destruct (wp_total _ _ _ _ _ H Ho) as (? & ? & -> & -> & ->); [by intros []|done].
Qed.

Lemma scull_p_poll_mask_witness :
  run quiet_oracle scull_p_poll example_pipe =
    Done (Z.lor (Z.lor POLLIN POLLRDNORM) (Z.lor POLLOUT POLLWRNORM), example_pipe).
Proof.
  exact (scull_p_poll_mask example_pipe [Some 8; None; Some 6; Some 7] quiet_oracle
    pipe_example_idle eq_refl quiet_obeys).
Defined.

(** Every open resets both pointers: whatever a pipe that is in use holds,
    the next process that opens it throws away. *)
Theorem scull_p_open_discards s b f_mode o :
  idle s → buffer s = Some b → obeys o (quiet scull_pipe) →
  ∃ s', run o (scull_p_open f_mode) s = Done (0, s') ∧ contents s' = [] ∧ buffer s' = Some b.
Proof.
  intros Hs Hb Ho. assert (wp (quiet scull_pipe) (scull_p_open f_mode) (λ r s', r = 0 ∧
    contents s' = [] ∧ buffer s' = Some b) s) as H.
  { unfold scull_p_open. wp_step. apply wp_take_quiet; [done|]. cbn [negb].
    do 5 wp_step. cbn [buffer set_pmutex]. rewrite Hb. wp_step. cbn [negb].
    do 2 (wp_step; apply wp_modify). wp_step. apply wp_unlock; [done|]. wp_step.
    split_and!; [done| |done]. unfold contents; cbn. by rewrite Hb. }
  destruct (wp_total _ _ _ _ _ H Ho) as (? & s' & -> & -> & ? & ?); [by intros []|eauto].
Qed.

Lemma scull_p_open_discards_witness :
  ∃ s', run quiet_oracle (scull_p_open FMODE_READ) example_pipe = Done (0, s') ∧ contents s' = [] ∧
    buffer s' = Some [Some 8; None; Some 6; Some 7].
Proof.
  exact (scull_p_open_discards example_pipe [Some 8; None; Some 6; Some 7] FMODE_READ quiet_oracle
    pipe_example_idle eq_refl quiet_obeys).
Defined.

(** [SCULL_P_IOCTSIZE], which main.c handles for the pipes too. *)
Definition retune (n : Z) (s : scull_pipe) : scull_pipe :=
  ScullPipe (buffer s) (end_ s) (buffersize s) (rp s) (wp_ s) (nreaders s) (nwriters s) (pmutex s)
    n (written s) (gone s) (wakes s).

(** An open of a pipe that has a buffer takes the size of the buffer from
    the module parameter, not from the allocation. When the parameter grew from
    its default since the first open (SCULL_P_IOCTSIZE asks for no privilege),
    a write of more than the old size runs over the end of the block. *)
Theorem scull_p_resize_overflow x fuel f_flags :
  run quiet_oracle
    (scull_p_open FMODE_WRITE;; modify (retune 8000);; scull_p_open FMODE_WRITE;;
     scull_p_write (S fuel) f_flags (replicate 5000 x))
    (scull_p_init_dev 4000) = Oops OutOfBounds.
Proof. vm_compute. reflexivity. Qed.
