(* ===== verification/ScullAccess.v ===== *)
(** * scull: access control (src/ldd4/scull/access.c)

    Four devices that are the bare device behind a different [open]: the one
    only one process may open, the one only one user may open, the one that
    makes other users wait, and the one that is private to a terminal. Each is
    a Module with the bare device as a part of its state. *)

From stdpp Require Import base tactics numbers list sets.
From S2P Require Import Prelude KMonad Quanta Scull ScullSpec.
From Stdlib Require Import ZArith Lia.

Open Scope Z_scope.

(** "then, everything else is copied from the bare scull device" *)
Definition trim_if_wronly (f_flags : Z) : K scull Z :=
  if Z.land f_flags O_ACCMODE =? O_WRONLY then scull_trim else mret 0.

(** A device with the tunables of the module, as its last trim leaves it. *)
Definition trimmed (s : scull) : scull :=
  Scull (ScullDev [] (scull_quantum s) (scull_qset s) 0 (mutex (dev s)))
    (scull_quantum s) (scull_qset s) (scull_p_buffer s) (live s - footprint (data (dev s))).

Lemma wp_trim_if_wronly C f_flags s (Q : Z → scull → Prop) :
  wf s →
  Q 0 (if Z.land f_flags O_ACCMODE =? O_WRONLY then trimmed s else s) →
  wp C (trim_if_wronly f_flags) Q s.
Proof.
  intros Hs HQ. unfold trim_if_wronly. case_match; [by apply wp_scull_trim|by wp_step].
Qed.

Lemma access_trimmed_wf s : wf s → wf (trimmed s).
Proof. intros [? ? ? ? Hl]. split; [split|..]; simpl; try done; unfold LONG_MAX; lia. Qed.

Lemma trim_wf f_flags s :
  wf s → wf (if Z.land f_flags O_ACCMODE =? O_WRONLY then trimmed s else s).
Proof. intros. case_match; [by apply access_trimmed_wf|done]. Qed.

(** ** The single-open device *)

Module Single.

(** [openers] and [losers] are ghosts: how many processes have the device open,
    and how many were refused and did not yet give the count back. *)
Record state := State {
  scull_s_device : scull;
  scull_s_available : Z;
  openers : Z;
  losers : Z
}.

Definition atomic_add (n : Z) (s : state) : state :=
  State (scull_s_device s) (s32 (scull_s_available s + n)) (openers s) (losers s).
Definition add_openers (n : Z) (s : state) : state :=
  State (scull_s_device s) (scull_s_available s) (openers s + n) (losers s).
Definition add_losers (n : Z) (s : state) : state :=
  State (scull_s_device s) (scull_s_available s) (openers s) (losers s + n).
Definition set_device (d : scull) (s : state) : state :=
  State d (scull_s_available s) (openers s) (losers s).

(** [atomic_dec_and_test]: decrement, and say whether the result is 0. *)
Definition atomic_dec_and_test : K state bool :=
  modify (atomic_add (-1));;
  n ← gets scull_s_available;
  if n =? 0 then modify (add_openers 1);; mret true
  else modify (add_losers 1);; mret false.

Definition scull_s_open (f_flags : Z) : K state Z :=
  interfere;;
  ok ← atomic_dec_and_test;
  if negb ok then
    interfere;;
    modify (atomic_add 1);; modify (add_losers (-1));;
    mret (- EBUSY)
  else
    interfere;;
    zoom scull_s_device set_device (trim_if_wronly f_flags);;
    mret 0.

Definition scull_s_release : K state Z :=
  modify (atomic_add 1);; modify (add_openers (-1));;
  mret 0.

(** The count is one less for everyone who has the device or was refused. *)
Record inv (s : state) : Prop := {
  inv_dev : wf (scull_s_device s);
  inv_available : scull_s_available s = 1 - openers s - losers s;
  inv_openers : 0 <= openers s <= 1;
  inv_losers : 0 <= losers s < INT_MAX
}.

(** What other processes may do: keep the invariant, and keep this one's hold
    on the device, or its turn to give the count back. At most [INT_MAX - 1]
    processes can be inside [open] at a time. *)
Definition peers (s s' : state) : Prop :=
  (inv s → inv s' ∧ losers s' < INT_MAX - 1) ∧ (0 < openers s → 0 < openers s') ∧
  (0 < losers s → 0 < losers s').

Inductive op := Open (f_flags : Z) | Release.
Definition scull_sngl_fops (o : op) : K state Z :=
  match o with Open f_flags => scull_s_open f_flags | Release => scull_s_release end.

(** A release is a release of a file that is open. *)
Definition allowed (s : state) (o : op) : Prop :=
  match o with Release => 0 < openers s | _ => True end.

Definition init_state : state := State scull_init_dev 1 0 0.

Lemma init_inv : inv init_state.
Proof. by split. Qed.

(** The two atomic operations. *)
Lemma dec_inv s :
  inv s → losers s < INT_MAX - 1 →
  if scull_s_available (atomic_add (-1) s) =? 0
  then inv (add_openers 1 (atomic_add (-1) s)) ∧ openers s = 0 ∧ losers s = 0
  else inv (add_losers 1 (atomic_add (-1) s)).
Proof.
  intros [Hd Ha Ho Hl] Hm. unfold INT_MAX in *. cbn.
  rewrite s32_small by lia. case_match; zbool.
  - split; [|lia]. split; cbn; try rewrite s32_small; try done; lia.
  - split; cbn; try rewrite s32_small; try done; unfold INT_MAX; lia.
Qed.

Lemma give_back_inv s : inv s → 0 < losers s → inv (add_losers (-1) (atomic_add 1 s)).
Proof.
  intros [Hd Ha Ho Hl] ?. unfold INT_MAX in *.
  split; cbn; try rewrite s32_small; try done; unfold INT_MAX; lia.
Qed.

Lemma release_inv s : inv s → 0 < openers s → inv (add_openers (-1) (atomic_add 1 s)).
Proof.
  intros [Hd Ha Ho Hl] ?. unfold INT_MAX in *.
  split; cbn; try rewrite s32_small; try done; unfold INT_MAX; lia.
Qed.

Lemma wp_scull_s_open C s f_flags :
  (∀ s s', c_rely C s s' → peers s s') → inv s →
  wp C (scull_s_open f_flags)
    (λ r s', inv s' ∧ (r = 0 ∧ openers s' = 1 ∨ r = - EBUSY)) s.
Proof.
  intros HC Hs. unfold scull_s_open, atomic_dec_and_test.
  wp_step. apply wp_interfere. intros s0 [Hs0 _]%HC. destruct (Hs0 Hs) as [Hi0 Hl0].
  pose proof (dec_inv s0 Hi0 Hl0) as Hdec.
  wp_step. wp_step. apply wp_modify. wp_step. wp_step. wp_step.
  - destruct Hdec as [Hi1 _].
    wp_step. apply wp_modify. wp_step. cbn [negb]. wp_step. apply wp_interfere.
    intros s2 (H2 & Ho2 & _)%HC. destruct (H2 Hi1) as [Hi2 _].
    assert (0 < openers s2) as Hpos by (apply Ho2; destruct Hi0; cbn; lia).
    destruct Hi2 as [Hd Ha Ho Hl]. wp_step. apply wp_zoom.
    apply wp_trim_if_wronly; [done|]. wp_step. split.
    + split; cbn; [by apply trim_wf|done..].
    + left. split; [done|]. cbn. lia.
  - wp_step. apply wp_modify. wp_step. cbn [negb].
    wp_step. apply wp_interfere. intros s2 (H2 & _ & Hl2)%HC. destruct (H2 Hdec) as [Hi2 _].
    do 2 (wp_step; apply wp_modify). wp_step. split; [|by right].
    apply give_back_inv; [done|]. apply Hl2. destruct Hi0; cbn; lia.
Qed.

Lemma inv_inductive C :
  (∀ s s', c_rely C s s' → peers s s') →
  inductive_inv scull_sngl_fops allowed C (λ s, s = init_state) inv.
Proof.
  intros HC. split_and!.
  - intros s ->. apply init_inv.
  - intros s [f_flags|] Hs Hop; simpl in *.
    + eapply wp_mono; [by apply wp_scull_s_open|]. by intros ? ? [].
    + unfold scull_s_release. do 2 (wp_step; apply wp_modify). wp_step. by apply release_inv.
  - intros s s' Hs [Hp _]%HC. by apply Hp.
Qed.

End Single.

(** ** The devices owned by a user *)

(** The credentials of the running process; [cap_dac] is what
    [capable(CAP_DAC_OVERRIDE)] answers for it. *)
Record cred := Cred { uid : Z; euid : Z; cap_dac : bool }.

#[export] Instance cred_eq_dec : EqDecision cred.
Proof. solve_decision. Defined.

(** One occurrence less. *)
Fixpoint remove1 (c : cred) (l : list cred) : list cred :=
  match l with
  | [] => []
  | x :: l => if decide (x = c) then l else x :: remove1 c l
  end.

Lemma remove1_length c l : c ∈ l → length l = S (length (remove1 c l)).
Proof.
  induction l as [|x l IH]; [by intros ?%not_elem_of_nil|]. intros Hc. simpl.
  case_decide; [done|]. simpl. rewrite IH; [done|]. set_solver.
Qed.

Lemma remove1_subseteq c l x : x ∈ remove1 c l → x ∈ l.
Proof. induction l as [|y l IH]; simpl; [done|]. case_decide; set_solver. Qed.

(** What sculluid and scullwuid keep: the device, the number of opens, whose it
    is and the spinlock; [opens], a ghost, lists who has it open, and [woken]
    counts the wake-ups of the processes that wait for it. *)
Record owned := Owned {
  o_device : scull;
  o_count : Z;
  o_owner : Z;
  o_lock : bool;
  opens : list cred;
  woken : nat
}.

Definition set_o_lock (b : bool) (s : owned) : owned :=
  Owned (o_device s) (o_count s) (o_owner s) b (opens s) (woken s).
Definition set_o_device (d : scull) (s : owned) : owned :=
  Owned d (o_count s) (o_owner s) (o_lock s) (opens s) (woken s).
Definition set_o_owner (u : Z) (s : owned) : owned :=
  Owned (o_device s) (o_count s) u (o_lock s) (opens s) (woken s).
Definition set_o_opens (l : list cred) (n : Z) (s : owned) : owned :=
  Owned (o_device s) n (o_owner s) (o_lock s) l (woken s).
Definition wake_up (s : owned) : owned :=
  Owned (o_device s) (o_count s) (o_owner s) (o_lock s) (opens s) (S (woken s)).

#[export] Instance owned_lock : HasLock owned :=
  { lock_of := o_lock; set_lock := set_o_lock; lock_set b s := eq_refl }.

(** "if (count == 0) owner = uid; count++;" *)
Definition grab (me : cred) : K owned unit :=
  modify (λ s, if o_count s =? 0 then set_o_owner (uid me) s else s);;
  modify (λ s, set_o_opens (me :: opens s) (s32 (o_count s + 1)) s).

(** "count--;" *)
Definition drop_one (me : cred) (s : owned) : owned :=
  set_o_opens (remove1 me (opens s)) (s32 (o_count s - 1)) s.

Definition scull_u_open (me : cred) (f_flags : Z) : K owned Z :=
  lock;;
  s ← get;
  if c_bool (o_count s) && negb (o_owner s =? uid me) && negb (o_owner s =? euid me) &&
     negb (cap_dac me)
  then unlock;; mret (- EBUSY)
  else
    grab me;;
    unlock;;
    interfere;;
    zoom o_device set_o_device (trim_if_wronly f_flags);;
    mret 0.

Definition scull_u_release (me : cred) : K owned Z :=
  lock;;
  modify (drop_one me);;
  unlock;;
  mret 0.

Definition scull_w_available (me : cred) (s : owned) : bool :=
  (o_count s =? 0) || (o_owner s =? uid me) || (o_owner s =? euid me) || cap_dac me.

(** [while (! scull_w_available()) ...]: [Some r] is a return from inside the
    loop; [fuel] bounds the number of wake-ups in vain. *)
Fixpoint wait_available (fuel : nat) (me : cred) (f_flags : Z) : K owned (option Z) :=
  match fuel with
  | O => sleep_forever
  | S fuel' =>
      s ← get;
      if negb (scull_w_available me s) then
        unlock;;
        if c_bool (Z.land f_flags O_NONBLOCK) then mret (Some (- EAGAIN)) else
        r ← wait_event_interruptible (scull_w_available me);
        if negb (r =? 0) then mret (Some (- ERESTARTSYS)) else
        lock;;
        wait_available fuel' me f_flags
      else mret None
  end.

Definition scull_w_open (fuel : nat) (me : cred) (f_flags : Z) : K owned Z :=
  lock;;
  w ← wait_available fuel me f_flags;
  match w with
  | Some r => mret r
  | None =>
      grab me;;
      unlock;;
      interfere;;
      zoom o_device set_o_device (trim_if_wronly f_flags);;
      mret 0
  end.

Definition scull_w_release (me : cred) : K owned Z :=
  lock;;
  modify (drop_one me);;
  temp ← gets o_count;
  unlock;;
  (if temp =? 0 then modify wake_up else mret tt);;
  mret 0.

(** Who may have the device open: the owner, whoever became the owner with su,
    and the privileged. *)
Definition entitled (owner : Z) (c : cred) : Prop :=
  owner = uid c ∨ owner = euid c ∨ cap_dac c = true.

Record o_inv (s : owned) : Prop := {
  o_inv_dev : wf (o_device s);
  o_inv_count : o_count s = lenZ (opens s);
  o_inv_fits : lenZ (opens s) <= INT_MAX;
  o_inv_entitled : Forall (entitled (o_owner s)) (opens s)
}.
Definition o_idle (s : owned) : Prop := o_inv s ∧ o_lock s = false.
Definition o_held (s : owned) : Prop := o_inv s ∧ o_lock s = true.

(** One more opening fits the count, an [int]. *)
Definition o_room (s : owned) : Prop := lenZ (opens s) < INT_MAX.

(** Other processes keep the invariant, the lock this one holds, its openings, and
    room for the one it asked for. *)
Definition o_peers (me : cred) (s s' : owned) : Prop :=
  (o_inv s → o_inv s') ∧ o_lock s' = o_lock s ∧ (me ∈ opens s → me ∈ opens s') ∧ (o_room s → o_room s').

Lemma scull_w_available_spec me s :
  scull_w_available me s = true ↔ o_count s = 0 ∨ entitled (o_owner s) me.
Proof.
  unfold scull_w_available, entitled. rewrite !orb_true_iff, !Z.eqb_eq. tauto.
Qed.

(** The test of [scull_u_open] is the negation of [scull_w_available]. *)
Lemma scull_u_busy me s :
  c_bool (o_count s) && negb (o_owner s =? uid me) && negb (o_owner s =? euid me) &&
  negb (cap_dac me) = negb (scull_w_available me s).
Proof. unfold scull_w_available, c_bool. by rewrite !negb_orb. Qed.

Lemma o_idle_held s : o_idle s → o_held (set_o_lock true s).
Proof. intros [[] ?]. split; [by split|done]. Qed.

Lemma o_held_idle s : o_held s → o_idle (set_o_lock false s).
Proof. intros [[] ?]. split; [by split|done]. Qed.

Lemma o_peers_idle me s s' : o_idle s → o_peers me s s' → o_idle s'.
Proof. intros [] (? & ? & _). split; [tauto|congruence]. Qed.

Lemma o_peers_room me s s' : o_room s → o_peers me s s' → o_room s'.
Proof. intros ? (_ & _ & _ & ?). auto. Qed.

Section owned_rules.
Context (me : cred) (C : contract owned) (HC : ∀ s s', c_rely C s s' → o_peers me s s').

Lemma wp_o_lock s (Q : unit → owned → Prop) :
  o_idle s →
  (∀ s0, c_rely C s s0 → o_idle s0 → Q tt (set_o_lock true s0)) → wp C lock Q s.
Proof using HC.
  intros Hs HQ. apply wp_lock.
  - intros s0 H0. by destruct (o_peers_idle _ _ _ Hs (HC _ _ H0)).
  - intros s0 H0. apply HQ; [done|]. by eapply o_peers_idle, HC.
Qed.

(** Taking the device when it is free or ours makes this process an opener. *)
Lemma wp_grab s (Q : unit → owned → Prop) :
  o_held s → o_room s → scull_w_available me s = true →
  (∀ s', o_held s' → me ∈ opens s' → entitled (o_owner s') me → Q tt s') →
  wp C (grab me) Q s.
Proof.
  intros [[Hd Hc Hf He] Hl] Hroom Hav HQ. apply scull_w_available_spec in Hav. unfold o_room, INT_MAX in *.
  unfold grab. wp_step. apply wp_modify. apply wp_modify.
  assert (o_count s = 0 → opens s = []) as Hnil.
  { intros H0. destruct (opens s); [done|simpl in *; lia]. }
  destruct (o_count s =? 0) eqn:E; zbool.
  - apply HQ; [split; [split|]; cbn -[s32]; rewrite ?s32_small by lia; unfold INT_MAX; [done|lia|lia| |done]|cbn; set_solver|cbn; by left].
    rewrite (Hnil E). constructor; [by left|constructor].
  - assert (entitled (o_owner s) me) by tauto.
    apply HQ; [split; [split|]; cbn -[s32]; rewrite ?s32_small by lia; unfold INT_MAX; [done|lia|lia|by constructor|done]|cbn; set_solver|done].
Qed.

(** The end of both opens: give the lock up and trim. *)
Lemma wp_finish_open s f_flags :
  o_held s → me ∈ opens s →
  wp C (unlock;; interfere;; zoom o_device set_o_device (trim_if_wronly f_flags);; mret 0)
    (λ r s', o_idle s' ∧ r = 0 ∧ me ∈ opens s') s.
Proof using HC.
  intros Hs Hin. wp_step. apply wp_unlock; [apply Hs|]. apply o_held_idle in Hs.
  wp_step. apply wp_interfere. intros s1 H1. pose proof (o_peers_idle _ _ _ Hs (HC _ _ H1)) as [[Hd Hc Hf He] Hl].
  destruct (HC _ _ H1) as (_ & _ & Hin1 & _). specialize (Hin1 Hin).
  wp_step. apply wp_zoom. apply wp_trim_if_wronly; [done|]. wp_step.
  split_and!; [|done|done]. split; [|done]. split; cbn; [by apply trim_wf|done..].
Qed.

Lemma drop_one_held s : o_held s → me ∈ opens s → o_held (drop_one me s).
Proof.
  intros [[Hd Hc Hf He] Hl] Hin. split; [|done]. pose proof (remove1_length _ _ Hin). unfold INT_MAX in *.
  split; cbn -[s32]; rewrite ?s32_small by lia; unfold INT_MAX; [done|lia|lia|]. apply Forall_forall. intros x Hx%remove1_subseteq.
  by eapply Forall_forall in He.
Qed.

Lemma wp_scull_u_open s f_flags :
  o_idle s → o_room s →
  wp C (scull_u_open me f_flags)
    (λ r s', o_idle s' ∧ (r = 0 ∧ me ∈ opens s' ∨ r = - EBUSY)) s.
Proof using HC.
  intros Hs Hroom. unfold scull_u_open. wp_step. apply wp_o_lock; [done|]. intros s0 Hr0%HC Hs0.
  pose proof (o_peers_room _ _ _ Hroom Hr0) as Hroom0.
  apply o_idle_held in Hs0. wp_step. wp_step. rewrite scull_u_busy.
  destruct (scull_w_available me (set_o_lock true s0)) eqn:E; cbn [negb].
  - wp_step. apply wp_grab; [done..|]. intros s1 H1 Hin He.
    eapply wp_mono; [by apply wp_finish_open|]. naive_solver.
  - wp_step. apply wp_unlock; [done|]. wp_step. split; [by apply o_held_idle|by right].
Qed.

Lemma wp_wait_available fuel f_flags s :
  c_sleep C → o_held s → o_room s →
  wp C (wait_available fuel me f_flags) (λ r s',
    match r with
    | Some e => o_idle s' ∧ (e = - EAGAIN ∨ e = - ERESTARTSYS)
    | None => o_held s' ∧ o_room s' ∧ scull_w_available me s' = true
    end) s.
Proof using HC.
  intros Hsl. revert s; induction fuel as [|fuel IH]; intros s Hs Hroom; simpl; [by apply wp_sleep|].
  wp_step. wp_step. destruct (scull_w_available me s) eqn:E; cbn [negb]; [by wp_step|].
  wp_step. apply wp_unlock; [apply Hs|]. apply o_held_idle in Hs.
  wp_step; [wp_step; auto|].
  assert (∀ s1, o_idle s1 → o_room s1 → wp C (lock;; wait_available fuel me f_flags) (λ r s',
    match r with
    | Some e => o_idle s' ∧ (e = - EAGAIN ∨ e = - ERESTARTSYS)
    | None => o_held s' ∧ o_room s' ∧ scull_w_available me s' = true
    end) s1) as Hagain.
  { intros s1 H1 Hr1. wp_step. apply wp_o_lock; [done|]. intros s2 Hr2%HC H2.
    apply IH; [by apply o_idle_held|]. by apply (o_peers_room me s1 s2 Hr1). }
  assert (o_room (set_o_lock false s)) as Hroom' by done.
  wp_step. apply wp_wait_event; [done|..].
  - intros s1 H1%HC _. eapply Hagain; [by eapply o_peers_idle|by eapply o_peers_room].
  - intros s1 s2 H1%HC H2%HC _. eapply Hagain; [eapply o_peers_idle, H2|eapply o_peers_room, H2].
    + by eapply o_peers_idle.
    + by eapply o_peers_room.
  - intros s1 s2 z H1%HC H2%HC _ _. wp_step; [|done]. wp_step. split; [|by right].
    eapply o_peers_idle, H2. by eapply o_peers_idle.
Qed.

Lemma wp_scull_w_open fuel f_flags s :
  c_sleep C → o_idle s → o_room s →
  wp C (scull_w_open fuel me f_flags)
    (λ r s', o_idle s' ∧ (r = 0 ∧ me ∈ opens s' ∨ r = - EAGAIN ∨ r = - ERESTARTSYS)) s.
Proof using HC.
  intros Hsl Hs Hroom. unfold scull_w_open. wp_step. apply wp_o_lock; [done|]. intros s0 Hr0%HC Hs0.
  pose proof (o_peers_room _ _ _ Hroom Hr0) as Hroom0.
  wp_step. eapply wp_mono; [apply wp_wait_available; [done|by apply o_idle_held|done]|].
  intros [e|] s1; [intros [H1 He]; wp_step; tauto|]. intros (H1 & Hr1 & Hav).
  wp_step. apply wp_grab; [done..|]. intros s2 H2 Hin He.
  eapply wp_mono; [by apply wp_finish_open|]. naive_solver.
Qed.

Lemma wp_scull_u_release s :
  o_idle s → me ∈ opens s → wp C (scull_u_release me) (λ r s', o_idle s' ∧ r = 0) s.
Proof using HC.
  intros Hs Hin. unfold scull_u_release. wp_step. apply wp_o_lock; [done|]. intros s0 H0 Hs0.
  wp_step. apply wp_modify. wp_step.
  assert (o_held (drop_one me (set_o_lock true s0))) as Hd.
  { apply drop_one_held; [by apply o_idle_held|]. cbn. by apply (HC _ _ H0). }
  apply wp_unlock; [apply Hd|]. wp_step. split; [by apply o_held_idle|done].
Qed.

Lemma wp_scull_w_release s :
  o_idle s → me ∈ opens s → wp C (scull_w_release me) (λ r s', o_idle s' ∧ r = 0) s.
Proof using HC.
  intros Hs Hin. unfold scull_w_release. wp_step. apply wp_o_lock; [done|]. intros s0 H0 Hs0.
  wp_step. apply wp_modify. wp_step. wp_step.
  assert (o_held (drop_one me (set_o_lock true s0))) as Hd.
  { apply drop_one_held; [by apply o_idle_held|]. cbn. by apply (HC _ _ H0). }
  wp_step. apply wp_unlock; [apply Hd|]. apply o_held_idle in Hd.
  wp_step. apply (wp_mono _ _ (λ _, o_idle)).
  - wp_step; [|by wp_step]. apply wp_modify. destruct Hd as [[] ?]. by split; [split|].
  - intros _ s1 H1. by wp_step.
Qed.
End owned_rules.

(** ** The private device *)

Module Private.

(** [struct scull_listitem]; [addr] names the block the item lives in. *)
Record item := Item { addr : nat; key : Z; device : scull_dev }.

Record state := State {
  scull_c_list : list item;
  next_addr : nat;
  c_quantum : Z;      (* scull_quantum *)
  c_qset : Z;         (* scull_qset *)
  c_live : Z;
  c_lock : bool
}.

Definition set_list (l : list item) (s : state) : state :=
  State l (next_addr s) (c_quantum s) (c_qset s) (c_live s) (c_lock s).
Definition set_c_lock (b : bool) (s : state) : state :=
  State (scull_c_list s) (next_addr s) (c_quantum s) (c_qset s) (c_live s) b.

#[export] Instance private_lock : HasLock state :=
  { lock_of := c_lock; set_lock := set_c_lock; lock_set b s := eq_refl }.

(** [scull_trim] on a device of the list: what it frees, what it leaves. *)
Definition trim_device (d : scull_dev) : K state scull_dev :=
  zoom (λ s, Scull d (c_quantum s) (c_qset s) 0 (c_live s))
    (λ x s, State (scull_c_list s) (next_addr s) (c_quantum s) (c_qset s) (live x) (c_lock s))
    (scull_trim;; gets dev).

Definition zero_dev : scull_dev := ScullDev [] 0 0 0 false.

(** The item of a key; its address, or [None] for NULL. *)
Definition scull_c_lookfor_device (key_ : Z) : K state (option nat) :=
  l ← gets scull_c_list;
  match List.find (λ it, key it =? key_) l with
  | Some it => mret (Some (addr it))
  | None =>
      z ← call (kmalloc 120);
      if z =? 0 then mret None else
      modify (λ s, State (scull_c_list s) (S (next_addr s)) (c_quantum s) (c_qset s)
                     (c_live s + 1) (c_lock s));;
      a ← gets (λ s, pred (next_addr s));
      d ← trim_device zero_dev;
      modify (λ s, set_list (Item a key_ d :: scull_c_list s) s);;
      mret (Some a)
  end.

(** The list with the device of the item at [a] replaced. *)
Definition replaced (a : nat) (d : scull_dev) (l : list item) : list item :=
  map (λ it, if (addr it =? a)%nat then Item a (key it) d else it) l.

(** [tty]: the device number of the controlling terminal, if there is one. The
    value of the call and the device the file is bound to. *)
Definition scull_c_open (tty : option Z) (f_flags : Z) : K state (Z * option nat) :=
  match tty with
  | None => mret (- EINVAL, None)
  | Some key_ =>
      lock;;
      p ← scull_c_lookfor_device key_;
      unlock;;
      match p with
      | None => mret (- ENOMEM, None)
      | Some a =>
          interfere;;
          (if Z.land f_flags O_ACCMODE =? O_WRONLY then
             l ← gets scull_c_list;
             it ← deref NullDeref (List.find (λ it, addr it =? a)%nat l);
             d ← trim_device (device it);
             modify (λ s, set_list (replaced a d (scull_c_list s)) s)
           else mret tt);;
          mret (0, Some a)
      end
  end.

Definition scull_c_release : K state Z := mret 0.

(** The blocks an item accounts for: its own and those of its device. *)
Definition item_blocks (it : item) : Z := 1 + footprint (data (device it)).
Fixpoint all_blocks (l : list item) : Z :=
  match l with [] => 0 | it :: l => item_blocks it + all_blocks l end.

Record inv (s : state) : Prop := {
  inv_keys : NoDup (key <$> scull_c_list s);
  inv_addrs : NoDup (addr <$> scull_c_list s);
  inv_fresh : Forall (λ it, addr it < next_addr s)%nat (scull_c_list s);
  inv_devs : Forall (λ it, wf_dev (device it)) (scull_c_list s);
  inv_tunables : 0 < c_quantum s ∧ 0 < c_qset s ∧ c_quantum s * c_qset s <= INT_MAX;
  inv_live : c_live s = all_blocks (scull_c_list s)
}.
Definition idle (s : state) : Prop := inv s ∧ c_lock s = false.
Definition held (s : state) : Prop := inv s ∧ c_lock s = true.

(** Items are never removed while the module is loaded, and never change key. *)
Definition keeps (s s' : state) : Prop :=
  ∀ it, it ∈ scull_c_list s → ∃ it', it' ∈ scull_c_list s' ∧ addr it' = addr it ∧ key it' = key it.

Definition peers (s s' : state) : Prop :=
  (inv s → inv s') ∧ c_lock s' = c_lock s ∧ keeps s s'.

Lemma access_idle_held s : idle s → held (set_c_lock true s).
Proof. intros [[] ?]. split; [by split|done]. Qed.
Lemma access_held_idle s : held s → idle (set_c_lock false s).
Proof. intros [[] ?]. split; [by split|done]. Qed.
Lemma access_peers_idle s s' : idle s → peers s s' → idle s'.
Proof. intros [] (? & ? & _). split; [tauto|congruence]. Qed.

Lemma all_blocks_map a d l it :
  NoDup (addr <$> l) → it ∈ l → addr it = a →
  all_blocks (map (λ it, if (addr it =? a)%nat then Item a (key it) d else it) l) =
  all_blocks l - footprint (data (device it)) + footprint (data d).
Proof.
  induction l as [|x l IH]; intros Hnd Hin Ha; [by apply not_elem_of_nil in Hin|].
  rewrite fmap_cons, NoDup_cons in Hnd. destruct Hnd as [Hx Hnd]. simpl.
  apply elem_of_cons in Hin as [->|Hin].
  - rewrite Ha, Nat.eqb_refl. rewrite (map_ext_in _ id); [rewrite map_id|].
    + unfold item_blocks. cbn. lia.
    + intros y Hy. destruct (Nat.eqb_spec (addr y) a); [|done]. exfalso. apply Hx.
      rewrite Ha. apply list_elem_of_fmap. exists y. by rewrite list_elem_of_In.
  - destruct (Nat.eqb_spec (addr x) a) as [E|].
    + exfalso. apply Hx. apply list_elem_of_fmap. exists it. split; [congruence|done].
    + rewrite IH by done. lia.
Qed.

(** What [trim_device] frees and leaves. *)
Lemma wp_trim_device C d s k (Q : scull_dev → state → Prop) :
  free_items (qset d) (data d) = Done k →
  Q (ScullDev [] (c_quantum s) (c_qset s) 0 (mutex d))
    (State (scull_c_list s) (next_addr s) (c_quantum s) (c_qset s) (c_live s - k) (c_lock s)) →
  wp C (trim_device d) Q s.
Proof.
  intros Hk HQ. unfold trim_device. apply wp_zoom. unfold scull_trim.
  wp_step. wp_step. wp_step. wp_step. eapply wp_liftO; [exact Hk|]. by wp_go.
Qed.

Lemma wp_c_lock C s (Q : unit → state → Prop) :
  (∀ s s', c_rely C s s' → peers s s') → idle s →
  (∀ s0, c_rely C s s0 → idle s0 → Q tt (set_c_lock true s0)) → wp C lock Q s.
Proof.
  intros HC Hs HQ. apply wp_lock.
  - intros s0 H0. by destruct (access_peers_idle _ _ Hs (HC _ _ H0)).
  - intros s0 H0. apply HQ; [done|]. by eapply access_peers_idle, HC.
Qed.

(** The item at the head of the list, for a key the list did not have. *)
Definition added (k : Z) (s : state) : state :=
  State (Item (next_addr s) k (ScullDev [] (c_quantum s) (c_qset s) 0 false) :: scull_c_list s)
    (S (next_addr s)) (c_quantum s) (c_qset s) (c_live s + 1) (c_lock s).

Lemma added_inv k s :
  inv s → k ∉ key <$> scull_c_list s → inv (added k s).
Proof.
  intros [Hk Ha Hf Hd Ht Hl] Hnew. split; cbn.
  - by constructor.
  - constructor; [|done]. intros (it & Heq & Hit)%list_elem_of_fmap.
    pose proof (proj1 (Forall_forall _ _) Hf it Hit). cbn in *. lia.
  - constructor; [cbn; lia|]. eapply Forall_impl; [exact Hf|]. cbn. lia.
  - constructor; [|done]. split; cbn; try done; unfold LONG_MAX; lia.
  - done.
  - unfold item_blocks; cbn. lia.
Qed.

(** The look-up finds the item of the key, or adds it; it fails only for want
    of memory. *)
Lemma wp_lookfor C k s (Q : option nat → state → Prop) :
  held s →
  (∀ z, c_ans C (kmalloc 120) z → z = 0 → Q None s) →
  (∀ s' it, held s' → keeps s s' → it ∈ scull_c_list s' → key it = k →
    (k ∈ key <$> scull_c_list s → s' = s) → Q (Some (addr it)) s') →
  wp C (scull_c_lookfor_device k) Q s.
Proof.
  intros [Hi Hl] Hno Hok. unfold scull_c_lookfor_device. wp_step. wp_step.
  destruct (List.find _ _) as [it|] eqn:Hfind.
  - apply find_some in Hfind as [Hin Hk%Z.eqb_eq]. wp_step.
    apply list_elem_of_In in Hin. apply (Hok s it); [by split|by intros x ?; eauto|done..].
  - assert (k ∉ key <$> scull_c_list s) as Hnew.
    { intros (it & -> & Hit)%list_elem_of_fmap.
      apply list_elem_of_In in Hit. pose proof (find_none _ _ Hfind _ Hit). by apply Z.eqb_neq in H. }
    wp_step. wp_step. wp_step; [wp_step; by apply (Hno z)|]. wp_step. apply wp_modify. do 2 wp_step.
    wp_step. apply (wp_trim_device _ _ _ 0); [done|]. wp_step. apply wp_modify. wp_step.
    rewrite Z.sub_0_r. eapply (Hok (added k s)
      (Item (next_addr s) k (ScullDev [] (c_quantum s) (c_qset s) 0 false))).
    + split; [by apply added_inv|done].
    + intros it Hit. exists it. split; [by right|done].
    + by left.
    + done.
    + by intros ?%Hnew.
Qed.

Lemma replaced_keys a d l : key <$> replaced a d l = key <$> l.
Proof. induction l as [|x l IH]; simpl; [done|]. f_equal; [by case_match|done]. Qed.

Lemma replaced_addrs a d l : addr <$> replaced a d l = addr <$> l.
Proof.
  induction l as [|x l IH]; simpl; [done|]. f_equal; [|done].
  destruct (Nat.eqb_spec (addr x) a); simpl; congruence.
Qed.

Lemma find_addr a l it :
  NoDup (addr <$> l) → it ∈ l → addr it = a → List.find (λ x, addr x =? a)%nat l = Some it.
Proof.
  induction l as [|x l IH]; intros Hnd Hin Ha; [by apply not_elem_of_nil in Hin|].
  rewrite fmap_cons, NoDup_cons in Hnd. destruct Hnd as [Hx Hnd]. simpl.
  apply elem_of_cons in Hin as [->|Hin]; [by rewrite Ha, Nat.eqb_refl|].
  destruct (Nat.eqb_spec (addr x) a) as [E|]; [|by apply IH].
  exfalso. apply Hx, list_elem_of_fmap. exists it. split; [congruence|done].
Qed.

(** Trimming the device of an item in place. *)
Definition trimmed_at (it : item) (s : state) : state :=
  let d := ScullDev [] (c_quantum s) (c_qset s) 0 (mutex (device it)) in
  State (replaced (addr it) d (scull_c_list s)) (next_addr s) (c_quantum s) (c_qset s)
    (c_live s - footprint (data (device it))) (c_lock s).

Lemma trimmed_at_inv it s : inv s → it ∈ scull_c_list s → inv (trimmed_at it s).
Proof.
  intros [Hk Ha Hf Hd Ht Hl] Hin. split; cbn; rewrite ?replaced_keys, ?replaced_addrs; try done.
  - apply Forall_map. eapply Forall_impl; [exact Hf|]. intros x Hx. cbn in *.
    destruct (Nat.eqb_spec (addr x) (addr it)); simpl; lia.
  - apply Forall_map. eapply Forall_impl; [exact Hd|]. intros x Hx. cbn in *.
    case_match; [|done]. split; cbn; try done; try lia; unfold LONG_MAX; lia.
  - unfold replaced. rewrite (all_blocks_map _ _ _ it), Hl by done. cbn. lia.
Qed.

Lemma trimmed_at_keeps it s : keeps s (trimmed_at it s).
Proof.
  intros x Hx. exists (if (addr x =? addr it)%nat
    then Item (addr it) (key x) (ScullDev [] (c_quantum s) (c_qset s) 0 (mutex (device it))) else x).
  split; [|by destruct (Nat.eqb_spec (addr x) (addr it))].
  cbn. unfold replaced. apply list_elem_of_In, in_map_iff. exists x.
  split; [done|]. by apply list_elem_of_In.
Qed.

Lemma wp_trim_item C s it (Q : unit → state → Prop) :
  inv s → it ∈ scull_c_list s → Q tt (trimmed_at it s) →
  wp C (l ← gets scull_c_list;
        x ← deref NullDeref (List.find (λ x, addr x =? addr it)%nat l);
        d ← trim_device (device x);
        modify (λ s, set_list (replaced (addr it) d (scull_c_list s)) s)) Q s.
Proof.
  intros Hi Hin HQ. wp_step. wp_step. wp_step. apply (wp_deref _ _ _ _ _ it).
  { apply find_addr; [apply Hi|done..]. }
  pose proof (proj1 (Forall_forall _ _) (inv_devs _ Hi) it Hin) as Hd.
  wp_step. eapply wp_trim_device; [eapply free_items_spec; apply Hd|]. by apply wp_modify.
Qed.

(** Other processes keep the items; a process finds the device of its terminal,
    and nobody else's, whatever happens meanwhile. *)
Lemma wp_scull_c_open C s tty f_flags :
  (∀ s s', c_rely C s s' → peers s s') → idle s →
  wp C (scull_c_open tty f_flags) (λ r s', idle s' ∧
    match r with
    | (0, Some a) => ∃ it k, tty = Some k ∧ it ∈ scull_c_list s' ∧ addr it = a ∧ key it = k
    | (e, None) => e = - EINVAL ∧ tty = None ∨ e = - ENOMEM
    | _ => False
    end) s.
Proof.
  intros HC Hs. unfold scull_c_open. destruct tty as [k|]; [|wp_step; split; [done|by left]].
  wp_step. apply (wp_c_lock _ _ _ HC Hs). intros s0 _ Hs0. wp_step. apply wp_lookfor.
  - by apply access_idle_held.
  - intros z _ _. wp_step. apply wp_unlock; [done|]. wp_step. split; [|by right].
    by apply access_held_idle, access_idle_held.
  - intros s1 it H1 _ Hin Hk _. wp_step. apply wp_unlock; [apply H1|].
    apply access_held_idle in H1. wp_step. apply wp_interfere. intros s2 H2.
    pose proof (access_peers_idle _ _ H1 (HC _ _ H2)) as [Hi2 Hl2].
    destruct (HC _ _ H2) as (_ & _ & Hkeep). destruct (Hkeep it Hin) as (it2 & Hin2 & Ha2 & Hk2).
    rewrite <-Ha2. wp_step. wp_step.
    + apply wp_trim_item; [done|done|]. wp_step.
      split; [split; [by apply trimmed_at_inv|done]|].
      destruct (trimmed_at_keeps it2 s2 it2 Hin2) as (it3 & ? & ? & ?).
      exists it3, k. split_and!; [done|done|done|congruence].
    + wp_step. wp_step. split; [done|]. exists it2, k. split_and!; [done|done|done|congruence].
Qed.
End Private.

(** * What the four devices promise *)

(** However the opens and closes of all processes interleave at the atomic
    operations, at most one process has the single-open device open; the count
    is what the processes that hold it, or are being refused, took from it; and
    no call faults. *)
Theorem scull_s_exclusive C :
  (∀ s s', c_rely C s s' → Single.peers s s') →
  faultless Single.scull_sngl_fops Single.allowed C (λ s, s = Single.init_state) ∧
  ∀ s, reachable Single.scull_sngl_fops Single.allowed C (λ s, s = Single.init_state) s →
    0 <= Single.openers s <= 1 ∧
    Single.scull_s_available s = 1 - Single.openers s - Single.losers s.
Proof.
  intros HC. pose proof (Single.inv_inductive C HC) as Hinv.
  split; [by eapply inv_faultless|]. intros s Hs.
  by destruct (reachable_inv _ _ _ _ _ _ Hinv Hs).
Qed.

Lemma scull_s_exclusive_witness :
  faultless Single.scull_sngl_fops Single.allowed (documented Single.peers False)
    (λ s, s = Single.init_state) ∧
  ∀ s, reachable Single.scull_sngl_fops Single.allowed (documented Single.peers False)
      (λ s, s = Single.init_state) s →
    0 <= Single.openers s <= 1 ∧
    Single.scull_s_available s = 1 - Single.openers s - Single.losers s.
Proof. apply (scull_s_exclusive (documented Single.peers False)). by intros s s'. Defined.

(** The entry points of the two devices a user owns, as [me] calls them. *)
Inductive owned_op := UOpen (f_flags : Z) | URelease | WOpen (fuel : nat) (f_flags : Z) | WRelease.

Definition owned_fops (me : cred) (op : owned_op) : K owned Z :=
  match op with
  | UOpen f_flags => scull_u_open me f_flags
  | URelease => scull_u_release me
  | WOpen fuel f_flags => scull_w_open fuel me f_flags
  | WRelease => scull_w_release me
  end.

Definition owned_allowed (me : cred) (s : owned) (op : owned_op) : Prop :=
  match op with URelease | WRelease => me ∈ opens s | _ => o_room s end.

Definition owned_init : owned := Owned scull_init_dev 0 0 false [] 0.

Lemma owned_init_idle : o_idle owned_init.
Proof. split; [|done]. split; [apply init_idle|done|done|by constructor]. Qed.

Lemma owned_inductive me C :
  (∀ s s', c_rely C s s' → o_peers me s s') → c_sleep C →
  inductive_inv (owned_fops me) (owned_allowed me) C (λ s, s = owned_init) o_idle.
Proof.
  intros HC Hsl. split_and!.
  - intros s ->. apply owned_init_idle.
  - intros s [f|  |fuel f| ] Hs Hop; simpl in *.
    + eapply wp_mono; [by apply wp_scull_u_open|]. by intros ? ? [].
    + eapply wp_mono; [by apply wp_scull_u_release|]. by intros ? ? [].
    + eapply wp_mono; [by apply wp_scull_w_open|]. by intros ? ? [].
    + eapply wp_mono; [by apply wp_scull_w_release|]. by intros ? ? [].
  - intros s s' Hs Hr. by eapply o_peers_idle, HC.
Qed.

(** C39: of the devices a user owns (sculluid and the one that makes the others
    wait), as long as the openings fit the count, which is an [int], everybody who
    has one open at a time is entitled to it: the owner, a process that became the
    owner with su, or a privileged one. So two unprivileged users never have it open
    together. The count is the number of openings, the lock is free after every
    call, and no call faults or waits for a lock it holds (an open of the second
    kind may wait for the device for ever). *)
Theorem scull_owned_entitled me C :
  (∀ s s', c_rely C s s' → o_peers me s s') → c_sleep C →
  faultless (owned_fops me) (owned_allowed me) C (λ s, s = owned_init) ∧
  ∀ s, reachable (owned_fops me) (owned_allowed me) C (λ s, s = owned_init) s →
    o_lock s = false ∧ o_count s = lenZ (opens s) ∧
    (∀ c, c ∈ opens s → entitled (o_owner s) c) ∧
    (∀ c c', c ∈ opens s → c' ∈ opens s → cap_dac c = false → cap_dac c' = false →
      uid c = euid c → uid c' = euid c' → uid c = uid c').
Proof.
  intros HC Hsl. pose proof (owned_inductive me C HC Hsl) as Hinv.
  split; [by eapply inv_faultless|]. intros s Hs.
  destruct (reachable_inv _ _ _ _ _ _ Hinv Hs) as [[_ Hc _ He] Hl].
  rewrite Forall_forall in He. split_and!; [done|done|done|].
  intros c c' Hin Hin' ? ? ? ?. specialize (He c Hin) as Hc1. specialize (He c' Hin').
  destruct Hc1 as [?|[?|?]], He as [?|[?|?]]; congruence.
Qed.

Lemma scull_owned_entitled_witness :
  let me := Cred 1000 1000 false in let C := documented (o_peers me) True in
  faultless (owned_fops me) (owned_allowed me) C (λ s, s = owned_init) ∧
  ∀ s, reachable (owned_fops me) (owned_allowed me) C (λ s, s = owned_init) s →
    o_lock s = false ∧ o_count s = lenZ (opens s) ∧
    (∀ c, c ∈ opens s → entitled (o_owner s) c) ∧
    (∀ c c', c ∈ opens s → c' ∈ opens s → cap_dac c = false → cap_dac c' = false →
      uid c = euid c → uid c' = euid c' → uid c = uid c').
Proof.
  intros me C. apply (scull_owned_entitled me C); [by intros s s'|done].
Defined.

(** When nobody interferes, sculluid lets a process in exactly when the
    device is not open or the process is entitled to it, and otherwise refuses
    with -EBUSY and changes nothing; the first opener becomes the owner, and
    the owner changes at no other time. *)
Theorem scull_u_open_spec me f_flags s o :
  o_idle s → o_room s → obeys o (quiet owned) →
  ∃ s', run o (scull_u_open me f_flags) s =
      Done (if decide (o_count s = 0) then 0 else
            if decide (uid me = o_owner s) then 0 else
            if decide (euid me = o_owner s) then 0 else
            if cap_dac me then 0 else - EBUSY, s') ∧
    (o_count s = 0 ∨ entitled (o_owner s) me →
      o_count s' = o_count s + 1 ∧ opens s' = me :: opens s ∧
      o_owner s' = if decide (o_count s = 0) then uid me else o_owner s) ∧
    (¬ (o_count s = 0 ∨ entitled (o_owner s) me) → s' = s).
Proof.
  intros Hs Hroom Ho. destruct (Hs) as [[Hd Hc Hf He] Hl]. unfold o_room, INT_MAX in *.
  assert (s32 (o_count s + 1) = o_count s + 1) as Hone by (apply s32_small; lia).
  assert (wp (quiet owned) (scull_u_open me f_flags) (λ r s',
    r = (if scull_w_available me s then 0 else - EBUSY) ∧
    (scull_w_available me s = true →
      o_count s' = o_count s + 1 ∧ opens s' = me :: opens s ∧
      o_owner s' = if decide (o_count s = 0) then uid me else o_owner s) ∧
    (scull_w_available me s = false → s' = s)) s) as H.
  { unfold scull_u_open. wp_step. apply wp_lock_quiet; [exact Hl|]. wp_step. wp_step. rewrite scull_u_busy.
    change (scull_w_available me (set_lock true s)) with (scull_w_available me s).
    destruct (scull_w_available me s); cbn [negb].
    - unfold grab. wp_step. wp_step. apply wp_modify. apply wp_modify. wp_step. apply wp_unlock; [by case_match|].
      wp_step. apply wp_interfere_quiet. wp_step. apply wp_zoom.
      apply wp_trim_if_wronly; [by case_match|]. wp_step. split; [done|]. split; [|done].
      intros _. cbn -[s32]. destruct (o_count s =? 0) eqn:E; zbool; cbn -[s32]; (split_and!; [exact Hone|done|]);
        by case_decide.
    - wp_step. apply wp_unlock; [done|]. wp_step. split_and!; [done|done|].
      intros _. destruct s. cbn in *. by subst. }
  destruct (wp_total _ _ _ _ _ H Ho) as (r & s' & -> & -> & H1 & H2);
    [by intros []|].
  pose proof (scull_w_available_spec me s) as Hav.
  exists s'. split_and!; [|tauto|].
  - do 2 f_equal. unfold scull_w_available.
    repeat case_decide; destruct (cap_dac me); zcases; zbool; try done; lia.
  - intros Hn. apply H2. destruct (scull_w_available me s); tauto.
Qed.

Lemma scull_u_open_spec_witness :
  ∃ s', run quiet_oracle (scull_u_open (Cred 1000 1000 false) 0) owned_init = Done (0, s') ∧
    (0 = 0 ∨ entitled 0 (Cred 1000 1000 false) →
      o_count s' = 1 ∧ opens s' = [Cred 1000 1000 false] ∧ o_owner s' = 1000) ∧
    (¬ (0 = 0 ∨ entitled 0 (Cred 1000 1000 false)) → s' = owned_init).
Proof.
  exact (scull_u_open_spec (Cred 1000 1000 false) 0 owned_init quiet_oracle
    owned_init_idle eq_refl quiet_obeys).
Defined.

Inductive private_op := COpen (tty : option Z) (f_flags : Z) | CRelease.

Definition scull_priv_fops (op : private_op) : K Private.state Z :=
  match op with
  | COpen tty f_flags => kfmap fst (Private.scull_c_open tty f_flags)
  | CRelease => Private.scull_c_release
  end.

Definition private_init : Private.state :=
  Private.State [] 0 SCULL_QUANTUM SCULL_QSET 0 false.

Lemma private_init_idle : Private.idle private_init.
Proof. split; [|done]. split; cbn; try done; try constructor. Qed.

Lemma private_inductive C :
  (∀ s s', c_rely C s s' → Private.peers s s') →
  inductive_inv scull_priv_fops (λ _ _, True) C (λ s, s = private_init) Private.idle.
Proof.
  intros HC. split_and!.
  - intros s ->. apply private_init_idle.
  - intros s [tty f|] Hs _; simpl.
    + apply wp_kfmap. eapply wp_mono; [by apply Private.wp_scull_c_open|]. by intros ? ? [].
    + by apply wp_ret.
  - intros s s' Hs Hr. by eapply Private.access_peers_idle, HC.
Qed.

(** A field without repetitions tells the elements of a list apart. *)
Lemma NoDup_fmap_eq {A B} (f : A → B) (l : list A) x y :
  NoDup (f <$> l) → x ∈ l → y ∈ l → f x = f y → x = y.
Proof.
  intros Hnd [i Hi]%list_elem_of_lookup [j Hj]%list_elem_of_lookup Hf.
  assert (i = j) as ->; [|congruence].
  eapply (NoDup_lookup _ _ _ (f x) Hnd); rewrite list_lookup_fmap; [by rewrite Hi|].
  rewrite Hj. cbn. by rewrite Hf.
Qed.

(** The private device gives each terminal a device of its own: whatever
    other processes open meanwhile, an open that succeeds hands out the one
    item of the list whose key is the caller's terminal; keys never repeat, no
    item is lost, and the blocks in use are those of the items. An open fails
    only without a terminal or without memory. *)
Theorem scull_c_private C s tty f_flags o :
  (∀ s s', c_rely C s s' → Private.peers s s') → (c_sleep C → False) →
  reachable scull_priv_fops (λ _ _, True) C (λ s, s = private_init) s → obeys o C →
  ∃ r a s', run o (Private.scull_c_open tty f_flags) s = Done ((r, a), s') ∧
    NoDup (Private.key <$> Private.scull_c_list s') ∧
    Private.c_live s' = Private.all_blocks (Private.scull_c_list s') ∧
    match a with
    | Some a => r = 0 ∧ ∀ it, it ∈ Private.scull_c_list s' →
        (tty = Some (Private.key it) ↔ Private.addr it = a)
    | None => r = - EINVAL ∧ tty = None ∨ r = - ENOMEM
    end.
Proof.
  intros HC Hsl Hs Ho. pose proof (reachable_inv _ _ _ _ _ _ (private_inductive C HC) Hs) as Hi.
  destruct (wp_total _ _ _ _ _ (Private.wp_scull_c_open C s tty f_flags HC Hi) Ho Hsl)
    as ([r a] & s' & Hrun & [[Hkeys Haddrs _ _ _ Hlive] _] & Hr).
  exists r, a, s'. split_and!; [done|done|done|].
  destruct a as [a|]; [|by destruct r]. destruct r; try done. split; [done|].
  destruct Hr as (it & k & -> & Hin & Ha & Hk). intros x Hx.
  split.
  - intros [= Hk']. rewrite (NoDup_fmap_eq Private.key _ x it Hkeys) by congruence. done.
  - intros Hax. rewrite (NoDup_fmap_eq Private.addr _ x it Haddrs) by congruence. congruence.
Qed.

Lemma scull_c_private_witness :
  ∃ r a s', run quiet_oracle (Private.scull_c_open (Some 1025) 0) private_init = Done ((r, a), s') ∧
    NoDup (Private.key <$> Private.scull_c_list s') ∧
    Private.c_live s' = Private.all_blocks (Private.scull_c_list s') ∧
    match a with
    | Some a => r = 0 ∧ ∀ it, it ∈ Private.scull_c_list s' →
        (Some 1025 = Some (Private.key it) ↔ Private.addr it = a)
    | None => r = - EINVAL ∧ Some 1025 = None ∨ r = - ENOMEM
    end.
Proof.
  apply (scull_c_private (documented Private.peers False) private_init (Some 1025) 0 quiet_oracle).
  - by intros s s'.
  - by intros [].
  - by apply reach_init.
  - split; [intros c n; apply good_doc, quiet_obeys|]. intros n s. split_and!; [done|done|].
    intros it Hit. by exists it.
Defined.

(** The opens of this file trim the device without taking its mutex: a user
    who opens sculluid for writing only empties it while another process of the
    same user is inside a transfer that holds the mutex. *)
Theorem scull_u_trims_locked me s o :
  o_idle s → mutex (dev (o_device s)) = true → o_owner s = uid me → obeys o (quiet owned) →
  ∃ s', run o (scull_u_open me O_WRONLY) s = Done (0, s') ∧
    mutex (dev (o_device s')) = true ∧ data (dev (o_device s')) = [].
Proof.
  intros Hs Hm Hown Ho. destruct (Hs) as [[Hd Hc Hf He] Hl].
  assert (wp (quiet owned) (scull_u_open me O_WRONLY) (λ r s', r = 0 ∧
    mutex (dev (o_device s')) = true ∧ data (dev (o_device s')) = []) s) as H.
  { unfold scull_u_open. wp_step. apply wp_lock_quiet; [exact Hl|].
    wp_step. wp_step. rewrite scull_u_busy.
    rewrite (proj2 (scull_w_available_spec me _)) by (right; by left). cbn [negb].
    unfold grab. wp_step. wp_step. apply wp_modify. apply wp_modify. wp_step.
    apply wp_unlock; [by case_match|]. wp_step. apply wp_interfere_quiet.
    wp_step. apply wp_zoom. apply wp_trim_if_wronly; [by case_match|].
    wp_step. split_and!; [done| |done]. cbn -[Z.eqb]. by destruct (o_count s =? 0). }
  destruct (wp_total _ _ _ _ _ H Ho) as (? & s' & -> & -> & ? & ?); [by intros []|eauto].
Qed.

(** A device in the middle of a write by its owner. *)
Definition busy_owned : owned :=
  Owned (set_mutex true example_dev) 1 1000 false [Cred 1000 1000 false] 0.

Lemma scull_u_trims_locked_witness :
  ∃ s', run quiet_oracle (scull_u_open (Cred 1000 1000 false) O_WRONLY) busy_owned = Done (0, s') ∧
    mutex (dev (o_device s')) = true ∧ data (dev (o_device s')) = [].
Proof.
  apply (scull_u_trims_locked (Cred 1000 1000 false) busy_owned quiet_oracle);
    [|done|done|apply quiet_obeys].
  split; [|done]. split; [apply set_mutex_wf, example_idle|done..|].
  constructor; [by left|constructor].
Defined.
