(* ===== verification/Registry.v ===== *)
(** * What a driver holds

    Regions, device numbers, interrupt lines, ... that a module acquires from
    the kernel and must give back. Giving back what is not held, of which the
    kernel complains, is recorded. *)

From stdpp Require Import base tactics numbers list strings.
From S2P Require Import Prelude KMonad.
From Stdlib Require Import ZArith Lia.

Open Scope Z_scope.

(** A resource: the service it comes from, and its number. *)
Record resource := Res { res_kind : string; res_id : Z }.

#[export] Instance resource_eq_dec : EqDecision resource.
Proof. solve_decision. Defined.

Record registry := Registry { holding : list resource; bad_frees : list resource }.

Definition empty_registry : registry := Registry [] [].

Definition reg_add (r : resource) (g : registry) : registry :=
  Registry (r :: holding g) (bad_frees g).

(** Remove the first occurrence. *)
Fixpoint remove1 (r : resource) (l : list resource) : list resource :=
  match l with
  | [] => []
  | x :: l => if decide (x = r) then l else x :: remove1 r l
  end.

Definition reg_del (r : resource) (g : registry) : registry :=
  if decide (r ∈ holding g) then Registry (remove1 r (holding g)) (bad_frees g)
  else Registry (holding g) (r :: bad_frees g).

(** A state with a registry. *)
Class HasRegistry (S : Type) := {
  registry_of : S → registry;
  set_registry : registry → S → S;
  registry_set : ∀ g s, registry_of (set_registry g s) = g
}.

Section registry.
Context {St : Type} `{!HasRegistry St}.

Definition hold (r : resource) : K St unit :=
  modify (λ s, set_registry (reg_add r (registry_of s)) s).
Definition give_back (r : resource) : K St unit :=
  modify (λ s, set_registry (reg_del r (registry_of s)) s).

(** For what does nothing where there is no such thing. *)
Definition give_if_held (r : resource) : K St unit :=
  g ← gets registry_of;
  if decide (r ∈ holding g) then give_back r else mret tt.

(** A service that answers 0 and grants [r], or a negative error. *)
Definition acquire (what : string) (r : resource) : K St Z :=
  z ← call (kint what);
  (if z =? 0 then hold r else mret tt);;
  mret z.

(** A service that answers a pointer or a new number, 0 (or less) on failure. *)
Definition acquire_ptr (what : string) (r : resource) : K St Z :=
  z ← call (kint what);
  (if z =? 0 then mret tt else hold r);;
  mret z.

Lemma wp_hold C r s (Q : unit → St → Prop) :
  Q tt (set_registry (reg_add r (registry_of s)) s) → wp C (hold r) Q s.
Proof. intros HQ. unfold hold, give_back. by apply wp_modify. Qed.

Lemma wp_give_back C r s (Q : unit → St → Prop) :
  Q tt (set_registry (reg_del r (registry_of s)) s) → wp C (give_back r) Q s.
Proof. intros HQ. unfold hold, give_back. by apply wp_modify. Qed.

Lemma wp_acquire C what r s (Q : Z → St → Prop) :
  Q 0 (set_registry (reg_add r (registry_of s)) s) →
  (∀ z, c_ans C (kint what) z → z ≠ 0 → Q z s) →
  wp C (acquire what r) Q s.
Proof.
  intros H0 H1. unfold acquire. wp_step. wp_step. wp_step. wp_step; subst.
  - apply wp_hold. by wp_step.
  - wp_step. wp_step. eauto.
Qed.

Lemma wp_acquire_ptr C what r s (Q : Z → St → Prop) :
  Q 0 s →
  (∀ z, c_ans C (kint what) z → z ≠ 0 → Q z (set_registry (reg_add r (registry_of s)) s)) →
  wp C (acquire_ptr what r) Q s.
Proof.
  intros H0 H1. unfold acquire_ptr. wp_step. wp_step. wp_step. wp_step; subst.
  - wp_step. by wp_step.
  - apply wp_hold. wp_step. eauto.
Qed.
End registry.

(** [owns L g]: exactly the resources of [L] are held, in some order, and
    nothing was given back that was not held. *)
Definition owns (L : list resource) (g : registry) : Prop :=
  holding g ≡ₚ L ∧ bad_frees g = [].

#[export] Instance owns_proper : Proper ((≡ₚ) ==> (=) ==> iff) owns.
Proof. intros L L' HL g g' <-. unfold owns. by rewrite HL. Qed.

Lemma owns_empty : owns [] empty_registry.
Proof. done. Qed.

Lemma owns_add r L g : owns L g → owns (r :: L) (reg_add r g).
Proof. intros [H ?]. split; [|done]. cbn. by rewrite H. Qed.

Lemma remove1_perm r l : r ∈ l → l ≡ₚ r :: remove1 r l.
Proof.
  induction l as [|x l IH]; intros Hr; [by apply not_elem_of_nil in Hr|]. cbn.
  destruct (decide (x = r)) as [->|Hx]; [done|].
  apply elem_of_cons in Hr as [->|Hr]; [done|]. rewrite (IH Hr) at 1. apply Permutation_swap.
Qed.

(** The same, with the list of what was given back and not held. *)
Definition owns_but (L B : list resource) (g : registry) : Prop :=
  holding g ≡ₚ L ∧ bad_frees g = B.

Lemma owns_but_del r L B g : owns_but (r :: L) B g → owns_but L B (reg_del r g).
Proof.
  intros [H <-]. unfold reg_del.
  assert (r ∈ holding g) as Hr by (rewrite H; apply list_elem_of_here).
  rewrite decide_True by done. split; [|done]. cbn.
  apply (Permutation_cons_inv (a := r)). by rewrite <-remove1_perm.
Qed.

Lemma owns_del r L g : owns (r :: L) g → owns L (reg_del r g).
Proof. apply owns_but_del. Qed.

Lemma owns_but_miss r L B g : r ∉ L → owns_but L B g → owns_but L (r :: B) (reg_del r g).
Proof.
  intros Hr [H <-]. unfold reg_del. rewrite decide_False by (by rewrite H). done.
Qed.

Lemma owns_but_empty B g : owns_but [] B g → holding g = [] ∧ bad_frees g = B.
Proof. by intros [?%Permutation_nil_r ?]. Qed.

(** A resource that may be there. *)
Definition opt (b : bool) (r : resource) : list resource := if b then [r] else [].

Lemma Forall_opt (P : resource → Prop) b r : P r → Forall P (opt b r).
Proof. intros. destruct b; by repeat constructor. Qed.

(** Resources of another kind. *)
Lemma other_kind r L : Forall (λ x, res_kind x ≠ res_kind r) L → r ∉ L.
Proof. intros HL Hr. by apply (proj1 (Forall_forall _ _) HL r Hr). Qed.

Section owns_rules.
Context {St : Type} `{!HasRegistry St}.

(** Rules in terms of what is owned. *)
Definition owned (L : list resource) (s : St) : Prop := owns L (registry_of s).

Lemma owned_add r L s : owned L s → owned (r :: L) (set_registry (reg_add r (registry_of s)) s).
Proof. intros H. unfold owned. rewrite registry_set. by apply owns_add. Qed.

Lemma owned_del r L s : owned (r :: L) s → owned L (set_registry (reg_del r (registry_of s)) s).
Proof. intros H. unfold owned. rewrite registry_set. by apply owns_del. Qed.

Lemma owned_perm L L' s : L ≡ₚ L' → owned L s → owned L' s.
Proof. unfold owned. by intros ->. Qed.

Lemma owned_nil s : owned [] s → registry_of s = empty_registry.
Proof.
  intros [Hh Hb]. apply Permutation_nil_r in Hh.
  destruct (registry_of s). unfold empty_registry. cbn in *. by subst.
Qed.

Lemma nil_owned s : registry_of s = empty_registry → owned [] s.
Proof. unfold owned. intros ->. apply owns_empty. Qed.

(** Rules for the two commands. *)
Lemma wp_hold_owned C r L s (Q : unit → St → Prop) :
  owned L s → (∀ g, owned (r :: L) (set_registry g s) → Q tt (set_registry g s)) →
  wp C (hold r) Q s.
Proof. intros HL HQ. apply wp_hold, HQ. by apply owned_add. Qed.

Lemma wp_give_back_owned C r L L' s (Q : unit → St → Prop) :
  owned L s → L ≡ₚ r :: L' →
  (∀ g, owned L' (set_registry g s) → Q tt (set_registry g s)) →
  wp C (give_back r) Q s.
Proof. intros HL HP HQ. apply wp_give_back, HQ, owned_del. by eapply owned_perm. Qed.

(** Giving back what is held, what is not, and what may be. *)
Lemma wp_give_but C r L B s (Q : unit → St → Prop) :
  owns_but (r :: L) B (registry_of s) → (∀ g, owns_but L B g → Q tt (set_registry g s)) →
  wp C (give_back r) Q s.
Proof. intros HL HQ. by apply wp_give_back, HQ, owns_but_del. Qed.

Lemma wp_give_miss C r L B s (Q : unit → St → Prop) :
  r ∉ L → owns_but L B (registry_of s) → (∀ g, owns_but L (r :: B) g → Q tt (set_registry g s)) →
  wp C (give_back r) Q s.
Proof. intros Hr HL HQ. by apply wp_give_back, HQ, owns_but_miss. Qed.

Lemma wp_give_opt C (b : bool) r L B s (Q : unit → St → Prop) :
  set_registry (registry_of s) s = s → owns_but (opt b r ++ L) B (registry_of s) →
  (∀ g, owns_but L B g → Q tt (set_registry g s)) →
  wp C (if b then give_back r else mret tt) Q s.
Proof.
  intros Hs HL HQ. destruct b; [by apply (wp_give_but _ _ L B)|]. wp_step. rewrite <-Hs. by apply HQ.
Qed.

Lemma wp_give_if_held C (b : bool) r L s (Q : unit → St → Prop) :
  set_registry (registry_of s) s = s → r ∉ L → owned (opt b r ++ L) s →
  (∀ g, owned L (set_registry g s) → Q tt (set_registry g s)) →
  wp C (give_if_held r) Q s.
Proof.
  intros Hs Hr Ho HQ. unfold give_if_held. do 2 wp_step.
  assert (r ∈ holding (registry_of s) ↔ b = true) as Hin.
  { pose proof Ho as [HL _]. rewrite HL. destruct b; cbn; [by rewrite elem_of_cons; split; [|left]|by split]. }
  destruct b.
  - rewrite decide_True by (by apply Hin). by apply (wp_give_back_owned _ _ _ L _ _ Ho).
  - rewrite decide_False by (rewrite Hin; done). wp_step. rewrite <-Hs. apply HQ. by rewrite Hs.
Qed.

Lemma wp_give_may C (b held : bool) r L B s (Q : unit → St → Prop) :
  set_registry (registry_of s) s = s → (held = true → b = true) → r ∉ L →
  owns_but (opt held r ++ L) B (registry_of s) →
  (∀ g, owns_but L (opt (b && negb held) r ++ B) g → Q tt (set_registry g s)) →
  wp C (if b then give_back r else mret tt) Q s.
Proof.
  intros Hs Hb Hr HL HQ. destruct held.
  { rewrite Hb in * by reflexivity. by apply (wp_give_but _ _ L B). }
  destruct b; [by apply (wp_give_miss _ _ L B)|]. wp_step. rewrite <-Hs. by apply HQ.
Qed.
End owns_rules.

(** ** Device numbers

    [MKDEV], [MAJOR]; a [dev_t] is 32 bits wide. *)
Definition MKDEV (ma mi : Z) : Z := u32 (Z.lor (Z.shiftl ma 20) mi).
Definition MAJOR (dev : Z) : Z := Z.shiftr dev 20.

(** A region of device numbers. *)
Definition region (first : Z) : resource := Res "region" first.

Lemma MAJOR_MKDEV ma mi : 0 <= ma < 2 ^ 12 → 0 <= mi < 2 ^ 20 → MAJOR (MKDEV ma mi) = ma.
Proof.
  intros. unfold MAJOR, MKDEV, u32. rewrite <-Z.land_ones, Z.shiftr_land by done.
  change (Z.shiftr (Z.ones 32) 20) with (Z.ones 12). rewrite Z.shiftr_lor, Z.shiftr_shiftl_l by done.
  rewrite (Z.shiftr_div_pow2 mi), (Z.div_small mi), Z.lor_0_r by done.
  rewrite Z.shiftl_0_r, Z.land_ones by done. by apply Z.mod_small.
Qed.

Lemma owns_snoc (f : nat → resource) n L g :
  owns (f n :: (f <$> seq 0 n) ++ L) g → owns ((f <$> seq 0 (S n)) ++ L) g.
Proof.
  intros H. rewrite seq_S, fmap_app. cbn. rewrite <-app_assoc. cbn.
  by rewrite <-Permutation_middle.
Qed.

Lemma owned_snoc {St} `{!HasRegistry St} (f : nat → resource) n L (s : St) :
  owned (f n :: (f <$> seq 0 n) ++ L) s → owned ((f <$> seq 0 (S n)) ++ L) s.
Proof. apply owns_snoc. Qed.

Lemma cdevs_cons (cdev : nat → resource) i n : (i < n)%nat →
  cdev <$> seq i (n - i) = cdev i :: (cdev <$> seq (S i) (n - S i)).
Proof. intros. replace (n - i)%nat with (S (n - S i)) by lia. done. Qed.

Lemma owned_cdev_pop {St} `{!HasRegistry St} (f : nat → resource) j m L (s : St) :
  (j < m)%nat → owned ((f <$> seq j (m - j)) ++ L) s →
  owned (f j :: (f <$> seq (S j) (m - S j)) ++ L) s.
Proof. intros Hj. by rewrite cdevs_cons. Qed.
