(* ===== verification/ScullModule.v ===== *)
(** * scull: loading and unloading (src/ldd4/scull: main.c, pipe.c, access.c)

    The module owns the bare devices, the pipes, the four access-controlled
    devices and the list of private devices; loading it takes number regions,
    memory and cdevs, unloading trims every device and gives everything back.
    [Res "cdev" ...] stands for the reference [cdev_init] creates, which
    [cdev_del] and [kobject_put] drop. The devices are those of [Scull],
    [ScullPipe] and [ScullAccess]. *)

From stdpp Require Import base tactics numbers list strings.
From S2P Require Import Prelude KMonad Quanta Scull ScullSpec ScullPipe ScullAccess Registry.
From Stdlib Require Import ZArith Lia.

Open Scope Z_scope.

(** ** Data *)

(** [tunables]: [scull_quantum], [scull_qset] and [scull_p_buffer].
    [access_devs] are the devices of [scull_access_devs], in order; [clones] is
    [scull_c_list] with its lock. *)
Record scull_mod := ScullMod {
  scull_major : Z;
  scull_minor : Z;
  scull_nr_devs : Z;
  scull_p_nr_devs : Z;
  tunables : Z * Z * Z;
  scull_devices : option (list scull);
  scull_p_devno : Z;
  scull_p_devices : option (list scull_pipe);
  scull_a_firstdev : Z;
  access_devs : list scull;
  clones : Private.state;
  regs : registry
}.

Definition set_scull_major (v : Z) (x : scull_mod) : scull_mod :=
  ScullMod v (scull_minor x) (scull_nr_devs x) (scull_p_nr_devs x) (tunables x)
    (scull_devices x) (scull_p_devno x) (scull_p_devices x) (scull_a_firstdev x) (access_devs x)
    (clones x) (regs x).
Definition set_scull_devices (v : option (list scull)) (x : scull_mod) : scull_mod :=
  ScullMod (scull_major x) (scull_minor x) (scull_nr_devs x) (scull_p_nr_devs x) (tunables x) v
    (scull_p_devno x) (scull_p_devices x) (scull_a_firstdev x) (access_devs x) (clones x)
    (regs x).
Definition set_scull_p_devno (v : Z) (x : scull_mod) : scull_mod :=
  ScullMod (scull_major x) (scull_minor x) (scull_nr_devs x) (scull_p_nr_devs x) (tunables x)
    (scull_devices x) v (scull_p_devices x) (scull_a_firstdev x) (access_devs x) (clones x)
    (regs x).
Definition set_scull_p_devices (v : option (list scull_pipe)) (x : scull_mod) : scull_mod :=
  ScullMod (scull_major x) (scull_minor x) (scull_nr_devs x) (scull_p_nr_devs x) (tunables x)
    (scull_devices x) (scull_p_devno x) v (scull_a_firstdev x) (access_devs x) (clones x)
    (regs x).
Definition set_scull_a_firstdev (v : Z) (x : scull_mod) : scull_mod :=
  ScullMod (scull_major x) (scull_minor x) (scull_nr_devs x) (scull_p_nr_devs x) (tunables x)
    (scull_devices x) (scull_p_devno x) (scull_p_devices x) v (access_devs x) (clones x)
    (regs x).
Definition set_access_devs (v : list scull) (x : scull_mod) : scull_mod :=
  ScullMod (scull_major x) (scull_minor x) (scull_nr_devs x) (scull_p_nr_devs x) (tunables x)
    (scull_devices x) (scull_p_devno x) (scull_p_devices x) (scull_a_firstdev x) v (clones x)
    (regs x).
Definition set_clones (v : Private.state) (x : scull_mod) : scull_mod :=
  ScullMod (scull_major x) (scull_minor x) (scull_nr_devs x) (scull_p_nr_devs x) (tunables x)
    (scull_devices x) (scull_p_devno x) (scull_p_devices x) (scull_a_firstdev x) (access_devs x)
    v (regs x).
Definition set_regs (v : registry) (x : scull_mod) : scull_mod :=
  ScullMod (scull_major x) (scull_minor x) (scull_nr_devs x) (scull_p_nr_devs x) (tunables x)
    (scull_devices x) (scull_p_devno x) (scull_p_devices x) (scull_a_firstdev x) (access_devs x)
    (clones x) v.

#[export] Instance scull_mod_registry : HasRegistry scull_mod :=
  { registry_of := regs; set_registry := set_regs; registry_set g s := eq_refl }.

(** What the module holds. *)
Definition devices_block : resource := Res "scull_devices" 0.
Definition pipes_block : resource := Res "scull_p_devices" 0.
Definition scull_cdev (i : nat) : resource := Res "scull cdev" (Z.of_nat i).
Definition pipe_cdev (i : nat) : resource := Res "scullpipe cdev" (Z.of_nat i).
Definition access_cdev (i : nat) : resource := Res "access cdev" (Z.of_nat i).

(** On a 64-bit machine, without lock debugging. *)
Definition sizeof_scull_dev : Z := 176.
Definition sizeof_scull_pipe : Z := 264.

(** A zeroed device of the module, and the assignments that set it up. *)
Definition zero_dev (s : scull_mod) : scull :=
  let '(q, n, b) := tunables s in Scull (ScullDev [] 0 0 0 false) q n b 0.
Definition set_geometry (s : scull_mod) (d : scull) : scull :=
  let '(q, n, _) := tunables s in
  Scull (ScullDev (data (dev d)) q n (size (dev d)) false)
    (scull_quantum d) (scull_qset d) (Scull.scull_p_buffer d) (live d).

Definition new_pipe (s : scull_mod) : scull_pipe :=
  let '(_, _, b) := tunables s in ScullPipe None 0 0 0 0 0 0 false b [] [] [].

(** ** Setting up cdevs *)

(** [cdev_init], [cdev_add]; a failure is only reported. *)
Definition scull_setup_cdev (index : nat) : K scull_mod unit :=
  hold (scull_cdev index);;
  call (kint "cdev_add"%string);;
  mret tt.

Definition scull_p_setup_cdev (index : nat) : K scull_mod unit :=
  hold (pipe_cdev index);;
  call (kint "cdev_add"%string);;
  mret tt.

(** ** The pipes *)

Definition scull_p_init (firstdev : Z) : K scull_mod Z :=
  n ← gets scull_p_nr_devs;
  result ← acquire "register_chrdev_region(scullp)" (region firstdev);
  if result <? 0 then mret 0 else
  modify (set_scull_p_devno firstdev);;
  z ← call (kmalloc (n * sizeof_scull_pipe));
  if z =? 0 then
    modify (set_scull_p_devices None);;
    give_back (region firstdev);;
    mret 0
  else
    hold pipes_block;;
    modify (λ s, set_scull_p_devices (Some (replicate (Z.to_nat n) (new_pipe s))) s);;
    for_each (Z.to_nat n) 0 scull_p_setup_cdev;;
    mret n.

(** [cdev_del(...); kfree(scull_p_devices[i].buffer);] *)
Definition scull_p_release_dev (i : nat) : K scull_mod unit :=
  give_back (pipe_cdev i);;
  modify (λ s, set_scull_p_devices (alter (set_buffer None) i <$> scull_p_devices s) s).

Definition scull_p_cleanup : K scull_mod unit :=
  p ← gets scull_p_devices;
  match p with
  | None => mret tt
  | Some _ =>
      n ← gets scull_p_nr_devs;
      for_each (Z.to_nat n) 0 scull_p_release_dev;;
      give_back pipes_block;;
      d ← gets scull_p_devno;
      give_back (region d);;
      modify (set_scull_p_devices None)
  end.

(** ** The access-controlled devices *)

Definition SCULL_N_ADEVS : Z := 4.

Definition scull_access_setup (i : nat) : K scull_mod unit :=
  modify (λ s, set_access_devs (alter (set_geometry s) i (access_devs s)) s);;
  hold (access_cdev i);;
  err ← call (kint "cdev_add(access)"%string);
  if negb (err =? 0) then give_back (access_cdev i) else mret tt.

Definition scull_access_init (firstdev : Z) : K scull_mod Z :=
  result ← acquire "register_chrdev_region(sculla)" (region firstdev);
  if result <? 0 then mret 0 else
  modify (set_scull_a_firstdev firstdev);;
  for_each (Z.to_nat SCULL_N_ADEVS) 0 scull_access_setup;;
  mret SCULL_N_ADEVS.

(** [scull_trim] on one of the four devices. *)
Definition trim_access (i : nat) : K scull_mod unit :=
  d ← gets (λ s, access_devs s !! i) ≫= deref OutOfBounds;
  zoom (λ _, d) (λ d s, set_access_devs (<[i := d]> (access_devs s)) s) scull_trim;;
  mret tt.

(** [list_for_each_entry_safe(lptr, next, &scull_c_list, list)]: each item is
    taken from the list, its device trimmed, its block freed. *)
Fixpoint free_clones (l : list Private.item) : K Private.state unit :=
  match l with
  | [] => mret tt
  | it :: next =>
      modify (Private.set_list next);;
      Private.trim_device (Private.device it);;
      modify (λ s, Private.State (Private.scull_c_list s) (Private.next_addr s)
        (Private.c_quantum s) (Private.c_qset s) (Private.c_live s - 1) (Private.c_lock s));;
      free_clones next
  end.

Definition scull_access_cleanup : K scull_mod unit :=
  for_each (Z.to_nat SCULL_N_ADEVS) 0 (λ i, give_back (access_cdev i);; trim_access i);;
  zoom clones set_clones (l ← gets Private.scull_c_list; free_clones l);;
  d ← gets scull_a_firstdev;
  give_back (region d).

(** ** The module *)

(** [scull_trim] on one of [scull_devices]. *)
Definition trim_bare (i : nat) : K scull_mod unit :=
  d ← gets (λ s, scull_devices s ≫= (.!! i)) ≫= deref OutOfBounds;
  zoom (λ _, d) (λ d s, set_scull_devices (insert i d <$> scull_devices s) s) scull_trim;;
  mret tt.

Definition scull_cleanup_module : K scull_mod unit :=
  ma ← gets scull_major;
  mi ← gets scull_minor;
  n ← gets scull_nr_devs;
  p ← gets scull_devices;
  (match p with
   | Some _ =>
       for_each (Z.to_nat n) 0 (λ i, trim_bare i;; give_back (scull_cdev i));;
       give_back devices_block
   | None => mret tt
   end);;
  give_back (region (MKDEV ma mi));;
  scull_p_cleanup;;
  scull_access_cleanup.

(** "Get a range of minor numbers to work with, asking for a dynamic major
    unless directed otherwise at load time." *)
Definition get_region : K scull_mod Z :=
  ma ← gets scull_major;
  mi ← gets scull_minor;
  if c_bool ma then acquire "register_chrdev_region(scull)" (region (MKDEV ma mi)) else
  result ← call (kint "alloc_chrdev_region"%string);
  if result <? 0 then modify (set_scull_major (MAJOR 0));; mret result else
  dyn ← call (kint "dynamic major"%string);
  hold (region (MKDEV dyn mi));;
  modify (set_scull_major (MAJOR (MKDEV dyn mi)));;
  mret result.

(** The body of the loop over the devices. *)
Definition scull_init_dev_at (i : nat) : K scull_mod unit :=
  modify (λ s, set_scull_devices (alter (set_geometry s) i <$> scull_devices s) s);;
  scull_setup_cdev i.

(** [memset(scull_devices, 0, ...)] and the loop. *)
Definition init_devices (n : nat) : K scull_mod unit :=
  modify (λ s, set_scull_devices (Some (replicate n (zero_dev s))) s);;
  for_each n 0 scull_init_dev_at.

Definition scull_init_module : K scull_mod Z :=
  result ← get_region;
  if result <? 0 then mret result else
  n ← gets scull_nr_devs;
  z ← call (kmalloc (n * sizeof_scull_dev));
  if z =? 0 then
    modify (set_scull_devices None);;
    scull_cleanup_module;;
    mret (- ENOMEM)
  else
    hold devices_block;;
    init_devices (Z.to_nat n);;
    ma ← gets scull_major;
    mi ← gets scull_minor;
    let dev := MKDEV ma (mi + n) in
    k ← scull_p_init dev;
    let dev := u32 (dev + k) in
    k ← scull_access_init dev;
    mret 0.

(** * Invariant *)

(** The module as the loader finds it. *)
Definition scull_loaded (major minor nr_devs p_nr_devs quantum qset p_buffer : Z) : scull_mod :=
  let zero := Scull (ScullDev [] 0 0 0 false) quantum qset p_buffer 0 in
  ScullMod major minor nr_devs p_nr_devs (quantum, qset, p_buffer) None 0 None 0
    (replicate 4 zero) (Private.State [] 0 quantum qset 0 false) empty_registry.

(** What is held once loaded. *)
Definition cdevs (cdev : nat → resource) (n : Z) : list resource := cdev <$> seq 0 (Z.to_nat n).
Definition pipe_holdings (s : scull_mod) : list resource :=
  match scull_p_devices s with
  | Some _ => pipes_block :: region (scull_p_devno s) :: cdevs pipe_cdev (scull_p_nr_devs s)
  | None => []
  end.
Definition access_holdings (s : scull_mod) : list resource :=
  region (scull_a_firstdev s) :: cdevs access_cdev SCULL_N_ADEVS.
Definition bare_holdings (s : scull_mod) : list resource :=
  region (MKDEV (scull_major s) (scull_minor s)) :: devices_block ::
  cdevs scull_cdev (scull_nr_devs s).

(** The devices are well formed; what they are used for keeps them so. *)
Record ready (s : scull_mod) : Prop := {
  ready_devices : ∃ ds, scull_devices s = Some ds ∧ length ds = Z.to_nat (scull_nr_devs s) ∧ Forall Scull.wf ds;
  ready_access : length (access_devs s) = 4%nat ∧ Forall Scull.wf (access_devs s);
  ready_clones : Private.inv (clones s);
  ready_regs : owned (bare_holdings s ++ pipe_holdings s ++ access_holdings s) s
}.

(** Between loading and unloading the devices are used, and nothing else. *)
Definition used (s s' : scull_mod) : Prop := ready s → ready s'.

(** Everything was given back: what is registered, and every block of every
    device. *)
Definition unloaded (s : scull_mod) : Prop :=
  regs s = empty_registry ∧
  (∀ ds, scull_devices s = Some ds → Forall (λ d, live d = 0) ds) ∧
  Forall (λ d, live d = 0) (access_devs s) ∧
  Private.c_live (clones s) = 0 ∧ scull_p_devices s = None.

(** The answers the theorem is about: registration answers 0 or an error; the
    devices' memory is there, and the access-controlled devices are registered
    (see [scull_init_nomem] and after for what happens otherwise). *)
Definition module_ans (c : kcall) (z : Z) : Prop :=
  match c with
  | kint n =>
      if decide (n = "register_chrdev_region(sculla)"%string ∨ n = "cdev_add(access)"%string)
      then z = 0
      else if decide (n = "dynamic major"%string) then 0 < z < 2 ^ 12 else z <= 0
  | _ => doc_ans c z
  end.

Record module_contract (C : contract scull_mod) (n : Z) : Prop := {
  mod_ans : ∀ c z, c_ans C c z → module_ans c z;
  mod_mem : ∀ z, c_ans C (kmalloc (n * sizeof_scull_dev)) z → z ≠ 0;
  mod_used : ∀ s s', c_rely C s s' → used s s'
}.

Section module_rules.
Context (C : contract scull_mod) (n : Z) (HC : module_contract C n).
Implicit Types (s : scull_mod) (L : list resource).

(** ** Loading *)

(** The devices below [j] are set up, all of them are empty. *)
Definition setup (j : nat) (s : scull_mod) (ds : list scull) : Prop :=
  ∀ k d, ds !! k = Some d → data (dev d) = [] ∧ size (dev d) = 0 ∧ live d = 0 ∧
    tunables s = (scull_quantum d, scull_qset d, Scull.scull_p_buffer d) ∧
    ((k < j)%nat → quantum (dev d) = scull_quantum d ∧ qset (dev d) = scull_qset d).

Definition good_tunables s : Prop :=
  let '(q, m, _) := tunables s in 0 < q ∧ 0 < m ∧ q * m <= INT_MAX.

Lemma setup_wf s ds : good_tunables s → setup (length ds) s ds → Forall Scull.wf ds.
Proof.
  intros Ht H. apply Forall_lookup. intros k d Hk. pose proof (lookup_lt_Some _ _ _ Hk).
  destruct (H k d Hk) as (Hd & Hsz & Hl & Htun & Hg). destruct (Hg ltac:(done)) as [Eq En].
  unfold good_tunables in Ht. rewrite Htun in Ht. destruct Ht as (? & ? & ?).
  split; [split|..]; rewrite ?Eq, ?En, ?Hd, ?Hl, ?Hsz; try done; unfold LONG_MAX; lia.
Qed.

Lemma setup_step j s ds : setup j s ds → setup (S j) s (alter (set_geometry s) j ds).
Proof.
  intros H k d Hk. destruct (decide (k = j)) as [->|].
  - rewrite list_lookup_alter_eq in Hk. destruct (ds !! j) as [d0|] eqn:E; [|done].
    destruct (H j d0 E) as (? & ? & ? & Ht & _). cbn in Hk. unfold set_geometry in Hk.
    rewrite Ht in Hk. simplify_eq. done.
  - rewrite list_lookup_alter_ne in Hk by done. destruct (H k d Hk) as (? & ? & ? & ? & Hg).
    split_and!; try done. intros. apply Hg. lia.
Qed.

Lemma wp_init_devices L s m (Q : unit → scull_mod → Prop) :
  owned L s →
  (∀ s' ds, owned ((scull_cdev <$> seq 0 m) ++ L) s' → length ds = m → setup m s' ds →
    s' = set_scull_devices (Some ds) (set_regs (regs s') s) → Q tt s') →
  wp C (init_devices m) Q s.
Proof.
  intros HL HQ. unfold init_devices. wp_step. wp_step.
  apply (wp_for_each _ _ _ _ (λ j s', ∃ ds, owned ((scull_cdev <$> seq 0 j) ++ L) s' ∧
    length ds = m ∧ setup j s' ds ∧ s' = set_scull_devices (Some ds) (set_regs (regs s') s))).
  - exists (replicate m (zero_dev s)). split_and!; [done|apply length_replicate| |by destruct s].
    intros k d [-> _]%lookup_replicate. unfold zero_dev. cbn.
    destruct (tunables s) as [[]]. split_and!; [done..|lia].
  - intros j s1 _ (ds & H1 & Hlen & Hset & E). unfold scull_init_dev_at, scull_setup_cdev.
    wp_step. apply wp_modify. wp_step. apply wp_hold. repeat wp_step.
    exists (alter (set_geometry s1) j ds). split_and!.
    + apply owned_snoc. exact (owns_add (scull_cdev j) _ _ H1).
    + by rewrite length_alter.
    + by apply (setup_step j s1).
    + rewrite E. done.
  - intros s' (ds & ? & ? & ? & ?). by eapply HQ.
Qed.
Lemma wp_scull_p_init firstdev L s (Q : Z → scull_mod → Prop) :
  owned L s → scull_p_devices s = None →
  (∀ k s' g d p, s' = set_regs g (set_scull_p_devno d (set_scull_p_devices p s)) →
    owned (pipe_holdings s' ++ L) s' → Q k s') →
  wp C (scull_p_init firstdev) Q s.
Proof.
  intros HL Hp HQ. unfold scull_p_init. wp_step. wp_step. wp_step. apply wp_acquire.
  2:{ intros z Hz Hz0. apply (mod_ans _ _ HC) in Hz. change (z <= 0) in Hz.
      rewrite (proj2 (Z.ltb_lt _ _)) by lia. wp_step.
      apply (HQ _ _ (regs s) (scull_p_devno s) None); [by destruct s; cbn in *; subst|].
      unfold pipe_holdings. by rewrite Hp. }
  cbn [Z.ltb]. change (0 <? 0) with false. cbn iota. wp_step. wp_step.
  set (s1 := set_scull_p_devno _ _).
  assert (owned (region firstdev :: L) s1) as H1 by exact (owns_add (region firstdev) _ _ HL).
  wp_step. wp_step. wp_step.
  - wp_step. wp_step. wp_step. apply wp_give_back. wp_step.
    apply (HQ _ _ _ firstdev None eq_refl). exact (owns_del _ _ _ H1).
  - wp_step. apply wp_hold. wp_step. wp_step. wp_step.
    set (s2 := set_scull_p_devices _ _). set (m := Z.to_nat (scull_p_nr_devs s)).
    apply (wp_for_each _ _ _ _ (λ j s', ∃ g, s' = set_regs g s2 ∧
      owned ((pipe_cdev <$> seq 0 j) ++ pipes_block :: region firstdev :: L) s')).
    + exists (regs s2). split; [done|]. exact (owns_add pipes_block _ _ H1).
    + intros j s3 _ (g & -> & H3). unfold scull_p_setup_cdev. wp_step. apply wp_hold.
      repeat wp_step. eexists. split; [done|]. apply owned_snoc. exact (owns_add (pipe_cdev j) _ _ H3).
    + intros s3 (g & -> & H3). wp_step. apply (HQ _ _ g firstdev (scull_p_devices s2)); [done|].
      eapply owned_perm, H3. cbn. unfold cdevs. fold m. by rewrite <-!Permutation_middle.
Qed.

Lemma wp_scull_access_init firstdev L s (Q : Z → scull_mod → Prop) :
  owned L s → good_tunables s → length (access_devs s) = 4%nat → setup 0 s (access_devs s) →
  (∀ k s' g a ds, s' = set_regs g (set_scull_a_firstdev a (set_access_devs ds s)) →
    length ds = 4%nat → Forall Scull.wf ds → owned (access_holdings s' ++ L) s' → Q k s') →
  wp C (scull_access_init firstdev) Q s.
Proof.
  intros HL Ht Hlen Hset HQ. unfold scull_access_init. wp_step. apply wp_acquire.
  2:{ intros z Hz Hz0. by apply (mod_ans _ _ HC) in Hz. }
  change (0 <? 0) with false. cbn iota. wp_step. wp_step. wp_step.
  set (s1 := set_scull_a_firstdev _ _).
  assert (owned (region firstdev :: L) s1) as H1 by exact (owns_add (region firstdev) _ _ HL).
  apply (wp_for_each _ _ _ _ (λ j s', ∃ g ds, s' = set_regs g (set_access_devs ds s1) ∧
    length ds = 4%nat ∧ setup j s' ds ∧
    owned ((access_cdev <$> seq 0 j) ++ region firstdev :: L) s')).
  - exists (regs s1), (access_devs s1). split_and!; [by destruct s1|done|done|done].
  - intros j s2 _ (g & ds & -> & H2 & H3 & H4). unfold scull_access_setup. wp_step. wp_step.
    wp_step. apply wp_hold. wp_step. wp_step. apply (mod_ans _ _ HC) in H. change (z = 0) in H.
    subst z. change (negb (0 =? 0)) with false. cbn iota. wp_step.
    exists (reg_add (access_cdev j) g),
      (alter (set_geometry (set_regs g (set_access_devs ds s1))) j ds).
    split_and!; [done|by rewrite length_alter| |].
    + exact (setup_step j _ ds H3).
    + apply owned_snoc. exact (owns_add (access_cdev j) _ _ H4).
  - intros s2 (g & ds & -> & H2 & H3 & H4). wp_step.
    apply (HQ _ _ g firstdev ds); [done|done| |].
    + eapply setup_wf; [|rewrite H2; exact H3]. done.
    + eapply owned_perm, H4. unfold access_holdings. cbn [scull_a_firstdev set_regs set_access_devs].
      change (Z.to_nat SCULL_N_ADEVS) with 4%nat. unfold cdevs.
      change (Z.to_nat SCULL_N_ADEVS) with 4%nat. cbn [Nat.add].
      by rewrite <-Permutation_middle.
Qed.
(** The module as the loader finds it. *)
Record fresh_module (s : scull_mod) : Prop := {
  fresh_nr : scull_nr_devs s = n;
  fresh_minor : 0 <= scull_minor s < 2 ^ 20;
  fresh_tunables : good_tunables s;
  fresh_access : length (access_devs s) = 4%nat ∧ setup 0 s (access_devs s);
  fresh_clones : Private.inv (clones s) ∧ Private.scull_c_list (clones s) = [];
  fresh_devices : scull_devices s = None ∧ scull_p_devices s = None;
  fresh_regs : owned [] s
}.

Lemma fresh_unloaded g m s :
  fresh_module s → owned [] (set_regs g (set_scull_major m s)) →
  unloaded (set_regs g (set_scull_major m s)).
Proof.
  intros [? ? ? [_ Ha] [Hi Hc] [Hd Hp] _] Hg. split_and!.
  - exact (owned_nil _ Hg).
  - cbn. by rewrite Hd.
  - apply Forall_lookup. intros k d Hk. by destruct (Ha k d Hk) as (_ & _ & ? & _).
  - cbn. by rewrite (Private.inv_live _ Hi), Hc.
  - done.
Qed.

Lemma wp_get_region s (Q : Z → scull_mod → Prop) :
  fresh_module s →
  (∀ z s', z < 0 → unloaded s' → Q z s') →
  (∀ g m, let s' := set_regs g (set_scull_major m s) in
    owned [region (MKDEV m (scull_minor s))] s' → Q 0 s') →
  wp C get_region Q s.
Proof.
  intros Hs Hko Hok. pose proof (fresh_regs _ Hs) as HL. unfold get_region. do 5 wp_step.
  - apply wp_acquire.
    + apply (Hok _ (scull_major s)). destruct s; cbn in *. exact (owns_add _ _ _ HL).
    + intros z Hz Hz0. apply (mod_ans _ _ HC) in Hz. change (z <= 0) in Hz. apply Hko; [lia|].
      replace s with (set_regs (regs s) (set_scull_major (scull_major s) s)) by by destruct s.
      apply fresh_unloaded; [done|]. by destruct s.
  - wp_step. wp_step. apply (mod_ans _ _ HC) in H. change (z <= 0) in H. wp_step.
    + wp_step. wp_step. wp_step. apply Hko; [done|].
      replace (set_scull_major (MAJOR 0) s)
        with (set_regs (regs s) (set_scull_major (MAJOR 0) s)) by by destruct s.
      apply fresh_unloaded; [done|]. exact HL.
    + wp_step. wp_step. apply (mod_ans _ _ HC) in H0. change (0 < z0 < 2 ^ 12) in H0.
      wp_step. apply wp_hold. wp_step. wp_step. wp_step. assert (z = 0) as -> by lia.
      rewrite MAJOR_MKDEV; [|lia|apply Hs]. apply (Hok _ z0). exact (owns_add _ _ _ HL).
Qed.

(** Loading ends with a module that is ready, or with nothing. *)
Lemma wp_scull_init_module s (Q : Z → scull_mod → Prop) :
  fresh_module s → (∀ z s', z < 0 → unloaded s' → Q z s') →
  (∀ s', ready s' → scull_nr_devs s' = n → Q 0 s') →
  wp C scull_init_module Q s.
Proof.
  intros Hs Hko Hok. unfold scull_init_module. wp_step. apply wp_get_region; [done|..].
  { intros z s' Hz Hu. rewrite (proj2 (Z.ltb_lt _ _)) by lia. wp_step. by apply Hko. }
  intros g m s1 H1. change (0 <? 0) with false. cbn iota. do 4 wp_step. wp_step.
  { exfalso. destruct Hs. cbn in H. rewrite fresh_nr0 in H. by apply (mod_mem _ _ HC) in H. }
  wp_step. apply wp_hold. set (s2 := set_registry _ _).
  assert (owned (devices_block :: [region (MKDEV m (scull_minor s))]) s2) as H2
    by exact (owns_add _ _ _ H1).
  change (scull_nr_devs s1) with (scull_nr_devs s). destruct Hs. rewrite fresh_nr0.
  wp_step. eapply wp_init_devices; [exact H2|]. intros s3 ds H3 Hlen Hset E3.
  remember (regs s3) as g3. clear Heqg3. subst s3. do 4 wp_step. cbn beta zeta.
  set (L := (scull_cdev <$> seq 0 (Z.to_nat n)) ++ _) in H3. destruct fresh_devices0 as [_ Hp].
  wp_step. eapply wp_scull_p_init; [exact H3|exact Hp|]. intros k s4 g4 d p E4 H4. subst s4.
  wp_step. eapply wp_scull_access_init; [exact H4|exact fresh_tunables0|apply fresh_access0|apply fresh_access0|].
  intros k' s5 g5 a ads E5 Hlen5 Hwf5 H5. subst s5. wp_step. apply Hok; [|done]. split.
  - exists ds. cbn. rewrite fresh_nr0. split_and!; [done..|].
    eapply setup_wf; [exact fresh_tunables0|]. rewrite Hlen. exact Hset.
  - by split.
  - apply fresh_clones0.
  - eapply owned_perm, H5. unfold bare_holdings, cdevs, L. cbn [scull_nr_devs scull_major scull_minor
      set_regs set_scull_a_firstdev set_access_devs set_scull_p_devno set_scull_p_devices
      set_scull_devices s2 s1 set_registry scull_mod_registry set_scull_major].
    rewrite fresh_nr0. set (A := access_holdings _). set (P := pipe_holdings _).
    change (pipe_holdings _) with P. set (D := scull_cdev <$> _).
    change (?x :: ?y :: D) with ([x; y] ++ D). rewrite (Permutation_swap devices_block). cbn.
    solve_Permutation.
Qed.
(** ** Unloading *)

(** Devices below [j] have been trimmed, the others are well formed. *)
Definition trimmed_below (j : nat) (ds : list scull) : Prop :=
  ∀ k d, ds !! k = Some d → if decide (k < j)%nat then live d = 0 else Scull.wf d.

Lemma trimmed_0 ds : Forall Scull.wf ds → trimmed_below 0 ds.
Proof. intros H k d Hk. rewrite decide_False by lia. by eapply Forall_lookup_1. Qed.

Lemma trimmed_all ds : trimmed_below (length ds) ds → Forall (λ d, live d = 0) ds.
Proof.
  intros H. apply Forall_lookup. intros k d Hk. specialize (H k d Hk).
  by rewrite decide_True in H by by eapply lookup_lt_Some.
Qed.

Lemma trimmed_step j ds d : trimmed_below j ds → live d = 0 → trimmed_below (S j) (<[j := d]> ds).
Proof.
  intros H Hd k x Hk. destruct (decide (k = j)) as [->|].
  - rewrite decide_True by lia. destruct (decide (j < length ds)%nat).
    + rewrite list_lookup_insert_eq in Hk by done. by simplify_eq.
    + rewrite list_insert_ge in Hk by lia. apply lookup_lt_Some in Hk. lia.
  - rewrite list_lookup_insert_ne in Hk by done. specialize (H k x Hk).
    repeat case_decide; done || lia.
Qed.

(** Trimming one device of an array. *)
Lemma wp_trim_zoom (upd : scull → scull_mod → scull_mod) d s (Q : unit → scull_mod → Prop) :
  Scull.wf d → (∀ d', live d' = 0 → Q tt (upd d' s)) →
  wp C (zoom (λ _, d) upd scull_trim;; mret tt) Q s.
Proof.
  intros Hd HQ. wp_step. apply wp_zoom, wp_scull_trim; [done|]. wp_step. apply HQ. cbn.
  rewrite (Scull.wf_live _ Hd). lia.
Qed.

Lemma wp_trim_bare i ds d s (Q : unit → scull_mod → Prop) :
  scull_devices s = Some ds → ds !! i = Some d → Scull.wf d →
  (∀ d', live d' = 0 → Q tt (set_scull_devices (Some (<[i := d']> ds)) s)) →
  wp C (trim_bare i) Q s.
Proof.
  intros Hds Hi Hd HQ. unfold trim_bare. wp_step. wp_step. wp_step. rewrite Hds.
  apply (wp_deref _ _ _ _ _ d); [done|]. apply wp_trim_zoom; [done|]. intros d' Hd'.
  rewrite Hds. by apply HQ.
Qed.

Lemma wp_trim_access i d s (Q : unit → scull_mod → Prop) :
  access_devs s !! i = Some d → Scull.wf d →
  (∀ d', live d' = 0 → Q tt (set_access_devs (<[i := d']> (access_devs s)) s)) →
  wp C (trim_access i) Q s.
Proof.
  intros Hi Hd HQ. unfold trim_access. wp_step. wp_step. wp_step.
  apply (wp_deref _ _ _ _ _ d); [done|]. by apply wp_trim_zoom.
Qed.

(** The loop over [scull_devices]. *)
Lemma wp_cleanup_bare ds L s (Q : unit → scull_mod → Prop) :
  scull_devices s = Some ds → Forall Scull.wf ds →
  owned ((scull_cdev <$> seq 0 (length ds)) ++ L) s →
  (∀ g ds', Forall (λ d, live d = 0) ds' →
    let s' := set_regs g (set_scull_devices (Some ds') s) in owned L s' → Q tt s') →
  wp C (for_each (length ds) 0 (λ i, trim_bare i;; give_back (scull_cdev i))) Q s.
Proof.
  intros Hds Hwf HL HQ.
  apply (wp_for_each _ _ _ _ (λ j s', ∃ g ds', s' = set_regs g (set_scull_devices (Some ds') s) ∧
    length ds' = length ds ∧ trimmed_below j ds' ∧
    owned ((scull_cdev <$> seq j (length ds - j)) ++ L) s')).
  - exists (regs s), ds. rewrite Nat.sub_0_r. split_and!; [|done|by apply trimmed_0|done].
    destruct s; cbn in *; by subst.
  - intros j s1 Hj (g & ds1 & -> & Hlen & Ht & Ho).
    destruct (lookup_lt_is_Some_2 ds1 j) as [d Hd]; [lia|].
    pose proof (Ht j d Hd) as Hwfd. rewrite decide_False in Hwfd by lia.
    wp_step. eapply (wp_trim_bare j ds1 d); [done..|]. intros d' Hd'. apply wp_give_back.
    apply owned_cdev_pop in Ho; [|lia].
    eexists _, (<[j := d']> ds1). split_and!; [done|by rewrite length_insert|by apply trimmed_step|].
    exact (owns_del _ _ _ Ho).
  - intros s1 (g & ds1 & -> & Hlen & Ht & Ho). rewrite Nat.add_0_l, Nat.sub_diag in *.
    apply HQ; [|done]. apply trimmed_all. by rewrite Hlen.
Qed.

(** The loop over the access-controlled devices. *)
Lemma wp_cleanup_access L s (Q : unit → scull_mod → Prop) :
  length (access_devs s) = 4%nat → Forall Scull.wf (access_devs s) →
  owned ((access_cdev <$> seq 0 4) ++ L) s →
  (∀ g ds', Forall (λ d, live d = 0) ds' →
    let s' := set_regs g (set_access_devs ds' s) in owned L s' → Q tt s') →
  wp C (for_each 4 0 (λ i, give_back (access_cdev i);; trim_access i)) Q s.
Proof.
  intros Hlen Hwf HL HQ.
  apply (wp_for_each _ _ _ _ (λ j s', ∃ g ds', s' = set_regs g (set_access_devs ds' s) ∧
    length ds' = 4%nat ∧ trimmed_below j ds' ∧
    owned ((access_cdev <$> seq j (4 - j)) ++ L) s')).
  - exists (regs s), (access_devs s). split_and!; [by destruct s|done|by apply trimmed_0|done].
  - intros j s1 Hj (g & ds1 & -> & Hl & Ht & Ho).
    destruct (lookup_lt_is_Some_2 ds1 j) as [d Hd]; [lia|].
    pose proof (Ht j d Hd) as Hwfd. rewrite decide_False in Hwfd by lia.
    wp_step. apply wp_give_back. apply (wp_trim_access j d); [done..|]. intros d' Hd'.
    apply owned_cdev_pop in Ho; [|lia].
    eexists _, (<[j := d']> ds1). split_and!; [done|by rewrite length_insert|by apply trimmed_step|].
    exact (owns_del _ _ _ Ho).
  - intros s1 (g & ds1 & -> & Hl & Ht & Ho). apply HQ; [|done]. apply trimmed_all. by rewrite Hl.
Qed.

(** The private devices: each item takes its blocks with it. *)
Lemma wp_free_clones (D : contract Private.state) l k (s : Private.state) (Q : unit → Private.state → Prop) :
  Forall (λ it, wf_dev (Private.device it)) l → Private.c_live s = k + Private.all_blocks l →
  (∀ x : Private.state, Private.c_live x = k → Q tt x) →
  wp D (free_clones l) Q s.
Proof.
  revert s; induction l as [|it l IH]; intros s Hwf Hk HQ; cbn [free_clones].
  { wp_step. apply HQ. cbn in Hk. lia. }
  apply Forall_cons in Hwf as [Hit Hwf]. wp_step. wp_step. wp_step.
  eapply Private.wp_trim_device; [eapply free_items_spec; apply Hit|]. wp_step. wp_step.
  eapply IH; [done| |done]. cbn in *. unfold Private.item_blocks in Hk. lia.
Qed.

(** The loop over the pipes. *)
Lemma wp_cleanup_pipes L s (Q : unit → scull_mod → Prop) :
  owned (pipe_holdings s ++ L) s →
  (∀ g, let s' := set_regs g (set_scull_p_devices None s) in owned L s' → Q tt s') →
  wp C scull_p_cleanup Q s.
Proof.
  intros HL HQ. unfold scull_p_cleanup. wp_step. wp_step. unfold pipe_holdings in HL.
  destruct (scull_p_devices s) as [ps|] eqn:Ep.
  2:{ wp_step. specialize (HQ (regs s)). replace (set_regs _ _) with s in HQ; [by apply HQ|].
      destruct s; cbn in *; by subst. }
  wp_step. wp_step. wp_step. set (m := Z.to_nat (scull_p_nr_devs s)).
  apply (wp_for_each _ _ _ _ (λ j s', ∃ g ps', s' = set_regs g (set_scull_p_devices (Some ps') s) ∧
    owned ((pipe_cdev <$> seq j (m - j)) ++ pipes_block :: region (scull_p_devno s) :: L) s')).
  - exists (regs s), ps. split; [destruct s; cbn in *; by subst|].
    eapply owned_perm, HL. rewrite Nat.sub_0_r. unfold cdevs. fold m. solve_Permutation.
  - intros j s1 Hj (g & ps1 & -> & Ho). unfold scull_p_release_dev. wp_step. apply wp_give_back.
    wp_step. apply owned_cdev_pop in Ho; [|lia]. eexists _, _. split; [done|].
    exact (owns_del _ _ _ Ho).
  - intros s1 (g & ps1 & -> & Ho). rewrite Nat.add_0_l, Nat.sub_diag in Ho. cbn [seq fmap list_fmap app] in Ho.
    wp_step. apply wp_give_back. wp_step. wp_step. wp_step. apply wp_give_back. wp_step.
    apply (HQ _). exact (owns_del _ _ _ (owns_del _ _ _ Ho)).
Qed.
(** The access-controlled devices and the private ones. *)
Lemma wp_access_cleanup s (Q : unit → scull_mod → Prop) :
  length (access_devs s) = 4%nat → Forall Scull.wf (access_devs s) → Private.inv (clones s) →
  owned (access_holdings s) s →
  (∀ g ads c, Forall (λ d, live d = 0) ads → Private.c_live c = 0 →
    let s' := set_regs g (set_clones c (set_access_devs ads s)) in owned [] s' → Q tt s') →
  wp C scull_access_cleanup Q s.
Proof.
  intros Hlen Hwf Hi HL HQ. unfold scull_access_cleanup. wp_step.
  apply (wp_cleanup_access [region (scull_a_firstdev s)]); [done|done| |].
  { eapply owned_perm, HL. unfold access_holdings, cdevs. change (Z.to_nat SCULL_N_ADEVS) with 4%nat.
    by rewrite (Permutation_app_comm _ [_]). }
  intros g ads Hads s1 H1. wp_step. apply wp_zoom. wp_step. wp_step.
  apply (wp_free_clones _ _ 0); [apply Hi|cbn; by rewrite (Private.inv_live _ Hi)|].
  intros c Hc. wp_step. wp_step. apply wp_give_back. apply (HQ _ ads c); [done|done|].
  exact (owns_del _ _ _ H1).
Qed.

Lemma wp_scull_cleanup_module s (Q : unit → scull_mod → Prop) :
  ready s → (∀ s', unloaded s' → Q tt s') → wp C scull_cleanup_module Q s.
Proof.
  intros [(ds & Hds & Hlen & Hwf) [Hal Haw] Hi HL] HQ. unfold scull_cleanup_module. do 8 wp_step.
  wp_step. rewrite Hds, <-Hlen.
  set (D := scull_cdev <$> seq 0 (length ds)).
  set (L := region (MKDEV (scull_major s) (scull_minor s)) :: pipe_holdings s ++ access_holdings s).
  wp_step. apply (wp_cleanup_bare ds (devices_block :: L)); [done|done| |].
  { eapply owned_perm, HL. unfold bare_holdings, cdevs, L. rewrite <-Hlen. fold D.
    set (P := pipe_holdings s). set (A := access_holdings s). solve_Permutation. }
  intros g ds' Hds' s1 H1. apply wp_give_back. wp_step. apply wp_give_back. wp_step.
  apply (wp_cleanup_pipes (access_holdings s)).
  { exact (owns_del _ _ _ (owns_del _ _ _ H1)). }
  intros g2 s2 H2. apply wp_access_cleanup; [done..|exact H2|].
  intros g3 ads c Hads Hc s3 H3. apply HQ. split_and!; [exact (owned_nil _ H3)| |done..].
  intros ds2 E. cbn in E. by simplify_eq.
Qed.
End module_rules.

(** ** Properties *)

(** C38: where the array of devices is allocated, and the number region and cdevs of
    the access-controlled devices are registered: loading the module, using its
    devices in any way that keeps them well formed, and unloading it leaves nothing
    behind: every number region, cdev and array is given back once, and every block
    of every bare, access-controlled and private device is freed. The pipes may be
    missing for want of memory or numbers, and a load that is refused its first
    number region kept nothing. (The failures left out give back what was not taken,
    or twice: [scull_init_nomem], [scull_access_noregion],
    [scull_access_double_put].) *)
Theorem scull_module_balanced C n s :
  module_contract C n → fresh_module n s →
  wp C (r ← scull_init_module; if r =? 0 then interfere;; scull_cleanup_module else mret tt)
    (λ _, unloaded) s.
Proof.
  intros HC Hs. wp_step. apply (wp_scull_init_module C n HC); [done|..].
  - intros z s' Hz Hu. rewrite (proj2 (Z.eqb_neq _ _)) by lia. by wp_step.
  - intros s1 H1 _. cbn [Z.eqb]. change (0 =? 0) with true. cbn iota. wp_step. wp_step.
    apply wp_scull_cleanup_module; [|done]. by apply (mod_used _ _ HC _ _ H).
Qed.

Definition module_kernel (n : Z) : contract scull_mod :=
  Contract (λ c z, module_ans c z ∧ (c = kmalloc (n * sizeof_scull_dev) → z ≠ 0)) used False.

Lemma module_kernel_ok n : module_contract (module_kernel n) n.
Proof. split; [by intros c z []| |done]. intros z [_ Hz]. by apply Hz. Qed.

Lemma loaded_fresh major minor n p q m b :
  0 <= minor < 2 ^ 20 → 0 < q → 0 < m → q * m <= INT_MAX →
  fresh_module n (scull_loaded major minor n p q m b).
Proof.
  intros. split; cbn; try done.
  - split; [done|]. intros k d Hk. change (replicate 4 (Scull (ScullDev [] 0 0 0 false) q m b 0) !! k = Some d) in Hk.
    apply lookup_replicate in Hk as [-> _]. split_and!; try done. lia.
  - split; [|done]. split; cbn; try done; constructor.
Qed.

Lemma scull_module_balanced_witness :
  wp (module_kernel 4)
    (r ← scull_init_module; if r =? 0 then interfere;; scull_cleanup_module else mret tt)
    (λ _, unloaded) (scull_loaded 0 0 4 4 SCULL_QUANTUM SCULL_QSET SCULL_P_BUFFER).
Proof.
  apply (scull_module_balanced (module_kernel 4) 4 (scull_loaded 0 0 4 4 SCULL_QUANTUM SCULL_QSET SCULL_P_BUFFER));
    [apply module_kernel_ok|by apply loaded_fresh].
Defined.

(** ** Errors of the code *)

(** [module_init] when one service fails, on a module of one device and one
    pipe: what is complained about. *)
Definition complaints (bad : kcall → bool) : option (list resource) :=
  let answer c (_ : nat) := match c with
    | kmalloc _ => if bad c then 0 else 1
    | kint "dynamic major" => 250
    | kint _ => if bad c then -1 else 0
    | _ => 0 end in
  match run (Oracle answer (λ _ _, 0) (λ _ s, s))
      (r ← scull_init_module; if r =? 0 then scull_cleanup_module else mret tt)
      (scull_loaded 0 0 1 1 4000 1000 4000) with
  | Done (_, s) => Some (bad_frees (regs s))
  | _ => None
  end.

Definition is_kint (what : string) (c : kcall) : bool :=
  match c with kint n => bool_decide (n = what) | _ => false end.

Lemma complaints_none : complaints (λ _, false) = Some [].
Proof. vm_compute. reflexivity. Qed.

(** Without memory for the devices the clean-up deletes four cdevs that were
    never initialised, and a number region that is not the module's. *)
Lemma scull_init_nomem :
  complaints (λ c, match c with kmalloc n => n =? sizeof_scull_dev | _ => false end) =
    Some [region 0; access_cdev 3; access_cdev 2; access_cdev 1; access_cdev 0].
Proof. vm_compute. reflexivity. Qed.

(** So does unloading, when the access-controlled devices got no numbers. *)
Lemma scull_access_noregion :
  complaints (is_kint "register_chrdev_region(sculla)") =
    Some [region 0; access_cdev 3; access_cdev 2; access_cdev 1; access_cdev 0].
Proof. vm_compute. reflexivity. Qed.

(** A device of access.c whose [cdev_add] failed is put twice. *)
Lemma scull_access_double_put :
  complaints (is_kint "cdev_add(access)") =
    Some [access_cdev 3; access_cdev 2; access_cdev 1; access_cdev 0].
Proof. vm_compute. reflexivity. Qed.
