(* ===== verification/KRel.v ===== *)
(** * Two programs side by side

    [rwp C1 C2 m1 s1 m2 s2 Q]: whatever kernels obey the contracts, both
    programs return, and their results and states are related by [Q]. The rules let the two sides go on together, one of them
    alone, or through what was proved of each. *)

From stdpp Require Import base tactics numbers list.
From S2P Require Import Prelude KMonad.
From Stdlib Require Import ZArith Lia.

Section rel.
Context {S1 S2 : Type} (C1 : contract S1) (C2 : contract S2).

Definition rwp {A B} (m1 : K S1 A) (s1 : S1) (m2 : K S2 B) (s2 : S2)
    (Q : A → S1 → B → S2 → Prop) : Prop :=
  ∀ o1 o2 t1 t2, obeys o1 C1 → obeys o2 C2 →
    match m1 o1 (t1, s1), m2 o2 (t2, s2) with
    | Done (a, (_, s1')), Done (b, (_, s2')) => Q a s1' b s2'
    | _, _ => False
    end.

Lemma rwp_ret {A B} (a : A) s1 (b : B) s2 (Q : A → S1 → B → S2 → Prop) :
  Q a s1 b s2 → rwp (mret a) s1 (mret b) s2 Q.
Proof. by intros ? ?. Qed.

Lemma rwp_mono {A B} (m1 : K S1 A) s1 (m2 : K S2 B) s2 (P Q : A → S1 → B → S2 → Prop) :
  rwp m1 s1 m2 s2 P → (∀ a s1' b s2', P a s1' b s2' → Q a s1' b s2') → rwp m1 s1 m2 s2 Q.
Proof.
  intros H HPQ o1 o2 t1 t2 H1 H2. specialize (H o1 o2 t1 t2 H1 H2).
  destruct (m1 o1 (t1, s1)) as [[? []]| |], (m2 o2 (t2, s2)) as [[? []]| |]; auto.
Qed.

(** Together. *)
Lemma rwp_bind {A A' B B'} (m1 : K S1 A) (f1 : A → K S1 A') s1 (m2 : K S2 B) (f2 : B → K S2 B') s2 Q :
  rwp m1 s1 m2 s2 (λ a s1' b s2', rwp (f1 a) s1' (f2 b) s2' Q) →
  rwp (m1 ≫= f1) s1 (m2 ≫= f2) s2 Q.
Proof.
  intros H o1 o2 t1 t2 H1 H2. specialize (H o1 o2 t1 t2 H1 H2). unfold mbind, K_bind.
  destruct (m1 o1 (t1, s1)) as [[a [t1' s1']]| |], (m2 o2 (t2, s2)) as [[b [t2' s2']]| |];
    done || by apply H.
Qed.

(** Each by what is known of it. *)
Lemma rwp_unary {A B} (m1 : K S1 A) s1 (m2 : K S2 B) s2 P1 P2 (Q : A → S1 → B → S2 → Prop) :
  wp C1 m1 P1 s1 → wp C2 m2 P2 s2 → ¬ c_sleep C1 → ¬ c_sleep C2 →
  (∀ a s1' b s2', P1 a s1' → P2 b s2' → Q a s1' b s2') → rwp m1 s1 m2 s2 Q.
Proof.
  intros H1 H2 N1 N2 HQ o1 o2 t1 t2 Ho1 Ho2. specialize (H1 o1 Ho1 t1). specialize (H2 o2 Ho2 t2).
  destruct (m1 o1 (t1, s1)) as [[? []]| |], (m2 o2 (t2, s2)) as [[? []]| |]; done || auto.
Qed.

(** One side alone, through its triple. *)
Lemma rwp_left {A A' B} (m1 : K S1 A) (f1 : A → K S1 A') s1 (m2 : K S2 B) s2 Q :
  ¬ c_sleep C1 → wp C1 m1 (λ a s1', rwp (f1 a) s1' m2 s2 Q) s1 → rwp (m1 ≫= f1) s1 m2 s2 Q.
Proof.
  intros N H o1 o2 t1 t2 Ho1 Ho2. specialize (H o1 Ho1 t1). unfold mbind, K_bind.
  destruct (m1 o1 (t1, s1)) as [[a [t1' s1']]| |]; [by apply H|done|done].
Qed.

Lemma rwp_right {A B B'} (m1 : K S1 A) s1 (m2 : K S2 B) (f2 : B → K S2 B') s2 Q :
  ¬ c_sleep C2 → wp C2 m2 (λ b s2', rwp m1 s1 (f2 b) s2' Q) s2 → rwp m1 s1 (m2 ≫= f2) s2 Q.
Proof.
  intros N H o1 o2 t1 t2 Ho1 Ho2. specialize (H o2 Ho2 t2). unfold mbind, K_bind.
  destruct (m2 o2 (t2, s2)) as [[b [t2' s2']]| |]; [by apply H|done|done].
Qed.

(** What it says of two runs. *)
Lemma rwp_run {A B} (m1 : K S1 A) s1 (m2 : K S2 B) s2 Q o1 o2 :
  rwp m1 s1 m2 s2 Q → obeys o1 C1 → obeys o2 C2 →
  ∃ a s1' b s2', run o1 m1 s1 = Done (a, s1') ∧ run o2 m2 s2 = Done (b, s2') ∧ Q a s1' b s2'.
Proof.
  intros H H1 H2. unfold run. specialize (H o1 o2 0%nat 0%nat H1 H2).
  destruct (m1 o1 (0%nat, s1)) as [[a [t1 s1']]| |], (m2 o2 (0%nat, s2)) as [[b [t2 s2']]| |]; try done.
  by exists a, s1', b, s2'.
Qed.

(** A sequence of calls, with the list of results. *)
Fixpoint calls {S Op R} (handle : Op → K S R) (l : list Op) : K S (list R) :=
  match l with
  | [] => mret []
  | o :: l => r ← handle o; rs ← calls handle l; mret (r :: rs)
  end.

(** Handlers that keep a relation of states give related results all along. *)
Lemma rwp_calls {Op R1 R2} (h1 : Op → K S1 R1) (h2 : Op → K S2 R2) (ok : Op → Prop)
    (I : S1 → S2 → Prop) (V : R1 → R2 → Prop) l s1 s2 :
  (∀ o s1 s2, ok o → I s1 s2 → rwp (h1 o) s1 (h2 o) s2 (λ a s1' b s2', V a b ∧ I s1' s2')) →
  Forall ok l → I s1 s2 →
  rwp (calls h1 l) s1 (calls h2 l) s2 (λ a s1' b s2', Forall2 V a b ∧ I s1' s2').
Proof.
  intros Hh Hl. revert s1 s2. induction Hl as [|o l Ho _ IH]; intros s1 s2 HI.
  { by apply rwp_ret. }
  cbn [calls]. apply rwp_bind. eapply rwp_mono; [by apply Hh|]. intros a s1' b s2' [Hab HI'].
  apply rwp_bind. eapply rwp_mono; [by apply IH|]. intros rs1 s1'' rs2 s2'' [Hrs HI''].
  apply rwp_ret. split; [by constructor|done].
Qed.
End rel.
