(* ===== verification/Scullc.v ===== *)
(** * scullc: scull over a slab cache (src/ldd4/scullc/main.c)

    As scull, but the device itself is the first member of the list, the quanta
    come from a cache of objects of one size, fixed when the module is loaded,
    and a new quantum is cleared. *)

From stdpp Require Import base tactics numbers list.
From S2P Require Import Prelude KMonad Quanta.
From Stdlib Require Import ZArith Lia.

Open Scope Z_scope.

(** ** Data *)

(** [dptr->data] of a member: NULL, or an array of quanta. *)
Abbreviation member := (option (list (option (list cell)))) (only parsing).

(** The device an open file designates, with the globals of the module.
    [members] is the list, the device first; [cache] is the size of the objects
    of [scullc_cache]; [live] counts the blocks held. [vmas] is set by mmap.c
    only, which is not part of the module. *)
Record scullc := Scullc {
  members : list member;
  vmas : Z;
  quantum : Z;
  qset : Z;
  size : Z;
  sem : bool;
  scullc_quantum : Z;
  scullc_qset : Z;
  cache : Z;
  live : Z;
  works : list (nat * Z);
  completed : list (nat * Z)
}.

Definition set_members (v : list member) (x : scullc) : scullc :=
  Scullc v (vmas x) (quantum x) (qset x) (size x) (sem x) (scullc_quantum x) (scullc_qset x)
    (cache x) (live x) (works x) (completed x).
Definition set_quantum (v : Z) (x : scullc) : scullc :=
  Scullc (members x) (vmas x) v (qset x) (size x) (sem x) (scullc_quantum x) (scullc_qset x)
    (cache x) (live x) (works x) (completed x).
Definition set_qset (v : Z) (x : scullc) : scullc :=
  Scullc (members x) (vmas x) (quantum x) v (size x) (sem x) (scullc_quantum x) (scullc_qset x)
    (cache x) (live x) (works x) (completed x).
Definition set_size (v : Z) (x : scullc) : scullc :=
  Scullc (members x) (vmas x) (quantum x) (qset x) v (sem x) (scullc_quantum x) (scullc_qset x)
    (cache x) (live x) (works x) (completed x).
Definition set_sem (v : bool) (x : scullc) : scullc :=
  Scullc (members x) (vmas x) (quantum x) (qset x) (size x) v (scullc_quantum x) (scullc_qset x)
    (cache x) (live x) (works x) (completed x).
Definition set_scullc_quantum (v : Z) (x : scullc) : scullc :=
  Scullc (members x) (vmas x) (quantum x) (qset x) (size x) (sem x) v (scullc_qset x)
    (cache x) (live x) (works x) (completed x).
Definition set_scullc_qset (v : Z) (x : scullc) : scullc :=
  Scullc (members x) (vmas x) (quantum x) (qset x) (size x) (sem x) (scullc_quantum x) v
    (cache x) (live x) (works x) (completed x).
Definition add_live (n : Z) (x : scullc) : scullc :=
  Scullc (members x) (vmas x) (quantum x) (qset x) (size x) (sem x) (scullc_quantum x)
    (scullc_qset x) (cache x) (live x + n) (works x) (completed x).
Definition set_works (v : list (nat * Z)) (x : scullc) : scullc :=
  Scullc (members x) (vmas x) (quantum x) (qset x) (size x) (sem x) (scullc_quantum x)
    (scullc_qset x) (cache x) (live x) v (completed x).
Definition set_completed (v : list (nat * Z)) (x : scullc) : scullc :=
  Scullc (members x) (vmas x) (quantum x) (qset x) (size x) (sem x) (scullc_quantum x)
    (scullc_qset x) (cache x) (live x) (works x) v.

#[export] Instance scullc_lock : HasLock scullc :=
  { lock_of := sem; set_lock := set_sem; lock_set b s := eq_refl }.

Definition SCULLC_QUANTUM : Z := 4000.
Definition SCULLC_QSET : Z := 500.

(** On a 64-bit machine, without lock debugging. *)
Definition sizeof_scullc_dev : Z := 168.
Definition sizeof_async_work : Z := 104.
Definition sizeof_ptr : Z := 8.

(** ** Trimming *)

(** [for (i = 0; i < qset; i++) if (dptr->data[i]) kmem_cache_free(...);] *)
Fixpoint free_objects (n i : nat) (arr : list (option (list cell))) : K scullc unit :=
  match n with
  | O => mret tt
  | S n' =>
      q ← deref OutOfBounds (arr !! i);
      (match q with Some _ => modify (add_live (-1)) | None => mret tt end);;
      free_objects n' (S i) arr
  end.

(** The loop over the list; only the first member is not [kfree]d. *)
Fixpoint free_members (qset : Z) (first : bool) (l : list member) : K scullc unit :=
  match l with
  | [] => mret tt
  | it :: next =>
      (match it with
       | Some arr => free_objects (Z.to_nat qset) 0 arr;; modify (add_live (-1))
       | None => mret tt
       end);;
      (if first then mret tt else modify (add_live (-1)));;
      free_members qset false next
  end.

Definition scullc_trim : K scullc Z :=
  n ← gets qset;
  v ← gets vmas;
  if c_bool v then mret (- EBUSY) else
  l ← gets members;
  free_members n true l;;
  modify (set_size 0);;
  modify (λ s, set_qset (scullc_qset s) s);;
  modify (λ s, set_quantum (scullc_quantum s) s);;
  modify (set_members [None]);;
  mret 0.

(** ** Open and release *)

Definition scullc_open (f_flags : Z) : K scullc Z :=
  if Z.land f_flags O_ACCMODE =? O_WRONLY then
    ok ← lock_interruptible;
    if ok : bool then scullc_trim;; unlock;; mret 0
    else mret (- ERESTARTSYS)
  else mret 0.

Definition scullc_release : K scullc Z := mret 0.

(** ** Following the list *)

(** [dev->next = kmalloc(...); memset(dev->next, 0, ...)]: the result of
    [kmalloc] is not looked at. *)
Definition append_member : K scullc unit :=
  z ← call (kmalloc sizeof_scullc_dev);
  if z =? 0 then oops NullDeref else
  modify (add_live 1);;
  modify (λ s, set_members (members s ++ [None]) s).

Fixpoint follow_loop (n i : nat) : K scullc nat :=
  match n with
  | O => mret i
  | S n' =>
      l ← gets members;
      (if bool_decide (S i < length l)%nat then mret tt else append_member);;
      follow_loop n' (S i)
  end.

Definition scullc_follow (n : Z) : K scullc nat := follow_loop (Z.to_nat (u32 n)) 0.

(** ** Read and write *)

(** [n] bytes at offset [q_pos] of an object. *)
Definition object_bytes (q_pos n : Z) (b : list cell) : K scullc (list cell) :=
  if bool_decide (0 <= q_pos ∧ 0 <= n ∧ q_pos + n <= lenZ b) then mret (slice q_pos n b)
  else oops OutOfBounds.

Definition scullc_read (count f_pos : Z) : K scullc xfer :=
  quantum ← gets quantum;
  qset ← gets qset;
  let itemsize := s32 (quantum * qset) in
  ok ← lock_interruptible;
  if negb ok then mret (Xfer (- ERESTARTSYS) [] f_pos) else
  size ← gets size;
  if u64 f_pos >? size then unlock;; mret (Xfer 0 [] f_pos) else
  let count := if u64 (f_pos + count) >? size then u64 (size - f_pos) else count in
  '(item, s_pos, q_pos) ← find_slot quantum itemsize f_pos;
  i ← scullc_follow item;
  it ← gets members ≫= λ l, deref NullDeref (l !! i);
  match it with
  | None => unlock;; mret (Xfer 0 [] f_pos)
  | Some arr =>
      q ← deref OutOfBounds (lookupZ arr s_pos);
      match q with
      | None => unlock;; mret (Xfer 0 [] f_pos)
      | Some b =>
          let count := if count >? u64 (quantum - q_pos) then quantum - q_pos else count in
          src ← object_bytes q_pos count b;
          '(bytes, ok) ← copy_to_user src;
          if negb ok then unlock;; mret (Xfer (- EFAULT) bytes f_pos)
          else unlock;; mret (Xfer count bytes (s64 (f_pos + count)))
      end
  end.

(** [dptr->data = p], [dptr->data[s_pos] = p] for the member of index [i]. *)
Definition set_array (i : nat) (arr : list (option (list cell))) (s : scullc) : scullc :=
  set_members (<[i := Some arr]> (members s)) s.
Definition set_object (i : nat) (s_pos : Z) (b : list cell) (s : scullc) : scullc :=
  set_members (alter (fmap (λ arr, <[Z.to_nat s_pos := Some b]> arr)) i (members s)) s.

(** [if (!dptr->data) { dptr->data = kmalloc(...); memset(...) }] *)
Definition ensure_array (i : nat) (qset : Z) : K scullc (option (list (option (list cell)))) :=
  it ← gets members ≫= λ l, deref NullDeref (l !! i);
  match it with
  | Some arr => mret (Some arr)
  | None =>
      z ← call (kmalloc (qset * sizeof_ptr));
      if z =? 0 then mret None else
      modify (add_live 1);;
      modify (set_array i (replicate (Z.to_nat qset) None));;
      mret (Some (replicate (Z.to_nat qset) None))
  end.

(** [memset(p, 0, n)] on an object. *)
Definition clear_object (n : Z) (b : list cell) : K scullc (list cell) :=
  if bool_decide (0 <= n <= lenZ b) then mret (store 0 (zeroed n) b) else oops OutOfBounds.

(** [if (!dptr->data[s_pos]) { dptr->data[s_pos] = kmem_cache_alloc(...);
    ... memset(dptr->data[s_pos], 0, scullc_quantum); }]: what is cleared is
    the tunable's length, not that of the object. *)
Definition ensure_object (i : nat) (arr : list (option (list cell))) (s_pos : Z) :
    K scullc (option (list cell)) :=
  q ← deref OutOfBounds (lookupZ arr s_pos);
  match q with
  | Some b => mret (Some b)
  | None =>
      n ← gets cache;
      z ← call (kmalloc n);
      if z =? 0 then mret None else
      modify (add_live 1);;
      k ← gets scullc_quantum;
      b ← clear_object k (uninit n);
      modify (set_object i s_pos b);;
      mret (Some b)
  end.

(** [buf] is the user's buffer, of [count] bytes. *)
Definition scullc_write (buf : list Z) (f_pos : Z) : K scullc xfer :=
  quantum ← gets quantum;
  qset ← gets qset;
  let itemsize := s32 (quantum * qset) in
  ok ← lock_interruptible;
  if negb ok then mret (Xfer (- ERESTARTSYS) [] f_pos) else
  '(item, s_pos, q_pos) ← find_slot quantum itemsize f_pos;
  i ← scullc_follow item;
  arr ← ensure_array i qset;
  match arr with
  | None => unlock;; mret (Xfer (- ENOMEM) [] f_pos)
  | Some arr =>
      b ← ensure_object i arr s_pos;
      match b with
      | None => unlock;; mret (Xfer (- ENOMEM) [] f_pos)
      | Some b =>
          let count := lenZ buf in
          let count := if count >? u64 (quantum - q_pos) then quantum - q_pos else count in
          object_bytes q_pos count b;;
          '(bytes, ok) ← copy_from_user (take (Z.to_nat count) buf);
          modify (set_object i s_pos (store q_pos bytes b));;
          if negb ok then unlock;; mret (Xfer (- EFAULT) [] f_pos) else
          let f_pos := s64 (f_pos + count) in
          modify (λ s, if size s <? u64 f_pos then set_size (u64 f_pos) s else s);;
          unlock;; mret (Xfer count [] f_pos)
      end
  end.

(** ** Ioctl *)

Definition SCULLC_IOC_MAGIC : Z := 75.   (* 'K' *)
Definition SCULLC_IOC_MAXNR : Z := 12.
Definition SCULLC_IOCRESET := _IO SCULLC_IOC_MAGIC 0.
Definition SCULLC_IOCSQUANTUM := _IOW SCULLC_IOC_MAGIC 1 4.
Definition SCULLC_IOCTQUANTUM := _IO SCULLC_IOC_MAGIC 2.
Definition SCULLC_IOCGQUANTUM := _IOR SCULLC_IOC_MAGIC 3 4.
Definition SCULLC_IOCQQUANTUM := _IO SCULLC_IOC_MAGIC 4.
Definition SCULLC_IOCXQUANTUM := _IOWR SCULLC_IOC_MAGIC 5 4.
Definition SCULLC_IOCHQUANTUM := _IO SCULLC_IOC_MAGIC 6.
Definition SCULLC_IOCSQSET := _IOW SCULLC_IOC_MAGIC 7 4.
Definition SCULLC_IOCTQSET := _IO SCULLC_IOC_MAGIC 8.
Definition SCULLC_IOCGQSET := _IOR SCULLC_IOC_MAGIC 9 4.
Definition SCULLC_IOCQQSET := _IO SCULLC_IOC_MAGIC 10.
Definition SCULLC_IOCXQSET := _IOWR SCULLC_IOC_MAGIC 11 4.
Definition SCULLC_IOCHQSET := _IO SCULLC_IOC_MAGIC 12.

(** No command asks for a capability. *)
Definition scullc_ioctl (cmd arg : Z) : K scullc ioctl_result :=
  if negb (_IOC_TYPE cmd =? SCULLC_IOC_MAGIC) then mret (- ENOTTY, None) else
  if _IOC_NR cmd >? SCULLC_IOC_MAXNR then mret (- ENOTTY, None) else
  ok ← (if c_bool (Z.land (_IOC_DIR cmd) _IOC_READ) then call access_ok
        else if c_bool (Z.land (_IOC_DIR cmd) _IOC_WRITE) then call access_ok
        else mret 1);
  if ok =? 0 then mret (- EFAULT, None) else
  if cmd =? SCULLC_IOCRESET then
    modify (set_scullc_qset SCULLC_QSET);;
    modify (set_scullc_quantum SCULLC_QUANTUM);;
    mret (0, None)
  else if cmd =? SCULLC_IOCSQUANTUM then ioctl_S set_scullc_quantum
  else if cmd =? SCULLC_IOCTQUANTUM then ioctl_T set_scullc_quantum arg
  else if cmd =? SCULLC_IOCGQUANTUM then ioctl_G scullc_quantum
  else if cmd =? SCULLC_IOCQQUANTUM then ioctl_Q scullc_quantum
  else if cmd =? SCULLC_IOCXQUANTUM then ioctl_X scullc_quantum set_scullc_quantum
  else if cmd =? SCULLC_IOCHQUANTUM then ioctl_H scullc_quantum set_scullc_quantum arg
  else if cmd =? SCULLC_IOCSQSET then ioctl_S set_scullc_qset
  else if cmd =? SCULLC_IOCTQSET then ioctl_T set_scullc_qset arg
  else if cmd =? SCULLC_IOCGQSET then ioctl_G scullc_qset
  else if cmd =? SCULLC_IOCQQSET then ioctl_Q scullc_qset
  else if cmd =? SCULLC_IOCXQSET then ioctl_X scullc_qset set_scullc_qset
  else if cmd =? SCULLC_IOCHQSET then ioctl_H scullc_qset set_scullc_qset arg
  else mret (- ENOTTY, None).

(** ** Seek *)

(** The value of the call and the new [filp->f_pos]. *)
Definition scullc_llseek (off whence f_pos : Z) : K scullc (Z * Z) :=
  size ← gets size;
  let seek newpos := if newpos <? 0 then mret (- EINVAL, f_pos) else mret (newpos, newpos) in
  match whence with
  | 0 => seek off
  | 1 => seek (s64 (f_pos + off))
  | 2 => seek (s64 (size + off))
  | _ => mret (- EINVAL, f_pos)
  end.

(** ** Asynchronous I/O *)

(** [aio_complete] and [kfree] of the work item, when its time has come. *)
Definition scullc_do_deferred_op : K scullc unit :=
  l ← gets works;
  match l with
  | [] => mret tt
  | w :: rest =>
      modify (set_works rest);;
      modify (λ s, set_completed (w :: completed s) s);;
      modify (add_live (-1))
  end.

(** One segment: the buffer of a write, or as many bytes of room for a read. *)
Definition transfer (write : bool) (iov : list Z) (pos : Z) : K scullc xfer :=
  if write then scullc_write iov pos else scullc_read (lenZ iov) pos.

(** The loop over the segments. [count] is a [size_t]: it is never negative. *)
Fixpoint segments (write : bool) (iovec : list (list Z)) (pos result : Z) : K scullc (Z + Z) :=
  match iovec with
  | [] => mret (inr result)
  | iov :: rest =>
      x ← transfer write iov pos;
      let count := u64 (retval x) in
      if count <? 0 then mret (inl count)
      else segments write rest (Quanta.pos x) (u64 (result + count))
  end.

(** The function answers a [size_t], its callers hand it on as an [ssize_t]. *)
Definition scullc_defer_op (write is_sync : bool) (iocb : nat) (iovec : list (list Z)) (pos : Z) :
    K scullc Z :=
  r ← segments write iovec pos 0;
  match r with
  | inl err => mret (s64 err)
  | inr result =>
      if is_sync then mret (s64 result) else
      z ← call (kmalloc sizeof_async_work);
      if z =? 0 then mret (s64 result) else
      modify (add_live 1);;
      modify (λ s, set_works (works s ++ [(iocb, s32 result)]) s);;
      mret (- EIOCBQUEUED)
  end.

Definition scullc_aio_read := scullc_defer_op false.
Definition scullc_aio_write := scullc_defer_op true.

(** ** Loading *)

(** A device as [scullc_init] leaves it: the cache is made for the quantum of
    that moment. *)
Definition scullc_init_dev (quantum qset : Z) : scullc :=
  Scullc [None] 0 quantum qset 0 false quantum qset quantum 0 [] [].
