(* ===== verification/ScullcSpec.v ===== *)
(** * scullc does what scull does

    The two drivers side by side, on the same calls: with memory and without
    signals every call gives the same result, except that bytes nobody wrote
    are zero in scullc. Then where scullc goes wrong: when the tunable quantum
    is not the size of the objects of the cache. *)

From stdpp Require Import base tactics numbers list.
From S2P Require Import Prelude KMonad Quanta Scull ScullSpec KRel Scullc.
From Stdlib Require Import ZArith Lia.

Open Scope Z_scope.

(** ** The relation of the devices *)

(** What scullc has where scull has [c], in a block and in an array. *)
Definition fill (c : cell) : cell := Some (default 0 c).
Definition fill_block (b : list cell) : list cell := fill <$> b.
Definition fill_array (arr : list (option (list cell))) : list (option (list cell)) :=
  (λ q : option (list cell), fill_block <$> q) <$> arr.

(** Same geometry, same size, the same blocks; scullc may have more members
    without an array. The tunable is the size of the cache's objects. *)
Record as_scull (s1 : scull) (s2 : scullc) : Prop := {
  as_wf : Scull.wf s1;
  as_sem : Scull.mutex (dev s1) = sem s2;
  as_quantum : Scull.quantum (dev s1) = quantum s2;
  as_qset : Scull.qset (dev s1) = qset s2;
  as_size : Scull.size (dev s1) = size s2;
  as_tunables : scull_quantum s1 = scullc_quantum s2 ∧ scull_qset s1 = scullc_qset s2;
  as_cache : quantum s2 = cache s2 ∧ scullc_quantum s2 = cache s2;
  as_vmas : vmas s2 = 0;
  as_members : members s2 ≠ [];
  as_arrays : ∀ i, mjoin (members s2 !! i) = fill_array <$> mjoin (data (dev s1) !! i);
  as_live : live s2 = footprint (members s2) - 1
}.

Lemma as_scull_sem b s1 s2 : as_scull s1 s2 → as_scull (set_mutex b s1) (set_sem b s2).
Proof. intros []. split; try done. by apply set_mutex_wf. Qed.

Lemma as_scull_size n s1 s2 :
  0 <= n <= LONG_MAX → as_scull s1 s2 → as_scull (Scull.set_size n s1) (set_size n s2).
Proof. intros ? []. split; try done. by apply set_size_wf. Qed.

(** Members without an array do not count. *)
Lemma join_extend {A} k (l : list (option A)) i : mjoin ((l ++ replicate k None) !! i) = mjoin (l !! i).
Proof.
  destruct (decide (i < length l)%nat).
  - by rewrite lookup_app_l.
  - rewrite lookup_app_r by lia. rewrite (lookup_ge_None_2 l i) by lia.
    destruct (replicate k None !! _) as [x|] eqn:E; [|done]. by apply lookup_replicate in E as [-> _].
Qed.

Definition extendc (k : nat) (s : scullc) : scullc :=
  add_live (Z.of_nat k) (set_members (members s ++ replicate k None) s).

Lemma as_scull_extend k1 k2 s1 s2 : as_scull s1 s2 → as_scull (extend k1 s1) (extendc k2 s2).
Proof.
  intros []. split; try done.
  - by apply extend_wf.
  - cbn. intros [? _]%app_eq_nil. done.
  - intros i. cbn. rewrite !join_extend. apply as_arrays0.
  - cbn. rewrite footprint_app, footprint_replicate. lia.
Qed.

(** ** The pieces of a transfer *)

(** One command of either side. *)
Ltac lstep := apply rwp_left; [by intros []|]; wp_step.
Ltac rstep := apply rwp_right; [by intros []|]; wp_step.

(** Memory is there. *)
Ltac granted :=
  match goal with
  | H : c_ans (quiet _) (kmalloc _) ?z |- _ =>
      let Hz := fresh in destruct H as [_ Hz]; rewrite (proj2 (Z.eqb_neq z 0)) by done
  end.

Lemma extendc_0 s : extendc 0 s = s.
Proof. destruct s. unfold extendc, add_live, set_members; cbn. rewrite app_nil_r. f_equal. lia. Qed.

Lemma extendc_S k s : extendc k (extendc 1 s) = extendc (S k) s.
Proof.
  destruct s. unfold extendc, add_live, set_members; cbn. rewrite <-app_assoc. f_equal. lia.
Qed.

Lemma wp_scullc_follow_loop n i s :
  (i < length (members s))%nat →
  wp (quiet scullc) (Scullc.follow_loop n i) (λ r s',
    r = (i + n)%nat ∧ (i + n < length (members s'))%nat ∧ ∃ k, s' = extendc k s) s.
Proof.
  revert i s; induction n as [|n IH]; intros i s Hi; cbn [Scullc.follow_loop].
  { wp_step. rewrite Nat.add_0_r. split_and!; [done..|]. exists 0%nat. by rewrite extendc_0. }
  replace (i + S n)%nat with (S i + n)%nat by lia. wp_step. wp_step. wp_step. case_bool_decide.
  - wp_step. by apply IH.
  - unfold append_member. wp_step. wp_step. destruct H0 as [_ Hz].
    rewrite (proj2 (Z.eqb_neq z 0)) by done. do 3 wp_step.
    change (wp (quiet scullc) (Scullc.follow_loop n (S i)) (λ r s', r = (S i + n)%nat ∧
      (S i + n < length (members s'))%nat ∧ ∃ k, s' = extendc k s) (extendc 1 s)).
    eapply wp_mono; [apply IH; cbn; rewrite length_app; cbn; lia|].
    intros r s' (-> & Hlt & k & ->). split_and!; [done..|]. exists (S k). apply extendc_S.
Qed.

Lemma wp_scullc_follow n s :
  members s ≠ [] →
  wp (quiet scullc) (scullc_follow n) (λ r s', r = Z.to_nat (u32 n) ∧
    (Z.to_nat (u32 n) < length (members s'))%nat ∧ ∃ k, s' = extendc k s) s.
Proof. intros. unfold scullc_follow. apply wp_scullc_follow_loop. destruct (members s); [done|cbn; lia]. Qed.

(** Both lists reach the member; what the indices designate is related. *)
Lemma rwp_follow n1 n2 s1 s2 Q :
  as_scull s1 s2 → u32 n1 = u32 n2 →
  (∀ s1' s2', as_scull s1' s2' → Scull.quantum (dev s1') = Scull.quantum (dev s1) →
    Scull.qset (dev s1') = Scull.qset (dev s1) → Scull.size (dev s1') = Scull.size (dev s1) →
    Scull.mutex (dev s1') = Scull.mutex (dev s1) →
    let i := Z.to_nat (u32 n1) in
    is_Some (data (dev s1') !! i) → is_Some (members s2' !! i) → Q (Some i) s1' i s2') →
  rwp (quiet scull) (quiet scullc) (scull_follow n1) s1 (scullc_follow n2) s2 Q.
Proof.
  intros Has Hn HQ. eapply rwp_unary; [apply wp_follow| |by intros []..|].
  - apply wp_scullc_follow, (as_members _ _ Has).
  - intros r s1' i s2' (k1 & -> & Hr) (-> & Hlt & k2 & ->).
    destruct r as [i|]; [|by destruct Hr as (z & [_ Hz] & ?)]. destruct Hr as [-> Hi].
    rewrite <-Hn in Hlt |- *. apply HQ; [by apply as_scull_extend|done..| |];
      by apply lookup_lt_is_Some.
Qed.

Lemma fill_array_replicate n : fill_array (replicate n None) = replicate n None.
Proof. unfold fill_array. by rewrite fmap_replicate. Qed.

(** The array of a member, new on both sides or there on both sides, or there
    on neither. *)
Lemma as_scull_array i arr s1 s2 :
  as_scull s1 s2 → data (dev s1) !! i = Some arr → is_Some (members s2 !! i) →
  members s2 !! i = Some (fill_array <$> arr).
Proof.
  intros Has Hi [m Hm]. pose proof (as_arrays _ _ Has i) as H. rewrite Hi, Hm in H. cbn in H.
  by rewrite Hm, H.
Qed.

Lemma as_scull_set_array i n s1 s2 :
  as_scull s1 s2 → data (dev s1) !! i = Some None → members s2 !! i = Some None →
  n = Scull.qset (dev s1) →
  as_scull (Scull.set_array i (replicate (Z.to_nat n) None) (Scull.add_live 1 s1))
    (set_array i (replicate (Z.to_nat n) None) (add_live 1 s2)).
Proof.
  intros Has Hi Hm ->. pose proof (set_array_grown i s1 Hi (wf_qset _ (wf_dev_of _ (as_wf _ _ Has)))) as Hg.
  destruct Has. split; try done.
  - by apply Hg.
  - cbn. intros H. apply (f_equal length) in H. rewrite length_insert in H.
    by destruct (members s2).
  - intros k. cbn. destruct (decide (i = k)) as [->|].
    + rewrite !list_lookup_insert_eq by eauto using lookup_lt_Some. cbn.
      by rewrite fill_array_replicate.
    + by rewrite !list_lookup_insert_ne.
  - cbn. rewrite (footprint_insert _ _ None) by done. cbn. rewrite blocks_in_replicate. lia.
Qed.

Lemma rwp_ensure_array i n s1 s2 Q :
  as_scull s1 s2 → is_Some (data (dev s1) !! i) → is_Some (members s2 !! i) →
  n = Scull.qset (dev s1) →
  (∀ s1' s2' arr, as_scull s1' s2' → Scull.quantum (dev s1') = Scull.quantum (dev s1) →
    Scull.qset (dev s1') = Scull.qset (dev s1) → Scull.size (dev s1') = Scull.size (dev s1) →
    Scull.mutex (dev s1') = Scull.mutex (dev s1) →
    data (dev s1') !! i = Some (Some arr) → members s2' !! i = Some (Some (fill_array arr)) →
    Q (Some arr) s1' (Some (fill_array arr)) s2') →
  rwp (quiet scull) (quiet scullc) (Scull.ensure_array i n) s1 (ensure_array i n) s2 Q.
Proof.
  intros Has [arr Hi] Hm Hn HQ. pose proof (as_scull_array i arr s1 s2 Has Hi Hm) as Hm'.
  unfold Scull.ensure_array, ensure_array, alloc.
  lstep. wp_step. apply (wp_deref _ _ _ _ _ arr); [done|].
  rstep. wp_step. apply (wp_deref _ _ _ _ _ (fill_array <$> arr)); [done|].
  destruct arr as [arr|]; cbn [fmap option_fmap option_map].
  { apply rwp_ret. by apply HQ. }
  lstep. wp_step. granted. do 3 wp_step. rstep. granted. lstep. rstep. rstep.
  apply rwp_ret. specialize (λ s1' s2', HQ s1' s2' (replicate (Z.to_nat n) None)) as HQ'.
  setoid_rewrite fill_array_replicate in HQ'. apply HQ'; try done.
  - by apply as_scull_set_array.
  - cbn. by rewrite list_lookup_insert_eq by eauto using lookup_lt_Some.
  - cbn. by rewrite list_lookup_insert_eq by eauto using lookup_lt_Some.
Qed.

(** ** Blocks *)

Lemma fill_array_lookup arr j : fill_array arr !! j = (λ q : option (list cell), fill_block <$> q) <$> arr !! j.
Proof. unfold fill_array. by rewrite list_lookup_fmap. Qed.

Lemma fill_slice k n b : fill_block (slice k n b) = slice k n (fill_block b).
Proof. unfold fill_block, slice. by rewrite fmap_take, fmap_drop. Qed.

Lemma fill_bytes (l : list Z) : fill_block (Some <$> l) = Some <$> l.
Proof. unfold fill_block. rewrite <-list_fmap_compose. by apply list_fmap_ext. Qed.

Lemma fill_uninit n : fill_block (uninit n) = zeroed n.
Proof. unfold fill_block, uninit, zeroed. by rewrite fmap_replicate. Qed.

Lemma fill_store k bytes b : fill_block (store k bytes b) = store k (fill_block bytes) (fill_block b).
Proof.
  unfold fill_block, store. generalize (Z.to_nat k); intros i. revert i.
  induction bytes as [|c bytes IH]; intros i; cbn; [done|].
  by rewrite <-IH, list_fmap_insert.
Qed.

(** Storing a whole block in a slot, empty or not. *)
Lemma as_scull_set_block i j b arr q s1 s2 :
  as_scull s1 s2 → data (dev s1) !! i = Some (Some arr) →
  members s2 !! i = Some (Some (fill_array arr)) →
  0 <= j → arr !! Z.to_nat j = Some q → lenZ b = Scull.quantum (dev s1) →
  as_scull (set_block i j b (Scull.add_live (1 - blocks_of q) s1))
    (set_object i j (fill_block b) (add_live (1 - blocks_of q) s2)).
Proof.
  intros [] Hi Hm Hj Hq Hb. pose proof (lookup_lt_Some _ _ _ Hq). split; try done.
  - eapply (wf_add_live s1 _ (1 - blocks_of q)); try done.
    + by apply (set_block_wf_dev _ _ _ _ arr); [apply as_wf0|done|lia|].
    + change (dev (set_block ?i ?j ?b (Scull.add_live _ ?s))) with (dev (set_block i j b s)).
      rewrite (footprint_set_block _ _ _ _ arr q) by done. lia.
  - cbn. intros E. apply (f_equal length) in E. rewrite length_alter in E. by destruct (members s2).
  - intros k. cbn. destruct (decide (i = k)) as [->|].
    + rewrite !list_lookup_alter_eq, Hi, Hm. cbn. unfold fill_array. by rewrite list_fmap_insert.
    + by rewrite !list_lookup_alter_ne.
  - cbn. rewrite (alter_insert_eq _ _ _ _ Hm), (footprint_insert _ _ (Some (fill_array arr))) by done.
    cbn. rewrite (blocks_in_insert _ _ (fill_block <$> q)) by (by rewrite fill_array_lookup, Hq).
    rewrite as_live0. destruct q; cbn; lia.
Qed.

Lemma add_live_0 s : add_live 0 s = s.
Proof. destruct s. unfold add_live; cbn. f_equal. lia. Qed.
Lemma scull_add_live_0 s : Scull.add_live 0 s = s.
Proof. destruct s. unfold Scull.add_live; cbn. f_equal. lia. Qed.

(** The block of a slot, new on both sides or there on both sides: scull's as
    the allocator left it, scullc's cleared. *)
Lemma rwp_ensure_object i j q arr s1 s2 Q :
  as_scull s1 s2 → data (dev s1) !! i = Some (Some arr) →
  members s2 !! i = Some (Some (fill_array arr)) → 0 <= j < Scull.qset (dev s1) →
  q = Scull.quantum (dev s1) →
  (∀ s1' s2' arr b, as_scull s1' s2' → Scull.quantum (dev s1') = Scull.quantum (dev s1) →
    Scull.qset (dev s1') = Scull.qset (dev s1) → Scull.size (dev s1') = Scull.size (dev s1) →
    Scull.mutex (dev s1') = Scull.mutex (dev s1) →
    data (dev s1') !! i = Some (Some arr) → members s2' !! i = Some (Some (fill_array arr)) →
    arr !! Z.to_nat j = Some (Some b) → lenZ b = q → Q (Some b) s1' (Some (fill_block b)) s2') →
  rwp (quiet scull) (quiet scullc) (ensure_block i arr j q) s1
    (ensure_object i (fill_array arr) j) s2 Q.
Proof.
  intros Has Hi Hm Hj -> HQ. pose proof (wf_dev_of _ (as_wf _ _ Has)) as Hd.
  destruct (Forall_lookup_1 _ _ _ _ (wf_data _ Hd) Hi) as [Hlen Harr].
  destruct (proj2 (lookupZ_is_Some arr j)) as [b Hb]; [lia|]. pose proof Hb as [_ Hb']%lookupZ_Some.
  unfold ensure_block, ensure_object, alloc.
  apply rwp_left; [by intros []|]. apply (wp_deref _ _ _ _ _ b); [done|].
  apply rwp_right; [by intros []|]. apply (wp_deref _ _ _ _ _ (fill_block <$> b)).
  { apply lookupZ_Some. split; [lia|]. by rewrite fill_array_lookup, Hb'. }
  destruct b as [b|]; cbn [fmap option_fmap option_map].
  { apply rwp_ret. eapply HQ; try done. exact (Forall_lookup_1 _ _ _ _ Harr Hb'). }
  lstep. wp_step. granted. do 3 wp_step. rstep. rstep. granted. rstep. rstep.
  destruct (as_cache _ _ Has) as [Hc1 Hc2]. pose proof (as_quantum _ _ Has) as Hq.
  pose proof (wf_quantum _ Hd). cbn [scullc_quantum add_live].
  apply rwp_right; [by intros []|]. unfold clear_object.
  rewrite bool_decide_true by (rewrite length_uninit; lia). wp_step.
  rewrite store_full by (unfold zeroed, uninit; rewrite !length_replicate; congruence).
  replace (zeroed (scullc_quantum s2)) with (fill_block (uninit (Scull.quantum (dev s1))))
    by (rewrite fill_uninit; f_equal; congruence).
  lstep. rstep. apply rwp_ret.
  pose proof (as_scull_set_block i j (uninit (Scull.quantum (dev s1))) arr None s1 s2 Has Hi Hm
    ltac:(lia) Hb' ltac:(rewrite length_uninit; lia)) as Has'. cbn [blocks_of] in Has'.
  change (1 - 0) with 1 in Has'.
  eapply (HQ _ _ (<[Z.to_nat j:=Some (uninit (Scull.quantum (dev s1)))]> arr)); try done.
  - cbn. by rewrite list_lookup_alter_eq, Hi.
  - cbn. rewrite list_lookup_alter_eq, Hm. cbn. unfold fill_array. by rewrite list_fmap_insert.
  - apply list_lookup_insert_eq. lia.
  - rewrite length_uninit; lia.
Qed.

(** ** The calls *)

(** The same value and position; the bytes handed out are the same, but for
    those nobody wrote. *)
Definition same_xfer (x1 x2 : xfer) : Prop :=
  retval x2 = retval x1 ∧ pos x2 = pos x1 ∧ out x2 = fill_block (out x1).

(** The devices between two calls. *)
Definition alike (s1 : scull) (s2 : scullc) : Prop := as_scull s1 s2 ∧ Scull.mutex (dev s1) = false.

Definition both (x1 : xfer) (s1 : scull) (x2 : xfer) (s2 : scullc) : Prop :=
  same_xfer x1 x2 ∧ alike s1 s2.

Lemma rwp_enter {A B} s1 s2 (f1 : bool → K scull A) (f2 : bool → K scullc B) Q :
  alike s1 s2 →
  (as_scull (set_mutex true s1) (set_sem true s2) →
   rwp (quiet scull) (quiet scullc) (f1 true) (set_mutex true s1) (f2 true) (set_sem true s2) Q) →
  rwp (quiet scull) (quiet scullc) (lock_interruptible ≫= f1) s1 (lock_interruptible ≫= f2) s2 Q.
Proof.
  intros [Has Hm] H. pose proof (as_sem _ _ Has).
  apply rwp_left; [by intros []|]. apply wp_lock_interruptible_quiet; [done|].
  apply rwp_right; [by intros []|]. apply wp_lock_interruptible_quiet; [cbn; congruence|].
  by apply H, as_scull_sem.
Qed.

Lemma rwp_exit s1 s2 r1 r2 :
  as_scull s1 s2 → Scull.mutex (dev s1) = true → same_xfer r1 r2 →
  rwp (quiet scull) (quiet scullc) (unlock;; mret r1) s1 (unlock;; mret r2) s2 both.
Proof.
  intros Has Hm Hr. pose proof (as_sem _ _ Has).
  apply rwp_left; [by intros []|]. apply wp_unlock; [done|].
  apply rwp_right; [by intros []|]. apply wp_unlock; [cbn; congruence|].
  apply rwp_ret. split; [done|]. split; [by apply as_scull_sem|done].
Qed.

Lemma wp_object_bytes C k n b s (Q : _ → scullc → Prop) :
  0 <= k → 0 <= n → k + n <= lenZ b → Q (slice k n b) s → wp C (object_bytes k n b) Q s.
Proof. intros. unfold object_bytes. rewrite bool_decide_true by lia. by wp_step. Qed.

Lemma wp_copy_from_user_quiet {S} (src : list Z) (Q : _ → S → Prop) s :
  Q (Some <$> src, true) s → wp (quiet S) (copy_from_user src) Q s.
Proof.
  intros HQ. apply wp_copy_from_user; [by intros z [? _]|done|by intros z l [_ ?] ?].
Qed.

Lemma wp_copy_to_user_quiet {S} (src : list cell) (Q : _ → S → Prop) s :
  Q (src, true) s → wp (quiet S) (copy_to_user src) Q s.
Proof.
  intros HQ. apply wp_copy_to_user. intros z [_ ->]. rewrite Nat.sub_0_r, take_ge by lia. done.
Qed.

Lemma set_size_ge n s1 s2 :
  (if Scull.size (dev s1) <? n then Scull.set_size n s1 else s1) =
    Scull.set_size (Z.max (Scull.size (dev s1)) n) s1 ∧
  (if size s2 <? n then set_size n s2 else s2) = set_size (Z.max (size s2) n) s2.
Proof.
  split; [apply update_size|]. case_match; zbool; [by rewrite Z.max_r by lia|].
  rewrite Z.max_l by lia. by destruct s2.
Qed.

(** Where the transfer starts, the same on both sides. *)
Lemma rwp_find_slot {A B} q n f_pos (f1 : Z * Z * Z → K scull A) (f2 : Z * Z * Z → K scullc B) s1 s2 Q :
  0 < q → 0 < n → q * n <= INT_MAX → 0 <= f_pos <= LONG_MAX →
  (∀ item1 item2 j k, u32 item1 = u32 item2 → 0 <= j < n → 0 <= k < q →
    rwp (quiet scull) (quiet scullc) (f1 (item1, j, k)) s1 (f2 (item2, j, k)) s2 Q) →
  rwp (quiet scull) (quiet scullc) (find_slot q (s32 (q * n)) f_pos ≫= f1) s1
    (find_slot q (s32 (q * n)) f_pos ≫= f2) s2 Q.
Proof.
  intros Hq Hn Hi Hp H. destruct (slot_bounds _ _ f_pos Hq Hn).
  apply rwp_left; [by intros []|]. apply wp_find_slot_at; [done..|]. intros item1 Hitem1.
  apply rwp_right; [by intros []|]. apply wp_find_slot_at; [done..|]. intros item2 Hitem2.
  apply H; [congruence|done|done].
Qed.

(** Storing the bytes in the block, and the new size. *)
Lemma rwp_store i j k src b arr m r t1 t2 :
  as_scull t1 t2 → Scull.mutex (dev t1) = true → data (dev t1) !! i = Some (Some arr) →
  members t2 !! i = Some (Some (fill_array arr)) → 0 <= j →
  arr !! Z.to_nat j = Some (Some b) → lenZ b = Scull.quantum (dev t1) → 0 <= m <= LONG_MAX →
  out r = [] →
  rwp (quiet scull) (quiet scullc)
    (modify (set_block i j (store k (Some <$> src) b));;
     modify (λ s, if Scull.size (dev s) <? m then Scull.set_size m s else s);; unlock;; mret r) t1
    (modify (set_object i j (store k (Some <$> src) (fill_block b)));;
     modify (λ s, if size s <? m then set_size m s else s);; unlock;; mret r) t2 both.
Proof.
  intros Has Hm Hb1 Hb2 Hj Hb Hlen Hsz Hr.
  assert (store k (Some <$> src) (fill_block b) = fill_block (store k (Some <$> src) b)) as ->.
  { by rewrite fill_store, fill_bytes. }
  do 2 lstep. do 2 rstep.
  destruct (set_size_ge m (set_block i j (store k (Some <$> src) b) t1)
    (set_object i j (fill_block (store k (Some <$> src) b)) t2)) as [-> ->].
  pose proof (as_scull_set_block i j (store k (Some <$> src) b) arr (Some b) t1 t2 Has Hb1 Hb2
    Hj Hb ltac:(rewrite length_store; lia)) as Has'.
  cbn [blocks_of] in Has'. change (1 - 1) with 0 in Has'.
  rewrite add_live_0, scull_add_live_0 in Has'.
  destruct (wf_dev_of _ (as_wf _ _ Has)) as [_ _ _ Hsz' _].
  apply rwp_exit; [|done|unfold same_xfer; by rewrite Hr].
  cbn [size set_object set_members]. rewrite <-(as_size _ _ Has).
  apply as_scull_size; [cbn; lia|done].
Qed.

Lemma rwp_write buf f_pos s1 s2 :
  alike s1 s2 → 0 <= f_pos → f_pos + lenZ buf <= LONG_MAX →
  rwp (quiet scull) (quiet scullc) (scull_write buf f_pos) s1 (scullc_write buf f_pos) s2 both.
Proof.
  intros Hal Hp Hmax. unfold scull_write, scullc_write. pose proof Hal as [Has Hm].
  destruct (wf_dev_of _ (as_wf _ _ Has)) as [Hq Hn Hi Hsz _].
  do 2 lstep. do 2 rstep. rewrite <-(as_quantum _ _ Has), <-(as_qset _ _ Has).
  apply rwp_enter; [done|]. intros Has0. cbn [negb].
  apply rwp_find_slot; [done..|lia|]. intros item1 item2 j k Hitem Hj Hk. cbn beta iota.
  apply rwp_bind, rwp_follow; [done..|]. cbn. 
  intros s1' s2' Has1 Hq1 Hn1 Hs1 Hm1 Hi1 Hi2.
  apply rwp_bind, rwp_ensure_array; [done..|]. intros s1'' s2'' arr Has2 Hq2 Hn2 Hs2 Hm2 Ha1 Ha2.
  apply rwp_bind. eapply rwp_ensure_object; [done|done|done|lia|congruence|].
  intros t1 t2 arr' b Has3 Hq3 Hn3 Hs3 Hm3 Hb1 Hb2 Hb Hlen. cbn beta iota zeta.
  rewrite count_clipped by nia. set (n := Z.min _ _). assert (0 <= n) by (unfold n; lia).
  apply rwp_left; [by intros []|]. apply wp_quantum_bytes; [lia..|].
  apply rwp_right; [by intros []|]. apply wp_object_bytes; [lia..|unfold fill_block; rewrite length_fmap; lia|].
  apply rwp_left; [by intros []|]. apply wp_copy_from_user_quiet.
  apply rwp_right; [by intros []|]. apply wp_copy_from_user_quiet. cbn [negb].
  rewrite s64_small, u64_small by (unfold LONG_MAX, n in *; lia).
  eapply rwp_store; try done; [congruence|lia|congruence|unfold n; lia].
Qed.

(** A slot of the array of a member. *)
Lemma as_scull_slot i j arr s1 s2 :
  as_scull s1 s2 → data (dev s1) !! i = Some (Some arr) → 0 <= j < Scull.qset (dev s1) →
  ∃ q, lookupZ arr j = Some q ∧ lookupZ (fill_array arr) j = Some (fill_block <$> q) ∧
    match q with
    | Some b => lenZ b = Scull.quantum (dev s1) ∧ lenZ (fill_block b) = Scull.quantum (dev s1)
    | None => True
    end.
Proof.
  intros Has Hi Hj. destruct (wf_dev_of _ (as_wf _ _ Has)) as [_ _ _ _ Hd].
  destruct (Forall_lookup_1 _ _ _ _ Hd Hi) as [Hlen Harr].
  destruct (proj2 (lookupZ_is_Some arr j)) as [q Hq]; [lia|].
  pose proof Hq as [_ Hq']%lookupZ_Some. exists q. split_and!; [done| |].
  - apply lookupZ_Some. split; [lia|]. by rewrite fill_array_lookup, Hq'.
  - pose proof (Forall_lookup_1 _ _ _ _ Harr Hq'). destruct q; [|done].
    unfold fill_block. by rewrite length_fmap.
Qed.

(** At the end of the data scull answers at once; scullc looks for the place
    and transfers nothing. *)
Lemma rwp_read_nothing q f_pos item j k s1 s2 :
  as_scull s1 s2 → Scull.mutex (dev s1) = true → q = Scull.quantum (dev s1) →
  0 <= j < Scull.qset (dev s1) → 0 <= k < q → q <= INT_MAX → 0 <= f_pos <= LONG_MAX →
  rwp (quiet scull) (quiet scullc) (unlock;; mret (Xfer 0 [] f_pos)) s1
    (i ← scullc_follow item;
     it ← gets members ≫= λ l, deref NullDeref (l !! i);
     match it with
     | None => unlock;; mret (Xfer 0 [] f_pos)
     | Some arr =>
         o ← deref OutOfBounds (lookupZ arr j);
         match o with
         | None => unlock;; mret (Xfer 0 [] f_pos)
         | Some b =>
             let count := if 0 >? u64 (q - k) then q - k else 0 in
             src ← object_bytes k count b;
             '(bytes, ok) ← copy_to_user src;
             if negb ok then unlock;; mret (Xfer (- EFAULT) bytes f_pos)
             else unlock;; mret (Xfer count bytes (s64 (f_pos + count)))
         end
     end) s2 both.
Proof.
  intros Has Hm -> Hj Hk Hq Hp. apply rwp_right; [by intros []|].
  eapply wp_mono; [apply wp_scullc_follow, (as_members _ _ Has)|].
  intros i s' (-> & Hlt & n & ->). set (i := Z.to_nat (u32 item)) in *.
  apply (as_scull_extend 0 n) in Has. rewrite extend_0 in Has.
  destruct (lookup_lt_is_Some_2 _ _ Hlt) as [it Hit].
  rstep. wp_step. apply (wp_deref _ _ _ _ _ it); [done|].
  destruct it as [arr|]; [|by apply rwp_exit].
  pose proof (as_arrays _ _ Has i) as Ha. rewrite Hit in Ha.
  destruct (data (dev s1) !! i) as [[arr'|]|] eqn:Hi; cbn in Ha; [|done..].
  injection Ha as ->. destruct (as_scull_slot i j arr' _ _ Has Hi Hj) as (b & _ & Hb & Hlen).
  apply rwp_right; [by intros []|]. apply (wp_deref _ _ _ _ _ (fill_block <$> b)); [done|].
  destruct b as [b|]; cbn [fmap option_fmap option_map]; [|by apply rwp_exit].
  cbv zeta. rewrite count_clipped by lia. rewrite Z.min_l by lia.
  apply rwp_right; [by intros []|]. apply wp_object_bytes; [lia..|].
  apply rwp_right; [by intros []|]. apply wp_copy_to_user_quiet. cbn [negb].
  rewrite Z.add_0_r, s64_small by (unfold LONG_MAX in *; lia).
  apply rwp_exit; [done|done|]. split_and!; done.
Qed.

(** From the member on, where there may be bytes to read. *)
Lemma rwp_read_slot n q f_pos i j k s1 s2 :
  as_scull s1 s2 → Scull.mutex (dev s1) = true → is_Some (data (dev s1) !! i) →
  is_Some (members s2 !! i) → q = Scull.quantum (dev s1) →
  0 <= j < Scull.qset (dev s1) → 0 <= k < q → q <= INT_MAX → 0 <= n → 0 <= f_pos → f_pos + n <= LONG_MAX →
  rwp (quiet scull) (quiet scullc)
    (it ← gets (λ s, data (dev s)) ≫= λ l, deref NullDeref (l !! i);
     match it with
     | None => unlock;; mret (Xfer 0 [] f_pos)
     | Some arr =>
         o ← deref OutOfBounds (lookupZ arr j);
         match o with
         | None => unlock;; mret (Xfer 0 [] f_pos)
         | Some b =>
             let count := if n >? u64 (q - k) then q - k else n in
             src ← quantum_bytes k count b;
             '(bytes, ok) ← copy_to_user src;
             if negb ok then unlock;; mret (Xfer (- EFAULT) bytes f_pos)
             else unlock;; mret (Xfer count bytes (s64 (f_pos + count)))
         end
     end) s1
    (it ← gets members ≫= λ l, deref NullDeref (l !! i);
     match it with
     | None => unlock;; mret (Xfer 0 [] f_pos)
     | Some arr =>
         o ← deref OutOfBounds (lookupZ arr j);
         match o with
         | None => unlock;; mret (Xfer 0 [] f_pos)
         | Some b =>
             let count := if n >? u64 (q - k) then q - k else n in
             src ← object_bytes k count b;
             '(bytes, ok) ← copy_to_user src;
             if negb ok then unlock;; mret (Xfer (- EFAULT) bytes f_pos)
             else unlock;; mret (Xfer count bytes (s64 (f_pos + count)))
         end
     end) s2 both.
Proof.
  intros Has Hm [it Hi1] Hi2 -> Hj Hk Hq Hn Hp Hmax.
  pose proof (as_scull_array i it s1 s2 Has Hi1 Hi2) as Hi2'.
  lstep. wp_step. apply (wp_deref _ _ _ _ _ it); [done|].
  rstep. wp_step. apply (wp_deref _ _ _ _ _ (fill_array <$> it)); [done|].
  destruct it as [arr|]; cbn [fmap option_fmap option_map]; [|by apply rwp_exit].
  destruct (as_scull_slot i j arr _ _ Has Hi1 Hj) as (b & Hb1 & Hb2 & Hlen).
  apply rwp_left; [by intros []|]. apply (wp_deref _ _ _ _ _ b); [done|].
  apply rwp_right; [by intros []|]. apply (wp_deref _ _ _ _ _ (fill_block <$> b)); [done|].
  destruct b as [b|]; cbn [fmap option_fmap option_map]; [|by apply rwp_exit].
  cbv zeta. rewrite count_clipped by lia. set (m := Z.min _ _). assert (0 <= m <= n) by lia.
  apply rwp_left; [by intros []|]. apply wp_quantum_bytes; [lia..|].
  apply rwp_right; [by intros []|]. apply wp_object_bytes; [lia..|].
  apply rwp_left; [by intros []|]. apply wp_copy_to_user_quiet.
  apply rwp_right; [by intros []|]. apply wp_copy_to_user_quiet. cbn [negb].
  apply rwp_exit; [done|done|]. split_and!; [done..|]. cbn [out]. by rewrite fill_slice.
Qed.

Lemma rwp_read count f_pos s1 s2 :
  alike s1 s2 → 0 <= count → 0 <= f_pos → f_pos + count <= LONG_MAX →
  rwp (quiet scull) (quiet scullc) (scull_read count f_pos) s1 (scullc_read count f_pos) s2 both.
Proof.
  intros Hal Hc Hp Hmax. unfold scull_read, scullc_read. pose proof Hal as [Has Hm].
  destruct (wf_dev_of _ (as_wf _ _ Has)) as [Hq Hn Hi Hsz _].
  assert (Scull.quantum (dev s1) <= INT_MAX) by nia.
  do 2 lstep. do 2 rstep. rewrite <-(as_quantum _ _ Has), <-(as_qset _ _ Has).
  apply rwp_enter; [done|]. intros Has0. cbn [negb]. lstep. rstep.
  cbn [Scull.size dev set_mutex size set_sem]. rewrite <-(as_size _ _ Has).
  unfold LONG_MAX in *. rewrite (u64_small f_pos), (u64_small (f_pos + count)) by lia.
  destruct (f_pos >? Scull.size (dev s1)) eqn:Hgt; zbool.
  { rewrite (proj2 (Z.geb_le _ _)) by lia. by apply rwp_exit. }
  rewrite (u64_small (_ - f_pos)) by lia.
  destruct (f_pos >=? Scull.size (dev s1)) eqn:Hge; zbool.
  { (* f_pos is the size *)
    assert (Scull.size (dev s1) = f_pos) as -> by lia.
    replace (if f_pos + count >? f_pos then f_pos - f_pos else count) with 0 by (case_match; zbool; lia).
    apply rwp_right; [by intros []|].
    apply wp_find_slot_at; [done..|unfold LONG_MAX; lia|]. intros item _. cbn beta iota.
    destruct (slot_bounds _ _ f_pos Hq Hn).
    apply rwp_read_nothing; done || unfold LONG_MAX; lia. }
  replace (if f_pos + count >? Scull.size (dev s1) then _ else count)
    with (Z.min count (Scull.size (dev s1) - f_pos)) by (case_match; zbool; lia).
  apply rwp_find_slot; [done..|unfold LONG_MAX; lia|]. intros item1 item2 j k Hitem Hj Hk. cbn beta iota.
  apply rwp_bind, rwp_follow; [done..|]. cbn.
  intros s1' s2' Has1 Hq1 Hn1 Hs1 Hm1 Hi1 Hi2.
  apply rwp_read_slot; try done; (unfold LONG_MAX; lia) || congruence.
Qed.

(** ** Trimming *)

Lemma add_live_add a b s : add_live a (add_live b s) = add_live (b + a) s.
Proof. destruct s. unfold add_live; cbn. f_equal. lia. Qed.

Lemma wp_free_objects C arr n i s (Q : unit → scullc → Prop) :
  (i + n)%nat = length arr → Q tt (add_live (- blocks_in (drop i arr)) s) →
  wp C (free_objects n i arr) Q s.
Proof.
  revert i s; induction n as [|n IH]; intros i s Hi HQ; cbn [free_objects].
  { wp_step. rewrite drop_ge in HQ by lia. by rewrite add_live_0 in HQ. }
  destruct (lookup_lt_is_Some_2 arr i) as [q Hq]; [lia|]. rewrite (drop_S _ _ _ Hq) in HQ.
  wp_step. apply (wp_deref _ _ _ _ _ q); [done|].
  wp_step. destruct q; wp_step; (apply IH; [lia|]); [rewrite add_live_add|]; cbn in HQ.
  - by replace (-1 + - blocks_in (drop (S i) arr)) with (- (1 + blocks_in (drop (S i) arr))) by lia.
  - done.
Qed.

(** All blocks but the device itself, which is the first member. *)
Lemma wp_free_members C n first l s (Q : unit → scullc → Prop) :
  0 < n → Forall (λ it : option (list (option (list cell))), match it with Some arr => lenZ arr = n | None => True end) l →
  (first = true → l ≠ []) →
  Q tt (add_live ((if first then 1 else 0) - footprint l) s) →
  wp C (free_members n first l) Q s.
Proof.
  intros Hn Hl. revert first s. induction Hl as [|it l Hit _ IH]; intros first s Hf HQ;
    cbn [free_members footprint] in *.
  { destruct first; [by destruct Hf|]. wp_step. by rewrite add_live_0 in HQ. }
  wp_step. apply (wp_mono _ _ (λ _ s', s' = add_live (1 - footprint_item it) s)).
  { destruct it as [arr|]; [|wp_step; by rewrite add_live_0].
    wp_step. apply wp_free_objects; [lia|]. wp_step. rewrite add_live_add, drop_0. f_equal. cbn; lia. }
  intros _ ? ->. wp_step. destruct first; wp_step; (apply IH; [done|]); rewrite !add_live_add;
    eapply eq_ind; try exact HQ; f_equal; lia.
Qed.

(** What trimming needs of a device. *)
Record trimmable (s : scullc) : Prop := {
  tr_qset : 0 < qset s;
  tr_vmas : vmas s = 0;
  tr_members : members s ≠ [];
  tr_lengths : Forall (λ it : option (list (option (list cell))),
    match it with Some arr => lenZ arr = qset s | None => True end) (members s)
}.

Lemma as_scull_trimmable s1 s2 : as_scull s1 s2 → trimmable s2.
Proof.
  intros Has. pose proof Has as []. split; [|done|done|].
  { rewrite <-as_qset0. apply (wf_dev_of _ as_wf0). }
  apply Forall_lookup. intros i it Hi. pose proof (as_arrays0 i) as Ha.
  rewrite Hi in Ha. cbn in Ha. subst it. destruct (data (dev s1) !! i) as [[arr|]|] eqn:Hd; [|done..].
  cbn. unfold fill_array. rewrite length_fmap.
  destruct (Forall_lookup_1 _ _ _ _ (wf_data _ (wf_dev_of _ as_wf0)) Hd) as [? _].
  by rewrite <-as_qset0.
Qed.

Lemma wp_scullc_trim C s (Q : Z → scullc → Prop) :
  trimmable s →
  Q 0 (Scullc [None] 0 (scullc_quantum s) (scullc_qset s) 0 (sem s) (scullc_quantum s)
    (scullc_qset s) (cache s) (live s - (footprint (members s) - 1)) (works s) (completed s)) →
  wp C scullc_trim Q s.
Proof.
  intros [? Hv ? ?] HQ. unfold scullc_trim. do 4 wp_step. rewrite Hv.
  wp_step; [done|]. do 3 wp_step. apply wp_free_members; [done..|].
  wp_go. eapply eq_ind; [exact HQ|]. destruct s. cbn in *. rewrite Hv.
  unfold add_live, set_members, set_quantum, set_qset, set_size; cbn. f_equal. lia.
Qed.

Lemma rwp_open f_flags s1 s2 :
  alike s1 s2 →
  rwp (quiet scull) (quiet scullc)
    (kfmap (λ r, Xfer r [] 0) (scull_open f_flags)) s1
    (kfmap (λ r, Xfer r [] 0) (scullc_open f_flags)) s2 both.
Proof.
  intros Hal. unfold kfmap, scull_open, scullc_open. case_match.
  2:{ lstep. rstep. by apply rwp_ret. }
  apply rwp_bind, rwp_enter; [done|]. intros Has.
  apply rwp_left; [by intros []|]. apply wp_scull_trim; [apply (as_wf _ _ Has)|].
  apply rwp_right; [by intros []|]. apply wp_scullc_trim; [by eapply as_scull_trimmable|].
  apply rwp_left; [by intros []|]. apply wp_unlock; [done|].
  apply rwp_right; [by intros []|]. apply wp_unlock; [by cbn|].
  do 2 apply rwp_ret. split; [done|]. split; [|done].
  destruct Has. destruct (trimmed_wf _ as_wf0 eq_refl) as [Hwf _].
  destruct as_tunables0, as_cache0. split; cbn in *; try done.
  - by intros [|i].
  - lia.
Qed.

Lemma rwp_llseek off whence f_pos s1 s2 :
  alike s1 s2 →
  rwp (quiet scull) (quiet scullc)
    (kfmap (λ r, Xfer r.1 [] r.2) (scull_llseek off whence f_pos)) s1
    (kfmap (λ r, Xfer r.1 [] r.2) (scullc_llseek off whence f_pos)) s2 both.
Proof.
  intros [Has Hm]. unfold kfmap, scull_llseek, scullc_llseek. apply rwp_bind.
  lstep. rstep. rewrite <-(as_size _ _ Has).
  repeat case_match; apply rwp_ret, rwp_ret; done.
Qed.

(** ** Any sequence of calls *)

Inductive entry :=
| Open (f_flags : Z)
| Read (count f_pos : Z)
| Write (buf : list Z) (f_pos : Z)
| Seek (off whence f_pos : Z).

(** What the VFS checks before it calls a driver. *)
Definition vfs_checked (e : entry) : Prop :=
  match e with
  | Read count f_pos => 0 <= count ∧ 0 <= f_pos ∧ f_pos + count <= LONG_MAX
  | Write buf f_pos => 0 <= f_pos ∧ f_pos + lenZ buf <= LONG_MAX
  | _ => True
  end.

Definition scull_entry (e : entry) : K scull xfer :=
  match e with
  | Open f_flags => kfmap (λ r, Xfer r [] 0) (scull_open f_flags)
  | Read count f_pos => scull_read count f_pos
  | Write buf f_pos => scull_write buf f_pos
  | Seek off whence f_pos => kfmap (λ r, Xfer r.1 [] r.2) (scull_llseek off whence f_pos)
  end.
Definition scullc_entry (e : entry) : K scullc xfer :=
  match e with
  | Open f_flags => kfmap (λ r, Xfer r [] 0) (scullc_open f_flags)
  | Read count f_pos => scullc_read count f_pos
  | Write buf f_pos => scullc_write buf f_pos
  | Seek off whence f_pos => kfmap (λ r, Xfer r.1 [] r.2) (scullc_llseek off whence f_pos)
  end.

(** A scull device made with the tunables [q] and [n]. *)
Definition scull_of (q n p : Z) : scull := Scull (ScullDev [] q n 0 false) q n p 0.

Lemma init_alike q n p :
  0 < q → 0 < n → q * n <= INT_MAX → alike (scull_of q n p) (scullc_init_dev q n).
Proof.
  intros. split; [|done]. split; try done. intros i. by destruct i.
Qed.

Lemma rwp_entry e s1 s2 :
  vfs_checked e → alike s1 s2 →
  rwp (quiet scull) (quiet scullc) (scull_entry e) s1 (scullc_entry e) s2 both.
Proof.
  intros He Hal. destruct e; cbn in *.
  - by apply rwp_open.
  - destruct He as (? & ? & ?). by apply rwp_read.
  - destruct He. by apply rwp_write.
  - by apply rwp_llseek.
Qed.

(** C9: scullc behaves as scull. The two drivers, loaded with the same
    tunables and given the same calls (opens, reads, writes, seeks), with
    memory and without signals: every call of scullc returns the value and the
    position scull's returns, and hands out the same bytes, but that a byte
    nobody wrote, left as the allocator found it in scull, is zero in scullc.
    In the end the devices have the same size, no mutex is held, and the
    blocks scullc holds are those reachable from its device. *)
Theorem scullc_as_scull q n p l o1 o2 :
  0 < q → 0 < n → q * n <= INT_MAX → Forall vfs_checked l →
  obeys o1 (quiet scull) → obeys o2 (quiet scullc) →
  ∃ rs1 s1 rs2 s2,
    run o1 (calls scull_entry l) (scull_of q n p) = Done (rs1, s1) ∧
    run o2 (calls scullc_entry l) (scullc_init_dev q n) = Done (rs2, s2) ∧
    Forall2 (λ x1 x2, retval x2 = retval x1 ∧ pos x2 = pos x1 ∧
      out x2 = (λ c, Some (default 0 c)) <$> out x1) rs1 rs2 ∧
    size s2 = Scull.size (dev s1) ∧ sem s2 = false ∧ live s2 = footprint (members s2) - 1.
Proof.
  intros Hq Hn Hi Hl Ho1 Ho2.
  destruct (rwp_run (quiet scull) (quiet scullc) (calls scull_entry l) (scull_of q n p)
    (calls scullc_entry l) (scullc_init_dev q n)
    (λ rs1 s1 rs2 s2, Forall2 same_xfer rs1 rs2 ∧ alike s1 s2) o1 o2)
    as (rs1 & s1 & rs2 & s2 & H1 & H2 & Hrs & [] & Hm); [|done..|].
  { eapply rwp_calls; [|done|by apply init_alike]. intros. by apply rwp_entry. }
  exists rs1, s1, rs2, s2. split_and!; [done..|congruence|done].
Qed.

Lemma scullc_as_scull_witness :
  ∃ rs1 s1 rs2 s2,
    run quiet_oracle (calls scull_entry [Write [7] 2; Read 3 0]) (scull_of 8 2 0) = Done (rs1, s1) ∧
    run quiet_oracle (calls scullc_entry [Write [7] 2; Read 3 0]) (scullc_init_dev 8 2) = Done (rs2, s2) ∧
    Forall2 (λ x1 x2, retval x2 = retval x1 ∧ pos x2 = pos x1 ∧
      out x2 = (λ c, Some (default 0 c)) <$> out x1) rs1 rs2 ∧
    size s2 = Scull.size (dev s1) ∧ sem s2 = false ∧ live s2 = footprint (members s2) - 1.
Proof.
  apply (scullc_as_scull 8 2 0 [Write [7] 2; Read 3 0] quiet_oracle quiet_oracle);
    [done..|repeat constructor; by unfold LONG_MAX; cbn; lia|apply quiet_obeys|apply quiet_obeys].
Defined.

(** ** Where it goes wrong *)

(** [kmalloc] for the list member is not checked. *)
Lemma scullc_follow_oops :
  run (Oracle (λ c t, match c with kmalloc n => if n =? sizeof_scullc_dev then 0 else 1
                      | _ => quiet_ans c t end) (λ _ _, 0) (λ _ s, s))
    (scullc_write [1] 16) (scullc_init_dev 8 2) = Oops NullDeref.
Proof. vm_compute. reflexivity. Qed.

(** The tunable quantum may grow beyond the objects of the cache, whose size
    was fixed at load time, and anyone may set it: the next new quantum is
    cleared beyond its end. *)
Lemma scullc_grown_quantum_overflows buf :
  run quiet_oracle (scullc_ioctl SCULLC_IOCTQUANTUM 9;; scullc_write buf 0) (scullc_init_dev 8 2)
    = Oops OutOfBounds.
Proof. reflexivity. Qed.

(** The tunable quantum may shrink under a device that keeps its own: what is
    cleared of a new quantum is too short, and the rest of it can be read. *)
Lemma scullc_shrunk_quantum_leaks :
  ∃ s, run quiet_oracle (scullc_ioctl SCULLC_IOCTQUANTUM 1;; scullc_write [7] 3;; scullc_read 4 0)
    (scullc_init_dev 8 2) = Done (Xfer 4 [Some 0; None; None; Some 7] 4, s).
Proof. eexists. vm_compute. reflexivity. Qed.

(** A synchronous vectored write counts a failed segment: the function that
    adds up is unsigned. *)
Lemma scullc_aio_error_lost :
  ∃ s, run (Oracle (λ c t, match c with mutex_lock_intr => if (t =? 1)%nat then 1 else 0
                      | _ => quiet_ans c t end) (λ _ _, 0) (λ _ s, s))
    (scullc_aio_write true 0 [[1; 2]; [3; 4]] 0) (scullc_init_dev 8 2)
    = Done (- ERESTARTSYS + 2, s).
Proof. eexists. vm_compute. reflexivity. Qed.
