(* ===== verification/Scullp.v ===== *)
(** * scullp: scull over whole pages, with mmap (src/ldd4/scullp)

    As scull, with quanta that are blocks of [2^order] pages, and with a
    [nopage] method that hands the pages of the device to user mappings. Pages
    are named by numbers; [pages] is what the page allocator has given out,
    with the reference count that [get_page] raises. [refs] is a ghost: the
    pages [nopage] handed to the memory manager and that it has not yet given
    back, each with the page of the device that was asked for. [live] counts the
    blocks held from [kmalloc]. *)

From stdpp Require Import base tactics numbers list gmap.
From S2P Require Import Prelude KMonad Quanta.
From Stdlib Require Import ZArith Lia.

Open Scope Z_scope.

(** ** Data *)

(** A block of pages from [__get_free_pages]. *)
Record page := Page { pg_order : Z; pg_count : Z; pg_bytes : list cell }.

(** The fields of [struct scullp_dev] that every member of the list uses:
    [data] (NULL: [None]) and [order]. The first member is the device. *)
Record item := Item { data : option (list (option nat)); order : Z }.

(** The device an open file designates, with the globals of the module and the
    kernel's side of pages and delayed work. *)
Record scullp := Scullp {
  items : list item;
  vmas : Z;
  qset : Z;
  size : Z;
  mutex : bool;
  scullp_order : Z;
  scullp_qset : Z;
  pages : gmap nat page;
  refs : list (nat * nat);
  live : Z;
  works : list (nat * Z);
  completed : list (nat * Z)
}.

Definition set_items (v : list item) (x : scullp) : scullp :=
  Scullp v (vmas x) (qset x) (size x) (mutex x) (scullp_order x) (scullp_qset x) (pages x)
    (refs x) (live x) (works x) (completed x).
Definition set_vmas (v : Z) (x : scullp) : scullp :=
  Scullp (items x) v (qset x) (size x) (mutex x) (scullp_order x) (scullp_qset x) (pages x)
    (refs x) (live x) (works x) (completed x).
Definition set_qset (v : Z) (x : scullp) : scullp :=
  Scullp (items x) (vmas x) v (size x) (mutex x) (scullp_order x) (scullp_qset x) (pages x)
    (refs x) (live x) (works x) (completed x).
Definition set_size (v : Z) (x : scullp) : scullp :=
  Scullp (items x) (vmas x) (qset x) v (mutex x) (scullp_order x) (scullp_qset x) (pages x)
    (refs x) (live x) (works x) (completed x).
Definition set_mutex (v : bool) (x : scullp) : scullp :=
  Scullp (items x) (vmas x) (qset x) (size x) v (scullp_order x) (scullp_qset x) (pages x)
    (refs x) (live x) (works x) (completed x).
Definition set_scullp_order (v : Z) (x : scullp) : scullp :=
  Scullp (items x) (vmas x) (qset x) (size x) (mutex x) v (scullp_qset x) (pages x) (refs x)
    (live x) (works x) (completed x).
Definition set_scullp_qset (v : Z) (x : scullp) : scullp :=
  Scullp (items x) (vmas x) (qset x) (size x) (mutex x) (scullp_order x) v (pages x) (refs x)
    (live x) (works x) (completed x).
Definition set_pages (v : gmap nat page) (x : scullp) : scullp :=
  Scullp (items x) (vmas x) (qset x) (size x) (mutex x) (scullp_order x) (scullp_qset x) v
    (refs x) (live x) (works x) (completed x).
Definition set_refs (v : list (nat * nat)) (x : scullp) : scullp :=
  Scullp (items x) (vmas x) (qset x) (size x) (mutex x) (scullp_order x) (scullp_qset x)
    (pages x) v (live x) (works x) (completed x).
Definition set_works (v : list (nat * Z)) (x : scullp) : scullp :=
  Scullp (items x) (vmas x) (qset x) (size x) (mutex x) (scullp_order x) (scullp_qset x)
    (pages x) (refs x) (live x) v (completed x).
Definition set_completed (v : list (nat * Z)) (x : scullp) : scullp :=
  Scullp (items x) (vmas x) (qset x) (size x) (mutex x) (scullp_order x) (scullp_qset x)
    (pages x) (refs x) (live x) (works x) v.

Definition add_live (n : Z) (x : scullp) : scullp :=
  Scullp (items x) (vmas x) (qset x) (size x) (mutex x) (scullp_order x) (scullp_qset x)
    (pages x) (refs x) (live x + n) (works x) (completed x).

#[export] Instance scullp_lock : HasLock scullp :=
  { lock_of := mutex; set_lock := set_mutex; lock_set b s := eq_refl }.

Definition SCULLP_ORDER : Z := 0.
Definition SCULLP_QSET : Z := 500.

(** On a 64-bit machine, without lock debugging. *)
Definition sizeof_scullp_dev : Z := 184.
Definition sizeof_async_work : Z := 104.
Definition sizeof_ptr : Z := 8.

(** [dev->order]: the first member's. *)
Definition dev_order : K scullp Z :=
  l ← gets items; it ← deref NullDeref (head l); mret (order it).

(** [PAGE_SIZE << order], an [unsigned long]. *)
Definition pages_size (order : Z) : K scullp Z :=
  if (0 <=? order) && (order <? 64) then mret (u64 (PAGE_SIZE * 2 ^ order)) else oops BadShift.

(** ** The page allocator *)

(** [__get_free_pages], then [memset] of the whole block: a new page, [None]
    when there is none. *)
Definition get_zeroed_pages (order : Z) : K scullp (option nat) :=
  n ← pages_size order;
  z ← call (kmalloc n);
  if z =? 0 then mret None else
  a ← gets (λ s, fresh (dom (pages s)));
  modify (λ s, set_pages (<[a := Page order 1 (zeroed n)]> (pages s)) s);;
  mret (Some a).

(** [free_pages]: the last reference gives the block back. *)
Definition free_pages (a : nat) (order : Z) : K scullp unit :=
  pg ← gets (λ s, pages s !! a) ≫= deref DoubleFree;
  if negb (pg_order pg =? order) then oops BugOn else
  modify (λ s, set_pages
    (if pg_count pg =? 1 then delete a (pages s)
     else <[a := Page (pg_order pg) (pg_count pg - 1) (pg_bytes pg)]> (pages s)) s).

(** [get_page]: page [n] of the device is handed out. *)
Definition get_page (n a : nat) : K scullp unit :=
  pg ← gets (λ s, pages s !! a) ≫= deref UseAfterFree;
  modify (λ s, set_pages (<[a := Page (pg_order pg) (pg_count pg + 1) (pg_bytes pg)]> (pages s)) s);;
  modify (λ s, set_refs ((n, a) :: refs s) s).

(** [n] bytes at offset [q_pos] of block [a], as the source of a copy. *)
Definition page_bytes (a : nat) (q_pos n : Z) : K scullp (list cell) :=
  pg ← gets (λ s, pages s !! a) ≫= deref UseAfterFree;
  if bool_decide (0 <= q_pos ∧ 0 <= n ∧ q_pos + n <= lenZ (pg_bytes pg))
  then mret (slice q_pos n (pg_bytes pg)) else oops OutOfBounds.

Definition store_page (q_pos : Z) (src : list cell) (pg : page) : page :=
  Page (pg_order pg) (pg_count pg) (store q_pos src (pg_bytes pg)).

(** ** Trimming *)

(** [for (i = 0; i < qset; i++) if (dptr->data[i]) free_pages(...);] *)
Fixpoint free_array (n i : nat) (arr : list (option nat)) (order : Z) : K scullp unit :=
  match n with
  | O => mret tt
  | S n' =>
      q ← deref OutOfBounds (arr !! i);
      (match q with Some a => free_pages a order | None => mret tt end);;
      free_array n' (S i) arr order
  end.

(** The loop over the list; only the first member is not [kfree]d. *)
Fixpoint free_items (qset : Z) (first : bool) (l : list item) : K scullp unit :=
  match l with
  | [] => mret tt
  | it :: next =>
      (match data it with
       | Some arr => free_array (Z.to_nat qset) 0 arr (order it);; modify (add_live (-1))
       | None => mret tt
       end);;
      (if first then mret tt else modify (add_live (-1)));;
      free_items qset false next
  end.

Definition scullp_trim : K scullp Z :=
  n ← gets qset;
  v ← gets vmas;
  if c_bool v then mret (- EBUSY) else
  l ← gets items;
  free_items n true l;;
  modify (set_size 0);;
  modify (λ s, set_qset (scullp_qset s) s);;
  modify (λ s, set_items [Item None (scullp_order s)] s);;
  mret 0.

(** ** Open and release *)

Definition scullp_open (f_flags : Z) : K scullp Z :=
  if Z.land f_flags O_ACCMODE =? O_WRONLY then
    ok ← lock_interruptible;
    if ok : bool then scullp_trim;; unlock;; mret 0
    else mret (- ERESTARTSYS)
  else mret 0.

Definition scullp_release : K scullp Z := mret 0.

(** ** Following the list *)

(** [dev->next = kmalloc(...); memset(dev->next, 0, ...)]: the result of
    [kmalloc] is not looked at. *)
Definition append_item : K scullp unit :=
  z ← call (kmalloc sizeof_scullp_dev);
  if z =? 0 then oops NullDeref else
  modify (add_live 1);;
  modify (λ s, set_items (items s ++ [Item None 0]) s).

Fixpoint follow_loop (n i : nat) : K scullp nat :=
  match n with
  | O => mret i
  | S n' =>
      l ← gets items;
      (if bool_decide (S i < length l)%nat then mret tt else append_item);;
      follow_loop n' (S i)
  end.

(** The index in the list of the member reached; the counter of [while (n--)]
    is an [int]: a negative one wraps. *)
Definition scullp_follow (n : Z) : K scullp nat := follow_loop (Z.to_nat (u32 n)) 0.

(** ** Read and write *)

Definition scullp_read (count f_pos : Z) : K scullp xfer :=
  order ← dev_order;
  quantum ← pages_size order;
  let quantum := s32 quantum in
  qset ← gets qset;
  let itemsize := s32 (quantum * qset) in
  ok ← lock_interruptible;
  if negb ok then mret (Xfer (- ERESTARTSYS) [] f_pos) else
  size ← gets size;
  if u64 f_pos >? size then unlock;; mret (Xfer 0 [] f_pos) else
  let count := if u64 (f_pos + count) >? size then u64 (size - f_pos) else count in
  '(item, s_pos, q_pos) ← find_slot quantum itemsize f_pos;
  i ← scullp_follow item;
  dptr ← gets items ≫= λ l, deref NullDeref (l !! i);
  match data dptr with
  | None => unlock;; mret (Xfer 0 [] f_pos)
  | Some arr =>
      q ← deref OutOfBounds (lookupZ arr s_pos);
      match q with
      | None => unlock;; mret (Xfer 0 [] f_pos)
      | Some a =>
          let count := if count >? u64 (quantum - q_pos) then quantum - q_pos else count in
          src ← page_bytes a q_pos count;
          '(bytes, ok) ← copy_to_user src;
          if negb ok then unlock;; mret (Xfer (- EFAULT) bytes f_pos)
          else unlock;; mret (Xfer count bytes (s64 (f_pos + count)))
      end
  end.

(** [dptr->data = p], [dptr->data[s_pos] = p] for the member of index [i]. *)
Definition set_array (arr : list (option nat)) (it : item) : item := Item (Some arr) (order it).
Definition set_slot (j : nat) (a : nat) (it : item) : item :=
  Item (fmap (λ arr, <[j := Some a]> arr) (data it)) (order it).

(** [if (!dptr->data) { dptr->data = kmalloc(...); memset(...) }] *)
Definition ensure_array (i : nat) (n : Z) : K scullp (option (list (option nat))) :=
  it ← gets items ≫= λ l, deref NullDeref (l !! i);
  match data it with
  | Some arr => mret (Some arr)
  | None =>
      z ← call (kmalloc (n * sizeof_ptr));
      if z =? 0 then mret None else
      let arr := replicate (Z.to_nat n) None in
      modify (add_live 1);;
      modify (λ s, set_items (alter (set_array arr) i (items s)) s);;
      mret (Some arr)
  end.

(** [if (!dptr->data[s_pos]) { dptr->data[s_pos] = __get_free_pages(...); ... }]:
    the order is that of the member, not of the device. *)
Definition ensure_page (i : nat) (arr : list (option nat)) (s_pos : Z) : K scullp (option nat) :=
  q ← deref OutOfBounds (lookupZ arr s_pos);
  match q with
  | Some a => mret (Some a)
  | None =>
      it ← gets items ≫= λ l, deref NullDeref (l !! i);
      p ← get_zeroed_pages (order it);
      match p with
      | None => mret None
      | Some a =>
          modify (λ s, set_items (alter (set_slot (Z.to_nat s_pos) a) i (items s)) s);;
          mret (Some a)
      end
  end.

(** [buf] is the user's buffer, of [count] bytes. *)
Definition scullp_write (buf : list Z) (f_pos : Z) : K scullp xfer :=
  order ← dev_order;
  quantum ← pages_size order;
  let quantum := s32 quantum in
  qset ← gets qset;
  let itemsize := s32 (quantum * qset) in
  ok ← lock_interruptible;
  if negb ok then mret (Xfer (- ERESTARTSYS) [] f_pos) else
  '(item, s_pos, q_pos) ← find_slot quantum itemsize f_pos;
  i ← scullp_follow item;
  arr ← ensure_array i qset;
  match arr with
  | None => unlock;; mret (Xfer (- ENOMEM) [] f_pos)
  | Some arr =>
      p ← ensure_page i arr s_pos;
      match p with
      | None => unlock;; mret (Xfer (- ENOMEM) [] f_pos)
      | Some a =>
          let count := lenZ buf in
          let count := if count >? u64 (quantum - q_pos) then quantum - q_pos else count in
          page_bytes a q_pos count;;
          '(bytes, ok) ← copy_from_user (take (Z.to_nat count) buf);
          modify (λ s, set_pages (alter (store_page q_pos bytes) a (pages s)) s);;
          if negb ok then unlock;; mret (Xfer (- EFAULT) [] f_pos) else
          let f_pos := s64 (f_pos + count) in
          modify (λ s, if size s <? u64 f_pos then set_size (u64 f_pos) s else s);;
          unlock;; mret (Xfer count [] f_pos)
      end
  end.

(** ** Ioctl *)

Definition SCULLP_IOC_MAGIC : Z := 75.   (* 'K' *)
Definition SCULLP_IOC_MAXNR : Z := 12.
Definition SCULLP_IOCRESET := _IO SCULLP_IOC_MAGIC 0.
Definition SCULLP_IOCSORDER := _IOW SCULLP_IOC_MAGIC 1 4.
Definition SCULLP_IOCTORDER := _IO SCULLP_IOC_MAGIC 2.
Definition SCULLP_IOCGORDER := _IOR SCULLP_IOC_MAGIC 3 4.
Definition SCULLP_IOCQORDER := _IO SCULLP_IOC_MAGIC 4.
Definition SCULLP_IOCXORDER := _IOWR SCULLP_IOC_MAGIC 5 4.
Definition SCULLP_IOCHORDER := _IO SCULLP_IOC_MAGIC 6.
Definition SCULLP_IOCSQSET := _IOW SCULLP_IOC_MAGIC 7 4.
Definition SCULLP_IOCTQSET := _IO SCULLP_IOC_MAGIC 8.
Definition SCULLP_IOCGQSET := _IOR SCULLP_IOC_MAGIC 9 4.
Definition SCULLP_IOCQQSET := _IO SCULLP_IOC_MAGIC 10.
Definition SCULLP_IOCXQSET := _IOWR SCULLP_IOC_MAGIC 11 4.
Definition SCULLP_IOCHQSET := _IO SCULLP_IOC_MAGIC 12.

(** No command asks for a capability. *)
Definition scullp_ioctl (cmd arg : Z) : K scullp ioctl_result :=
  if negb (_IOC_TYPE cmd =? SCULLP_IOC_MAGIC) then mret (- ENOTTY, None) else
  if _IOC_NR cmd >? SCULLP_IOC_MAXNR then mret (- ENOTTY, None) else
  ok ← (if c_bool (Z.land (_IOC_DIR cmd) _IOC_READ) then call access_ok
        else if c_bool (Z.land (_IOC_DIR cmd) _IOC_WRITE) then call access_ok
        else mret 1);
  if ok =? 0 then mret (- EFAULT, None) else
  if cmd =? SCULLP_IOCRESET then
    modify (set_scullp_qset SCULLP_QSET);;
    modify (set_scullp_order SCULLP_ORDER);;
    mret (0, None)
  else if cmd =? SCULLP_IOCSORDER then ioctl_S set_scullp_order
  else if cmd =? SCULLP_IOCTORDER then ioctl_T set_scullp_order arg
  else if cmd =? SCULLP_IOCGORDER then ioctl_G scullp_order
  else if cmd =? SCULLP_IOCQORDER then ioctl_Q scullp_order
  else if cmd =? SCULLP_IOCXORDER then ioctl_X scullp_order set_scullp_order
  else if cmd =? SCULLP_IOCHORDER then ioctl_H scullp_order set_scullp_order arg
  else if cmd =? SCULLP_IOCSQSET then ioctl_S set_scullp_qset
  else if cmd =? SCULLP_IOCTQSET then ioctl_T set_scullp_qset arg
  else if cmd =? SCULLP_IOCGQSET then ioctl_G scullp_qset
  else if cmd =? SCULLP_IOCQQSET then ioctl_Q scullp_qset
  else if cmd =? SCULLP_IOCXQSET then ioctl_X scullp_qset set_scullp_qset
  else if cmd =? SCULLP_IOCHQSET then ioctl_H scullp_qset set_scullp_qset arg
  else mret (- ENOTTY, None).

(** ** Seek *)

(** The value of the call and the new [filp->f_pos]. *)
Definition scullp_llseek (off whence f_pos : Z) : K scullp (Z * Z) :=
  size ← gets size;
  let seek newpos := if newpos <? 0 then mret (- EINVAL, f_pos) else mret (newpos, newpos) in
  match whence with
  | 0 => seek off
  | 1 => seek (s64 (f_pos + off))
  | 2 => seek (s64 (size + off))
  | _ => mret (- EINVAL, f_pos)
  end.

(** ** Asynchronous I/O *)

(** [aio_complete] and [kfree] of the work item, when its time has come. *)
Definition scullp_do_deferred_op : K scullp unit :=
  l ← gets works;
  match l with
  | [] => mret tt
  | w :: rest =>
      modify (set_works rest);;
      modify (λ s, set_completed (w :: completed s) s);;
      modify (add_live (-1))
  end.

(** One segment: the buffer of a write, or as many bytes of room for a read. *)
Definition transfer (write : bool) (iov : list Z) (pos : Z) : K scullp xfer :=
  if write then scullp_write iov pos else scullp_read (lenZ iov) pos.

(** The loop over the segments. [count] is a [size_t]: it is never negative. *)
Fixpoint segments (write : bool) (iovec : list (list Z)) (pos result : Z) : K scullp (Z + Z) :=
  match iovec with
  | [] => mret (inr result)
  | iov :: rest =>
      x ← transfer write iov pos;
      let count := u64 (retval x) in
      if count <? 0 then mret (inl (s32 count))
      else segments write rest (Quanta.pos x) (u64 (result + count))
  end.

Definition scullp_defer_op (write is_sync : bool) (iocb : nat) (iovec : list (list Z)) (pos : Z) :
    K scullp Z :=
  r ← segments write iovec pos 0;
  match r with
  | inl err => mret err
  | inr result =>
      if is_sync then mret (s32 result) else
      z ← call (kmalloc sizeof_async_work);
      if z =? 0 then mret (s32 result) else
      modify (add_live 1);;
      modify (λ s, set_works (works s ++ [(iocb, s32 result)]) s);;
      mret (- EIOCBQUEUED)
  end.

Definition scullp_aio_read := scullp_defer_op false.
Definition scullp_aio_write := scullp_defer_op true.

(** ** Mapping the device *)

Definition VM_FAULT_SIGBUS : Z := 2.

Definition scullp_vma_open : K scullp unit := modify (λ s, set_vmas (s32 (vmas s + 1)) s).
Definition scullp_vma_close : K scullp unit := modify (λ s, set_vmas (s32 (vmas s - 1)) s).

(** [for (ptr = dev; ptr && offset >= dev->qset;) ...]: the member that holds
    page [offset], and the index of the page in its array. *)
Fixpoint nopage_item (qset : Z) (l : list item) (offset : Z) : option item * Z :=
  match l with
  | [] => (None, offset)
  | it :: next =>
      if offset >=? u64 qset then nopage_item qset next (u64 (offset - u64 qset))
      else (Some it, offset)
  end.

(** The value of the call and [vmf->page], when it was set. [vm_start] and
    [vm_pgoff] are those of the mapping. *)
Definition scullp_vma_nopage (vm_start vm_pgoff virtual_address : Z) : K scullp (Z * option nat) :=
  lock;;
  let offset := u64 (u64 (virtual_address - vm_start) + u64 (Z.shiftl vm_pgoff PAGE_SHIFT)) in
  size ← gets size;
  if offset >=? size then unlock;; mret (0, None) else
  let offset := Z.shiftr offset PAGE_SHIFT in
  n ← gets qset;
  l ← gets items;
  let '(ptr, index) := nopage_item n l offset in
  pageptr ← (match ptr with
             | Some (Item (Some arr) _) => deref OutOfBounds (lookupZ arr index)
             | _ => mret None
             end);
  match pageptr with
  | None => unlock;; mret (VM_FAULT_SIGBUS, None)
  | Some a => get_page (Z.to_nat offset) a;; unlock;; mret (0, Some a)
  end.

(** The order looked at is that of the device of this minor number. *)
Definition scullp_mmap : K scullp Z :=
  order ← dev_order;
  if c_bool order then mret (- ENODEV) else
  scullp_vma_open;;
  mret 0.
