(* ===== verification/ScullpSpec.v ===== *)
(** * scullp: what the device promises

    The device as a map from page numbers to pages, and the theorems: in every
    sequence of calls the device and the memory manager agree about pages; what
    each transfer does; what [nopage] hands out is what [read] and [write]
    work on; what goes wrong with orders other than 0. *)

From stdpp Require Import base tactics numbers list gmap.
From S2P Require Import Prelude KMonad Quanta Scullp.
From Stdlib Require Import ZArith Lia.

Open Scope Z_scope.

(** ** The device as a map from page numbers to pages *)

(** Slot [n mod qset] of the array of member [n / qset]; [None] for a hole. *)
Definition slot_of (l : list item) (q n : nat) : option nat :=
  match l !! (n / q)%nat with
  | Some (Item (Some arr) _) => mjoin (arr !! (n mod q)%nat)
  | _ => None
  end.

Definition page_at (s : scullp) (n : nat) : option nat := slot_of (items s) (Z.to_nat (qset s)) n.

(** The contents of page [n] of the device; a hole reads as zeroes. *)
Definition contents_of (pgs : gmap nat page) (p : option nat) : list cell :=
  match p with
  | Some a => match pgs !! a with Some pg => pg_bytes pg | None => zeroed PAGE_SIZE end
  | None => zeroed PAGE_SIZE
  end.
Definition contents (s : scullp) (n : nat) : list cell := contents_of (pages s) (page_at s n).

(** How many times the memory manager holds page [a]. *)
Fixpoint held (a : nat) (l : list (nat * nat)) : Z :=
  match l with
  | [] => 0
  | (_, b) :: l => (if decide (b = a) then 1 else 0) + held a l
  end.

(** The blocks of the list that come from [kmalloc]: arrays and members, the
    first member apart. *)
Definition item_blocks (it : item) : Z := match data it with Some _ => 2 | None => 1 end.
Fixpoint blocks (l : list item) : Z :=
  match l with [] => 0 | it :: l => item_blocks it + blocks l end.
Definition footprint (l : list item) : Z := blocks l - 1.

(** ** Invariant *)

Definition good_item (q : Z) (it : item) : Prop :=
  order it = 0 ∧ match data it with Some arr => lenZ arr = q | None => True end.

Record good_page (held : Z) (pg : page) : Prop := {
  good_order : pg_order pg = 0;
  good_count : pg_count pg = 1 + held;
  good_bytes : lenZ (pg_bytes pg) = PAGE_SIZE
}.

(** The slots and the page allocator agree: the pages allocated are those of
    the slots, each in one slot; their counts are one for the device and one
    for each time the memory manager holds them; what the memory manager holds
    as page [n] is in slot [n]. *)
Record pages_ok (q : nat) (l : list item) (pgs : gmap nat page) (rf : list (nat * nat)) : Prop := {
  ok_slot : ∀ n a, slot_of l q n = Some a → ∃ pg, pgs !! a = Some pg ∧ good_page (held a rf) pg;
  ok_page : ∀ a pg, pgs !! a = Some pg → ∃ n, slot_of l q n = Some a;
  ok_inj : ∀ n m a, slot_of l q n = Some a → slot_of l q m = Some a → n = m;
  ok_refs : ∀ n a, (n, a) ∈ rf → slot_of l q n = Some a
}.

Definition good_qset (q : Z) : Prop := 0 < q ∧ PAGE_SIZE * q <= INT_MAX.

Record wf (s : scullp) : Prop := {
  wf_items : items s ≠ [];
  wf_item : Forall (good_item (qset s)) (items s);
  wf_qset : good_qset (qset s);
  wf_tunables : scullp_order s = 0 ∧ good_qset (scullp_qset s);
  wf_size : 0 <= size s <= LONG_MAX;
  wf_pages : pages_ok (Z.to_nat (qset s)) (items s) (pages s) (refs s);
  wf_vmas : 0 <= vmas s <= INT_MAX;
  wf_mapped : refs s ≠ [] → 0 < vmas s;
  wf_live : live s = footprint (items s) + lenZ (works s)
}.

Definition idle (s : scullp) : Prop := wf s ∧ mutex s = false.

(** Other tasks keep the invariant, do not touch this task's hold on the mutex
    or the geometry of the device, and do not undo the last mapping while this
    task has one. *)
Definition peers (s s' : scullp) : Prop :=
  (wf s → wf s') ∧ mutex s' = mutex s ∧ qset s' = qset s ∧ (0 < vmas s → 0 < vmas s').

Lemma scullp_set_mutex_wf b s : wf (set_mutex b s) ↔ wf s.
Proof. by split; intros []. Qed.

Lemma scullp_peers_idle s s' : idle s → peers s s' → idle s'.
Proof. intros [] (? & ? & ?). split; [tauto|congruence]. Qed.

(** ** Lemmas on slots *)

Section slots.
Context (q : nat) (Hq : (0 < q)%nat).
Implicit Types (l : list item) (n i j : nat).

Lemma slot_split i j : (j < q)%nat → ((i * q + j) / q = i ∧ (i * q + j) mod q = j)%nat.
Proof.
  intros Hj. rewrite Nat.add_comm. split.
  - rewrite Nat.div_add, Nat.div_small by lia. done.
  - rewrite Nat.Div0.mod_add. by apply Nat.mod_small.
Qed.

Lemma slot_join n : n = ((n / q) * q + n mod q)%nat.
Proof. pose proof (Nat.div_mod n q). lia. Qed.

Lemma slot_of_app_empty l k o n : slot_of (l ++ replicate k (Item None o)) q n = slot_of l q n.
Proof.
  clear Hq. unfold slot_of. destruct (decide (n / q < length l)%nat).
  - by rewrite lookup_app_l.
  - rewrite lookup_app_r, (lookup_ge_None_2 l) by lia.
    destruct (replicate k (Item None o) !! (n / q - length l)%nat) as [it|] eqn:E; [|done].
    by apply lookup_replicate in E as [-> _].
Qed.

Lemma slot_of_set_array l i n k o :
  l !! i = Some (Item None o) → slot_of (alter (set_array (replicate k None)) i l) q n = slot_of l q n.
Proof.
  intros Hi. unfold slot_of. destruct (decide (n / q = i)%nat) as [->|].
  - rewrite list_lookup_alter_eq, Hi. cbn.
    destruct (replicate k None !! _) as [x|] eqn:E; [|done].
    by apply lookup_replicate in E as [-> _].
  - by rewrite list_lookup_alter_ne by congruence.
Qed.

Lemma slot_of_set_slot l i j a arr o n :
  l !! i = Some (Item (Some arr) o) → (j < q)%nat → length arr = q →
  slot_of (alter (set_slot j a) i l) q n =
    if decide (n = i * q + j)%nat then Some a else slot_of l q n.
Proof.
  intros Hi Hj Hlen. unfold slot_of. destruct (decide (n / q = i)%nat) as [E|E].
  - rewrite E, list_lookup_alter_eq, Hi. cbn. case_decide as En.
    + subst n. destruct (slot_split i j Hj) as [_ ->].
      by rewrite list_lookup_insert_eq by lia.
    + rewrite list_lookup_insert_ne; [done|]. pose proof (slot_join n). congruence.
  - rewrite list_lookup_alter_ne by congruence. rewrite decide_False; [done|].
    intros ->. by destruct (slot_split i j Hj).
Qed.
End slots.

Lemma blocks_app l1 l2 : blocks (l1 ++ l2) = blocks l1 + blocks l2.
Proof. induction l1; cbn; lia. Qed.

Lemma blocks_replicate k o : blocks (replicate k (Item None o)) = Z.of_nat k.
Proof. induction k; cbn -[Z.of_nat]; unfold item_blocks; cbn -[Z.of_nat]; lia. Qed.

Lemma blocks_alter f i it l :
  l !! i = Some it → blocks (alter f i l) = blocks l - item_blocks it + item_blocks (f it).
Proof.
  revert i; induction l as [|x l IH]; intros [|i] H; simplify_eq/=; [lia|].
  rewrite (IH i) by done. lia.
Qed.

(** ** The page allocator *)

Section allocator.
Context (q : nat).
Implicit Types (l : list item) (pgs : gmap nat page) (rf : list (nat * nat)).

Lemma pages_ok_ext l l' pgs rf :
  (∀ n, slot_of l' q n = slot_of l q n) → pages_ok q l pgs rf → pages_ok q l' pgs rf.
Proof.
  intros H []. split; intros *; rewrite ?H; eauto.
  intros Ha. destruct (ok_page0 a pg Ha) as [n Hn]. exists n. by rewrite H.
Qed.

Lemma held_nonneg a rf : 0 <= held a rf.
Proof. induction rf as [|[n b] rf IH]; cbn; [done|]. case_decide; lia. Qed.

Lemma held_0 a rf : (∀ n, (n, a) ∉ rf) → held a rf = 0.
Proof.
  induction rf as [|[n b] rf IH]; intros H; cbn; [done|].
  rewrite decide_False, IH; [done|set_solver|]. intros ->. apply (H n). set_solver.
Qed.

Lemma held_delete k n b a rf :
  rf !! k = Some (n, b) → held a (delete k rf) = held a rf - if decide (b = a) then 1 else 0.
Proof.
  revert k; induction rf as [|[m c] rf IH]; intros [|k] H; simplify_eq/=; [lia|].
  rewrite (IH k) by done. lia.
Qed.

(** A page in a slot that was a hole. *)
Lemma pages_ok_alloc l l' n a pg pgs rf :
  pages_ok q l pgs rf → slot_of l q n = None → pgs !! a = None → good_page 0 pg →
  (∀ m, slot_of l' q m = if decide (m = n) then Some a else slot_of l q m) →
  pages_ok q l' (<[a := pg]> pgs) rf.
Proof.
  intros [Hslot Hpage Hinj Hrefs] Hn Ha Hpg Hl'.
  assert (∀ m, slot_of l q m ≠ Some a) as Hfresh.
  { intros m Hm. destruct (Hslot m a Hm) as (? & ? & _). congruence. }
  split.
  - intros m b. rewrite Hl'. case_decide; intros Hb; simplify_eq.
    + exists pg. rewrite lookup_insert_eq, held_0; [done|].
      intros k Hk. by apply (Hfresh k), Hrefs.
    + rewrite lookup_insert_ne; [by eapply Hslot|]. intros <-. by apply (Hfresh m).
  - intros b pg' Hb. destruct (decide (a = b)) as [<-|].
    + exists n. rewrite Hl'. by rewrite decide_True.
    + rewrite lookup_insert_ne in Hb by done. destruct (Hpage b pg' Hb) as [m Hm].
      exists m. rewrite Hl'. rewrite decide_False; [done|]. congruence.
  - intros m k b. rewrite !Hl'. repeat case_decide; intros; simplify_eq; eauto;
      by edestruct Hfresh.
  - intros m b Hm. rewrite Hl'. rewrite decide_False; [by apply Hrefs|].
    intros ->. apply Hrefs in Hm. congruence.
Qed.

(** Changing a page in place: its bytes, or its count with what is held. *)
Lemma pages_ok_update l a pg pg' pgs rf rf' :
  pages_ok q l pgs rf → pgs !! a = Some pg → good_page (held a rf') pg' →
  (∀ b, b ≠ a → held b rf' = held b rf) → (∀ n b, (n, b) ∈ rf' → slot_of l q n = Some b) →
  pages_ok q l (<[a := pg']> pgs) rf'.
Proof.
  intros [Hslot Hpage Hinj Hrefs] Ha Hpg' Hheld Hrefs'. split; try done.
  - intros n b Hb. destruct (decide (a = b)) as [<-|].
    + exists pg'. by rewrite lookup_insert_eq.
    + rewrite lookup_insert_ne, Hheld by done. by eapply Hslot.
  - intros b pg1 Hb. destruct (decide (a = b)) as [<-|]; [by eapply Hpage|].
    rewrite lookup_insert_ne in Hb by done. by eapply Hpage.
Qed.
End allocator.

(** ** Changes a call can make *)

(** The invariant is kept and nothing a mapping or another call relies on
    changes, the contents of pages apart. *)
Record touched (s s' : scullp) : Prop := {
  touched_wf : wf s → wf s';
  touched_qset : qset s' = qset s;
  touched_mutex : mutex s' = mutex s;
  touched_vmas : vmas s' = vmas s;
  touched_refs : refs s' = refs s;
  touched_works : works s' = works s;
  touched_page : ∀ n a, page_at s n = Some a → page_at s' n = Some a
}.

(** More is allocated, all of it zeroes. *)
Record grown (s s' : scullp) : Prop := {
  grown_touched : touched s s';
  grown_size : size s' = size s;
  grown_contents : ∀ n, contents s' n = contents s n
}.

(** [bytes] are stored at offset [k] of page [n]. *)
Record patched (s s' : scullp) (n : nat) (k : Z) (bytes : list cell) : Prop := {
  patched_touched : touched s s';
  patched_size : size s' = size s;
  patched_page : is_Some (page_at s' n);
  patched_contents : ∀ m, contents s' m =
    if decide (m = n) then store k bytes (contents s n) else contents s m
}.

#[export] Instance touched_preorder : PreOrder touched.
Proof.
  split; [by intros s; split|].
  intros s1 s2 s3 [] []. split; try congruence; eauto.
Qed.

#[export] Instance grown_preorder : PreOrder grown.
Proof.
  split; [by intros s; split|].
  intros s1 s2 s3 [H1 ? Hc1] [H2 ? Hc2]. split; [by etrans|congruence|].
  intros n. by rewrite Hc2, Hc1.
Qed.

Lemma scullp_grown_patched s0 s1 s2 n k bytes :
  grown s0 s1 → patched s1 s2 n k bytes → patched s0 s2 n k bytes.
Proof.
  intros [Ht ? Hc] [Ht' ? ? Hc']. split; [by etrans|congruence|done|].
  intros m. by rewrite Hc', !Hc.
Qed.

Lemma touched_idle s s' : idle s → touched s s' → idle s'.
Proof. intros [] []. split; [tauto|congruence]. Qed.

(** Taking and releasing the mutex does not matter to what a call did. *)
Lemma touched_unlock s0 s1 :
  mutex s0 = false → touched (set_mutex true s0) s1 → touched s0 (set_mutex false s1).
Proof.
  intros ? [Hw ? ? ? ? ? ?]. split; try done.
  intros ?. by apply scullp_set_mutex_wf, Hw, scullp_set_mutex_wf.
Qed.

Lemma scullp_grown_unlock s0 s1 :
  mutex s0 = false → grown (set_mutex true s0) s1 → grown s0 (set_mutex false s1).
Proof. intros ? []. split; [by apply touched_unlock|done..]. Qed.

Lemma scullp_patched_unlock s0 s1 n k bytes :
  mutex s0 = false → patched (set_mutex true s0) s1 n k bytes →
  patched s0 (set_mutex false s1) n k bytes.
Proof. intros ? []. split; [by apply touched_unlock|done..]. Qed.

Lemma touched_locked s0 s1 : touched (set_mutex true s0) s1 → mutex s1 = true.
Proof. by intros []. Qed.

#[local] Hint Resolve grown_touched patched_touched touched_locked touched_unlock scullp_grown_unlock
  scullp_patched_unlock : ldd.

(** The page number used for a position: the list index is an [int]. *)
Definition pgno (q p : Z) : nat :=
  (Z.to_nat (u32 (p / (PAGE_SIZE * q))) * Z.to_nat q + Z.to_nat (p mod (PAGE_SIZE * q) / PAGE_SIZE))%nat.

(** The positions the list index can tell apart. *)
Definition window (q p : Z) : Prop := 0 <= p < 2 ^ 32 * (PAGE_SIZE * q).

Lemma pgno_window q p : 0 < q → window q p → pgno q p = Z.to_nat (p / PAGE_SIZE).
Proof.
  intros Hq [Hp Hp']. unfold pgno. unfold PAGE_SIZE in *.
  assert (0 <= p / (4096 * q) < 2 ^ 32).
  { split; [apply Z.div_pos; lia|apply Z.div_lt_upper_bound; lia]. }
  rewrite u32_small, slot_index by lia. rewrite <-Z.div_div in * by lia.
  pose proof (Z.div_mod (p / 4096) q). pose proof (Z.mod_pos_bound (p / 4096) q).
  rewrite <-Z2Nat.inj_mul, <-Z2Nat.inj_add by lia. f_equal. lia.
Qed.

(** ** Growing the list *)

Definition extend (k : nat) (s : scullp) : scullp :=
  add_live (Z.of_nat k) (set_items (items s ++ replicate k (Item None 0)) s).

Lemma scullp_extend_0 s : extend 0 s = s.
Proof. destruct s. unfold extend, add_live, set_items; cbn. rewrite app_nil_r. f_equal. lia. Qed.

Lemma scullp_extend_S k s : extend k (extend 1 s) = extend (S k) s.
Proof.
  destruct s. unfold extend, add_live, set_items; cbn. rewrite <-app_assoc. f_equal. lia.
Qed.

Lemma scullp_length_extend k s : length (items (extend k s)) = (length (items s) + k)%nat.
Proof. unfold extend; cbn. by rewrite length_app, length_replicate. Qed.

Lemma page_at_extend k s n : page_at (extend k s) n = page_at s n.
Proof. apply slot_of_app_empty. Qed.

Lemma scullp_extend_wf k s : wf s → wf (extend k s).
Proof.
  intros []. split; cbn; try done.
  - by destruct (items s).
  - apply Forall_app; split; [done|]. by apply Forall_replicate.
  - eapply pages_ok_ext; [|done]. intros. by apply slot_of_app_empty.
  - rewrite wf_live0. unfold footprint. rewrite blocks_app, blocks_replicate. lia.
Qed.

Lemma scullp_grown_extend k s : grown s (extend k s).
Proof.
  split; [split; try done|done|].
  - apply scullp_extend_wf.
  - intros. by rewrite page_at_extend.
  - intros. unfold contents. by rewrite page_at_extend.
Qed.

(** ** Contracts

    Documented answers, peers that keep the invariant, and memory for a member
    of the list: [scullp_follow] does not look at what [kmalloc] returned, see
    [scullp_follow_oops]. *)
Record fair_contract (C : contract scullp) : Prop := {
  fair_doc : ∀ c z, c_ans C c z → doc_ans c z;
  fair_peers : ∀ s s', c_rely C s s' → peers s s';
  fair_items : ∀ z, c_ans C (kmalloc sizeof_scullp_dev) z → z ≠ 0
}.

Lemma wp_scullp_follow_loop C n i s :
  fair_contract C → (i < length (items s))%nat →
  wp C (follow_loop n i) (λ r s',
    r = (i + n)%nat ∧ (r < length (items s'))%nat ∧ ∃ k, s' = extend k s) s.
Proof.
  intros HC. revert i s; induction n as [|n IH]; intros i s Hi; simpl.
  { apply wp_ret. split_and!; [lia..|]. exists 0%nat. by rewrite scullp_extend_0. }
  wp_step. wp_step. wp_step. case_bool_decide; [wp_step|unfold append_item; wp_step; wp_step].
  - eapply wp_mono; [by apply IH|]. intros r s' (-> & ? & ?). split_and!; [lia|lia|done].
  - wp_step; [by edestruct fair_items|]. wp_step. wp_step. wp_step.
    change (set_items _ (add_live 1 s)) with (extend 1 s).
    eapply wp_mono; [apply IH; rewrite scullp_length_extend; lia|].
    intros r s' (-> & ? & k & ->). split_and!; [lia|lia|]. exists (S k). apply scullp_extend_S.
Qed.

Lemma wp_scullp_follow C n s (Q : nat → scullp → Prop) :
  fair_contract C → wf s →
  (∀ s' k it, s' = extend k s → items s' !! Z.to_nat (u32 n) = Some it →
    Q (Z.to_nat (u32 n)) s') →
  wp C (scullp_follow n) Q s.
Proof.
  intros HC Hwf HQ. eapply wp_mono.
  { apply wp_scullp_follow_loop; [done|]. pose proof (wf_items _ Hwf). destruct (items s); cbn; [done|lia]. }
  intros r s' (-> & Hr & k & Hs'). cbn in *. apply lookup_lt_is_Some in Hr as [it Hit].
  by eapply HQ.
Qed.

(** ** Allocating on the way to a page *)

Lemma good_pos q : good_qset q → (0 < Z.to_nat q)%nat.
Proof. intros []. lia. Qed.

Lemma scullp_set_array_grown i s o :
  wf s → items s !! i = Some (Item None o) →
  grown s (set_items (alter (set_array (replicate (Z.to_nat (qset s)) None)) i (items s))
             (add_live 1 s)).
Proof.
  intros [] Hi.
  assert (∀ n, slot_of (alter (set_array (replicate (Z.to_nat (qset s)) None)) i (items s))
      (Z.to_nat (qset s)) n = slot_of (items s) (Z.to_nat (qset s)) n) as Hslot.
  { intros. by eapply slot_of_set_array. }
  split; [split; try done|done|].
  - intros _. split; cbn; try done.
    + destruct (items s), i; done.
    + apply Forall_alter; [done|]. intros it Hit [? _]. split; [done|].
      cbn. rewrite length_replicate. destruct wf_qset0. lia.
    + by eapply pages_ok_ext.
    + unfold footprint. rewrite (blocks_alter _ _ (Item None o)) by done. cbn.
      unfold footprint in *. lia.
  - intros n a. unfold page_at. cbn. by rewrite Hslot.
  - intros n. unfold contents, page_at. cbn. by rewrite Hslot.
Qed.

Lemma contents_of_insert pgs a pg p :
  p ≠ Some a → contents_of (<[a := pg]> pgs) p = contents_of pgs p.
Proof. destruct p as [b|]; [|done]. intros. unfold contents_of. by rewrite lookup_insert_ne by congruence. Qed.

Lemma set_slot_grown i j a s arr o :
  wf s → items s !! i = Some (Item (Some arr) o) → arr !! j = Some None → pages s !! a = None →
  grown s (set_items (alter (set_slot j a) i (items s))
             (set_pages (<[a := Page 0 1 (zeroed PAGE_SIZE)]> (pages s)) s)) ∧
  page_at (set_items (alter (set_slot j a) i (items s))
             (set_pages (<[a := Page 0 1 (zeroed PAGE_SIZE)]> (pages s)) s))
    (i * Z.to_nat (qset s) + j)%nat = Some a.
Proof.
  intros [] Hi Hj Ha. pose proof (good_pos _ wf_qset0) as Hq.
  destruct (Forall_lookup_1 _ _ _ _ wf_item0 Hi) as [_ Hlen]. cbn in Hlen.
  pose proof (lookup_lt_Some _ _ _ Hj).
  set (N := (i * Z.to_nat (qset s) + j)%nat). set (l' := alter (set_slot j a) i (items s)).
  assert (∀ n, slot_of l' (Z.to_nat (qset s)) n =
    if decide (n = N) then Some a else slot_of (items s) (Z.to_nat (qset s)) n) as Hslot.
  { intros. eapply slot_of_set_slot; try done; lia. }
  assert (slot_of (items s) (Z.to_nat (qset s)) N = None) as HN.
  { unfold slot_of, N. destruct (slot_split (Z.to_nat (qset s)) ltac:(lia) i j ltac:(lia)) as [-> ->].
    rewrite Hi, Hj. done. }
  assert (∀ n b, page_at s n = Some b → b ≠ a) as Hfresh.
  { intros n b Hb ->. destruct (ok_slot _ _ _ _ wf_pages0 _ _ Hb) as (? & ? & _). congruence. }
  split; [split; [split; try done|done|]|].
  - intros _. split; cbn; try done.
    + unfold l'. by destruct (items s), i.
    + apply Forall_alter; [done|]. intros it Hit [? Harr]. split; [done|].
      cbn. destruct (data it); [|done]. cbn. by rewrite length_insert.
    + eapply pages_ok_alloc; try done.
    + unfold footprint, l'. rewrite (blocks_alter _ _ (Item (Some arr) o)) by done. cbn.
      unfold footprint in *. lia.
  - intros n b Hb. unfold page_at in *. cbn. rewrite Hslot. case_decide; [congruence|done].
  - intros n. unfold contents, page_at. cbn. rewrite Hslot. case_decide as En.
    + subst n. rewrite HN. unfold contents_of. by rewrite lookup_insert_eq.
    + rewrite contents_of_insert; [done|]. intros Hb. by eapply Hfresh.
  - unfold page_at. cbn. rewrite Hslot. by rewrite decide_True.
Qed.

(** An answer of the kernel that makes a call fail. *)
Definition failing (c : kcall) (z : Z) : Prop :=
  match c with
  | kmalloc _ => z = 0
  | copy_user _ | mutex_lock_intr => z ≠ 0
  | _ => False
  end.
Definition may_fail (C : contract scullp) : Prop := ∃ c z, c_ans C c z ∧ failing c z.

Lemma wp_scullp_ensure_array C i s it n (Q : _ → scullp → Prop) :
  wf s → items s !! i = Some it → n = qset s →
  (∀ s' arr o, grown s s' → items s' !! i = Some (Item (Some arr) o) → Q (Some arr) s') →
  (may_fail C → Q None s) →
  wp C (ensure_array i n) Q s.
Proof.
  intros Hwf Hi -> Hok Hko. unfold ensure_array. wp_step. wp_step. wp_step.
  apply (wp_deref _ _ _ _ _ it); [done|]. destruct it as [[arr|] o]; cbn [data].
  - wp_step. by eapply Hok.
  - wp_step. wp_step. wp_step; [wp_step; apply Hko; by exists (kmalloc (qset s * sizeof_ptr)), z|].
    wp_step. wp_step. wp_step. wp_step. wp_step. eapply Hok.
    + exact (scullp_set_array_grown i s o Hwf Hi).
    + cbn. by rewrite list_lookup_alter_eq, Hi.
Qed.

Lemma wp_get_zeroed_pages C s (Q : _ → scullp → Prop) :
  (∀ a, pages s !! a = None →
    Q (Some a) (set_pages (<[a := Page 0 1 (zeroed PAGE_SIZE)]> (pages s)) s)) →
  (may_fail C → Q None s) →
  wp C (get_zeroed_pages 0) Q s.
Proof.
  intros Hok Hko. unfold get_zeroed_pages, pages_size. wp_step.
  replace ((0 <=? 0) && (0 <? 64)) with true by done. wp_step.
  change (u64 (PAGE_SIZE * 2 ^ 0)) with PAGE_SIZE. wp_step. wp_step. wp_step.
  - wp_step. apply Hko. by exists (kmalloc PAGE_SIZE), z.
  - wp_step. wp_step. wp_step. wp_step. wp_step. apply Hok. apply not_elem_of_dom, is_fresh.
Qed.

Lemma wp_ensure_page C i j s arr o (Q : _ → scullp → Prop) :
  wf s → items s !! i = Some (Item (Some arr) o) → 0 <= j < qset s →
  (∀ s' a, grown s s' → page_at s' (i * Z.to_nat (qset s) + Z.to_nat j)%nat = Some a →
    Q (Some a) s') →
  (may_fail C → Q None s) →
  wp C (ensure_page i arr j) Q s.
Proof.
  intros Hwf Hi Hj Hok Hko. unfold ensure_page. wp_step.
  destruct (Forall_lookup_1 _ _ _ _ (wf_item _ Hwf) Hi) as [Ho Hlen]. cbn in Ho, Hlen. subst o.
  destruct (proj2 (lookupZ_is_Some arr j)) as [q Hq]; [lia|].
  apply (wp_deref _ _ _ _ _ q); [done|].
  apply lookupZ_Some in Hq as [_ Hq]. destruct q as [a|].
  - wp_step. apply Hok; [done|]. unfold page_at, slot_of.
    destruct (slot_split (Z.to_nat (qset s)) ltac:(lia) i (Z.to_nat j) ltac:(lia)) as [-> ->].
    by rewrite Hi, Hq.
  - wp_step. wp_step. wp_step. apply (wp_deref _ _ _ _ _ (Item (Some arr) 0)); [done|].
    wp_step. cbn [order]. apply wp_get_zeroed_pages; [|intros; by wp_step; auto].
    intros a Ha. wp_step. wp_step. wp_step.
    destruct (set_slot_grown i (Z.to_nat j) a s arr 0) as [? ?]; try done. by apply Hok.
Qed.

(** ** Writing *)

Lemma alter_insert a f pg (pgs : gmap nat page) :
  pgs !! a = Some pg → alter f a pgs = <[a := f pg]> pgs.
Proof.
  intros Ha. apply map_eq. intros b. destruct (decide (a = b)) as [<-|].
  - by rewrite lookup_alter_eq, lookup_insert_eq, Ha.
  - by rewrite lookup_alter_ne, lookup_insert_ne.
Qed.

Lemma page_of s n a :
  wf s → page_at s n = Some a →
  ∃ pg, pages s !! a = Some pg ∧ good_page (held a (refs s)) pg ∧ pg_bytes pg = contents s n.
Proof.
  intros Hwf Hn. destruct (ok_slot _ _ _ _ (wf_pages _ Hwf) _ _ Hn) as (pg & Hpg & ?).
  exists pg. split_and!; [done..|]. unfold contents, contents_of. by rewrite Hn, Hpg.
Qed.

Lemma store_patched s n a k bytes :
  wf s → page_at s n = Some a → 0 <= k → k + lenZ bytes <= PAGE_SIZE →
  patched s (set_pages (alter (store_page k bytes) a (pages s)) s) n k bytes.
Proof.
  intros Hwf Hn Hk Hlen. destruct (page_of s n a Hwf Hn) as (pg & Hpg & [] & Hb).
  rewrite (alter_insert _ _ pg) by done.
  split; [split; try done|done|by exists a|].
  - intros []. split; cbn; try done. eapply pages_ok_update; try done; [|apply wf_pages0].
    split; cbn; [done..|by rewrite length_store].
  - intros m. unfold contents, page_at. cbn. case_decide as Em.
    + subst m. change (slot_of (items s) (Z.to_nat (qset s)) n) with (page_at s n).
      rewrite Hn. unfold contents_of. by rewrite lookup_insert_eq, Hpg.
    + apply contents_of_insert. intros Hm. apply Em. by eapply ok_inj, Hn; [apply wf_pages|].
Qed.

Lemma wp_page_bytes C s n a k m (Q : list cell → scullp → Prop) :
  wf s → page_at s n = Some a → 0 <= k → 0 <= m → k + m <= PAGE_SIZE →
  Q (slice k m (contents s n)) s → wp C (page_bytes a k m) Q s.
Proof.
  intros Hwf Hn ? ? ? HQ. destruct (page_of s n a Hwf Hn) as (pg & Hpg & [? ? Hlen] & Hb).
  unfold page_bytes. wp_step. wp_step. wp_step. apply (wp_deref _ _ _ _ _ pg); [done|].
  rewrite bool_decide_true by lia. wp_step. by rewrite Hb.
Qed.

(** [out: mutex_unlock(&dev->mutex); return retval;] *)
Lemma wp_scullp_exit {A} C s (r : A) (Q : A → scullp → Prop) :
  mutex s = true → Q r (set_mutex false s) → wp C (unlock;; mret r) Q s.
Proof. intros. wp_step. apply wp_unlock; [done|]. by wp_step. Qed.

(** Taking the mutex at the start of a transfer. *)
Lemma wp_scullp_enter C s (Q : bool → scullp → Prop) :
  fair_contract C → idle s →
  (∀ s0, c_rely C s s0 → may_fail C → idle s0 → Q false s0) →
  (∀ s0, c_rely C s s0 → idle s0 → qset s = qset s0 → Q true (set_mutex true s0)) →
  wp C lock_interruptible Q s.
Proof.
  intros HC Hs Hko Hok.
  assert (∀ s0, c_rely C s s0 → idle s0 ∧ qset s = qset s0) as Hpeer.
  { intros s0 H0. pose proof (fair_peers _ HC _ _ H0) as Hp. split; [by eapply scullp_peers_idle|].
    by destruct Hp as (_ & _ & -> & _). }
  apply wp_lock_interruptible.
  - intros s' Hs'. by destruct (Hpeer _ Hs') as [[] _].
  - intros s0 z Hs0 _ _. destruct (Hpeer _ Hs0). by apply Hok.
  - intros s0 z Hs0 Hz ?. destruct (Hpeer _ Hs0). apply Hko; [done| |done].
    by exists mutex_lock_intr, z.
Qed.

(** The quantum of a device that is well formed is a page. *)
Lemma wp_dev_order C s (Q : Z → scullp → Prop) : wf s → Q 0 s → wp C dev_order Q s.
Proof.
  intros Hwf HQ. unfold dev_order. wp_step. wp_step.
  destruct (items s) as [|it l] eqn:E; [by destruct (wf_items _ Hwf)|].
  wp_step. apply (wp_deref _ _ _ _ _ it); [done|]. wp_step.
  pose proof (wf_item _ Hwf) as Hi. rewrite E in Hi. by apply Forall_cons in Hi as [[-> _] _].
Qed.

Lemma wp_pages_size_0 C s (Q : Z → scullp → Prop) : Q PAGE_SIZE s → wp C (pages_size 0) Q s.
Proof.
  intros. unfold pages_size. replace ((0 <=? 0) && (0 <? 64)) with true by done. by wp_step.
Qed.

(** The copy of [scullp_write] into the page it found, and what follows. *)
Lemma wp_scullp_fill {A} C s n a k src (f : bool → K scullp A) Q :
  fair_contract C → wf s → page_at s n = Some a → 0 <= k → k + lenZ src <= PAGE_SIZE →
  (∀ s', patched s s' n k (Some <$> src) → wp C (f true) Q s') →
  (∀ s', may_fail C → touched s s' → size s' = size s → wp C (f false) Q s') →
  wp C ('(bytes, ok) ← copy_from_user src;
        modify (λ s, set_pages (alter (store_page k bytes) a (pages s)) s);; f ok) Q s.
Proof.
  intros HC Hwf Hn Hk Hlen Hok Hko. wp_step.
  apply wp_copy_from_user; [intros; by apply (fair_doc _ HC)|..].
  - intros z _ _. wp_step. wp_step. apply Hok, store_patched; [done..|].
    by rewrite length_fmap.
  - intros z l ? ? Hl. wp_step. wp_step.
    destruct (store_patched s n a k l Hwf Hn Hk ltac:(lia)). apply Hko; [|done..].
    by exists (copy_user (lenZ src)), z.
Qed.

(** Finding the page to write to, allocating on the way. *)
Lemma wp_scullp_reserve {A} C s item s_pos (fail : K scullp A) (f : nat → K scullp A) n Q :
  fair_contract C → wf s → 0 <= s_pos < qset s → n = qset s →
  (∀ s', may_fail C → grown s s' → wp C fail Q s') →
  (∀ s' a, grown s s' →
    page_at s' (Z.to_nat (u32 item) * Z.to_nat (qset s) + Z.to_nat s_pos)%nat = Some a →
    wp C (f a) Q s') →
  wp C (i ← scullp_follow item;
        arr ← ensure_array i n;
        match arr with
        | None => fail
        | Some arr =>
            p ← ensure_page i arr s_pos;
            match p with None => fail | Some a => f a end
        end) Q s.
Proof.
  intros HC Hwf Hj -> Hko Hok. wp_step. apply wp_scullp_follow; [done..|].
  intros s1 k it -> Hit. pose proof (scullp_grown_extend k s) as Hg1.
  wp_step. eapply (wp_scullp_ensure_array _ _ _ it); [by apply Hg1|done|done|..].
  2:{ intros ?. by apply Hko. }
  intros s2 arr o Hg2 Harr. assert (grown s s2) as Hg by (by etrans).
  pose proof (touched_qset _ _ (grown_touched _ _ Hg)) as Hq.
  wp_step. eapply wp_ensure_page; [by apply Hg|done|by rewrite Hq|..].
  2:{ intros ?. by apply Hko. }
  intros s3 a Hg3 Ha. rewrite Hq in Ha. apply Hok; [by etrans|done].
Qed.

Definition chunk (p n : Z) : Z := Z.min n (PAGE_SIZE - p mod PAGE_SIZE).

Lemma scullp_chunk_bounds p n : 0 <= n → 0 <= chunk p n <= n ∧ p mod PAGE_SIZE + chunk p n <= PAGE_SIZE.
Proof.
  intros. unfold chunk. pose proof (Z.mod_pos_bound p PAGE_SIZE). unfold PAGE_SIZE in *. lia.
Qed.

Definition write_post (C : contract scullp) (s : scullp) (buf : list Z) (f_pos : Z)
    (r : xfer) (s' : scullp) : Prop :=
  ∃ s0, c_rely C s s0 ∧
    ((may_fail C ∧ (∃ e, e ∈ [ERESTARTSYS; ENOMEM; EFAULT] ∧ r = Xfer (- e) [] f_pos) ∧
      touched s0 s' ∧ size s' = size s0) ∨
     (∃ s1 n, n = chunk f_pos (lenZ buf) ∧ r = Xfer n [] (f_pos + n) ∧
        s' = set_size (Z.max (size s0) (f_pos + n)) s1 ∧
        patched s0 s1 (pgno (qset s0) f_pos) (f_pos mod PAGE_SIZE) (Some <$> take (Z.to_nat n) buf))).

(** [if (dev->size < *f_pos) dev->size = *f_pos;] *)
Lemma scullp_update_size n s :
  (if size s <? n then set_size n s else s) = set_size (Z.max (size s) n) s.
Proof.
  case_match; zbool; [by rewrite Z.max_r by lia|]. rewrite Z.max_l by lia. by destruct s.
Qed.

Lemma write_failed C s s0 s1 buf f_pos e :
  c_rely C s s0 → mutex s0 = false → may_fail C → e ∈ [ERESTARTSYS; ENOMEM; EFAULT] →
  touched (set_mutex true s0) s1 → size s1 = size s0 →
  write_post C s buf f_pos (Xfer (- e) [] f_pos) (set_mutex false s1).
Proof.
  intros. exists s0. split; [done|]. left. split_and!; [done|by exists e|by apply touched_unlock|done].
Qed.

Lemma wp_scullp_write C s buf f_pos :
  fair_contract C → idle s → 0 <= f_pos → f_pos + lenZ buf <= LONG_MAX →
  wp C (scullp_write buf f_pos) (write_post C s buf f_pos) s.
Proof.
  intros HC Hs Hp Hp'. unfold scullp_write. wp_step. apply wp_dev_order; [apply Hs|].
  wp_step. apply wp_pages_size_0. change (s32 PAGE_SIZE) with PAGE_SIZE.
  wp_step. wp_step. wp_step. apply wp_scullp_enter; [done..| |].
  { intros s0 H0 ? ?. cbn [negb]. wp_step. exists s0. split; [done|]. left.
    split_and!; [done|exists ERESTARTSYS; split; [left|done]|done|done]. }
  intros s0 H0 [Hwf0 Hm0] ->. cbn [negb]. destruct (wf_qset _ Hwf0) as [Hq Hqm].
  destruct (slot_bounds PAGE_SIZE (qset s0) f_pos) as [Hj Hk]; [done..|].
  wp_step. apply wp_find_slot_at; [done..|lia|]. intros item Hitem. cbn beta iota.
  eapply wp_scullp_reserve; [done|by apply scullp_set_mutex_wf|done|done|..].
  { intros s1 Hf Hg. apply wp_scullp_exit; [eauto with ldd|].
    apply (write_failed C s s0); try done; [set_solver|apply Hg|apply Hg]. }
  intros s1 a Hg Ha. rewrite Hitem in Ha. fold (pgno (qset s0) f_pos) in Ha.
  cbn beta zeta. rewrite count_clipped by done. fold (chunk f_pos (lenZ buf)).
  destruct (scullp_chunk_bounds f_pos (lenZ buf)) as [Hc Hck]; [lia|].
  assert (wf s1) as Hwf1 by (by apply Hg, scullp_set_mutex_wf).
  wp_step. eapply wp_page_bytes; [done..|lia|lia|lia|].
  set (src := take (Z.to_nat (chunk f_pos (lenZ buf))) buf).
  assert (lenZ src = chunk f_pos (lenZ buf)) as Hsrc by (unfold src; rewrite length_take; lia).
  apply (wp_scullp_fill C s1 (pgno (qset s0) f_pos) a _ src (λ ok, if negb ok then _ else _));
    [done|done|exact Ha|lia|lia|..]; cbn [negb].
  - intros s2 H2. eapply scullp_grown_patched in H2; [|exact Hg].
    wp_step. apply wp_modify. rewrite scullp_update_size. apply wp_scullp_exit; [by destruct H2 as [[]]|].
    rewrite s64_small, u64_small by (unfold LONG_MAX, INT_MAX in *; lia).
    rewrite (patched_size _ _ _ _ _ H2). exists s0. split; [done|]. right.
    exists (set_mutex false s2), (chunk f_pos (lenZ buf)). split_and!; [done..|].
    by apply scullp_patched_unlock.
  - intros s2 Hf Ht Hsz. assert (touched (set_mutex true s0) s2) by (etrans; [apply Hg|done]).
    apply wp_scullp_exit; [eauto with ldd|].
    apply (write_failed C s s0); try done; [set_solver|rewrite Hsz; apply Hg].
Qed.

(** ** Reading *)

(** Following the list, then looking for the page without allocating it. *)
Lemma wp_scullp_lookup {A} C s item s_pos (miss : K scullp A) (f : nat → K scullp A) Q :
  fair_contract C → wf s → 0 <= s_pos < qset s →
  let n := (Z.to_nat (u32 item) * Z.to_nat (qset s) + Z.to_nat s_pos)%nat in
  (∀ s', grown s s' → page_at s n = None → wp C miss Q s') →
  (∀ s' a, grown s s' → page_at s n = Some a → page_at s' n = Some a → wp C (f a) Q s') →
  wp C (i ← scullp_follow item;
        dptr ← gets items ≫= λ l, deref NullDeref (l !! i);
        match data dptr with
        | None => miss
        | Some arr =>
            q ← deref OutOfBounds (lookupZ arr s_pos);
            match q with None => miss | Some a => f a end
        end) Q s.
Proof.
  intros HC Hwf Hj n Hmiss Hok. wp_step. apply wp_scullp_follow; [done..|].
  intros s1 k it Hs1 Hit. pose proof (scullp_grown_extend k s) as Hg. rewrite <-Hs1 in Hg.
  wp_step. wp_step. wp_step. apply (wp_deref _ _ _ _ _ it); [done|].
  assert (page_at s n = match data it with
      | Some arr => mjoin (arr !! Z.to_nat s_pos) | None => None end) as Hn.
  { rewrite <-(page_at_extend k), <-Hs1. unfold page_at, slot_of.
    rewrite (touched_qset _ _ (grown_touched _ _ Hg)). unfold n.
    destruct (slot_split (Z.to_nat (qset s)) ltac:(lia) (Z.to_nat (u32 item)) (Z.to_nat s_pos)
      ltac:(lia)) as [-> ->]. rewrite Hit. by destruct it as [[]]. }
  pose proof (Forall_lookup_1 _ _ _ _ (wf_item _ (touched_wf _ _ (grown_touched _ _ Hg) Hwf)) Hit)
    as [_ Hlen].
  destruct (data it) as [arr|]; [|by apply Hmiss].
  rewrite (touched_qset _ _ (grown_touched _ _ Hg)) in Hlen.
  destruct (proj2 (lookupZ_is_Some arr s_pos)) as [c Hc]; [lia|].
  wp_step. apply (wp_deref _ _ _ _ _ c); [done|].
  apply lookupZ_Some in Hc as [_ Hc]. rewrite Hc in Hn. cbn in Hn.
  destruct c as [a|]; [|by apply Hmiss]. apply Hok; [done..|].
  by apply (touched_page _ _ (grown_touched _ _ Hg)).
Qed.

(** What a read of a device that is not mapped out by an error returns. *)
Definition read_result (s : scullp) (count p : Z) : xfer :=
  if size s <? p then Xfer 0 [] p else
  match page_at s (pgno (qset s) p) with
  | None => Xfer 0 [] p
  | Some _ =>
      let n := chunk p (Z.min count (size s - p)) in
      Xfer n (slice (p mod PAGE_SIZE) n (contents s (pgno (qset s) p))) (p + n)
  end.

Definition read_post (C : contract scullp) (s : scullp) (count f_pos : Z)
    (r : xfer) (s' : scullp) : Prop :=
  ∃ s0, c_rely C s s0 ∧ grown s0 s' ∧
    (r = read_result s0 count f_pos ∨
     may_fail C ∧ ∃ e bytes, e ∈ [ERESTARTSYS; EFAULT] ∧ r = Xfer (- e) bytes f_pos).

Lemma wp_scullp_read C s count f_pos :
  fair_contract C → idle s → 0 <= count → 0 <= f_pos → f_pos + count <= LONG_MAX →
  wp C (scullp_read count f_pos) (read_post C s count f_pos) s.
Proof.
  intros HC Hs Hcount Hp Hp'. unfold scullp_read. wp_step. apply wp_dev_order; [apply Hs|].
  wp_step. apply wp_pages_size_0. change (s32 PAGE_SIZE) with PAGE_SIZE.
  wp_step. wp_step. wp_step. apply wp_scullp_enter; [done..| |].
  { intros s0 H0 ? ?. cbn [negb]. wp_step. exists s0. split_and!; [done..|]. right.
    split; [done|]. exists ERESTARTSYS, []. split; [left|done]. }
  intros s0 H0 [Hwf0 Hm0] ->. cbn [negb]. destruct (wf_qset _ Hwf0) as [Hq Hqm].
  destruct (slot_bounds PAGE_SIZE (qset s0) f_pos) as [Hj Hk]; [done..|].
  destruct (wf_size _ Hwf0) as [Hsz1 Hsz2]. unfold LONG_MAX in Hp', Hsz2.
  wp_step. wp_step. cbn [size set_mutex]. rewrite (u64_small f_pos), (u64_small (f_pos + count)) by lia.
  rewrite Z.gtb_ltb. destruct (size s0 <? f_pos) eqn:Esz.
  { apply wp_scullp_exit; [done|]. exists s0. split_and!; [done|by apply scullp_grown_unlock|].
    left. unfold read_result. by rewrite Esz. }
  zbool. rewrite (u64_small (size s0 - f_pos)) by lia.
  replace (if f_pos + count >? size s0 then size s0 - f_pos else count)
    with (Z.min count (size s0 - f_pos)) by (case_match; zbool; lia).
  wp_step. apply wp_find_slot_at; [done..|unfold LONG_MAX; lia|]. intros item Hitem. cbn beta iota.
  assert ((Z.to_nat (u32 item) * Z.to_nat (qset s0) + Z.to_nat (f_pos mod (PAGE_SIZE * qset s0) /
    PAGE_SIZE))%nat = pgno (qset s0) f_pos) as Hn by (by rewrite Hitem).
  apply wp_scullp_lookup; [done|by apply scullp_set_mutex_wf|done|..]; cbn [qset set_mutex]; rewrite Hn.
  { intros s1 Hg Hhole. apply wp_scullp_exit; [eauto with ldd|]. exists s0. split_and!; [done|eauto with ldd|].
    left. unfold read_result. rewrite (proj2 (Z.ltb_ge _ _)) by lia.
    by assert (page_at s0 (pgno (qset s0) f_pos) = None) as -> by exact Hhole. }
  intros s1 a Hg Ha Ha1. cbn beta zeta. rewrite count_clipped by done.
  set (m := chunk f_pos (Z.min count (size s0 - f_pos))).
  destruct (scullp_chunk_bounds f_pos (Z.min count (size s0 - f_pos))) as [Hc Hck]; [lia|].
  fold (chunk f_pos (Z.min count (size s0 - f_pos))). fold m in Hc, Hck |- *.
  wp_step. eapply wp_page_bytes; [by apply Hg, scullp_set_mutex_wf|done|lia..|].
  rewrite (grown_contents _ _ Hg).
  wp_step. apply wp_copy_to_user. intros z Hz. cbn beta iota.
  destruct (z =? 0) eqn:Hz0; zbool; cbn [negb]; (apply wp_scullp_exit; [eauto with ldd|]); exists s0;
    (split_and!; [done|eauto with ldd|]); [left|right].
  - subst z. rewrite Nat.sub_0_r, take_ge, s64_small by lia.
    unfold read_result. rewrite (proj2 (Z.ltb_ge _ _)) by lia.
    by assert (page_at s0 (pgno (qset s0) f_pos) = Some a) as -> by exact Ha.
  - split; [|exists EFAULT; eexists; split; [set_solver|done]].
    eexists (copy_user _), z. by split.
Qed.

(** ** The other entry points *)

Section trim.
Context (C : contract scullp) (s0 : scullp) (Hwf : wf s0) (Hrefs : refs s0 = []).

(** The page allocator when the slots below page [m] have been freed. *)
Definition freed_below (m : nat) (pgs : gmap nat page) : Prop :=
  (∀ n a, (n < m)%nat → page_at s0 n = Some a → pgs !! a = None) ∧
  (∀ n a, (m <= n)%nat → page_at s0 n = Some a → pgs !! a = pages s0 !! a) ∧
  (∀ a, is_Some (pgs !! a) → is_Some (pages s0 !! a)).

(** The state in the middle of the loop. *)
Definition trimming (m : nat) (k : Z) (s : scullp) : Prop :=
  ∃ pgs, freed_below m pgs ∧ s = set_pages pgs (add_live (- k) s0).

Lemma freed_below_hole m pgs :
  freed_below m pgs → page_at s0 m = None → freed_below (S m) pgs.
Proof.
  intros (H1 & H2 & H3) Hm. split_and!; [|intros; apply (H2 n); [lia|done]|done].
  intros n a Hn Ha. destruct (decide (n = m)) as [->|]; [congruence|]. apply (H1 n); [lia|done].
Qed.

Lemma freed_below_page m pgs a :
  freed_below m pgs → page_at s0 m = Some a → freed_below (S m) (delete a pgs).
Proof.
  intros (H1 & H2 & H3) Hm. pose proof (ok_inj _ _ _ _ (wf_pages _ Hwf)) as Hinj. split_and!.
  - intros n b Hn Hb. destruct (decide (a = b)) as [->|]; [by rewrite lookup_delete_eq|].
    rewrite lookup_delete_ne by done. apply (H1 n); [|done].
    assert (n ≠ m) by congruence. lia.
  - intros n b Hn Hb. rewrite lookup_delete_ne; [apply (H2 n); [lia|done]|].
    intros ->. assert (n = m) by (by eapply Hinj). lia.
  - intros b [pg Hb]. apply lookup_delete_Some in Hb as [_ Hb]. by apply H3.
Qed.

Lemma wp_free_array arr i n j k s (Q : unit → scullp → Prop) :
  items s0 !! i = Some (Item (Some arr) 0) → (j + n = Z.to_nat (qset s0))%nat →
  trimming (i * Z.to_nat (qset s0) + j) k s →
  (∀ s', trimming (S i * Z.to_nat (qset s0)) k s' → Q tt s') →
  wp C (free_array n j arr 0) Q s.
Proof.
  intros Hi. destruct (Forall_lookup_1 _ _ _ _ (wf_item _ Hwf) Hi) as [_ Hlen]. cbn in Hlen.
  revert j s; induction n as [|n IH]; intros j s Hj Hs HQ; simpl.
  { wp_step. apply HQ. by replace (S i * _)%nat with (i * Z.to_nat (qset s0) + j)%nat by lia. }
  destruct (lookup_lt_is_Some_2 arr j) as [q Hq]; [lia|].
  wp_step. apply (wp_deref _ _ _ _ _ q); [done|].
  assert (page_at s0 (i * Z.to_nat (qset s0) + j) = q) as Hslot.
  { unfold page_at, slot_of.
    destruct (slot_split (Z.to_nat (qset s0)) ltac:(lia) i j ltac:(lia)) as [-> ->].
    by rewrite Hi, Hq. }
  destruct Hs as (pgs & Hf & ->). wp_step. destruct q as [a|].
  - unfold free_pages. destruct (page_of s0 _ a Hwf Hslot) as (pg & Hpg & [Ho Hc _] & _).
    rewrite Hrefs in Hc. cbn in Hc.
    assert (pgs !! a = Some pg) as Hpgs.
    { destruct Hf as (_ & H2 & _). rewrite (H2 (i * Z.to_nat (qset s0) + j)%nat); done. }
    wp_step. wp_step. wp_step. apply (wp_deref _ _ _ _ _ pg); [done|]. rewrite Ho, Hc. cbn [Z.eqb negb].
    wp_step. apply (IH (S j)); [lia| |done]. exists (delete a pgs). split; [|done].
    replace (i * Z.to_nat (qset s0) + S j)%nat with (S (i * Z.to_nat (qset s0) + j)) by lia.
    by apply freed_below_page.
  - wp_step. apply (IH (S j)); [lia| |done]. exists pgs. split; [|done].
    replace (i * Z.to_nat (qset s0) + S j)%nat with (S (i * Z.to_nat (qset s0) + j)) by lia.
    by apply freed_below_hole.
Qed.
(** A member without an array has only holes. *)
Lemma freed_below_holes i n pgs o :
  items s0 !! i = Some (Item None o) → (n <= Z.to_nat (qset s0))%nat →
  freed_below (i * Z.to_nat (qset s0)) pgs → freed_below (i * Z.to_nat (qset s0) + n) pgs.
Proof.
  intros Hi. induction n as [|n IH]; intros Hn Hf; [by rewrite Nat.add_0_r|].
  rewrite Nat.add_succ_r. apply freed_below_hole; [apply IH; [lia|done]|].
  unfold page_at, slot_of.
  destruct (slot_split (Z.to_nat (qset s0)) ltac:(lia) i n ltac:(lia)) as [-> _]. by rewrite Hi.
Qed.

Lemma wp_free_member {A} i it k s first (rest : K scullp A) Q :
  items s0 !! i = Some it → trimming (i * Z.to_nat (qset s0)) k s →
  (∀ s', trimming (S i * Z.to_nat (qset s0)) (k + item_blocks it - if first : bool then 1 else 0) s' →
    wp C rest Q s') →
  wp C ((match data it with
         | Some arr => free_array (Z.to_nat (qset s0)) 0 arr (order it);; modify (add_live (-1))
         | None => mret tt
         end);;
        (if first : bool then mret tt else modify (add_live (-1)));; rest) Q s.
Proof.
  intros Hi Hs HQ.
  assert (∀ j s', trimming (S i * Z.to_nat (qset s0)) j s' →
    j + (if first then 0 else 1) = k + item_blocks it - (if first then 1 else 0) →
    wp C ((if first then mret tt else modify (add_live (-1)));; rest) Q s') as Hrest.
  { intros j s' (pgs & Hf & ->) Hj. wp_step. destruct first; wp_step; apply HQ; exists pgs;
      (split; [done|]); destruct s0; unfold add_live, set_pages; cbn; f_equal; lia. }
  destruct (Forall_lookup_1 _ _ _ _ (wf_item _ Hwf) Hi) as [Ho _].
  destruct it as [[arr|] o]; cbn in Ho; subst o; cbn [data order] in *; unfold item_blocks in Hrest;
    cbn [data] in Hrest; wp_step.
  - wp_step. eapply (wp_free_array arr i _ _ k); [done|by rewrite Nat.add_0_l| |].
    { by rewrite Nat.add_0_r. }
    intros s' (pgs & Hf & ->). wp_step. apply (Hrest (k + 1)); [|destruct first; lia].
    exists pgs. split; [done|]. destruct s0; unfold add_live, set_pages; cbn; f_equal; lia.
  - wp_step. apply (Hrest k); [|destruct first; lia]. destruct Hs as (pgs & Hf & ->).
    exists pgs. split; [|done].
    replace (S i * Z.to_nat (qset s0))%nat with (i * Z.to_nat (qset s0) + Z.to_nat (qset s0))%nat
      by lia.
    by eapply freed_below_holes.
Qed.

Lemma wp_free_rest i k s (Q : unit → scullp → Prop) :
  trimming (i * Z.to_nat (qset s0)) k s →
  (∀ s', trimming (Nat.max i (length (items s0)) * Z.to_nat (qset s0))
      (k + blocks (drop i (items s0))) s' → Q tt s') →
  wp C (free_items (qset s0) false (drop i (items s0))) Q s.
Proof.
  remember (drop i (items s0)) as l eqn:El. revert i k s El.
  induction l as [|it l IH]; intros i k s El Hs HQ; cbn -[Nat.mul].
  - wp_step. apply HQ. cbn. rewrite Z.add_0_r. rewrite Nat.max_l; [done|].
    symmetry in El. by apply drop_nil_inv in El.
  - assert (items s0 !! i = Some it) as Hi.
    { rewrite <-(Nat.add_0_r i), <-lookup_drop, <-El. done. }
    apply (wp_free_member i it k s false); [done..|]. intros s' Hs'. eapply IH; [|done|].
    + rewrite (drop_S _ _ _ Hi) in El. by simplify_eq.
    + intros s2 Hs2. apply HQ. pose proof (lookup_lt_Some _ _ _ Hi). cbn [blocks].
      replace (Nat.max i (length (items s0))) with (Nat.max (S i) (length (items s0))) by lia.
      by replace (k + (item_blocks it + blocks l)) with (k + item_blocks it - 0 + blocks l) by lia.
Qed.

Lemma slot_of_lt l q n a : slot_of l q n = Some a → (n / q < length l)%nat.
Proof. unfold slot_of. destruct (l !! _) eqn:E; [|done]. intros _. by eapply lookup_lt_Some. Qed.

Lemma freed_all pgs :
  freed_below (length (items s0) * Z.to_nat (qset s0)) pgs → pgs = ∅.
Proof.
  intros (H1 & _ & H3). apply map_empty. intros a. destruct (pgs !! a) as [pg|] eqn:E; [|done].
  destruct (H3 a) as [pg0 Hpg0]; [by eexists|].
  destruct (ok_page _ _ _ _ (wf_pages _ Hwf) _ _ Hpg0) as [n Hn].
  rewrite <-E. apply (H1 n); [|done]. apply slot_of_lt in Hn.
  pose proof (good_pos _ (wf_qset _ Hwf)). rewrite (slot_join (Z.to_nat (qset s0)) ltac:(lia) n).
  pose proof (Nat.mod_upper_bound n (Z.to_nat (qset s0))). nia.
Qed.

Lemma slot_of_empty o q n : slot_of [Item None o] q n = None.
Proof. unfold slot_of. by destruct (n `div` q)%nat as [|[]]. Qed.

(** The device emptied. *)
Definition trimmed : scullp :=
  set_items [Item None (scullp_order s0)] (set_qset (scullp_qset s0) (set_size 0
    (set_pages ∅ (add_live (- footprint (items s0)) s0)))).

Lemma wp_scullp_trim (Q : Z → scullp → Prop) :
  vmas s0 = 0 → Q 0 trimmed → wp C scullp_trim Q s0.
Proof.
  intros Hv HQ. unfold scullp_trim. wp_step. wp_step. wp_step. wp_step. rewrite Hv. change (c_bool 0) with false.
  cbn iota. wp_step. wp_step. wp_step. destruct (items s0) as [|it l] eqn:E; [by destruct (wf_items _ Hwf)|].
  assert (trimming (0 * Z.to_nat (qset s0)) 0 s0) as H0.
  { exists (pages s0). split; [|by destruct s0; unfold set_pages, add_live; cbn; f_equal; lia].
    split_and!; [intros n a Hn; lia|done..]. }
  cbn [free_items]. apply (wp_free_member 0 it 0 s0 true); [by rewrite E|done|]. intros s1 H1.
  assert (drop 1 (items s0) = l) as Hd by (by rewrite E). rewrite <-Hd.
  eapply wp_free_rest; [done|]. rewrite Hd. intros s2 (pgs & Hf & ->).
  rewrite Nat.max_r in Hf by (rewrite E; cbn; lia). apply freed_all in Hf as ->.
  repeat wp_step.
  match goal with |- Q 0 ?s => replace s with trimmed; [done|] end.
  unfold trimmed, set_items, set_qset, set_size, set_pages, add_live, footprint. cbn.
  rewrite E. cbn [blocks]. f_equal. lia.
Qed.

Lemma scullp_trimmed_wf : vmas s0 = 0 → wf trimmed.
Proof.
  intros Hv. pose proof Hwf as []. destruct wf_tunables0. split; cbn; try done.
  - by apply Forall_singleton.
  - rewrite Hrefs. split.
    + intros n a. by rewrite slot_of_empty.
    + intros a pg Ha. by rewrite lookup_empty in Ha.
    + intros n m a Hn. by rewrite slot_of_empty in Hn.
    + intros n a Hn. by apply not_elem_of_nil in Hn.
  - unfold footprint. cbn. unfold footprint in *. lia.
Qed.
End trim.

(** Nothing is mapped: nothing is held. *)
Lemma unmapped_refs s : wf s → vmas s = 0 → refs s = [].
Proof. intros [] Hv. destruct (refs s); [done|]. specialize (wf_mapped0 ltac:(done)). lia. Qed.

(** A device that is mapped is not trimmed. *)
Lemma wp_trim_busy C s (Q : Z → scullp → Prop) :
  vmas s ≠ 0 → Q (- EBUSY) s → wp C scullp_trim Q s.
Proof.
  intros Hv HQ. unfold scullp_trim. do 4 wp_step.
  assert (c_bool (vmas s) = true) as -> by (apply negb_true_iff, Z.eqb_neq; done). by wp_step.
Qed.

Lemma wp_scullp_open C s f_flags :
  fair_contract C → idle s → wp C (scullp_open f_flags) (λ _, idle) s.
Proof.
  intros HC Hs. unfold scullp_open. wp_step; [|by wp_step]. wp_step. apply wp_scullp_enter; [done..| |].
  - intros s0 _ _ ?. by wp_step.
  - intros s0 _ [Hwf0 Hm0] _. wp_step.
    assert (wf (set_mutex true s0)) as Hwf1 by (by apply scullp_set_mutex_wf).
    destruct (decide (vmas s0 = 0)) as [Hv|Hv].
    + apply wp_scullp_trim; [done|by apply unmapped_refs|done|].
      apply wp_scullp_exit; [done|]. split; [|done]. apply scullp_set_mutex_wf, scullp_trimmed_wf; [done| |done].
      by apply unmapped_refs.
    + apply wp_trim_busy; [done|]. apply wp_scullp_exit; [done|]. split; [|done]. by apply scullp_set_mutex_wf.
Qed.

Lemma wp_scullp_llseek C s off whence f_pos :
  wp C (scullp_llseek off whence f_pos) (λ _ s', s' = s) s.
Proof. unfold scullp_llseek. wp_step. wp_step. repeat case_match; by wp_step. Qed.

(** The commands that store a value of the caller's choice in a tunable. *)
Definition retunes (cmd : Z) : bool :=
  existsb (Z.eqb cmd)
    [SCULLP_IOCSORDER; SCULLP_IOCTORDER; SCULLP_IOCXORDER; SCULLP_IOCHORDER;
     SCULLP_IOCSQSET; SCULLP_IOCTQSET; SCULLP_IOCXQSET; SCULLP_IOCHQSET].

Definition reset (s : scullp) : scullp :=
  set_scullp_order SCULLP_ORDER (set_scullp_qset SCULLP_QSET s).

Lemma reset_idle s : idle s → idle (reset s).
Proof. intros [[] Hm]. split; [|done]. by split. Qed.

Lemma wp_scullp_ioctl_keeps C s cmd arg :
  retunes cmd = false → wp C (scullp_ioctl cmd arg) (λ _ s', s' = s ∨ s' = reset s) s.
Proof.
  intros H. unfold scullp_ioctl.
  wp_step; [wp_step; by left|]. wp_step; [wp_step; by left|].
  apply wp_bind, (wp_mono _ _ (λ _ s', s' = s)).
  { repeat (wp_step; [by wp_step|]). by wp_step. }
  intros ok s' ->. wp_step; [wp_step; by left|]. wp_step.
  { wp_go. by right. }
  unfold retunes in H; cbn [existsb] in H.
  repeat match goal with
  | |- wp _ (if ?c =? ?d then _ else _) _ _ =>
      destruct (c =? d) eqn:?; [zbool; subst; try done|]
  end.
  all: unfold ioctl_G, ioctl_Q, put_user_from; wp_go; by left.
Qed.

Lemma write_post_touched C s buf f_pos r s' :
  fair_contract C → idle s → 0 <= f_pos → f_pos + lenZ buf <= LONG_MAX →
  write_post C s buf f_pos r s' →
  idle s' ∧ works s' = works s' ∧ f_pos <= Quanta.pos r <= f_pos + lenZ buf.
Proof.
  intros HC Hs Hp Hp' (s0 & H0 & Hcase).
  assert (idle s0) as Hs0 by (eapply scullp_peers_idle, HC; eauto).
  destruct Hcase as [(_ & (e & _ & ->) & Ht & _)|(s1 & n & Hn & -> & -> & Hpt)]; cbn.
  - split_and!; [by eapply touched_idle|done|lia|lia].
  - destruct (scullp_chunk_bounds f_pos (lenZ buf)); [lia|]. split_and!; [|done|lia|lia].
    destruct (touched_idle _ _ Hs0 (patched_touched _ _ _ _ _ Hpt)) as [[] ?]. split; [|done].
    destruct (wf_size _ (proj1 Hs0)). split; cbn; try done; lia.
Qed.

Lemma read_post_idle C s count f_pos r s' :
  fair_contract C → idle s → 0 <= count → read_post C s count f_pos r s' →
  idle s' ∧ f_pos <= Quanta.pos r <= f_pos + count.
Proof.
  intros HC Hs Hc (s0 & H0 & Hg & Hr).
  assert (idle s0) as Hs0 by (eapply scullp_peers_idle, HC; eauto).
  split; [eapply touched_idle; [done|apply Hg]|].
  destruct Hr as [->|(_ & e & bytes & _ & ->)]; [|cbn; lia]. unfold read_result.
  destruct (size s0 <? f_pos) eqn:E; [cbn; lia|]. zbool. case_match; [|cbn; lia]. cbn.
  pose proof (scullp_chunk_bounds f_pos (Z.min count (size s0 - f_pos))). lia.
Qed.

(** ** Asynchronous I/O *)

Definition total (iovec : list (list Z)) : Z := lenZ (concat iovec).

Lemma wp_segments C write iovec f_pos result s :
  fair_contract C → idle s → 0 <= f_pos → f_pos + total iovec <= LONG_MAX →
  wp C (segments write iovec f_pos result) (λ r s', idle s' ∧ ∃ n, r = inr n) s.
Proof.
  intros HC. unfold total. revert f_pos result s.
  induction iovec as [|iov rest IH]; intros f_pos result s Hs Hp Hp'; simpl.
  { wp_step. eauto. }
  cbn in Hp'. rewrite length_app in Hp'. wp_step.
  apply (wp_mono _ _ (λ x s', idle s' ∧ f_pos <= pos x <= f_pos + lenZ iov)).
  { unfold transfer. destruct write.
    - eapply wp_mono; [apply wp_scullp_write; [done..|lia]|].
      intros r s' H. by apply write_post_touched in H as (? & _ & ?); [|done|done|done|lia].
    - eapply wp_mono; [apply wp_scullp_read; [done..|lia|done|lia]|].
      intros r s' H. by apply read_post_idle in H; [|done|done|lia]. }
  intros x s1 [Hs1 Hx]. cbv zeta. pose proof (u64_range (retval x)).
  rewrite (proj2 (Z.ltb_ge _ _)) by lia. apply IH; [done|lia|lia].
Qed.

Lemma add_work_idle w s :
  idle s → idle (set_works (works s ++ [w]) (add_live 1 s)).
Proof.
  intros [[] ?]. split; [|done]. split; cbn; try done. rewrite length_app. cbn. lia.
Qed.

Lemma wp_defer_op C write is_sync iocb iovec f_pos s :
  fair_contract C → idle s → 0 <= f_pos → f_pos + total iovec <= LONG_MAX →
  wp C (scullp_defer_op write is_sync iocb iovec f_pos) (λ _, idle) s.
Proof.
  intros. unfold scullp_defer_op. wp_step. eapply wp_mono; [by apply wp_segments|].
  intros r s1 [Hs1 [result ->]].
  destruct is_sync; [by wp_step|]. wp_step. wp_step. wp_step; [by wp_step|].
  wp_step. wp_step. wp_step. wp_step. wp_step. by apply (add_work_idle _ s1).
Qed.

Lemma wp_deferred_op C s : idle s → wp C scullp_do_deferred_op (λ _, idle) s.
Proof.
  intros [[] ?]. unfold scullp_do_deferred_op. wp_step. wp_step.
  destruct (works s) as [|w rest] eqn:E; [wp_step; split; [|done]; split; rewrite ?E; done|].
  repeat wp_step. split; [|done]. split; cbn; try done. rewrite wf_live0. cbn. lia.
Qed.

(** ** Mapping *)

Lemma nopage_item_spec q l off :
  0 < q <= INT_MAX → 0 <= off < 2 ^ 64 →
  match nopage_item q l off with
  | (Some it, j) => l !! Z.to_nat (off / q) = Some it ∧ j = off mod q
  | (None, _) => l !! Z.to_nat (off / q) = None
  end.
Proof.
  unfold INT_MAX. intros Hq. revert off. induction l as [|it l IH]; intros off Hoff; cbn; [done|].
  rewrite (u64_small q) by lia. rewrite Z.geb_leb. destruct (q <=? off) eqn:E; zbool.
  - rewrite u64_small by lia. specialize (IH (off - q) ltac:(lia)).
    replace (Z.to_nat (off / q)) with (S (Z.to_nat ((off - q) / q))).
    2:{ replace off with (off - q + 1 * q) at 2 by lia. rewrite Z.div_add by lia.
        pose proof (Z.div_pos (off - q) q). lia. }
    replace (off mod q) with ((off - q) mod q); [done|].
    replace off with (off - q + 1 * q) at 2 by lia. by rewrite Z.mod_add by lia.
  - by rewrite Z.div_small, Z.mod_small by lia.
Qed.

(** The page of the device that a fault asks for. *)
Definition fault_offset (vm_start vm_pgoff virtual_address : Z) : Z :=
  u64 (u64 (virtual_address - vm_start) + u64 (Z.shiftl vm_pgoff PAGE_SHIFT)).

(** Page [a], which is page [n] of the device, handed to the memory manager. *)
Definition handed (n a : nat) (s : scullp) : scullp :=
  set_refs ((n, a) :: refs s)
    (set_pages (alter (λ pg, Page (pg_order pg) (pg_count pg + 1) (pg_bytes pg)) a (pages s)) s).

Lemma handed_wf n a s : wf s → 0 < vmas s → page_at s n = Some a → wf (handed n a s).
Proof.
  intros Hwf Hv Hn. destruct (page_of s n a Hwf Hn) as (pg & Hpg & [] & _).
  pose proof Hwf as []. unfold handed. rewrite (alter_insert _ _ pg) by done.
  split; cbn; try done. eapply pages_ok_update; try done.
  - split; cbn; try done. rewrite decide_True by done. lia.
  - intros b Hb. cbn. rewrite decide_False by done. lia.
  - intros m b Hm. apply elem_of_cons in Hm as [Hm|Hm]; [by simplify_eq|].
    by apply (ok_refs _ _ _ _ wf_pages0).
Qed.

Definition nopage_result (s : scullp) (offset : Z) : Z * option nat :=
  if size s <=? offset then (0, None) else
  match page_at s (Z.to_nat (offset / PAGE_SIZE)) with
  | None => (VM_FAULT_SIGBUS, None)
  | Some a => (0, Some a)
  end.

Definition nopage_state (s : scullp) (offset : Z) : scullp :=
  match (nopage_result s offset).2 with
  | Some a => handed (Z.to_nat (offset / PAGE_SIZE)) a s
  | None => s
  end.

Lemma scullp_set_mutex_idemp s : mutex s = false → set_mutex false (set_mutex true s) = s.
Proof. by destruct s; cbn; intros ->. Qed.

(** The member and index the loop found hold the page. *)
Lemma nopage_item_page s n :
  wf s → 0 <= n < 2 ^ 64 →
  page_at s (Z.to_nat n) = match nopage_item (qset s) (items s) n with
    | (Some (Item (Some arr) _), j) => mjoin (lookupZ arr j)
    | _ => None
    end ∧
  match nopage_item (qset s) (items s) n with
  | (Some (Item (Some arr) _), j) => is_Some (lookupZ arr j)
  | _ => True
  end.
Proof.
  intros Hwf Hn. destruct (wf_qset _ Hwf) as [Hq Hqm]. unfold PAGE_SIZE in Hqm.
  pose proof (nopage_item_spec (qset s) (items s) n ltac:(lia) Hn) as H.
  unfold page_at, slot_of. rewrite <-Z2Nat.inj_div, <-Z2Nat.inj_mod by lia.
  destruct (nopage_item _ _ _) as [[it|] j]; [|by rewrite H].
  destruct H as [Hit ->]. rewrite Hit.
  destruct (Forall_lookup_1 _ _ _ _ (wf_item _ Hwf) Hit) as [_ Hlen].
  destruct it as [[arr|] o]; [|done]. cbn in Hlen. pose proof (Z.mod_pos_bound n (qset s)).
  split; [|apply lookupZ_is_Some; lia]. f_equal. unfold lookupZ.
  by rewrite (proj2 (Z.ltb_ge _ _)) by lia.
Qed.

(** [if (ptr && ptr->data) pageptr = ptr->data[offset];] *)
Lemma wp_pageptr {A} C s t n (f : option nat → K scullp A) Q :
  wf s → 0 <= n < 2 ^ 64 → wp C (f (page_at s (Z.to_nat n))) Q t →
  wp C (let '(ptr, index) := nopage_item (qset s) (items s) n in
        pageptr ← (match ptr with
                   | Some (Item (Some arr) _) => deref OutOfBounds (lookupZ arr index)
                   | _ => mret None
                   end);
        f pageptr) Q t.
Proof.
  intros Hwf Hn HQ. destruct (nopage_item_page s n Hwf Hn) as [Hpage Hin]. rewrite Hpage in HQ.
  destruct (nopage_item _ _ n) as [[[[arr|] o]|] index]; wp_step; [|by wp_step..].
  destruct Hin as [c Hc]. eapply wp_deref; [done|]. by rewrite Hc in HQ.
Qed.

Lemma wp_nopage C s vm_start vm_pgoff va :
  fair_contract C → idle s →
  let offset := fault_offset vm_start vm_pgoff va in
  wp C (scullp_vma_nopage vm_start vm_pgoff va) (λ r s', ∃ s0,
    c_rely C s s0 ∧ idle s0 ∧ r = nopage_result s0 offset ∧ s' = nopage_state s0 offset) s.
Proof.
  intros HC Hs offset. unfold scullp_vma_nopage. fold (fault_offset vm_start vm_pgoff va).
  fold offset. wp_step.
  assert (∀ s0, c_rely C s s0 → idle s0) as Hpeer.
  { intros s0 H0. eapply scullp_peers_idle; [done|by apply HC]. }
  apply wp_lock; [by intros s0 [_ ?]%Hpeer|]. intros s0 H0. destruct (Hpeer _ H0) as [Hwf Hm].
  assert (0 <= offset < 2 ^ 64) as Ho by apply u64_range.
  cbn beta zeta. wp_step. wp_step. cbn [size set_mutex set_lock scullp_lock].
  rewrite Z.geb_leb. unfold nopage_state, nopage_result.
  destruct (size s0 <=? offset) eqn:E.
  { apply wp_scullp_exit; [done|]. exists s0. rewrite E. split_and!; try done. by apply scullp_set_mutex_idemp. }
  wp_step. wp_step. wp_step. wp_step. cbn [qset items set_mutex set_lock scullp_lock].
  rewrite Z.shiftr_div_pow2 by done. change (2 ^ PAGE_SHIFT) with PAGE_SIZE.
  apply wp_pageptr; [done|unfold PAGE_SIZE; split; [apply Z.div_pos|apply Z.div_lt_upper_bound]; lia|].
  destruct (page_at s0 _) as [a|] eqn:Ea.
  2:{ apply wp_scullp_exit; [done|]. exists s0. rewrite E, Ea. split_and!; try done.
      by apply scullp_set_mutex_idemp. }
  destruct (page_of s0 _ a Hwf Ea) as (pg & Hpg & _ & _).
  wp_step. unfold get_page. wp_step. wp_step. wp_step. apply (wp_deref _ _ _ _ _ pg); [done|].
  wp_step. wp_step. wp_step. apply wp_scullp_exit; [done|]. exists s0. rewrite E, Ea. split_and!; try done.
  cbn. unfold handed. rewrite (alter_insert _ _ pg) by done. destruct s0; cbn in *; by subst.
Qed.

(** ** The device and the memory manager as a state machine *)

(** What the memory manager does with a page it was handed: it gives it back
    when it is unmapped, and user code stores a byte through the mapping. *)
Definition put_page (k : nat) : K scullp unit :=
  r ← gets (λ s, refs s !! k) ≫= deref NullDeref;
  pg ← gets (λ s, pages s !! r.2) ≫= deref UseAfterFree;
  modify (λ s, set_pages (<[r.2 := Page (pg_order pg) (pg_count pg - 1) (pg_bytes pg)]> (pages s)) s);;
  modify (λ s, set_refs (delete k (refs s)) s).

Definition user_store (k : nat) (off b : Z) : K scullp unit :=
  r ← gets (λ s, refs s !! k) ≫= deref NullDeref;
  page_bytes r.2 off 1;;
  modify (λ s, set_pages (alter (store_page off [Some b]) r.2 (pages s)) s).

Inductive op :=
| Open (f_flags : Z)
| Release
| Read (count f_pos : Z)
| Write (buf : list Z) (f_pos : Z)
| Ioctl (cmd arg : Z)
| Llseek (off whence f_pos : Z)
| AioRead (is_sync : bool) (iocb : nat) (iovec : list (list Z)) (f_pos : Z)
| AioWrite (is_sync : bool) (iocb : nat) (iovec : list (list Z)) (f_pos : Z)
| DeferredWork
| Mmap
| VmaOpen
| VmaClose
| Nopage (vm_start vm_pgoff virtual_address : Z)
| PutPage (k : nat)
| UserStore (k : nat) (off b : Z).

Definition unit0 (_ : unit) : Z := 0.

(** [scullp_fops], [scullp_vm_ops], the deferred work, and the memory manager. *)
Definition scullp_handle (o : op) : K scullp Z :=
  match o with
  | Open f_flags => scullp_open f_flags
  | Release => scullp_release
  | Read count f_pos => kfmap retval (scullp_read count f_pos)
  | Write buf f_pos => kfmap retval (scullp_write buf f_pos)
  | Ioctl cmd arg => kfmap fst (scullp_ioctl cmd arg)
  | Llseek off whence f_pos => kfmap fst (scullp_llseek off whence f_pos)
  | AioRead is_sync iocb iovec f_pos => scullp_aio_read is_sync iocb iovec f_pos
  | AioWrite is_sync iocb iovec f_pos => scullp_aio_write is_sync iocb iovec f_pos
  | DeferredWork => kfmap unit0 scullp_do_deferred_op
  | Mmap => scullp_mmap
  | VmaOpen => kfmap unit0 scullp_vma_open
  | VmaClose => kfmap unit0 scullp_vma_close
  | Nopage vm_start vm_pgoff va => kfmap fst (scullp_vma_nopage vm_start vm_pgoff va)
  | PutPage k => kfmap unit0 (put_page k)
  | UserStore k off b => kfmap unit0 (user_store k off b)
  end.

(** When the kernel makes the call. A mapping is copied, closed or faulted on
    while it exists; the last one is closed when its pages have been unmapped. *)
Definition scullp_allowed (s : scullp) (o : op) : Prop :=
  match o with
  | Read count f_pos => 0 <= count ∧ 0 <= f_pos ∧ f_pos + count <= LONG_MAX
  | Write buf f_pos => 0 <= f_pos ∧ f_pos + lenZ buf <= LONG_MAX
  | Ioctl cmd _ => retunes cmd = false
  | AioRead _ _ iovec f_pos | AioWrite _ _ iovec f_pos =>
      0 <= f_pos ∧ f_pos + total iovec <= LONG_MAX
  | Mmap => vmas s < INT_MAX
  | VmaOpen => 0 < vmas s < INT_MAX
  | VmaClose => 0 < vmas s ∧ (vmas s = 1 → refs s = [])
  | Nopage _ _ _ => 0 < vmas s
  | PutPage k => is_Some (refs s !! k)
  | UserStore k off _ => is_Some (refs s !! k) ∧ 0 <= off < PAGE_SIZE
  | _ => True
  end.

(** The device as [scullp_init] leaves it, for a [qset] chosen at load time. *)
Definition scullp_init_dev (n : Z) : scullp :=
  Scullp [Item None 0] 0 n 0 false 0 n ∅ [] 0 [] [].

Lemma scullp_init_idle n : good_qset n → idle (scullp_init_dev n).
Proof.
  intros Hn. split; [|done]. split; cbn; try done.
  - by apply Forall_singleton.
  - split.
    + intros m a. by rewrite slot_of_empty.
    + intros a pg Ha. by rewrite lookup_empty in Ha.
    + intros m k a Ha. by rewrite slot_of_empty in Ha.
    + intros m a Ha. by apply not_elem_of_nil in Ha.
Qed.

Lemma set_vmas_idle n s :
  idle s → 0 <= n <= INT_MAX → (refs s ≠ [] → 0 < n) → idle (set_vmas n s).
Proof. intros [[] ?] ? ?. split; [|done]. by split. Qed.

Lemma wp_mmap C s : idle s → vmas s < INT_MAX → wp C scullp_mmap (λ _, idle) s.
Proof.
  intros Hs Hv. unfold scullp_mmap, scullp_vma_open. wp_step. apply wp_dev_order; [apply Hs|].
  change (c_bool 0) with false. cbn iota. wp_step. wp_step. wp_step.
  destruct (wf_vmas _ (proj1 Hs)). unfold INT_MAX in *. rewrite s32_small by lia.
  apply set_vmas_idle; [done|unfold INT_MAX; lia|lia].
Qed.

Lemma put_page_idle k n a pg s :
  idle s → refs s !! k = Some (n, a) → pages s !! a = Some pg →
  idle (set_refs (delete k (refs s))
    (set_pages (<[a := Page (pg_order pg) (pg_count pg - 1) (pg_bytes pg)]> (pages s)) s)).
Proof.
  intros [Hwf Hm] Hk Hpg. pose proof Hwf as []. split; [|done].
  assert (page_at s n = Some a) as Hn.
  { apply (ok_refs _ _ _ _ wf_pages0). by eapply list_elem_of_lookup_2. }
  destruct (page_of s n a Hwf Hn) as (pg' & Hpg' & [] & _). simplify_eq.
  split; cbn; try done.
  - eapply pages_ok_update; try done.
    + split; cbn; try done. rewrite (held_delete _ n a) by done. rewrite decide_True by done. lia.
    + intros b Hb. rewrite (held_delete _ n a) by done. rewrite decide_False by done. lia.
    + intros m b Hb. apply (ok_refs _ _ _ _ wf_pages0).
      by eapply list_elem_of_delete_inv.
  - intros _. apply wf_mapped0. by destruct (refs s).
Qed.

Lemma wp_put_page C k s : idle s → is_Some (refs s !! k) → wp C (put_page k) (λ _, idle) s.
Proof.
  intros Hs [[n a] Hk]. unfold put_page. wp_step. wp_step. wp_step.
  apply (wp_deref _ _ _ _ _ (n, a)); [done|]. cbn [snd].
  destruct (page_of s n a (proj1 Hs)) as (pg & Hpg & _ & _).
  { apply (ok_refs _ _ _ _ (wf_pages _ (proj1 Hs))). by eapply list_elem_of_lookup_2. }
  wp_step. wp_step. wp_step. apply (wp_deref _ _ _ _ _ pg); [done|]. wp_step. wp_step. wp_step.
  by eapply (put_page_idle k n a pg s).
Qed.

Lemma wp_user_store C k off b s :
  idle s → is_Some (refs s !! k) → 0 <= off < PAGE_SIZE →
  wp C (user_store k off b) (λ _, idle) s.
Proof.
  intros Hs [[n a] Hk] Hoff. unfold user_store. wp_step. wp_step. wp_step.
  apply (wp_deref _ _ _ _ _ (n, a)); [done|]. cbn [snd].
  assert (page_at s n = Some a) as Hn.
  { apply (ok_refs _ _ _ _ (wf_pages _ (proj1 Hs))). by eapply list_elem_of_lookup_2. }
  wp_step. eapply wp_page_bytes; [apply Hs|done|lia..|]. wp_step.
  eapply touched_idle, store_patched; [done|apply Hs|done|lia|cbn; lia].
Qed.

Lemma scullp_idle_inductive C n :
  fair_contract C → good_qset n →
  inductive_inv scullp_handle scullp_allowed C (λ s, s = scullp_init_dev n) idle.
Proof.
  intros HC Hn. split_and!.
  - intros s ->. by apply scullp_init_idle.
  - intros s o Hs Ho. destruct o; cbn in *; try apply wp_kfmap.
    + by apply wp_scullp_open.
    + by apply wp_ret.
    + destruct Ho as (? & ? & ?). eapply wp_mono; [by apply wp_scullp_read|].
      intros r s' HP. by apply read_post_idle in HP as [].
    + destruct Ho. eapply wp_mono; [by apply wp_scullp_write|].
      intros r s' HP. by apply write_post_touched in HP as [].
    + eapply wp_mono; [by apply wp_scullp_ioctl_keeps|].
      intros ? s' [-> | ->]; [done|by apply reset_idle].
    + eapply wp_mono; [apply wp_scullp_llseek|]. by intros ? ? ->.
    + destruct Ho. by apply wp_defer_op.
    + destruct Ho. by apply wp_defer_op.
    + eapply wp_mono; [by apply wp_deferred_op|]. done.
    + by apply wp_mmap.
    + apply wp_modify. unfold INT_MAX in *. rewrite s32_small by lia.
      apply set_vmas_idle; [done|unfold INT_MAX; lia|lia].
    + destruct Ho as [Hv Hlast]. destruct (wf_vmas _ (proj1 Hs)). unfold INT_MAX in *.
      apply wp_modify. rewrite s32_small by lia.
      apply set_vmas_idle; [done|unfold INT_MAX; lia|]. intros Hr.
      destruct (decide (vmas s = 1)) as [E|]; [by destruct (Hr (Hlast E))|lia].
    + eapply wp_mono; [by apply wp_nopage|]. intros r s' (s0 & H0 & Hs0 & _ & ->).
      unfold nopage_state, nopage_result. destruct (_ <=? _); [done|].
      destruct (page_at _ _) eqn:?; [|done]. cbn.
      split; [|apply Hs0]. apply handed_wf; [apply Hs0|by apply (fair_peers _ HC _ _ H0)|done].
    + eapply wp_mono; [by apply wp_put_page|]. done.
    + destruct Ho. eapply wp_mono; [by apply wp_user_store|]. done.
  - intros s s' Hs Hr. eapply scullp_peers_idle; [done|by apply HC].
Qed.

(** ** Properties *)

(** A documented kernel that has memory for the members of the list. *)
Definition scullp_kernel : contract scullp :=
  Contract (λ c z, doc_ans c z ∧ (c = kmalloc sizeof_scullp_dev → z ≠ 0)) peers False.

Lemma scullp_kernel_fair : fair_contract scullp_kernel.
Proof. split; [by intros c z []|done|]. intros z [_ Hz]. by apply Hz. Qed.

(** C6: on a device of order 0, as [scullp_init] leaves it by default, in any
    sequence of opens, transfers, seeks, asynchronous requests, mappings, page
    faults, unmappings, stores through mappings, and ioctls but those that change
    the order or the array size, under every kernel that answers as documented and
    whose allocation of a member of the list never fails, and with other tasks that
    keep the invariant: no call oopses or hangs; the mutex is free after each call
    and no block is leaked; the pages allocated are exactly those in the slots of
    the device; and a page the memory manager holds as page [k] is still page [k] of
    the device, with the contents [read] and [write] work on and a count of one more
    than the times it is held. (What is left out faults: a member that is not
    allocated, [scullp_follow_oops], and an order above 0, [scullp_order_overflow].) *)
Theorem scullp_mapped_safe C n :
  fair_contract C → good_qset n →
  faultless scullp_handle scullp_allowed C (λ s, s = scullp_init_dev n) ∧
  ∀ s, reachable scullp_handle scullp_allowed C (λ s, s = scullp_init_dev n) s →
    mutex s = false ∧ live s = footprint (items s) + lenZ (works s) ∧
    (∀ a, is_Some (pages s !! a) ↔ ∃ k, page_at s k = Some a) ∧
    ∀ k a, (k, a) ∈ refs s → page_at s k = Some a ∧
      ∃ pg, pages s !! a = Some pg ∧ pg_bytes pg = contents s k ∧
        pg_count pg = 1 + held a (refs s).
Proof.
  intros HC Hn. pose proof (scullp_idle_inductive C n HC Hn) as Hinv.
  split; [by eapply inv_faultless|]. intros s Hs.
  destruct (reachable_inv _ _ _ _ _ _ Hinv Hs) as [Hwf Hm].
  pose proof (wf_pages _ Hwf) as [_ Hpage _ Hrefs].
  split_and!; [done|apply Hwf|..].
  - intros a. split; [intros [pg Ha]; by eapply Hpage|]. intros [k Hk].
    destruct (page_of s k a Hwf Hk) as (pg & ? & _). by eexists.
  - intros k a Hk. apply Hrefs in Hk. split; [done|].
    destruct (page_of s k a Hwf Hk) as (pg & ? & [] & ?). by exists pg.
Qed.

Lemma scullp_mapped_safe_witness :
  faultless scullp_handle scullp_allowed scullp_kernel (λ s, s = scullp_init_dev 500) ∧
  ∀ s, reachable scullp_handle scullp_allowed scullp_kernel (λ s, s = scullp_init_dev 500) s →
    mutex s = false ∧ live s = footprint (items s) + lenZ (works s) ∧
    (∀ a, is_Some (pages s !! a) ↔ ∃ k, page_at s k = Some a) ∧
    ∀ k a, (k, a) ∈ refs s → page_at s k = Some a ∧
      ∃ pg, pages s !! a = Some pg ∧ pg_bytes pg = contents s k ∧
        pg_count pg = 1 + held a (refs s).
Proof. apply (scullp_mapped_safe scullp_kernel 500); [apply scullp_kernel_fair|by split]. Defined.

Lemma scullp_quiet_fair : fair_contract (quiet scullp).
Proof.
  split; [apply good_doc| |by intros z []].
  intros s s' Hr. change (s = s') in Hr. by subst s'.
Qed.

Lemma quiet_not_failing : ¬ may_fail (quiet scullp).
Proof. intros (c & z & [_ Hg] & Hf). by destruct c. Qed.

#[local] Hint Resolve scullp_quiet_fair : ldd.

(** Under a kernel with memory and no signals: a write stores a prefix of the
    caller's buffer at the file position, up to the end of its page; the page
    exists afterwards, all others are as before. *)
Lemma scullp_write_stores s buf f_pos o :
  idle s → window (qset s) f_pos → f_pos + lenZ buf <= LONG_MAX → obeys o (quiet scullp) →
  let n := chunk f_pos (lenZ buf) in let p := Z.to_nat (f_pos / PAGE_SIZE) in
  ∃ s', run o (scullp_write buf f_pos) s = Done (Xfer n [] (f_pos + n), s') ∧
    idle s' ∧ size s' = Z.max (size s) (f_pos + n) ∧ vmas s' = vmas s ∧ is_Some (page_at s' p) ∧
    ∀ m, contents s' m = if decide (m = p)
      then store (f_pos mod PAGE_SIZE) (Some <$> take (Z.to_nat n) buf) (contents s p)
      else contents s m.
Proof.
  intros Hs Hw Hmax Ho n p. destruct (wf_qset _ (proj1 Hs)) as [Hq _].
  destruct (wp_total _ _ _ _ _ (wp_scullp_write _ s buf f_pos scullp_quiet_fair Hs
    (proj1 Hw) Hmax) Ho) as (r & s' & Hrun & Hpost); [by intros []|].
  pose proof (write_post_touched _ _ _ _ _ _ scullp_quiet_fair Hs (proj1 Hw) Hmax Hpost) as [Hs' _].
  destruct Hpost as (s0 & H0 & [(Hf & _)|(s1 & m & -> & -> & -> & Hpt)]);
    [by apply quiet_not_failing in Hf|]. change (s = s0) in H0. subst s0.
  rewrite pgno_window in Hpt by done. destruct Hpt as [Ht Hsz Hpage Hc].
  exists (set_size (Z.max (size s) (f_pos + n)) s1). split_and!; try done. apply Ht.
Qed.

(** The same for a read: 0 past the end or in a hole, otherwise the bytes of
    the page from the position on, cut at the count, the size and the page. *)
Lemma scullp_read_returns s count f_pos o :
  idle s → 0 <= count → 0 <= f_pos → f_pos + count <= LONG_MAX → obeys o (quiet scullp) →
  ∃ s', run o (scullp_read count f_pos) s = Done (read_result s count f_pos, s') ∧ grown s s'.
Proof.
  intros Hs Hc Hp Hmax Ho.
  destruct (wp_total _ _ _ _ _ (wp_scullp_read _ s count f_pos scullp_quiet_fair Hs Hc Hp Hmax) Ho)
    as (r & s' & Hrun & s0 & H0 & Hg & Hr); [by intros []|].
  change (s = s0) in H0. subst s0. exists s'.
  destruct Hr as [->|[Hf _]]; [done|by apply quiet_not_failing in Hf].
Qed.

(** And for a page fault. *)
Lemma scullp_nopage_spec s vm_start vm_pgoff va o :
  idle s → obeys o (quiet scullp) →
  let offset := fault_offset vm_start vm_pgoff va in
  run o (scullp_vma_nopage vm_start vm_pgoff va) s =
    Done (nopage_result s offset, nopage_state s offset).
Proof.
  intros Hs Ho offset.
  destruct (wp_total _ _ _ _ _ (wp_nopage _ s vm_start vm_pgoff va scullp_quiet_fair Hs) Ho)
    as (r & s' & Hrun & s0 & H0 & _ & -> & ->); [by intros []|].
  change (s = s0) in H0. by subst s0.
Qed.

(** What a write stored is what a mapping shows. A fault at the position
    written hands out a page whose bytes from that position on are those the
    write stored. *)
Theorem scullp_write_fault s buf vm_start vm_pgoff va o :
  let f_pos := fault_offset vm_start vm_pgoff va in
  idle s → window (qset s) f_pos → f_pos + lenZ buf <= LONG_MAX → buf ≠ [] →
  obeys o (quiet scullp) →
  ∃ n s1 a s2 pg, 0 < n ∧
    run o (scullp_write buf f_pos) s = Done (Xfer n [] (f_pos + n), s1) ∧
    run o (scullp_vma_nopage vm_start vm_pgoff va) s1 = Done ((0, Some a), s2) ∧
    pages s2 !! a = Some pg ∧
    slice (f_pos mod PAGE_SIZE) n (pg_bytes pg) = Some <$> take (Z.to_nat n) buf.
Proof.
  intros f_pos Hs Hw Hmax Hbuf Ho. pose proof Hw as [Hp _].
  destruct (scullp_write_stores s buf f_pos o Hs Hw Hmax Ho)
    as (s1 & Hrun & Hs1 & Hsz & _ & [a Ha] & Hc).
  set (n := chunk f_pos (lenZ buf)) in *. set (p := Z.to_nat (f_pos / PAGE_SIZE)) in *.
  destruct (scullp_chunk_bounds f_pos (lenZ buf)) as [Hn1 Hn2]; [lia|]. fold n in Hn1, Hn2.
  pose proof (Z.mod_pos_bound f_pos PAGE_SIZE ltac:(done)) as Hmod.
  assert (0 < n) as Hn by (destruct buf; [done|]; unfold n, chunk; cbn [length]; lia).
  destruct (page_of s1 p a (proj1 Hs1) Ha) as (pg & Hpg & [_ _ Hlen] & Hb).
  pose proof (scullp_nopage_spec s1 vm_start vm_pgoff va o Hs1 Ho) as Hfault. cbv zeta in Hfault.
  fold f_pos in Hfault. unfold nopage_state, nopage_result in Hfault.
  rewrite (proj2 (Z.leb_gt _ _)) in Hfault by lia. fold p in Hfault. rewrite Ha in Hfault.
  exists n, s1, a, (handed p a s1), (Page (pg_order pg) (pg_count pg + 1) (pg_bytes pg)).
  split_and!; [done..| |]; cbn.
  - by rewrite lookup_alter_eq, Hpg.
  - assert (lenZ (Some <$> take (Z.to_nat n) buf) = n) as Hl by (rewrite length_fmap, length_take; lia).
    rewrite Hb, Hc, decide_True by done. rewrite Hb, Hc, decide_True, length_store in Hlen by done.
    rewrite <-Hl at 1. rewrite slice_store; [done|lia|lia].
Qed.

Lemma scullp_write_fault_witness :
  ∃ n s1 a s2 pg, 0 < n ∧
    run quiet_oracle (scullp_write [7; 8] 2050048) (scullp_init_dev 500) =
      Done (Xfer n [] (2050048 + n), s1) ∧
    run quiet_oracle (scullp_vma_nopage 4096 500 6144) s1 = Done ((0, Some a), s2) ∧
    pages s2 !! a = Some pg ∧
    slice (2050048 mod PAGE_SIZE) n (pg_bytes pg) = Some <$> take (Z.to_nat n) [7; 8].
Proof.
  apply (scullp_write_fault (scullp_init_dev 500) [7; 8] 4096 500 6144 quiet_oracle);
    [by apply scullp_init_idle|by split|done|done|apply quiet_obeys].
Defined.

(** ** Errors of the code *)

(** [scullp_follow] does not look at what [kmalloc] returned. *)
Lemma scullp_follow_oops :
  run (Oracle (λ _ _, 0) (λ _ _, 0) (λ _ s, s)) (scullp_write [1] 2048000) (scullp_init_dev 500) =
    Oops NullDeref.
Proof. vm_compute. reflexivity. Qed.

(** A device opened with order 1: members of the list after the first have
    order 0, and a write to them overruns their page. *)
Lemma scullp_order_overflow :
  run quiet_oracle (scullp_write (replicate 4097 0) 8192)
    (Scullp [Item None 1] 0 1 0 false 1 1 ∅ [] 0 [] []) = Oops OutOfBounds.
Proof. vm_compute. reflexivity. Qed.

(** A request of two segments, 10 bytes each, the second of which faults: the
    value of the call is 10 - EFAULT. *)
Lemma scullp_aio_garbage :
  match run (Oracle (λ c t, match c with copy_user _ => if decide (t < 6)%nat then 0 else 10
                            | _ => quiet_ans c t end) (λ _ _, 0) (λ _ s, s))
      (scullp_aio_write true 0 [replicate 10 1; replicate 10 2] 0) (scullp_init_dev 500) with
  | Done (r, _) => r = 10 - EFAULT
  | _ => False
  end.
Proof. vm_compute. reflexivity. Qed.

(** A fault past the end of the device reports success and hands out no page. *)
Lemma scullp_nopage_past_end s vm_start vm_pgoff va o :
  idle s → obeys o (quiet scullp) → size s <= fault_offset vm_start vm_pgoff va →
  run o (scullp_vma_nopage vm_start vm_pgoff va) s = Done ((0, None), s).
Proof.
  intros Hs Ho H. rewrite scullp_nopage_spec by done. unfold nopage_state, nopage_result.
  by rewrite (proj2 (Z.leb_le _ _)) by lia.
Qed.
