(* ===== verification/CharModule.v ===== *)
(** * scullp and scullc: loading and unloading

    The modules of the two drivers differ in the devices they own and in the
    slab cache; what they share is written once, over an array of devices of
    any type. A driver promises, through the class [Trims], that its devices can
    be emptied; [Res "cdev" i] stands for the reference [cdev_init] creates. *)

From stdpp Require Import base tactics numbers list strings.
From S2P Require Import Prelude KMonad Quanta Registry Scull Scullc ScullcSpec Scullp ScullpSpec.
From Stdlib Require Import ZArith Lia.

Open Scope Z_scope.

(** ** Data *)

(** The globals of a module over devices of type [D]. [slab] says whether
    [scullc_cache] is there; scullp has none. *)
Record char_mod (D : Type) := CharMod {
  char_major : Z;
  char_devs : Z;
  char_devices : option (list D);
  slab : bool;
  char_regs : registry
}.
Arguments CharMod {D} _ _ _ _ _.
Arguments char_major {D} _.
Arguments char_devs {D} _.
Arguments char_devices {D} _.
Arguments slab {D} _.
Arguments char_regs {D} _.

Definition set_char_major {D} (v : Z) (x : char_mod D) : char_mod D :=
  CharMod v (char_devs x) (char_devices x) (slab x) (char_regs x).
Definition set_char_devices {D} (v : option (list D)) (x : char_mod D) : char_mod D :=
  CharMod (char_major x) (char_devs x) v (slab x) (char_regs x).
Definition set_slab {D} (v : bool) (x : char_mod D) : char_mod D :=
  CharMod (char_major x) (char_devs x) (char_devices x) v (char_regs x).
Definition set_char_regs {D} (v : registry) (x : char_mod D) : char_mod D :=
  CharMod (char_major x) (char_devs x) (char_devices x) (slab x) v.

#[export] Instance char_mod_registry D : HasRegistry (char_mod D) :=
  { registry_of := char_regs; set_registry := set_char_regs; registry_set g s := eq_refl }.

#[export] Instance char_mod_table D : HasTable (char_mod D) D.
Proof.
  refine {| table_of := char_devices; set_table l := set_char_devices (Some l) |}; try done.
  by intros l [] [= ->].
Defined.

(** What a module holds. *)
Definition char_block : resource := Res "devices" 0.
Definition char_cdev (i : nat) : resource := Res "cdev" (Z.of_nat i).
Definition slab_cache : resource := Res "kmem_cache" 0.

(** ** What the two modules share *)

Section shared.
Context {D : Type}.

(** "Register your major, and accept a dynamic number." The result and the
    number of the region. *)
Definition get_numbers : K (char_mod D) (Z * Z) :=
  ma ← gets char_major;
  if c_bool ma then
    result ← acquire "register_chrdev_region" (region (MKDEV ma 0));
    mret (result, MKDEV ma 0)
  else
    result ← call (kint "alloc_chrdev_region");
    if result <? 0 then modify (set_char_major (MAJOR (MKDEV ma 0)));; mret (result, MKDEV ma 0) else
    dyn ← call (kint "dynamic major");
    hold (region (MKDEV dyn 0));;
    modify (set_char_major (MAJOR (MKDEV dyn 0)));;
    mret (result, MKDEV dyn 0).

(** [cdev_init], [cdev_add]; a failure is only reported. *)
Definition setup_cdev (index : nat) : K (char_mod D) unit :=
  hold (char_cdev index);;
  call (kint "cdev_add");;
  mret tt.

(** [memset(devices, 0, ...)] and the loop that sets the devices up. *)
Definition make_devices (n : nat) (zero : D) (set_up : D → D) : K (char_mod D) unit :=
  modify (set_char_devices (Some (replicate n zero)));;
  for_each n 0 (λ i, at_entry i (modify set_up);; setup_cdev i).

(** The loop of the clean-up. *)
Definition drop_devices (n : nat) (trim : K D Z) : K (char_mod D) unit :=
  for_each n 0 (λ i, give_back (char_cdev i);; at_entry i (trim;; mret tt)).

(** The clean-up of a module that has no cache. *)
Definition char_cleanup (trim : K D Z) : K (char_mod D) unit :=
  n ← gets char_devs;
  drop_devices (Z.to_nat n) trim;;
  give_back char_block;;
  ma ← gets char_major;
  give_back (region (MKDEV ma 0)).
End shared.

(** ** scullp *)

(** A zeroed device, among the globals. *)
Definition scullp_zero (order qset : Z) : scullp :=
  Scullp [Item None 0] 0 0 0 false order qset ∅ [] 0 [] [].

(** [order = scullp_order; qset = scullp_qset;] *)
Definition scullp_set_up (d : scullp) : scullp :=
  Scullp.set_items [Item None (scullp_order d)] (Scullp.set_qset (scullp_qset d) d).

Definition scullp_init (order qset : Z) : K (char_mod scullp) Z :=
  '(result, dev) ← get_numbers;
  if result <? 0 then mret result else
  n ← gets char_devs;
  z ← call (kmalloc (n * sizeof_scullp_dev));
  if z =? 0 then
    modify (set_char_devices None);;
    give_back (region dev);;
    mret (- ENOMEM)
  else
    hold char_block;;
    make_devices (Z.to_nat n) (scullp_zero order qset) scullp_set_up;;
    mret 0.

Definition scullp_cleanup : K (char_mod scullp) unit := char_cleanup scullp_trim.

(** ** scullc *)

Definition scullc_zero (quantum qset : Z) : scullc :=
  Scullc [None] 0 0 0 0 false quantum qset quantum 0 [] [].

(** [quantum = scullc_quantum; qset = scullc_qset;] *)
Definition scullc_set_up (d : scullc) : scullc :=
  Scullc.set_quantum (scullc_quantum d) (Scullc.set_qset (scullc_qset d) d).

Definition scullc_cleanup : K (char_mod scullc) unit :=
  n ← gets char_devs;
  drop_devices (Z.to_nat n) scullc_trim;;
  give_back char_block;;
  c ← gets slab;
  (if c : bool then give_back slab_cache else mret tt);;
  ma ← gets char_major;
  give_back (region (MKDEV ma 0)).

Definition scullc_init (quantum qset : Z) : K (char_mod scullc) Z :=
  '(result, dev) ← get_numbers;
  if result <? 0 then mret result else
  n ← gets char_devs;
  z ← call (kmalloc (n * sizeof_scullc_dev));
  if z =? 0 then
    modify (set_char_devices None);;
    give_back (region dev);;
    mret (- ENOMEM)
  else
    hold char_block;;
    make_devices (Z.to_nat n) (scullc_zero quantum qset) scullc_set_up;;
    c ← acquire_ptr "kmem_cache_create" slab_cache;
    modify (set_slab (c_bool c));;
    if c =? 0 then scullc_cleanup;; mret (- ENOMEM)
    else mret 0.

(** ** The interface of a device *)

(** A device that can be trimmed, one with nothing left, and what [trim] does. *)
Class Trims (D : Type) (trim : K D Z) := {
  device_ok : D → Prop;
  device_empty : D → Prop;
  wp_trim : ∀ C d, device_ok d → wp C trim (λ _, device_empty) d
}.

(** scullp: nothing is mapped, for a mapping keeps the module loaded. *)
#[export] Instance scullp_trims : Trims scullp scullp_trim.
Proof.
  refine {| device_ok d := ScullpSpec.wf d ∧ Scullp.vmas d = 0;
            device_empty d := pages d = ∅ ∧ Scullp.live d = lenZ (Scullp.works d) |}.
  intros C d [Hwf Hv]. pose proof Hwf as []. apply wp_scullp_trim; [done|by apply unmapped_refs|done|].
  split; [done|]. cbn. lia.
Defined.

(** scullc: every block is reachable, or belongs to an operation under way. *)
#[export] Instance scullc_trims : Trims scullc scullc_trim.
Proof.
  refine {| device_ok d := trimmable d ∧
              Scullc.live d = Scull.footprint (members d) - 1 + lenZ (Scullc.works d);
            device_empty d := members d = [None] ∧ Scullc.live d = lenZ (Scullc.works d) |}.
  intros C d [Ht Hl]. apply wp_scullc_trim; [done|]. split; [done|]. cbn. lia.
Defined.

(** ** Rules for the shared parts *)

(** The answers of the services that grant numbers. *)
Record numbers_contract {D} (C : contract (char_mod D)) : Prop := {
  nc_region : ∀ z, c_ans C (kint "register_chrdev_region") z → z <= 0;
  nc_alloc : ∀ z, c_ans C (kint "alloc_chrdev_region") z → z <= 0;
  nc_major : ∀ z, c_ans C (kint "dynamic major") z → 0 < z < 2 ^ 12
}.

Section rules.
Context {D : Type} (C : contract (char_mod D)).
Implicit Types (s : char_mod D) (L : list resource).

Lemma wp_get_numbers s (Q : Z * Z → char_mod D → Prop) :
  numbers_contract C → owned [] s →
  (∀ z dev m, z < 0 → Q (z, dev) (set_char_major m s)) →
  (∀ g m, let s' := set_char_regs g (set_char_major m s) in
    owned [region (MKDEV m 0)] s' → Q (0, MKDEV m 0) s') →
  wp C get_numbers Q s.
Proof.
  intros HC Ho Hko Hok. unfold get_numbers. wp_step. wp_step. wp_step.
  - wp_step. apply wp_acquire.
    + wp_step. apply (Hok _ (char_major s)). destruct s. exact (owns_add _ _ _ Ho).
    + intros z Hz Hz0. apply (nc_region _ HC) in Hz. wp_step.
      replace s with (set_char_major (char_major s) s) by by destruct s. apply Hko. lia.
  - wp_step. wp_step. apply (nc_alloc _ HC) in H. wp_step.
    + wp_step. wp_step. wp_step. by apply Hko.
    + assert (z = 0) as -> by lia. wp_step. wp_step. apply (nc_major _ HC) in H0.
      wp_step. apply wp_hold. wp_step. wp_step. wp_step. rewrite MAJOR_MKDEV by lia.
      apply (Hok _ z). exact (owns_add _ _ _ Ho).
Qed.

(** A loop over the devices, with what is registered; [R] tells what becomes of
    the device at an index. *)
Lemma wp_for_devices_at (body : nat → K (char_mod D) unit) (P : D → Prop) (R : nat → D → Prop)
    (I : nat → registry → Prop) l s (Q : unit → char_mod D → Prop) :
  char_devices s = Some l → Forall P l → I 0%nat (char_regs s) →
  (∀ i x l' g, (i < length l)%nat → P x → l' !! i = Some x → I i g →
    wp C (body i) (λ _ s', ∃ x' g', s' = set_char_regs g' (set_char_devices (Some (<[i := x']> l')) s) ∧
      R i x' ∧ I (S i) g') (set_char_regs g (set_char_devices (Some l') s))) →
  (∀ l' g, length l' = length l → (∀ i x, l' !! i = Some x → R i x) → I (length l) g →
    Q tt (set_char_regs g (set_char_devices (Some l') s))) →
  wp C (for_each (length l) 0 body) Q s.
Proof.
  intros Hs HP HI Hbody HQ. apply (wp_for_each _ _ _ _ (λ j s', ∃ l' g,
    s' = set_char_regs g (set_char_devices (Some l') s) ∧ length l' = length l ∧
    (∀ i x, (i < j)%nat → l' !! i = Some x → R i x) ∧ Forall P (drop j l') ∧ I j g)).
  - exists l, (char_regs s). split_and!; try done; [by destruct s; cbn in *; subst|lia].
  - intros j s1 Hj (l1 & g & -> & Hlen & HR & HP1 & Hi).
    destruct (lookup_lt_is_Some_2 l1 j) as [x Hx]; [lia|].
    rewrite (drop_S _ _ _ Hx) in HP1. apply Forall_cons in HP1 as [Hpx HP1].
    eapply wp_mono; [apply (Hbody j x l1 g); done || lia|]. intros [] s' (x' & g' & -> & Hx' & Hi').
    exists (<[j := x']> l1), g'. split_and!; [done|by rewrite length_insert| | |done].
    + intros i y Hij Hy. destruct (decide (i = j)) as [->|].
      * rewrite list_lookup_insert_eq in Hy by lia. by simplify_eq.
      * rewrite list_lookup_insert_ne in Hy by done. apply HR; [lia|done].
    + by rewrite drop_insert_lt by lia.
  - intros s1 (l1 & g & -> & Hlen & HR & _ & Hi). rewrite Nat.add_0_l in *.
    apply HQ; [done| |done]. intros i x Hx. apply (HR i x); [|done].
    apply lookup_lt_Some in Hx. lia.
Qed.

Lemma wp_for_devices (body : nat → K (char_mod D) unit) (P R : D → Prop)
    (I : nat → registry → Prop) l s (Q : unit → char_mod D → Prop) :
  char_devices s = Some l → Forall P l → I 0%nat (char_regs s) →
  (∀ i x l' g, (i < length l)%nat → P x → l' !! i = Some x → I i g →
    wp C (body i) (λ _ s', ∃ x' g', s' = set_char_regs g' (set_char_devices (Some (<[i := x']> l')) s) ∧
      R x' ∧ I (S i) g') (set_char_regs g (set_char_devices (Some l') s))) →
  (∀ l' g, length l' = length l → Forall R l' → I (length l) g →
    Q tt (set_char_regs g (set_char_devices (Some l') s))) →
  wp C (for_each (length l) 0 body) Q s.
Proof.
  intros Hs HP HI Hbody HQ. eapply (wp_for_devices_at body P (λ _, R) I); [done..|].
  intros l' g Hlen HR. apply HQ; [done|]. by apply Forall_lookup.
Qed.

Lemma wp_make_devices n zero set_up L s (Q : unit → char_mod D → Prop) :
  owned L s →
  (∀ l g, let s' := set_char_regs g (set_char_devices (Some l) s) in
    length l = n → Forall (λ d, d = set_up zero) l →
    owned ((char_cdev <$> seq 0 n) ++ L) s' → Q tt s') →
  wp C (make_devices n zero set_up) Q s.
Proof.
  intros HL HQ. unfold make_devices. wp_step. wp_step. set (l0 := replicate n zero).
  assert (length l0 = n) as Hl0 by apply length_replicate. rewrite <-Hl0 at 1.
  apply (wp_for_devices _ (λ d, d = zero) (λ d, d = set_up zero)
    (λ j g, owns ((char_cdev <$> seq 0 j) ++ L) g)); [done|by apply Forall_replicate|done| |].
  - intros i x l' g Hi -> Hx Ho. wp_step.
    apply (wp_at_entry _ _ _ l' zero); [done|done|]. wp_step. unfold setup_cdev.
    wp_step. apply wp_hold. repeat wp_step. eexists _, _. split_and!; [done..|].
    apply owns_snoc. exact (owns_add _ _ _ Ho).
  - intros l' g Hlen HR Ho. rewrite Hl0 in *. by apply HQ.
Qed.

Lemma wp_drop_char_devices trim `{!Trims D trim} l L s (Q : unit → char_mod D → Prop) :
  char_devices s = Some l → Forall device_ok l →
  owned ((char_cdev <$> seq 0 (length l)) ++ L) s →
  (∀ l' g, let s' := set_char_regs g (set_char_devices (Some l') s) in
    Forall device_empty l' → owned L s' → Q tt s') →
  wp C (drop_devices (length l) trim) Q s.
Proof.
  intros Hl Hok Ho HQ. unfold drop_devices.
  apply (wp_for_devices _ device_ok device_empty
    (λ j g, owns ((char_cdev <$> seq j (length l - j)) ++ L) g) l); [done|done| | |].
  - by rewrite Nat.sub_0_r.
  - intros i x l' g Hi Hx Hi' Hg. wp_step. apply wp_give_back.
    apply (wp_at_entry _ _ _ l' x); [done|done|]. wp_step.
    eapply wp_mono; [by apply wp_trim|]. intros r x' Hx'. wp_step. eexists x', _.
    split_and!; [done|done|]. rewrite (cdevs_cons char_cdev) in Hg by done. exact (owns_del _ _ _ Hg).
  - intros l' g Hlen He Hg. rewrite Nat.sub_diag in Hg. by apply HQ.
Qed.
End rules.

(** ** Loading, using, unloading *)

Section life.
Context {D : Type} (trim : K D Z) `{!Trims D trim}.

(** What is held once loaded: with the cache, when there is one. *)
Definition char_holdings (s : char_mod D) : list resource :=
  (if slab s then [slab_cache] else []) ++
  char_block :: region (MKDEV (char_major s) 0) ::
  (char_cdev <$> seq 0 (Z.to_nat (char_devs s))).

Record char_ready (s : char_mod D) : Prop := {
  cr_devices : ∃ l, char_devices s = Some l ∧ length l = Z.to_nat (char_devs s) ∧ Forall device_ok l;
  cr_regs : owned (char_holdings s) s
}.

(** Between loading and unloading the devices are used, and nothing else. *)
Definition char_used (s s' : char_mod D) : Prop :=
  char_ready s → char_ready s' ∧ slab s' = slab s.

Record char_contract (C : contract (char_mod D)) : Prop := {
  cc_numbers : numbers_contract C;
  cc_used : ∀ s s', c_rely C s s' → char_used s s'
}.

(** Nothing is held, every device is empty. *)
Definition char_unloaded (s : char_mod D) : Prop :=
  owned [] s ∧ ∀ l, char_devices s = Some l → Forall device_empty l.

(** The module before it is loaded. *)
Definition char_fresh (major n : Z) : char_mod D := CharMod major n None false empty_registry.

Definition char_kernel : contract (char_mod D) :=
  Contract (λ c z, doc_ans c z ∧ match c with
    | kint what => if decide (what = "dynamic major"%string) then 0 < z < 2 ^ 12
                   else if decide (what = "kmem_cache_create"%string) then True else z <= 0
    | _ => True end) char_used False.

Lemma char_kernel_ok : char_contract char_kernel.
Proof. split; [split|done]; by intros z [_ ?]. Qed.
End life.
Arguments char_fresh {D} major n.
Arguments char_used {D} trim {_} s s'.
Arguments char_ready {D} trim {_} s.

(** Unloading what is ready, with the devices in [l]. *)
Lemma ready_devices {D} (trim : K D Z) `{!Trims D trim} s L :
  char_ready trim s → char_holdings s ≡ₚ (char_cdev <$> seq 0 (Z.to_nat (char_devs s))) ++ L →
  ∃ l, char_devices s = Some l ∧ length l = Z.to_nat (char_devs s) ∧ Forall device_ok l ∧
    owned ((char_cdev <$> seq 0 (length l)) ++ L) s.
Proof.
  intros [(l & Hl & Hlen & Hok) Ho] HL. exists l. split_and!; [done..|].
  rewrite Hlen. by eapply owned_perm.
Qed.

Lemma wp_char_cleanup {D} (trim : K D Z) `{!Trims D trim} C s (Q : unit → char_mod D → Prop) :
  char_ready trim s → slab s = false → (∀ s', char_unloaded trim s' → Q tt s') →
  wp C (char_cleanup trim) Q s.
Proof.
  intros Hr Hs HQ. unfold char_cleanup. wp_step. wp_step. wp_step.
  destruct (ready_devices trim s [char_block; region (MKDEV (char_major s) 0)] Hr)
    as (l & Hl & Hlen & Hok & Ho).
  { unfold char_holdings. rewrite Hs. cbn. by rewrite (Permutation_app_comm _ [_; _]). }
  rewrite <-Hlen. eapply wp_drop_char_devices; [exact Hl|exact Hok|exact Ho|]. intros l' g s' He Ho'.
  wp_step. apply wp_give_back. wp_step. wp_step. apply wp_give_back, HQ.
  split; [exact (owns_del _ _ _ (owns_del _ _ _ Ho'))|]. by intros ? [= <-].
Qed.

Lemma wp_scullp_init C order qset major n (Q : Z → char_mod scullp → Prop) :
  char_contract scullp_trim C → order = 0 → good_qset qset →
  (∀ z s, z < 0 → char_unloaded scullp_trim s → Q z s) →
  (∀ s, char_ready scullp_trim s → slab s = false → Q 0 s) →
  wp C (scullp_init order qset) Q (char_fresh major n).
Proof.
  intros HC -> Hq Hko Hok. unfold scullp_init. wp_step.
  apply wp_get_numbers; [apply HC|done|..].
  { intros z dev m Hz. rewrite (proj2 (Z.ltb_lt _ _)) by done. wp_step. by apply Hko. }
  intros g m s1 H1. change (0 <? 0) with false. cbn iota. wp_step. wp_step. wp_step. wp_step. wp_step.
  - wp_step. wp_step. wp_step. apply wp_give_back. wp_step. apply Hko; [done|].
    split; [exact (owns_del _ _ _ H1)|done].
  - wp_step. apply wp_hold. wp_step.
    apply (wp_make_devices C _ _ _ [char_block; region (MKDEV m 0)]); [exact (owns_add _ _ _ H1)|].
    intros l g' s' Hlen Hl Ho. wp_step. apply Hok; [|done]. split.
    + exists l. split_and!; [done..|]. eapply Forall_impl; [exact Hl|]. intros d ->.
      split; [apply (scullp_init_idle qset Hq)|done].
    + eapply owned_perm, Ho. by rewrite (Permutation_app_comm _ [_; _]).
Qed.

Lemma wp_scullc_cleanup C s (Q : unit → char_mod scullc → Prop) :
  char_ready scullc_trim s → (∀ s', char_unloaded scullc_trim s' → Q tt s') →
  wp C scullc_cleanup Q s.
Proof.
  intros Hr HQ. unfold scullc_cleanup. wp_step. wp_step. wp_step.
  destruct (ready_devices scullc_trim s (char_block :: (if slab s then [slab_cache] else []) ++
    [region (MKDEV (char_major s) 0)]) Hr) as (l & Hl & Hlen & Hok & Ho).
  { unfold char_holdings. set (cs := char_cdev <$> _). destruct (slab s); cbn; solve_Permutation. }
  rewrite <-Hlen. eapply wp_drop_char_devices; [exact Hl|exact Hok|exact Ho|]. intros l' g s' He Ho'.
  apply owns_del in Ho'. wp_step. apply wp_give_back. wp_step. wp_step. wp_step.
  change (slab (set_registry _ _)) with (slab s). destruct (slab s).
  - apply wp_give_back. wp_step. wp_step. apply wp_give_back, HQ.
    split; [exact (owns_del _ _ _ (owns_del _ _ _ Ho'))|]. by intros ? [= <-].
  - wp_step. wp_step. wp_step. apply wp_give_back, HQ.
    split; [exact (owns_del _ _ _ Ho')|]. by intros ? [= <-].
Qed.

Lemma wp_scullc_init C quantum qset major n (Q : Z → char_mod scullc → Prop) :
  char_contract scullc_trim C → 0 < qset →
  (∀ z s, z < 0 → char_unloaded scullc_trim s → Q z s) →
  (∀ s, char_ready scullc_trim s → slab s = true → Q 0 s) →
  wp C (scullc_init quantum qset) Q (char_fresh major n).
Proof.
  intros HC Hq Hko Hok. unfold scullc_init. wp_step.
  apply wp_get_numbers; [apply HC|done|..].
  { intros z dev m Hz. rewrite (proj2 (Z.ltb_lt _ _)) by done. wp_step. by apply Hko. }
  intros g m s1 H1. change (0 <? 0) with false. cbn iota. wp_step. wp_step. wp_step. wp_step. wp_step.
  { wp_step. wp_step. wp_step. apply wp_give_back. wp_step. apply Hko; [done|].
    split; [exact (owns_del _ _ _ H1)|done]. }
  wp_step. apply wp_hold. wp_step.
  apply (wp_make_devices C _ _ _ [char_block; region (MKDEV m 0)]); [exact (owns_add _ _ _ H1)|].
  intros l g' s2 Hlen Hl Ho.
  assert (Forall device_ok l) as Hld.
  { eapply Forall_impl; [exact Hl|]. intros d ->. split; [|done]. split; try done. by repeat constructor. }
  assert (∀ b g2, owned ((if b : bool then [slab_cache] else []) ++ char_block :: region (MKDEV m 0) ::
    (char_cdev <$> seq 0 (Z.to_nat n))) (set_char_regs g2 s2) →
    char_ready scullc_trim (set_slab b (set_char_regs g2 s2))) as Hready.
  { intros b g2 Hg. split; [by exists l|done]. }
  assert (owned (char_block :: region (MKDEV m 0) :: (char_cdev <$> seq 0 (Z.to_nat n))) s2) as Ho2.
  { eapply owned_perm, Ho. by rewrite (Permutation_app_comm _ [_; _]). }
  wp_step. apply wp_acquire_ptr.
  - wp_step. wp_step. change (0 =? 0) with true. cbn iota. wp_step.
    apply wp_scullc_cleanup; [by apply (Hready false g')|]. intros s3 H3. wp_step. by apply Hko.
  - intros c Hc Hc0. wp_step. wp_step. rewrite (proj2 (Z.eqb_neq _ _)) by done. wp_step.
    unfold c_bool. rewrite (proj2 (Z.eqb_neq _ _)) by done. cbn [negb]. apply Hok; [|done].
    apply (Hready true). exact (owns_add _ _ _ Ho2).
Qed.

(** ** Properties *)

(** Loading scullc, using its devices in any way that keeps them in order,
    and unloading it leaves nothing behind: the numbers, the cdevs, the array
    and the slab cache are given back, each once, and every block of every
    device is freed. A load that fails, whichever step of it does, holds
    nothing. *)
Theorem scullc_module_unloads C quantum qset major n :
  char_contract scullc_trim C → 0 < qset →
  wp C (r ← scullc_init quantum qset;
        if r =? 0 then interfere;; scullc_cleanup;; mret r else mret r)
    (λ r s, r <= 0 ∧ owned [] s ∧
      ∀ l, char_devices s = Some l →
        Forall (λ d, members d = [None] ∧ Scullc.live d = lenZ (Scullc.works d)) l)
    (char_fresh major n).
Proof.
  intros HC Hq. wp_step. apply wp_scullc_init; [done|done|..].
  - intros z s Hz [Ho He]. rewrite (proj2 (Z.eqb_neq _ _)) by lia. wp_step. split_and!; [lia|done..].
  - intros s Hs _. change (0 =? 0) with true. cbn iota. wp_step. wp_step.
    apply (cc_used _ _ HC) in H. destruct (H Hs) as [Hs' _]. wp_step.
    apply wp_scullc_cleanup; [done|]. intros s2 [Ho He]. by wp_step.
Qed.

Lemma scullc_module_unloads_witness :
  wp (char_kernel scullc_trim) (r ← scullc_init SCULLC_QUANTUM SCULLC_QSET;
        if r =? 0 then interfere;; scullc_cleanup;; mret r else mret r)
    (λ r s, r <= 0 ∧ owned [] s ∧
      ∀ l, char_devices s = Some l →
        Forall (λ d, members d = [None] ∧ Scullc.live d = lenZ (Scullc.works d)) l)
    (char_fresh 0 4).
Proof.
  apply (scullc_module_unloads (char_kernel scullc_trim) SCULLC_QUANTUM SCULLC_QSET 0 4);
    [apply char_kernel_ok|done].
Defined.

(** scullp: the same, with its pages. *)
Lemma scullp_module_unloads C qset major n :
  char_contract scullp_trim C → good_qset qset →
  wp C (r ← scullp_init 0 qset;
        if r =? 0 then interfere;; scullp_cleanup;; mret r else mret r)
    (λ r s, r <= 0 ∧ owned [] s ∧
      ∀ l, char_devices s = Some l →
        Forall (λ d, pages d = ∅ ∧ Scullp.live d = lenZ (Scullp.works d)) l)
    (char_fresh major n).
Proof.
  intros HC Hq. wp_step. apply wp_scullp_init; [done|done|done|..].
  - intros z s Hz [Ho He]. rewrite (proj2 (Z.eqb_neq _ _)) by lia. wp_step. split_and!; [lia|done..].
  - intros s Hs Hsl. change (0 =? 0) with true. cbn iota. wp_step. wp_step.
    apply (cc_used _ _ HC) in H. destruct (H Hs) as [Hs' Hsl']. wp_step.
    unfold scullp_cleanup. apply (wp_char_cleanup scullp_trim); [done|congruence|]. intros s2 [Ho He]. by wp_step.
Qed.
