(* ===== verification/UsbSkel.v ===== *)
(** * usb-skeleton: a driver with reference counts (src/ldd4/usb/usb-skeleton.c)

    One [struct usb_skel] for each time the interface was bound; open files and
    the interface hold references to it, and the last one dropped frees it,
    maybe long after the device was unplugged. Structures are named by numbers.
    The USB core is not under [src/]: what a URB submitted carries is kept in
    [in_flight] until the core calls the completion handler; URBs and buffers
    a call has not submitted yet are values of the call, counted in [urb_live]
    and [dma_live]. *)

From stdpp Require Import base tactics numbers list gmap strings.
From S2P Require Import Prelude KMonad.
From Stdlib Require Import ZArith Lia.

Open Scope Z_scope.

(** ** Data *)

Record endpoint := Endpoint { bEndpointAddress : Z; bmAttributes : Z; wMaxPacketSize : Z }.

Definition USB_DIR_IN : Z := 128.
Definition USB_ENDPOINT_XFERTYPE_MASK : Z := 3.
Definition USB_ENDPOINT_XFER_BULK : Z := 2.

(** [kref] is the count of the [struct kref]. *)
Record usb_skel := UsbSkel {
  kref : Z;
  bulk_in_buffer : option (list cell);
  bulk_in_size : Z;
  bulk_in_endpointAddr : Z;
  bulk_out_endpointAddr : Z
}.

Definition set_kref (v : Z) (d : usb_skel) : usb_skel :=
  UsbSkel v (bulk_in_buffer d) (bulk_in_size d) (bulk_in_endpointAddr d) (bulk_out_endpointAddr d).
Definition set_bulk_in (b : option (list cell)) (n a : Z) (d : usb_skel) : usb_skel :=
  UsbSkel (kref d) b n a (bulk_out_endpointAddr d).
Definition set_bulk_out (a : Z) (d : usb_skel) : usb_skel :=
  UsbSkel (kref d) (bulk_in_buffer d) (bulk_in_size d) (bulk_in_endpointAddr d) a.

(** What [usb_buffer_alloc] returned. *)
Inductive dma := DNull | DLive (d : list Z) | DFreed.

Record urb := Urb { transfer_buffer : dma }.

(** [intfdata]: the data of the interface; [registered]: whether its minor is.
    [files] are the open files of the tasks whose calls are considered, as
    their [private_data]; [other_files] those of other tasks. [live] counts
    blocks from [kmalloc], [udev_refs] the references to the USB device. *)
Record usb_world := World {
  skels : gmap nat usb_skel;
  intfdata : option nat;
  registered : bool;
  files : list (option nat);
  other_files : list nat;
  in_flight : list urb;
  urb_live : Z;
  dma_live : Z;
  udev_refs : Z;
  live : Z
}.

Definition set_skels (v : gmap nat usb_skel) (x : usb_world) : usb_world :=
  World v (intfdata x) (registered x) (files x) (other_files x) (in_flight x) (urb_live x)
    (dma_live x) (udev_refs x) (live x).
Definition set_intfdata (v : option nat) (x : usb_world) : usb_world :=
  World (skels x) v (registered x) (files x) (other_files x) (in_flight x) (urb_live x)
    (dma_live x) (udev_refs x) (live x).
Definition set_registered (v : bool) (x : usb_world) : usb_world :=
  World (skels x) (intfdata x) v (files x) (other_files x) (in_flight x) (urb_live x)
    (dma_live x) (udev_refs x) (live x).
Definition set_files (v : list (option nat)) (x : usb_world) : usb_world :=
  World (skels x) (intfdata x) (registered x) v (other_files x) (in_flight x) (urb_live x)
    (dma_live x) (udev_refs x) (live x).
Definition set_other_files (v : list nat) (x : usb_world) : usb_world :=
  World (skels x) (intfdata x) (registered x) (files x) v (in_flight x) (urb_live x)
    (dma_live x) (udev_refs x) (live x).
Definition set_in_flight (v : list urb) (x : usb_world) : usb_world :=
  World (skels x) (intfdata x) (registered x) (files x) (other_files x) v (urb_live x)
    (dma_live x) (udev_refs x) (live x).
Definition set_urb_live (v : Z) (x : usb_world) : usb_world :=
  World (skels x) (intfdata x) (registered x) (files x) (other_files x) (in_flight x) v
    (dma_live x) (udev_refs x) (live x).
Definition set_dma_live (v : Z) (x : usb_world) : usb_world :=
  World (skels x) (intfdata x) (registered x) (files x) (other_files x) (in_flight x)
    (urb_live x) v (udev_refs x) (live x).
Definition set_udev_refs (v : Z) (x : usb_world) : usb_world :=
  World (skels x) (intfdata x) (registered x) (files x) (other_files x) (in_flight x)
    (urb_live x) (dma_live x) v (live x).
Definition set_live (v : Z) (x : usb_world) : usb_world :=
  World (skels x) (intfdata x) (registered x) (files x) (other_files x) (in_flight x)
    (urb_live x) (dma_live x) (udev_refs x) v.

Definition add_urb_live (n : Z) (x : usb_world) : usb_world := set_urb_live (urb_live x + n) x.
Definition add_dma_live (n : Z) (x : usb_world) : usb_world := set_dma_live (dma_live x + n) x.
Definition add_udev (n : Z) (x : usb_world) : usb_world := set_udev_refs (udev_refs x + n) x.
Definition add_live (n : Z) (x : usb_world) : usb_world := set_live (live x + n) x.
Definition on_skel (d : nat) (f : usb_skel → usb_skel) (x : usb_world) : usb_world :=
  set_skels (alter f d (skels x)) x.

Definition sizeof_usb_skel : Z := 56.

(** [dev->field]. *)
Definition get_skel (d : nat) : K usb_world usb_skel :=
  gets (λ s, skels s !! d) ≫= deref UseAfterFree.

(** ** References *)

Definition skel_delete (d : nat) : K usb_world unit :=
  dev ← get_skel d;
  modify (add_udev (-1));;
  (match bulk_in_buffer dev with Some _ => modify (add_live (-1)) | None => mret tt end);;
  modify (add_live (-1));;
  modify (λ s, set_skels (delete d (skels s)) s).

Definition kref_get (d : nat) : K usb_world unit :=
  get_skel d;;
  modify (on_skel d (λ dev, set_kref (kref dev + 1) dev)).

Definition kref_put (d : nat) : K usb_world unit :=
  dev ← get_skel d;
  if kref dev =? 1 then skel_delete d
  else modify (on_skel d (λ dev, set_kref (kref dev - 1) dev)).

(** ** Open and release *)

(** A successful open makes a file whose [private_data] is the device. *)
Definition skel_open : K usb_world Z :=
  interface ← gets registered;
  if negb interface then mret (- ENODEV) else
  dev ← gets intfdata;
  match dev with
  | None => mret (- ENODEV)
  | Some d =>
      kref_get d;;
      modify (λ s, set_files (Some d :: files s) s);;
      mret 0
  end.

Definition skel_release (private_data : option nat) : K usb_world Z :=
  match private_data with
  | None => mret (- ENODEV)
  | Some d => kref_put d;; mret 0
  end.

(** ** Reading *)

(** [usb_bulk_msg] stores the length as an [int] through the pointer it got: in
    a [size_t] the upper half keeps its value. *)
Definition store_int (count actual : Z) : Z := count - count mod 2 ^ 32 + u32 actual.

(** The blocking transfer: the task sleeps, the device sends at most [len]
    bytes, which are stored at the start of the buffer. *)
Definition usb_bulk_msg (d : nat) (len : Z) : K usb_world (Z * Z) :=
  interfere;;
  r ← call (kint "usb_bulk_msg"%string);
  if c_bool r then mret (r, 0) else
  n ← call (actual_length len);
  bytes ← junk_bytes (Z.to_nat n);
  dev ← get_skel d;
  buf ← deref NullDeref (bulk_in_buffer dev);
  if lenZ buf <? n then oops OutOfBounds else
  modify (on_skel d (λ dev, set_bulk_in (Some (store 0 (Some <$> bytes) buf)) (bulk_in_size dev)
    (bulk_in_endpointAddr dev) dev));;
  mret (0, n).

(** The value of the call and what reached the user's buffer. *)
Definition skel_read (private_data : option nat) (count : Z) : K usb_world (Z * list cell) :=
  d ← deref NullDeref private_data;
  dev ← get_skel d;
  '(retval, actual) ← usb_bulk_msg d (s32 (Z.min (bulk_in_size dev) count));
  if c_bool retval then mret (retval, []) else
  let count := store_int count actual in
  dev ← get_skel d;
  buf ← deref NullDeref (bulk_in_buffer dev);
  if lenZ buf <? count then oops OutOfBounds else
  '(bytes, ok) ← copy_to_user (slice 0 count buf);
  mret (if ok : bool then s32 count else - EFAULT, bytes).

(** ** Writing *)

Definition usb_buffer_free (b : dma) : K usb_world dma :=
  match b with
  | DNull => mret DNull
  | DLive _ => modify (add_dma_live (-1));; mret DFreed
  | DFreed => oops DoubleFree
  end.

(** [kfree] of a buffer that came from [usb_buffer_alloc]. *)
Definition kfree_dma (b : dma) : K usb_world unit :=
  match b with DNull => mret tt | _ => oops DoubleFree end.

(** [usb_free_urb] of the task's reference to a URB it did not submit. *)
Definition usb_free_urb (u : option urb) : K usb_world unit :=
  match u with Some _ => modify (add_urb_live (-1)) | None => mret tt end.

(** The label [error]; the first line reads a field of the URB. *)
Definition write_error (d : nat) (u : option urb) (buf : dma) (retval : Z) : K usb_world Z :=
  get_skel d;;
  deref NullDeref u;;
  buf ← usb_buffer_free buf;
  usb_free_urb u;;
  kfree_dma buf;;
  mret retval.

(** [usb_submit_urb]: once it succeeded the core holds the URB, and the task
    gives its own reference up. *)
Definition skel_write (private_data : option nat) (user_buffer : list Z) : K usb_world Z :=
  d ← deref NullDeref private_data;
  let count := lenZ user_buffer in
  if count =? 0 then mret count else
  interfere;;
  z ← call (kint "usb_alloc_urb"%string);
  if z =? 0 then write_error d None DNull (- ENOMEM) else
  modify (add_urb_live 1);;
  get_skel d;;
  z ← call (kint "usb_buffer_alloc"%string);
  if z =? 0 then write_error d (Some (Urb DNull)) DNull (- ENOMEM) else
  modify (add_dma_live 1);;
  let buf := DLive user_buffer in
  interfere;;
  left ← call (kint "copy_from_user"%string);
  if c_bool left then write_error d (Some (Urb DNull)) buf (- EFAULT) else
  get_skel d;;
  let u := Urb buf in
  retval ← call (kint "usb_submit_urb"%string);
  if c_bool retval then write_error d (Some u) buf retval else
  modify (λ s, set_in_flight (in_flight s ++ [u]) s);;
  mret (s64 count).

(** [status] only decides what is logged. *)
Definition skel_write_bulk_callback (u : urb) (status : Z) : K usb_world unit :=
  usb_buffer_free (transfer_buffer u);;
  mret tt.

(** The core is done with the [k]-th URB in flight: it calls the handler and
    drops its reference. *)
Definition complete_urb (k : nat) (status : Z) : K usb_world unit :=
  u ← gets (λ s, in_flight s !! k) ≫= deref UseAfterFree;
  modify (λ s, set_in_flight (delete k (in_flight s)) s);;
  skel_write_bulk_callback u status;;
  usb_free_urb (Some u).

(** ** Binding and unbinding *)

Definition is_bulk (e : endpoint) : bool :=
  Z.land (bmAttributes e) USB_ENDPOINT_XFERTYPE_MASK =? USB_ENDPOINT_XFER_BULK.
Definition is_in (e : endpoint) : bool := c_bool (Z.land (bEndpointAddress e) USB_DIR_IN).

(** The first half of the loop's body; [false] when there is no memory. *)
Definition set_in_endpoint (d : nat) (e : endpoint) : K usb_world bool :=
  dev ← get_skel d;
  if negb (c_bool (bulk_in_endpointAddr dev)) && is_in e && is_bulk e then
    let buffer_size := wMaxPacketSize e in
    z ← call (kmalloc buffer_size);
    let buf := if z =? 0 then None else Some (uninit buffer_size) in
    modify (on_skel d (set_bulk_in buf buffer_size (bEndpointAddress e)));;
    (if z =? 0 then mret tt else modify (add_live 1));;
    mret (negb (z =? 0))
  else mret true.

(** The second half. *)
Definition set_out_endpoint (d : nat) (e : endpoint) : K usb_world unit :=
  dev ← get_skel d;
  if negb (c_bool (bulk_out_endpointAddr dev)) && negb (is_in e) && is_bulk e then
    modify (on_skel d (set_bulk_out (bEndpointAddress e)))
  else mret tt.

(** [for (i = 0; i < bNumEndpoints; ++i)] *)
Fixpoint probe_endpoints (d : nat) (l : list endpoint) : K usb_world bool :=
  match l with
  | [] => mret true
  | e :: l =>
      ok ← set_in_endpoint d e;
      if negb ok then mret false else
      set_out_endpoint d e;;
      probe_endpoints d l
  end.

Definition skel_probe (endpoints : list endpoint) : K usb_world Z :=
  z ← call (kmalloc sizeof_usb_skel);
  if z =? 0 then mret (- ENOMEM) else
  d ← gets (λ s, fresh (dom (skels s)));
  modify (add_live 1);;
  modify (λ s, set_skels (<[d := UsbSkel 1 None 0 0 0]> (skels s)) s);;
  modify (add_udev 1);;
  ok ← probe_endpoints d endpoints;
  if negb ok then kref_put d;; mret (- ENOMEM) else
  dev ← get_skel d;
  if negb (c_bool (bulk_in_endpointAddr dev) && c_bool (bulk_out_endpointAddr dev)) then
    kref_put d;; mret (- ENOMEM)
  else
    modify (set_intfdata (Some d));;
    retval ← call (kint "usb_register_dev"%string);
    if c_bool retval then
      modify (set_intfdata None);;
      kref_put d;; mret retval
    else
      modify (set_registered true);;
      mret 0.

Definition skel_disconnect : K usb_world unit :=
  dev ← gets intfdata;
  modify (set_intfdata None);;
  modify (set_registered false);;
  d ← deref NullDeref dev;
  kref_put d.

(** ** The driver as a state machine *)

Inductive skel_op :=
| Probe (endpoints : list endpoint)
| Disconnect
| Open
| Release (k : nat)
| Read (k : nat) (count : Z)
| Write (k : nat) (buf : list Z)
| Complete (k : nat) (status : Z).

(** The [private_data] of the [k]-th open file. *)
Definition private_data (k : nat) : K usb_world (option nat) :=
  gets (λ s, files s !! k) ≫= deref BugOn.

Definition skel_handle (o : skel_op) : K usb_world Z :=
  match o with
  | Probe l => skel_probe l
  | Disconnect => kfmap (λ _, 0) skel_disconnect
  | Open => skel_open
  | Release k =>
      p ← private_data k;
      modify (λ s, set_files (delete k (files s)) s);;
      skel_release p
  | Read k count => p ← private_data k; kfmap fst (skel_read p count)
  | Write k buf => p ← private_data k; skel_write p buf
  | Complete k status => kfmap (λ _, 0) (complete_urb k status)
  end.

(** What the descriptor's fields can hold. *)
Definition endpoint_ok (e : endpoint) : Prop :=
  0 <= bEndpointAddress e < 2 ^ 8 ∧ 0 <= wMaxPacketSize e < 2 ^ 16.

(** The USB core binds an interface that is not bound, unbinds one that is, and
    completes what was submitted; the VFS transfers at most [INT_MAX] bytes. *)
Definition skel_allowed (s : usb_world) (o : skel_op) : Prop :=
  match o with
  | Probe l => intfdata s = None ∧ Forall endpoint_ok l
  | Disconnect => is_Some (intfdata s)
  | Open => True
  | Release k => (k < length (files s))%nat
  | Read k count => (k < length (files s))%nat ∧ 0 <= count <= INT_MAX
  | Write k buf => (k < length (files s))%nat ∧ lenZ buf <= INT_MAX
  | Complete k _ => (k < length (in_flight s))%nat
  end.

Definition skel_init : usb_world := World ∅ None false [] [] [] 0 0 0 0.

(** ** Invariant *)

(** How often [x] occurs in [l]. *)
Fixpoint occurs {A} `{!EqDecision A} (x : A) (l : list A) : Z :=
  match l with [] => 0 | y :: l => (if decide (y = x) then 1 else 0) + occurs x l end.

(** The references to [d] from the interface and from open files, and the one
    the running call may hold. *)
Definition bound_refs (s : usb_world) (d : nat) : Z :=
  if decide (intfdata s = Some d) then 1 else 0.
Definition pubs (s : usb_world) (d : nat) : Z :=
  bound_refs s d + occurs (Some d) (files s) + occurs d (other_files s).
Definition extra (e : option nat) (d : nat) : Z := if decide (e = Some d) then 1 else 0.

Definition good_skel (k : usb_skel) : Prop :=
  0 <= bulk_in_size k < 2 ^ 16 ∧
  ∃ buf, bulk_in_buffer k = Some buf ∧ lenZ buf = bulk_in_size k.

(** The blocks of a structure, and of all of them. *)
Definition skel_blocks (k : usb_skel) : Z :=
  match bulk_in_buffer k with Some _ => 2 | None => 1 end.
Definition total (m : gmap nat usb_skel) : Z :=
  foldr Z.add 0 (skel_blocks ∘ snd <$> map_to_list m).

(** [e]: the reference of the running call; [a], [b]: its URBs and buffers. *)
Record wf (e : option nat) (a b : Z) (s : usb_world) : Prop := {
  wf_skel : ∀ d k, skels s !! d = Some k →
    kref k = pubs s d + extra e d ∧ 0 < kref k ∧ (0 < pubs s d → good_skel k);
  wf_ref : ∀ d, 0 < pubs s d + extra e d → is_Some (skels s !! d);
  wf_files : None ∉ files s;
  wf_udev : udev_refs s = Z.of_nat (size (skels s));
  wf_live : live s = total (skels s);
  wf_urbs : urb_live s = lenZ (in_flight s) + a;
  wf_dma : dma_live s = lenZ (in_flight s) + b;
  wf_flight : Forall (λ u, ∃ data, transfer_buffer u = DLive data) (in_flight s)
}.

Definition idle : usb_world → Prop := wf None 0 0.

(** What goes on while a call sleeps: other tasks open, read, write and close
    files of their own, URBs complete, the device goes away or comes back. *)
Definition peers (s s' : usb_world) : Prop :=
  (∀ a b, wf None a b s → wf None a b s') ∧ files s' = files s ∧
  ∀ d k, Some d ∈ files s → skels s !! d = Some k →
    ∃ k', skels s' !! d = Some k' ∧ bulk_in_size k' = bulk_in_size k.

(** *** Lemmas on counting *)

Section counting.
Context {A : Type} `{!EqDecision A}.
Implicit Types (x y : A) (l : list A).

Lemma occurs_nonneg x l : 0 <= occurs x l.
Proof. induction l as [|y l IH]; cbn; [done|]. case_decide; lia. Qed.

Lemma occurs_pos x l : 0 < occurs x l ↔ x ∈ l.
Proof.
  induction l as [|y l IH]; cbn; [split; [lia|by intros ?%not_elem_of_nil]|].
  rewrite elem_of_cons, <-IH. pose proof (occurs_nonneg x l). case_decide as E.
  - subst. split; [by left|lia].
  - split; [intros; right; lia|]. intros [->|]; [done|lia].
Qed.

Lemma occurs_delete x y l k :
  l !! k = Some y → occurs x (delete k l) = occurs x l - if decide (y = x) then 1 else 0.
Proof.
  revert k; induction l as [|z l IH]; intros [|k] Hk; simplify_eq/=; [lia|].
  rewrite (IH k) by done. lia.
Qed.
End counting.

Lemma total_insert d k m : m !! d = None → total (<[d := k]> m) = total m + skel_blocks k.
Proof.
  intros Hd. unfold total. rewrite (foldr_permutation_proper' _ Z.add 0 _ _
    (fmap_Permutation (skel_blocks ∘ snd) _ _ (map_to_list_insert m d k Hd))) by lia.
  cbn. lia.
Qed.

Lemma total_delete d k m : m !! d = Some k → total (delete d m) = total m - skel_blocks k.
Proof.
  intros Hd. rewrite <-(insert_delete_id m d k Hd) at 2.
  rewrite total_insert by apply lookup_delete_eq. lia.
Qed.

Lemma total_alter f d k m :
  m !! d = Some k → total (alter f d m) = total m - skel_blocks k + skel_blocks (f k).
Proof.
  intros Hd. replace (alter f d m) with (<[d := f k]> (delete d m)).
  - rewrite total_insert, (total_delete d k) by (done || apply lookup_delete_eq). lia.
  - rewrite insert_delete_eq. apply map_eq. intros i. destruct (decide (i = d)) as [->|].
    + by rewrite lookup_insert_eq, lookup_alter_eq, Hd.
    + by rewrite lookup_insert_ne, lookup_alter_ne by done.
Qed.

Lemma size_alter f d (m : gmap nat usb_skel) : size (alter f d m) = size m.
Proof. rewrite <-!size_dom. by rewrite dom_alter_L. Qed.

(** *** Lemmas on the invariant *)

Section invariant.
Implicit Types (s : usb_world) (e : option nat) (d : nat).

Lemma pubs_nonneg s d : 0 <= pubs s d.
Proof.
  unfold pubs, bound_refs. pose proof (occurs_nonneg (Some d) (files s)).
  pose proof (occurs_nonneg d (other_files s)). case_decide; lia.
Qed.

Lemma extra_none d : extra None d = 0.
Proof. unfold extra. by rewrite decide_False. Qed.
Lemma extra_self d : extra (Some d) d = 1.
Proof. unfold extra. by rewrite decide_True. Qed.
Lemma extra_ne d d' : d ≠ d' → extra (Some d) d' = 0.
Proof. intros. unfold extra. rewrite decide_False; [done|congruence]. Qed.
Lemma extra_nonneg e d : 0 <= extra e d.
Proof. unfold extra. case_decide; lia. Qed.

Lemma open_pubs s d : Some d ∈ files s → 0 < pubs s d.
Proof.
  intros H%occurs_pos. unfold pubs, bound_refs. pose proof (occurs_nonneg d (other_files s)).
  case_decide; lia.
Qed.

(** The device of an open file, and that of the interface. *)
Lemma pub_skel e a b s d : wf e a b s → 0 < pubs s d → ∃ k, skels s !! d = Some k ∧ good_skel k.
Proof.
  intros [Hsk Hr _ _ _ _ _ _] Hp. destruct (Hr d) as [k Hk].
  { pose proof (extra_nonneg e d). lia. }
  exists k. split; [done|]. by apply (Hsk d k).
Qed.

Lemma bound_pubs s d : intfdata s = Some d → 0 < pubs s d.
Proof.
  intros H. unfold pubs, bound_refs. rewrite decide_True by done.
  pose proof (occurs_nonneg d (other_files s)). pose proof (occurs_nonneg (Some d) (files s)). lia.
Qed.

(** The references of the interface and of files change hands. *)
Lemma wf_move e e' a b s s' :
  wf e a b s → skels s' = skels s → None ∉ files s' → in_flight s' = in_flight s →
  udev_refs s' = udev_refs s → live s' = live s → urb_live s' = urb_live s →
  dma_live s' = dma_live s →
  (∀ d, pubs s' d + extra e' d = pubs s d + extra e d) →
  (∀ d k, skels s !! d = Some k → pubs s d = 0 → 0 < pubs s' d → good_skel k) →
  wf e' a b s'.
Proof.
  intros [Hsk Hr Hf Hu Hl Hur Hd Hfl] Es ? Ei Eu El Eur Ed Hrefs Hgood.
  split; rewrite ?Es, ?Ei, ?Eu, ?El, ?Eur, ?Ed; try done.
  - intros d k Hk. destruct (Hsk d k Hk) as (-> & ? & Hg). rewrite Hrefs. split_and!; [done..|].
    intros Hp. pose proof (pubs_nonneg s d). destruct (decide (pubs s d = 0)); [eauto|]. apply Hg. lia.
  - intros d Hp. apply Hr. by rewrite <-Hrefs.
Qed.

(** A structure changes, its references do not. *)
Lemma wf_on_skel e a b s d k f :
  wf e a b s → skels s !! d = Some k → kref (f k) = kref k →
  (0 < pubs s d → good_skel k → good_skel (f k)) →
  wf e a b (add_live (skel_blocks (f k) - skel_blocks k) (on_skel d f s)).
Proof.
  intros [Hsk Hr Hf Hu Hl Hur Hd Hfl] Hk Ekref Hgood. split; cbn; try done.
  - intros d' k'. change (pubs _ d') with (pubs s d'). destruct (decide (d = d')) as [<-|].
    + rewrite lookup_alter_eq, Hk. cbn. intros [= <-]. rewrite Ekref.
      destruct (Hsk d k Hk) as (-> & ? & ?). split_and!; [done..|]. auto.
    + rewrite lookup_alter_ne by done. apply Hsk.
  - intros d' Hp. change (pubs _ d') with (pubs s d') in Hp.
    apply lookup_alter_is_Some. by apply Hr.
  - by rewrite size_alter.
  - rewrite (total_alter f d k) by done. lia.
Qed.

Lemma wf_on_skel_same e a b s d k f :
  wf e a b s → skels s !! d = Some k → kref (f k) = kref k → skel_blocks (f k) = skel_blocks k →
  (0 < pubs s d → good_skel k → good_skel (f k)) → wf e a b (on_skel d f s).
Proof.
  intros Hwf Hk Ek Eb Hg. pose proof (wf_on_skel e a b s d k f Hwf Hk Ek Hg) as H.
  rewrite Eb, Z.sub_diag in H. replace (on_skel d f s) with (add_live 0 (on_skel d f s)); [done|].
  destruct s. unfold add_live, set_live; cbn. by rewrite Z.add_0_r.
Qed.

(** The URBs and the buffers of the running call. *)
Lemma wf_add_urb e a b n s : wf e a b s → wf e (a + n) b (add_urb_live n s).
Proof. intros []. split; cbn; try done. lia. Qed.
Lemma wf_add_dma e a b n s : wf e a b s → wf e a (b + n) (add_dma_live n s).
Proof. intros []. split; cbn; try done. lia. Qed.

(** *** The reference count *)

Lemma wp_get_skel C d k s (Q : usb_skel → usb_world → Prop) :
  skels s !! d = Some k → Q k s → wp C (get_skel d) Q s.
Proof. intros Hk HQ. unfold get_skel. wp_step. wp_step. by apply (wp_deref _ _ _ _ _ k). Qed.

(** Taking a reference. *)
Lemma wf_get a b s d k :
  wf None a b s → skels s !! d = Some k →
  wf (Some d) a b (on_skel d (λ dev, set_kref (kref dev + 1) dev) s).
Proof.
  intros [Hsk Hr Hf Hu Hl Hur Hd Hfl] Hk. split; cbn; try done.
  - intros d' k'. change (pubs _ d') with (pubs s d'). destruct (decide (d = d')) as [<-|].
    + rewrite lookup_alter_eq, Hk. cbn. intros [= <-]. destruct (Hsk d k Hk) as (E & ? & ?).
      rewrite extra_none in E. rewrite extra_self. cbn. split_and!; [lia..|done].
    + rewrite lookup_alter_ne by done. intros Hk'. destruct (Hsk d' k' Hk') as (E & ?).
      rewrite extra_none in E. by rewrite extra_ne.
  - intros d' Hp. change (pubs _ d') with (pubs s d') in Hp. apply lookup_alter_is_Some.
    destruct (decide (d = d')) as [<-|]; [by eexists|]. rewrite extra_ne in Hp by done.
    apply Hr. by rewrite extra_none.
  - by rewrite size_alter.
  - rewrite (total_alter _ d k) by done. unfold skel_blocks. cbn. lia.
Qed.

Lemma wp_kref_get C a b s d (Q : unit → usb_world → Prop) :
  wf None a b s → 0 < pubs s d →
  (∀ s', wf (Some d) a b s' → intfdata s' = intfdata s → files s' = files s → Q tt s') →
  wp C (kref_get d) Q s.
Proof.
  intros Hwf Hp HQ. destruct (pub_skel _ _ _ _ _ Hwf Hp) as (k & Hk & _).
  unfold kref_get. wp_step. apply (wp_get_skel _ _ k); [done|]. wp_step.
  apply HQ; [by eapply wf_get|done..].
Qed.

(** Dropping the reference of the running call. *)
Lemma wf_put a b s d k :
  wf (Some d) a b s → skels s !! d = Some k → kref k ≠ 1 →
  wf None a b (on_skel d (λ dev, set_kref (kref dev - 1) dev) s).
Proof.
  intros [Hsk Hr Hf Hu Hl Hur Hd Hfl] Hk Hne. split; cbn; try done.
  - intros d' k'. change (pubs _ d') with (pubs s d'). destruct (decide (d = d')) as [<-|].
    + rewrite lookup_alter_eq, Hk. cbn. intros [= <-]. destruct (Hsk d k Hk) as (E & ? & ?).
      rewrite extra_self in E. rewrite extra_none. cbn. split_and!; [lia..|done].
    + rewrite lookup_alter_ne by done. intros Hk'. destruct (Hsk d' k' Hk') as (E & ?).
      rewrite extra_ne in E by done. by rewrite extra_none.
  - intros d' Hp. change (pubs _ d') with (pubs s d') in Hp. apply lookup_alter_is_Some, Hr.
    rewrite extra_none in Hp. pose proof (extra_nonneg (Some d) d'). lia.
  - by rewrite size_alter.
  - rewrite (total_alter _ d k) by done. unfold skel_blocks. cbn. lia.
Qed.

Lemma wf_deleted a b s d k :
  wf (Some d) a b s → skels s !! d = Some k → kref k = 1 →
  wf None a b (set_skels (delete d (skels s)) (add_udev (-1) (add_live (- skel_blocks k) s))).
Proof.
  intros [Hsk Hr Hf Hu Hl Hur Hd Hfl] Hk He.
  assert (pubs s d = 0) as Hp0.
  { destruct (Hsk d k Hk) as (E & _). rewrite extra_self in E. lia. }
  split; cbn; try done.
  - intros d' k'. rewrite lookup_delete_Some. intros [Hne Hk']. change (pubs _ d') with (pubs s d').
    destruct (Hsk d' k' Hk') as (E & ?). rewrite extra_ne in E by done. by rewrite extra_none.
  - intros d' Hp. change (pubs _ d') with (pubs s d') in Hp. rewrite extra_none in Hp.
    destruct (decide (d = d')) as [<-|]; [lia|].
    rewrite lookup_delete_ne by done. apply Hr. rewrite extra_ne by done. lia.
  - rewrite map_size_delete_Some by by eexists. assert (size (skels s) ≠ 0%nat).
    { intros E%map_size_empty_iff. by rewrite E, lookup_empty in Hk. } lia.
  - rewrite (total_delete d k) by done. lia.
Qed.

Lemma wp_kref_put C a b s d (Q : unit → usb_world → Prop) :
  wf (Some d) a b s → (∀ s', wf None a b s' → files s' = files s → Q tt s') →
  wp C (kref_put d) Q s.
Proof.
  intros Hwf HQ. destruct (wf_ref _ _ _ _ Hwf d) as [k Hk].
  { pose proof (pubs_nonneg s d). rewrite extra_self. lia. }
  unfold kref_put. wp_step. apply (wp_get_skel _ _ k); [done|]. wp_step.
  - pose proof (wf_deleted _ _ _ _ _ Hwf Hk ltac:(done)) as H.
    unfold skel_delete. wp_step. apply (wp_get_skel _ _ k); [done|]. wp_step. wp_step. wp_step.
    unfold skel_blocks in H. destruct (bulk_in_buffer k); repeat wp_step; (apply HQ; [|done]);
      (eapply wf_move; [exact H|done|apply (wf_files _ _ _ _ Hwf)|done|done|cbn; lia|done..|]);
      intros d' k' _ E Hp; change (pubs s d' = 0) in E; change (0 < pubs s d') in Hp; lia.
  - wp_step. apply HQ; [by eapply wf_put|done].
Qed.
End invariant.

(** ** Contracts

    Documented answers, and writes that succeed once their URB exists: any
    other failing write frees its buffer twice or reads a NULL URB, see
    [skel_write_double_free] and [skel_write_null_urb]. *)
Record skel_contract (C : contract usb_world) : Prop := {
  sk_doc : ∀ c z, c_ans C c z → doc_ans c z;
  sk_peers : ∀ s s', c_rely C s s' → peers s s';
  sk_urb : ∀ z, c_ans C (kint "usb_alloc_urb") z → z ≠ 0;
  sk_copy : ∀ z, c_ans C (kint "copy_from_user") z → z = 0;
  sk_submit : ∀ z, c_ans C (kint "usb_submit_urb") z → z = 0
}.

Section operations.
Context (C : contract usb_world) (HC : skel_contract C).
Implicit Types (s : usb_world).

Lemma wp_skel_open s : idle s → wp C skel_open (λ _, idle) s.
Proof.
  intros Hs. unfold skel_open. wp_step. wp_step. wp_step; [by wp_step|].
  wp_step. wp_step. wp_step; [|by wp_step].
  wp_step. apply (wp_kref_get _ 0 0); [done|by apply bound_pubs|].
  intros s' Hs' Hi Hf. wp_step. wp_step. wp_step. eapply wf_move; try exact Hs'; try done.
  - cbn. intros [?|H]%elem_of_cons; [done|by apply (wf_files _ _ _ _ Hs')].
  - intros d. unfold pubs, bound_refs. cbn. unfold extra. repeat case_decide; simplify_eq; lia.
  - intros d k _ H0 Hp. exfalso. destruct (decide (intfdata s' = Some d)) as [E|E].
    + apply bound_pubs in E. lia.
    + unfold pubs, bound_refs in *. cbn in Hp. repeat case_decide; simplify_eq; congruence || lia.
Qed.

Lemma wp_skel_release s k :
  idle s → (k < length (files s))%nat → wp C (skel_handle (Release k)) (λ _, idle) s.
Proof.
  intros Hs Hk. cbn [skel_handle]. unfold private_data. wp_step. wp_step. wp_step.
  destruct (lookup_lt_is_Some_2 (files s) k Hk) as [p Hp].
  apply (wp_deref _ _ _ _ _ p); [done|]. wp_step. wp_step.
  assert (∃ d, p = Some d) as [d ->].
  { destruct p; [by eexists|]. destruct (wf_files _ _ _ _ Hs). by eapply list_elem_of_lookup_2. }
  unfold skel_release. wp_step. apply (wp_kref_put _ 0 0); [|intros; by wp_step].
  eapply wf_move; try exact Hs; try done; cbn.
  - intros Hn. apply (wf_files _ _ _ _ Hs). by eapply list_elem_of_delete_inv.
  - intros d'. rewrite extra_none. unfold pubs, bound_refs. cbn.
    rewrite (occurs_delete _ (Some d)) by done. unfold extra. repeat case_decide; simplify_eq; lia.
  - intros d' k' _ H0 Hp'. exfalso. unfold pubs, bound_refs in *. cbn in Hp'.
    rewrite (occurs_delete _ (Some d)) in Hp' by done. repeat case_decide; simplify_eq; lia.
Qed.

Lemma wp_skel_disconnect s :
  idle s → is_Some (intfdata s) → wp C skel_disconnect (λ _, idle) s.
Proof.
  intros Hs [d Hd]. unfold skel_disconnect. repeat wp_step.
  apply (wp_deref _ _ _ _ _ d); [done|]. apply (wp_kref_put _ 0 0); [|done].
  eapply wf_move; try exact Hs; try done; cbn.
  - apply (wf_files _ _ _ _ Hs).
  - intros d'. rewrite extra_none. unfold pubs, bound_refs. cbn. rewrite Hd.
    unfold extra. repeat case_decide; simplify_eq; lia.
  - intros d' k' _ H0 Hp'. exfalso. unfold pubs, bound_refs in *. cbn in Hp'. rewrite Hd in H0.
    repeat case_decide; simplify_eq; lia.
Qed.

(** The file a call works on stays open while the call sleeps. *)
Lemma peers_file s s' d :
  idle s → c_rely C s s' → Some d ∈ files s →
  idle s' ∧ Some d ∈ files s' ∧ ∃ k, skels s !! d = Some k ∧ good_skel k ∧
    ∃ k', skels s' !! d = Some k' ∧ good_skel k' ∧ bulk_in_size k' = bulk_in_size k.
Proof.
  intros Hs Hr Hd. destruct (sk_peers _ HC _ _ Hr) as (Hwf & Hf & Hsize).
  assert (Some d ∈ files s') as Hd' by by rewrite Hf.
  pose proof (open_pubs _ _ Hd). pose proof (open_pubs _ _ Hd').
  split_and!; [by apply Hwf|done|].
  destruct (pub_skel _ _ _ _ d Hs) as (k & Hk & Hg); [done|].
  destruct (Hsize d k Hd Hk) as (k' & Hk' & E). exists k. split_and!; [done..|].
  exists k'. split_and!; [done| |done].
  by apply (wf_skel _ _ _ _ (Hwf _ _ Hs) d k' Hk').
Qed.

Lemma set_bulk_in_good buf n k :
  good_skel k → lenZ buf = bulk_in_size k →
  good_skel (set_bulk_in (Some buf) (bulk_in_size k) n k).
Proof. intros [? _] ?. split; [done|]. by exists buf. Qed.

(** The value of the transfer is its length, at most what the buffer holds. *)
Lemma wp_usb_bulk_msg s d k len (Q : Z * Z → usb_world → Prop) :
  idle s → Some d ∈ files s → skels s !! d = Some k → 0 <= len <= bulk_in_size k →
  (∀ r s', idle s' → r ≠ 0 → Q (r, 0) s') →
  (∀ n s' k', idle s' → skels s' !! d = Some k' → good_skel k' → 0 <= n <= len →
    bulk_in_size k' = bulk_in_size k → Q (0, n) s') →
  wp C (usb_bulk_msg d len) Q s.
Proof.
  intros Hs Hd Hk Hlen Herr Hok. unfold usb_bulk_msg. wp_step. wp_step.
  destruct (peers_file s s' d Hs ltac:(done) Hd) as (Hs' & Hd' & k0 & Hk0 & _ & k' & Hk' & Hg & E).
  simplify_eq. wp_step. wp_step. unfold c_bool. wp_step.
  { wp_step. by apply Herr. }
  wp_step. wp_step. pose proof (sk_doc _ HC _ _ ltac:(done)) as Hn. cbn in Hn.
  wp_step. wp_step. wp_step. apply (wp_get_skel _ _ k'); [done|].
  destruct Hg as [Hsz (buf & Hbuf & Hl)]. wp_step. apply (wp_deref _ _ _ _ _ buf); [done|].
  wp_step; [lia|]. wp_step. wp_step. wp_step.
  eapply (Hok z0); [|cbn; by rewrite lookup_alter_eq, Hk'|split; [done|]|lia|done].
  - eapply wf_on_skel_same; try done; [unfold skel_blocks; cbn; by rewrite Hbuf|].
    intros _ _. apply set_bulk_in_good; [by split; eauto|]. by rewrite length_store.
  - eexists. split; [done|]. cbn. by rewrite length_store.
Qed.

Lemma wp_skel_read s p count :
  idle s → p ∈ files s → 0 <= count <= INT_MAX → wp C (skel_read p count) (λ _, idle) s.
Proof.
  intros Hs Hp Hc. destruct p as [d|]; [|by destruct (wf_files _ _ _ _ Hs)].
  unfold skel_read. wp_step. apply (wp_deref _ _ _ _ _ d); [done|].
  destruct (pub_skel _ _ _ _ d Hs) as (k & Hk & Hg); [by apply open_pubs|].
  wp_step. apply (wp_get_skel _ _ k); [done|]. wp_step. unfold INT_MAX in *.
  rewrite s32_small by (destruct Hg; lia).
  apply (wp_usb_bulk_msg s d k); [done..|destruct Hg; lia| |].
  - intros r s' Hs' Hr. cbn iota. unfold c_bool. rewrite (proj2 (Z.eqb_neq _ _)) by done.
    cbn [negb]. by wp_step.
  - intros n s' k' Hs' Hk' [_ (buf & Hbuf & Hl)] Hn E. cbn iota.
    assert (store_int count n = n) as En.
    { unfold store_int. rewrite (Z.mod_small count), u32_small by (destruct Hg; lia). lia. }
    change (c_bool 0) with false. cbn iota.
    wp_step. apply (wp_get_skel _ _ k'); [done|]. wp_step.
    apply (wp_deref _ _ _ _ _ buf); [done|]. rewrite En. wp_step; [lia|]. wp_step.
    apply wp_copy_to_user. intros z Hz. by wp_step.
Qed.

Lemma wp_skel_write s p buf :
  idle s → p ∈ files s → lenZ buf <= INT_MAX → wp C (skel_write p buf) (λ _, idle) s.
Proof.
  intros Hs Hp Hlen. destruct p as [d|]; [|by destruct (wf_files _ _ _ _ Hs)].
  unfold skel_write. wp_step. apply (wp_deref _ _ _ _ _ d); [done|]. wp_step; [by wp_step|].
  wp_step. wp_step. destruct (peers_file _ _ _ Hs ltac:(done) Hp) as (Hs1 & Hp1 & _).
  wp_step. wp_step. wp_step; [by destruct (sk_urb _ HC z)|]. wp_step. wp_step.
  pose proof (wf_add_urb _ _ _ 1 _ Hs1) as Hs2.
  destruct (pub_skel _ _ _ _ d Hs2) as (k & Hk & _); [by apply open_pubs|].
  wp_step. apply (wp_get_skel _ _ k); [done|]. wp_step. wp_step. wp_step.
  { unfold write_error. cbn [usb_buffer_free usb_free_urb kfree_dma deref].
    wp_step. apply (wp_get_skel _ _ k); [done|]. repeat wp_step. cbn [kfree_dma]. repeat wp_step.
    exact (wf_add_urb _ _ _ (-1) _ Hs2). }
  wp_step. wp_step. pose proof (wf_add_dma _ _ _ 1 _ Hs2) as Hs3.
  wp_step. wp_step. destruct (sk_peers _ HC _ _ H2) as (Hwf & Hf & _).
  pose proof (Hwf _ _ Hs3) as Hs4. wp_step. wp_step.
  rewrite (sk_copy _ HC z1) by done. change (c_bool 0) with false. cbn iota.
  destruct (pub_skel _ _ _ _ d Hs4) as (k4 & Hk4 & _); [apply open_pubs; by rewrite Hf|].
  wp_step. apply (wp_get_skel _ _ k4); [done|]. wp_step. wp_step.
  rewrite (sk_submit _ HC z2) by done. change (c_bool 0) with false. cbn iota.
  wp_step. wp_step. wp_step. destruct Hs4. split; cbn; try done.
  - rewrite length_app. cbn. lia.
  - rewrite length_app. cbn. lia.
  - apply Forall_app; split; [done|]. apply Forall_singleton. by eexists.
Qed.

Lemma wp_complete_urb s k status :
  idle s → (k < length (in_flight s))%nat → wp C (complete_urb k status) (λ _, idle) s.
Proof.
  intros [] [u Hu]%lookup_lt_is_Some_2. unfold complete_urb. wp_step. wp_step. wp_step.
  apply (wp_deref _ _ _ _ _ u); [done|]. wp_step. wp_step.
  destruct (Forall_lookup_1 _ _ _ _ wf_flight0 Hu) as [data Hd].
  unfold skel_write_bulk_callback. rewrite Hd. cbn [usb_buffer_free usb_free_urb].
  pose proof (length_delete _ k (mk_is_Some _ _ Hu)).
  pose proof (lookup_lt_Some _ _ _ Hu). repeat wp_step. split; cbn; try done; try lia.
  by apply Forall_delete.
Qed.
End operations.

(** ** Binding: what the loop over the endpoints computes *)

Definition bulk_in (e : endpoint) : bool := is_in e && is_bulk e.
Definition bulk_out (e : endpoint) : bool :=
  negb (is_in e) && is_bulk e && c_bool (bEndpointAddress e).

Definition scan_in (k : usb_skel) (e : endpoint) : usb_skel :=
  if negb (c_bool (bulk_in_endpointAddr k)) && is_in e && is_bulk e
  then set_bulk_in (Some (uninit (wMaxPacketSize e))) (wMaxPacketSize e) (bEndpointAddress e) k
  else k.
Definition scan_out (k : usb_skel) (e : endpoint) : usb_skel :=
  if negb (c_bool (bulk_out_endpointAddr k)) && negb (is_in e) && is_bulk e
  then set_bulk_out (bEndpointAddress e) k else k.
Definition scan (k : usb_skel) (l : list endpoint) : usb_skel :=
  foldl (λ k e, scan_out (scan_in k e) e) k l.

(** The structure of a device with these endpoints. *)
Definition skel_of (i u : endpoint) : usb_skel :=
  UsbSkel 1 (Some (uninit (wMaxPacketSize i))) (wMaxPacketSize i) (bEndpointAddress i)
    (bEndpointAddress u).

(** The state of a probe that has got [k] so far, and that of a successful one. *)
Definition probing (d : nat) (k : usb_skel) (s : usb_world) : usb_world :=
  add_live (skel_blocks k) (add_udev 1 (set_skels (<[d := k]> (skels s)) s)).
Definition bound (d : nat) (k : usb_skel) (s : usb_world) : usb_world :=
  set_registered true (set_intfdata (Some d) (probing d k s)).

(** Either no bulk-in endpoint was met, or its buffer is there. *)
Definition in_ok (k : usb_skel) : Prop :=
  (bulk_in_endpointAddr k = 0 ∧ bulk_in_buffer k = None) ∨
  (bulk_in_endpointAddr k ≠ 0 ∧ good_skel k).

Lemma in_address e : is_in e = true → bEndpointAddress e ≠ 0.
Proof. unfold is_in, USB_DIR_IN. intros H E. by rewrite E in H. Qed.

Lemma scan_in_ok k e : endpoint_ok e → in_ok k → in_ok (scan_in k e).
Proof.
  intros [_ Hsz] Hk. unfold scan_in. case_match; zbool; [|done].
  right. split; [by apply in_address|]. split; [done|].
  eexists. split; [done|]. cbn. apply length_uninit. lia.
Qed.

Lemma scan_out_ok k e : in_ok k → in_ok (scan_out k e).
Proof. intros Hk. unfold scan_out. case_match; [|done]. destruct Hk; [by left|by right]. Qed.

Lemma scan_ok k l : Forall endpoint_ok l → in_ok k → in_ok (scan k l).
Proof.
  unfold scan. revert k; induction l as [|e l IH]; intros k Hl Hk; [done|].
  apply Forall_cons in Hl as [He Hl]. cbn. apply IH; [done|]. by apply scan_out_ok, scan_in_ok.
Qed.

(** The fields of the scan, one by one: the first endpoint of each kind. *)
Lemma scan_kref k l : kref (scan k l) = kref k.
Proof.
  unfold scan. revert k; induction l as [|e l IH]; intros k; [done|]. cbn. rewrite IH.
  unfold scan_out, scan_in. by repeat case_match.
Qed.

Definition ins (k : usb_skel) : option (list cell) * Z * Z :=
  (bulk_in_buffer k, bulk_in_size k, bulk_in_endpointAddr k).
Definition ins_of (e : endpoint) : option (list cell) * Z * Z :=
  (Some (uninit (wMaxPacketSize e)), wMaxPacketSize e, bEndpointAddress e).

Lemma ins_scan_out k e : ins (scan_out k e) = ins k.
Proof. unfold scan_out. by case_match. Qed.
Lemma outs_scan_in k e : bulk_out_endpointAddr (scan_in k e) = bulk_out_endpointAddr k.
Proof. unfold scan_in. by case_match. Qed.

Lemma c_bool_true n : c_bool n = true ↔ n ≠ 0.
Proof. unfold c_bool. rewrite negb_true_iff. apply Z.eqb_neq. Qed.

Lemma scan_ins k l :
  ins (scan k l) = if c_bool (bulk_in_endpointAddr k) then ins k
    else from_option ins_of (ins k) (List.find bulk_in l).
Proof.
  unfold scan. revert k; induction l as [|e l IH]; intros k; cbn [foldl List.find]; [by case_match|].
  rewrite IH. pose proof (ins_scan_out (scan_in k e) e) as E. injection E as _ _ ->.
  rewrite ins_scan_out. change (bulk_in e) with (is_in e && is_bulk e). unfold scan_in.
  destruct (c_bool (bulk_in_endpointAddr k)) eqn:Ek; cbn [negb andb]; [by rewrite Ek|].
  destruct (is_in e) eqn:Ei, (is_bulk e); cbn [andb]; rewrite ?Ek; try done.
  cbn [set_bulk_in bulk_in_endpointAddr]. by rewrite (proj2 (c_bool_true _) (in_address e Ei)).
Qed.

Lemma scan_outs k l :
  bulk_out_endpointAddr (scan k l) =
    if c_bool (bulk_out_endpointAddr k) then bulk_out_endpointAddr k
    else from_option bEndpointAddress 0 (List.find bulk_out l).
Proof.
  unfold scan. revert k; induction l as [|e l IH]; intros k; cbn [foldl List.find].
  { case_match eqn:E; [done|]. unfold c_bool in E. by zbool. }
  rewrite IH. unfold scan_out. rewrite !outs_scan_in.
  change (bulk_out e) with (negb (is_in e) && is_bulk e && c_bool (bEndpointAddress e)).
  destruct (c_bool (bulk_out_endpointAddr k)) eqn:Ek; cbn [negb andb].
  { by rewrite outs_scan_in, Ek. }
  destruct (is_in e), (is_bulk e); cbn [negb andb]; rewrite ?outs_scan_in, ?Ek; try done.
  cbn [set_bulk_out bulk_out_endpointAddr]. by destruct (c_bool (bEndpointAddress e)) eqn:?.
Qed.

(** What the probe ends with. *)
Definition found (l : list endpoint) : option usb_skel :=
  match List.find bulk_in l, List.find bulk_out l with
  | Some i, Some u => Some (skel_of i u)
  | _, _ => None
  end.

Lemma scan_found l :
  let k := scan (UsbSkel 1 None 0 0 0) l in
  if c_bool (bulk_in_endpointAddr k) && c_bool (bulk_out_endpointAddr k)
  then found l = Some k else found l = None.
Proof.
  cbv zeta. set (k := scan _ l). pose proof (scan_ins (UsbSkel 1 None 0 0 0) l) as Hi.
  pose proof (scan_outs (UsbSkel 1 None 0 0 0) l) as Ho.
  pose proof (scan_kref (UsbSkel 1 None 0 0 0) l) as Hk. fold k in Hi, Ho, Hk. cbn in Hi, Ho, Hk.
  unfold found. destruct (List.find bulk_in l) as [i|] eqn:Ei; cbn in Hi; injection Hi as Hb Hs Ha.
  2:{ by rewrite Ha. }
  apply List.find_some in Ei as [_ Ei]. apply andb_true_iff in Ei as [Ei _].
  rewrite Ha, Ho, (proj2 (c_bool_true _) (in_address i Ei)).
  destruct (List.find bulk_out l) as [u|] eqn:Eu; cbn [from_option]; [|done].
  apply List.find_some in Eu as [_ Eu]. unfold bulk_out in Eu. apply andb_true_iff in Eu as [_ ->].
  cbn [andb]. unfold skel_of. f_equal. destruct k; cbn in *; congruence.
Qed.

Section probe.
Context (C : contract usb_world).
Implicit Types (s : usb_world) (k : usb_skel).

Lemma probing_lookup d k s : skels (probing d k s) !! d = Some k.
Proof. apply lookup_insert_eq. Qed.

Lemma probing_step d k f s : skel_blocks (f k) = skel_blocks k →
  on_skel d f (probing d k s) = probing d (f k) s.
Proof.
  intros E. destruct s. unfold probing, on_skel, add_live, set_live, set_skels. cbn.
  by rewrite fin_maps.alter_insert_eq, E.
Qed.

Lemma probing_in d k n a s : bulk_in_buffer k = None →
  add_live 1 (on_skel d (set_bulk_in (Some (uninit n)) n a) (probing d k s)) =
    probing d (set_bulk_in (Some (uninit n)) n a k) s.
Proof.
  intros E. destruct s. unfold probing, on_skel, add_live, set_live, set_skels. cbn.
  rewrite fin_maps.alter_insert_eq. f_equal. unfold skel_blocks. rewrite E. cbn. lia.
Qed.

Lemma wp_set_in d k e s (Q : bool → usb_world → Prop) :
  in_ok k →
  Q true (probing d (scan_in k e) s) →
  (∀ n k', c_ans C (kmalloc n) 0 → kref k' = kref k → Q false (probing d k' s)) →
  wp C (set_in_endpoint d e) Q (probing d k s).
Proof.
  intros Hk Hok Hko. unfold set_in_endpoint. wp_step. apply (wp_get_skel _ _ k); [apply probing_lookup|].
  unfold scan_in in Hok. destruct (negb _ && _ && _) eqn:E; [|by wp_step].
  assert (bulk_in_buffer k = None) as Hb.
  { destruct Hk as [[_ ?]|[Hne _]]; [done|]. apply c_bool_true in Hne. by rewrite Hne in E. }
  wp_step. wp_step. wp_step. wp_step. wp_step. destruct (z =? 0) eqn:Ez; zbool.
  - subst z. do 2 wp_step. rewrite probing_step by (unfold skel_blocks; cbn; by rewrite Hb).
    by eapply Hko.
  - do 2 wp_step. cbn [negb]. by rewrite probing_in.
Qed.

Lemma wp_set_out d k e s (Q : unit → usb_world → Prop) :
  Q tt (probing d (scan_out k e) s) → wp C (set_out_endpoint d e) Q (probing d k s).
Proof.
  intros HQ. unfold set_out_endpoint. wp_step. apply (wp_get_skel _ _ k); [apply probing_lookup|].
  unfold scan_out in HQ. destruct (negb _ && _ && _); [|by wp_step].
  wp_step. by rewrite probing_step.
Qed.

Lemma wp_probe_endpoints d k l s (Q : bool → usb_world → Prop) :
  Forall endpoint_ok l → in_ok k →
  Q true (probing d (scan k l) s) →
  (∀ n k', c_ans C (kmalloc n) 0 → kref k' = kref k → Q false (probing d k' s)) →
  wp C (probe_endpoints d l) Q (probing d k s).
Proof.
  intros Hl. revert k; induction l as [|e l IH]; intros k Hk Hok Hko; cbn [probe_endpoints].
  { by wp_step. }
  apply Forall_cons in Hl as [He Hl]. wp_step. apply wp_set_in; [done|..].
  - cbn [negb]. wp_step. apply wp_set_out. apply IH; [done|by apply scan_out_ok, scan_in_ok|done|].
    intros n k' Hn Hk'. apply (Hko n); [done|]. rewrite Hk'.
    by rewrite (scan_kref k [e] : kref (scan_out (scan_in k e) e) = _).
  - intros n k' Hn Hk'. cbn [negb]. wp_step. by apply (Hko n).
Qed.

(** A probe that gives up leaves nothing behind. *)
Lemma wp_drop_probe d k s (Q : unit → usb_world → Prop) :
  skels s !! d = None → kref k = 1 → Q tt s → wp C (kref_put d) Q (probing d k s).
Proof.
  intros Hd Hk HQ. unfold kref_put. wp_step. apply (wp_get_skel _ _ k); [apply probing_lookup|].
  rewrite Hk. change (1 =? 1) with true. cbn iota. unfold skel_delete.
  wp_step. apply (wp_get_skel _ _ k); [apply probing_lookup|]. wp_step. wp_step.
  destruct (bulk_in_buffer k) eqn:Eb; repeat wp_step;
    (match goal with |- Q tt ?x => replace x with s; [done|] end);
    destruct s; cbn in Hd; unfold probing, set_skels, add_live, set_live, add_udev, skel_blocks;
    cbn; rewrite Eb; by rewrite delete_insert_eq, delete_id, <-!Z.add_assoc, !Z.add_0_r.
Qed.

(** A successful probe binds the interface to a structure that holds the first
    bulk endpoint of each direction; otherwise nothing has changed, and either
    there was no memory or no minor, or no such endpoints. *)
Definition probed (l : list endpoint) (s : usb_world) (r : Z) (s' : usb_world) : Prop :=
  (r = 0 ∧ ∃ k, found l = Some k ∧ s' = bound (fresh (dom (skels s))) k s) ∨
  (s' = s ∧ r ≠ 0 ∧
    (c_ans C (kint "usb_register_dev") r ∨
     r = - ENOMEM ∧ (found l = None ∨ ∃ n, c_ans C (kmalloc n) 0))).

Lemma wp_skel_probe l s :
  Forall endpoint_ok l → intfdata s = None → wp C (skel_probe l) (probed l s) s.
Proof.
  intros Hl Hi. unfold skel_probe. wp_step. wp_step. wp_step.
  { wp_step. subst z. right. split_and!; [done..|]. right. split; [done|]. right. by eexists. }
  wp_step. wp_step. wp_step. wp_step. wp_step. wp_step. wp_step. wp_step.
  set (d := fresh _). assert (skels s !! d = None) as Hd by apply not_elem_of_dom, is_fresh.
  set (k0 := UsbSkel 1 None 0 0 0).
  match goal with |- wp _ _ _ ?x => replace x with (probing d k0 s) by by destruct s end.
  wp_step. apply wp_probe_endpoints; [done|by left| |].
  2:{ intros n k' Hn Hk'. cbn [negb]. wp_step. apply wp_drop_probe; [done..|]. wp_step.
      right. split_and!; [done..|]. right. split; [done|]. right. by eexists. }
  cbn [negb]. wp_step. apply (wp_get_skel _ _ (scan k0 l)); [apply probing_lookup|].
  pose proof (scan_found l) as Hf. cbv zeta in Hf. fold k0 in Hf.
  destruct (c_bool _ && c_bool _); cbn [negb].
  2:{ wp_step. apply wp_drop_probe; [done|apply scan_kref|]. wp_step.
      right. split_and!; [done..|]. right. split; [done|]. by left. }
  wp_step. wp_step. wp_step. wp_step. unfold c_bool. wp_step; cbn [negb].
  - wp_step. wp_step. wp_step.
    match goal with |- wp _ _ _ ?x => replace x with (probing d (scan k0 l) s) end.
    2:{ destruct s; cbn in *; by subst. }
    apply wp_drop_probe; [done|apply scan_kref|]. wp_step. right. split_and!; [done..|]. by left.
  - wp_step. wp_step. wp_step. left. split; [done|]. by exists (scan k0 l).
Qed.

(** The structure of a bound interface is one more good one. *)
Lemma bound_idle d k s :
  idle s → intfdata s = None → skels s !! d = None → kref k = 1 → good_skel k →
  idle (bound d k s).
Proof.
  intros [Hsk Hr Hf Hu Hl Hur Hdm Hfl] Hi Hd Hk Hg.
  assert (pubs s d = 0) as Hp0.
  { pose proof (pubs_nonneg s d). destruct (decide (pubs s d = 0)); [done|].
    destruct (Hr d) as [k' Hk']; [rewrite extra_none; lia|congruence]. }
  assert (∀ d', pubs (bound d k s) d' = pubs s d' + extra (Some d) d') as Hpubs.
  { intros d'. unfold pubs, bound_refs, extra. cbn. rewrite Hi.
    repeat case_decide; simplify_eq; lia. }
  split; cbn; try done.
  - intros d' k'. rewrite Hpubs, extra_none. destruct (decide (d = d')) as [<-|].
    + rewrite lookup_insert_eq, extra_self. intros [= <-]. split_and!; [lia..|done].
    + rewrite lookup_insert_ne, extra_ne by done. intros Hk'.
      destruct (Hsk d' k' Hk') as (E & ? & ?). rewrite extra_none in E.
      split_and!; [lia..|]. rewrite Z.add_0_r. done.
  - intros d'. rewrite Hpubs, extra_none. destruct (decide (d = d')) as [<-|].
    + rewrite lookup_insert_eq. by eexists.
    + rewrite extra_ne, lookup_insert_ne by done. intros. apply Hr. rewrite extra_none. lia.
  - rewrite map_size_insert_None by done. lia.
  - rewrite total_insert by done. lia.
Qed.
End probe.

Lemma found_good l k : Forall endpoint_ok l → found l = Some k → kref k = 1 ∧ good_skel k.
Proof.
  intros Hl. unfold found. destruct (List.find bulk_in l) as [i|] eqn:Ei; [|done].
  destruct (List.find bulk_out l) as [u|]; [|done]. intros [= <-]. split; [done|].
  apply List.find_some in Ei as [Hi _]. rewrite Forall_forall in Hl.
  destruct (Hl i) as [_ Hsz]; [by apply list_elem_of_In|]. split; [done|].
  eexists. split; [done|]. cbn. apply length_uninit. lia.
Qed.

Lemma skel_idle_inductive C :
  skel_contract C → inductive_inv skel_handle skel_allowed C (λ s, s = skel_init) idle.
Proof.
  intros HC. split_and!.
  - intros s ->. split; try done. by apply not_elem_of_nil.
  - intros s o Hs Ho.
    assert (∀ k, (k < length (files s))%nat → ∃ p, files s !! k = Some p ∧ p ∈ files s) as Hfile.
    { intros k [p Hp]%lookup_lt_is_Some_2. exists p. split; [done|]. by eapply list_elem_of_lookup_2. }
    destruct o; cbn in *; try apply wp_kfmap.
    + destruct Ho as [Hi Hl]. eapply wp_mono; [by apply wp_skel_probe|].
      intros r s' [(_ & k & Hk & ->)|[-> _]]; [|done]. destruct (found_good _ _ Hl Hk).
      apply bound_idle; try done. apply not_elem_of_dom, is_fresh.
    + by apply wp_skel_disconnect.
    + by apply wp_skel_open.
    + by apply wp_skel_release.
    + destruct Ho as [(p & Hp & Hin)%Hfile ?]. unfold private_data. wp_step. wp_step. wp_step.
      apply (wp_deref _ _ _ _ _ p); [done|]. apply wp_kfmap. by apply wp_skel_read.
    + destruct Ho as [(p & Hp & Hin)%Hfile ?]. unfold private_data. wp_step. wp_step. wp_step.
      apply (wp_deref _ _ _ _ _ p); [done|]. by apply wp_skel_write.
    + by apply wp_complete_urb.
  - intros s s' Hs Hr. by apply (sk_peers _ HC _ _ Hr).
Qed.

(** ** Properties *)

(** C8: where in every write the URB is allocated, [copy_from_user] copies all and
    [usb_submit_urb] accepts the URB (other allocations, the transfer buffer's among
    them, reads and probes may fail), transfers are of INT_MAX bytes at most, as the
    VFS cuts them, and the endpoints probed are well formed: however opens, releases, reads, writes, completions, plugging and unplugging
    interleave, no entry point faults: no device structure is used after it was
    freed, and none is freed twice. The count of each structure is exactly the
    number of open files and interfaces that designate it, every one of those is
    allocated, a URB and its buffer live exactly while in flight, and once the
    device is gone and its files are closed everything was given back. (A write that
    fails there frees twice or dereferences NULL, [skel_write_double_free] and
    [skel_write_null_urb].) *)
Theorem skel_refcounts C :
  skel_contract C →
  faultless skel_handle skel_allowed C (λ s, s = skel_init) ∧
  ∀ s, reachable skel_handle skel_allowed C (λ s, s = skel_init) s →
    (∀ d k, skels s !! d = Some k → kref k = pubs s d ∧ 0 < kref k) ∧
    (∀ d, Some d ∈ files s ∨ intfdata s = Some d → is_Some (skels s !! d)) ∧
    urb_live s = lenZ (in_flight s) ∧ dma_live s = lenZ (in_flight s) ∧
    (intfdata s = None → files s = [] → other_files s = [] →
      skels s = ∅ ∧ live s = 0 ∧ udev_refs s = 0).
Proof.
  intros HC. pose proof (skel_idle_inductive C HC) as Hinv.
  split; [by eapply inv_faultless|]. intros s Hs.
  pose proof (reachable_inv _ _ _ _ _ _ Hinv Hs) as Hidle. pose proof Hidle as [Hsk Hr _ Hu Hl ? ? _].
  split_and!; try lia.
  - intros d k Hk. destruct (Hsk d k Hk) as (-> & ? & _). rewrite extra_none in *. lia.
  - intros d Hd. destruct (pub_skel _ _ _ _ d Hidle) as (k & Hk & _); [|by eexists].
    destruct Hd; [by apply open_pubs|by apply bound_pubs].
  - intros Hi Hf Ho. assert (skels s = ∅) as E.
    { apply map_empty. intros d. destruct (skels s !! d) as [k|] eqn:Hk; [|done].
      destruct (Hsk d k Hk) as (-> & Hp & _). unfold pubs, bound_refs in Hp.
      rewrite Hi, Hf, Ho in Hp. rewrite extra_none in Hp. by cbn in Hp. }
    split_and!; [done|by rewrite Hl, E|]. by rewrite Hu, E, map_size_empty.
Qed.

(** A documented kernel whose writes succeed once their URB exists. *)
Definition skel_kernel : contract usb_world :=
  Contract (λ c z, doc_ans c z ∧
    (c = kint "usb_alloc_urb" → z ≠ 0) ∧ (c = kint "copy_from_user" → z = 0) ∧
    (c = kint "usb_submit_urb" → z = 0)) peers False.

Lemma skel_kernel_ok : skel_contract skel_kernel.
Proof.
  split; [by intros c z []|done|..]; intros z (_ & H1 & H2 & H3); auto.
Qed.

Lemma skel_refcounts_witness :
  faultless skel_handle skel_allowed skel_kernel (λ s, s = skel_init) ∧
  ∀ s, reachable skel_handle skel_allowed skel_kernel (λ s, s = skel_init) s →
    (∀ d k, skels s !! d = Some k → kref k = pubs s d ∧ 0 < kref k) ∧
    (∀ d, Some d ∈ files s ∨ intfdata s = Some d → is_Some (skels s !! d)) ∧
    urb_live s = lenZ (in_flight s) ∧ dma_live s = lenZ (in_flight s) ∧
    (intfdata s = None → files s = [] → other_files s = [] →
      skels s = ∅ ∧ live s = 0 ∧ udev_refs s = 0).
Proof. apply (skel_refcounts skel_kernel skel_kernel_ok). Defined.

(** A probe binds the interface to a new structure that describes the
    first bulk endpoint of each direction, with a buffer of the packet size of
    the first; or it leaves everything as it was and answers an error, which is
    that of the registration, or ENOMEM, and then an endpoint is missing or
    there was no memory. It always answers. *)
Theorem skel_probe_spec C l s o :
  Forall endpoint_ok l → intfdata s = None → ¬ c_sleep C → obeys o C →
  ∃ r s', run o (skel_probe l) s = Done (r, s') ∧ probed C l s r s'.
Proof.
  intros Hl Hi Hsl Ho. eapply wp_total; [by apply wp_skel_probe|done..].
Qed.

(** An interface with an interrupt endpoint and two bulk endpoints each way. *)
Definition sample_endpoints : list endpoint :=
  [Endpoint 129 3 8; Endpoint 2 2 64; Endpoint 131 2 512; Endpoint 4 2 32; Endpoint 133 2 16].

Lemma skel_probe_spec_witness :
  ∃ r s', run quiet_oracle (skel_probe sample_endpoints) skel_init = Done (r, s') ∧
    probed (quiet usb_world) sample_endpoints skel_init r s'.
Proof.
  apply (skel_probe_spec (quiet usb_world) sample_endpoints skel_init quiet_oracle).
  - unfold sample_endpoints, endpoint_ok. repeat constructor; cbn; lia.
  - reflexivity.
  - intros [].
  - apply quiet_obeys.
Defined.

Lemma sample_found : found sample_endpoints = Some (skel_of (Endpoint 131 2 512) (Endpoint 2 2 64)).
Proof. vm_compute. reflexivity. Qed.

(** Undisturbed, a read whose transfer succeeds hands over the bytes the device
    sent: [n] of them, at most the packet size and [count]. *)
Lemma skel_read_sent s d k count o :
  idle s → Some d ∈ files s → skels s !! d = Some k → 0 <= count <= INT_MAX →
  obeys o (quiet usb_world) → ans o (kint "usb_bulk_msg") 1 = 0 →
  let n := ans o (actual_length (Z.min (bulk_in_size k) count)) 2 in
  let sent := junk o 3 <$> seq 0 (Z.to_nat n) in
  0 <= n <= Z.min (bulk_in_size k) count ∧
  ∃ s', run o (skel_read (Some d) count) s = Done ((n, Some <$> sent), s').
Proof.
  intros Hs Hd Hk Hc [Hans Hrely] Hbulk n sent.
  destruct (pub_skel _ _ _ _ d Hs) as (k' & Hk' & Hsz & buf & Hbuf & Hl); [by apply open_pubs|].
  simplify_eq. assert (0 <= n <= Z.min (bulk_in_size k) count) as Hn.
  { destruct (Hans (actual_length (Z.min (bulk_in_size k) count)) 2%nat) as [H _]. cbn in H.
    unfold n. lia. }
  split; [done|]. assert (length sent = Z.to_nat n) as Hsent.
  { unfold sent. by rewrite length_fmap, length_seq. }
  assert (others o 0%nat s = s) as Ho by (symmetry; apply Hrely).
  unfold run, skel_read, usb_bulk_msg, get_skel, gets, deref, mbind, K_bind, get, mret, K_ret. cbn.
  rewrite Hk. cbn. unfold INT_MAX in Hc. rewrite s32_small by lia. rewrite Ho, Hbulk. cbn.
  fold n. rewrite Hk. cbn. fold sent. rewrite Hbuf. rewrite (proj2 (Z.ltb_ge _ _)) by lia. cbn.
  rewrite lookup_alter_eq, Hk. cbn. unfold store_int.
  rewrite (Z.mod_small count), u32_small by lia.
  replace (count - count + n) with n by lia. rewrite length_store.
  rewrite (proj2 (Z.ltb_ge _ _)) by lia. unfold copy_to_user, call, mbind, K_bind. cbn.
  assert (slice 0 n (store 0 (Some <$> sent) buf) = Some <$> sent) as Hsl.
  { replace n with (lenZ (Some <$> sent)) by (rewrite length_fmap; lia).
    apply slice_store; [done|]. rewrite length_fmap. lia. }
  rewrite Hsl. destruct (Hans (copy_user (lenZ (Some <$> sent))) 4%nat) as [_ Hz]. cbn in Hz.
  rewrite Hz. cbn. rewrite s32_small by lia. rewrite Nat.sub_0_r, take_ge by done. by eexists.
Qed.

(** ** Errors of the code *)

(** An open file on a bound interface. *)
Definition opened_once : usb_world :=
  World {[0%nat := UsbSkel 2 (Some (uninit 64)) 64 129 2]} (Some 0%nat) true [Some 0%nat] [] [] 0 0 1 2.

Definition failing_service (what : string) : oracle usb_world :=
  Oracle (λ c t, match c with kint n => if decide (n = what) then -1 else 1 | _ => quiet_ans c t end)
    (λ _ _, 0) (λ _ s, s).

(** Without a URB the error path reads a field of the NULL pointer. *)
Lemma skel_write_null_urb :
  run quiet_oracle (skel_write (Some 0%nat) [1; 2]) opened_once = Oops NullDeref.
Proof. vm_compute. reflexivity. Qed.

(** When the user's buffer faults or the URB is refused, the transfer buffer is
    given back to the USB core and then [kfree]d. *)
Lemma skel_write_double_free :
  run (failing_service "copy_from_user") (skel_write (Some 0%nat) [1; 2]) opened_once =
    Oops DoubleFree.
Proof. vm_compute. reflexivity. Qed.

(** A read of 2^32 bytes: only the lower half of [count] is replaced by the
    length of the transfer, and the copy runs out of the buffer. *)
Lemma skel_read_wide_count :
  run quiet_oracle (skel_read (Some 0%nat) (2 ^ 32)) opened_once = Oops OutOfBounds.
Proof. vm_compute. reflexivity. Qed.
