(* ===== verification/Sbull.v ===== *)
(** * sbull: the sample block driver (src/ldd4/sbull/sbull.c)

    A RAM disk with three request functions, a simulated media change driven by
    a timer, and a set-up that can fail half way. The block layer is not under
    [src/]: the requests it hands out are a list, one entry for each time
    [elv_next_request] answers, and what it is told about them is a list too. *)

From stdpp Require Import base tactics numbers list strings.
From S2P Require Import Prelude Ring KMonad.
From Stdlib Require Import ZArith Lia.

Open Scope Z_scope.

(** ** Data *)

Definition KERNEL_SECTOR_SIZE : Z := 512.
Definition SBULL_MINORS : Z := 16.
Definition RM_SIMPLE : Z := 0.
Definition RM_FULL : Z := 1.
Definition RM_NOQUEUE : Z := 2.

(** What [dev->data] points to. *)
Inductive vmem := VNull | VLive (d : list cell) | VFreed.
Definition is_null (p : vmem) : bool := match p with VNull => true | _ => false end.

Record sbull_dev := SbullDev {
  size : Z;
  data : vmem;
  users : Z;                (* short *)
  media_change : Z;         (* short *)
  slock : bool;             (* dev->lock, held by the running task *)
  queue : bool;             (* dev->queue is not NULL *)
  gd : bool;                (* dev->gd is not NULL *)
  timer : option Z          (* the pending timer: when it expires *)
}.

Definition set_data (d : vmem) (s : sbull_dev) : sbull_dev :=
  SbullDev (size s) d (users s) (media_change s) (slock s) (queue s) (gd s) (timer s).
Definition set_users (n : Z) (s : sbull_dev) : sbull_dev :=
  SbullDev (size s) (data s) n (media_change s) (slock s) (queue s) (gd s) (timer s).
Definition set_media_change (n : Z) (s : sbull_dev) : sbull_dev :=
  SbullDev (size s) (data s) (users s) n (slock s) (queue s) (gd s) (timer s).
Definition set_slock (b : bool) (s : sbull_dev) : sbull_dev :=
  SbullDev (size s) (data s) (users s) (media_change s) b (queue s) (gd s) (timer s).
Definition set_queue (b : bool) (s : sbull_dev) : sbull_dev :=
  SbullDev (size s) (data s) (users s) (media_change s) (slock s) b (gd s) (timer s).
Definition set_gd (b : bool) (s : sbull_dev) : sbull_dev :=
  SbullDev (size s) (data s) (users s) (media_change s) (slock s) (queue s) b (timer s).
Definition set_timer (t : option Z) (s : sbull_dev) : sbull_dev :=
  SbullDev (size s) (data s) (users s) (media_change s) (slock s) (queue s) (gd s) t.

#[export] Instance sbull_lock : HasLock sbull_dev :=
  { lock_of := slock; set_lock := set_slock; lock_set b s := eq_refl }.

(** ** Transfers *)

(** [memcpy] between the disk and a buffer: both ends must be inside their
    blocks. The result is the disk and the buffer after the copy. *)
Definition copy_sectors (disk buffer : list cell) (offset nbytes : Z) (write : bool) :
    outcome (list cell * list cell) :=
  if bool_decide (0 <= offset ∧ offset + nbytes <= lenZ disk ∧ nbytes <= lenZ buffer) then
    Done (if write then (store offset (slice 0 nbytes buffer) disk, buffer)
          else (disk, store 0 (slice offset nbytes disk) buffer))
  else Oops OutOfBounds.

(** The device and the buffer after the transfer. *)
Definition sbull_transfer (dev : sbull_dev) (sector nsect : Z) (buffer : list cell)
    (write : bool) : outcome (sbull_dev * list cell) :=
  let offset := u64 (sector * KERNEL_SECTOR_SIZE) in
  let nbytes := u64 (nsect * KERNEL_SECTOR_SIZE) in
  if u64 (offset + nbytes) >? u64 (size dev) then Done (dev, buffer)
  else match data dev with
  | VNull => Oops NullDeref
  | VFreed => Oops UseAfterFree
  | VLive disk =>
      '(disk, buffer) ← copy_sectors disk buffer offset nbytes write;
      mret (set_data (VLive disk) dev, buffer)
  end.

(** A request of the simple request function: the current segment. *)
Record request := Request {
  blk_fs_request : bool;
  rq_sector : Z;
  current_nr_sectors : Z;
  rq_buffer : list cell;
  rq_data_dir : bool             (* write *)
}.

(** What the block layer is told: the buffer and the [uptodate] flag of
    [end_request]. *)
Definition completion : Type := list cell * bool.

Fixpoint sbull_request (dev : sbull_dev) (q : list request) :
    outcome (sbull_dev * list completion) :=
  match q with
  | [] => Done (dev, [])
  | req :: q =>
      if negb (blk_fs_request req) then
        '(dev, r) ← sbull_request dev q;
        mret (dev, (rq_buffer req, false) :: r)
      else
        '(dev, buffer) ← sbull_transfer dev (rq_sector req) (current_nr_sectors req)
                           (rq_buffer req) (rq_data_dir req);
        '(dev, r) ← sbull_request dev q;
        mret (dev, (buffer, true) :: r)
  end.

(** A bio: its segments; [bio_cur_sectors], the length of the current segment,
    does not move while [bio_for_each_segment] runs. *)
Record bio := Bio {
  bi_sector : Z;
  bi_size : Z;
  bio_data_dir : bool;           (* WRITE *)
  bio_cur_sectors : Z;
  bi_io_vec : list (list cell)
}.

Definition with_segments (b : bio) (l : list (list cell)) : bio :=
  Bio (bi_sector b) (bi_size b) (bio_data_dir b) (bio_cur_sectors b) l.

(** [bio_for_each_segment]: [sector] is [sector_t], an unsigned long. *)
Fixpoint xfer_segments (dev : sbull_dev) (sector cur : Z) (write : bool)
    (segs : list (list cell)) : outcome (sbull_dev * list (list cell)) :=
  match segs with
  | [] => Done (dev, [])
  | buffer :: segs =>
      '(dev, buffer) ← sbull_transfer dev sector cur buffer write;
      '(dev, segs) ← xfer_segments dev (u64 (sector + cur)) cur write segs;
      mret (dev, buffer :: segs)
  end.

(** The value of the call, always 0, the device and the bio. *)
Definition sbull_xfer_bio (dev : sbull_dev) (b : bio) : outcome (Z * sbull_dev * bio) :=
  '(dev, segs) ← xfer_segments dev (bi_sector b) (bio_cur_sectors b) (bio_data_dir b) (bi_io_vec b);
  mret (0, dev, with_segments b segs).

(** [rq_for_each_bio]: the number of sectors transferred. *)
Fixpoint xfer_bios (dev : sbull_dev) (nsect : Z) (l : list bio) :
    outcome (Z * sbull_dev * list bio) :=
  match l with
  | [] => Done (nsect, dev, [])
  | b :: l =>
      '(_, dev, b') ← sbull_xfer_bio dev b;
      '(n, dev, l) ← xfer_bios dev (s32 (nsect + bi_size b / KERNEL_SECTOR_SIZE)) l;
      mret (n, dev, b' :: l)
  end.
Definition sbull_xfer_request (dev : sbull_dev) (l : list bio) : outcome (Z * sbull_dev * list bio) :=
  xfer_bios dev 0 l.

(** A request of the full request function: its bios. *)
Record full_request := FullRequest { full_fs : bool; full_bios : list bio }.

(** What the block layer is told about a full request. *)
Inductive full_event :=
| Skipped                                   (* end_request(req, 0) *)
| Partial (n : Z) (l : list bio)            (* end_that_request_first said: more *)
| Finished (n : Z) (l : list bio).          (* dequeued and ended *)

(** [end_that_request_first(req, 1, n)]: whether buffers are still pending. *)
Section full_request.
Context (end_that_request_first : full_request → Z → bool).

Fixpoint sbull_full_request (dev : sbull_dev) (q : list full_request) :
    outcome (sbull_dev * list full_event) :=
  match q with
  | [] => Done (dev, [])
  | req :: q =>
      if negb (full_fs req) then
        '(dev, r) ← sbull_full_request dev q;
        mret (dev, Skipped :: r)
      else
        '(sectors_xferred, dev, l) ← sbull_xfer_request dev (full_bios req);
        '(dev, r) ← sbull_full_request dev q;
        mret (dev, (if end_that_request_first req sectors_xferred then Partial sectors_xferred l
                    else Finished sectors_xferred l) :: r)
  end.
End full_request.

(** The value of the call, and the bytes and status [bio_endio] is told. *)
Definition sbull_make_request (dev : sbull_dev) (b : bio) :
    outcome (Z * sbull_dev * bio * (Z * Z)) :=
  '(status, dev, b') ← sbull_xfer_bio dev b;
  mret (0, dev, b', (bi_size b, status)).

(** ** Open, release and the simulated media change *)

Definition add_timer (expires : Z) : K sbull_dev unit :=
  s ← get;
  match timer s with
  | Some _ => oops BugOn                       (* BUG_ON(timer_pending(timer)) *)
  | None => put (set_timer (Some expires) s)
  end.

Definition sbull_media_changed : K sbull_dev Z := gets media_change.

(** [memset(dev->data, 0, dev->size)]. *)
Definition clear_data : K sbull_dev unit :=
  s ← get;
  match data s with
  | VNull => oops NullDeref
  | VFreed => oops UseAfterFree
  | VLive disk =>
      if bool_decide (size s <= lenZ disk)
      then put (set_data (VLive (store 0 (zeroed (size s)) disk)) s)
      else oops OutOfBounds
  end.

Definition sbull_revalidate : K sbull_dev Z :=
  mc ← gets media_change;
  (if c_bool mc then modify (set_media_change 0);; clear_data else mret tt);;
  mret 0.

Section open.
(** [check_disk_change(bdev)], which calls back [sbull_media_changed] and
    [sbull_revalidate]; and the kernel's clock rate. *)
Context (check_disk_change : K sbull_dev Z) (HZ : Z).

Definition sbull_open : K sbull_dev Z :=
  modify (set_timer None);;                      (* del_timer_sync *)
  lock;;
  n ← gets users;
  (if negb (c_bool n) then check_disk_change else mret 0);;
  modify (λ s, set_users (s16 (users s + 1)) s);;
  unlock;;
  mret 0.

Definition INVALIDATE_DELAY : Z := 30 * HZ.

Definition sbull_release (jiffies : Z) : K sbull_dev Z :=
  lock;;
  modify (λ s, set_users (s16 (users s - 1)) s);;
  n ← gets users;
  (if negb (c_bool n) then add_timer (u64 (jiffies + INVALIDATE_DELAY)) else mret tt);;
  unlock;;
  mret 0.
End open.

(** The timer has expired, so it is no longer pending; then its function runs. *)
Definition sbull_invalidate : K sbull_dev unit :=
  modify (set_timer None);;
  lock;;
  s ← get;
  (if c_bool (users s) || is_null (data s) then mret tt
   else modify (set_media_change 1));;
  unlock.

(** ** Ioctl *)

Definition HDIO_GETGEO : Z := 769.

(** [struct hd_geometry]: unsigned char, unsigned char, unsigned short. *)
Record hd_geometry := HdGeometry { heads : Z; sectors : Z; cylinders : Z; start : Z }.

Definition sbull_ioctl (hardsect_size cmd : Z) : K sbull_dev (Z * option hd_geometry) :=
  if cmd =? HDIO_GETGEO then
    n ← gets size;
    let size := s32 (n * (Z.quot hardsect_size KERNEL_SECTOR_SIZE)) in
    let geo := HdGeometry (u8 4) (u8 16) (u16 (Z.shiftr (Z.land size (Z.lnot 63)) 6)) 4 in
    left ← call (copy_user 16);
    if negb (left =? 0) then mret (- EFAULT, None) else mret (0, Some geo)
  else mret (- ENOTTY, None).

(** ** Set-up and exit *)

Section setup.
Context (nsectors hardsect_size request_mode : Z).

(** [vfree(dev->data)]: the pointer itself keeps its value. *)
Definition vfree_data : K sbull_dev unit :=
  s ← get;
  match data s with
  | VNull => mret tt
  | VLive _ => put (set_data VFreed s)
  | VFreed => oops DoubleFree
  end.

(** [out_vfree: if (dev->data) vfree(dev->data);] *)
Definition out_vfree : K sbull_dev unit := vfree_data.

(** [blk_alloc_queue] or [blk_init_queue]. *)
Definition make_queue (service : string) : K sbull_dev bool :=
  q ← call (kint service);
  if q =? 0 then mret false else modify (set_queue true);; mret true.

Definition setup_device : K sbull_dev unit :=
  let n := s32 (nsectors * hardsect_size) in
  put (SbullDev n VNull 0 0 false false false None);;
  p ← call (kmalloc n);
  if p =? 0 then mret tt else
  modify (set_data (VLive (uninit n)));;
  ok ← (if request_mode =? RM_NOQUEUE then make_queue "blk_alloc_queue"
        else make_queue "blk_init_queue");
  if negb ok then out_vfree else
  d ← call (kint "alloc_disk");
  if d =? 0 then out_vfree else
  modify (set_gd true).

(** One round of the loop of [sbull_exit]. *)
Definition exit_device : K sbull_dev unit :=
  modify (set_timer None);;
  modify (set_gd false);;
  modify (set_queue false);;
  vfree_data.
End setup.

(** * Transfers stay inside the disk *)

Record wf (s : sbull_dev) (disk : list cell) : Prop := {
  wf_data : data s = VLive disk;
  wf_size : size s = lenZ disk;
  wf_int : size s <= INT_MAX
}.

(** The sector range of a transfer, when it neither wraps nor leaves the disk. *)
Definition in_range (s : sbull_dev) (sector nsect : Z) : Prop :=
  0 <= sector ∧ 0 <= nsect ∧ (sector + nsect) * KERNEL_SECTOR_SIZE <= size s.

Lemma sbull_transfer_in s disk sector nsect buffer write :
  wf s disk → in_range s sector nsect → nsect * KERNEL_SECTOR_SIZE <= lenZ buffer →
  sbull_transfer s sector nsect buffer write = Done (
    let offset := sector * KERNEL_SECTOR_SIZE in
    let nbytes := nsect * KERNEL_SECTOR_SIZE in
    if write then (set_data (VLive (store offset (slice 0 nbytes buffer) disk)) s, buffer)
    else (s, store 0 (slice offset nbytes disk) buffer)).
Proof.
  intros [Hd Hs Hi] (H1 & H2 & H3) Hb. unfold KERNEL_SECTOR_SIZE, INT_MAX in *.
  unfold sbull_transfer, copy_sectors, KERNEL_SECTOR_SIZE.
  rewrite !u64_small by (rewrite ?u64_small by lia; lia).
  destruct (_ >? _) eqn:E; zbool; [lia|]. rewrite Hd, bool_decide_true by lia.
  destruct write; cbn; [done|]. do 2 f_equal. destruct s; cbn in *. by subst.
Qed.

(** A range that does not wrap and leaves the disk is skipped. *)
Lemma sbull_transfer_out s disk sector nsect buffer write :
  wf s disk → 0 <= sector → 0 <= nsect → sector + nsect < 2 ^ 55 →
  size s < (sector + nsect) * KERNEL_SECTOR_SIZE →
  sbull_transfer s sector nsect buffer write = Done (s, buffer).
Proof.
  intros [Hd Hs Hi] H1 H2 H3 H4. unfold KERNEL_SECTOR_SIZE, INT_MAX in *.
  unfold sbull_transfer, KERNEL_SECTOR_SIZE.
  rewrite !u64_small by (rewrite ?u64_small by lia; lia).
  destruct (_ >? _) eqn:E; zbool; [done|lia].
Qed.

Lemma set_data_wf s disk disk' :
  wf s disk → length disk' = length disk → wf (set_data (VLive disk') s) disk'.
Proof. intros [? ? ?] ?. split; [done|cbn; congruence|done]. Qed.

(** A transfer whose sector range does not reach [2 ^ 55] never leaves the
    disk or the buffer. Inside the disk it copies exactly the sectors asked
    for, one way or the other, and no other byte; a range that leaves the disk
    is skipped whole. *)
Theorem sbull_transfer_spec s disk sector nsect buffer write :
  wf s disk → 0 <= sector → 0 <= nsect → sector + nsect < 2 ^ 55 →
  nsect * KERNEL_SECTOR_SIZE <= lenZ buffer →
  ∃ s' disk' buffer', sbull_transfer s sector nsect buffer write = Done (s', buffer') ∧
    wf s' disk' ∧ length disk' = length disk ∧ length buffer' = length buffer ∧
    let off := Z.to_nat (sector * KERNEL_SECTOR_SIZE) in
    let n := Z.to_nat (nsect * KERNEL_SECTOR_SIZE) in
    let moved (k : nat) := bool_decide ((sector + nsect) * KERNEL_SECTOR_SIZE <= size s ∧ (k < n)%nat) in
    (∀ k, disk' !! (off + k)%nat = if moved k && write then buffer !! k else disk !! (off + k)%nat) ∧
    (∀ k, (k < off)%nat → disk' !! k = disk !! k) ∧
    (∀ k, buffer' !! k = if moved k && negb write then disk !! (off + k)%nat else buffer !! k).
Proof.
  intros Hwf H1 H2 H3 Hb. pose proof (wf_size _ _ Hwf) as Hs. unfold KERNEL_SECTOR_SIZE in *.
  destruct (decide ((sector + nsect) * 512 <= size s)) as [Hin|Hout].
  - rewrite (sbull_transfer_in s disk) by (done || by split_and!).
    unfold KERNEL_SECTOR_SIZE; cbv zeta.
    assert (lenZ (slice 0 (nsect * 512) buffer) = nsect * 512) by (apply length_slice; lia).
    assert (lenZ (slice (sector * 512) (nsect * 512) disk) = nsect * 512)
      by (apply length_slice; lia).
    destruct write; do 3 eexists; (split; [done|]).
    + split; [eapply set_data_wf; [done|apply length_store]|]. rewrite length_store.
      split_and!; try done.
      * intros k. case_bool_decide; cbn.
        -- rewrite lookup_store_in, lookup_slice by lia. f_equal. lia.
        -- rewrite lookup_store_out by lia. done.
      * intros k ?. apply lookup_store_out; lia.
      * intros k. by case_bool_decide.
    + split; [exact Hwf|]. rewrite length_store. split_and!; try done.
      * intros k. by case_bool_decide.
      * intros k. case_bool_decide; cbn.
        -- rewrite lookup_store_in, lookup_slice by lia. f_equal. lia.
        -- rewrite lookup_store_out by lia. done.
  - rewrite (sbull_transfer_out s disk) by (done || unfold KERNEL_SECTOR_SIZE; lia).
    exists s, disk, buffer. split_and!; try done; intros k; rewrite bool_decide_false by lia; done.
Qed.

(** A disk of one sector, for the examples. *)
Definition small_dev (disk : list cell) : sbull_dev :=
  SbullDev (lenZ disk) (VLive disk) 0 0 false true true None.
Definition small_disk : list cell := replicate 512 (Some 7).

Lemma small_wf disk : lenZ disk <= INT_MAX → wf (small_dev disk) disk.
Proof. by intros. Qed.

Lemma sbull_transfer_spec_witness :
  ∃ s' disk' buffer', sbull_transfer (small_dev small_disk) 0 1 small_disk true = Done (s', buffer') ∧
    wf s' disk' ∧ length disk' = 512%nat ∧ length buffer' = 512%nat ∧
    let off := Z.to_nat (0 * KERNEL_SECTOR_SIZE) in
    let n := Z.to_nat (1 * KERNEL_SECTOR_SIZE) in
    let moved (k : nat) := bool_decide ((0 + 1) * KERNEL_SECTOR_SIZE <= 512 ∧ (k < n)%nat) in
    (∀ k, disk' !! (off + k)%nat = if moved k && true then small_disk !! k else small_disk !! (off + k)%nat) ∧
    (∀ k, (k < off)%nat → disk' !! k = small_disk !! k) ∧
    (∀ k, buffer' !! k = if moved k && negb true then small_disk !! (off + k)%nat else small_disk !! k).
Proof.
  exact (sbull_transfer_spec (small_dev small_disk) small_disk 0 1 small_disk true
    (small_wf small_disk ltac:(done)) ltac:(done) ltac:(done) ltac:(done) ltac:(done)).
Defined.

(** ** Requests *)

(** What the block layer promises of a request: a sector number and a count
    that fit, and a buffer that holds them. *)
Definition good_request (r : request) : Prop :=
  0 <= rq_sector r ∧ 0 <= current_nr_sectors r ∧
  rq_sector r + current_nr_sectors r < 2 ^ 55 ∧
  current_nr_sectors r * KERNEL_SECTOR_SIZE <= lenZ (rq_buffer r).

(** The reference: the disk as a list of cells that requests read and write in
    place, one after the other. *)
Definition serve (disk : list cell) (r : request) : list cell * completion :=
  let off := rq_sector r * KERNEL_SECTOR_SIZE in
  let n := current_nr_sectors r * KERNEL_SECTOR_SIZE in
  if negb (blk_fs_request r) then (disk, (rq_buffer r, false))
  else if lenZ disk <? off + n then (disk, (rq_buffer r, true))
  else if rq_data_dir r then (store off (slice 0 n (rq_buffer r)) disk, (rq_buffer r, true))
  else (disk, (store 0 (slice off n disk) (rq_buffer r), true)).

Fixpoint serve_all (disk : list cell) (q : list request) : list cell * list completion :=
  match q with
  | [] => (disk, [])
  | r :: q => let '(disk, c) := serve disk r in
              let '(disk, cs) := serve_all disk q in (disk, c :: cs)
  end.

Lemma length_serve disk r : length (fst (serve disk r)) = length disk.
Proof. unfold serve. repeat case_match; cbn; by rewrite ?length_store. Qed.

Lemma set_data_twice d d' s : set_data d (set_data d' s) = set_data d s.
Proof. done. Qed.

Lemma sbull_transfer_serve s disk r :
  wf s disk → good_request r → blk_fs_request r = true →
  sbull_transfer s (rq_sector r) (current_nr_sectors r) (rq_buffer r) (rq_data_dir r)
    = Done (set_data (VLive (fst (serve disk r))) s, fst (snd (serve disk r))) ∧
  snd (snd (serve disk r)) = true.
Proof.
  intros Hwf (H1 & H2 & H3 & H4) Hfs. unfold serve. rewrite Hfs; cbn [negb].
  assert (set_data (VLive disk) s = s) as Hid.
  { destruct Hwf as [Hd _ _]. destruct s; cbn in *. by rewrite Hd. }
  pose proof (wf_size _ _ Hwf) as Hs. destruct (_ <? _) eqn:E; zbool; cbn.
  - rewrite (sbull_transfer_out s disk), Hid by (done || unfold KERNEL_SECTOR_SIZE in *; lia). done.
  - rewrite (sbull_transfer_in s disk) by (done || split_and!; unfold KERNEL_SECTOR_SIZE in *; lia).
    cbv zeta. destruct (rq_data_dir r); cbn; [done|]. by rewrite Hid.
Qed.

(** C37: on any queue of well-formed requests the simple request function ends
    and never faults; it serves the requests in order, exactly as a disk read
    and written in place would, and ends each one once: a request that is not a
    file system request with failure, and every other with success, even when the
    transfer was skipped because it leaves the disk. *)
Theorem sbull_request_serves s disk q :
  wf s disk → Forall good_request q →
  sbull_request s q =
    Done (set_data (VLive (fst (serve_all disk q))) s, snd (serve_all disk q)) ∧
  (λ c : completion, snd c) <$> snd (serve_all disk q) = blk_fs_request <$> q.
Proof.
  intros Hwf Hq. revert s disk Hwf. induction Hq as [|r q Hr Hq IH]; intros s disk Hwf.
  - split; [|done]. cbn. destruct Hwf as [Hd _ _]. do 2 f_equal. destruct s; cbn in *. by rewrite Hd.
  - cbn [sbull_request serve_all].
    assert (wf (set_data (VLive (fst (serve disk r))) s) (fst (serve disk r))) as Hwf'.
    { eapply set_data_wf; [done|apply length_serve]. }
    destruct (blk_fs_request r) eqn:Hfs; cbn [negb].
    + destruct (sbull_transfer_serve s disk r Hwf Hr Hfs) as [-> Hok].
      destruct (serve disk r) as [disk1 [buf ok]] eqn:Es. cbn in *. subst ok.
      destruct (IH _ _ Hwf') as [-> Hfl]. destruct (serve_all disk1 q) as [disk2 cs]. cbn in *.
      split; [done|]. by rewrite Hfs, Hfl.
    + assert (serve disk r = (disk, (rq_buffer r, false))) as Es by (unfold serve; by rewrite Hfs).
      destruct (IH _ _ Hwf) as [-> Hfl]. rewrite Es. destruct (serve_all disk q) as [disk2 cs].
      cbn in *. split; [done|]. by rewrite Hfs, Hfl.
Qed.

Lemma sbull_request_serves_witness :
  let q := [Request true 0 1 small_disk true; Request false 0 1 small_disk true;
            Request true 5 1 small_disk true] in
  sbull_request (small_dev small_disk) q =
    Done (set_data (VLive (fst (serve_all small_disk q))) (small_dev small_disk),
          snd (serve_all small_disk q)) ∧
  (λ c : completion, snd c) <$> snd (serve_all small_disk q) = blk_fs_request <$> q.
Proof.
  intros q. apply (sbull_request_serves (small_dev small_disk) small_disk q).
  - by apply small_wf.
  - repeat apply Forall_cons_2; [by vm_compute..|apply Forall_nil_2].
Defined.

(** ** Bios *)

(** The segments of a bio as the driver expects them: all as long as the
    current one. *)
Definition uniform (cur : Z) (segs : list (list cell)) : Prop :=
  Forall (λ seg, lenZ seg = cur * KERNEL_SECTOR_SIZE) segs.

Lemma length_uniform cur segs :
  uniform cur segs → lenZ (mjoin segs) = cur * KERNEL_SECTOR_SIZE * lenZ segs.
Proof.
  induction 1 as [|seg segs Hs _ IH]; [simpl; lia|].
  change (mjoin (seg :: segs)) with (seg ++ mjoin segs). rewrite length_app. simpl length. lia.
Qed.

Lemma xfer_segments_write s disk sector cur segs :
  wf s disk → uniform cur segs → 0 <= cur → in_range s sector (cur * lenZ segs) →
  xfer_segments s sector cur true segs =
    Done (set_data (VLive (store (sector * KERNEL_SECTOR_SIZE) (mjoin segs) disk)) s, segs).
Proof.
  intros Hwf Hu Hc. revert s disk sector Hwf. unfold in_range, uniform, KERNEL_SECTOR_SIZE in *.
  induction Hu as [|seg segs Hseg Hu IH]; intros s disk sector Hwf (H1 & H2 & H3).
  { cbn. destruct Hwf as [Hd _ _]. destruct s; cbn in *. by rewrite Hd. }
  cbn [length] in *. pose proof (wf_size _ _ Hwf). pose proof (wf_int _ _ Hwf). unfold INT_MAX in *.
  cbn [xfer_segments]. rewrite (sbull_transfer_in s disk)
    by (done || unfold in_range, KERNEL_SECTOR_SIZE; lia).
  cbv zeta. unfold KERNEL_SECTOR_SIZE. rewrite <-Hseg, slice_all. cbn [mbind outcome_bind].
  rewrite u64_small by lia. erewrite IH; [|eapply set_data_wf; [done|apply length_store]|cbn; lia].
  cbn. rewrite set_data_twice. do 4 f_equal.
  match goal with |- ?x = _ => change (x = store (sector * 512) (seg ++ mjoin segs) disk) end.
  rewrite store_app by lia. f_equal; lia.
Qed.

Lemma xfer_segments_read s disk sector cur segs :
  wf s disk → uniform cur segs → 0 <= cur → in_range s sector (cur * lenZ segs) →
  ∃ segs', xfer_segments s sector cur false segs = Done (s, segs') ∧ length segs' = length segs ∧
    mjoin segs' = slice (sector * KERNEL_SECTOR_SIZE) (cur * lenZ segs * KERNEL_SECTOR_SIZE) disk.
Proof.
  intros Hwf Hu Hc. revert sector. unfold in_range, uniform, KERNEL_SECTOR_SIZE in *.
  pose proof (wf_size _ _ Hwf). pose proof (wf_int _ _ Hwf). unfold INT_MAX in *.
  induction Hu as [|seg segs Hseg Hu IH]; intros sector (H1 & H2 & H3).
  { exists []. split_and!; [done|done|]. by rewrite Z.mul_0_r. }
  cbn [length] in *. cbn [xfer_segments].
  rewrite (sbull_transfer_in s disk) by (done || unfold in_range, KERNEL_SECTOR_SIZE; lia).
  cbv zeta. cbn [mbind outcome_bind]. unfold KERNEL_SECTOR_SIZE. rewrite u64_small by lia.
  destruct (IH (sector + cur)) as (segs' & -> & Hl & Hj); [lia|]. cbn.
  assert (lenZ (slice (sector * 512) (cur * 512) disk) = cur * 512) by (apply length_slice; lia).
  rewrite store_full by lia. eexists. split_and!; [done|cbn; lia|].
  match goal with |- mjoin (?a :: ?b) = _ => change (mjoin (a :: b)) with (a ++ mjoin b) end.
  rewrite Hj. replace ((sector + cur) * 512) with (sector * 512 + cur * 512) by lia.
  rewrite <-slice_app by lia. f_equal. lia.
Qed.

(** A bio whose segments are all as long as the current one is one transfer
    of consecutive sectors: a write stores the concatenation of its segments at
    its sector, a read fills them with the consecutive sectors from there; the
    status is 0. *)
Theorem sbull_xfer_bio_contiguous s disk b :
  wf s disk → uniform (bio_cur_sectors b) (bi_io_vec b) → 0 <= bio_cur_sectors b →
  in_range s (bi_sector b) (bio_cur_sectors b * lenZ (bi_io_vec b)) →
  ∃ s' b', sbull_xfer_bio s b = Done (0, s', b') ∧
    let off := bi_sector b * KERNEL_SECTOR_SIZE in
    let n := bio_cur_sectors b * lenZ (bi_io_vec b) * KERNEL_SECTOR_SIZE in
    if bio_data_dir b then
      s' = set_data (VLive (store off (mjoin (bi_io_vec b)) disk)) s ∧ b' = b
    else s' = s ∧ mjoin (bi_io_vec b') = slice off n disk.
Proof.
  intros Hwf Hu Hc Hr. unfold sbull_xfer_bio. destruct (bio_data_dir b) eqn:Hdir.
  - rewrite (xfer_segments_write s disk) by done. cbn. do 2 eexists. split_and!; [done|done|].
    destruct b; cbn in *. by subst.
  - destruct (xfer_segments_read s disk (bi_sector b) (bio_cur_sectors b) (bi_io_vec b))
      as (segs' & -> & _ & Hj); [done..|].
    cbn. do 2 eexists. split_and!; [done|done|]. cbn. exact Hj.
Qed.

Lemma sbull_xfer_bio_contiguous_witness :
  let disk := replicate 1024 (Some 7) in
  let b := Bio 0 1024 false 1 [small_disk; small_disk] in
  ∃ s' b', sbull_xfer_bio (small_dev disk) b = Done (0, s', b') ∧
    s' = small_dev disk ∧ mjoin (bi_io_vec b') = slice 0 1024 disk.
Proof.
  intros disk b. apply (sbull_xfer_bio_contiguous (small_dev disk) disk b).
  - by apply small_wf.
  - repeat apply Forall_cons_2; [by vm_compute..|apply Forall_nil_2].
  - done.
  - by vm_compute.
Defined.

(** C24: [bio_cur_sectors] is the length of the current segment, and every
    segment is transferred with it: when a later segment is shorter, the copy
    runs over the end of its buffer. *)
Theorem sbull_xfer_bio_overruns disk sector cur long short write :
  lenZ disk <= INT_MAX → 0 < cur → 0 <= sector → (sector + 2 * cur) * KERNEL_SECTOR_SIZE <= lenZ disk →
  lenZ long = cur * KERNEL_SECTOR_SIZE → lenZ short < cur * KERNEL_SECTOR_SIZE →
  sbull_xfer_bio (small_dev disk)
    (Bio sector (lenZ long + lenZ short) write cur [long; short]) = Oops OutOfBounds.
Proof.
  intros Hd Hc Hs Hr Hl Hsh. unfold KERNEL_SECTOR_SIZE, INT_MAX in *.
  unfold sbull_xfer_bio. cbn [bi_sector bio_cur_sectors bio_data_dir bi_io_vec xfer_segments].
  pose proof (small_wf disk Hd) as Hwf.
  rewrite (sbull_transfer_in _ disk) by (done || unfold in_range, KERNEL_SECTOR_SIZE; cbn; lia).
  rewrite u64_small by lia. cbv zeta. cbn [mbind outcome_bind].
  assert (∀ d s' buf, data s' = VLive d → size s' = lenZ disk →
    sbull_transfer s' (sector + cur) cur buf write = Oops OutOfBounds ∨ cur * 512 <= lenZ buf) as Hov.
  { intros d s' buf Hd' Hs'. destruct (decide (cur * 512 <= lenZ buf)); [by right|left].
    unfold sbull_transfer, copy_sectors, KERNEL_SECTOR_SIZE. rewrite Hs'.
    rewrite !u64_small by (rewrite ?u64_small by lia; lia).
    destruct (_ >? _) eqn:E; zbool; [lia|]. by rewrite Hd', bool_decide_false by lia. }
  destruct write; cbn [mbind outcome_bind].
  - edestruct Hov as [->|]; [done|done|done|lia].
  - edestruct Hov as [->|]; [done|done|done|lia].
Qed.

Lemma sbull_xfer_bio_overruns_witness :
  let disk := replicate 1024 (Some 7) in
  sbull_xfer_bio (small_dev disk) (Bio 0 (lenZ small_disk + lenZ [Some 1]) true 1 [small_disk; [Some 1]])
    = Oops OutOfBounds.
Proof.
  intros disk. apply (sbull_xfer_bio_overruns disk 0 1 small_disk [Some 1] true); by vm_compute.
Defined.

(** ** The simulated media change *)

(** What the documentation of [check_disk_change] says it does. *)
Definition check_disk_change_spec (check_disk_change : K sbull_dev Z) : Prop :=
  ∀ C s Q,
    wp C (mc ← sbull_media_changed; if mc =? 0 then mret 0 else sbull_revalidate;; mret 1) Q s →
    wp C check_disk_change Q s.

Inductive media_op := MOpen | MRelease (jiffies : Z) | MTimer.

Section media.
Context (check_disk_change : K sbull_dev Z) (HZ : Z).
Context (Hcheck : check_disk_change_spec check_disk_change).

Definition sbull_ops (op : media_op) : K sbull_dev Z :=
  match op with
  | MOpen => sbull_open check_disk_change
  | MRelease jiffies => sbull_release HZ jiffies
  | MTimer => sbull_invalidate;; mret 0
  end.

(** A release closes a file that is open; the timer fires when it is pending;
    a [short] counts the openings. *)
Definition media_allowed (s : sbull_dev) (op : media_op) : Prop :=
  match op with
  | MOpen => users s < 2 ^ 15 - 1
  | MRelease _ => 0 < users s
  | MTimer => is_Some (timer s)
  end.

(** The timer runs only while nobody has the device open, and a change is
    flagged only after it ran. *)
Record media_inv (s : sbull_dev) : Prop := {
  mi_disk : ∃ disk, wf s disk;
  mi_users : 0 <= users s < 2 ^ 15;
  mi_timer : is_Some (timer s) → users s = 0;
  mi_change : media_change s ≠ 0 → users s = 0;
  mi_lock : slock s = false
}.

(** The contents of the disk as the next user will find them: cleared if a
    change is flagged. *)
Definition next_view (s : sbull_dev) : option (list cell) :=
  match data s with
  | VLive disk => Some (if media_change s =? 0 then disk else zeroed (size s))
  | _ => None
  end.

(** Nobody else opens or closes the disk during a call: the block layer holds
    the disk's own lock around open and release. *)
Definition serialized : contract sbull_dev := Contract doc_ans alone False.

Lemma wp_alone_lock s (Q : unit → sbull_dev → Prop) :
  slock s = false → Q tt (set_slock true s) → wp serialized lock Q s.
Proof. intros Hl HQ. apply wp_lock; intros s' Hr; change (s = s') in Hr; by subst s'. Qed.

Lemma wp_clear_data s disk (Q : unit → sbull_dev → Prop) :
  wf s disk → Q tt (set_data (VLive (zeroed (size s))) s) → wp serialized clear_data Q s.
Proof.
  intros [Hd Hs Hi] HQ. unfold clear_data. wp_step. wp_step. rewrite Hd, bool_decide_true by lia.
  assert (store 0 (zeroed (size s)) disk = zeroed (size s)) as ->; [|by wp_step].
  apply store_full. apply Nat2Z.inj. rewrite length_zeroed; lia.
Qed.

(** What opening the disk for the first user leaves. *)
Definition checked (s : sbull_dev) : sbull_dev :=
  if media_change s =? 0 then s
  else set_data (VLive (zeroed (size s))) (set_media_change 0 s).

Lemma wp_check s disk (Q : Z → sbull_dev → Prop) :
  wf s disk → (∀ r, Q r (checked s)) → wp serialized check_disk_change Q s.
Proof using Hcheck.
  intros Hwf HQ. apply Hcheck. unfold checked in HQ. wp_step. unfold sbull_media_changed.
  wp_step. wp_step; [by wp_step|].
  unfold sbull_revalidate, c_bool. wp_step. wp_step. wp_step.
  rewrite (proj2 (Z.eqb_neq _ _)) by done. cbn [negb].
  do 3 wp_step. apply (wp_clear_data _ disk); [by destruct Hwf|]. wp_step. by wp_step.
Qed.

(** The state an open leaves. *)
Definition opened (s : sbull_dev) : sbull_dev :=
  let s' := set_timer None s in
  let s' := if users s =? 0 then checked s' else s' in
  set_slock false (set_users (s16 (users s' + 1)) s').

Lemma wp_sbull_open s (Q : Z → sbull_dev → Prop) :
  media_inv s → Q 0 (opened s) → wp serialized (sbull_open check_disk_change) Q s.
Proof using Hcheck.
  intros [[disk Hwf] _ _ _ Hl] HQ. unfold sbull_open. wp_step. apply wp_modify.
  wp_step. apply wp_alone_lock; [done|]. wp_step. wp_step. unfold c_bool.
  change (users (set_slock true (set_timer None s))) with (users s). rewrite negb_involutive.
  wp_step. unfold opened in HQ. destruct (users s =? 0) eqn:E.
  - apply (wp_check _ disk); [by destruct Hwf|]. intros r.
    wp_step. apply wp_modify. wp_step.
    unfold checked in *. cbn [media_change set_timer set_slock] in *.
    destruct (media_change s =? 0); (apply wp_unlock; [done|]; by wp_step).
  - wp_step. wp_step. apply wp_modify. wp_step. apply wp_unlock; [done|]. by wp_step.
Qed.

(** The state a release leaves. *)
Definition closed (jiffies : Z) (s : sbull_dev) : sbull_dev :=
  let s' := set_users (s16 (users s - 1)) s in
  if users s' =? 0 then set_timer (Some (u64 (jiffies + 30 * HZ))) s' else s'.

Lemma wp_sbull_release s jiffies (Q : Z → sbull_dev → Prop) :
  media_inv s → 0 < users s → Q 0 (closed jiffies s) → wp serialized (sbull_release HZ jiffies) Q s.
Proof.
  intros [_ Hu Ht _ Hl] Hpos HQ. unfold sbull_release. wp_step. apply wp_alone_lock; [done|].
  wp_step. apply wp_modify. wp_step. wp_step. unfold c_bool. rewrite negb_involutive.
  unfold closed in HQ. change (users (set_users ?n ?x)) with n in *.
  change (users (set_slock true s)) with (users s).
  assert (timer s = None) as Hnone.
  { destruct (timer s) eqn:E; [|done]. exfalso. specialize (Ht ltac:(eauto)). lia. }
  wp_step. destruct (s16 (users s - 1) =? 0); cbn [negb] in *.
  - unfold add_timer. wp_step. wp_step. cbn [timer set_users set_slock]. rewrite Hnone.
    wp_step. wp_step. apply wp_unlock; [done|]. wp_step.
    unfold INVALIDATE_DELAY. destruct s; cbn in *. by subst.
  - wp_step. wp_step. apply wp_unlock; [done|]. wp_step. destruct s; cbn in *. by subst.
Qed.

(** The state the timer leaves. *)
Definition invalidated (s : sbull_dev) : sbull_dev :=
  let s' := set_timer None s in if users s =? 0 then set_media_change 1 s' else s'.

Lemma wp_sbull_invalidate s (Q : unit → sbull_dev → Prop) :
  media_inv s → Q tt (invalidated s) → wp serialized sbull_invalidate Q s.
Proof.
  intros [[disk [Hd _ _]] _ _ _ Hl] HQ. unfold sbull_invalidate. wp_step. apply wp_modify.
  wp_step. apply wp_alone_lock; [done|]. wp_step. wp_step. unfold invalidated, c_bool in *.
  cbn [users data set_slock set_timer]. rewrite Hd. cbn [is_null]. rewrite orb_false_r.
  wp_step. destruct (users s =? 0); cbn [negb].
  - apply wp_modify. apply wp_unlock; [done|]. destruct s; cbn in *. by subst.
  - wp_step. apply wp_unlock; [done|]. destruct s; cbn in *. by subst.
Qed.

Lemma checked_wf s disk : wf s disk → ∃ disk', wf (checked s) disk' ∧ next_view s = Some disk'.
Proof.
  intros [Hd Hs Hi]. unfold checked, next_view. rewrite Hd. case_match; zbool.
  - exists disk. by split.
  - exists (zeroed (size s)). split; [|done]. split; [done| |done].
    cbn. rewrite length_zeroed; lia.
Qed.

Lemma opened_inv s : media_inv s → users s < 2 ^ 15 - 1 → media_inv (opened s).
Proof.
  intros [[disk Hwf] Hu Ht Hc Hl] Hlt. unfold opened.
  assert (wf (set_timer None s) disk) as Hwf' by (by destruct Hwf).
  destruct (users s =? 0) eqn:E; zbool.
  - destruct (checked_wf _ _ Hwf') as (d & [Hd Hs Hi] & _).
    assert (media_change (checked (set_timer None s)) = 0 ∧ timer (checked (set_timer None s)) = None ∧
      users (checked (set_timer None s)) = 0) as (Hc' & Ht' & Hu').
    { unfold checked. case_match; zbool; done. }
    cbv zeta. rewrite Hu'. split; cbn; rewrite ?Ht', ?s16_small; try lia; try done.
    exists d. by split.
  - assert (media_change s = 0) as Hm by (destruct (decide (media_change s = 0)); [done|tauto]).
    split; cbn; rewrite ?s16_small; try lia; try done.
    exists disk. by destruct Hwf.
Qed.

Lemma closed_inv j s : media_inv s → 0 < users s → media_inv (closed j s).
Proof.
  intros [[disk Hwf] Hu Ht Hc Hl] Hpos. unfold closed; cbn. rewrite s16_small by lia.
  assert (timer s = None) as Hn.
  { destruct (timer s) eqn:E; [|done]. specialize (Ht ltac:(eauto)). lia. }
  assert (media_change s = 0) as Hm by (destruct (decide (media_change s = 0)); [done|lia]).
  case_match; zbool; split; cbn; rewrite ?Hn; try done; try lia; try (by intros []);
    exists disk; by destruct Hwf.
Qed.

Lemma invalidated_inv s : media_inv s → media_inv (invalidated s).
Proof.
  intros [[disk Hwf] Hu Ht Hc Hl]. unfold invalidated.
  destruct (users s =? 0) eqn:E; zbool; split; cbn; try done; try (by intros []);
    exists disk; by destruct Hwf.
Qed.

Lemma media_inductive (init : sbull_dev → Prop) :
  (∀ s, init s → media_inv s) →
  inductive_inv sbull_ops media_allowed serialized init media_inv.
Proof using Hcheck.
  intros Hinit. split_and!; [done| |by intros s s' Hs <-].
  intros s [ |j| ] Hs Hop; simpl in *.
  - apply wp_sbull_open; [done|]. by apply opened_inv.
  - apply wp_sbull_release; [done|done|]. by apply closed_inv.
  - wp_step. apply wp_sbull_invalidate; [done|]. wp_step. by apply invalidated_inv.
Qed.

Lemma serialized_total (op : media_op) s s' o :
  (∀ Q : Z → sbull_dev → Prop, Q 0 s' → wp serialized (sbull_ops op) Q s) →
  obeys o serialized → run o (sbull_ops op) s = Done (0, s').
Proof.
  intros H Ho. destruct (wp_total _ _ _ _ _ (H (λ r x, r = 0 ∧ x = s') ltac:(done)) Ho)
    as (? & ? & -> & -> & ->); [by intros []|done].
Qed.
End media.

(** In any sequence of opens, releases and expiries of the timer the block
    layer allows, nothing faults: the timer is never started twice, the medium
    is cleared only in the disk's own memory, and the lock is free after every
    call; a change is flagged, and the timer runs, only while nobody has the
    disk open. The first user of a disk finds what the last one left, or zeros
    when the timer expired in between; no other open touches the data. *)
Theorem sbull_media_change check_disk_change HZ s0 :
  check_disk_change_spec check_disk_change → media_inv s0 →
  faultless (sbull_ops check_disk_change HZ) media_allowed serialized (λ s, s = s0) ∧
  ∀ s o, reachable (sbull_ops check_disk_change HZ) media_allowed serialized (λ s, s = s0) s →
    obeys o serialized →
    media_inv s ∧
    (users s < 2 ^ 15 - 1 → ∃ s', run o (sbull_ops check_disk_change HZ MOpen) s = Done (0, s') ∧
      media_change s' = 0 ∧ timer s' = None ∧ next_view s' = next_view s) ∧
    (∀ j, 0 < users s → ∃ s', run o (sbull_ops check_disk_change HZ (MRelease j)) s = Done (0, s') ∧
      next_view s' = next_view s) ∧
    (is_Some (timer s) → ∃ s', run o (sbull_ops check_disk_change HZ MTimer) s = Done (0, s') ∧
      users s = 0 ∧ next_view s' = Some (zeroed (size s))).
Proof.
  intros Hcheck Hs0. pose proof (media_inductive _ HZ Hcheck (λ s, s = s0)) as Hinv.
  assert (∀ s, s = s0 → media_inv s) as Hinit by (by intros s ->). specialize (Hinv Hinit).
  split; [by eapply inv_faultless|]. intros s o Hs Ho.
  pose proof (reachable_inv _ _ _ _ _ _ Hinv Hs) as Hi. pose proof Hi as [[disk Hwf] Hu Ht Hc _].
  split_and!; [done|..].
  - intros Hlt. exists (opened s). split.
    { apply serialized_total; [|done]. intros Q HQ. by apply wp_sbull_open. }
    unfold opened, checked, next_view. destruct Hwf as [Hd Hsz Hint].
    destruct (users s =? 0) eqn:E; cbn; destruct (media_change s =? 0) eqn:E2; cbn;
      rewrite ?Hd, ?E2; zbool; try done; tauto.
  - intros j Hpos. exists (closed HZ j s). split.
    { apply serialized_total; [|done]. intros Q HQ. by apply wp_sbull_release. }
    unfold closed, next_view. cbn. by destruct (s16 (users s - 1) =? 0).
  - intros Htm. exists (invalidated s). split.
    { apply serialized_total; [|done]. intros Q HQ. unfold sbull_ops. wp_step.
      apply wp_sbull_invalidate; [done|]. by wp_step. }
    specialize (Ht Htm). split; [done|]. unfold invalidated, next_view. rewrite Ht. cbn.
    destruct Hwf as [-> _ _]. done.
Qed.

(** [check_disk_change] as its documentation has it. *)
Definition plain_check_disk_change : K sbull_dev Z :=
  mc ← sbull_media_changed; if mc =? 0 then mret 0 else sbull_revalidate;; mret 1.

Lemma plain_check_spec : check_disk_change_spec plain_check_disk_change.
Proof. by intros C s Q. Qed.

Lemma small_media disk : lenZ disk <= INT_MAX → media_inv (small_dev disk).
Proof.
  intros Hl. split; cbn; [exists disk; by apply small_wf|lia| |done|done]. by intros [].
Qed.

Lemma sbull_media_change_witness :
  let ops := sbull_ops plain_check_disk_change 100 in
  let s0 := small_dev small_disk in
  faultless ops media_allowed serialized (λ s, s = s0) ∧
  ∀ s o, reachable ops media_allowed serialized (λ s, s = s0) s →
    obeys o serialized →
    media_inv s ∧
    (users s < 2 ^ 15 - 1 → ∃ s', run o (ops MOpen) s = Done (0, s') ∧
      media_change s' = 0 ∧ timer s' = None ∧ next_view s' = next_view s) ∧
    (∀ j, 0 < users s → ∃ s', run o (ops (MRelease j)) s = Done (0, s') ∧
      next_view s' = next_view s) ∧
    (is_Some (timer s) → ∃ s', run o (ops MTimer) s = Done (0, s') ∧
      users s = 0 ∧ next_view s' = Some (zeroed (size s))).
Proof.
  intros ops s0. apply (sbull_media_change plain_check_disk_change 100 s0);
    [apply plain_check_spec|by apply small_media].
Defined.

(** ** Set-up and exit *)

(** Set-up of one device and, later, the exit of the module. *)
Definition load_unload (nsectors hardsect_size request_mode : Z) : K sbull_dev unit :=
  setup_device nsectors hardsect_size request_mode;; exit_device.

(** What the allocations of [setup_device] answer. *)
Record answers := Answers { a_vmalloc : Z; a_queue : Z; a_disk : Z }.

Definition fixed_kernel (a : answers) : oracle sbull_dev :=
  Oracle (λ c _, match c with
    | kmalloc _ => a_vmalloc a
    | kint s => if String.eqb s "alloc_disk" then a_disk a else a_queue a
    | _ => 0
    end) (λ _ _, 0) (λ _ s, s).

(** When the queue or the disk structure cannot be allocated, [setup_device]
    frees the disk's memory but leaves the pointer, and unloading the module
    frees it again; with every allocation granted, or with none, loading and
    unloading is sound and leaves nothing behind. *)
Theorem sbull_double_vfree nsectors hardsect_size request_mode a s :
  run (fixed_kernel a) (load_unload nsectors hardsect_size request_mode) s =
    if decide (a_vmalloc a ≠ 0 ∧ (a_queue a = 0 ∨ a_disk a = 0)) then Oops DoubleFree
    else Done (tt, SbullDev (s32 (nsectors * hardsect_size))
                     (if decide (a_vmalloc a = 0) then VNull else VFreed) 0 0 false false false None).
Proof.
  unfold run, load_unload, setup_device, exit_device, out_vfree, make_queue, vfree_data.
  unfold mbind, K_bind, mret, K_ret, put, modify, get, call, oops; cbn -[s32 uninit Z.mul].
  destruct (a_vmalloc a =? 0) eqn:E1; zbool; cbn -[s32 uninit Z.mul].
  { rewrite decide_False by tauto. by rewrite decide_True. }
  rewrite (decide_False (P := a_vmalloc a = 0)) by done.
  destruct (request_mode =? RM_NOQUEUE), (a_queue a =? 0) eqn:E2; cbn -[s32 uninit Z.mul];
    rewrite ?E2; cbn -[s32 uninit Z.mul];
    destruct (a_disk a =? 0) eqn:E3; zbool; cbn -[s32 uninit Z.mul];
    first [by rewrite decide_True by tauto | by rewrite decide_False by tauto].
Qed.

(** [size] is a number of bytes, whatever its comment says, and HDIO_GETGEO
    takes it for a number of sectors: for the default disk of 1024 sectors it
    reports 8192 cylinders of 4 heads and 16 sectors. *)
Lemma sbull_geometry s o :
  size s = 1024 * 512 → ans o (copy_user 16) 0%nat = 0 →
  run o (sbull_ioctl 512 HDIO_GETGEO) s = Done ((0, Some (HdGeometry 4 16 8192 4)), s) ∧
  8192 * 4 * 16 = 512 * 1024.
Proof.
  intros Hs Ho. split; [|done]. unfold run, sbull_ioctl, gets, mbind, K_bind, mret, K_ret, get, call.
  cbn. rewrite Ho, Hs. reflexivity.
Qed.
