(* ===== verification/SbullModule.v ===== *)
(** * sbull: loading and unloading (src/ldd4/sbull/sbull.c)

    The array of devices, each set up and released by the operations of
    [Sbull], and the registration of the major number under a name. *)

From stdpp Require Import base tactics numbers list strings.
From S2P Require Import Prelude KMonad Registry Sbull.
From Stdlib Require Import ZArith Lia.

Open Scope Z_scope.

(** ** Data *)

Record sbull_mod := SbullMod {
  sbull_major : Z;
  ndevices : Z;
  Devices : option (list sbull_dev);
  sbull_regs : registry
}.

Definition set_sbull_major (v : Z) (x : sbull_mod) : sbull_mod :=
  SbullMod v (ndevices x) (Devices x) (sbull_regs x).
Definition set_Devices (v : option (list sbull_dev)) (x : sbull_mod) : sbull_mod :=
  SbullMod (sbull_major x) (ndevices x) v (sbull_regs x).
Definition set_sbull_regs (v : registry) (x : sbull_mod) : sbull_mod :=
  SbullMod (sbull_major x) (ndevices x) (Devices x) v.

#[export] Instance sbull_mod_registry : HasRegistry sbull_mod :=
  { registry_of := sbull_regs; set_registry := set_sbull_regs; registry_set g s := eq_refl }.

#[export] Instance sbull_mod_table : HasTable sbull_mod sbull_dev.
Proof.
  refine {| table_of := Devices; set_table l := set_Devices (Some l) |}; try done.
  by intros l [] [= ->].
Defined.

(** A major number registered under a name, and the block of the devices. *)
Definition blkdev (name : string) (major : Z) : resource := Res name major.
Definition Devices_block : resource := Res "Devices" 0.

(** On a 64-bit machine. *)
Definition sizeof_sbull_dev : Z := 88.

(** ** Loading *)

Section sbull_module.
(** The parameters, and what [kmalloc] leaves in a device. *)
Context (nsectors hardsect_size request_mode : Z) (garbage : sbull_dev).

(** [register_blkdev(sbull_major, "sbull")]: asked for major 0 it answers the
    number it chose, asked for another it answers 0; or a negative error. *)
Definition register_sbull : K sbull_mod Z :=
  ma ← gets sbull_major;
  z ← call (kint "register_blkdev");
  (if z <? 0 then mret tt else hold (blkdev "sbull" (if ma =? 0 then z else ma)));;
  mret z.

Definition sbull_init : K sbull_mod Z :=
  major ← register_sbull;
  modify (set_sbull_major major);;
  if major <=? 0 then mret (- EBUSY) else
  n ← gets ndevices;
  p ← call (kmalloc (n * sizeof_sbull_dev));
  if p =? 0 then
    modify (set_Devices None);;
    give_back (blkdev "sbd" major);;
    mret (- ENOMEM)
  else
    hold Devices_block;;
    modify (set_Devices (Some (replicate (Z.to_nat n) garbage)));;
    for_each (Z.to_nat n) 0 (λ i, at_entry i (setup_device nsectors hardsect_size request_mode));;
    mret 0.

Definition sbull_exit : K sbull_mod unit :=
  n ← gets ndevices;
  for_each (Z.to_nat n) 0 (λ i, at_entry i exit_device);;
  major ← gets sbull_major;
  give_back (blkdev "sbull" major);;
  give_back Devices_block.

(** ** Specification *)

(** A device whose memory was not freed, and one with nothing left. *)
Definition dev_ready (d : sbull_dev) : Prop := data d ≠ VFreed.
Definition dev_gone (d : sbull_dev) : Prop :=
  (data d = VNull ∨ data d = VFreed) ∧ queue d = false ∧ gd d = false ∧ timer d = None.

Record sbull_ready (s : sbull_mod) : Prop := {
  sr_devices : ∃ l, Devices s = Some l ∧ length l = Z.to_nat (ndevices s) ∧ Forall dev_ready l;
  sr_regs : owned [Devices_block; blkdev "sbull" (sbull_major s)] s
}.

(** The answers allowed: queues and disk structures are granted (see
    [Sbull.sbull_double_vfree] for what happens otherwise), memory may be
    refused; loaded, the devices are used and nothing else. *)
Record sbull_contract (C : contract sbull_mod) : Prop := {
  sb_reg : ∀ z, c_ans C (kint "register_blkdev") z → z ≠ 0;
  sb_queue : ∀ s z, s = "alloc_disk"%string ∨ s = "blk_init_queue"%string ∨
    s = "blk_alloc_queue"%string → c_ans C (kint s) z → z ≠ 0;
  sb_used : ∀ s s', c_rely C s s' → sbull_ready s → sbull_ready s'
}.

(** The module with a dynamic major, before it is loaded. *)
Definition sbull_fresh (major n : Z) : sbull_mod := SbullMod major n None empty_registry.

Lemma wp_make_queue C service d (Q : bool → sbull_dev → Prop) :
  (∀ z, c_ans C (kint service) z → z ≠ 0) → Q true (set_queue true d) →
  wp C (make_queue service) Q d.
Proof. intros HC HQ. unfold make_queue. repeat wp_step; [by apply HC in H|done]. Qed.

Lemma wp_setup_device C d :
  (∀ s z, s = "alloc_disk"%string ∨ s = "blk_init_queue"%string ∨
    s = "blk_alloc_queue"%string → c_ans C (kint s) z → z ≠ 0) →
  wp C (setup_device nsectors hardsect_size request_mode) (λ _, dev_ready) d.
Proof.
  intros HC. unfold setup_device. do 5 wp_step; [by wp_step|]. wp_step. wp_step. wp_step.
  wp_step; apply wp_make_queue; try (intros z0 Hz0; eapply HC; [|exact Hz0]; by auto);
    cbn [negb]; repeat wp_step; try done; exfalso; eapply HC; try done; auto.
Qed.

Lemma wp_exit_device C d : dev_ready d → wp C exit_device (λ _, dev_gone) d.
Proof.
  intros Hd. unfold exit_device, vfree_data. repeat wp_step. unfold dev_ready in Hd. cbn.
  destruct (data d) eqn:E; [wp_step|wp_step|done]; (split; [|done]); cbn; rewrite ?E; auto.
Qed.

Lemma wp_sbull_exit C s (Q : unit → sbull_mod → Prop) :
  sbull_ready s →
  (∀ s', owned [] s' → (∃ l, Devices s' = Some l ∧ Forall dev_gone l) → Q tt s') →
  wp C sbull_exit Q s.
Proof.
  intros [(l & Hl & Hlen & Hr) Ho] HQ. unfold sbull_exit. wp_step. wp_step. wp_step. rewrite <-Hlen.
  apply (wp_for_entries C (λ _, exit_device) dev_ready dev_gone l); [done|done| |].
  { intros _ d. apply wp_exit_device. }
  intros l' _ Hg. wp_step. wp_step. wp_step. apply wp_give_back, wp_give_back, HQ; [|by exists l'].
  apply (owned_del Devices_block), (owned_del (blkdev "sbull" (sbull_major s))).
  eapply owned_perm, Ho. apply Permutation_swap.
Qed.

(** Loading, with a dynamic major. *)
Lemma wp_sbull_init C n (Q : Z → sbull_mod → Prop) :
  sbull_contract C →
  (∀ m, Q (- EBUSY) (sbull_fresh m n)) →
  (∀ m, Q (- ENOMEM) (SbullMod m n None (Registry [blkdev "sbull" m] [blkdev "sbd" m]))) →
  (∀ s, sbull_ready s → Q 0 s) →
  wp C sbull_init Q (sbull_fresh 0 n).
Proof.
  intros HC Hbusy Hmem HQ. unfold sbull_init, register_sbull. do 7 wp_step.
  - do 4 wp_step. rewrite (proj2 (Z.leb_le z 0)) by lia. wp_step. apply Hbusy.
  - apply (sb_reg _ HC) in H. apply wp_hold. wp_step. wp_step. wp_step.
    rewrite (proj2 (Z.leb_gt z 0)) by lia. change (sbull_major (sbull_fresh 0 n) =? 0) with true.
    cbn iota. do 5 wp_step.
    + wp_step. wp_step. wp_step. apply wp_give_back. wp_step. cbn. unfold reg_del. cbn.
      rewrite decide_False; [apply Hmem|]. by intros [= ?]%list_elem_of_singleton.
    + wp_step. apply wp_hold. wp_step. wp_step. wp_step.
      change (ndevices _) with n. set (l := replicate (Z.to_nat n) garbage). set (s1 := set_Devices _ _).
      replace (Z.to_nat n) with (length l) by apply length_replicate.
      apply (wp_for_entries C (λ _, setup_device nsectors hardsect_size request_mode)
               (λ _, True) dev_ready l); [done|by apply Forall_true| |].
      { intros _ d _. by apply wp_setup_device, sb_queue. }
      intros l' Hl' Hr. wp_step. apply HQ. split.
      * exists l'. split_and!; [done| |done]. by rewrite Hl'; apply length_replicate.
      * exact (owns_add Devices_block _ _ (owns_add (blkdev "sbull" z) _ _ owns_empty)).
Qed.

(** A kernel with every answer but no queue, and none for the registration. *)
Definition sbull_kernel : contract sbull_mod :=
  Contract (λ c z, doc_ans c z ∧ match c with kint _ => z ≠ 0 | _ => True end)
    (λ s s', sbull_ready s → sbull_ready s') False.

Lemma sbull_kernel_ok : sbull_contract sbull_kernel.
Proof. split; [by intros z []|by intros s z _ []|done]. Qed.
End sbull_module.

(** ** Properties *)

(** What loading with a dynamic major, using the driver and unloading it comes
    to, from the result of the load. *)
Definition sbull_outcome (r : Z) (s : sbull_mod) : Prop :=
  if r =? 0 then owned [] s ∧ ∃ l, Devices s = Some l ∧ Forall dev_gone l
  else if r =? - EBUSY then owned [] s
  else r = - ENOMEM ∧
    sbull_regs s = Registry [blkdev "sbull" (sbull_major s)] [blkdev "sbd" (sbull_major s)].

(** Loading the driver with a dynamic major, using it and unloading it:
    every device is released and all that was registered given back. A load
    that cannot get a number holds nothing; one that cannot get memory leaves
    the number registered, for it gives back another name. *)
Theorem sbull_module_unloads nsectors hardsect_size request_mode garbage C n :
  sbull_contract C →
  wp C (r ← sbull_init nsectors hardsect_size request_mode garbage;
        if r =? 0 then interfere;; sbull_exit;; mret r else mret r)
    sbull_outcome (sbull_fresh 0 n).
Proof.
  intros HC. wp_step. apply wp_sbull_init; [done|intros m; by wp_step|intros m; by wp_step|].
  intros s Hs. change (0 =? 0) with true. cbn iota. wp_step. wp_step.
  apply (sb_used _ HC) in H; [|done]. wp_step. apply wp_sbull_exit; [done|].
  intros s2 H2 Hg. by wp_step.
Qed.

Lemma sbull_module_unloads_witness :
  wp sbull_kernel (r ← sbull_init 1024 512 RM_SIMPLE (SbullDev 0 VNull 0 0 false false false None);
        if r =? 0 then interfere;; sbull_exit;; mret r else mret r)
    sbull_outcome (sbull_fresh 0 4).
Proof. apply sbull_module_unloads, sbull_kernel_ok. Defined.

(** With a major given as parameter the driver never loads: the kernel answers
    0 when it grants the number, which the driver takes for a failure, and the
    number stays registered. *)
Lemma sbull_given_major nsectors hardsect_size request_mode garbage n major o :
  0 < major → ans o (kint "register_blkdev") 0%nat = 0 →
  run o (sbull_init nsectors hardsect_size request_mode garbage) (sbull_fresh major n) =
  Done (- EBUSY, SbullMod 0 n None (Registry [blkdev "sbull" major] [])).
Proof.
  intros Hm Ho. unfold run, sbull_init, register_sbull, gets, get, call, modify, hold.
  unfold mbind, K_bind, mret, K_ret. cbn. rewrite Ho. cbn.
  by rewrite (proj2 (Z.eqb_neq major 0)) by lia.
Qed.
