(* ===== verification/Snull.v ===== *)
(** * snull: the loop-back network interfaces (src/ldd4/snull/snull.c)

    Two interfaces; what one transmits the other receives, with the third octet
    of the addresses flipped. Interfaces are named by a [bool], the index in
    [snull_devs]; linked lists of packets are lists; the socket buffers of the
    kernel that are being transmitted are named by a number, so that freeing
    one twice shows. Frames handed to the upper layers, and the buffers freed,
    are kept in traces. One processor runs one entry point at a time: interrupt
    handlers run where the driver calls them. *)

From stdpp Require Import base tactics numbers list strings.
From S2P Require Import Prelude Ring KMonad.
From Stdlib Require Import ZArith Lia.

Open Scope Z_scope.

(** ** Data *)

Definition SNULL_RX_INTR : Z := 1.
Definition SNULL_TX_INTR : Z := 2.
Definition SNULL_TIMEOUT : Z := 5.

Definition ETH_ALEN : Z := 6.
Definition ETH_HLEN : Z := 14.
Definition ETH_ZLEN : Z := 60.
Definition ETH_DATA_LEN : Z := 1500.
Definition sizeof_iphdr : Z := 20.
Definition IFF_UP : Z := 1.
Definition IFF_NOARP : Z := 128.

(** [struct snull_packet]: [pkt_dev] is the interface whose pool it is from. *)
Record snull_packet := Packet { pkt_dev : bool; datalen : Z; pkt_data : list cell }.

(** [struct net_device_stats], the counters the driver touches. *)
Record stats := Stats {
  rx_packets : Z;
  tx_packets : Z;
  rx_bytes : Z;
  tx_bytes : Z;
  rx_dropped : Z;
  tx_errors : Z
}.

Definition set_rx_packets (v : Z) (x : stats) : stats :=
  Stats v (tx_packets x) (rx_bytes x) (tx_bytes x) (rx_dropped x) (tx_errors x).
Definition set_tx_packets (v : Z) (x : stats) : stats :=
  Stats (rx_packets x) v (rx_bytes x) (tx_bytes x) (rx_dropped x) (tx_errors x).
Definition set_rx_bytes (v : Z) (x : stats) : stats :=
  Stats (rx_packets x) (tx_packets x) v (tx_bytes x) (rx_dropped x) (tx_errors x).
Definition set_tx_bytes (v : Z) (x : stats) : stats :=
  Stats (rx_packets x) (tx_packets x) (rx_bytes x) v (rx_dropped x) (tx_errors x).
Definition set_rx_dropped (v : Z) (x : stats) : stats :=
  Stats (rx_packets x) (tx_packets x) (rx_bytes x) (tx_bytes x) v (tx_errors x).
Definition set_tx_errors (v : Z) (x : stats) : stats :=
  Stats (rx_packets x) (tx_packets x) (rx_bytes x) (tx_bytes x) (rx_dropped x) v.

(** [struct snull_priv]; [skb] names the buffer being transmitted. *)
Record snull_priv := Priv {
  stats_ : stats;
  status : Z;
  ppool : list snull_packet;
  rx_queue : list snull_packet;
  rx_int_enabled : Z;
  tx_packetlen : Z;
  skb : option nat;
  plock : bool
}.

Definition set_stats (v : stats) (x : snull_priv) : snull_priv :=
  Priv v (status x) (ppool x) (rx_queue x) (rx_int_enabled x) (tx_packetlen x) (skb x) (plock x).
Definition set_status (v : Z) (x : snull_priv) : snull_priv :=
  Priv (stats_ x) v (ppool x) (rx_queue x) (rx_int_enabled x) (tx_packetlen x) (skb x) (plock x).
Definition set_ppool (v : list snull_packet) (x : snull_priv) : snull_priv :=
  Priv (stats_ x) (status x) v (rx_queue x) (rx_int_enabled x) (tx_packetlen x) (skb x)
    (plock x).
Definition set_rx_queue (v : list snull_packet) (x : snull_priv) : snull_priv :=
  Priv (stats_ x) (status x) (ppool x) v (rx_int_enabled x) (tx_packetlen x) (skb x) (plock x).
Definition set_rx_int_enabled (v : Z) (x : snull_priv) : snull_priv :=
  Priv (stats_ x) (status x) (ppool x) (rx_queue x) v (tx_packetlen x) (skb x) (plock x).
Definition set_tx_packetlen (v : Z) (x : snull_priv) : snull_priv :=
  Priv (stats_ x) (status x) (ppool x) (rx_queue x) (rx_int_enabled x) v (skb x) (plock x).
Definition set_skb (v : option nat) (x : snull_priv) : snull_priv :=
  Priv (stats_ x) (status x) (ppool x) (rx_queue x) (rx_int_enabled x) (tx_packetlen x) v
    (plock x).
Definition set_plock (v : bool) (x : snull_priv) : snull_priv :=
  Priv (stats_ x) (status x) (ppool x) (rx_queue x) (rx_int_enabled x) (tx_packetlen x) (skb x)
    v.

(** [struct net_device], the fields the driver touches; [stopped] and
    [polling] are the state of the transmit queue and of the poll list. *)
Record net_device := NetDevice {
  priv : snull_priv;
  dev_addr : list Z;
  flags : Z;
  base_addr : Z;
  irq : Z;
  mtu : Z;
  quota : Z;
  stopped : bool;
  polling : bool
}.

Definition set_priv (v : snull_priv) (x : net_device) : net_device :=
  NetDevice v (dev_addr x) (flags x) (base_addr x) (irq x) (mtu x) (quota x) (stopped x)
    (polling x).
Definition set_dev_addr (v : list Z) (x : net_device) : net_device :=
  NetDevice (priv x) v (flags x) (base_addr x) (irq x) (mtu x) (quota x) (stopped x) (polling x).
Definition set_flags (v : Z) (x : net_device) : net_device :=
  NetDevice (priv x) (dev_addr x) v (base_addr x) (irq x) (mtu x) (quota x) (stopped x)
    (polling x).
Definition set_irq (v : Z) (x : net_device) : net_device :=
  NetDevice (priv x) (dev_addr x) (flags x) (base_addr x) v (mtu x) (quota x) (stopped x)
    (polling x).
Definition set_mtu (v : Z) (x : net_device) : net_device :=
  NetDevice (priv x) (dev_addr x) (flags x) (base_addr x) (irq x) v (quota x) (stopped x)
    (polling x).
Definition set_quota (v : Z) (x : net_device) : net_device :=
  NetDevice (priv x) (dev_addr x) (flags x) (base_addr x) (irq x) (mtu x) v (stopped x)
    (polling x).
Definition set_stopped (v : bool) (x : net_device) : net_device :=
  NetDevice (priv x) (dev_addr x) (flags x) (base_addr x) (irq x) (mtu x) (quota x) v
    (polling x).
Definition set_polling (v : bool) (x : net_device) : net_device :=
  NetDevice (priv x) (dev_addr x) (flags x) (base_addr x) (irq x) (mtu x) (quota x) (stopped x)
    v.

(** Both interfaces, the frames passed up, oldest first, and the transmitted
    buffers freed. *)
Record world := World {
  snull_devs : bool → net_device;
  up : list (bool * list cell);
  freed : list nat
}.

Definition upd (ix : bool) (f : net_device → net_device) (w : world) : world :=
  World (λ i, if Bool.eqb i ix then f (snull_devs w i) else snull_devs w i) (up w) (freed w).
Definition updp (ix : bool) (f : snull_priv → snull_priv) : world → world :=
  upd ix (λ d, set_priv (f (priv d)) d).
Definition upds (ix : bool) (f : stats → stats) : world → world :=
  updp ix (λ p, set_stats (f (stats_ p)) p).
Definition privw (ix : bool) (w : world) : snull_priv := priv (snull_devs w ix).
Definition add_up (ix : bool) (frame : list cell) (w : world) : world :=
  World (snull_devs w) (up w ++ [(ix, frame)]) (freed w).
Definition add_freed (n : nat) (w : world) : world :=
  World (snull_devs w) (up w) (n :: freed w).

(** [spin_lock(&priv->lock)] and its release, interrupts masked or not. *)
Definition spin_lock (ix : bool) : K world unit :=
  b ← gets (λ w, plock (privw ix w));
  if b : bool then oops Deadlock else modify (updp ix (set_plock true)).
Definition spin_unlock (ix : bool) : K world unit :=
  b ← gets (λ w, plock (privw ix w));
  if b : bool then modify (updp ix (set_plock false)) else oops BadUnlock.

(** [dev_kfree_skb] on the buffer in flight. *)
Definition dev_kfree_skb (p : option nat) : K world unit :=
  match p with
  | None => mret tt
  | Some n =>
      l ← gets freed;
      if bool_decide (n ∈ l) then oops DoubleFree else modify (add_freed n)
  end.

Definition netif_stop_queue (ix : bool) : K world unit := modify (upd ix (set_stopped true)).
Definition netif_wake_queue (ix : bool) : K world unit := modify (upd ix (set_stopped false)).

(** ** The packet pool *)

Fixpoint setup_pool (n : nat) (ix : bool) : K world unit :=
  match n with
  | O => mret tt
  | S n' =>
      z ← call (kmalloc 1520);
      if z =? 0 then mret tt else
      modify (updp ix (λ p, set_ppool (Packet ix 0 (uninit ETH_DATA_LEN) :: ppool p) p));;
      setup_pool n' ix
  end.
Definition snull_setup_pool (pool_size : Z) (ix : bool) : K world unit :=
  modify (updp ix (set_ppool []));;
  setup_pool (Z.to_nat pool_size) ix.

(** The number of packets freed. *)
Definition snull_teardown_pool (ix : bool) : K world nat :=
  l ← gets (λ w, ppool (privw ix w));
  modify (updp ix (set_ppool []));;
  mret (length l).

Definition snull_get_tx_buffer (ix : bool) : K world snull_packet :=
  spin_lock ix;;
  pool ← gets (λ w, ppool (privw ix w));
  match pool with
  | [] => oops NullDeref                       (* priv->ppool = pkt->next *)
  | pkt :: rest =>
      modify (updp ix (set_ppool rest));;
      (if bool_decide (rest = []) then netif_stop_queue ix else mret tt);;
      spin_unlock ix;;
      mret pkt
  end.

Definition snull_release_buffer (pkt : snull_packet) : K world unit :=
  let ix := pkt_dev pkt in
  spin_lock ix;;
  next ← gets (λ w, ppool (privw ix w));
  modify (updp ix (set_ppool (pkt :: next)));;
  spin_unlock ix;;
  stop ← gets (λ w, stopped (snull_devs w ix));
  if stop && bool_decide (next = []) then netif_wake_queue ix else mret tt.

Definition snull_enqueue_buf (ix : bool) (pkt : snull_packet) : K world unit :=
  spin_lock ix;;
  modify (updp ix (λ p, set_rx_queue (pkt :: rx_queue p) p));;
  spin_unlock ix.

Definition snull_dequeue_buf (ix : bool) : K world (option snull_packet) :=
  spin_lock ix;;
  q ← gets (λ w, rx_queue (privw ix w));
  r ← match q with
      | [] => mret None
      | pkt :: rest => modify (updp ix (set_rx_queue rest));; mret (Some pkt)
      end;
  spin_unlock ix;;
  mret r.

Definition snull_rx_ints (ix : bool) (enable : Z) : K world unit :=
  modify (updp ix (set_rx_int_enabled enable)).

(** ** Open, close, configuration *)

(** "\0SNUL0", or "\0SNUL1" for the second interface. *)
Definition snull_address (ix : bool) : list Z := [0; 83; 78; 85; 76; if ix then 49 else 48].

Definition snull_open (ix : bool) : K world Z :=
  modify (upd ix (set_dev_addr (snull_address ix)));;
  modify (upd ix (set_stopped false));;
  mret 0.

Definition snull_release (ix : bool) : K world Z :=
  netif_stop_queue ix;; mret 0.

(** [struct ifmap], the fields the driver reads. *)
Record ifmap := Ifmap { map_base_addr : Z; map_irq : Z }.

Definition snull_config (ix : bool) (map : ifmap) : K world Z :=
  d ← gets (λ w, snull_devs w ix);
  if c_bool (Z.land (flags d) IFF_UP) then mret (- EBUSY) else
  if negb (map_base_addr map =? base_addr d) then mret (- EOPNOTSUPP) else
  (if negb (map_irq map =? irq d) then modify (upd ix (set_irq (map_irq map))) else mret tt);;
  mret 0.

Definition snull_change_mtu (ix : bool) (new_mtu : Z) : K world Z :=
  if (new_mtu <? 68) || (new_mtu >? 1500) then mret (- EINVAL) else
  spin_lock ix;;
  modify (upd ix (set_mtu new_mtu));;
  spin_unlock ix;;
  mret 0.

Definition snull_ioctl : K world Z := mret 0.
Definition snull_stats (ix : bool) : K world stats := gets (λ w, stats_ (privw ix w)).

(** ** Reception *)

(** [memcpy(skb_put(skb, datalen), pkt->data, datalen)]. *)
Definition packet_bytes (pkt : snull_packet) : K world (list cell) :=
  if bool_decide (0 <= datalen pkt <= lenZ (pkt_data pkt))
  then mret (slice 0 (datalen pkt) (pkt_data pkt)) else oops OutOfBounds.

Definition count_rx (ix : bool) (pkt : snull_packet) : world → world :=
  upds ix (λ s, set_rx_bytes (u64 (rx_bytes s + datalen pkt))
                  (set_rx_packets (u64 (rx_packets s + 1)) s)).
Definition count_drop (ix : bool) : world → world :=
  upds ix (λ s, set_rx_dropped (u64 (rx_dropped s + 1)) s).

Definition snull_rx (ix : bool) (pkt : snull_packet) : K world unit :=
  z ← call (kmalloc (datalen pkt + 2));         (* dev_alloc_skb *)
  if z =? 0 then modify (count_drop ix) else
  frame ← packet_bytes pkt;
  modify (count_rx ix pkt);;
  modify (add_up ix frame).                     (* netif_rx *)

(** The loop of [snull_poll]: the number of packets passed up. *)
Fixpoint poll_loop (fuel : nat) (ix : bool) (npackets quota_ : Z) : K world Z :=
  match fuel with
  | O => sleep_forever
  | S fuel' =>
      q ← gets (λ w, rx_queue (privw ix w));
      if (npackets <? quota_) && negb (bool_decide (q = [])) then
        pkt ← snull_dequeue_buf ix ≫= deref NullDeref;
        z ← call (kmalloc (datalen pkt + 2));
        if z =? 0 then
          modify (count_drop ix);;
          snull_release_buffer pkt;;
          poll_loop fuel' ix npackets quota_
        else
          frame ← packet_bytes pkt;
          modify (add_up ix frame);;            (* netif_receive_skb *)
          modify (count_rx ix pkt);;
          snull_release_buffer pkt;;
          poll_loop fuel' ix (npackets + 1) quota_
      else mret npackets
  end.

(** The value of the call and the new [*budget]. One more round than there are
    packets is fuel enough. *)
Definition snull_poll (ix : bool) (budget : Z) : K world (Z * Z) :=
  d ← gets (λ w, snull_devs w ix);
  npackets ← poll_loop (S (length (rx_queue (priv d)))) ix 0 (Z.min (quota d) budget);
  modify (upd ix (λ d, set_quota (quota d - npackets) d));;
  q ← gets (λ w, rx_queue (privw ix w));
  if bool_decide (q = []) then
    modify (upd ix (set_polling false));;       (* netif_rx_complete *)
    snull_rx_ints ix 1;;
    mret (0, budget - npackets)
  else mret (1, budget - npackets).

(** ** Interrupts *)

(** "a transmission is over: free the skb" *)
Definition tx_done (ix : bool) : K world unit :=
  modify (upds ix (λ s, set_tx_packets (u64 (tx_packets s + 1)) s));;
  modify (updp ix (λ p, set_stats
    (set_tx_bytes (u64 (tx_bytes (stats_ p) + tx_packetlen p)) (stats_ p)) p));;
  b ← gets (λ w, skb (privw ix w));
  dev_kfree_skb b.

Definition snull_regular_interrupt (ix : bool) : K world unit :=
  spin_lock ix;;
  statusword ← gets (λ w, status (privw ix w));
  modify (updp ix (set_status 0));;
  pkt ← (if c_bool (Z.land statusword SNULL_RX_INTR) then
           q ← gets (λ w, rx_queue (privw ix w));
           match q with
           | [] => mret None
           | pkt :: rest =>
               modify (updp ix (set_rx_queue rest));;
               snull_rx ix pkt;;
               mret (Some pkt)
           end
         else mret None);
  (if c_bool (Z.land statusword SNULL_TX_INTR) then tx_done ix else mret tt);;
  spin_unlock ix;;
  match pkt with Some pkt => snull_release_buffer pkt | None => mret tt end.

Definition snull_napi_interrupt (ix : bool) : K world unit :=
  spin_lock ix;;
  statusword ← gets (λ w, status (privw ix w));
  modify (updp ix (set_status 0));;
  (if c_bool (Z.land statusword SNULL_RX_INTR) then
     snull_rx_ints ix 0;;
     modify (upd ix (set_polling true))         (* netif_rx_schedule *)
   else mret tt);;
  (if c_bool (Z.land statusword SNULL_TX_INTR) then tx_done ix else mret tt);;
  spin_unlock ix.

(** ** Transmission *)

Section transmit.
(** [ip_fast_csum(ih, ihl)], of the architecture: the header from its first
    byte on, and its length in words. The module parameters. *)
Context (ip_fast_csum : list Z → Z → Z) (use_napi : bool) (lockup : Z).

Definition snull_interrupt (ix : bool) : K world unit :=
  if use_napi then snull_napi_interrupt ix else snull_regular_interrupt ix.

(** Offsets in the frame of the fields of the IP header the driver touches. *)
Definition ip_start : nat := 14.
Definition ip_check : nat := 24.
Definition ip_saddr : nat := 26.
Definition ip_daddr : nat := 30.

(** "change the third octet (class C)" *)
Definition flip_octets (buf : list Z) : list Z :=
  alter (λ b, Z.lxor b 1) (ip_daddr + 2)%nat (alter (λ b, Z.lxor b 1) (ip_saddr + 2)%nat buf).

(** "and rebuild the checksum (ip needs it)"; the field is little-endian. *)
Definition set_check (c : Z) (buf : list Z) : list Z :=
  <[S ip_check := u8 (Z.shiftr c 8)]> (<[ip_check := u8 c]> buf).
Definition rewrite_headers (buf : list Z) : list Z :=
  let buf := set_check 0 (flip_octets buf) in
  set_check (ip_fast_csum (drop ip_start buf) (Z.land (nth ip_start buf 0) 15)) buf.

Definition snull_hw_tx (buf : list Z) (ix : bool) : K world unit :=
  let len := lenZ buf in
  if len <? ETH_HLEN + sizeof_iphdr then mret tt else
  let buf := rewrite_headers buf in
  let dest := negb ix in
  tx_buffer ← snull_get_tx_buffer ix;
  data ← (if bool_decide (len <= lenZ (pkt_data tx_buffer))
          then mret (store 0 (Some <$> buf) (pkt_data tx_buffer)) else oops OutOfBounds);
  snull_enqueue_buf dest (Packet (pkt_dev tx_buffer) len data);;
  ints ← gets (λ w, rx_int_enabled (privw dest w));
  (if c_bool ints then
     modify (updp dest (λ p, set_status (Z.lor (status p) SNULL_RX_INTR) p));;
     snull_interrupt dest
   else mret tt);;
  modify (updp ix (set_tx_packetlen len));;
  modify (updp ix (λ p, set_status (Z.lor (status p) SNULL_TX_INTR) p));;
  n ← gets (λ w, tx_packets (stats_ (privw ix w)));
  if c_bool lockup && (Z.rem (u64 (n + 1)) (u64 lockup) =? 0) then netif_stop_queue ix
  else snull_interrupt ix.

(** A socket buffer to transmit: its name and its bytes. *)
Record sk_buff := SkBuff { skb_id : nat; skb_data : list Z }.

(** [memset(shortpkt, 0, ETH_ZLEN); memcpy(shortpkt, skb->data, skb->len)] *)
Definition padded (data : list Z) : list Z :=
  if lenZ data <? ETH_ZLEN
  then data ++ replicate (Z.to_nat (ETH_ZLEN - lenZ data)) 0 else data.

Definition snull_tx (b : sk_buff) (ix : bool) : K world Z :=
  let data := padded (skb_data b) in
  modify (updp ix (set_skb (Some (skb_id b))));;
  snull_hw_tx data ix;;
  mret 0.

Definition snull_tx_timeout (ix : bool) : K world unit :=
  modify (updp ix (set_status SNULL_TX_INTR));;
  snull_interrupt ix;;
  modify (upds ix (λ s, set_tx_errors (u64 (tx_errors s + 1)) s));;
  netif_wake_queue ix.
End transmit.

(** ** The link-level header *)

(** [struct ethhdr], as bytes. *)
Record ethhdr := Ethhdr { h_dest : list Z; h_source : list Z; h_proto : list Z }.

(** [addr[ETH_ALEN-1] ^= 0x01] *)
Definition twin_address (addr : list Z) : list Z := alter (λ b, Z.lxor b 1) 5%nat addr.
Definition htons (type : Z) : list Z := [u8 (Z.shiftr type 8); u8 type].

Definition snull_rebuild_header (dev_addr : list Z) (eth : ethhdr) : Z * ethhdr :=
  (0, Ethhdr (twin_address dev_addr) dev_addr (h_proto eth)).

Definition or_else {A} (p : option A) (x : A) : A := match p with Some a => a | None => x end.

(** The header pushed in front of the buffer, and its length. *)
Definition snull_header (dev_addr : list Z) (type : Z) (daddr saddr : option (list Z)) : Z * ethhdr :=
  (ETH_HLEN, Ethhdr (twin_address (or_else daddr dev_addr)) (or_else saddr dev_addr) (htons type)).

(** ** Initialisation *)

Section init.
(** [ether_setup], of the kernel, on the fields the driver sees. *)
Context (ether_setup : net_device → net_device) (pool_size : Z).

Definition zero_priv : snull_priv := Priv (Stats 0 0 0 0 0 0) 0 [] [] 0 0 None false.

Definition snull_init (ix : bool) : K world unit :=
  modify (upd ix ether_setup);;
  modify (upd ix (λ d, set_flags (Z.lor (flags d) IFF_NOARP) d));;
  modify (updp ix (λ _, zero_priv));;
  snull_rx_ints ix 1;;
  snull_setup_pool pool_size ix.
End init.

(** * Invariant *)

(** Packets of the pool of [ix] that are in flight in a queue. *)
Definition of_dev (ix : bool) (p : snull_packet) : bool := Bool.eqb (pkt_dev p) ix.
Definition in_flight (ix : bool) (w : world) : nat :=
  (length (List.filter (of_dev ix) (rx_queue (privw false w))) +
   length (List.filter (of_dev ix) (rx_queue (privw true w))))%nat.

(** A packet of the pool has the room of its array, one in a queue a length
    inside it. *)
Definition good_packet (p : snull_packet) : Prop := lenZ (pkt_data p) = ETH_DATA_LEN.
Definition good_queued (p : snull_packet) : Prop :=
  good_packet p ∧ 0 <= datalen p <= ETH_DATA_LEN.

(** [n] packets per pool; [loose] are those the running code holds, [held] the
    lock it has. A pool that is empty has its queue stopped. *)
Record inv (n : nat) (loose : list snull_packet) (held : option bool) (w : world) : Prop := {
  inv_own : ∀ ix, Forall (λ p, pkt_dev p = ix) (ppool (privw ix w));
  inv_pool : ∀ ix, Forall good_packet (ppool (privw ix w));
  inv_queue : ∀ ix, Forall good_queued (rx_queue (privw ix w));
  inv_count : ∀ ix, (length (ppool (privw ix w)) + in_flight ix w +
                     length (List.filter (of_dev ix) loose))%nat = n;
  inv_locks : ∀ ix, plock (privw ix w) = bool_decide (held = Some ix);
  inv_stopped : ∀ ix, ppool (privw ix w) = [] → stopped (snull_devs w ix) = true
}.

(** The fields the accounting of packets does not depend on may change. *)
Record same_packets (w w' : world) : Prop := {
  sp_pool : ∀ ix, ppool (privw ix w') = ppool (privw ix w);
  sp_queue : ∀ ix, rx_queue (privw ix w') = rx_queue (privw ix w);
  sp_lock : ∀ ix, plock (privw ix w') = plock (privw ix w);
  sp_stopped : ∀ ix, stopped (snull_devs w' ix) = stopped (snull_devs w ix)
}.

Lemma same_inv n l h w w' : same_packets w w' → inv n l h w → inv n l h w'.
Proof.
  intros [Hp Hq Hl Hs] [H1 H2 H3 H4 H5 H6].
  split; intros ix; unfold in_flight in *; rewrite ?Hp, ?Hq, ?Hl, ?Hs; auto.
Qed.

Lemma privw_upd i ix f w :
  (∀ d, priv (f d) = priv d) → privw i (upd ix f w) = privw i w.
Proof. intros Hf. unfold privw, upd. cbn. destruct (Bool.eqb i ix); [apply Hf|done]. Qed.

Lemma same_upd ix f w :
  (∀ d, priv (f d) = priv d) → (∀ d, stopped (f d) = stopped d) → same_packets w (upd ix f w).
Proof.
  intros Hf Hs. split; intros i; rewrite ?privw_upd by done; try done.
  cbn. by destruct (Bool.eqb i ix).
Qed.

Lemma inv_set_stopped n l h ix b w :
  inv n l h w → (b = false → ppool (privw ix w) ≠ []) → inv n l h (upd ix (set_stopped b) w).
Proof.
  intros [H1 H2 H3 H4 H5 H6] Hb.
  split; intros i; unfold in_flight in *; rewrite ?privw_upd by done; auto.
  intros Hp. cbn. destruct (Bool.eqb i ix) eqn:E; [|auto].
  apply Bool.eqb_prop in E as ->. cbn. destruct b; [done|]. by destruct Hb.
Qed.

(** What taking and giving back packets does not touch: the status words, the
    buffers in flight and the traces. *)
Record frame (w w' : world) : Prop := {
  fr_status : ∀ ix, status (privw ix w') = status (privw ix w);
  fr_skb : ∀ ix, skb (privw ix w') = skb (privw ix w);
  fr_freed : freed w' = freed w
}.

#[export] Instance frame_preorder : PreOrder frame.
Proof. split; [by intros w; split|]. intros w1 w2 w3 [] []. split; [congruence..]. Qed.

Lemma privw_updp i ix f w :
  privw i (updp ix f w) = if Bool.eqb i ix then f (privw i w) else privw i w.
Proof. by destruct i, ix. Qed.

Lemma stopped_updp i ix f w : stopped (snull_devs (updp ix f w) i) = stopped (snull_devs w i).
Proof. by destruct i, ix. Qed.

(** Updates of the other fields. *)
Lemma same_updp ix f w :
  (∀ p, ppool (f p) = ppool p ∧ rx_queue (f p) = rx_queue p ∧ plock (f p) = plock p) →
  same_packets w (updp ix f w).
Proof.
  intros Hf. split; intros i; rewrite ?privw_updp, ?stopped_updp; [..|done];
    destruct (Hf (privw i w)) as (? & ? & ?); by destruct (Bool.eqb i ix).
Qed.

(** An update of one interface, seen from each. *)
Ltac by_ix := repeat match goal with ix : bool |- _ => destruct ix end; cbn in *; try done.

Ltac inv_go :=
  let H1 := fresh "H" in let H2 := fresh "H" in let H3 := fresh "H" in
  let H4 := fresh "H" in let H5 := fresh "H" in let H6 := fresh "H" in let i := fresh "i" in
  match goal with H : inv _ _ _ _ |- _ => destruct H as [H1 H2 H3 H4 H5 H6] end;
  split; intros i; specialize (H1 i); specialize (H2 i); specialize (H3 i);
  specialize (H4 i); specialize (H5 i); specialize (H6 i); unfold in_flight, privw in *;
  by_ix.

Section packet_rules.
Context (C : contract world) (n : nat).

Lemma wp_spin_lock ix w (Q : unit → world → Prop) :
  plock (privw ix w) = false → Q tt (updp ix (set_plock true) w) → wp C (spin_lock ix) Q w.
Proof. intros Hl HQ. unfold spin_lock. wp_step. wp_step. rewrite Hl. by wp_step. Qed.

Lemma wp_spin_unlock ix w (Q : unit → world → Prop) :
  plock (privw ix w) = true → Q tt (updp ix (set_plock false) w) → wp C (spin_unlock ix) Q w.
Proof. intros Hl HQ. unfold spin_unlock. wp_step. wp_step. rewrite Hl. by wp_step. Qed.

Lemma inv_lock l w ix : inv n l None w → inv n l (Some ix) (updp ix (set_plock true) w).
Proof. intros H. inv_go. Qed.

Lemma inv_unlock l w ix : inv n l (Some ix) w → inv n l None (updp ix (set_plock false) w).
Proof. intros H. inv_go. Qed.

(** Taking a packet from the pool, which is not empty while the queue runs. *)
Lemma wp_get_tx_buffer l ix w (Q : snull_packet → world → Prop) :
  inv n l None w → stopped (snull_devs w ix) = false →
  (∀ pkt w', inv n (pkt :: l) None w' → frame w w' → good_packet pkt → pkt_dev pkt = ix →
    Q pkt w') →
  wp C (snull_get_tx_buffer ix) Q w.
Proof.
  intros Hi Hs HQ. unfold snull_get_tx_buffer. wp_step. apply wp_spin_lock; [by apply Hi|].
  wp_step. wp_step.
  assert (ppool (privw ix (updp ix (set_plock true) w)) = ppool (privw ix w)) as -> by by_ix.
  destruct (ppool (privw ix w)) as [|pkt rest] eqn:Hp.
  { rewrite (inv_stopped _ _ _ _ Hi ix Hp) in Hs. done. }
  wp_step. apply wp_modify. wp_step.
  apply (wp_mono _ _ (λ _ w', w' = (if bool_decide (rest = []) then upd ix (set_stopped true) else id)
    (updp ix (set_ppool rest) (updp ix (set_plock true) w)))).
  { unfold netif_stop_queue. case_bool_decide; [by apply wp_modify|by apply wp_ret]. }
  intros _ w' ->. wp_step. apply wp_spin_unlock; [case_bool_decide; by_ix|]. wp_step.
  pose proof (inv_own _ _ _ _ Hi ix) as Ho. pose proof (inv_pool _ _ _ _ Hi ix) as Hg.
  rewrite Hp, Forall_cons in Ho, Hg. destruct Ho as [Ho Ho'], Hg as [Hg Hg'].
  apply HQ; [|case_bool_decide; split; intros; by_ix|done|done].
  case_bool_decide; inv_go; rewrite ?Hp in *; unfold of_dev in *; cbn in *; rewrite ?Ho in *;
    cbn in *; try done; try lia.
Qed.

(** Giving a packet back to the pool of its interface. *)
Lemma wp_release_buffer l pkt w (Q : unit → world → Prop) :
  inv n (pkt :: l) None w → good_packet pkt →
  (∀ w', inv n l None w' → frame w w' → (∀ i, rx_queue (privw i w') = rx_queue (privw i w)) →
    up w' = up w → Q tt w') →
  wp C (snull_release_buffer pkt) Q w.
Proof.
  intros Hi Hg HQ. unfold snull_release_buffer, netif_wake_queue. set (ix := pkt_dev pkt).
  wp_step. apply wp_spin_lock; [by apply Hi|]. wp_step. wp_step. wp_step. apply wp_modify.
  wp_step. apply wp_spin_unlock; [by_ix|]. wp_step. wp_step.
  assert (∀ w', w' = updp ix (set_plock false) (updp ix
    (set_ppool (pkt :: ppool (privw ix (updp ix (set_plock true) w)))) (updp ix (set_plock true) w)) →
    inv n l None w' ∧ frame w w' ∧ (∀ i, rx_queue (privw i w') = rx_queue (privw i w)) ∧
    up w' = up w) as Hend.
  { intros w' ->. split_and!; [|split; intros; by_ix|intros i; by rewrite !privw_updp; destruct (Bool.eqb i ix)|done].
    unfold ix in *. destruct pkt as [d len data]. cbn in *.
    inv_go; unfold of_dev in *; cbn in *; try done; try lia; by constructor. }
  wp_step; [|wp_step; by apply HQ; apply Hend].
  apply wp_modify. destruct (Hend _ eq_refl) as (Hi' & Hf' & Hq' & Hu'). apply HQ.
  - inv_go; intros He; apply H4 in He; by_ix.
  - destruct Hf'. split; intros; by_ix.
  - intros i. rewrite <-Hq'. by_ix.
  - exact Hu'.
Qed.

(** Queues. *)
Lemma wp_enqueue_buf l ix pkt w (Q : unit → world → Prop) :
  inv n (pkt :: l) None w → good_queued pkt →
  (∀ w', inv n l None w' → frame w w' → Q tt w') →
  wp C (snull_enqueue_buf ix pkt) Q w.
Proof.
  intros Hi Hg HQ. unfold snull_enqueue_buf.
  wp_step. apply wp_spin_lock; [by apply Hi|]. wp_step. apply wp_modify.
  apply wp_spin_unlock; [by_ix|]. apply HQ; [|split; intros; by_ix].
  destruct pkt as [d len data]. inv_go; unfold of_dev in *; cbn in *; try done; try lia;
    try (by constructor); destruct d; cbn in *; lia.
Qed.

Lemma wp_dequeue_buf l ix w pkt rest (Q : option snull_packet → world → Prop) :
  inv n l None w → rx_queue (privw ix w) = pkt :: rest →
  (∀ w', inv n (pkt :: l) None w' → frame w w' → good_queued pkt →
    rx_queue (privw ix w') = rest → up w' = up w → Q (Some pkt) w') →
  wp C (snull_dequeue_buf ix) Q w.
Proof.
  intros Hi Hq HQ. unfold snull_dequeue_buf.
  wp_step. apply wp_spin_lock; [by apply Hi|]. wp_step. wp_step. wp_step.
  assert (rx_queue (privw ix (updp ix (set_plock true) w)) = rx_queue (privw ix w)) as -> by by_ix.
  pose proof (inv_queue _ _ _ _ Hi ix) as Hg. rewrite Hq in Hg |- *.
  apply Forall_cons in Hg as [Hg Hg'].
  wp_step. wp_step. wp_step. wp_step. apply wp_spin_unlock; [by_ix|]. wp_step.
  apply HQ; [|split; intros; by_ix|done|by_ix|done].
  destruct pkt as [d len data]. inv_go; unfold of_dev in *; rewrite ?Hq in *; cbn in *; try done; try lia;
    destruct d; cbn in *; lia.
Qed.

(** What a handler does to the rest of the state of an interface. *)
Lemma wp_packet_bytes pkt w (Q : list cell → world → Prop) :
  good_queued pkt → Q (slice 0 (datalen pkt) (pkt_data pkt)) w → wp C (packet_bytes pkt) Q w.
Proof.
  intros [Hg Hd] HQ. unfold good_packet in Hg. unfold packet_bytes.
  rewrite bool_decide_true by lia. by wp_step.
Qed.

Lemma same_count_rx ix pkt w : same_packets w (count_rx ix pkt w).
Proof. split; intros; by_ix. Qed.
Lemma same_count_drop ix w : same_packets w (count_drop ix w).
Proof. split; intros; by_ix. Qed.
Lemma same_add_up ix f w : same_packets w (add_up ix f w).
Proof. split; intros; by_ix. Qed.
Lemma frame_count_rx ix pkt w : frame w (count_rx ix pkt w).
Proof. split; intros; by_ix. Qed.
Lemma frame_count_drop ix w : frame w (count_drop ix w).
Proof. split; intros; by_ix. Qed.
Lemma frame_add_up ix f w : frame w (add_up ix f w).
Proof. split; intros; by_ix. Qed.

(** A packet taken from a queue is passed up, or dropped for want of memory. *)
Lemma wp_snull_rx l h ix pkt w (Q : unit → world → Prop) :
  inv n l h w → good_queued pkt →
  (∀ w', inv n l h w' → frame w w' → Q tt w') →
  wp C (snull_rx ix pkt) Q w.
Proof.
  intros Hi Hg HQ. unfold snull_rx. wp_step. wp_step. wp_step.
  - apply wp_modify. apply HQ; [eapply same_inv, Hi; apply same_count_drop|split; intros; by_ix].
  - wp_step. apply wp_packet_bytes; [done|]. wp_step. apply wp_modify. apply wp_modify.
    apply HQ; [|split; intros; by_ix].
    eapply same_inv; [apply same_add_up|]. eapply same_inv; [apply same_count_rx|done].
Qed.

(** The buffer in flight, not freed before, is freed once. *)
Lemma wp_tx_done l h ix w id (Q : unit → world → Prop) :
  inv n l h w → skb (privw ix w) = Some id → id ∉ freed w →
  (∀ w', inv n l h w' → (∀ i, status (privw i w') = status (privw i w)) →
    (∀ i, skb (privw i w') = skb (privw i w)) → freed w' = id :: freed w → Q tt w') →
  wp C (tx_done ix) Q w.
Proof.
  intros Hi Hs Hn HQ. unfold tx_done. do 2 (wp_step; apply wp_modify). wp_step. wp_step.
  match goal with |- wp _ (dev_kfree_skb ?s) _ _ =>
    assert (s = skb (privw ix w)) as -> by by_ix end.
  rewrite Hs. unfold dev_kfree_skb. wp_step. wp_step.
  rewrite bool_decide_false by done. apply wp_modify.
  apply HQ; [|intros; by_ix|intros; by_ix|by_ix].
  eapply same_inv, Hi. split; intros; by_ix.
Qed.

(** What an interrupt handler leaves: the status word cleared, and the buffer
    in flight freed when a transmission was over. *)
Definition tx_bit (s : Z) : bool := c_bool (Z.land s SNULL_TX_INTR).
Record served (ix : bool) (id : nat) (w w' : world) : Prop := {
  sv_status : ∀ i, status (privw i w') = if Bool.eqb i ix then 0 else status (privw i w);
  sv_skb : ∀ i, skb (privw i w') = skb (privw i w);
  sv_freed : freed w' = if tx_bit (status (privw ix w)) then id :: freed w else freed w
}.

(** The end of both handlers. *)
Lemma wp_tx_part l h ix w id s (Q : unit → world → Prop) :
  inv n l h w → (tx_bit s = true → skb (privw ix w) = Some id ∧ id ∉ freed w) →
  (∀ w', inv n l h w' → (∀ i, status (privw i w') = status (privw i w)) →
    (∀ i, skb (privw i w') = skb (privw i w)) →
    freed w' = (if tx_bit s then id :: freed w else freed w) → Q tt w') →
  wp C (if c_bool (Z.land s SNULL_TX_INTR) then tx_done ix else mret tt) Q w.
Proof.
  intros Hi Htx HQ. fold (tx_bit s). destruct (tx_bit s) eqn:E.
  - destruct Htx as [Hs Hn]; [done|]. by eapply wp_tx_done.
  - wp_step. by apply HQ.
Qed.

Lemma inv_loose_nil l h w : inv n l h w → inv n l h w.
Proof. done. Qed.

Lemma wp_regular_interrupt ix id w (Q : unit → world → Prop) :
  inv n [] None w →
  (tx_bit (status (privw ix w)) = true → skb (privw ix w) = Some id ∧ id ∉ freed w) →
  (∀ w', inv n [] None w' → served ix id w w' → Q tt w') →
  wp C (snull_regular_interrupt ix) Q w.
Proof.
  intros Hi Htx HQ. unfold snull_regular_interrupt.
  wp_step. apply wp_spin_lock; [by apply Hi|]. wp_step. wp_step. wp_step. apply wp_modify.
  assert (status (privw ix (updp ix (set_plock true) w)) = status (privw ix w)) as -> by by_ix.
  set (s := status (privw ix w)) in *.
  set (w1 := updp ix (set_status 0) (updp ix (set_plock true) w)).
  assert (inv n [] (Some ix) w1) as Hi1.
  { eapply same_inv; [|by apply inv_lock]. split; intros; by_ix. }
  assert (∀ i, status (privw i w1) = if Bool.eqb i ix then 0 else status (privw i w)) as Hst
    by (intros; by_ix).
  assert (∀ i, skb (privw i w1) = skb (privw i w)) as Hsk by (intros; by_ix).
  assert (freed w1 = freed w) as Hfr by done. clearbody w1.
  wp_step. apply (wp_mono _ _ (λ p w2, inv n (match p with Some pkt => [pkt] | None => [] end) (Some ix) w2 ∧
    frame w1 w2 ∧ match p with Some pkt => good_packet pkt | None => True end)).
  - wp_step; [|by wp_step]. wp_step. wp_step.
    destruct (rx_queue (privw ix w1)) as [|pkt rest] eqn:Hq; [by wp_step|].
    wp_step. apply wp_modify. wp_step.
    pose proof (inv_queue _ _ _ _ Hi1 ix) as Hg. rewrite Hq in Hg. apply Forall_cons in Hg as [Hg Hg'].
    apply (wp_snull_rx [pkt] (Some ix)); [|done|].
    { destruct pkt as [d len data]. inv_go; unfold of_dev in *; rewrite ?Hq in *; cbn in *; try done; try lia;
      destruct d; cbn in *; lia. }
    intros w2 Hi2 Hf2. wp_step. split_and!; [done| |apply Hg].
    etrans; [|exact Hf2]. split; intros; by_ix.
  - intros p w2 (Hi2 & [Hst2 Hsk2 Hfr2] & Hg). wp_step.
    eapply (wp_tx_part _ _ _ _ id s); [exact Hi2|by rewrite Hsk2, Hsk, Hfr2, Hfr|].
    intros w3 Hi3 Hst3 Hsk3 Hfr3. wp_step.
    apply wp_spin_unlock; [rewrite (inv_locks _ _ _ _ Hi3 ix); by rewrite bool_decide_true|].
    apply inv_unlock in Hi3. set (w4 := updp ix (set_plock false) w3) in *.
    assert (∀ i, status (privw i w4) = if Bool.eqb i ix then 0 else status (privw i w)) as Hst4.
    { intros i. rewrite <-Hst, <-Hst2, <-Hst3. unfold w4. by_ix. }
    assert (∀ i, skb (privw i w4) = skb (privw i w)) as Hsk4.
    { intros i. rewrite <-Hsk, <-Hsk2, <-Hsk3. unfold w4. by_ix. }
    assert (freed w4 = if tx_bit s then id :: freed w else freed w) as Hfr4.
    { change (freed w4) with (freed w3). by rewrite Hfr3, Hfr2, Hfr. }
    clearbody w4. destruct p as [pkt|]; [|wp_step; by apply HQ].
    apply (wp_release_buffer []); [done|done|]. intros w5 Hi5 [Hst5 Hsk5 Hfr5] _ _.
    apply HQ; [done|]. split; intros; rewrite ?Hst5, ?Hsk5, ?Hfr5; auto.
Qed.

Lemma wp_napi_interrupt ix id w (Q : unit → world → Prop) :
  inv n [] None w →
  (tx_bit (status (privw ix w)) = true → skb (privw ix w) = Some id ∧ id ∉ freed w) →
  (∀ w', inv n [] None w' → served ix id w w' → Q tt w') →
  wp C (snull_napi_interrupt ix) Q w.
Proof.
  intros Hi Htx HQ. unfold snull_napi_interrupt.
  wp_step. apply wp_spin_lock; [by apply Hi|]. wp_step. wp_step. wp_step. apply wp_modify.
  assert (status (privw ix (updp ix (set_plock true) w)) = status (privw ix w)) as -> by by_ix.
  set (s := status (privw ix w)) in *. wp_step.
  apply (wp_mono _ _ (λ _ w2, inv n [] (Some ix) w2 ∧
    (∀ i, status (privw i w2) = if Bool.eqb i ix then 0 else status (privw i w)) ∧
    (∀ i, skb (privw i w2) = skb (privw i w)) ∧ freed w2 = freed w)).
  - wp_step; [unfold snull_rx_ints; wp_step; apply wp_modify; apply wp_modify|wp_step];
      (split_and!; [|intros; by_ix|intros; by_ix|done]);
      (eapply same_inv; [|by apply inv_lock]); split; intros; by_ix.
  - intros _ w2 (Hi2 & Hst2 & Hsk2 & Hfr2). wp_step.
    eapply (wp_tx_part _ _ _ _ id s); [exact Hi2|by rewrite Hsk2, Hfr2|].
    intros w3 Hi3 Hst3 Hsk3 Hfr3.
    apply wp_spin_unlock; [rewrite (inv_locks _ _ _ _ Hi3 ix); by rewrite bool_decide_true|].
    apply HQ; [by apply inv_unlock|]. split.
    + intros i. rewrite <-Hst2, <-Hst3. by_ix.
    + intros i. rewrite <-Hsk2, <-Hsk3. by_ix.
    + change (freed w3 = if tx_bit s then id :: freed w else freed w). by rewrite Hfr3, Hfr2.
Qed.

(** Either handler. *)
Lemma wp_interrupt napi ix id w (Q : unit → world → Prop) :
  inv n [] None w →
  (tx_bit (status (privw ix w)) = true → skb (privw ix w) = Some id ∧ id ∉ freed w) →
  (∀ w', inv n [] None w' → served ix id w w' → Q tt w') →
  wp C (snull_interrupt napi ix) Q w.
Proof. destruct napi; [apply wp_napi_interrupt|apply wp_regular_interrupt]. Qed.
End packet_rules.

(** ** Transmission *)

Lemma length_rewrite csum buf : length (rewrite_headers csum buf) = length buf.
Proof.
  unfold rewrite_headers, set_check, flip_octets.
  by rewrite !length_insert, !length_alter.
Qed.

Lemma padded_length d :
  lenZ d <= ETH_DATA_LEN → ETH_HLEN + sizeof_iphdr <= lenZ (padded d) <= ETH_DATA_LEN.
Proof.
  unfold padded, ETH_HLEN, sizeof_iphdr, ETH_ZLEN, ETH_DATA_LEN. intros.
  case_match; zbool; [|lia]. rewrite length_app, length_replicate. lia.
Qed.

(** Between two entry points no lock is held, no packet is loose and, without
    simulated lockups, no interrupt is pending. *)
Definition net_inv (n : nat) (w : world) : Prop :=
  inv n [] None w ∧ ∀ i, status (privw i w) = 0.

Section transmit_rules.
Context (C : contract world) (n : nat) (ip_fast_csum : list Z → Z → Z) (use_napi : bool).

(** Raising an interrupt of [ix] and serving it at once. *)
Lemma wp_raise ix bit id w (Q : unit → world → Prop) :
  net_inv n w → (tx_bit bit = true → skb (privw ix w) = Some id ∧ id ∉ freed w) →
  (∀ w', net_inv n w' → (∀ i, skb (privw i w') = skb (privw i w)) →
    freed w' = (if tx_bit bit then id :: freed w else freed w) → Q tt w') →
  wp C (snull_interrupt use_napi ix) Q (updp ix (λ p, set_status (Z.lor (status p) bit) p) w).
Proof.
  intros [Hi Hst] Hb HQ. set (w1 := updp _ _ w).
  assert (∀ i, status (privw i w1) = if Bool.eqb i ix then bit else 0) as Hst1.
  { intros i. unfold w1. rewrite privw_updp. specialize (Hst i). destruct (Bool.eqb i ix); [|done].
    cbn. by rewrite Hst. }
  assert (∀ i, skb (privw i w1) = skb (privw i w)) as Hsk1.
  { intros i. unfold w1. rewrite privw_updp. by destruct (Bool.eqb i ix). }
  apply (wp_interrupt _ n use_napi ix id).
  - eapply same_inv, Hi. by apply same_updp.
  - rewrite Hst1, Bool.eqb_reflx, Hsk1. done.
  - intros w2 Hi2 [Hst2 Hsk2 Hfr2]. rewrite Hst1, Bool.eqb_reflx in Hfr2.
    apply HQ; [|intros i; by rewrite Hsk2|done]. split; [done|].
    intros i. rewrite Hst2, Hst1. by destruct (Bool.eqb i ix).
Qed.

Lemma wp_snull_hw_tx buf ix id w (Q : unit → world → Prop) :
  net_inv n w → stopped (snull_devs w ix) = false →
  ETH_HLEN + sizeof_iphdr <= lenZ buf <= ETH_DATA_LEN →
  skb (privw ix w) = Some id → id ∉ freed w →
  (∀ w', net_inv n w' → freed w' = id :: freed w → Q tt w') →
  wp C (snull_hw_tx ip_fast_csum use_napi 0 buf ix) Q w.
Proof.
  intros [Hi Hst] Hs Hl Hskb Hn HQ. unfold snull_hw_tx.
  rewrite (proj2 (Z.ltb_ge _ _)) by lia.
  wp_step. apply (wp_get_tx_buffer _ n [] ix); [done|done|]. intros pkt w1 Hi1 [Hst1 Hsk1 Hfr1] Hg Hd.
  unfold good_packet in Hg. wp_step. rewrite bool_decide_true by lia. wp_step. wp_step.
  apply (wp_enqueue_buf _ n []).
  { destruct pkt as [d len data], Hi1 as [? ? ? Hc]. split; try done.
    intros i. specialize (Hc i). cbn in *. by destruct (of_dev i _) in *. }
  { split; [unfold good_packet; cbn; by rewrite length_store|cbn; unfold ETH_HLEN, sizeof_iphdr in *; lia]. }
  intros w2 Hi2 [Hst2 Hsk2 Hfr2]. wp_step. wp_step. wp_step.
  assert (net_inv n w2) as Hw2 by (split; [done|intros i; by rewrite Hst2, Hst1]).
  apply (wp_mono _ _ (λ _ w3, net_inv n w3 ∧ skb (privw ix w3) = Some id ∧ freed w3 = freed w)).
  - wp_step; [|wp_step; split_and!; [done|by rewrite Hsk2, Hsk1|congruence]].
    wp_step. apply wp_modify. apply (wp_raise _ _ id); [done|done|].
    intros w3 Hw3 Hsk3 Hfr3. change (tx_bit _) with false in Hfr3. cbn in Hfr3.
    split_and!; [done|by rewrite Hsk3, Hsk2, Hsk1|congruence].
  - intros _ w3 (Hw3 & Hsk3 & Hfr3). do 2 (wp_step; apply wp_modify). wp_step. wp_step.
    cbn [c_bool negb Z.eqb andb]. destruct Hw3 as [Hi3 Hst3]. apply (wp_raise _ _ id).
    + split; [eapply same_inv, Hi3; by apply same_updp|].
      intros i. rewrite privw_updp. specialize (Hst3 i). by destruct (Bool.eqb i ix).
    + intros _. rewrite privw_updp, Bool.eqb_reflx. change (freed (updp _ _ w3)) with (freed w3).
      by rewrite Hfr3.
    + intros w4 Hw4 Hsk4 Hfr4. apply HQ; [done|]. change (tx_bit _) with true in Hfr4.
      change (freed (updp _ _ w3)) with (freed w3) in Hfr4. congruence.
Qed.

Lemma wp_snull_tx b ix w :
  net_inv n w → stopped (snull_devs w ix) = false →
  lenZ (skb_data b) <= ETH_DATA_LEN → skb_id b ∉ freed w →
  wp C (snull_tx ip_fast_csum use_napi 0 b ix)
    (λ r w', r = 0 ∧ net_inv n w' ∧ freed w' = skb_id b :: freed w) w.
Proof.
  intros [Hi Hst] Hs Hl Hn. unfold snull_tx. cbv zeta. wp_step. apply wp_modify. wp_step.
  apply (wp_snull_hw_tx _ ix (skb_id b)).
  - split; [eapply same_inv, Hi; by apply same_updp|].
    intros i. rewrite privw_updp. specialize (Hst i). by destruct (Bool.eqb i ix).
  - by rewrite stopped_updp.
  - by apply padded_length.
  - by rewrite privw_updp, Bool.eqb_reflx.
  - done.
  - intros w' Hw' Hf. by wp_step.
Qed.

(** ** Polling *)

(** What a poll does to the queue: the packets passed up are its first ones, in
    order, unless memory runs out; the loop stops at the quota or at the end. *)
Definition frame_of (p : snull_packet) : list cell := slice 0 (datalen p) (pkt_data p).
Definition plenty : Prop := ∀ m z, c_ans C (kmalloc m) z → z ≠ 0.

Record polled (ix : bool) (room k : Z) (w w' : world) : Prop := {
  po_range : 0 <= k <= Z.max 0 room;
  po_all : k < room → rx_queue (privw ix w') = [];
  po_up : plenty → rx_queue (privw ix w') = drop (Z.to_nat k) (rx_queue (privw ix w)) ∧
    up w' = up w ++ ((λ p, (ix, frame_of p)) <$> take (Z.to_nat k) (rx_queue (privw ix w)))
}.

Lemma wp_poll_loop fuel ix np quota_ w (Q : Z → world → Prop) :
  inv n [] None w → (length (rx_queue (privw ix w)) < fuel)%nat →
  (∀ k w', inv n [] None w' → frame w w' → polled ix (quota_ - np) k w w' → Q (np + k) w') →
  wp C (poll_loop fuel ix np quota_) Q w.
Proof.
  revert np w Q. induction fuel as [|fuel IH]; intros np w Q Hi Hf HQ; [lia|]. cbn [poll_loop].
  wp_step. wp_step. destruct (np <? quota_) eqn:E; zbool; cbn [andb].
  2: { wp_step. rewrite <-(Z.add_0_r np). apply HQ; [done|done|]. split; [lia|lia|].
       intros _. by rewrite app_nil_r. }
  destruct (rx_queue (privw ix w)) as [|pkt rest] eqn:Hq.
  { rewrite bool_decide_true by done. cbn [negb]. wp_step. rewrite <-(Z.add_0_r np).
    apply HQ; [done|done|]. split; [lia|done|]. intros _. by rewrite Hq, app_nil_r. }
  rewrite bool_decide_false by done. cbn [negb]. wp_step. wp_step.
  apply (wp_dequeue_buf _ n [] ix w pkt rest); [done|done|].
  intros w1 Hi1 Hf1 Hg Hq1 Hu1. eapply wp_deref; [done|]. wp_step. wp_step. wp_step.
  - wp_step. apply wp_modify. wp_step. apply (wp_release_buffer _ n []); [|apply Hg|].
    { eapply same_inv, Hi1. apply same_count_drop. }
    intros w2 Hi2 Hf2 Hq2 Hu2.
    assert (rx_queue (privw ix w2) = rest) as Hr by
      (by rewrite Hq2, (sp_queue _ _ (same_count_drop _ _))).
    apply IH; [done|rewrite Hr; cbn in Hf; lia|].
    intros k w3 Hi3 Hf3 [Hk1 Hk2 Hk3]. apply HQ; [done| |].
    { etrans; [exact Hf1|]. etrans; [|exact Hf3]. etrans; [|exact Hf2]. apply frame_count_drop. }
    split; [lia|done|]. intros Hpl. by destruct (Hpl _ _ H).
  - wp_step. apply wp_packet_bytes; [done|]. wp_step. apply wp_modify. wp_step. apply wp_modify.
    wp_step. apply (wp_release_buffer _ n []); [|apply Hg|].
    { eapply same_inv; [apply same_count_rx|]. by eapply same_inv; [apply same_add_up|]. }
    intros w2 Hi2 Hf2 Hq2 Hu2.
    assert (rx_queue (privw ix w2) = rest) as Hr by
      (by rewrite Hq2, (sp_queue _ _ (same_count_rx _ _ _)), (sp_queue _ _ (same_add_up _ _ _))).
    apply IH; [done|rewrite Hr; cbn in Hf; lia|].
    intros k w3 Hi3 Hf3 [Hk1 Hk2 Hk3]. rewrite <-Z.add_assoc. apply HQ; [done| |].
    { etrans; [exact Hf1|]. etrans; [|exact Hf3]. etrans; [|exact Hf2].
      etrans; [apply frame_add_up|apply frame_count_rx]. }
    split; [lia|intros; apply Hk2; lia|]. intros Hpl. destruct (Hk3 Hpl) as [H1 H2].
    rewrite H1, H2, Hr, Hq, Hu2. change (up (count_rx _ _ (add_up ?i ?f w1))) with (up w1 ++ [(i, f)]).
    rewrite Hu1. replace (Z.to_nat (1 + k)) with (S (Z.to_nat k)) by lia. cbn.
    by rewrite <-app_assoc.
Qed.

Lemma wp_snull_poll ix budget w (Q : Z * Z → world → Prop) :
  net_inv n w →
  (∀ k w' w2, net_inv n w2 → polled ix (Z.min (quota (snull_devs w ix)) budget) k w w' →
    frame w w' → rx_queue (privw ix w2) = rx_queue (privw ix w') → up w2 = up w' →
    (rx_queue (privw ix w') = [] → rx_int_enabled (privw ix w2) = 1 ∧ polling (snull_devs w2 ix) = false) →
    Q (if bool_decide (rx_queue (privw ix w') = []) then 0 else 1, budget - k) w2) →
  wp C (snull_poll ix budget) Q w.
Proof.
  intros [Hi Hst] HQ. unfold snull_poll. wp_step. wp_step. wp_step.
  apply wp_poll_loop; [done|unfold privw; lia|]. intros k w1 Hi1 Hf1 Hp1.
  rewrite Z.sub_0_r in Hp1. rewrite Z.add_0_l. wp_step. apply wp_modify.
  set (w2 := upd ix _ w1).
  assert (same_packets w1 w2) as Hs2 by (split; intros i; unfold w2, privw; by destruct i, ix).
  assert (∀ i, status (privw i w2) = 0) as Hst2.
  { intros i. rewrite <-(Hst i), <-(fr_status _ _ Hf1 i). unfold w2, privw. by destruct i, ix. }
  assert (inv n [] None w2) as Hi2 by by eapply same_inv.
  wp_step. wp_step. rewrite (sp_queue _ _ Hs2). case_bool_decide as Hq.
  - wp_step. apply wp_modify. wp_step. apply wp_modify. wp_step.
    specialize (HQ k w1). rewrite bool_decide_true in HQ by done. apply HQ; try done.
    + split.
      * eapply same_inv, Hi2. split; intros i; unfold updp, privw; by destruct i, ix.
      * intros i. rewrite <-(Hst2 i). unfold updp, privw. by destruct i, ix.
    + rewrite <-(sp_queue _ _ Hs2). unfold updp, privw. by destruct ix.
    + intros _. unfold updp, privw. by destruct ix.
  - wp_step. specialize (HQ k w1). rewrite bool_decide_false in HQ by done. apply HQ; try done.
    apply Hs2.
Qed.
End transmit_rules.

(** * The driver as a state machine *)

Inductive op :=
| Open (ix : bool) | Release (ix : bool) | Config (ix : bool) (map : ifmap)
| ChangeMtu (ix : bool) (mtu : Z) | GetStats (ix : bool)
| Tx (b : sk_buff) (ix : bool) | Poll (ix : bool) (budget : Z).

Section driver.
Context (ip_fast_csum : list Z → Z → Z) (use_napi : bool).

Definition handle (o : op) : K world Z :=
  match o with
  | Open ix => snull_open ix
  | Release ix => snull_release ix
  | Config ix map => snull_config ix map
  | ChangeMtu ix mtu => snull_change_mtu ix mtu
  | GetStats ix => kfmap rx_packets (snull_stats ix)
  | Tx b ix => snull_tx ip_fast_csum use_napi 0 b ix
  | Poll ix budget => kfmap fst (snull_poll ix budget)
  end.

(** The kernel hands a buffer of its own to a queue that is not stopped; the
    buffer fits the packets, and an interface is not brought up again while all
    its packets are in flight. *)
Definition allowed (w : world) (o : op) : Prop :=
  match o with
  | Open ix => ppool (privw ix w) ≠ []
  | Tx b ix => stopped (snull_devs w ix) = false ∧ skb_id b ∉ freed w ∧
      lenZ (skb_data b) <= ETH_DATA_LEN
  | _ => True
  end.

(** After [snull_init] of both. *)
Definition booted (n : nat) (w : world) : Prop :=
  (0 < n)%nat ∧ ∀ ix, length (ppool (privw ix w)) = n ∧
    Forall (λ p, pkt_dev p = ix ∧ good_packet p) (ppool (privw ix w)) ∧
    rx_queue (privw ix w) = [] ∧ status (privw ix w) = 0 ∧ plock (privw ix w) = false.

Lemma booted_inv n w : booted n w → net_inv n w.
Proof.
  intros [Hn H]. split; [|intros i; by apply H].
  split; intros i; destruct (H i) as (Hl & Hg & Hq & Hs & Hp).
  - eapply Forall_impl; [exact Hg|]. by intros ? [].
  - eapply Forall_impl; [exact Hg|]. by intros ? [].
  - by rewrite Hq.
  - unfold in_flight. destruct (H false) as (_ & _ & -> & _). destruct (H true) as (_ & _ & -> & _).
    cbn. lia.
  - done.
  - intros He. rewrite He in Hl. cbn in Hl. lia.
Qed.

Definition napi_contract : contract world := Contract doc_ans alone False.

Lemma net_wp_handle n w o :
  net_inv n w → allowed w o → wp napi_contract (handle o) (λ _, net_inv n) w.
Proof.
  intros Hw Ha. destruct Hw as [Hi Hst]. destruct o as [ix|ix|ix map|ix mtu|ix|b ix|ix budget]; cbn [handle].
  - unfold snull_open. do 2 (wp_step; apply wp_modify). wp_step. cbn in Ha. split.
    + apply inv_set_stopped; [|by rewrite privw_upd].
      eapply same_inv, Hi. by apply same_upd.
    + intros i. by rewrite !privw_upd.
  - unfold snull_release, netif_stop_queue. wp_step. apply wp_modify. wp_step.
    split; [by apply inv_set_stopped|]. intros i. by rewrite !privw_upd.
  - unfold snull_config. wp_step. wp_step. wp_step; [by wp_step|]. wp_step; [by wp_step|].
    wp_step. wp_step; [apply wp_modify|wp_step]; wp_step; [|done]. split.
    + eapply same_inv, Hi. by apply same_upd.
    + intros i. by rewrite !privw_upd.
  - unfold snull_change_mtu. wp_step; [by wp_step|]. wp_step. apply wp_spin_lock; [by apply Hi|].
    wp_step. apply wp_modify. wp_step. apply wp_spin_unlock.
    { by rewrite privw_upd, privw_updp, Bool.eqb_reflx. }
    wp_step. split.
    + apply inv_unlock. eapply same_inv; [by apply same_upd|]. by apply inv_lock.
    + intros i. rewrite privw_updp, privw_upd, privw_updp by done. specialize (Hst i).
      by destruct (Bool.eqb i ix).
  - apply wp_kfmap. by apply wp_gets.
  - destruct Ha as (Hs & Hn & Hl). eapply wp_mono; [by eapply wp_snull_tx|]. by intros ? ? (_ & ? & _).
  - apply wp_kfmap. eapply wp_snull_poll; [done|]. done.
Qed.
End driver.

(** C35: for frames of at most 1500 bytes, each handed over once and only to a
    queue that is not stopped, where an interface is brought up only with packets
    left in its pool and the watchdog does not run: whatever sequence of
    transmissions, polls, opens, releases and configurations the kernel asks for
    (with or without the polling interface), the driver never faults nor sleeps with
    a lock held, and no packet of a pool is lost or duplicated: those of an
    interface are in its pool or in flight to its twin. (What is left out faults: a
    full frame of the default MTU, 1514 bytes, overruns its packet,
    [snull_tx_overruns]; see also [snull_reopen_oops], [snull_timeout_double_free].) *)
Theorem snull_faultless csum use_napi n :
  faultless (handle csum use_napi) allowed napi_contract (booted n) ∧
  ∀ w, reachable (handle csum use_napi) allowed napi_contract (booted n) w →
    ∀ ix, (length (ppool (privw ix w)) + in_flight ix w)%nat = n ∧ plock (privw ix w) = false.
Proof.
  assert (inductive_inv (handle csum use_napi) allowed napi_contract (booted n) (net_inv n)) as Hinv.
  { split_and!; [apply booted_inv|apply net_wp_handle|]. by intros w ? Hw ->. }
  split; [by eapply inv_faultless|]. intros w Hr ix.
  destruct (reachable_inv _ _ _ _ _ _ Hinv Hr) as [Hi _].
  pose proof (inv_count _ _ _ _ Hi ix) as Hc. split; [cbn in Hc; lia|apply (inv_locks _ _ _ _ Hi)].
Qed.

(** ** What each part does *)

(** The bytes of a padded frame, as the twin receives it. *)
Definition received (csum : list Z → Z → Z) (b : sk_buff) : list cell :=
  Some <$> rewrite_headers csum (padded (skb_data b)).

#[local] Arguments u64 _ : simpl never.
#[local] Arguments store _ _ _ : simpl never.
#[local] Arguments slice _ _ _ : simpl never.
#[local] Arguments rewrite_headers _ _ : simpl never.
#[local] Arguments padded _ : simpl never.

(** Running the driver on a known pair of interfaces: conditions that compute
    are computed, services of a quiet kernel succeed. *)
Ltac by_branch :=
  lazymatch goal with
  | |- wp _ (if ?b then _ else _) _ _ =>
      first [change b with true | change b with false | destruct b eqn:?; zbool]; cbn iota
  | |- wp _ (oops _) _ _ => exfalso
  | _ => wp_step
  end.
Ltac ev E0 E1 :=
  repeat (first [by_branch |
    progress unfold snull_get_tx_buffer, spin_lock, spin_unlock, netif_stop_queue, netif_wake_queue,
      snull_enqueue_buf, snull_interrupt, snull_regular_interrupt, snull_rx, tx_done, dev_kfree_skb,
      snull_release_buffer, packet_bytes, privw];
    cbn; rewrite ?E0, ?E1; cbn; try match goal with H : c_ans (quiet _) (kmalloc _) ?z, E : ?z = 0 |- _ =>
      exfalso; by destruct H end).

Section delivery.
Context (csum : list Z → Z → Z) (ix : bool) (b : sk_buff) (n : nat) (w : world).

Lemma slice_sent (data : list Z) (dt : list cell) :
  lenZ data <= lenZ dt →
  slice 0 (lenZ data) (store 0 (Some <$> rewrite_headers csum data) dt) =
  Some <$> rewrite_headers csum data.
Proof.
  intros Hl. rewrite <-(length_rewrite csum data) at 1.
  rewrite <-(length_fmap Some (rewrite_headers csum data)) at 1.
  apply slice_store; rewrite ?length_fmap, ?length_rewrite; lia.
Qed.

(** The branches not taken, and the copy read back. *)
Ltac finish_delivery :=
  unfold good_packet in *; cbn in *; unfold ETH_HLEN, sizeof_iphdr in *;
  repeat match goal with
    | H : bool_decide _ = false |- _ => apply bool_decide_eq_false in H
    | H : bool_decide _ = true |- _ => apply bool_decide_eq_true in H
    | H : c_bool ?x = false |- _ => destruct (Z.eqb_spec x 0); [done|unfold c_bool in H; zbool]
    end;
  try done;
  first [split_and!; try done; by rewrite slice_sent by lia
        | rewrite ?length_store in *; lia].

Theorem snull_delivers :
  net_inv n w → stopped (snull_devs w ix) = false → rx_queue (privw (negb ix) w) = [] →
  rx_int_enabled (privw (negb ix) w) ≠ 0 → lenZ (skb_data b) <= ETH_DATA_LEN →
  skb_id b ∉ freed w →
  wp (quiet world) (snull_tx csum false 0 b ix) (λ r w', r = 0 ∧
    up w' = up w ++ [(negb ix, received csum b)] ∧
    freed w' = skb_id b :: freed w ∧
    length (ppool (privw ix w')) = length (ppool (privw ix w)) ∧
    rx_queue (privw (negb ix) w') = [] ∧ stopped (snull_devs w' ix) = false ∧
    rx_packets (stats_ (privw (negb ix) w')) = u64 (rx_packets (stats_ (privw (negb ix) w)) + 1) ∧
    tx_packets (stats_ (privw ix w')) = u64 (tx_packets (stats_ (privw ix w)) + 1)) w.
Proof.
  intros [Hi Hst] Hs Hq He Hl Hn.
  assert (∀ i, plock (privw i w) = false) as Hk by apply Hi.
  pose proof (inv_stopped _ _ _ _ Hi ix) as Hpool.
  pose proof (inv_pool _ _ _ _ Hi ix) as Hg. pose proof (inv_own _ _ _ _ Hi ix) as Ho.
  rewrite Hs in Hpool. clear Hi.
  unfold snull_tx. cbv zeta. pose proof (padded_length _ Hl) as Hp. unfold received.
  set (data := padded _) in *. clearbody data. unfold snull_hw_tx.
  rewrite (proj2 (Z.ltb_ge _ _)) by lia.
  destruct w as [devs u f]. unfold privw in *. cbn in *.
  pose proof (Hk false) as Hk0. pose proof (Hk true) as Hk1. clear Hk.
  pose proof (Hst false) as Hst0. pose proof (Hst true) as Hst1. clear Hst.
  destruct (devs false) as [[s0 status0 pool0 q0 ints0 tpl0 skb0 l0] a0 f0 ba0 irq0 mtu0 quota0 stop0 poll0] eqn:E0.
  destruct (devs true) as [[s1 status1 pool1 q1 ints1 tpl1 skb1 l1] a1 f1 ba1 irq1 mtu1 quota1 stop1 poll1] eqn:E1.
  destruct ix; cbn in *; rewrite ?E0, ?E1 in *; cbn in *; simplify_eq.
  - destruct pool1 as [|[d len dt] rest]; [by specialize (Hpool eq_refl)|].
    apply Forall_cons in Ho as [Ho _], Hg as [Hg _]. cbn in Ho. subst d.
    ev E0 E1. all: finish_delivery.
  - destruct pool0 as [|[d len dt] rest]; [by specialize (Hpool eq_refl)|].
    apply Forall_cons in Ho as [Ho _], Hg as [Hg _]. cbn in Ho. subst d.
    ev E0 E1. all: finish_delivery.
Qed.
End delivery.

(** C36: With the interrupt-driven interface, memory for the buffers, no simulated
    lockup, both queues running and nothing waiting at the other side with its
    receive interrupt on: a frame of at most 1500 bytes given to one interface
    reaches the upper layers of the other, padded to 60 bytes and with the headers
    rewritten; the buffer is freed once, the packet is back in its pool and the
    queue still runs; both sets of counters advance. (A full frame of the default
    MTU has 1514 bytes and overruns the packet, [snull_tx_overruns].) *)
Theorem snull_tx_delivers csum ix b n w :
  net_inv n w → stopped (snull_devs w ix) = false → rx_queue (privw (negb ix) w) = [] →
  rx_int_enabled (privw (negb ix) w) ≠ 0 → lenZ (skb_data b) <= ETH_DATA_LEN →
  skb_id b ∉ freed w →
  ∃ w', run quiet_oracle (snull_tx csum false 0 b ix) w = Done (0, w') ∧
    up w' = up w ++ [(negb ix, received csum b)] ∧
    freed w' = skb_id b :: freed w ∧
    length (ppool (privw ix w')) = length (ppool (privw ix w)) ∧
    rx_queue (privw (negb ix) w') = [] ∧ stopped (snull_devs w' ix) = false ∧
    rx_packets (stats_ (privw (negb ix) w')) = u64 (rx_packets (stats_ (privw (negb ix) w)) + 1) ∧
    tx_packets (stats_ (privw ix w')) = u64 (tx_packets (stats_ (privw ix w)) + 1).
Proof.
  intros Hw Hs Hq He Hl Hn.
  destruct (wp_total _ _ _ _ quiet_oracle (snull_delivers csum ix b n w Hw Hs Hq He Hl Hn)
    quiet_obeys (λ H, H)) as (r & w' & E & -> & H). eauto.
Qed.

(** One call of [snull_poll] passes up, in the order of the queue, as many
    packets as the quota and the budget allow, accounts for them in the budget
    and, once the queue is empty, leaves the poll list and turns reception
    interrupts on again, answering 0; otherwise it answers 1. *)
Theorem snull_poll_serves ix budget n w :
  net_inv n w →
  let room := Z.min (quota (snull_devs w ix)) budget in
  let q := rx_queue (privw ix w) in
  0 <= room →
  ∃ k w', run quiet_oracle (snull_poll ix budget) w =
      Done ((if bool_decide (drop k q = []) then 0 else 1, budget - Z.of_nat k), w') ∧
    net_inv n w' ∧ Z.of_nat k <= room ∧ (Z.of_nat k < room → drop k q = []) ∧
    up w' = up w ++ ((λ p, (ix, frame_of p)) <$> take k q) ∧
    rx_queue (privw ix w') = drop k q ∧
    (drop k q = [] → rx_int_enabled (privw ix w') = 1 ∧ polling (snull_devs w' ix) = false).
Proof.
  intros Hw room q Hroom.
  destruct (wp_total (quiet world) (snull_poll ix budget) (λ r w2, ∃ k,
      r = (if bool_decide (drop k q = []) then 0 else 1, budget - Z.of_nat k) ∧
      net_inv n w2 ∧ Z.of_nat k <= room ∧ (Z.of_nat k < room → drop k q = []) ∧
      up w2 = up w ++ ((λ p, (ix, frame_of p)) <$> take k q) ∧ rx_queue (privw ix w2) = drop k q ∧
      (drop k q = [] → rx_int_enabled (privw ix w2) = 1 ∧ polling (snull_devs w2 ix) = false))
    w quiet_oracle) as (r & w2 & E & k & -> & H); [|apply quiet_obeys|exact (λ H, H)|by exists k, w2].
  eapply wp_snull_poll; [done|]. intros k w1 w2 Hw2 [Hk1 Hk2 Hk3] _ Hq2 Hu2 Hi2.
  destruct (Hk3 ltac:(by intros ? ? [_ ?])) as [Hd Hu]. fold q in Hd, Hu.
  exists (Z.to_nat k). rewrite <-Hd. rewrite Z2Nat.id by lia.
  rewrite Hu2, Hq2, Hu. split_and!; auto; subst room; lia.
Qed.

Lemma flip_octets_involutive buf : flip_octets (flip_octets buf) = buf.
Proof.
  apply list_eq. intros i. unfold flip_octets, ip_daddr, ip_saddr. cbn [Nat.add].
  destruct (decide (i = 28%nat)) as [->|]; [|destruct (decide (i = 32%nat)) as [->|]].
  - rewrite list_lookup_alter_ne, list_lookup_alter_eq, list_lookup_alter_ne, list_lookup_alter_eq by lia.
    destruct (buf !! 28%nat); [|done]. cbn [fmap option_fmap option_map]. by rewrite Z.lxor_assoc, Z.lxor_nilpotent, Z.lxor_0_r.
  - rewrite list_lookup_alter_eq, list_lookup_alter_ne, list_lookup_alter_eq, list_lookup_alter_ne by lia.
    destruct (buf !! 32%nat); [|done]. cbn [fmap option_fmap option_map]. by rewrite Z.lxor_assoc, Z.lxor_nilpotent, Z.lxor_0_r.
  - by rewrite !list_lookup_alter_ne by lia.
Qed.

(** Rewriting a frame flips the low bit of the third octet of both IP
    addresses, recomputes the checksum over the header with the checksum field
    zeroed, and changes nothing else; doing it on the twin's side restores the
    addresses. *)
Theorem rewrite_headers_spec csum buf :
  ETH_HLEN + sizeof_iphdr <= lenZ buf →
  length (rewrite_headers csum buf) = length buf ∧
  (∀ i, i ∉ [24; 25; 28; 32]%nat → rewrite_headers csum buf !! i = buf !! i) ∧
  (∀ i, i ∈ [28; 32]%nat → rewrite_headers csum buf !! i = (λ b, Z.lxor b 1) <$> buf !! i) ∧
  let c := csum (drop 14 (set_check 0 (flip_octets buf))) (Z.land (nth 14 buf 0) 15) in
  rewrite_headers csum buf !! 24%nat = Some (u8 c) ∧
  rewrite_headers csum buf !! 25%nat = Some (u8 (Z.shiftr c 8)) ∧
  flip_octets (flip_octets buf) = buf.
Proof.
  unfold ETH_HLEN, sizeof_iphdr. intros Hl. split; [apply length_rewrite|].
  assert (∀ c d, length (set_check c d) = length d) as Hlc
    by (intros; unfold set_check; by rewrite !length_insert).
  assert (length (flip_octets buf) = length buf) as Hlf
    by (unfold flip_octets; by rewrite !length_alter).
  assert (nth 14 (set_check 0 (flip_octets buf)) 0 = nth 14 buf 0) as Hn.
  { rewrite !nth_lookup. f_equal. unfold set_check, flip_octets, ip_check, ip_saddr, ip_daddr.
    rewrite !list_lookup_insert_ne by lia. by rewrite !list_lookup_alter_ne by lia. }
  unfold rewrite_headers, ip_start. rewrite Hn. cbv zeta.
  set (c := csum _ _). split_and!.
  - intros i Hi. rewrite !not_elem_of_cons in Hi. destruct Hi as (? & ? & ? & ? & _).
    unfold set_check, flip_octets, ip_check, ip_saddr, ip_daddr.
    rewrite !list_lookup_insert_ne by lia. by rewrite !list_lookup_alter_ne by lia.
  - intros i Hi. unfold set_check, flip_octets, ip_check, ip_saddr, ip_daddr. cbn [Nat.add].
    rewrite !elem_of_cons, elem_of_nil in Hi. rewrite !list_lookup_insert_ne by lia.
    destruct Hi as [->|[->|[]]].
    + by rewrite list_lookup_alter_ne, list_lookup_alter_eq by lia.
    + by rewrite list_lookup_alter_eq, list_lookup_alter_ne by lia.
  - unfold set_check at 1. unfold ip_check. rewrite list_lookup_insert_ne by lia.
    rewrite list_lookup_insert_eq; [done|]. rewrite Hlc, Hlf. lia.
  - unfold set_check at 1. unfold ip_check. rewrite list_lookup_insert_eq; [done|].
    rewrite length_insert, Hlc, Hlf. lia.
  - apply flip_octets_involutive.
Qed.

(** ** Initialisation *)

Lemma wp_setup_pool m ix w (Q : unit → world → Prop) :
  (∀ w', (∀ i, privw i w' = if Bool.eqb i ix
            then set_ppool (replicate m (Packet ix 0 (uninit ETH_DATA_LEN)) ++ ppool (privw i w)) (privw i w)
            else privw i w) → Q tt w') →
  wp (quiet world) (setup_pool m ix) Q w.
Proof.
  revert w. induction m as [|m IH]; intros w HQ; cbn [setup_pool].
  - wp_step. apply HQ. intros i. destruct (Bool.eqb i ix); [|done]. by destruct (privw i w).
  - wp_step. wp_step. wp_step; [by destruct H|]. wp_step. apply wp_modify. apply IH.
    intros w' Hw'. apply HQ. intros i. rewrite Hw', privw_updp.
    destruct (Bool.eqb i ix); [|done]. cbn -[replicate uninit].
    unfold set_ppool. cbn -[replicate uninit]. f_equal.
    rewrite replicate_S_end. by rewrite <-app_assoc.
Qed.

(** The private area [snull_init] leaves. *)
Definition full_priv (m : Z) (ix : bool) : snull_priv :=
  set_ppool (replicate (Z.to_nat m) (Packet ix 0 (uninit ETH_DATA_LEN)))
    (set_rx_int_enabled 1 zero_priv).

Lemma wp_snull_init ether_setup m ix w (Q : unit → world → Prop) :
  (∀ w', privw ix w' = full_priv m ix → privw (negb ix) w' = privw (negb ix) w → Q tt w') →
  wp (quiet world) (snull_init ether_setup m ix) Q w.
Proof.
  intros HQ. unfold snull_init, snull_rx_ints, snull_setup_pool.
  do 5 (wp_step; apply wp_modify). apply wp_setup_pool. intros w' Hw'. apply HQ.
  - rewrite Hw', Bool.eqb_reflx, !privw_updp, !Bool.eqb_reflx. unfold full_priv, set_ppool.
    cbn -[replicate uninit Z.to_nat]. by rewrite app_nil_r.
  - rewrite Hw', !privw_updp. by destruct ix.
Qed.

Lemma full_priv_good m ix :
  length (ppool (full_priv m ix)) = Z.to_nat m ∧
  Forall (λ p, pkt_dev p = ix ∧ good_packet p) (ppool (full_priv m ix)).
Proof.
  unfold full_priv. cbn -[replicate uninit]. split; [by rewrite length_replicate|].
  apply Forall_replicate. split; [done|]. unfold good_packet. cbn [pkt_data].
  by rewrite length_uninit.
Qed.

(** A kernel with memory boots the driver: both pools full, nothing pending. *)
Lemma snull_init_boots ether_setup m w :
  0 < m →
  wp (quiet world) (snull_init ether_setup m false;; snull_init ether_setup m true)
    (λ _, booted (Z.to_nat m)) w.
Proof.
  intros Hm. wp_step. apply wp_snull_init. intros w1 H1 _. apply wp_snull_init. intros w2 H2 H3.
  cbn [negb] in H3. rewrite H1 in H3. split; [lia|].
  intros ix. destruct ix; rewrite ?H2, ?H3;
    destruct (full_priv_good m false), (full_priv_good m true); done.
Qed.

(** * What goes wrong outside those bounds *)

(** Two interfaces with [m] packets each, both up. *)
Definition net_up (m : Z) : world :=
  World (λ ix, NetDevice (full_priv m ix) (snull_address ix) 0 0 0 1500 64 false false) [] [].

Lemma net_up_booted m : 0 < m → booted (Z.to_nat m) (net_up m).
Proof.
  intros Hm. split; [lia|]. intros ix. unfold privw. cbn [net_up snull_devs priv].
  by destruct (full_priv_good m ix).
Qed.

(** The packets hold 1500 bytes but a frame of the default MTU is 1514
    bytes long with its header: transmitting it overruns the packet. *)
Theorem snull_tx_overruns csum :
  run quiet_oracle (snull_tx csum false 0 (SkBuff 0 (replicate 1514 0)) false) (net_up 8) =
  Oops OutOfBounds.
Proof. vm_compute. reflexivity. Qed.

(** The watchdog frees a buffer twice: when a simulated lockup was cut
    short by a packet of the twin, whose interrupt already freed the buffer,
    and when the queue had been stopped for want of packets, the buffer of the
    last of them being freed long before. *)
Theorem snull_timeout_double_free csum :
  run quiet_oracle (snull_tx csum false 1 (SkBuff 0 []) false;;
    snull_tx csum false 1 (SkBuff 1 []) true;; snull_tx_timeout false false) (net_up 8) =
  Oops DoubleFree ∧
  run quiet_oracle (snull_tx csum true 0 (SkBuff 0 []) false;; snull_tx_timeout true false)
    (net_up 1) = Oops DoubleFree.
Proof. split; vm_compute; reflexivity. Qed.

(** Bringing the interface up again starts a queue that was stopped because the
    pool was empty; the next frame then dereferences the empty pool. *)
Lemma snull_reopen_oops csum :
  run quiet_oracle (snull_tx csum true 0 (SkBuff 0 []) false;; snull_release false;;
    snull_open false;; snull_tx csum true 0 (SkBuff 1 []) false) (net_up 1) =
  Oops NullDeref.
Proof. vm_compute. reflexivity. Qed.

(** ** Witnesses *)

Lemma net_up_inv m : 0 < m → net_inv (Z.to_nat m) (net_up m).
Proof. intros. by apply booted_inv, net_up_booted. Qed.

Definition no_csum (_ : list Z) (_ : Z) : Z := 0.

Lemma snull_tx_delivers_witness :
  ∃ w', run quiet_oracle (snull_tx no_csum false 0 (SkBuff 0 [1; 2; 3]) false) (net_up 8) =
      Done (0, w') ∧ up w' = [(true, received no_csum (SkBuff 0 [1; 2; 3]))].
Proof.
  destruct (snull_tx_delivers no_csum false (SkBuff 0 [1; 2; 3]) 8 (net_up 8))
    as (w' & E & H & _); [by apply (net_up_inv 8)|done|done|done|done|apply not_elem_of_nil|].
  by exists w'.
Defined.

(** A world with three packets of the twin waiting. *)
Definition net_waiting : world :=
  World (λ ix, NetDevice (if ix then full_priv 3 true else
      set_ppool [] (set_rx_queue (replicate 3 (Packet false 60 (uninit ETH_DATA_LEN)))
        (full_priv 3 false)))
    (snull_address ix) 0 0 0 1500 2 (negb ix) true) [] [].

Lemma net_waiting_inv : net_inv 3 net_waiting.
Proof.
  split; [|by intros []]. split; intros []; cbn -[uninit replicate]; try done;
    repeat constructor; unfold good_packet; cbn -[uninit];
    try (by rewrite length_uninit); try done.
Qed.

Lemma snull_poll_serves_witness :
  ∃ k w', run quiet_oracle (snull_poll false 64) net_waiting = Done ((1, 64 - Z.of_nat k), w') ∧
    Z.of_nat k <= 2.
Proof.
  destruct (snull_poll_serves false 64 3 net_waiting net_waiting_inv ltac:(done))
    as (k & w' & E & _ & Hk & _ & _ & _ & _).
  change (Z.min _ _) with 2 in Hk. exists k, w'. split; [|done]. rewrite E.
  rewrite bool_decide_false; [done|].
  intros Hd. apply (f_equal length) in Hd. rewrite length_drop in Hd. cbn in Hd. lia.
Defined.

Lemma rewrite_headers_spec_witness :
  let buf := replicate 34 0 in
  ETH_HLEN + sizeof_iphdr <= lenZ buf ∧ rewrite_headers no_csum buf !! 28%nat = Some 1.
Proof.
  split; [done|].
  destruct (rewrite_headers_spec no_csum (replicate 34 0) ltac:(done)) as (_ & _ & H & _).
  by rewrite (H 28%nat) by (apply list_elem_of_here).
Defined.

(** The headers an interface builds carry the address of its twin, whether
    built at once or completed later. *)
Lemma snull_header_twin ix type eth :
  snull_header (snull_address ix) type None None =
    (ETH_HLEN, Ethhdr (snull_address (negb ix)) (snull_address ix) (htons type)) ∧
  snull_rebuild_header (snull_address ix) eth =
    (0, Ethhdr (snull_address (negb ix)) (snull_address ix) (h_proto eth)).
Proof. destruct ix; split; reflexivity. Qed.

(** Only an interface that is down can be reconfigured, and only its irq. *)
Lemma snull_config_spec ix map w :
  run quiet_oracle (snull_config ix map) w = Done
    (let d := snull_devs w ix in
     if c_bool (Z.land (flags d) IFF_UP) then (- EBUSY, w) else
     if negb (map_base_addr map =? base_addr d) then (- EOPNOTSUPP, w) else
     (0, if negb (map_irq map =? irq d) then upd ix (set_irq (map_irq map)) w else w)).
Proof.
  cbv [run snull_config mbind K_bind gets get mret K_ret].
  destruct (c_bool _); [done|]. destruct (negb (_ =? base_addr _)); [done|]. by destruct (negb _).
Qed.
