(* ===== verification/SnullModule.v ===== *)
(** * snull: loading and unloading (src/ldd4/snull/snull.c)

    The two network devices, allocated and initialised by [Snull.snull_init],
    their registration, and the packets their pools give back. *)

From stdpp Require Import base tactics numbers list strings.
From S2P Require Import Prelude KMonad Registry Snull.
From Stdlib Require Import ZArith Lia.

Open Scope Z_scope.

(** ** Data *)

(** [present ix]: [snull_devs[ix]] is not NULL. [kfreed] counts the packets
    that were freed. *)
Record snull_mod := SnullMod {
  net : world;
  present : bool → bool;
  kfreed : nat;
  nets : registry
}.

Definition set_net (v : world) (x : snull_mod) : snull_mod :=
  SnullMod v (present x) (kfreed x) (nets x).
Definition set_present (ix b : bool) (x : snull_mod) : snull_mod :=
  SnullMod (net x) (λ i, if Bool.eqb i ix then b else present x i) (kfreed x) (nets x).
Definition add_kfreed (n : nat) (x : snull_mod) : snull_mod :=
  SnullMod (net x) (present x) (n + kfreed x) (nets x).
Definition set_nets (v : registry) (x : snull_mod) : snull_mod :=
  SnullMod (net x) (present x) (kfreed x) v.

#[export] Instance snull_mod_registry : HasRegistry snull_mod :=
  { registry_of := nets; set_registry := set_nets; registry_set g s := eq_refl }.

Definition netdev (ix : bool) : resource := Res "netdev" (Z.b2z ix).
Definition registered (ix : bool) : resource := Res "registered netdev" (Z.b2z ix).

(** The services, by device. *)
Definition ALLOC (ix : bool) : string := if ix then "alloc_netdev(1)" else "alloc_netdev(0)".
Definition REGISTER (ix : bool) : string := if ix then "register_netdev(1)" else "register_netdev(0)".

(** ** The module *)

Definition cleanup_dev (ix : bool) : K snull_mod unit :=
  a ← gets (λ s, present s ix);
  if a : bool then
    give_back (registered ix);;
    n ← zoom net set_net (snull_teardown_pool ix);
    modify (add_kfreed n);;
    give_back (netdev ix)
  else mret tt.

Definition snull_cleanup : K snull_mod unit := cleanup_dev false;; cleanup_dev true.

(** The body of the loop that registers: [ret] becomes 0 when one succeeds. *)
Definition register_dev (ix : bool) (ret : Z) : K snull_mod Z :=
  result ← acquire (REGISTER ix) (registered ix);
  mret (if c_bool result then ret else 0).

Section init_module.
Context (ether_setup : net_device → net_device) (pool_size : Z).

(** [alloc_netdev(sizeof(struct snull_priv), "sn%d", snull_init)] *)
Definition alloc_dev (ix : bool) : K snull_mod unit :=
  z ← acquire_ptr (ALLOC ix) (netdev ix);
  if z =? 0 then modify (set_present ix false)
  else
    modify (set_present ix true);;
    zoom net set_net (snull_init ether_setup pool_size ix).

Definition snull_init_module : K snull_mod Z :=
  alloc_dev false;;
  alloc_dev true;;
  a ← gets present;
  if negb (a false) || negb (a true) then snull_cleanup;; mret (- ENOMEM) else
  ret ← register_dev false (- ENODEV);
  ret ← register_dev true ret;
  if c_bool ret then snull_cleanup;; mret ret else mret ret.
End init_module.

(** ** Specification *)

(** Memory as documented; [alloc_ok] and [reg_ok] say which devices are
    allocated and registered. While the module is loaded its interfaces are
    used, and nothing else happens to it. *)
Record snull_contract (C : contract snull_mod) (n : nat) (alloc_ok reg_ok : bool → bool) : Prop := {
  sn_ans : ∀ c z, c_ans C c z → good_ans c z;
  sn_alloc : ∀ ix z, c_ans C (kint (ALLOC ix)) z → (z =? 0) = negb (alloc_ok ix);
  sn_reg : ∀ ix z, c_ans C (kint (REGISTER ix)) z → (z =? 0) = reg_ok ix;
  sn_used : ∀ s s', c_rely C s s' → net_inv n (net s) →
    net_inv n (net s') ∧ (∀ ix, present s' ix = present s ix) ∧
    kfreed s' = kfreed s ∧ nets s' = nets s
}.

(** The result of the load. *)
Definition load_result (alloc_ok reg_ok : bool → bool) : Z :=
  if alloc_ok false && alloc_ok true
  then if reg_ok false || reg_ok true then 0 else - ENODEV
  else - ENOMEM.

(** The devices that are unregistered though they never were registered. *)
Definition never_registered (alloc_ok reg_ok : bool → bool) (ix : bool) : bool :=
  alloc_ok ix && negb (alloc_ok false && alloc_ok true && reg_ok ix).
Definition complaints (alloc_ok reg_ok : bool → bool) : list resource :=
  registered <$> filter (λ ix, never_registered alloc_ok reg_ok ix) [true; false].

(** What a device is after its cleanup. *)
Definition cleaned (ix : bool) (s : snull_mod) : snull_mod :=
  SnullMod (updp ix (set_ppool []) (net s)) (present s)
    (length (ppool (privw ix (net s))) + kfreed s)
    (reg_del (netdev ix) (reg_del (registered ix) (nets s))).

Lemma wp_cleanup_dev C ix s (Q : unit → snull_mod → Prop) :
  Q tt (if present s ix then cleaned ix s else s) → wp C (cleanup_dev ix) Q s.
Proof.
  intros HQ. unfold cleanup_dev, snull_teardown_pool. wp_step. wp_step.
  destruct (present s ix); [|by wp_step]. wp_step. apply wp_give_back. wp_step. apply wp_zoom. repeat wp_step. by apply wp_give_back.
Qed.

Lemma wp_snull_cleanup C s (Q : unit → snull_mod → Prop) :
  Q tt (let s1 := if present s false then cleaned false s else s in
        if present s true then cleaned true s1 else s1) →
  wp C snull_cleanup Q s.
Proof.
  intros HQ. unfold snull_cleanup. wp_step. apply wp_cleanup_dev, wp_cleanup_dev.
  by destruct (present s false) eqn:E.
Qed.

Section rules.
Context (C : contract snull_mod) (n : nat) (alloc_ok reg_ok : bool → bool).
Context (HC : snull_contract C n alloc_ok reg_ok).

Lemma wp_alloc_dev ether_setup m ix s (Q : unit → snull_mod → Prop) :
  (if alloc_ok ix then
     ∀ w, privw ix w = full_priv m ix → privw (negb ix) w = privw (negb ix) (net s) →
       Q tt (set_net w (set_present ix true (set_nets (reg_add (netdev ix) (nets s)) s)))
   else Q tt (set_present ix false s)) →
  wp C (alloc_dev ether_setup m ix) Q s.
Proof.
  intros HQ. unfold alloc_dev. wp_step. unfold acquire_ptr. wp_step. wp_step.
  apply (sn_alloc _ _ _ _ HC) in H. rewrite H. destruct (alloc_ok ix); cbn [negb] in *.
  - wp_step. apply wp_hold. wp_step. rewrite H. wp_step. wp_step. apply wp_zoom.
    apply (wp_weaken (quiet world)); [apply (sn_ans _ _ _ _ HC)|done|done|].
    by apply wp_snull_init.
  - wp_step. wp_step. wp_step. rewrite H. by wp_step.
Qed.

Lemma wp_register_dev ix ret s (Q : Z → snull_mod → Prop) :
  (if reg_ok ix then Q 0 (set_nets (reg_add (registered ix) (nets s)) s) else Q ret s) →
  wp C (register_dev ix ret) Q s.
Proof.
  intros HQ. unfold register_dev. wp_step. unfold acquire, c_bool. wp_step. wp_step.
  apply (sn_reg _ _ _ _ HC) in H. wp_step. rewrite H. destruct (reg_ok ix).
  - apply wp_hold. wp_step. wp_step. by rewrite H.
  - wp_step. wp_step. wp_step. by rewrite H.
Qed.
End rules.

Lemma cleaned_privw i ix s :
  privw i (net (cleaned ix s)) =
  if Bool.eqb i ix then set_ppool [] (privw i (net s)) else privw i (net s).
Proof. apply privw_updp. Qed.

Lemma cleaned_in_flight i ix s : in_flight i (net (cleaned ix s)) = in_flight i (net s).
Proof. unfold in_flight. rewrite !cleaned_privw. by destruct ix. Qed.

Lemma cleaned_registry ix s :
  nets (cleaned ix s) = reg_del (netdev ix) (reg_del (registered ix) (nets s)).
Proof. done. Qed.

(** After the cleanup of both, the packets not freed are in the queues. *)
Lemma cleaned_count n s :
  net_inv n (net s) → kfreed s = 0%nat →
  let s' := cleaned true (cleaned false s) in
  (kfreed s' + (in_flight false (net s') + in_flight true (net s')))%nat = (2 * n)%nat.
Proof.
  intros [Hi _] Hk s'. subst s'. rewrite !cleaned_in_flight. cbn -[in_flight privw].
  rewrite privw_updp. cbn -[in_flight privw]. rewrite Hk.
  pose proof (inv_count _ _ _ _ Hi false). pose proof (inv_count _ _ _ _ Hi true). cbn in *. lia.
Qed.

Lemma wp_use_and_clean C n alloc_ok reg_ok s (Q : Z → snull_mod → Prop) :
  snull_contract C n alloc_ok reg_ok → net_inv n (net s) → kfreed s = 0%nat →
  present s false → present s true →
  (∀ s', (kfreed s' + (in_flight false (net s') + in_flight true (net s')))%nat = (2 * n)%nat →
    nets s' = reg_del (netdev true) (reg_del (registered true)
      (reg_del (netdev false) (reg_del (registered false) (nets s)))) → Q 0 s') →
  wp C (interfere;; snull_cleanup;; mret 0) Q s.
Proof.
  intros HC Hi Hk P0 P1 HQ. wp_step. wp_step.
  apply (sn_used _ _ _ _ HC) in H as (Hi' & Hp & Hk' & Hn); [|done].
  rewrite <-Hp in P0, P1. wp_step. apply wp_snull_cleanup.
  destruct (present s' false), (present s' true); try done. wp_step.
  apply HQ; [apply cleaned_count; [done|by rewrite Hk', Hk]|].
  by rewrite !cleaned_registry, Hn.
Qed.

Lemma full_priv_count m ix w : privw ix w = full_priv m ix → length (ppool (privw ix w)) = Z.to_nat m.
Proof. intros ->. apply full_priv_good. Qed.

(** ** Properties *)

(** Loading the driver, using its interfaces and unloading it: the result
    of the load is decided by what the kernel grants; in the end both devices
    are freed, and unregistered, those too that never were; and of the packets
    of their pools all were freed but those left in a receive queue. *)
Theorem snull_module_unloads ether_setup m C alloc_ok reg_ok w :
  0 < m → snull_contract C (Z.to_nat m) alloc_ok reg_ok →
  wp C (r ← snull_init_module ether_setup m;
        if r =? 0 then interfere;; snull_cleanup;; mret r else mret r)
    (λ r s, r = load_result alloc_ok reg_ok ∧
      nets s = Registry [] (complaints alloc_ok reg_ok) ∧
      (kfreed s + if (r =? 0)%Z then in_flight false (net s) + in_flight true (net s) else 0)%nat =
      ((Nat.b2n (alloc_ok false) + Nat.b2n (alloc_ok true)) * Z.to_nat m)%nat)
    (SnullMod w (λ _, false) 0 empty_registry).
Proof.
  intros Hm HC. wp_step. unfold snull_init_module. wp_step.
  eapply wp_alloc_dev; [done|].
  unfold load_result, complaints, never_registered.
  destruct (alloc_ok false) eqn:E0; [intros w0 H0 _|]; wp_step; (eapply wp_alloc_dev; [done|]);
    (destruct (alloc_ok true) eqn:E1; [intros w1 H1 H2|]); wp_step; wp_step; cbn -[privw full_priv].
  2-4: wp_step; apply wp_snull_cleanup; wp_step; change (- ENOMEM =? 0) with false; cbn iota; wp_step;
    rewrite ?E0, ?E1; (split; [done|]); split; [reflexivity|]; change (- ENOMEM =? 0) with false;
    cbn -[full_priv privw Z.to_nat]; rewrite ?(full_priv_count m _ _ H0), ?(full_priv_count m _ _ H1); lia.
  assert (net_inv (Z.to_nat m) w1) as Hw.
  { change (privw false w1 = privw false w0) in H2. rewrite H0 in H2.
    apply booted_inv. split; [lia|]. intros ix. destruct ix; rewrite ?H1, ?H2; destruct (full_priv_good m false), (full_priv_good m true);
      done. }
  wp_step. eapply wp_register_dev; [done|].
  destruct (reg_ok false) eqn:R0; wp_step; (eapply wp_register_dev; [done|]);
    destruct (reg_ok true) eqn:R1.
  1-3: change (c_bool 0) with false; cbn iota; wp_step; change (0 =? 0) with true; cbn iota;
    (eapply wp_use_and_clean; [done|done|done|done|done|]); intros s' Hc Hn; split; [done|];
    (split; [rewrite Hn, E0, E1; reflexivity|]); change (0 =? 0) with true; cbn iota;
    rewrite Hc; cbn; lia.
  change (c_bool (- ENODEV)) with true. cbn iota. wp_step. apply wp_snull_cleanup. wp_step.
  change (- ENODEV =? 0) with false. cbn iota. wp_step. split; [done|].
  split; [rewrite E0, E1; reflexivity|]. change (- ENODEV =? 0) with false.
  cbn -[full_priv privw Z.to_nat]. rewrite privw_updp. cbn -[full_priv privw Z.to_nat].
  change (privw false w1 = privw false w0) in H2. rewrite H2.
  rewrite (full_priv_count m _ _ H0), (full_priv_count m _ _ H1). lia.
Qed.

(** A kernel with memory that grants what it is told to. *)
Definition snull_kernel (n : nat) (alloc_ok reg_ok : bool → bool) : contract snull_mod :=
  Contract (λ c z, good_ans c z ∧
      (∀ ix, c = kint (ALLOC ix) → (z =? 0) = negb (alloc_ok ix)) ∧
      (∀ ix, c = kint (REGISTER ix) → (z =? 0) = reg_ok ix))
    (λ s s', net_inv n (net s) →
      net_inv n (net s') ∧ (∀ ix, present s' ix = present s ix) ∧
      kfreed s' = kfreed s ∧ nets s' = nets s) False.

Lemma snull_kernel_ok n alloc_ok reg_ok :
  snull_contract (snull_kernel n alloc_ok reg_ok) n alloc_ok reg_ok.
Proof.
  split; [by intros ? ? [] | | | done].
  - intros ix z (_ & H & _). by apply H.
  - intros ix z (_ & _ & H). by apply H.
Qed.

(** The second device is not registered: the load succeeds, and the unload
    unregisters it all the same. *)
Lemma snull_module_unloads_witness :
  let C := snull_kernel 8 (λ _, true) negb in
  wp C (r ← snull_init_module id 8; if r =? 0 then interfere;; snull_cleanup;; mret r else mret r)
    (λ r s, r = 0 ∧ nets s = Registry [] [registered true] ∧
      (kfreed s + if (r =? 0)%Z then in_flight false (net s) + in_flight true (net s) else 0)%nat =
      16%nat)
    (SnullMod (net_up 0) (λ _, false) 0 empty_registry).
Proof.
  intros C. apply (snull_module_unloads id 8 C (λ _, true) negb (net_up 0)); [lia|].
  apply (snull_kernel_ok 8).
Defined.
