(* ===== verification/Text.v ===== *)
(** * Decimal text

    What [sprintf] prints for the conversions the drivers use ([%u], [%i],
    [%08u], ...), as byte values, and what reading it back gives. *)

From stdpp Require Import base tactics numbers list strings.
From S2P Require Import Prelude.
From Stdlib Require Import ZArith Lia.

Open Scope Z_scope.

(** The bytes of a string constant. *)
Definition ascii_of (s : string) : list Z :=
  (λ c, Z.of_nat (Ascii.nat_of_ascii c)) <$> String.list_ascii_of_string s.

(** The decimal digits of [n >= 0], most significant first, at most [fuel]. *)
Fixpoint digits (fuel : nat) (n : Z) : list Z :=
  match fuel with
  | O => []
  | S fuel' => if n <? 10 then [48 + n] else digits fuel' (n / 10) ++ [48 + n mod 10]
  end.

(** Padding on the left to [w] characters. *)
Definition pad (c : Z) (w : nat) (l : list Z) : list Z := replicate (w - length l) c ++ l.

(** [%u], [%i], [%0wu] and [%wi]: an [int] has at most ten digits. *)
Definition fmt_u (n : Z) : list Z := digits 10 (u32 n).
Definition fmt_i (n : Z) : list Z := if n <? 0 then 45 :: digits 10 (- n) else digits 10 n.
Definition fmt_0u (w : nat) (n : Z) : list Z := pad 48 w (fmt_u n).
Definition fmt_wi (w : nat) (n : Z) : list Z := pad 32 w (fmt_i n).

(** [%wli]: a [long] has at most nineteen digits. *)
Definition fmt_l (n : Z) : list Z := if n <? 0 then 45 :: digits 19 (- n) else digits 19 n.
Definition fmt_wl (w : nat) (n : Z) : list Z := pad 32 w (fmt_l n).

(** Reading digits back. *)
Definition value (l : list Z) : Z := fold_left (λ acc c, 10 * acc + (c - 48)) l 0.

Lemma value_snoc l c : value (l ++ [c]) = 10 * value l + (c - 48).
Proof. unfold value. by rewrite fold_left_app. Qed.

Lemma value_zeros k l : value (replicate k 48 ++ l) = value l.
Proof.
  induction k as [|k IH]; [done|]. rewrite <-IH. cbn. unfold value. cbn.
  by replace (10 * 0 + (48 - 48)) with 0 by lia.
Qed.

Lemma length_digits fuel n k :
  0 <= n → (0 < k <= fuel)%nat → n < 10 ^ Z.of_nat k → (1 <= length (digits fuel n) <= k)%nat.
Proof.
  revert n k. induction fuel as [|fuel IH]; intros n k Hn Hk Hlt; [lia|]. cbn [digits].
  case_match; zbool; [cbn; lia|]. rewrite length_app. cbn [length].
  destruct k as [|[|k]]; [lia|change (10 ^ Z.of_nat 1) with 10 in Hlt; lia|].
  assert (n / 10 < 10 ^ Z.of_nat (S k)).
  { apply Z.div_lt_upper_bound; [lia|]. rewrite <-Z.pow_succ_r by lia.
    by replace (Z.succ (Z.of_nat (S k))) with (Z.of_nat (S (S k))) by lia. }
  pose proof (Z.div_pos n 10). specialize (IH (n / 10) (S k)). lia.
Qed.

Lemma value_digits fuel n : 0 <= n < 10 ^ Z.of_nat fuel → value (digits fuel n) = n.
Proof.
  revert n. induction fuel as [|fuel IH]; intros n Hn; [cbn in *; lia|]. cbn [digits].
  case_match; zbool; [unfold value; cbn; lia|].
  rewrite value_snoc, IH; [|split; [apply Z.div_pos; lia|]].
  - pose proof (Z.div_mod n 10). lia.
  - apply Z.div_lt_upper_bound; [lia|]. rewrite <-Z.pow_succ_r by lia.
    replace (Z.succ (Z.of_nat fuel)) with (Z.of_nat (S fuel)) by lia. lia.
Qed.

(** A field wide enough for its number has exactly its width, and reads back. *)
Lemma length_fmt_0u w n :
  (0 < w <= 10)%nat → 0 <= n < 10 ^ Z.of_nat w → n < 2 ^ 32 → length (fmt_0u w n) = w.
Proof.
  intros Hw Hn Hn'. unfold fmt_0u, pad, fmt_u. rewrite u32_small by lia.
  pose proof (length_digits 10 n w). rewrite length_app, length_replicate. lia.
Qed.

Lemma length_fmt_wi w n :
  (0 < w <= 10)%nat → 0 <= n < 10 ^ Z.of_nat w → length (fmt_wi w n) = w.
Proof.
  intros Hw Hn. unfold fmt_wi, pad, fmt_i. rewrite (proj2 (Z.ltb_ge _ _)) by lia.
  pose proof (length_digits 10 n w). rewrite length_app, length_replicate. lia.
Qed.

Lemma value_fmt_0u w n : 0 <= n < 2 ^ 32 → value (fmt_0u w n) = n.
Proof.
  intros Hn. unfold fmt_0u, pad, fmt_u. rewrite u32_small by lia.
  rewrite value_zeros. apply value_digits. change (10 ^ Z.of_nat 10) with 10000000000. lia.
Qed.

(** Any number fits in its width or in what its type needs. *)
Lemma length_pad c w l : length (pad c w l) = (w `max` length l)%nat.
Proof. unfold pad. rewrite length_app, length_replicate. lia. Qed.

Lemma length_digits_le fuel n : 0 <= n → (length (digits fuel n) <= fuel)%nat.
Proof.
  revert n. induction fuel as [|fuel IH]; intros n Hn; [done|]. cbn [digits].
  case_match; zbool; [cbn; lia|]. rewrite length_app. cbn [length].
  specialize (IH (n / 10)). pose proof (Z.div_pos n 10). lia.
Qed.

Lemma length_fmt_wi_le w n : (w <= length (fmt_wi w n) <= w `max` 11)%nat.
Proof.
  unfold fmt_wi. rewrite length_pad. unfold fmt_i.
  pose proof (length_digits_le 10 (- n)). pose proof (length_digits_le 10 n).
  case_match; zbool; cbn [length]; lia.
Qed.

Lemma length_fmt_wl_le w n : (w <= length (fmt_wl w n) <= w `max` 20)%nat.
Proof.
  unfold fmt_wl. rewrite length_pad. unfold fmt_l.
  pose proof (length_digits_le 19 (- n)). pose proof (length_digits_le 19 n).
  case_match; zbool; cbn [length]; lia.
Qed.
