(* ===== verification/XModem.v ===== *)
(** * Receiving a file over a serial line
      (src/bbb-sysplay/EmbC: decode_xmodem.c, debug.c, serial.c)

    A bare-metal program that receives a file in the XMODEM protocol and dumps
    it. The UART is two sequences of bytes: those that are still to come in and
    those that went out. A plain [char] is unsigned on the ARM the program is
    built for. [c_entry] repeats [session] for ever. *)

From stdpp Require Import base tactics numbers list strings.
From S2P Require Import Prelude KMonad Text.
From Stdlib Require Import ZArith Lia.

Open Scope Z_scope.

(** ** Data *)

Definition ACK : Z := 6.
Definition NAK : Z := 21.
Definition SOH : Z := 1.
Definition EOT : Z := 4.
Definition SUB : Z := 26.

Definition MAX_FILE_SIZE : Z := 16 * 1024.
Definition BLOCKS_CNT : Z := MAX_FILE_SIZE / 128.

(** The line and the static array [data]. [hdr] and [csum] are set before each
    use and are values of the functions that use them. *)
Record xmodem := XModem { rx : list Z; tx : list Z; data : list (list Z) }.

Definition set_rx (v : list Z) (x : xmodem) : xmodem := XModem v (tx x) (data x).
Definition set_tx (v : list Z) (x : xmodem) : xmodem := XModem (rx x) v (data x).
Definition set_data (v : list (list Z)) (x : xmodem) : xmodem := XModem (rx x) (tx x) v.

(** ** serial.c and debug.c *)

(** Waits until the line has a byte. *)
Definition serial_byte_rx : K xmodem Z :=
  l ← gets rx;
  match l with
  | [] => sleep_forever
  | c :: l => modify (set_rx l);; mret c
  end.

Definition serial_byte_tx (byte : Z) : K xmodem unit :=
  modify (λ s, set_tx (tx s ++ [u8 byte]) s).

Fixpoint serial_tx (s : list Z) : K xmodem unit :=
  match s with
  | [] => mret tt
  | c :: s => serial_byte_tx c;; serial_tx s
  end.

Definition print_str (s : list Z) : K xmodem unit := serial_tx s.

(** The loop of [print_num], with [k] digits to go: the digits from [num[k]] on
    and the index of the first that is not zero. *)
Fixpoint num_digits (k : nat) (n sig : Z) (num : list Z) : list Z * Z :=
  match k with
  | O => (num, sig)
  | S i =>
      let dig := n mod 10 in
      let sig := if c_bool dig then Z.of_nat i else sig in
      num_digits i (n / 10) sig (48 + dig :: num)
  end.

Definition print_num (n : Z) : K xmodem unit :=
  let '(num, sig) := num_digits 10 (u32 n) 9 [] in
  serial_tx (drop (Z.to_nat sig) num).

Definition hex_digit (nib : Z) : Z := if nib <? 10 then 48 + nib else 65 + (nib - 10).

Definition print_hex8 (c : Z) : K xmodem unit :=
  serial_byte_tx (hex_digit (Z.land (Z.shiftr c 4) 15));;
  serial_byte_tx (hex_digit (Z.land c 15)).

(** ** Receiving *)

(** The locals of [c_entry]: [reasons] are [e] and [d], of 5 entries each, as
    far as they are filled. *)
Record locals := Locals {
  bno : Z;
  last_cnt : Z;
  retries : Z;
  reasons : list (Z * Z)
}.

(** [e[retries] = why; d[retries] = what; retries++; serial_byte_tx(NAK)]. *)
Definition refuse (l : locals) (why what : Z) : K xmodem locals :=
  if 5 <=? retries l then oops StackSmash else
  serial_byte_tx NAK;;
  mret (Locals (bno l) (last_cnt l) (u8 (retries l + 1)) (reasons l ++ [(why, what)])).

(** How a byte moves the place where the padding may start. *)
Definition next_cnt (i c last : Z) : Z :=
  if c =? SUB then (if last =? 128 then i else last)
  else (if negb (last =? 128) then 128 else last).

(** [data[bno][i] = c]. *)
Definition store_byte (bno i c : Z) : K xmodem unit :=
  d ← gets data;
  if (0 <=? bno) && (bno <? lenZ d)
  then modify (set_data (alter (insert (Z.to_nat i) c) (Z.to_nat bno) d))
  else oops OutOfBounds.

(** The loop over the bytes of a block, [k] to go: the sum and [last_cnt]. *)
Fixpoint read_block (k : nat) (bno i sum last : Z) : K xmodem (Z * Z) :=
  match k with
  | O => mret (sum, last)
  | S k =>
      c ← serial_byte_rx;
      store_byte bno i c;;
      read_block k bno (i + 1) (u8 (sum + c)) (u8 (next_cnt i c last))
  end.

(** One round of the loop: [None] on the end of the transmission. *)
Definition receive_block (l : locals) : K xmodem (option locals) :=
  hdr0 ← serial_byte_rx;
  if hdr0 =? EOT then serial_byte_tx ACK;; mret None else
  if negb (hdr0 =? SOH) then l ← refuse l 48 hdr0; mret (Some l) else
  hdr1 ← serial_byte_rx;
  if negb (hdr1 =? bno l + 1) then l ← refuse l 49 hdr1; mret (Some l) else
  hdr2 ← serial_byte_rx;
  if negb (hdr2 =? 255 - (bno l + 1)) then l ← refuse l 50 hdr2; mret (Some l) else
  '(sum, last) ← read_block 128 (bno l) 0 0 (last_cnt l);
  let l := Locals (bno l) last (retries l) (reasons l) in
  csum ← serial_byte_rx;
  if negb (csum =? sum) then l ← refuse l 99 (Z.lxor csum sum); mret (Some l) else
  serial_byte_tx ACK;;
  mret (Some (Locals (u8 (bno l + 1)) (last_cnt l) (retries l) (reasons l))).

(** [while (1)]: each round takes a byte from the line, so that with more fuel
    than bytes the line is silent before the fuel is used up. *)
Fixpoint receive (fuel : nat) (l : locals) : K xmodem locals :=
  match fuel with
  | O => sleep_forever
  | S fuel =>
      r ← receive_block l;
      match r with
      | None => mret l
      | Some l => receive fuel l
      end
  end.

(** ** Reporting *)

Definition dump_byte (i : nat) (c : Z) : K xmodem unit :=
  print_hex8 c;;
  if c_bool (Z.land (Z.of_nat i + 1) 31) then serial_byte_tx 32 else serial_tx [13; 10].

Fixpoint dump_block (i : nat) (b : list Z) : K xmodem unit :=
  match b with
  | [] => mret tt
  | c :: b => dump_byte i c;; dump_block (S i) b
  end.

Fixpoint dump (b : list (list Z)) : K xmodem unit :=
  match b with
  | [] => mret tt
  | x :: b => dump_block 0 x;; dump b
  end.

Fixpoint print_reasons (l : list (Z * Z)) : K xmodem unit :=
  match l with
  | [] => mret tt
  | (e, d) :: l => serial_byte_tx e;; serial_tx (ascii_of ": ");; print_hex8 d;; serial_byte_tx 59;; print_reasons l
  end.

Definition crlf : list Z := [13; 10].

(** The number of bytes reported. *)
Definition file_size (l : locals) : Z := 128 * (bno l - 1) + last_cnt l.

Definition report (l : locals) : K xmodem unit :=
  serial_tx (ascii_of "File received w/ ");;
  print_num (bno l);;
  serial_tx (ascii_of " block(s) with ");;
  print_num (file_size l);;
  serial_tx (ascii_of " byte(s) with ");;
  print_num (retries l);;
  serial_tx (ascii_of " retries(s)" ++ crlf);;
  d ← gets data;
  dump (take (Z.to_nat (bno l)) d);;
  if c_bool (retries l) then
    serial_tx (ascii_of "Retry Reasons:" ++ crlf);;
    print_reasons (reasons l);;
    serial_tx crlf
  else mret tt.

(** The body of [for (;;)]. *)
Definition session : K xmodem locals :=
  serial_tx (ascii_of "Press just one <Enter> and send the data/leds_test.bin file (<= ");;
  print_num MAX_FILE_SIZE;;
  serial_tx (ascii_of " bytes) thru xmodem within 10 secs" ++ crlf);;
  serial_byte_rx;;
  serial_byte_tx NAK;;
  fuel ← gets (λ s, S (length (rx s)));
  l ← receive fuel (Locals 0 128 0 []);
  serial_byte_rx;;
  report l;;
  mret l.

(** Up to the first session. *)
Definition c_entry_start : K xmodem unit :=
  serial_byte_rx;;
  serial_tx (ascii_of "Welcome to SysPlay" ++ crlf).

(** * Specification *)

(** What is sent, and what the line holds after it. *)
Definition sent (l : list Z) (s : xmodem) : xmodem := set_tx (tx s ++ l) s.

(** The checksum of a block, and [last_cnt] after it. *)
Definition block_sum (b : list Z) : Z := foldl (λ a c, u8 (a + c)) 0 b.
Fixpoint cnts (i last : Z) (b : list Z) : Z :=
  match b with [] => last | c :: b => cnts (i + 1) (u8 (next_cnt i c last)) b end.

(** The packet of block number [n]. *)
Definition packet (n : Z) (b : list Z) (c : Z) : list Z := [SOH; n; 255 - n] ++ b ++ [c].

(** An attempt that fails: a block hit on its way, or its checksum was. *)
Definition corrupt (a : list Z * Z) : Prop := length a.1 = 128%nat ∧ a.2 ≠ block_sum a.1.

(** What comes in when each block is preceded by some failed attempts, from
    block number [n] on, and what the receiver answers. *)
Fixpoint line_of (n : Z) (sched : list (list (list Z * Z) * list Z)) : list Z :=
  match sched with
  | [] => [EOT]
  | (bad, b) :: sched =>
      concat ((λ a, packet n a.1 a.2) <$> bad) ++ packet n b (block_sum b) ++ line_of (n + 1) sched
  end.
Fixpoint answers (sched : list (list (list Z * Z) * list Z)) : list Z :=
  match sched with
  | [] => [ACK]
  | (bad, _) :: sched => replicate (length bad) NAK ++ [ACK] ++ answers sched
  end.

Fixpoint failures (sched : list (list (list Z * Z) * list Z)) : nat :=
  match sched with [] => 0 | (bad, _) :: sched => length bad + failures sched end.

(** The locals after a failed attempt, a block and the whole transmission. *)
Definition after_bad (l : locals) (a : list Z * Z) : locals :=
  Locals (bno l) (cnts 0 (last_cnt l) a.1) (u8 (retries l + 1))
    (reasons l ++ [(99, Z.lxor a.2 (block_sum a.1))]).
Definition after_good (l : locals) (b : list Z) : locals :=
  Locals (u8 (bno l + 1)) (cnts 0 (last_cnt l) b) (retries l) (reasons l).
Fixpoint after (l : locals) (sched : list (list (list Z * Z) * list Z)) : locals :=
  match sched with
  | [] => l
  | (bad, b) :: sched => after (after_good (foldl after_bad l bad) b) sched
  end.

(** ** Rules *)

Section rules.
Context (C : contract xmodem).
Implicit Types (s : xmodem) (l : locals).

Lemma sent_sent a b s : sent b (sent a s) = sent (a ++ b) s.
Proof. unfold sent, set_tx. cbn. by rewrite <-app_assoc. Qed.
Lemma sent_nil s : sent [] s = s.
Proof. destruct s. unfold sent, set_tx. cbn. by rewrite app_nil_r. Qed.

Lemma wp_rx c r s (Q : Z → xmodem → Prop) :
  rx s = c :: r → Q c (set_rx r s) → wp C serial_byte_rx Q s.
Proof. intros E HQ. unfold serial_byte_rx. wp_step. wp_step. rewrite E. wp_step. wp_step. by wp_step. Qed.

Lemma wp_tx b s (Q : unit → xmodem → Prop) :
  Q tt (sent [u8 b] s) → wp C (serial_byte_tx b) Q s.
Proof. intros HQ. by apply wp_modify. Qed.

Lemma wp_serial_tx t s (Q : unit → xmodem → Prop) :
  Q tt (sent (u8 <$> t) s) → wp C (serial_tx t) Q s.
Proof.
  revert s; induction t as [|b t IH]; intros s HQ; cbn [serial_tx].
  - wp_step. by rewrite sent_nil in HQ.
  - wp_step. apply wp_tx, IH. by rewrite sent_sent.
Qed.

(** Printing a number sends its decimal digits. *)
Lemma num_digits_zero k sig num :
  let '(num', sig') := num_digits k 0 sig num in
  sig' = sig ∧ num' = replicate k 48 ++ num.
Proof.
  revert num; induction k as [|k IH]; intros num; cbn [num_digits]; [done|].
  change (0 mod 10) with 0. change (0 / 10) with 0. change (c_bool 0) with false. cbn iota.
  specialize (IH (48 + 0 :: num)). destruct (num_digits k 0 sig _) as [num' sig'].
  destruct IH as [-> ->]. split; [done|].
  by rewrite replicate_S_end, <-app_assoc.
Qed.

Lemma num_digits_pos k n sig num :
  0 < n < 10 ^ Z.of_nat k →
  let '(num', sig') := num_digits k n sig num in
  0 <= sig' ∧ drop (Z.to_nat sig') num' = digits k n ++ num.
Proof.
  revert n sig num; induction k as [|k IH]; intros n sig num Hn; [cbn in Hn; lia|].
  cbn [num_digits digits]. pose proof (Z.div_mod n 10 ltac:(done)).
  destruct (n <? 10) eqn:E; zbool.
  - rewrite (Z.mod_small n 10), (Z.div_small n 10) by lia.
    pose proof (num_digits_zero k (if c_bool n then Z.of_nat k else sig) (48 + n :: num)) as Hz.
    destruct (num_digits k 0 _ _) as [num' sig']. destruct Hz as [-> ->].
    unfold c_bool. rewrite (proj2 (Z.eqb_neq n 0)) by lia. cbn [negb]. split; [lia|].
    rewrite Nat2Z.id, drop_app_length'; [done|by rewrite length_replicate].
  - specialize (IH (n / 10) (if c_bool (n mod 10) then Z.of_nat k else sig) (48 + n mod 10 :: num)).
    destruct (num_digits k _ _ _) as [num' sig']. rewrite <-app_assoc. apply IH.
    split; [apply Z.div_str_pos; lia|]. apply Z.div_lt_upper_bound; [lia|].
    rewrite <-Z.pow_succ_r by lia. rewrite <-Nat2Z.inj_succ. apply Hn.
Qed.

Lemma digits_bytes k n : 0 <= n → Forall (λ c, 48 <= c < 58) (digits k n).
Proof.
  revert n; induction k as [|k IH]; intros n Hn; cbn [digits]; [by constructor|].
  case_match; zbool; [repeat constructor; lia|]. apply Forall_app. split; [apply IH, Z.div_pos; lia|].
  pose proof (Z.mod_pos_bound n 10). repeat constructor; lia.
Qed.

Lemma fmap_u8 (t : list Z) : Forall (λ c, 0 <= c < 2 ^ 8) t → u8 <$> t = t.
Proof. induction 1 as [|c t Hc _ IH]; [done|]. cbn. by rewrite IH, u8_small. Qed.

Lemma wp_print_num n s (Q : unit → xmodem → Prop) :
  Q tt (sent (fmt_u n) s) → wp C (print_num n) Q s.
Proof.
  intros HQ. unfold print_num. assert (drop (Z.to_nat (num_digits 10 (u32 n) 9 []).2)
    (num_digits 10 (u32 n) 9 []).1 = fmt_u n) as E.
  { unfold fmt_u. pose proof (Z.mod_pos_bound n (2 ^ 32) ltac:(done)) as Hn.
    fold (u32 n) in Hn. destruct (decide (u32 n = 0)) as [->|]; [done|].
    pose proof (num_digits_pos 10 (u32 n) 9 []) as H.
    destruct (num_digits 10 (u32 n) 9 []) as [num sig]. cbn [fst snd]. rewrite app_nil_r in H.
    apply H. change (10 ^ Z.of_nat 10) with 10000000000. lia. }
  destruct (num_digits 10 (u32 n) 9 []) as [num sig]. cbn [fst snd] in E. rewrite E.
  apply wp_serial_tx. rewrite fmap_u8; [done|]. unfold fmt_u.
  eapply Forall_impl; [apply digits_bytes; apply Z.mod_pos_bound; done|]. cbn. lia.
Qed.

Lemma wp_print_hex8 c s (Q : unit → xmodem → Prop) :
  Q tt (sent [u8 (hex_digit (Z.land (Z.shiftr c 4) 15)); u8 (hex_digit (Z.land c 15))] s) →
  wp C (print_hex8 c) Q s.
Proof. intros HQ. unfold print_hex8. wp_step. apply wp_tx, wp_tx. by rewrite sent_sent. Qed.

(** A failed attempt is noted and refused, five times at most. *)
Lemma wp_refuse l why what s (Q : locals → xmodem → Prop) :
  retries l < 5 →
  Q (Locals (bno l) (last_cnt l) (u8 (retries l + 1)) (reasons l ++ [(why, what)])) (sent [NAK] s) →
  wp C (refuse l why what) Q s.
Proof.
  intros Hr HQ. unfold refuse. rewrite (proj2 (Z.leb_gt _ _)) by lia.
  wp_step. apply wp_tx. by wp_step.
Qed.

(** The bytes of a block go to the array, one after the other. *)
Lemma wp_read_block b n i sum last r s (Q : Z * Z → xmodem → Prop) :
  rx s = b ++ r → 0 <= n < lenZ (data s) → 0 <= i →
  Q (foldl (λ a c, u8 (a + c)) sum b, cnts i last b)
    (set_rx r (set_data (alter (store i b) (Z.to_nat n) (data s)) s)) →
  wp C (read_block (length b) n i sum last) Q s.
Proof.
  revert i sum last s; induction b as [|c b IH]; intros i sum last s Hrx Hn Hi HQ;
    cbn [length read_block].
  - wp_step. replace (set_rx _ _) with s in HQ; [done|]. destruct s; cbn in *. subst.
    unfold set_rx, set_data. cbn. f_equal. by rewrite list_alter_id.
  - wp_step. apply (wp_rx c (b ++ r)); [done|]. wp_step. unfold store_byte. wp_step. wp_step.
    rewrite (proj2 (Z.leb_le _ _)), (proj2 (Z.ltb_lt _ _)) by (cbn; lia). cbn [andb]. wp_step.
    apply IH; [done|cbn; rewrite length_alter; lia|lia|].
    match goal with |- Q ?x ?y => match type of HQ with Q ?x' ?y' => replace y with y'; [done|] end end.
    destruct s; unfold set_rx, set_data; cbn. f_equal. rewrite list_alter_alter_eq.
    apply list_alter_ext; [|done]. intros x _. unfold compose, store. cbn [list_inserts].
    replace (Z.to_nat (i + 1)) with (S (Z.to_nat i)) by lia. apply list_insert_inserts_lt. lia.
Qed.

(** The array after a block was stored. *)
Lemma alter_block n b (d : list (list Z)) :
  (n < length d)%nat → Forall (λ x, length x = 128%nat) d → length b = 128%nat →
  alter (store 0 b) n d = <[n := b]> d.
Proof.
  intros [x Hx]%lookup_lt_is_Some_2 Hd Hb. rewrite (alter_insert_eq _ _ _ x) by done.
  f_equal. apply store_full. rewrite Hb. symmetry. exact (Forall_lookup_1 _ _ _ _ Hd Hx).
Qed.

Lemma packet_app n b c r : packet n b c ++ r = SOH :: n :: 255 - n :: b ++ c :: r.
Proof. unfold packet. by rewrite <-!app_assoc. Qed.

(** One round on a packet whose header is the expected one. *)
Lemma wp_receive_packet l b c r t d (Q : option locals → xmodem → Prop) :
  0 <= bno l < lenZ d → lenZ d <= 128 → Forall (λ x, length x = 128%nat) d → length b = 128%nat →
  let d' := <[Z.to_nat (bno l) := b]> d in
  (c = block_sum b → Q (Some (after_good l b)) (XModem r (t ++ [ACK]) d')) →
  (c ≠ block_sum b → retries l < 5 ∧ Q (Some (after_bad l (b, c))) (XModem r (t ++ [NAK]) d')) →
  wp C (receive_block l) Q (XModem (packet (bno l + 1) b c ++ r) t d).
Proof.
  intros Hn Hmax Hd Hb d' Hgood Hbad. rewrite packet_app. unfold receive_block. wp_step.
  eapply wp_rx; [done|]. change (SOH =? EOT) with false. change (SOH =? SOH) with true.
  cbn [negb]. wp_step. eapply wp_rx; [done|]. rewrite Z.eqb_refl. cbn [negb].
  wp_step. eapply wp_rx; [done|]. rewrite Z.eqb_refl. cbn [negb]. wp_step.
  rewrite <-Hb at 1. apply (wp_read_block b _ _ _ _ (c :: r)); [done|cbn; lia|done|].
  rewrite alter_block by (cbn; lia || done). wp_step. eapply wp_rx; [done|]. fold (block_sum b).
  destruct (c =? block_sum b) eqn:E; zbool; cbn [negb].
  - wp_step. apply wp_tx. wp_step. by apply Hgood.
  - destruct (Hbad E) as [Hr HQ]. wp_step. apply wp_refuse; [done|]. by wp_step.
Qed.

Definition dims (d : list (list Z)) : Prop := Forall (λ x, length x = 128%nat) d.

(** [d'] is [d] but for block [n]. *)
Definition but (n : nat) (d d' : list (list Z)) : Prop :=
  length d' = length d ∧ dims d' ∧ ∀ k, k ≠ n → d' !! k = d !! k.

Lemma but_insert n b d : dims d → length b = 128%nat → but n d (<[n := b]> d).
Proof.
  intros Hd Hb. split_and!; [apply length_insert|by apply Forall_insert|].
  intros k Hk. by rewrite list_lookup_insert_ne.
Qed.

Lemma but_trans n d1 d2 d3 : but n d1 d2 → but n d2 d3 → but n d1 d3.
Proof.
  intros (? & ? & H12) (? & ? & H23). split_and!; [congruence|done|].
  intros k Hk. by rewrite H23, H12.
Qed.

(** The failed attempts before a block: the block number stays, what they
    stored will be overwritten. *)
Lemma wp_receive_bad bad l fuel r t d (Q : locals → xmodem → Prop) :
  0 <= bno l < lenZ d → lenZ d <= 128 → dims d → Forall corrupt bad →
  retries l + lenZ bad <= 5 → 0 <= retries l →
  (∀ d', but (Z.to_nat (bno l)) d d' →
    wp C (receive fuel (foldl after_bad l bad)) Q
      (XModem r (t ++ replicate (length bad) NAK) d')) →
  wp C (receive (length bad + fuel) l) Q
    (XModem (concat ((λ a, packet (bno l + 1) a.1 a.2) <$> bad) ++ r) t d).
Proof.
  revert l t d; induction bad as [|[b c] bad IH]; intros l t d Hn Hmax Hd Hbad Hr Hr0 HQ.
  { cbn. specialize (HQ d). cbn in HQ. rewrite app_nil_r in HQ. by apply HQ. }
  apply Forall_cons in Hbad as [[Hb Hc] Hbad]. cbn [fmap list_fmap concat length Nat.add receive fst snd].
  cbn [fst snd] in Hb, Hc. cbn [length] in Hr. rewrite <-app_assoc. wp_step.
  apply wp_receive_packet; [done..|]. intros _. split; [lia|].
  pose proof (but_insert (Z.to_nat (bno l)) b d Hd Hb) as Hbut.
  assert (retries (after_bad l (b, c)) = retries l + 1) as Er by (cbn; apply u8_small; lia).
  apply (IH (after_bad l (b, c))); try (rewrite Er; lia); [|by rewrite length_insert|apply Hbut|done|].
  { by rewrite length_insert. }
  intros d' Hd'. cbn [foldl] in HQ. specialize (HQ d'). cbn [length replicate] in HQ.
  rewrite <-app_assoc. apply HQ. by eapply but_trans.
Qed.

Lemma foldl_bad bad l :
  bno (foldl after_bad l bad) = bno l ∧
  (0 <= retries l → retries l + lenZ bad <= 5 →
    retries (foldl after_bad l bad) = retries l + lenZ bad).
Proof.
  revert l; induction bad as [|a bad IH]; intros l; cbn [foldl length]; [split; [done|lia]|].
  destruct (IH (after_bad l a)) as [-> IHr]. split; [done|]. intros H0 H5.
  rewrite IHr; cbn [after_bad retries]; rewrite u8_small by lia; lia.
Qed.

(** The whole transmission: the blocks are stored, in order, each failed
    attempt is refused and each block accepted. *)
Lemma wp_receive sched l fuel r t d (Q : locals → xmodem → Prop) :
  0 <= bno l → bno l + lenZ sched <= lenZ d → lenZ d <= 128 → dims d →
  Forall (λ p, Forall corrupt p.1 ∧ length p.2 = 128%nat) sched →
  0 <= retries l → retries l + Z.of_nat (failures sched) <= 5 →
  (S (failures sched + length sched) <= fuel)%nat →
  (∀ d', take (Z.to_nat (bno l) + length sched) d' = take (Z.to_nat (bno l)) d ++ sched.*2 →
    Q (after l sched) (XModem r (t ++ answers sched) d')) →
  wp C (receive fuel l) Q (XModem (line_of (bno l + 1) sched ++ r) t d).
Proof.
  revert l fuel t d; induction sched as [|[bad b] sched IH];
    intros l fuel t d Hn Hlen Hmax Hd Hs Hr0 Hr Hf HQ.
  { destruct fuel as [|fuel]; [lia|]. cbn [receive line_of app]. wp_step. unfold receive_block.
    wp_step. eapply wp_rx; [done|]. change (EOT =? EOT) with true. cbn iota. wp_step. apply wp_tx.
    wp_step. wp_step. cbn in HQ. apply HQ. by rewrite Nat.add_0_r, app_nil_r. }
  apply Forall_cons in Hs as [[Hbad Hb] Hs]. cbn [fst snd] in Hbad, Hb.
  cbn [failures length] in Hr, Hf, Hlen.
  destruct fuel as [|fuel]; [lia|].
  replace (S fuel) with (length bad + S (fuel - length bad))%nat by lia.
  cbn [line_of]. rewrite <-!app_assoc. apply wp_receive_bad; [lia|done..|lia|done|].
  intros d' (Hl' & Hd' & Hbut). destruct (foldl_bad bad l) as [En Er].
  set (l' := foldl after_bad l bad) in *. cbn [receive]. wp_step. rewrite <-En.
  apply wp_receive_packet; [rewrite En, Hl'; lia|by rewrite Hl'|done|done| |done]. intros _.
  assert (bno (after_good l' b) = bno l + 1) as Eb by (cbn; rewrite En; apply u8_small; lia).
  rewrite En, <-Eb. apply IH; rewrite ?Eb, ?length_insert, ?Hl'; try done; try lia.
  - by apply Forall_insert.
  - cbn. rewrite Er; lia.
  - cbn. rewrite Er; lia.
  - intros d2 Hd2. cbn [after answers] in HQ. rewrite <-!app_assoc. apply HQ.
    cbn [length fmap list_fmap snd].
    replace (Z.to_nat (bno l) + S (length sched))%nat with (Z.to_nat (bno l + 1) + length sched)%nat by lia.
    rewrite Hd2. replace (Z.to_nat (bno l + 1)) with (S (Z.to_nat (bno l))) by lia.
    rewrite (take_S_r _ _ b) by (apply list_lookup_insert_eq; lia).
    rewrite <-app_assoc. cbn [app]. f_equal. rewrite take_insert_ge by lia.
    apply list_eq. intros k. destruct (decide (k < Z.to_nat (bno l))%nat).
    + rewrite !lookup_take_lt by done. apply Hbut. lia.
    + by rewrite !lookup_take_ge by lia.
Qed.
End rules.

(** ** What is reported *)

Definition hex_byte (c : Z) : list Z :=
  [u8 (hex_digit (Z.land (Z.shiftr c 4) 15)); u8 (hex_digit (Z.land c 15))].

(** 32 bytes a line. *)
Definition dump_text (b : list Z) : list Z :=
  concat (imap (λ i c, hex_byte c ++ if decide ((i + 1) mod 32 = 0)%nat then crlf else [32]) b).

Definition reasons_text (l : list (Z * Z)) : list Z :=
  concat ((λ p, [u8 p.1] ++ ascii_of ": " ++ hex_byte p.2 ++ [59]) <$> l).

Definition report_text (l : locals) (blocks : list (list Z)) : list Z :=
  ascii_of "File received w/ " ++ fmt_u (bno l) ++ ascii_of " block(s) with " ++
  fmt_u (file_size l) ++ ascii_of " byte(s) with " ++ fmt_u (retries l) ++
  ascii_of " retries(s)" ++ crlf ++ concat (dump_text <$> blocks) ++
  if decide (retries l = 0) then []
  else ascii_of "Retry Reasons:" ++ crlf ++ reasons_text (reasons l) ++ crlf.

Definition prompt : list Z :=
  ascii_of "Press just one <Enter> and send the data/leds_test.bin file (<= " ++
  ascii_of "16384" ++ ascii_of " bytes) thru xmodem within 10 secs" ++ crlf.

Section reporting.
Context (C : contract xmodem).
Implicit Types (s : xmodem) (Q : unit → xmodem → Prop).

Lemma wp_text t s Q : u8 <$> t = t → Q tt (sent t s) → wp C (serial_tx t) Q s.
Proof. intros E HQ. apply wp_serial_tx. by rewrite E. Qed.

Lemma line_break i : c_bool (Z.land (Z.of_nat i + 1) 31) = negb (bool_decide ((i + 1) mod 32 = 0)%nat).
Proof.
  change 31 with (Z.ones 5). rewrite Z.land_ones by done. unfold c_bool. f_equal.
  apply eq_true_iff_eq. rewrite Z.eqb_eq, bool_decide_eq_true.
  rewrite <-Nat2Z.inj_iff, Nat2Z.inj_mod, Nat2Z.inj_add. done.
Qed.

Lemma wp_dump_block b i s Q :
  Q tt (sent (concat (imap (λ j c, hex_byte c ++
    if decide ((i + j + 1) mod 32 = 0)%nat then crlf else [32]) b)) s) →
  wp C (dump_block i b) Q s.
Proof.
  revert i s; induction b as [|c b IH]; intros i s HQ; cbn [dump_block].
  { wp_step. by rewrite sent_nil in HQ. }
  wp_step. unfold dump_byte. wp_step. apply wp_print_hex8. fold (hex_byte c).
  rewrite line_break. rewrite imap_cons in HQ. cbn [concat] in HQ. rewrite Nat.add_0_r in HQ.
  assert (∀ x, (x = if decide ((i + 1) mod 32 = 0)%nat then crlf else [32]) →
    wp C (dump_block (S i) b) Q (sent x (sent (hex_byte c) s))) as Hrest.
  { intros x ->. apply IH. rewrite !sent_sent. rewrite <-app_assoc in HQ.
    erewrite imap_ext; [exact HQ|]. intros j y _. unfold compose.
    by replace (i + S j + 1)%nat with (S i + j + 1)%nat by lia. }
  case_bool_decide; cbn [negb].
  - apply wp_text; [done|]. apply Hrest. by rewrite decide_True.
  - apply wp_tx, Hrest. by rewrite decide_False.
Qed.

Lemma wp_dump b s Q : Q tt (sent (concat (dump_text <$> b)) s) → wp C (dump b) Q s.
Proof.
  revert s; induction b as [|x b IH]; intros s HQ; cbn [dump].
  { wp_step. by rewrite sent_nil in HQ. }
  wp_step. apply wp_dump_block. cbn [Nat.add]. apply IH. by rewrite sent_sent.
Qed.

Lemma wp_print_reasons l s Q : Q tt (sent (reasons_text l) s) → wp C (print_reasons l) Q s.
Proof.
  revert s; induction l as [|[e d] l IH]; intros s HQ; cbn [print_reasons].
  { wp_step. by rewrite sent_nil in HQ. }
  wp_step. apply wp_tx. wp_step. apply wp_text; [done|]. wp_step. apply wp_print_hex8.
  wp_step. apply wp_tx, IH. rewrite !sent_sent. unfold reasons_text in *. cbn in HQ |- *. done.
Qed.

Lemma wp_report l blocks s Q :
  take (Z.to_nat (bno l)) (data s) = blocks →
  Q tt (sent (report_text l blocks) s) → wp C (report l) Q s.
Proof.
  intros Hb HQ. unfold report. wp_step. apply wp_text; [done|]. wp_step. apply wp_print_num.
  wp_step. apply wp_text; [done|]. wp_step. apply wp_print_num. wp_step. apply wp_text; [done|].
  wp_step. apply wp_print_num. wp_step. apply wp_text; [done|]. wp_step. wp_step. wp_step.
  apply wp_dump. cbn [data sent set_tx]. rewrite Hb. rewrite !sent_sent.
  unfold report_text in HQ. rewrite !app_assoc in HQ. unfold c_bool.
  destruct (retries l =? 0) eqn:E; zbool; cbn [negb].
  - wp_step. rewrite decide_True, app_nil_r in HQ by done. by rewrite !app_assoc.
  - rewrite decide_False in HQ by done. wp_step. apply wp_text; [done|]. wp_step.
    apply wp_print_reasons, wp_text; [done|]. rewrite !sent_sent. by rewrite !app_assoc in *.
Qed.
End reporting.

(** ** Files and blocks *)

Definition nblocks (f : list Z) : nat := Z.to_nat ((lenZ f + 127) / 128).
Definition pad_file (f : list Z) : list Z := f ++ replicate (128 * nblocks f - length f) SUB.

(** The blocks of a file, the last one filled with [SUB]. *)
Definition blocks_of (f : list Z) : list (list Z) :=
  (λ i, take 128 (drop (128 * i) (pad_file f))) <$> seq 0 (nblocks f).

Section files.
Implicit Types (f : list Z).

Lemma nblocks_bounds f : (length f <= 128 * nblocks f < length f + 128)%nat.
Proof.
  unfold nblocks. pose proof (Z.div_mod (lenZ f + 127) 128). pose proof (Z.mod_pos_bound (lenZ f + 127) 128).
  lia.
Qed.

Lemma length_pad_file f : length (pad_file f) = (128 * nblocks f)%nat.
Proof. unfold pad_file. rewrite length_app, length_replicate. pose proof (nblocks_bounds f). lia. Qed.

Lemma length_blocks_of f : length (blocks_of f) = nblocks f.
Proof. unfold blocks_of. by rewrite length_fmap, length_seq. Qed.

Lemma blocks_dims f : dims (blocks_of f).
Proof.
  apply Forall_fmap, Forall_forall. intros i Hi%elem_of_seq. cbn.
  rewrite length_take, length_drop, length_pad_file. lia.
Qed.

Lemma concat_chunks (l : list Z) n :
  concat ((λ i, take 128 (drop (128 * i) l)) <$> seq 0 n) = take (128 * n) l.
Proof.
  induction n as [|n IH]; [done|]. rewrite seq_S, fmap_app, concat_app, IH. cbn [fmap list_fmap concat].
  rewrite app_nil_r, Nat.add_0_l, take_take_drop. f_equal. lia.
Qed.

Lemma concat_blocks f : concat (blocks_of f) = pad_file f.
Proof. unfold blocks_of. rewrite concat_chunks, take_ge; [done|]. by rewrite length_pad_file. Qed.

(** The last block ends with the last byte of the file and the padding. *)
Lemma blocks_snoc f x : let n := (nblocks (f ++ [x]) - 1)%nat in
  ∃ bs, blocks_of (f ++ [x]) = bs ++ [drop (128 * n) f ++ [x] ++
    replicate (128 * nblocks (f ++ [x]) - length (f ++ [x])) SUB].
Proof.
  intros n. pose proof (nblocks_bounds (f ++ [x])) as Hb. rewrite length_app in Hb. cbn [length] in Hb.
  assert (nblocks (f ++ [x]) = S n) as E by lia. pose proof (length_pad_file (f ++ [x])) as Hpad.
  clearbody n. unfold blocks_of. rewrite E in *. rewrite seq_S, fmap_app. eexists. f_equal.
  cbn [fmap list_fmap]. f_equal. rewrite Nat.add_0_l, take_ge by (rewrite length_drop; lia).
  unfold pad_file. rewrite E, <-app_assoc, drop_app_le by lia. done.
Qed.
End files.

(** ** Where the padding starts *)

Section padding.
Implicit Types (i last : Z) (b : list Z).

Lemma cnts_app i last a b : cnts i last (a ++ b) = cnts (i + lenZ a) (cnts i last a) b.
Proof.
  revert i last; induction a as [|c a IH]; intros i last; cbn [app cnts length].
  - by rewrite Z.add_0_r.
  - rewrite IH. f_equal. lia.
Qed.

Lemma cnts_subs i last k : 0 <= last < 128 → cnts i last (replicate k SUB) = last.
Proof.
  intros Hl. revert i; induction k as [|k IH]; intros i; cbn [replicate cnts]; [done|].
  unfold next_cnt. change (SUB =? SUB) with true. cbn iota.
  rewrite (proj2 (Z.eqb_neq last 128)), u8_small by lia. apply IH.
Qed.

(** In a block that ends with a byte of data and [k] of padding. *)
Lemma cnts_last last a x k :
  x ≠ SUB → (length a + 1 + k = 128)%nat →
  cnts 0 last (a ++ [x] ++ replicate k SUB) = 128 - Z.of_nat k.
Proof.
  intros Hx Hk. rewrite cnts_app. cbn [app cnts]. rewrite Z.add_0_l.
  assert (u8 (next_cnt (lenZ a) x (cnts 0 last a)) = 128) as ->.
  { unfold next_cnt. rewrite (proj2 (Z.eqb_neq _ _)) by done.
    destruct (cnts 0 last a =? 128) eqn:E; zbool; cbn [negb]; [by rewrite E|done]. }
  destruct k as [|k]; cbn [replicate cnts]; [lia|].
  unfold next_cnt at 1. change (SUB =? SUB) with true. change (128 =? 128) with true. cbn iota.
  rewrite u8_small, cnts_subs by lia. lia.
Qed.
End padding.

(** The locals in the end. *)
Section after.
Implicit Types (l : locals).

Lemma after_app l s1 s2 : after l (s1 ++ s2) = after (after l s1) s2.
Proof. revert l; induction s1 as [|[bad b] s1 IH]; intros l; cbn; [done|apply IH]. Qed.

Lemma after_counts sched l :
  0 <= bno l → bno l + lenZ sched < 2 ^ 8 → 0 <= retries l →
  retries l + Z.of_nat (failures sched) <= 5 →
  bno (after l sched) = bno l + lenZ sched ∧
  retries (after l sched) = retries l + Z.of_nat (failures sched).
Proof.
  revert l; induction sched as [|[bad b] sched IH]; intros l Hb Hn Hr Hr5; cbn in *; [lia|].
  destruct (foldl_bad bad l) as [En Er].
  assert (bno (after_good (foldl after_bad l bad) b) = bno l + 1) as Eb.
  { cbn. rewrite En. apply u8_small. lia. }
  assert (retries (after_good (foldl after_bad l bad) b) = retries l + lenZ bad) as Err.
  { cbn. apply Er; lia. }
  destruct (IH (after_good (foldl after_bad l bad) b)) as [-> ->]; rewrite ?Eb, ?Err; lia.
Qed.

Lemma last_cnt_snoc l sched bad b :
  ∃ last, last_cnt (after l (sched ++ [(bad, b)])) = cnts 0 last b.
Proof. rewrite after_app. cbn. by eexists. Qed.
End after.

Lemma length_packet n b c : length (packet n b c) = (4 + length b)%nat.
Proof. unfold packet. rewrite !length_app. cbn. lia. Qed.

Lemma line_rounds n sched : (S (failures sched + length sched) <= length (line_of n sched))%nat.
Proof.
  revert n; induction sched as [|[bad b] sched IH]; intros n; cbn [line_of failures length]; [cbn; lia|].
  rewrite !length_app. specialize (IH (n + 1)).
  assert (length bad <= length (concat ((λ a, packet n a.1 a.2) <$> bad)))%nat.
  { clear. induction bad as [|a bad IH]; [done|]. rewrite fmap_cons. cbn [concat length].
    rewrite length_app, length_packet. lia. }
  rewrite length_packet. lia.
Qed.

(** * Properties *)

(** Nothing is asked from a kernel here. *)
Definition bare : contract xmodem := Contract (λ _ _, True) (λ _ _, True) False.

Lemma bare_obeys (o : oracle xmodem) : obeys o bare.
Proof. done. Qed.

(** A session on a line that carries a transmission. *)
Lemma wp_session sched enter key r t d (Q : locals → xmodem → Prop) :
  lenZ d = BLOCKS_CNT → dims d → lenZ sched <= BLOCKS_CNT → (failures sched <= 5)%nat →
  Forall (λ p, Forall corrupt p.1 ∧ length p.2 = 128%nat) sched →
  (∀ l d', l = after (Locals 0 128 0 []) sched → take (length sched) d' = sched.*2 →
    bno l = lenZ sched → retries l = Z.of_nat (failures sched) →
    Q l (XModem r (t ++ prompt ++ [NAK] ++ answers sched ++ report_text l sched.*2) d')) →
  wp bare session Q (XModem (enter :: line_of 1 sched ++ key :: r) t d).
Proof.
  intros Hl Hd Hn Hf Hs HQ. change BLOCKS_CNT with 128 in *. unfold session.
  wp_step. apply wp_text; [done|]. wp_step. apply wp_print_num. wp_step. apply wp_text; [done|].
  wp_step. eapply wp_rx; [done|]. wp_step. apply wp_tx. wp_step. wp_step. wp_step.
  match goal with |- wp _ _ _ ?x => replace x with
    (XModem (line_of (bno (Locals 0 128 0 []) + 1) sched ++ key :: r) (t ++ prompt ++ [NAK]) d) end.
  2:{ unfold sent, set_tx, set_rx, prompt. cbn [rx tx data bno]. f_equal. by rewrite <-!app_assoc. }
  apply wp_receive; try (cbn; lia || done).
  { cbn [rx bno]. rewrite length_app. pose proof (line_rounds (0 + 1) sched). lia. }
  intros d' Hd'. change (take (length sched) d' = sched.*2) in Hd'.
  set (l := after _ sched).
  destruct (after_counts sched (Locals 0 128 0 [])) as [Eb Er]; try (cbn; lia). fold l in Eb, Er.
  rewrite Z.add_0_l in Eb, Er. wp_step. eapply wp_rx; [done|]. wp_step.
  eapply (wp_report _ _ sched.*2); [rewrite Eb, Nat2Z.id; exact Hd'|]. wp_step.
  specialize (HQ l d' eq_refl Hd' Eb Er). unfold sent, set_tx, set_rx. cbn [rx tx data].
  by rewrite <-!app_assoc.
Qed.

(** The count of the last block, whatever happened before it. *)
Lemma last_cnt_file f x bads l :
  x ≠ SUB → length bads = nblocks (f ++ [x]) →
  last_cnt (after l (zip bads (blocks_of (f ++ [x])))) =
    128 - Z.of_nat (128 * nblocks (f ++ [x]) - length (f ++ [x])).
Proof.
  intros Hx Hbads. pose proof (nblocks_bounds (f ++ [x])) as Hn.
  pose proof (length_blocks_of (f ++ [x])) as Hlb. destruct (blocks_snoc f x) as [bs Hbs].
  assert (length (f ++ [x]) = length f + 1)%nat as Ef by (by rewrite length_app).
  rewrite Hbs in Hlb |- *. rewrite length_app in Hlb. cbn [length] in Hlb.
  destruct bads as [|bad bads _] using rev_ind; [cbn in Hbads; lia|].
  rewrite length_app in Hbads. cbn [length] in Hbads.
  rewrite zip_with_app by lia. cbn [zip_with].
  match goal with |- context [(bad, ?b)] => destruct (last_cnt_snoc l (zip bads bs) bad b) as [last ->] end.
  apply cnts_last; [done|]. rewrite length_drop. lia.
Qed.

(** C10: a file of at most 16 KiB that does not end with the padding byte,
    sent in blocks, each of which may be hit in its data or its checksum and is
    sent again until the checksum holds, five times in all: the session ends,
    its blocks hold the file, the number of bytes it reports is the length of
    the file, each hit block was refused and each good one acknowledged, and the
    report is complete. *)
Theorem xmodem_receives o f x bads enter key r t d :
  x ≠ SUB → lenZ (f ++ [x]) <= MAX_FILE_SIZE →
  lenZ d = BLOCKS_CNT → dims d →
  length bads = nblocks (f ++ [x]) → Forall (Forall corrupt) bads →
  let sched := zip bads (blocks_of (f ++ [x])) in
  (failures sched <= 5)%nat →
  ∃ l d', run o session (XModem (enter :: line_of 1 sched ++ key :: r) t d) =
      Done (l, XModem r (t ++ prompt ++ [NAK] ++ answers sched ++
        report_text l (blocks_of (f ++ [x]))) d') ∧
    take (length (f ++ [x])) (concat d') = f ++ [x] ∧
    file_size l = lenZ (f ++ [x]) ∧ bno l = Z.of_nat (nblocks (f ++ [x])) ∧
    retries l = Z.of_nat (failures sched).
Proof.
  intros Hx Hmax Hd Hdims Hbads Hcorrupt sched Hfail. set (file := f ++ [x]) in *.
  pose proof (nblocks_bounds file) as Hn. pose proof (length_blocks_of file) as Hlb.
  assert (sched.*2 = blocks_of file) as E2 by (apply snd_zip; lia).
  assert (length sched = nblocks file) as Hlen by (unfold sched; rewrite length_zip; lia).
  assert (Forall (λ p, Forall corrupt p.1 ∧ length p.2 = 128%nat) sched) as Hsched.
  { apply Forall_forall. intros [bad b] Hp. cbn. split.
    - apply elem_of_zip_l in Hp. by eapply Forall_forall in Hcorrupt.
    - apply elem_of_zip_r in Hp. pose proof (blocks_dims file) as H. by eapply Forall_forall in H. }
  destruct (wp_total bare session (λ l s', s' = XModem r (t ++ prompt ++ [NAK] ++ answers sched ++
      report_text l (blocks_of file)) (data s') ∧ take (nblocks file) (data s') = blocks_of file ∧
      l = after (Locals 0 128 0 []) sched ∧ bno l = Z.of_nat (nblocks file) ∧
      retries l = Z.of_nat (failures sched))
    (XModem (enter :: line_of 1 sched ++ key :: r) t d) o) as (l & s' & Hrun & Hs' & Hb & -> & En & Er).
  { unfold MAX_FILE_SIZE in Hmax.
    apply wp_session; [done|done|change BLOCKS_CNT with 128; lia|done|done|].
    intros l d' Hl Hd' Hbno Hr. rewrite Hlen in *. rewrite E2 in *. done. }
  { apply bare_obeys. }
  { by intros []. }
  eexists _, (data s'). split_and!; [by rewrite <-Hs'|..|done|done].
  - rewrite <-(take_drop (nblocks file) (data s')), concat_app, Hb, concat_blocks. unfold pad_file.
    by rewrite <-app_assoc, take_app_length.
  - unfold file_size. rewrite En. subst file sched. rewrite last_cnt_file by done. lia.
Qed.

(** Five bytes in one block, hit once. *)
Lemma xmodem_receives_witness :
  let bads := [[(replicate 128 0, 1)]] in
  let sched := zip bads (blocks_of [3; 26; 0; 255; 7]) in
  ∃ l d', run quiet_oracle session
      (XModem (13 :: line_of 1 sched ++ 32 :: []) [] (replicate 128 (replicate 128 0))) =
      Done (l, XModem [] ([] ++ prompt ++ [NAK] ++ answers sched ++
        report_text l (blocks_of [3; 26; 0; 255; 7])) d') ∧
    take 5 (concat d') = [3; 26; 0; 255; 7] ∧
    file_size l = 5 ∧ bno l = 1 ∧ retries l = 1.
Proof.
  apply (xmodem_receives quiet_oracle [3; 26; 0; 255] 7 [[(replicate 128 0, 1)]] 13 32 [] []
    (replicate 128 (replicate 128 0))).
  - done.
  - unfold MAX_FILE_SIZE. cbn. lia.
  - reflexivity.
  - by apply Forall_replicate.
  - reflexivity.
  - repeat constructor; cbn; done.
  - vm_compute. lia.
Defined.

(** ** Errors of the code *)

(** Whether a session on this line ends, with how many bytes. *)
Definition session_end (line : list Z) : outcome Z :=
  match run quiet_oracle session (XModem line [] (replicate 128 (replicate 128 0))) with
  | Done (l, _) => Done (file_size l)
  | Oops f => Oops f
  | Asleep => Asleep
  end.

(** When the first byte of a packet is hit, each byte of the packet is taken
    for the start of another and refused: the arrays of reasons overflow. *)
Lemma xmodem_header_overflow :
  session_end (13 :: 0 :: drop 1 (packet 1 (replicate 128 7) 128)) = Oops StackSmash.
Proof. vm_compute. reflexivity. Qed.

(** A file of 129 blocks is written past the end of [data]. *)
Lemma xmodem_long_overflow :
  session_end (13 :: line_of 1 (replicate 129 ([], replicate 128 7))) = Oops OutOfBounds.
Proof. vm_compute. reflexivity. Qed.

(** The padding byte at the end of a file is not counted. *)
Lemma xmodem_short_count : session_end (13 :: line_of 1 (zip [[]] (blocks_of [65; SUB])) ++ [32]) = Done 1.
Proof. vm_compute. reflexivity. Qed.
