(* ===== verification/ProcPage.v ===== *)
(** * Pages lent by /proc

    A /proc file prints into a page that is lent to the read. The pages lent
    are named by numbers; writing to a page that was taken back, or past its
    end, is a fault. *)

From stdpp Require Import base tactics numbers list gmap.
From S2P Require Import Prelude KMonad Text.
From Stdlib Require Import ZArith Lia.

Open Scope Z_scope.

(** A state with pages. *)
Class HasPages (S : Type) := {
  pages_of : S → gmap nat (list cell);
  set_pages_of : gmap nat (list cell) → S → S
}.

Section pages.
Context {S : Type} `{!HasPages S}.

(** [sprintf(p, ...)] of a text, with its terminator: its length. *)
Definition sprintf (p : nat * Z) (text : list Z) : K S Z :=
  pg ← gets (λ s, pages_of s !! p.1) ≫= deref UseAfterFree;
  if bool_decide (0 <= p.2 ∧ p.2 + lenZ text + 1 <= lenZ pg) then
    modify (λ s, set_pages_of (<[p.1 := store p.2 (Some <$> text ++ [0]) pg]> (pages_of s)) s);;
    mret (lenZ text)
  else oops OutOfBounds.

(** /proc lends a page to a read, and takes it back. *)
Definition lend_page : K S nat :=
  page ← gets (λ s, fresh (dom (pages_of s)));
  modify (λ s, set_pages_of (<[page := uninit PAGE_SIZE]> (pages_of s)) s);;
  mret page.

(** The first [n] bytes of the page are what the read gives. *)
Definition take_page_back (page : nat) (n : Z) : K S (list cell) :=
  pg ← gets (λ s, pages_of s !! page) ≫= deref UseAfterFree;
  modify (λ s, set_pages_of (delete page (pages_of s)) s);;
  mret (take (Z.to_nat n) pg).

(** What /proc does around a read. *)
Definition proc_read (read : nat → K S Z) : K S (list cell) :=
  page ← lend_page;
  n ← read page;
  take_page_back page n.

(** A page that holds a text. *)
Definition holds (text : list Z) (pg : list cell) : Prop :=
  lenZ pg = PAGE_SIZE ∧ take (length text) pg = Some <$> text.

Lemma holds_nil : holds [] (uninit PAGE_SIZE).
Proof. split; [by rewrite length_uninit|by rewrite take_0]. Qed.

Context {C : contract S}.
Implicit Types (s : S).

Lemma wp_sprintf_page p off text pg s (Q : Z → S → Prop) :
  pages_of s !! p = Some pg → 0 <= off → off + lenZ text + 1 <= lenZ pg →
  Q (lenZ text) (set_pages_of (<[p := store off (Some <$> text ++ [0]) pg]> (pages_of s)) s) →
  wp C (sprintf (p, off) text) Q s.
Proof.
  intros Hp Hoff Hlen HQ. unfold sprintf. cbn [fst snd]. wp_step. wp_step. wp_step.
  apply (wp_deref _ _ _ _ _ pg); [done|]. rewrite bool_decide_true by done.
  wp_step. wp_step. by wp_step.
Qed.

(** One text after what page [p] holds. *)
Lemma wp_print_line p off text pg prefix s (Q : Z → S → Prop) :
  pages_of s !! p = Some pg → holds prefix pg → off = lenZ prefix →
  off + lenZ text + 1 <= PAGE_SIZE →
  (∀ pg', holds (prefix ++ text) pg' →
    Q (lenZ text) (set_pages_of (<[p := pg']> (pages_of s)) s)) →
  wp C (sprintf (p, off) text) Q s.
Proof.
  intros Hp [Hpg Hpre] -> Hlen HQ. eapply wp_sprintf_page; [done|lia|lia|]. apply HQ. split.
  - by rewrite length_store.
  - rewrite length_app. rewrite fmap_app.
    pose proof (take_store (lenZ prefix) (Some <$> text) (Some <$> [0]) pg) as H.
    rewrite Nat2Z.id, length_fmap in H. rewrite H; [by rewrite Hpre, fmap_app|lia|cbn; lia].
Qed.

Lemma wp_lend_page s (Q : nat → S → Prop) :
  (∀ p, pages_of s !! p = None → Q p (set_pages_of (<[p := uninit PAGE_SIZE]> (pages_of s)) s)) →
  wp C lend_page Q s.
Proof.
  intros HQ. unfold lend_page. do 4 wp_step. wp_step. apply HQ. apply not_elem_of_dom, is_fresh.
Qed.

Lemma wp_take_page_back p n pg text s (Q : list cell → S → Prop) :
  pages_of s !! p = Some pg → holds text pg → n = lenZ text →
  Q (Some <$> text) (set_pages_of (delete p (pages_of s)) s) →
  wp C (take_page_back p n) Q s.
Proof.
  intros Hp [_ Ht] -> HQ. unfold take_page_back. wp_step. wp_step. wp_step.
  apply (wp_deref _ _ _ _ _ pg); [done|]. wp_step. wp_step. wp_step. by rewrite Nat2Z.id, Ht.
Qed.
End pages.

(** ** Lines of a clock

    What is printed when each line tells the time and what passed since the
    line before; the first line counts from [j0]. *)
Section lines.
Context {A : Type} (line : Z → Z → A → list Z).

Fixpoint lines (j0 : Z) (l : list (Z * A)) : list Z :=
  match l with
  | [] => []
  | (j, c) :: l => line j (u64 (j - j0)) c ++ lines j l
  end.
Definition last_time (j0 : Z) (l : list (Z * A)) : Z :=
  match last l with Some p => p.1 | None => j0 end.

Lemma lines_snoc j0 l j c :
  lines j0 (l ++ [(j, c)]) = lines j0 l ++ line j (u64 (j - last_time j0 l)) c.
Proof.
  revert j0; induction l as [|[j1 c1] l IH]; intros j0; [cbn; by rewrite app_nil_r|].
  assert (last_time j0 ((j1, c1) :: l) = last_time j1 l) as ->.
  { unfold last_time. rewrite last_cons. by destruct (last l). }
  cbn [app lines]. by rewrite IH, <-app_assoc.
Qed.

Lemma last_time_snoc j0 l j c : last_time j0 (l ++ [(j, c)]) = j.
Proof. unfold last_time. by rewrite last_snoc. Qed.

(** Lines of at most [w] characters. *)
Lemma length_lines (ok : A → Prop) w j0 l :
  (∀ j delta c, ok c → lenZ (line j delta c) <= w) → Forall (λ p, ok p.2) l →
  lenZ (lines j0 l) <= w * lenZ l.
Proof.
  intros Hw. revert j0; induction l as [|[j c] l IH]; intros j0 Hl; [cbn; lia|].
  apply Forall_cons in Hl as [Hc Hl]. cbn [lines]. rewrite length_app. cbn [length].
  specialize (Hw j (u64 (j - j0)) c Hc). specialize (IH j Hl). lia.
Qed.
End lines.
