(* ===== verification/Jiq.v ===== *)
(** * jiq: deferred work that prints into a page (src/ldd4/misc-modules/jiq.c)

    Reading one of the /proc files of the module queues a work item, a delayed
    work item, a tasklet or a timer, and sleeps; the item prints a line into the
    page of the read and queues itself again until the page is nearly full, when
    it wakes the reader. The kernel side is explicit: what is queued, whether
    the reader sleeps, the clock and the task in whose context an item runs.
    Pages are those /proc lends to the reads in progress. *)

From stdpp Require Import base tactics numbers list gmap strings.
From S2P Require Import Prelude KMonad Text ProcPage.
From Stdlib Require Import ZArith Lia.

Open Scope Z_scope.

(** ** Data *)

(** [current], and [preempt_count()] and [smp_processor_id()] there. *)
Record task := Task { preempt : Z; pid : Z; cpu : Z; comm : list Z }.

(** The ways to defer [jiq_print]. *)
Inductive deferral := Work | DelayedWork | Tasklet | Timer.

#[export] Instance deferral_eq_dec : EqDecision deferral.
Proof. solve_decision. Defined.

(** [struct clientdata], with what is [pending], whether a reader is [asleep]
    on [jiq_wait], the module parameter [delay], and the time. *)
Record clientdata := Jiq {
  len : Z;
  buf : nat * Z;
  jiffies : Z;
  delay : Z;
  pages : gmap nat (list cell);
  pending : list deferral;
  asleep : bool;
  delay_param : Z;
  now : Z;
  current : task
}.

Definition set_len (v : Z) (x : clientdata) : clientdata :=
  Jiq v (buf x) (jiffies x) (delay x) (pages x) (pending x) (asleep x) (delay_param x) (now x)
    (current x).
Definition set_buf (v : nat * Z) (x : clientdata) : clientdata :=
  Jiq (len x) v (jiffies x) (delay x) (pages x) (pending x) (asleep x) (delay_param x) (now x)
    (current x).
Definition set_jiffies (v : Z) (x : clientdata) : clientdata :=
  Jiq (len x) (buf x) v (delay x) (pages x) (pending x) (asleep x) (delay_param x) (now x)
    (current x).
Definition set_delay (v : Z) (x : clientdata) : clientdata :=
  Jiq (len x) (buf x) (jiffies x) v (pages x) (pending x) (asleep x) (delay_param x) (now x)
    (current x).
Definition set_pages (v : gmap nat (list cell)) (x : clientdata) : clientdata :=
  Jiq (len x) (buf x) (jiffies x) (delay x) v (pending x) (asleep x) (delay_param x) (now x)
    (current x).
Definition set_pending (v : list deferral) (x : clientdata) : clientdata :=
  Jiq (len x) (buf x) (jiffies x) (delay x) (pages x) v (asleep x) (delay_param x) (now x)
    (current x).
Definition set_asleep (v : bool) (x : clientdata) : clientdata :=
  Jiq (len x) (buf x) (jiffies x) (delay x) (pages x) (pending x) v (delay_param x) (now x)
    (current x).
Definition set_now (v : Z) (x : clientdata) : clientdata :=
  Jiq (len x) (buf x) (jiffies x) (delay x) (pages x) (pending x) (asleep x) (delay_param x) v
    (current x).
Definition set_current (v : task) (x : clientdata) : clientdata :=
  Jiq (len x) (buf x) (jiffies x) (delay x) (pages x) (pending x) (asleep x) (delay_param x)
    (now x) v.

#[export] Instance clientdata_pages : HasPages clientdata :=
  { pages_of := pages; set_pages_of := set_pages }.

Definition LIMIT : Z := PAGE_SIZE - 128.

(** ** Printing *)

Definition header : list Z := ascii_of "    time  delta preempt   pid cpu command" ++ [10].

Definition line (j delta : Z) (c : task) : list Z :=
  fmt_wl 9 (s64 j) ++ [32; 32] ++ fmt_wl 4 (s64 delta) ++ ascii_of "     " ++
  fmt_wi 3 (preempt c) ++ [32] ++ fmt_wi 5 (pid c) ++ [32] ++ fmt_wi 3 (cpu c) ++ [32] ++
  comm c ++ [10].

Definition wake_up_interruptible : K clientdata unit := modify (set_asleep false).

(** The line, after the [n] characters of the header, and the new place. *)
Definition jiq_line (data_len : Z) (page : nat) (off j n : Z) : K clientdata Z :=
  j0 ← gets jiffies;
  c ← gets current;
  m ← sprintf (page, off + n) (line j (u64 (j - j0)) c);
  let n := n + m in
  modify (set_len (s32 (data_len + n)));;
  modify (set_buf (page, off + n));;
  modify (set_jiffies j);;
  mret 1.

(** Non-zero when the item should be queued again. *)
Definition jiq_print : K clientdata Z :=
  data_len ← gets len;
  '(page, off) ← gets buf;
  j ← gets now;
  if u64 data_len >? LIMIT then wake_up_interruptible;; mret 0 else
  n ← (if data_len =? 0 then sprintf (page, off) header else mret 0);
  jiq_line data_len page off j n.

(** ** Deferring *)

(** [schedule_work], [schedule_delayed_work], [tasklet_schedule], [add_timer]:
    what is pending already stays as it is. *)
Definition queue (h : deferral) : K clientdata unit :=
  modify (λ s, if decide (h ∈ pending s) then s else set_pending (pending s ++ [h]) s).

Definition jiq_print_wq : K clientdata unit :=
  r ← jiq_print;
  if negb (c_bool r) then mret tt else queue Work.

(** The delay only says when the item runs. *)
Definition jiq_print_wq_delayed : K clientdata unit :=
  r ← jiq_print;
  if negb (c_bool r) then mret tt else queue DelayedWork.

Definition jiq_print_tasklet : K clientdata unit :=
  r ← jiq_print;
  if c_bool r then queue Tasklet else mret tt.

Definition jiq_timedout : K clientdata unit :=
  jiq_print;;
  wake_up_interruptible.

Definition handler (h : deferral) : K clientdata unit :=
  match h with
  | Work => jiq_print_wq
  | DelayedWork => jiq_print_wq_delayed
  | Tasklet => jiq_print_tasklet
  | Timer => jiq_timedout
  end.

(** The kernel runs the next thing that is pending, in some context, at some
    time. *)
Definition run_next : K clientdata unit :=
  interfere;;
  l ← gets pending;
  match l with
  | [] => mret tt
  | h :: l => modify (set_pending l);; handler h
  end.

(** The kernel runs the next [n] things that are pending. *)
Fixpoint run_rounds (n : nat) : K clientdata unit :=
  match n with
  | O => mret tt
  | S n => run_next;; run_rounds n
  end.

(** The sleep of a reader: until it is woken, or a signal comes; with nothing
    pending nobody will wake it. Each round runs one thing that is pending. *)
Fixpoint schedule (fuel : nat) : K clientdata unit :=
  match fuel with
  | O => sleep_forever
  | S fuel =>
      a ← gets asleep;
      if negb a then mret tt else
      sig ← call signal_pending;
      if c_bool sig then modify (set_asleep false) else
      l ← gets pending;
      match l with
      | [] => sleep_forever
      | _ => run_next;; schedule fuel
      end
  end.

(** ** Reading *)

(** [jiq_data.len = 0; jiq_data.buf = buf; jiq_data.jiffies = jiffies]. *)
Definition start (page : nat) : K clientdata unit :=
  modify (set_len 0);;
  modify (set_buf (page, 0));;
  j ← gets now;
  modify (set_jiffies j).

Definition jiq_read_wq (fuel page : nat) : K clientdata Z :=
  start page;;
  modify (set_delay 0);;
  modify (set_asleep true);;
  queue Work;;
  schedule fuel;;
  modify (set_asleep false);;
  gets len.

Definition jiq_read_wq_delayed (fuel page : nat) : K clientdata Z :=
  start page;;
  modify (λ s, set_delay (delay_param s) s);;
  modify (set_asleep true);;
  queue DelayedWork;;
  schedule fuel;;
  modify (set_asleep false);;
  gets len.

(** [interruptible_sleep_on]: the task is put on the queue after the tasklet
    was scheduled, which may have run any number of times by then. *)
Definition jiq_read_tasklet (fuel page : nat) : K clientdata Z :=
  start page;;
  queue Tasklet;;
  early ← call (kint "early"%string);
  run_rounds (Z.to_nat early);;
  modify (set_asleep true);;
  schedule fuel;;
  modify (set_asleep false);;
  gets len.

(** The timer may expire before the task is on the queue. *)
Definition jiq_read_run_timer (fuel page : nat) : K clientdata Z :=
  start page;;
  jiq_print;;
  queue Timer;;
  early ← call (kint "expired"%string);
  (if c_bool early then run_next else mret tt);;
  modify (set_asleep true);;
  schedule fuel;;
  modify (set_asleep false);;
  modify (λ s, set_pending (filter (λ h, h ≠ Timer) (pending s)) s);;
  gets len.

(** The function behind each file. *)
Definition reader (h : deferral) : nat → nat → K clientdata Z :=
  match h with
  | Work => jiq_read_wq
  | DelayedWork => jiq_read_wq_delayed
  | Tasklet => jiq_read_tasklet
  | Timer => jiq_read_run_timer
  end.

(** * Specification *)

(** A task's name has at most fifteen characters. *)
Definition task_ok (c : task) : Prop := (length (comm c) <= 15)%nat.

Lemma length_line j delta c : task_ok c → 35 <= lenZ (line j delta c) <= 99.
Proof.
  unfold task_ok, line. intros Hc. rewrite !length_app.
  pose proof (length_fmt_wl_le 9 (s64 j)). pose proof (length_fmt_wl_le 4 (s64 delta)).
  pose proof (length_fmt_wi_le 3 (preempt c)). pose proof (length_fmt_wi_le 5 (pid c)).
  pose proof (length_fmt_wi_le 3 (cpu c)). cbn [length].
  change (length (ascii_of "     ")) with 5%nat. lia.
Qed.

Definition text_of (j0 : Z) (l : list (Z * task)) : list Z :=
  match l with [] => [] | _ => header ++ lines line j0 l end.

(** The read that started at [j0] has printed [l] into page [p]. *)
Record printed (p : nat) (j0 : Z) (l : list (Z * task)) (s : clientdata) : Prop := {
  pr_len : len s = lenZ (text_of j0 l);
  pr_buf : buf s = (p, lenZ (text_of j0 l));
  pr_jiffies : jiffies s = last_time j0 l;
  pr_bound : lenZ (text_of j0 l) <= LIMIT + 99;
  pr_upper : lenZ (text_of j0 l) <= 42 + 99 * lenZ l;
  pr_lines : 42 + 35 * lenZ l <= lenZ (text_of j0 l) ∨ l = [];
  pr_page : ∃ pg, pages s !! p = Some pg ∧ lenZ pg = PAGE_SIZE ∧
    take (length (text_of j0 l)) pg = Some <$> text_of j0 l
}.

(** Nothing but the text of page [p] changed. *)
Record framed (p : nat) (s s' : clientdata) : Prop := {
  fr_pending : pending s' = pending s;
  fr_asleep : asleep s' = asleep s;
  fr_current : current s' = current s;
  fr_pages : delete p (pages s') = delete p (pages s)
}.

(** The clock goes on, and another task may run; nothing else happens to what
    the module keeps, and no signal comes. *)
Definition clock (s s' : clientdata) : Prop :=
  s' = set_now (now s') (set_current (current s') s) ∧ task_ok (current s').
Record jiq_contract (C : contract clientdata) : Prop := {
  jq_clock : ∀ s s', c_rely C s s' → clock s s';
  jq_signal : ∀ z, c_ans C signal_pending z → z = 0
}.

Lemma text_of_snoc j0 l j c :
  text_of j0 (l ++ [(j, c)]) =
    (if decide (l = []) then header else text_of j0 l) ++ line j (u64 (j - last_time j0 l)) c.
Proof.
  unfold text_of. destruct l as [|p l]; [cbn; by rewrite app_nil_r|].
  rewrite decide_False by done.
  transitivity (header ++ lines line j0 ((p :: l) ++ [(j, c)])); [done|]. by rewrite lines_snoc, app_assoc.
Qed.

Section printing.
Context (C : contract clientdata).
Implicit Types (s : clientdata).

(** The line after a prefix: the header, or all that was printed before. *)
Lemma wp_jiq_line p j0 l n s0 s (Q : Z → clientdata → Prop) :
  let pre := if decide (l = []) then header else text_of j0 l in
  framed p s0 s → task_ok (current s) → jiffies s = last_time j0 l →
  (∃ pg, pages s !! p = Some pg ∧ lenZ pg = PAGE_SIZE ∧ take (length pre) pg = Some <$> pre) →
  lenZ (text_of j0 l) + n = lenZ pre → lenZ (text_of j0 l) <= LIMIT → lenZ pre <= LIMIT →
  42 + 35 * lenZ l <= lenZ pre <= 42 + 99 * lenZ l →
  (∀ s', framed p s0 s' → printed p j0 (l ++ [(now s, current s)]) s' → Q 1 s') →
  wp C (jiq_line (lenZ (text_of j0 l)) p (lenZ (text_of j0 l)) (now s) n) Q s.
Proof.
  intros pre Hfr Hc Hj (pg & Hp & Hpg & Htake) Hn Hlim Hpre Hl HQ. unfold jiq_line.
  wp_step. wp_step. wp_step. wp_step. rewrite Hj.
  pose proof (length_line (now s) (u64 (now s - last_time j0 l)) _ Hc) as Hln.
  pose proof (text_of_snoc j0 l (now s) (current s)) as Hsnoc. fold pre in Hsnoc.
  set (ln := line (now s) _ (current s)) in *. unfold LIMIT, PAGE_SIZE in *.
  assert (lenZ (text_of j0 (l ++ [(now s, current s)])) = lenZ pre + lenZ ln) as Hlen.
  { rewrite Hsnoc, length_app. lia. }
  wp_step. eapply (wp_print_line p _ ln pg pre); [done|done|lia|unfold PAGE_SIZE; lia|].
  intros pg' [Hpg' Htake']. do 7 wp_step. apply HQ.
  - destruct Hfr. split; cbn; try done. by rewrite delete_insert_eq.
  - split; cbn; try done.
    + rewrite s32_small; lia.
    + f_equal. lia.
    + by rewrite last_time_snoc.
    + unfold LIMIT, PAGE_SIZE. lia.
    + rewrite Hlen, length_app. cbn [length]. lia.
    + left. rewrite Hlen, length_app. cbn [length]. lia.
    + exists pg'. rewrite lookup_insert_eq, Hsnoc. done.
Qed.

Lemma wp_jiq_print p j0 l s (Q : Z → clientdata → Prop) :
  printed p j0 l s → task_ok (current s) →
  (LIMIT < lenZ (text_of j0 l) → Q 0 (set_asleep false s)) →
  (lenZ (text_of j0 l) <= LIMIT → ∀ s', framed p s s' →
    printed p j0 (l ++ [(now s, current s)]) s' → Q 1 s') →
  wp C jiq_print Q s.
Proof.
  intros [Hlen Hbuf Hj Hb Hu Hl (pg & Hp & Hpg & Htake)] Hc Hfull Hmore. unfold jiq_print.
  wp_step. wp_step. wp_step. wp_step. rewrite Hbuf. wp_step. wp_step. rewrite Hlen.
  unfold LIMIT, PAGE_SIZE in Hb. rewrite u64_small by lia. wp_step; zbool.
  { unfold wake_up_interruptible. do 3 wp_step. by apply Hfull. }
  specialize (Hmore ltac:(lia)). assert (framed p s s) as Hrefl by done.
  wp_step. destruct (lenZ (text_of j0 l) =? 0) eqn:E; zbool.
  - assert (l = []) as ->. { destruct Hl; [lia|done]. }
    change (lenZ (text_of j0 [])) with 0.
    eapply (wp_print_line p 0 header pg []); [done..|]. intros pg' [Hpg' Htake'].
    apply (wp_jiq_line p j0 [] _ s (set_pages (<[p := pg']> (pages s)) s)); try done.
    + split; try done. cbn. by rewrite delete_insert_eq.
    + exists pg'. split; [by apply lookup_insert_eq|]. by rewrite decide_True.
  - wp_step. assert (l ≠ []) as Hne by (intros ->; by destruct E).
    apply (wp_jiq_line p j0 l _ s s); try done; rewrite ?decide_False by done; try lia.
    + by exists pg.
    + destruct Hl; [lia|done].
Qed.
End printing.

(** The read is over: the page is full and nothing is left to run. *)
Record filled (p : nat) (j0 : Z) (s0 s : clientdata) : Prop := {
  fl_text : ∃ l, printed p j0 l s ∧ LIMIT < lenZ (text_of j0 l);
  fl_pending : pending s = [];
  fl_asleep : asleep s = false;
  fl_pages : delete p (pages s) = delete p (pages s0)
}.

Section reading.
Context (C : contract clientdata) (HC : jiq_contract C).
Implicit Types (s : clientdata).

Lemma clock_printed p j0 l s s' : clock s s' → printed p j0 l s → printed p j0 l s'.
Proof. intros [-> _] []. by split. Qed.

(** One run of an item that queues itself again; the reader may sleep or not. *)
Lemma wp_run_next h p j0 l s (Q : unit → clientdata → Prop) :
  h ≠ Timer → printed p j0 l s → pending s = [h] →
  (∀ s', LIMIT < lenZ (text_of j0 l) → printed p j0 l s' → pending s' = [] → asleep s' = false →
    delete p (pages s') = delete p (pages s) → Q tt s') →
  (∀ s' x, lenZ (text_of j0 l) <= LIMIT → printed p j0 (l ++ [x]) s' → pending s' = [h] →
    asleep s' = asleep s → delete p (pages s') = delete p (pages s) → Q tt s') →
  wp C run_next Q s.
Proof.
  intros Hh Hpr Hpend Hfull Hmore. unfold run_next. wp_step. wp_step.
  match goal with H : c_rely C s _ |- _ => apply (jq_clock _ HC) in H as Hclk end.
  apply (clock_printed p j0 l) in Hclk as Hpr'; [|done]. destruct Hclk as [Hs' Hc].
  wp_step. wp_step. replace (pending s') with [h] by (by rewrite Hs').
  wp_step. wp_step. set (s1 := set_pending [] s').
  assert (printed p j0 l s1) as Hpr1 by (destruct Hpr'; by split).
  assert (∀ Q, (LIMIT < lenZ (text_of j0 l) → Q 0 (set_asleep false s1)) →
    (∀ s2, lenZ (text_of j0 l) <= LIMIT → framed p s1 s2 →
      printed p j0 (l ++ [(now s1, current s1)]) s2 → Q 1 s2) → wp C jiq_print Q s1) as Hprint.
  { intros Q' H1 H2. apply (wp_jiq_print _ p j0 l); [done|done|done|]. intros. by apply H2. }
  assert (∀ s2, framed p s1 s2 → ∀ h, wp C (queue h) (λ _ s3, s3 = set_pending [h] s2) s2) as Hq.
  { intros s2 [Hp _ _ _] h'. apply wp_modify. rewrite Hp. rewrite decide_False; [done|].
    apply not_elem_of_nil. }
  assert (Hend : LIMIT < lenZ (text_of j0 l) → Q tt (set_asleep false s1)).
  { intros. apply Hfull; [done|destruct Hpr1; by split|done|done|]. cbn. by rewrite Hs'. }
  assert (Hgo : ∀ s2, lenZ (text_of j0 l) <= LIMIT → framed p s1 s2 →
    printed p j0 (l ++ [(now s1, current s1)]) s2 → Q tt (set_pending [h] s2)).
  { intros s2 ? [_ Hsl _ Hpg] Hpr2. eapply Hmore; [done|destruct Hpr2; by split|done|..].
    - cbn. rewrite Hsl. cbn. by rewrite Hs'.
    - cbn. rewrite Hpg. cbn. by rewrite Hs'. }
  destruct h; [| | |done]; cbn [handler];
    unfold jiq_print_wq, jiq_print_wq_delayed, jiq_print_tasklet; wp_step; (apply Hprint;
    [intros; change (c_bool 0) with false; cbn [negb]; wp_step; by apply Hend|]);
    intros s2 ? Hfr ?; change (c_bool 1) with true; cbn [negb];
    (eapply wp_mono; [by apply Hq|]); intros [] ? ->; by apply Hgo.
Qed.

(** Forty runs do not fill the page. *)
Lemma wp_run_rounds h p j0 n l s (Q : unit → clientdata → Prop) :
  h ≠ Timer → printed p j0 l s → pending s = [h] → lenZ l + Z.of_nat n <= 40 →
  (∀ l s', printed p j0 l s' → pending s' = [h] →
    delete p (pages s') = delete p (pages s) → Q tt s') →
  wp C (run_rounds n) Q s.
Proof.
  intros Hh. revert l s. induction n as [|n IH]; intros l s Hpr Hpend Hn HQ; cbn [run_rounds].
  { wp_step. by eapply HQ. }
  wp_step. apply (wp_run_next h p j0 l); [done..| |].
  - intros s' Hfull. destruct Hpr. unfold LIMIT, PAGE_SIZE in *. lia.
  - intros s' x _ Hpr' Hp' _ Hpg. eapply IH; [exact Hpr'|done|rewrite length_app; cbn [length]; lia|].
    intros l2 s2 ? ? E. eapply HQ; [done..|]. by rewrite E.
Qed.

(** The reader is woken after finitely many runs, with a full page. *)
Lemma wp_schedule h p j0 l fuel s (Q : unit → clientdata → Prop) :
  h ≠ Timer → printed p j0 l s → pending s = [h] → asleep s = true →
  (120 <= fuel + length l)%nat → (∀ s', filled p j0 s s' → Q tt s') →
  wp C (schedule fuel) Q s.
Proof.
  intros Hh. revert l s. induction fuel as [|fuel IH]; intros l s Hpr Hpend Ha Hfuel HQ.
  { destruct Hpr as [_ _ _ Hb _ [Hl| ->] _]; [unfold LIMIT, PAGE_SIZE in *; lia|cbn in *; lia]. }
  cbn [schedule]. wp_step. wp_step. rewrite Ha. cbn [negb]. wp_step. wp_step.
  rewrite (jq_signal _ HC z) by done. change (c_bool 0) with false. cbn iota.
  wp_step. wp_step. rewrite Hpend. wp_step. apply (wp_run_next h p j0 l); [done..| |].
  - intros s' Hfull Hpr' Hp' Ha' Hpg. destruct fuel as [|fuel].
    { destruct Hpr as [_ _ _ Hb _ [Hl| ->] _]; [unfold LIMIT, PAGE_SIZE in *; lia|cbn in *; lia]. }
    cbn [schedule]. wp_step. wp_step. rewrite Ha'. cbn [negb]. wp_step.
    apply HQ. split; [by exists l|done..].
  - intros s' x Hlim Hpr' Hp' Ha' Hpg. eapply IH; [exact Hpr'|done|congruence|rewrite length_app; cbn; lia|].
    intros s2 []. apply HQ. split; [done..|]. congruence.
Qed.

(** A read that starts with an empty page and nothing pending. *)
Lemma started p s :
  pages s !! p = Some (uninit PAGE_SIZE) →
  printed p (now s) [] (set_jiffies (now s) (set_buf (p, 0) (set_len 0 s))).
Proof.
  intros Hp. split; try done; [by right|]. exists (uninit PAGE_SIZE). split_and!; try done.
Qed.

(** Marking the queue, the sleep or the delay does not touch the text. *)
Lemma printed_same p j0 l s s' :
  len s' = len s → buf s' = buf s → jiffies s' = jiffies s → pages s' = pages s →
  printed p j0 l s → printed p j0 l s'.
Proof. intros E1 E2 E3 E4 []. split; rewrite ?E1, ?E2, ?E3, ?E4; done. Qed.

Lemma wp_queue h s (Q : unit → clientdata → Prop) :
  pending s = [] → Q tt (set_pending [h] s) → wp C (queue h) Q s.
Proof.
  intros Hp HQ. apply wp_modify. rewrite Hp. rewrite decide_False; [done|]. apply not_elem_of_nil.
Qed.

(** The tasklet does not fill the page before the reader is on the queue. *)
Definition in_time : Prop := ∀ z, c_ans C (kint "early"%string) z → z <= 40.

Lemma wp_reader h fuel p s (Q : Z → clientdata → Prop) :
  h ≠ Timer → (h = Tasklet → in_time) → (120 <= fuel)%nat → pages s !! p = Some (uninit PAGE_SIZE) →
  pending s = [] → (∀ s', filled p (now s) s s' → Q (len s') s') →
  wp C (reader h fuel p) Q s.
Proof.
  intros Hh Hearly Hfuel Hp Hpend HQ. pose proof (started p s Hp) as Hst.
  assert (∀ l s1, printed p (now s) l s1 → delete p (pages s1) = delete p (pages s) →
    pending s1 = [h] → asleep s1 = true →
    wp C (schedule fuel) (λ _ s', Q (len s') (set_asleep false s')) s1) as Hrest.
  { intros l s1 Hpr Hpg ? ?. apply (wp_schedule h p (now s) l); try done; [lia|].
    intros s' [(l' & Hl & ?) ? ? Hd]. apply (HQ (set_asleep false s')). split; try done.
    - exists l'. split; [|done]. by eapply printed_same; [..|exact Hl].
    - cbn. by rewrite Hd, Hpg. }
  assert (∀ s1, len s1 = 0 → buf s1 = (p, 0) → jiffies s1 = now s → pages s1 = pages s →
    printed p (now s) [] s1) as Hprinted by (intros; by eapply printed_same; [..|exact Hst]).
  destruct h; [| | |done]; cbn [reader];
    unfold jiq_read_wq, jiq_read_wq_delayed, jiq_read_tasklet, start;
    repeat (first [apply wp_queue; [done|]|wp_step]).
  1,2: eapply wp_mono; [eapply Hrest; [by apply Hprinted|done..]|]; intros [] s' HQ'; by repeat wp_step.
  eapply (wp_run_rounds Tasklet p (now s) _ []); [done|by apply Hprinted|done| |].
  { pose proof (Hearly eq_refl z ltac:(done)). cbn [length]. lia. }
  intros l s' Hpr Hp' Hpg. repeat wp_step.
  eapply wp_mono; [by eapply Hrest; [by eapply printed_same; [..|exact Hpr]|..]|].
  intros [] s2 HQ'. by repeat wp_step.
Qed.
End reading.

(** * Properties *)

(** C28: one read at a time of the file of the work item, of the delayed one or
    of the tasklet, the reader not signalled: the read ends, however long the time
    between the runs and whatever tasks they run in, and for the tasklet provided
    that it runs at most 40 times before the reader is on the wait queue. The
    reader is woken after at most 120 rounds, and gets the header and one line for
    each run but the last, all of it printed, more than LIMIT bytes and less than a
    page; nothing stays queued, and no page is touched but its own. (A signal makes
    the item print into a page that is freed, [jiq_signal_use_after_free]; a tasklet
    that fills the page first makes the read hang, [jiq_tasklet_race].) *)
Theorem jiq_read_ends C h fuel s o :
  jiq_contract C → ¬ c_sleep C → obeys o C →
  h ≠ Timer → (h = Tasklet → in_time C) → (120 <= fuel)%nat → pending s = [] →
  ∃ bytes l s', run o (proc_read (reader h fuel)) s = Done (bytes, s') ∧
    bytes = Some <$> header ++ lines line (now s) l ∧ LIMIT < lenZ bytes < PAGE_SIZE ∧
    pending s' = [] ∧ pages s' = pages s.
Proof.
  intros HC Hsl Ho Hh Hearly Hfuel Hpend.
  destruct (wp_total C (proc_read (reader h fuel)) (λ bytes s', ∃ l,
    bytes = Some <$> header ++ lines line (now s) l ∧ LIMIT < lenZ bytes < PAGE_SIZE ∧
    pending s' = [] ∧ pages s' = pages s) s o) as (bytes & s' & Hrun & l & H); [|done..|by exists bytes, l, s'].
  unfold proc_read. wp_step. apply wp_lend_page. intros p Hp.
  wp_step. apply (wp_reader C HC h fuel p); [done|done|done|apply lookup_insert_eq|done|].
  intros s1 [(l & [Hlen _ _ Hb _ Hl (pg & Hpg & Hpl & Htake)] & Hfull) Hpend1 _ Hpages].
  change (now (set_pages_of _ s)) with (now s) in *.
  apply (wp_take_page_back p _ pg (text_of (now s) l)); [done|done|done|].
  assert (text_of (now s) l = header ++ lines line (now s) l) as Htext.
  { destruct l; [unfold LIMIT, PAGE_SIZE in Hfull; cbn in Hfull; lia|done]. }
  exists l. rewrite <-Htext, length_fmap. unfold LIMIT, PAGE_SIZE in *. split_and!; [done|lia|lia|done|].
  cbn in Hpages |- *. by rewrite Hpages, delete_insert_id.
Qed.

(** Nobody signals the reader; each item runs in the context of a worker. *)
Definition worker : task := Task 1 42 0 (ascii_of "events/0").
Definition jiq_kernel : contract clientdata :=
  Contract (λ c z, match c with kint _ => 0 <= z <= 40 | _ => good_ans c z end) clock False.
Definition jiq_oracle : oracle clientdata :=
  Oracle quiet_ans (λ _ _, 0) (λ _ s, set_now (now s + 3) (set_current worker s)).

Lemma jiq_kernel_ok : jiq_contract jiq_kernel.
Proof. split; [done|]. by intros z [_ Hz]. Qed.

Lemma jiq_oracle_obeys : obeys jiq_oracle jiq_kernel.
Proof.
  split; [intros c t; pose proof (proj1 (quiet_obeys (S:=clientdata)) c t); by destruct c|]. intros t s. split; [by destruct s|]. unfold task_ok. cbn. lia.
Qed.

(** The module as it is loaded, at some time, [cat] being the current task. *)
Definition jiq_loaded (j : Z) : clientdata :=
  Jiq 0 (0%nat, 0) 0 0 ∅ [] false 1 j (Task 0 1234 0 (ascii_of "cat")).

Lemma jiq_read_ends_witness :
  ∃ bytes l s', run jiq_oracle (proc_read (reader Tasklet 120)) (jiq_loaded 100) = Done (bytes, s') ∧
    bytes = Some <$> header ++ lines line (now (jiq_loaded 100)) l ∧ LIMIT < lenZ bytes < PAGE_SIZE ∧
    pending s' = [] ∧ pages s' = pages (jiq_loaded 100).
Proof.
  apply (jiq_read_ends jiq_kernel Tasklet 120 (jiq_loaded 100) jiq_oracle);
    [apply jiq_kernel_ok|by intros []|apply jiq_oracle_obeys|done|by intros _ z []|lia|done].
Defined.

(** A read of the timer's file that the timer does not overtake: the header, a
    line by the reader itself and one by the timer. *)
Lemma wp_run_timer C fuel p s (Q : Z → clientdata → Prop) :
  jiq_contract C → (∀ z, c_ans C (kint "expired") z → z = 0) → task_ok (current s) →
  pages s !! p = Some (uninit PAGE_SIZE) → pending s = [] →
  (∀ x s', printed p (now s) [(now s, current s); x] s' → pending s' = [] →
    delete p (pages s') = delete p (pages s) → Q (len s') s') →
  wp C (jiq_read_run_timer (S (S fuel)) p) Q s.
Proof.
  intros HC Hearly Hc Hp Hpend HQ. unfold jiq_read_run_timer, start.
  repeat wp_step.
  set (s0 := set_jiffies _ _). assert (printed p (now s) [] s0) as Hst by exact (started p s Hp).
  apply (wp_jiq_print C p (now s) [] s0); [done|done|unfold LIMIT, PAGE_SIZE; cbn; lia|].
  intros _ s1 [Hpend1 Hsl1 _ Hpg1] Hpr1. wp_step. apply wp_queue; [by rewrite Hpend1|].
  wp_step. wp_step. rewrite (Hearly z) by done. change (c_bool 0) with false. cbn iota.
  wp_step. wp_step. wp_step. wp_step. wp_step.
  set (s2 := set_asleep true _). assert (printed p (now s) [(now s, current s)] s2) as Hpr2.
  { by eapply printed_same; [..|exact Hpr1]. }
  cbn [schedule]. do 2 wp_step. change (asleep s2) with true. cbn [negb]. wp_step. wp_step.
  rewrite (jq_signal _ HC z0) by done. change (c_bool 0) with false. cbn iota. do 2 wp_step.
  change (pending s2) with [Timer]. cbn iota. wp_step. unfold run_next. wp_step. wp_step.
  match goal with H : c_rely C s2 _ |- _ => apply (jq_clock _ HC) in H as Hclk end.
  apply (clock_printed p (now s) [(now s, current s)]) in Hclk as Hpr3; [|done].
  destruct Hclk as [Hs' Hc']. do 2 wp_step. replace (pending s') with [Timer] by (by rewrite Hs').
  cbn iota. wp_step. wp_step. cbn [handler]. unfold jiq_timedout, wake_up_interruptible. wp_step.
  apply (wp_jiq_print C p (now s) [(now s, current s)] (set_pending [] s')).
  - by eapply printed_same; [..|exact Hpr3].
  - done.
  - intros Hfull. destruct Hpr2. pose proof (length_line (now s) (u64 (now s - now s)) _ Hc) as Hl.
    cbn [text_of lines] in Hfull. rewrite app_nil_r, length_app in Hfull.
    change (length header) with 42%nat in Hfull. unfold LIMIT, PAGE_SIZE in Hfull. lia.
  - intros _ s4 [Hpend4 _ _ Hpg4] Hpr4. wp_step. do 2 wp_step. cbn [asleep set_asleep negb].
    repeat wp_step. eapply HQ.
    + by eapply printed_same; [..|exact Hpr4].
    + cbn. by rewrite Hpend4.
    + cbn. rewrite Hpg4. cbn. rewrite Hs'. cbn. rewrite Hpg1. done.
Qed.

(** ** Errors of the code *)

(** A signal ends the sleep while the item is queued: it prints into a page
    that /proc has freed. *)
Lemma jiq_signal_use_after_free :
  run (Oracle (λ c _, match c with signal_pending => 1 | _ => 0 end) (λ _ _, 0) (λ _ s, s))
    (proc_read (reader Work 5);; run_next) (jiq_loaded 100) = Oops UseAfterFree.
Proof. vm_compute. reflexivity. Qed.

(** A tasklet that runs until the page is full before the reader is on the queue
    wakes nobody. *)
Lemma jiq_tasklet_race :
  run (Oracle (λ c _, match c with kint _ => 200 | _ => 0 end) (λ _ _, 0) (λ _ s, s))
    (proc_read (reader Tasklet 120)) (jiq_loaded 100) = Asleep.
Proof. vm_compute. reflexivity. Qed.

(** A timer that expires before the reader sleeps wakes nobody. *)
Lemma jiq_timer_race :
  run (Oracle (λ c _, match c with kint _ => 1 | _ => 0 end) (λ _ _, 0) (λ _ s, s))
    (proc_read (reader Timer 5)) (jiq_loaded 100) = Asleep.
Proof. vm_compute. reflexivity. Qed.
