(* ===== verification/Jit.v ===== *)
(** * jit: delays and periodic timers (src/ldd4/misc-modules/jit.c)

    [jit_fn] waits in four ways. [jit_timer] and [jit_tasklet] allocate a block
    per read, so that several reads may be under way at once, and print six
    lines into the page of the read: one by the read itself, five by a timer or
    a tasklet that schedules itself again. A read is two pieces of code, before
    and after its sleep; every interleaving of those pieces and of the handlers
    of all reads is a path of the machine at the end of this file. *)

From stdpp Require Import base tactics numbers list gmap strings.
From S2P Require Import Prelude KMonad Text ProcPage.
From Stdlib Require Import ZArith Lia.

Open Scope Z_scope.

(** ** Data *)

(** What a line tells of the context it is printed in: [in_interrupt()],
    [current->pid], [smp_processor_id()], [current->comm]. *)
Record context := Context { inirq : bool; pid : Z; cpu : Z; comm : list Z }.

(** [struct jit_data]; [buf] is a place in a page. *)
Record jit_data := JitData {
  expires : Z;
  hi : bool;
  prevjiffies : Z;
  buf : nat * Z;
  loops : Z
}.

Definition set_expires (v : Z) (x : jit_data) : jit_data :=
  JitData v (hi x) (prevjiffies x) (buf x) (loops x).
Definition set_prevjiffies (v : Z) (x : jit_data) : jit_data :=
  JitData (expires x) (hi x) v (buf x) (loops x).
Definition set_buf (v : nat * Z) (x : jit_data) : jit_data :=
  JitData (expires x) (hi x) (prevjiffies x) v (loops x).
Definition set_loops (v : Z) (x : jit_data) : jit_data :=
  JitData (expires x) (hi x) (prevjiffies x) (buf x) v.

(** The two handlers. *)
Inductive deferral := Timer | Tasklet.

#[export] Instance deferral_eq_dec : EqDecision deferral.
Proof. solve_decision. Defined.

(** The blocks that are allocated, the pages lent, what is pending and for which
    block, the clock, the context of the running code, and the parameters. *)
Record jit := Jit {
  datas : gmap nat jit_data;
  pages : gmap nat (list cell);
  pending : list (deferral * nat);
  jiffies : Z;
  current : context;
  delay : Z;
  tdelay : Z
}.

Definition set_datas (v : gmap nat jit_data) (x : jit) : jit :=
  Jit v (pages x) (pending x) (jiffies x) (current x) (delay x) (tdelay x).
Definition set_pages (v : gmap nat (list cell)) (x : jit) : jit :=
  Jit (datas x) v (pending x) (jiffies x) (current x) (delay x) (tdelay x).
Definition set_pending (v : list (deferral * nat)) (x : jit) : jit :=
  Jit (datas x) (pages x) v (jiffies x) (current x) (delay x) (tdelay x).
Definition set_jiffies (v : Z) (x : jit) : jit :=
  Jit (datas x) (pages x) (pending x) v (current x) (delay x) (tdelay x).
Definition set_current (v : context) (x : jit) : jit :=
  Jit (datas x) (pages x) (pending x) (jiffies x) v (delay x) (tdelay x).

#[export] Instance jit_pages : HasPages jit := { pages_of := pages; set_pages_of := set_pages }.

Definition JIT_ASYNC_LOOPS : Z := 5.

(** ** Delays *)

Inductive jit_files := JIT_BUSY | JIT_SCHED | JIT_QUEUE | JIT_SCHEDTO.

(** [time_before(a, b)] *)
Definition time_before (a b : Z) : bool := s64 (a - b) <? 0.

(** [while (time_before(jiffies, j1)) ...]: each turn reads the clock, which
    others may have moved. *)
Fixpoint wait_until (fuel : nat) (j1 : Z) : K jit unit :=
  match fuel with
  | O => oops Endless
  | S fuel =>
      j ← gets jiffies;
      if time_before j j1 then interfere;; wait_until fuel j1 else mret tt
  end.

(** The last two ways leave the wait to the kernel. *)
Definition jit_fn (fuel : nat) (way : jit_files) (page : nat) : K jit Z :=
  j0 ← gets jiffies;
  d ← gets delay;
  let j1 := u64 (j0 + d) in
  (match way with
   | JIT_BUSY | JIT_SCHED => wait_until fuel j1
   | JIT_QUEUE | JIT_SCHEDTO => interfere
   end);;
  j1 ← gets jiffies;
  sprintf (page, 0) (fmt_wl 9 (s64 j0) ++ [32] ++ fmt_wl 9 (s64 j1) ++ [10]).

(** ** Timers and tasklets *)

Definition header : list Z := ascii_of "   time   delta  inirq    pid   cpu command" ++ [10].

#[global] Arguments header : simpl never.

Definition line (j delta : Z) (c : context) : list Z :=
  fmt_wl 9 (s64 j) ++ [32; 32] ++ fmt_wl 3 (s64 delta) ++ ascii_of "     " ++
  fmt_i (if inirq c then 1 else 0) ++ ascii_of "    " ++ fmt_wi 6 (pid c) ++
  ascii_of "   " ++ fmt_i (cpu c) ++ ascii_of "   " ++ comm c ++ [10].

(** [data->...] of block [d]. *)
Definition get_data (d : nat) : K jit jit_data := gets (λ s, datas s !! d) ≫= deref UseAfterFree.
Definition put_data (d : nat) (f : jit_data → jit_data) : K jit unit :=
  modify (λ s, set_datas (alter f d (datas s)) s).

(** [add_timer], [tasklet_schedule], [tasklet_hi_schedule]. *)
Definition defer (h : deferral) (d : nat) : K jit unit :=
  modify (λ s, set_pending (pending s ++ [(h, d)]) s).

(** The line both handlers print, and [--data->loops]. *)
Definition print_data (d : nat) : K jit Z :=
  j ← gets jiffies;
  dt ← get_data d;
  c ← gets current;
  n ← sprintf (buf dt) (line j (u64 (j - prevjiffies dt)) c);
  put_data d (set_buf ((buf dt).1, (buf dt).2 + n));;
  put_data d (set_loops (s32 (loops dt - 1)));;
  mret (s32 (loops dt - 1)).

(** [wake_up_interruptible(&data->wait)]: the queue is in block [d]. The reader
    looks at [loops], which is 0 by now: it need not be woken to go on, and on
    another processor it may have gone on already. *)
Definition wake_up_interruptible (d : nat) : K jit unit :=
  interfere;;
  get_data d;;
  mret tt.

Definition jit_timer_fn (d : nat) : K jit unit :=
  j ← gets jiffies;
  l ← print_data d;
  if c_bool l then
    t ← gets tdelay;
    put_data d (λ dt, set_expires (u64 (expires dt + t)) dt);;
    put_data d (set_prevjiffies j);;
    defer Timer d
  else wake_up_interruptible d.

(** Both priorities run the handler. *)
Definition jit_tasklet_fn (d : nat) : K jit unit :=
  j ← gets jiffies;
  l ← print_data d;
  if c_bool l then
    put_data d (set_prevjiffies j);;
    defer Tasklet d
  else wake_up_interruptible d.

Definition handler (h : deferral) : nat → K jit unit :=
  match h with Timer => jit_timer_fn | Tasklet => jit_tasklet_fn end.

(** ** Reading *)

Definition sizeof_jit_data : Z := 160.

(** A tasklet has no expiry. *)
Definition first_expiry (h : deferral) (t : Z) : Z := match h with Timer => t | Tasklet => 0 end.

(** Up to the sleep: the block, or NULL. [hi_] is the argument of the tasklet's
    files. *)
Definition jit_start (h : deferral) (hi_ : bool) (page : nat) : K jit (option nat) :=
  j ← gets jiffies;
  z ← call (kmalloc sizeof_jit_data);
  if z =? 0 then mret None else
  n ← sprintf (page, 0) header;
  c ← gets current;
  m ← sprintf (page, 0 + n) (line j 0 c);
  t ← gets tdelay;
  d ← gets (λ s, fresh (dom (datas s)));
  modify (λ s, set_datas (<[d := JitData (first_expiry h (u64 (j + t))) hi_ j
    (page, 0 + n + m) JIT_ASYNC_LOOPS]> (datas s)) s);;
  defer h d;;
  mret (Some d).

(** After it; what [wait_event_interruptible] answered is not looked at. *)
Definition jit_finish (d : nat) : K jit Z :=
  sig ← call signal_pending;
  if c_bool sig then mret (- ERESTARTSYS) else
  dt ← get_data d;
  modify (λ s, set_datas (delete d (datas s)) s);;
  mret (buf dt).2.

(** [!data->loops] *)
Definition over (d : nat) (s : jit) : bool :=
  match datas s !! d with Some dt => loops dt =? 0 | None => true end.

Definition jit_timer (page : nat) : K jit Z :=
  d ← jit_start Timer false page;
  match d with
  | None => mret (- ENOMEM)
  | Some d => wait_event_interruptible (over d);; jit_finish d
  end.

Definition jit_tasklet (hi_ : bool) (page : nat) : K jit Z :=
  d ← jit_start Tasklet hi_ page;
  match d with
  | None => mret (- ENOMEM)
  | Some d => wait_event_interruptible (over d);; jit_finish d
  end.

(** ** The machine

    [Read] lends a page and runs a read up to its sleep, [Expire] runs one of
    the handlers that are pending, [Wake] the rest of a read that sleeps on
    block [d] with page [p]. *)
Inductive op := Read (h : deferral) (hi_ : bool) | Expire (h : deferral) (d : nat) | Wake (d p : nat).

Definition handle (o : op) : K jit (list cell) :=
  match o with
  | Read h hi_ =>
      page ← lend_page;
      d ← jit_start h hi_ page;
      match d with None => take_page_back page 0 | Some _ => mret [] end
  | Expire h d =>
      interfere;;
      modify (λ s, set_pending (filter (λ x, x ≠ (h, d)) (pending s)) s);;
      handler h d;;
      mret []
  | Wake d p => n ← jit_finish d; take_page_back p n
  end.

(** What is pending expires; a read goes on once its condition holds. *)
Definition allowed (s : jit) (o : op) : Prop :=
  match o with
  | Read _ _ => True
  | Expire h d => (h, d) ∈ pending s
  | Wake d p => ∃ dt, datas s !! d = Some dt ∧ (buf dt).1 = p ∧ loops dt = 0
  end.

(** * Specification *)

(** ** Delays *)

(** The clock does not go back, nor forward by half its range; it may stand
    still. The module's memory is left alone. *)
Definition ticks (s s' : jit) : Prop :=
  ∃ k, 0 <= k <= 2 ^ 31 ∧ s' = set_current (current s') (set_jiffies (u64 (jiffies s + k)) s).

(** What [n] turns of the loop leave, from tick [t] of the kernel. *)
Fixpoint turns (o : oracle jit) (n t : nat) (s : jit) : jit :=
  match n with O => s | S n => turns o n (S t) (others o t s) end.

(** The clock goes on: [d] jiffies do not take more than [n] turns, whenever they
    begin. *)
Definition goes_on (o : oracle jit) (d : Z) (n : nat) : Prop :=
  ∀ t s, ∃ m, (m <= n)%nat ∧ time_before (jiffies (turns o m t s)) (u64 (jiffies s + d)) = false.

Lemma s64_u64_sub j a b :
  - 2 ^ 63 <= a - b < 2 ^ 63 → s64 (u64 (j + a) - u64 (j + b)) = a - b.
Proof.
  intros H. rewrite <-(s64_small (a - b)) by done. unfold s64, u64. f_equal.
  rewrite <-(Z.add_mod_idemp_l (_ - _)), <-(Z.add_mod_idemp_l (a - b)) by done. do 2 f_equal.
  rewrite <-Zminus_mod. f_equal. lia.
Qed.

Section delays.
Context (o : oracle jit) (Ho : ∀ t s, ticks s (others o t s)).

(** [e] jiffies after [j0], on the way to [d], which [m] more turns reach. *)
Lemma wait_until_ends fuel j0 d e m t s :
  jiffies s = u64 (j0 + e) → 0 <= e → - 2 ^ 31 <= d < 2 ^ 31 → e < Z.max 1 (d + 2 ^ 31) →
  (m < fuel)%nat → time_before (jiffies (turns o m t s)) (u64 (j0 + d)) = false →
  ∃ e' c t', wait_until fuel (u64 (j0 + d)) o (t, s) =
    Done (tt, (t', set_current c (set_jiffies (u64 (j0 + e')) s))) ∧
    Z.max e d <= e' < Z.max 1 (d + 2 ^ 31).
Proof.
  intros Hj He Hd Hlt Hm Hend. revert e m t s Hj He Hlt Hm Hend.
  induction fuel as [|fuel IH]; intros e m t s Hj He Hlt Hm Hend; [lia|]. cbn [wait_until].
  rewrite (bind_done _ _ _ _ (jiffies s) (t, s)) by done.
  destruct (time_before (jiffies s) (u64 (j0 + d))) eqn:E.
  - destruct m as [|m]; [by cbn in Hend; rewrite E in Hend|]. cbn [turns] in Hend.
    rewrite (bind_done _ _ _ _ tt (S t, others o t s)) by done.
    destruct (Ho t s) as (k & Hk & Es). set (s' := others o t s) in *.
    unfold time_before in E. rewrite Hj, s64_u64_sub in E by lia. zbool.
    assert (jiffies s' = u64 (j0 + (e + k))) as Hj'.
    { rewrite Es. cbn. rewrite Hj. unfold u64. by rewrite Zplus_mod_idemp_l, Z.add_assoc. }
    destruct (IH (e + k) m (S t) s' Hj') as (e' & c & t' & -> & He'); [lia..|done|].
    exists e', c, t'. rewrite Es. split; [done|lia].
  - unfold time_before in E. rewrite Hj, s64_u64_sub in E by lia. zbool.
    exists e, (current s), t. rewrite <-Hj. split; [by destruct s|lia].
Qed.

(** What is printed: the time before and the time after, [e] jiffies later. *)
Definition jit_text (j0 e : Z) : list Z :=
  fmt_wl 9 (s64 j0) ++ [32] ++ fmt_wl 9 (s64 (u64 (j0 + e))) ++ [10].

Lemma length_jit_text j0 e : lenZ (jit_text j0 e) <= 42.
Proof.
  unfold jit_text. rewrite !length_app. cbn [length].
  pose proof (length_fmt_wl_le 9 (s64 j0)). pose proof (length_fmt_wl_le 9 (s64 (u64 (j0 + e)))). lia.
Qed.
(** The end of the busy wait, from where the page is lent. *)
Lemma jit_fn_busy way fuel d n p t s :
  way = JIT_BUSY ∨ way = JIT_SCHED → goes_on o d n → (n < fuel)%nat → d = delay s →
  0 <= jiffies s < 2 ^ 64 → - 2 ^ 31 <= d < 2 ^ 31 →
  ∃ e c t', jit_fn fuel way p o (t, s) =
    (j1 ← gets jiffies; sprintf (p, 0) (fmt_wl 9 (s64 (jiffies s)) ++ [32] ++ fmt_wl 9 (s64 j1) ++ [10])) o
      (t', set_current c (set_jiffies (u64 (jiffies s + e)) s)) ∧
    Z.max 0 d <= e < Z.max 1 (d + 2 ^ 31).
Proof.
  intros Hway Hgo Hfuel Hdel Hj Hd. destruct (Hgo t s) as (m & Hm & Hend).
  destruct (wait_until_ends fuel (jiffies s) d 0 m t s) as (e & c & t' & Hw & He);
    [rewrite Z.add_0_r; by rewrite u64_small|lia..|done|].
  exists e, c, t'. split; [|done]. unfold jit_fn.
  rewrite (bind_done _ _ _ _ (jiffies s) (t, s)) by done.
  rewrite (bind_done _ _ _ _ d (t, s)) by (by rewrite Hdel).
  cbv zeta. destruct Hway as [-> | ->]; by rewrite (bind_done _ _ _ _ _ _ Hw).
Qed.
End delays.

(** C30: the busy wait ends once the clock has gone on by [delay] jiffies,
    however often the turns of the loop find that it has not moved, and at any
    time of the clock, also where it wraps round while the wait lasts: where
    [delay] jiffies take at most [n] turns the loop goes round at most [n] times,
    and the read prints its start and an end that is [delay] jiffies later or
    as many more as the clock skipped at once (half the range of an int at most). *)
Theorem jit_fn_waits o way fuel n s :
  (∀ t s, ticks s (others o t s)) → goes_on o (delay s) n → (n < fuel)%nat →
  way = JIT_BUSY ∨ way = JIT_SCHED → 0 <= jiffies s < 2 ^ 64 → - 2 ^ 31 <= delay s < 2 ^ 31 →
  ∃ bytes s' e, run o (proc_read (jit_fn fuel way)) s = Done (bytes, s') ∧
    bytes = Some <$> jit_text (jiffies s) e ∧ jiffies s' = u64 (jiffies s + e) ∧
    Z.max 0 (delay s) <= e < Z.max 1 (delay s + 2 ^ 31) ∧ pages s' = pages s.
Proof.
  intros Ho Hgo Hfuel Hway Hj Hd. set (p := fresh (dom (pages s))).
  assert (pages s !! p = None) as Hp by (apply not_elem_of_dom, is_fresh).
  set (s1 := set_pages (<[p := uninit PAGE_SIZE]> (pages s)) s).
  destruct (jit_fn_busy o Ho way fuel (delay s) n p 0 s1) as (e & c & t' & Hrun & He); [done..|].
  change (jiffies s1) with (jiffies s) in Hrun. set (s2 := set_current c _) in Hrun.
  assert (wp (Contract (λ c z, ∃ t, ans o c t = z) (λ s s', ∃ t, others o t s = s') False)
    (j1 ← gets jiffies; n ← sprintf (p, 0) (fmt_wl 9 (s64 (jiffies s)) ++ [32] ++ fmt_wl 9 (s64 j1) ++ [10]);
     take_page_back p n)
    (λ bytes s', bytes = Some <$> jit_text (jiffies s) e ∧ jiffies s' = u64 (jiffies s + e) ∧
      pages s' = pages s) s2) as Hrest.
  { do 3 wp_step. pose proof (length_jit_text (jiffies s) e).
    eapply (wp_print_line p 0 (jit_text (jiffies s) e) _ []);
      [apply lookup_insert_eq|apply holds_nil|done|unfold PAGE_SIZE; lia|].
    intros pg Hpg. eapply wp_take_page_back; [apply lookup_insert_eq|exact Hpg|done|].
    split_and!; [done..|]. cbn. by rewrite !delete_insert_eq, delete_id. }
  specialize (Hrest o (conj (λ c t, ex_intro _ t eq_refl) (λ t s, ex_intro _ t eq_refl)) t').
  assert (proc_read (jit_fn fuel way) o (0%nat, s) = (j1 ← gets jiffies;
    n ← sprintf (p, 0) (fmt_wl 9 (s64 (jiffies s)) ++ [32] ++ fmt_wl 9 (s64 j1) ++ [10]);
    take_page_back p n) o (t', s2)) as E.
  { transitivity ((n ← jit_fn fuel way p; take_page_back p n) o (0%nat, s1)); [done|].
    unfold mbind at 1, K_bind at 1. by rewrite Hrun. }
  rewrite <-E in Hrest. unfold run. destruct (proc_read _ o _) as [[bytes [t2 s']]| |]; [|done..].
  destruct Hrest as (-> & Hj' & Hpg). by exists (Some <$> jit_text (jiffies s) e), s', e.
Qed.

Definition jit_loaded (j : Z) : jit :=
  Jit ∅ ∅ [] j (Context false 1234 0 (ascii_of "cat")) 250 10.

(** A clock that moves every third turn, and wraps during the wait. *)
Definition lazy_oracle : oracle jit :=
  Oracle quiet_ans (λ _ _, 0)
    (λ t s, set_jiffies (u64 (jiffies s + if decide (t mod 3 = 0)%nat then 1 else 0)) s).

Lemma lazy_turns k t s :
  (jiffies (turns lazy_oracle (3 * k) t s)) mod 2 ^ 64 = (jiffies s + Z.of_nat k) mod 2 ^ 64.
Proof.
  revert t s. induction k as [|k IH]; intros t s; [by rewrite Z.add_0_r|].
  replace (3 * S k)%nat with (S (S (S (3 * k)))) by lia. cbn [turns]. rewrite IH. cbn [others lazy_oracle jiffies set_jiffies].
  unfold u64. rewrite !Zplus_mod_idemp_l, <-!Z.add_assoc, !Zplus_mod_idemp_l. f_equal.
  pose proof (Nat.div_mod t 3 ltac:(done)). pose proof (Nat.div_mod (S t) 3 ltac:(done)).
  pose proof (Nat.div_mod (S (S t)) 3 ltac:(done)). pose proof (Nat.mod_upper_bound t 3 ltac:(done)).
  pose proof (Nat.mod_upper_bound (S t) 3 ltac:(done)). pose proof (Nat.mod_upper_bound (S (S t)) 3 ltac:(done)).
  repeat case_decide; lia.
Qed.

Lemma lazy_goes_on d : 0 <= d < 2 ^ 31 → goes_on lazy_oracle d (3 * Z.to_nat d).
Proof.
  intros Hd t s. exists (3 * Z.to_nat d)%nat. split; [done|]. unfold time_before.
  assert (s64 (jiffies (turns lazy_oracle (3 * Z.to_nat d) t s) - u64 (jiffies s + d)) = 0) as ->; [|done].
  pose proof (lazy_turns (Z.to_nat d) t s) as H. rewrite Z2Nat.id in H by lia.
  set (x := jiffies (turns _ _ _ _)) in *. rewrite <-(s64_small 0) by done. unfold s64, u64. f_equal.
  rewrite <-(Z.add_mod_idemp_l (_ - _)), <-(Z.add_mod_idemp_l 0) by done. do 2 f_equal.
  rewrite Zminus_mod, H, Z.mod_mod, Z.sub_diag by done. done.
Qed.

Lemma jit_fn_waits_witness :
  ∃ bytes s' e, run lazy_oracle (proc_read (jit_fn 751 JIT_BUSY)) (jit_loaded (2 ^ 64 - 100)) = Done (bytes, s') ∧
    bytes = Some <$> jit_text (2 ^ 64 - 100) e ∧ jiffies s' = u64 (2 ^ 64 - 100 + e) ∧
    Z.max 0 250 <= e < Z.max 1 (250 + 2 ^ 31) ∧ pages s' = ∅.
Proof.
  apply (jit_fn_waits lazy_oracle JIT_BUSY 751 750 (jit_loaded (2 ^ 64 - 100)));
    [|by apply (lazy_goes_on 250)|lia|by left|cbn; lia..].
  intros t s. exists (if decide (t mod 3 = 0)%nat then 1 else 0). split; [case_decide; lia|by destruct s].
Defined.

(** ** Reads *)

(** A task's name has at most fifteen characters. *)
Definition context_ok (c : context) : Prop := (length (comm c) <= 15)%nat.

Definition text_of (j0 : Z) (l : list (Z * context)) : list Z := header ++ lines line j0 l.

Lemma length_jit_line j delta c : context_ok c → lenZ (line j delta c) <= 106.
Proof.
  unfold context_ok, line. intros Hc. rewrite !length_app.
  pose proof (length_fmt_wl_le 9 (s64 j)). pose proof (length_fmt_wl_le 3 (s64 delta)).
  pose proof (length_fmt_wi_le 6 (pid c)).
  assert (∀ n, (length (fmt_i n) <= 11)%nat) as Hi.
  { intros n. pose proof (length_fmt_wi_le 0 n) as H'. unfold fmt_wi in H'. rewrite length_pad in H'. lia. }
  pose proof (Hi (if inirq c then 1 else 0)). pose proof (Hi (cpu c)). cbn [length].
  change (length (ascii_of "     ")) with 5%nat. change (length (ascii_of "    ")) with 4%nat.
  change (length (ascii_of "   ")) with 3%nat. lia.
Qed.

Lemma length_text_of j0 l :
  Forall (λ p, context_ok p.2) l → lenZ (text_of j0 l) <= 50 + 106 * lenZ l.
Proof.
  intros Hl. unfold text_of. rewrite length_app. assert (lenZ header <= 50) by (vm_compute; congruence).
  pose proof (length_lines line context_ok 106 j0 l length_jit_line Hl). lia.
Qed.

Lemma jit_text_of_snoc j0 l j c :
  text_of j0 (l ++ [(j, c)]) = text_of j0 l ++ line j (u64 (j - last_time j0 l)) c.
Proof. unfold text_of. by rewrite lines_snoc, app_assoc. Qed.

(** The read of block [d], [dt], has started at [j0] and printed [l] so far: as
    many lines as its count tells, in its page. *)
Record reading (s : jit) (dt : jit_data) (j0 : Z) (l : list (Z * context)) : Prop := {
  rd_loops : 0 <= loops dt <= JIT_ASYNC_LOOPS;
  rd_count : lenZ l + loops dt = 1 + JIT_ASYNC_LOOPS;
  rd_first : ∃ c, head l = Some (j0, c);
  rd_ok : Forall (λ p, context_ok p.2) l;
  rd_prev : loops dt ≠ 0 → prevjiffies dt = last_time j0 l;
  rd_buf : (buf dt).2 = lenZ (text_of j0 l);
  rd_page : ∃ pg, pages s !! (buf dt).1 = Some pg ∧ holds (text_of j0 l) pg
}.

(** Every block belongs to a read under way, with a page of its own; a handler
    is pending for it, one, exactly while lines are missing. *)
Record jit_inv (s : jit) : Prop := {
  ji_reading : ∀ d dt, datas s !! d = Some dt → ∃ j0 l, reading s dt j0 l;
  ji_pages : ∀ d d' dt dt', datas s !! d = Some dt → datas s !! d' = Some dt' →
    (buf dt).1 = (buf dt').1 → d = d';
  ji_nodup : NoDup (pending s).*2;
  ji_pending : ∀ d, d ∈ (pending s).*2 ↔ ∃ dt, datas s !! d = Some dt ∧ loops dt ≠ 0;
  ji_context : context_ok (current s)
}.

(** The machine makes the interleavings explicit; what is left to others is the
    clock, and which task runs. No reader goes on between the last count of its
    handler and the handler's [wake_up_interruptible], and no signal comes. *)
Definition clock (s s' : jit) : Prop :=
  s' = set_current (current s') (set_jiffies (jiffies s') s) ∧ context_ok (current s').
Record jit_contract (C : contract jit) : Prop := {
  jt_clock : ∀ s s', c_rely C s s' → clock s s';
  jt_signal : ∀ z, c_ans C signal_pending z → z = 0
}.

Lemma reading_same s s' dt j0 l :
  pages s' !! (buf dt).1 = pages s !! (buf dt).1 → reading s dt j0 l → reading s' dt j0 l.
Proof. intros E []. split; try done. by rewrite E. Qed.

Lemma clock_inv s s' : clock s s' → jit_inv s → jit_inv s'.
Proof.
  intros [-> Hc] []. split; try done. intros d dt Hd. destruct (ji_reading0 d dt Hd) as (j0 & l & H).
  exists j0, l. by eapply reading_same, H.
Qed.

Section reads.
Context (C : contract jit) (HC : jit_contract C).
Implicit Types (s : jit) (d p : nat).

Lemma wp_put_block d f dt s (Q : unit → jit → Prop) :
  datas s !! d = Some dt → Q tt (set_datas (<[d := f dt]> (datas s)) s) → wp C (put_data d f) Q s.
Proof.
  intros Hd HQ. apply wp_modify.
  replace (alter f d (datas s)) with (<[d := f dt]> (datas s)); [done|].
  apply map_eq. intros i. destruct (decide (i = d)) as [->|]; by simplify_map_eq.
Qed.

(** A handler prints one line and counts down. *)
Lemma wp_print_data d dt j0 l s (Q : Z → jit → Prop) :
  datas s !! d = Some dt → reading s dt j0 l → loops dt ≠ 0 → context_ok (current s) →
  (∀ pg, holds (text_of j0 (l ++ [(jiffies s, current s)])) pg →
    Q (loops dt - 1)
      (set_datas (<[d := JitData (expires dt) (hi dt) (prevjiffies dt)
          ((buf dt).1, lenZ (text_of j0 (l ++ [(jiffies s, current s)]))) (loops dt - 1)]> (datas s))
        (set_pages (<[(buf dt).1 := pg]> (pages s)) s))) →
  wp C (print_data d) Q s.
Proof.
  intros Hd [Hl Hn _ Hok Hprev Hbuf (pg & Hp & Hpg)] H0 Hc HQ. unfold print_data, get_data, put_data.
  unfold JIT_ASYNC_LOOPS in *. wp_step. wp_step. do 3 wp_step.
  apply (wp_deref _ _ _ _ _ dt); [done|]. wp_step. wp_step. wp_step. rewrite Hprev by done.
  rewrite jit_text_of_snoc in HQ. pose proof (length_text_of j0 l Hok) as Hlt.
  pose proof (length_jit_line (jiffies s) (u64 (jiffies s - last_time j0 l)) _ Hc) as Hll.
  destruct (buf dt) as [p off] eqn:Eb. cbn [fst snd] in *. subst off.
  eapply wp_print_line; [exact Hp|exact Hpg|done|unfold PAGE_SIZE; lia|].
  intros pg' Hpg'. specialize (HQ pg' Hpg'). rewrite s32_small by lia.
  wp_step. eapply wp_put_block; [exact Hd|]. wp_step. eapply wp_put_block; [apply lookup_insert_eq|].
  wp_step. rewrite length_app, Nat2Z.inj_add in HQ.
  match goal with |- Q _ (set_datas (<[d := ?a]> (datas (set_datas (<[d := ?b]> _) _))) _) =>
    change (Q (loops dt - 1) (set_datas (<[d := a]> (<[d := b]> (datas s)))
      (set_pages (<[p := pg']> (pages s)) s))) end.
  rewrite insert_insert_eq. exact HQ.
Qed.

(** The lines of a read after one more. *)
Lemma reading_more s s' dt prev e j0 l pg :
  reading s dt j0 l → loops dt ≠ 0 → context_ok (current s) →
  (loops dt - 1 ≠ 0 → prev = jiffies s) →
  pages s' !! (buf dt).1 = Some pg → holds (text_of j0 (l ++ [(jiffies s, current s)])) pg →
  reading s' (JitData e (hi dt) prev
    ((buf dt).1, lenZ (text_of j0 (l ++ [(jiffies s, current s)]))) (loops dt - 1))
    j0 (l ++ [(jiffies s, current s)]).
Proof.
  intros [Hl Hn [c Hc0] Hok _ _ _] H0 Hc Hprev Hp Hpg. split; cbn [loops buf prevjiffies fst snd].
  - lia.
  - rewrite length_app. cbn [length]. lia.
  - exists c. by destruct l.
  - by apply Forall_app_2, Forall_singleton.
  - intros H. by rewrite last_time_snoc, Hprev.
  - done.
  - by exists pg.
Qed.

Lemma wp_wake_up d s (Q : unit → jit → Prop) :
  is_Some (datas s !! d) → (∀ s', clock s s' → Q tt s') → wp C (wake_up_interruptible d) Q s.
Proof.
  intros [dt Hd] HQ. unfold wake_up_interruptible, get_data. wp_step. wp_step.
  match goal with H : c_rely C s _ |- _ => apply (jt_clock _ HC) in H as Hclk end.
  wp_step. wp_step. wp_step. eapply wp_deref; [|wp_step; by apply HQ].
  destruct Hclk as [-> _]. exact Hd.
Qed.

(** One handler runs: the read it works for has one line more; it is pending
    again unless that was the last. *)
Lemma wp_handler h d dt j0 l s (Q : unit → jit → Prop) :
  datas s !! d = Some dt → reading s dt j0 l → loops dt ≠ 0 → context_ok (current s) →
  (∀ s' dt' pg, reading s' dt' j0 (l ++ [(jiffies s, current s)]) →
    datas s' = <[d := dt']> (datas s) → (buf dt').1 = (buf dt).1 → loops dt' = loops dt - 1 →
    pages s' = <[(buf dt).1 := pg]> (pages s) → context_ok (current s') →
    pending s' = (if loops dt' =? 0 then pending s else pending s ++ [(h, d)]) → Q tt s') →
  wp C (handler h d) Q s.
Proof.
  intros Hd Hr H0 Hc HQ.
  destruct h; cbn [handler]; unfold jit_timer_fn, jit_tasklet_fn;
    do 3 wp_step; eapply wp_print_data; try done; intros pg Hpg; unfold c_bool;
    destruct (loops dt - 1 =? 0) eqn:E; cbn [negb]; repeat wp_step.
  1,3: apply wp_wake_up; [eexists; apply lookup_insert_eq|]; intros s' Hclk;
    (eapply (HQ _ _ pg); [eapply (reading_more s _ dt); [exact Hr|done|done|zbool; lia| |exact Hpg]|..]);
    destruct Hclk as [-> ?]; try done; [by apply lookup_insert_eq|cbn [loops]; by rewrite E].
  all: repeat (eapply wp_put_block; [apply lookup_insert_eq|]; repeat wp_step); unfold defer; wp_step;
    (eapply (HQ _ _ pg); [|cbn [datas set_datas set_pending]; by rewrite ?insert_insert_eq|..];
      [eapply (reading_more s _ dt); [exact Hr|done|done|done|apply lookup_insert_eq|exact Hpg]|done..|];
      change (loops (set_prevjiffies _ _)) with (loops dt - 1); by rewrite E).
Qed.

(** The first piece of a read. *)
Lemma wp_jit_start h hi_ p s (Q : option nat → jit → Prop) :
  pages s !! p = Some (uninit PAGE_SIZE) → context_ok (current s) → Q None s →
  (∀ s' d dt pg, datas s !! d = None → reading s' dt (jiffies s) [(jiffies s, current s)] →
    datas s' = <[d := dt]> (datas s) → (buf dt).1 = p → loops dt ≠ 0 →
    pages s' = <[p := pg]> (pages s) → current s' = current s →
    pending s' = pending s ++ [(h, d)] → Q (Some d) s') →
  wp C (jit_start h hi_ p) Q s.
Proof.
  intros Hp Hc Hnone HQ. unfold jit_start. do 4 wp_step. wp_step; [by wp_step|].
  pose proof (length_jit_line (jiffies s) 0 _ Hc). wp_step.
  assert (lenZ header <= 50) as Hh by (vm_compute; congruence).
  eapply (wp_print_line p 0 header _ []); [exact Hp|apply holds_nil|done|unfold PAGE_SIZE; lia|].
  intros pg1 Hpg1. do 3 wp_step. change (current (set_pages_of _ s)) with (current s).
  eapply (wp_print_line p _ _ pg1 header); [apply lookup_insert_eq|exact Hpg1|done|unfold PAGE_SIZE; lia|].
  intros pg2 Hpg2. repeat wp_step. unfold defer. repeat wp_step.
  assert (text_of (jiffies s) [(jiffies s, current s)] = header ++ line (jiffies s) 0 (current s)) as Ht.
  { unfold text_of. cbn [lines]. rewrite Z.sub_diag, app_nil_r. done. }
  eapply (HQ _ _ _ pg2); [apply not_elem_of_dom, is_fresh| |reflexivity|done|done| |done|done].
  - split; cbn [loops buf prevjiffies fst snd]; try done.
    + by exists (current s).
    + by apply Forall_singleton.
    + rewrite Ht, length_app. lia.
    + exists pg2. rewrite Ht. split; [apply lookup_insert_eq|done].
  - cbn. by rewrite insert_insert_eq.
Qed.

(** The last one, once the lines are there. *)
Lemma wp_jit_finish d dt s (Q : Z → jit → Prop) :
  datas s !! d = Some dt → Q (buf dt).2 (set_datas (delete d (datas s)) s) →
  wp C (jit_finish d) Q s.
Proof.
  intros Hd HQ. unfold jit_finish, get_data. wp_step. wp_step. rewrite (jt_signal _ HC z) by done.
  change (c_bool 0) with false. cbn iota. wp_step. wp_step. wp_step.
  apply (wp_deref _ _ _ _ _ dt); [done|]. by repeat wp_step.
Qed.
End reads.

(** ** The invariant is kept *)

Lemma inv_update s s' d dt j0 l pg :
  jit_inv s → datas s' = <[d := dt]> (datas s) → reading s' dt j0 l →
  pages s' = <[(buf dt).1 := pg]> (pages s) →
  (∀ d2 dt2, d2 ≠ d → datas s !! d2 = Some dt2 → (buf dt2).1 ≠ (buf dt).1) →
  NoDup (pending s').*2 → (d ∈ (pending s').*2 ↔ loops dt ≠ 0) →
  (∀ d2, d2 ≠ d → (d2 ∈ (pending s').*2 ↔ d2 ∈ (pending s).*2)) → context_ok (current s') →
  jit_inv s'.
Proof.
  intros [Hr Hp _ Hpend _] Hd Hread Hpages Hother Hnd Hin Hin2 Hc. split; rewrite ?Hd; [..|done].
  - intros d2 dt2. destruct (decide (d2 = d)) as [->|]; [intros; simplify_map_eq; eauto|].
    rewrite lookup_insert_ne by done. intros Hd2. destruct (Hr d2 dt2 Hd2) as (j2 & l2 & H2).
    exists j2, l2. eapply reading_same, H2. rewrite Hpages, lookup_insert_ne; [done|].
    intros Heq. by apply (Hother d2 dt2).
  - intros d1 d2 dt1 dt2 H1 H2 Heq.
    destruct (decide (d1 = d)) as [->|], (decide (d2 = d)) as [->|]; simplify_map_eq; try done.
    + by destruct (Hother d2 dt2).
    + by destruct (Hother d1 dt1).
    + by eapply Hp.
  - done.
  - intros d2. destruct (decide (d2 = d)) as [->|].
    + rewrite Hin. split; [intros; exists dt; by simplify_map_eq|intros (? & ? & ?); by simplify_map_eq].
    + rewrite Hin2, Hpend by done. by rewrite lookup_insert_ne.
Qed.

(** A page that is lent and taken back, with nothing of a read in it. *)
Lemma inv_pages s s' :
  (∀ p, is_Some (pages s !! p) → pages s' !! p = pages s !! p) →
  datas s' = datas s → pending s' = pending s → current s' = current s → jit_inv s → jit_inv s'.
Proof.
  intros Hp Hd Hpe Hc [Hr ? ? ? ?]. split; rewrite ?Hd, ?Hpe, ?Hc; try done.
  intros d dt Hdt. destruct (Hr d dt Hdt) as (j0 & l & H). exists j0, l.
  eapply reading_same, H. apply Hp. destruct H. destruct rd_page0 as (pg & -> & _). by eexists.
Qed.

Section machine.
Context (C : contract jit) (HC : jit_contract C).
Implicit Types (s : jit) (d p : nat).

(** No read under way has a page that is not lent. *)
Lemma inv_other_page s d dt p :
  jit_inv s → datas s !! d = Some dt → pages s !! p = None → (buf dt).1 ≠ p.
Proof.
  intros [Hr _ _ _ _] Hd Hp Heq. destruct (Hr d dt Hd) as (j0 & l & [_ _ _ _ _ _ (pg & Hpg & _)]).
  by rewrite Heq, Hp in Hpg.
Qed.

Lemma wp_read h hi_ s : jit_inv s → wp C (handle (Read h hi_)) (λ _, jit_inv) s.
Proof.
  intros Hi. cbn [handle]. wp_step. apply wp_lend_page. intros p Hp.
  change (pages s !! p = None) in Hp. set (s1 := set_pages_of _ s).
  assert (jit_inv s1) as Hi1.
  { eapply inv_pages, Hi; try done. intros p2 [pg Hpg]. cbn. rewrite lookup_insert_ne; [done|].
    intros ->. by rewrite Hp in Hpg. }
  wp_step. apply (wp_jit_start C); [apply lookup_insert_eq|apply Hi| |].
  - eapply (wp_take_page_back p 0 _ []); [apply lookup_insert_eq|apply holds_nil|done|].
    eapply inv_pages, Hi; try done. intros p2 [pg Hpg]. cbn.
    rewrite delete_insert_eq, lookup_delete_ne; [done|]. intros ->. by rewrite Hp in Hpg.
  - intros s' d dt pg Hd Hr Ed Ep H0 Epg Ec Epend. wp_step.
    assert (d ∉ (pending s1).*2) as Hnew.
    { rewrite (ji_pending _ Hi1). intros (? & ? & _). congruence. }
    eapply (inv_update s1 s' d dt); [exact Hi1|exact Ed|exact Hr|by rewrite Ep| | | | |].
    + intros d2 dt2 _ H2. rewrite Ep. by apply (inv_other_page s d2).
    + rewrite Epend, fmap_app. apply NoDup_app. split; [apply Hi1|]. split; [|apply NoDup_singleton].
      intros x Hx. cbn. intros ->%list_elem_of_singleton. done.
    + rewrite Epend, fmap_app, elem_of_app. cbn. rewrite list_elem_of_singleton. tauto.
    + intros d2 Hne. rewrite Epend, fmap_app, elem_of_app. cbn. rewrite list_elem_of_singleton. tauto.
    + rewrite Ec. apply Hi.
Qed.

(** Taking one thing off the pending list. *)
Lemma filter_pending h d (l : list (deferral * nat)) :
  NoDup l.*2 → (h, d) ∈ l →
  let l' := filter (λ x, x ≠ (h, d)) l in
  NoDup l'.*2 ∧ (d ∉ l'.*2) ∧ ∀ d2, d2 ≠ d → (d2 ∈ l'.*2 ↔ d2 ∈ l.*2).
Proof.
  intros Hnd Hin l'.
  assert (∀ x, x ∈ l' ↔ x ≠ (h, d) ∧ x ∈ l) as Hl' by (intros x; unfold l'; by rewrite list_elem_of_filter).
  assert (∀ x, x ∈ l → x.2 = d → x = (h, d)) as Huniq.
  { intros x [i Hi]%list_elem_of_lookup Heq. apply list_elem_of_lookup in Hin as [k Hk].
    assert (i = k) as ->; [|congruence].
    eapply (NoDup_lookup l.*2); [done|by rewrite list_lookup_fmap, Hi; cbn; rewrite Heq|].
    by rewrite list_lookup_fmap, Hk. }
  split_and!.
  - clear Hl' Huniq Hin. subst l'. induction l as [|x l IH]; [done|]. apply NoDup_cons in Hnd as [Hx Hnd].
    rewrite filter_cons. case_decide; [|by apply IH]. apply NoDup_cons. split; [|by apply IH].
    intros (y & Hy & [_ Hyl]%list_elem_of_filter)%list_elem_of_fmap. apply Hx. rewrite Hy.
    by apply list_elem_of_fmap_2.
  - intros (x & Hx & [Hne Hxl]%Hl')%list_elem_of_fmap. by destruct Hne; apply Huniq.
  - intros d2 Hne. rewrite !list_elem_of_fmap. setoid_rewrite Hl'. split; [intros (x & ? & ? & ?); by exists x|].
    intros (x & -> & Hx). exists x. split_and!; [done| |done]. by intros ->.
Qed.

(** Block [d] has one line more, the other reads as many as before. *)
Definition one_line_more d (s s' : jit) : Prop :=
  ∃ dt dt', datas s !! d = Some dt ∧ datas s' = <[d := dt']> (datas s) ∧ loops dt' = loops dt - 1.

Lemma wp_expire h d s :
  jit_inv s → (h, d) ∈ pending s →
  wp C (handle (Expire h d)) (λ _ s', jit_inv s' ∧ one_line_more d s s') s.
Proof.
  intros Hi Hin. cbn [handle]. wp_step. wp_step.
  match goal with H : c_rely C s _ |- _ => apply (jt_clock _ HC) in H as Hclk end.
  assert (pending s' = pending s ∧ datas s' = datas s) as [Ep Eds] by (by destruct Hclk as [-> _]).
  rewrite <-Ep in Hin. unfold one_line_more. rewrite <-Eds.
  apply (clock_inv s s') in Hi; [|done]. clear Hclk Ep Eds. destruct Hi as [Hr Hp Hnd Hpend Hc].
  destruct (proj1 (Hpend d)) as (dt & Hd & H0); [by apply (list_elem_of_fmap_2 snd _ (h, d))|].
  destruct (Hr d dt Hd) as (j0 & l & Hrd).
  destruct (filter_pending h d _ Hnd Hin) as (Hnd' & Hd' & Hother).
  wp_step. wp_step. set (s1 := set_pending _ s'). wp_step.
  apply (wp_handler C HC h d dt j0 l); [done|by destruct Hrd|done|done|].
  intros s2 dt2 pg Hr2 Ed Eb El Epg Ec Epend. wp_step. split; [|by exists dt, dt2].
  eapply (inv_update s' s2 d dt2); [by split|exact Ed|exact Hr2|by rewrite Eb| | | | |].
  - intros d2 dt3 Hne H3. rewrite Eb. intros Heq. apply Hne. by eapply Hp.
  - rewrite Epend. case_match; [done|]. rewrite fmap_app. apply NoDup_app. split; [done|].
    split; [|apply NoDup_singleton]. intros x Hx. by intros ->%list_elem_of_singleton.
  - rewrite Epend. case_match; zbool; [tauto|]. rewrite fmap_app, elem_of_app. cbn.
    rewrite list_elem_of_singleton. tauto.
  - intros d2 Hne. rewrite Epend, <-Hother by done. case_match; zbool; [done|].
    rewrite fmap_app, elem_of_app. cbn. rewrite list_elem_of_singleton. tauto.
  - done.
Qed.

(** A read that goes on gives its page, with its header and its six lines. *)
Lemma wp_wake d p dt s :
  jit_inv s → datas s !! d = Some dt → (buf dt).1 = p → loops dt = 0 →
  wp C (handle (Wake d p)) (λ bytes s', jit_inv s' ∧
    datas s' = delete d (datas s) ∧ pages s' = delete p (pages s) ∧ pending s' = pending s ∧
    ∃ j0 l, reading s dt j0 l ∧ lenZ l = 6 ∧ bytes = Some <$> text_of j0 l) s.
Proof.
  intros Hi Hd Ep H0. destruct (ji_reading _ Hi d dt Hd) as (j0 & l & Hr).
  destruct (rd_page _ _ _ _ Hr) as (pg & Hpg & Hh). rewrite Ep in Hpg.
  cbn [handle]. wp_step. apply (wp_jit_finish C HC d dt); [done|].
  eapply wp_take_page_back; [exact Hpg|exact Hh|apply Hr|].
  split_and!; try done.
  - destruct Hi as [Hrd Hpages Hnd Hpend Hc]. split; try done.
    + cbn [datas set_datas set_pages_of jit_pages set_pages]. intros d2 dt2 [Hne H2]%lookup_delete_Some. destruct (Hrd d2 dt2 H2) as (j2 & l2 & Hr2).
      exists j2, l2. eapply reading_same, Hr2. cbn. apply lookup_delete_ne.
      rewrite <-Ep. intros Heq. by destruct (Hne (Hpages d d2 dt dt2 Hd H2 Heq)).
    + cbn [datas set_datas set_pages_of jit_pages set_pages].
      intros d1 d2 dt1 dt2 [_ H1]%lookup_delete_Some [_ H2]%lookup_delete_Some. by apply (Hpages d1 d2 dt1 dt2).
    + intros d2. cbn. rewrite Hpend. split.
      * intros (dt2 & H2 & Hne). exists dt2. split; [|done]. apply lookup_delete_Some.
        split; [|done]. intros ->. congruence.
      * intros (dt2 & [_ H2]%lookup_delete_Some & Hne). by exists dt2.
  - exists j0, l. split_and!; [done| |done]. pose proof (rd_count _ _ _ _ Hr).
    unfold JIT_ASYNC_LOOPS in *. lia.
Qed.
End machine.

(** * Properties *)

Definition jit_init (s : jit) : Prop :=
  datas s = ∅ ∧ pending s = [] ∧ context_ok (current s).

(** C29: as long as no signal comes, and no reader goes on in the time between the
    last count of its handler and the handler's [wake_up_interruptible] (on one
    processor none can): whatever the order in which reads start, handlers run and
    reads go on, and whatever allocation fails, nothing faults; a handler is
    pending for every read that lacks lines, five at most, and each run of it gives
    that read, and no other, one line more; a read that has them all gets its own
    page with the header and its six lines, its start first, and its block and its
    page are given back. (The cases left out fault: [jit_signal_use_after_free],
    [jit_wake_up_race].) *)
Theorem jit_reads_isolated C :
  jit_contract C →
  faultless handle allowed C jit_init ∧
  (∀ s d dt, reachable handle allowed C jit_init s → datas s !! d = Some dt →
    0 <= loops dt <= 5 ∧ (loops dt = 0 ∨ ∃ h, (h, d) ∈ pending s)) ∧
  (∀ s h d, reachable handle allowed C jit_init s → (h, d) ∈ pending s →
    wp C (handle (Expire h d)) (λ _, one_line_more d s) s) ∧
  (∀ s d p, reachable handle allowed C jit_init s → allowed s (Wake d p) →
    wp C (handle (Wake d p)) (λ bytes s',
      datas s' = delete d (datas s) ∧ pages s' = delete p (pages s) ∧
      ∃ j0 c l, lenZ l = 5 ∧ bytes = Some <$> text_of j0 ((j0, c) :: l)) s).
Proof.
  intros HC. assert (inductive_inv handle allowed C jit_init jit_inv) as Hinv.
  { split_and!.
    - intros s (Hd & Hp & Hc). split; rewrite ?Hd, ?Hp; try done; [constructor|].
      intros d. split; [by intros ?%not_elem_of_nil|]. by intros (? & ? & _).
    - intros s [h hi_|h d|d p] Hi Hal; [by apply wp_read|by eapply wp_mono; [apply wp_expire|intros ? ? []]|].
      destruct Hal as (dt & ? & ? & ?). eapply wp_mono; [by eapply wp_wake|]. by intros ? ? [? _].
    - intros s s' Hi Hr. eapply clock_inv, Hi. by apply (jt_clock _ HC). }
  split_and!; [by eapply inv_faultless|..].
  - intros s d dt Hs Hd. pose proof (reachable_inv _ _ _ _ _ _ Hinv Hs) as Hi.
    destruct (ji_reading _ Hi d dt Hd) as (j0 & l & Hr). split; [apply Hr|].
    destruct (decide (loops dt = 0)) as [|H0]; [by left|right].
    assert (d ∈ (pending s).*2) as Hin by (apply (ji_pending _ Hi); by exists dt).
    apply list_elem_of_fmap in Hin as ([h d'] & -> & H). by exists h.
  - intros s h d Hs Hin. eapply wp_mono; [apply (wp_expire C HC h d); [by eapply reachable_inv|done]|].
    by intros ? ? [_ ?].
  - intros s d p Hs (dt & Hd & Hp & H0). pose proof (reachable_inv _ _ _ _ _ _ Hinv Hs) as Hi.
    eapply wp_mono; [by apply (wp_wake C HC d p dt)|].
    intros bytes s' (_ & Ed & Ep & _ & j0 & l & Hr & Hlen & ->). split_and!; [done..|].
    destruct (rd_first _ _ _ _ Hr) as [c Hc]. destruct l as [|x l]; [done|]. injection Hc as ->.
    exists j0, c, l. split; [cbn [length] in Hlen; lia|done].
Qed.

Definition jit_kernel : contract jit := Contract good_ans clock False.

Lemma jit_kernel_ok : jit_contract jit_kernel.
Proof. split; [done|]. by intros z [_ Hz]. Qed.

Lemma jit_reads_isolated_witness :
  jit_init (jit_loaded 1000) ∧ faultless handle allowed jit_kernel jit_init.
Proof.
  split; [split_and!; try done; unfold context_ok; cbn; lia|].
  apply (jit_reads_isolated jit_kernel), jit_kernel_ok.
Defined.

(** A signal ends the read at once: the page goes back to /proc while the timer
    is pending, and the timer writes to it; the block is never freed. *)
Definition signal_oracle : oracle jit :=
  Oracle (λ c t, match c with wait_event | signal_pending => 1 | _ => quiet_ans c t end)
    (λ _ _, 0) (λ _ s, s).

Lemma jit_signal_use_after_free :
  run signal_oracle (proc_read jit_timer;; d ← gets (λ s, snd <$> head (pending s)) ≫= deref NullDeref;
                     handle (Expire Timer d)) (jit_loaded 1000) =
  Oops UseAfterFree.
Proof. vm_compute. reflexivity. Qed.

(** On another processor the reader sees that [loops] is 0, goes on and frees its
    block before the handler wakes it: the queue that is woken is gone. *)
Definition reader_goes_on (s : jit) : jit := set_datas (filter (λ x, loops x.2 ≠ 0) (datas s)) s.
Definition smp_oracle : oracle jit := Oracle quiet_ans (λ _ _, 0) (λ _ s, reader_goes_on s).

Lemma jit_wake_up_race :
  run smp_oracle (handle (Read Tasklet false);;
    d ← gets (λ s, snd <$> head (pending s)) ≫= deref NullDeref;
    handle (Expire Tasklet d);; handle (Expire Tasklet d);; handle (Expire Tasklet d);;
    handle (Expire Tasklet d);; handle (Expire Tasklet d)) (jit_loaded 1000) =
  Oops UseAfterFree.
Proof. vm_compute. reflexivity. Qed.
