(* ===== verification/Short.v ===== *)
(** * short: raw I/O ports and interrupts (src/ldd4/short/short.c)

    The nodes with low minor numbers move bytes between user space and I/O
    ports; the interrupt-driven node reports the times of interrupts, which the
    handlers (or their bottom half) print into a page used as a ring. Pointers
    into the page are offsets from [short_buffer]; [mem] has one byte more than
    the page, the first one of the page after it, because the terminator that
    [sprintf] writes can fall there. What is written to ports is kept, newest
    first. The kernel's clock, ports and interrupt probing are services. *)

From stdpp Require Import base tactics numbers list strings.
From S2P Require Import Prelude Ring KMonad Text Registry.
From Stdlib Require Import ZArith Lia.

Open Scope Z_scope.

(** ** Data *)

Definition PAGE_SIZE : Z := 4096.
Definition SHORT_NR_PORTS : Z := 8.
Definition NR_TIMEVAL : Z := 512.
Definition IRQ_NONE : Z := 0.
Definition IRQ_HANDLED : Z := 1.

(** The module parameters. *)
Record params := Params {
  major : Z;
  use_mem : bool;
  base : Z;
  irq : Z;
  probe : Z;
  wq : bool;
  tasklet : bool;
  share : bool
}.

(** The globals of the module: the page and its pointers, the array of time
    values filled by the top half, the pending bottom half; then the trace of
    port writes, the number of buffers allocated, of readers woken, and the
    resources held. *)
Record short := Short {
  mem : list cell;
  head : Z;
  tail : Z;
  tv_data : list (Z * Z);
  tv_head : Z;
  tv_tail : Z;
  short_wq_count : Z;
  bh_pending : bool;
  short_base : Z;
  short_irq : Z;
  outs : list (Z * Z);
  live : Z;
  wakes : Z;
  regs : registry
}.

Definition set_mem (v : list cell) (x : short) : short :=
  Short v (head x) (tail x) (tv_data x) (tv_head x) (tv_tail x) (short_wq_count x)
    (bh_pending x) (short_base x) (short_irq x) (outs x) (live x) (wakes x) (regs x).
Definition set_head (v : Z) (x : short) : short :=
  Short (mem x) v (tail x) (tv_data x) (tv_head x) (tv_tail x) (short_wq_count x) (bh_pending x)
    (short_base x) (short_irq x) (outs x) (live x) (wakes x) (regs x).
Definition set_tail (v : Z) (x : short) : short :=
  Short (mem x) (head x) v (tv_data x) (tv_head x) (tv_tail x) (short_wq_count x) (bh_pending x)
    (short_base x) (short_irq x) (outs x) (live x) (wakes x) (regs x).
Definition set_tv_data (v : list (Z * Z)) (x : short) : short :=
  Short (mem x) (head x) (tail x) v (tv_head x) (tv_tail x) (short_wq_count x) (bh_pending x)
    (short_base x) (short_irq x) (outs x) (live x) (wakes x) (regs x).
Definition set_tv_head (v : Z) (x : short) : short :=
  Short (mem x) (head x) (tail x) (tv_data x) v (tv_tail x) (short_wq_count x) (bh_pending x)
    (short_base x) (short_irq x) (outs x) (live x) (wakes x) (regs x).
Definition set_tv_tail (v : Z) (x : short) : short :=
  Short (mem x) (head x) (tail x) (tv_data x) (tv_head x) v (short_wq_count x) (bh_pending x)
    (short_base x) (short_irq x) (outs x) (live x) (wakes x) (regs x).
Definition set_short_wq_count (v : Z) (x : short) : short :=
  Short (mem x) (head x) (tail x) (tv_data x) (tv_head x) (tv_tail x) v (bh_pending x)
    (short_base x) (short_irq x) (outs x) (live x) (wakes x) (regs x).
Definition set_bh_pending (v : bool) (x : short) : short :=
  Short (mem x) (head x) (tail x) (tv_data x) (tv_head x) (tv_tail x) (short_wq_count x) v
    (short_base x) (short_irq x) (outs x) (live x) (wakes x) (regs x).
Definition set_short_base (v : Z) (x : short) : short :=
  Short (mem x) (head x) (tail x) (tv_data x) (tv_head x) (tv_tail x) (short_wq_count x)
    (bh_pending x) v (short_irq x) (outs x) (live x) (wakes x) (regs x).
Definition set_short_irq (v : Z) (x : short) : short :=
  Short (mem x) (head x) (tail x) (tv_data x) (tv_head x) (tv_tail x) (short_wq_count x)
    (bh_pending x) (short_base x) v (outs x) (live x) (wakes x) (regs x).
Definition set_outs (v : list (Z * Z)) (x : short) : short :=
  Short (mem x) (head x) (tail x) (tv_data x) (tv_head x) (tv_tail x) (short_wq_count x)
    (bh_pending x) (short_base x) (short_irq x) v (live x) (wakes x) (regs x).
Definition set_live (v : Z) (x : short) : short :=
  Short (mem x) (head x) (tail x) (tv_data x) (tv_head x) (tv_tail x) (short_wq_count x)
    (bh_pending x) (short_base x) (short_irq x) (outs x) v (wakes x) (regs x).
Definition set_wakes (v : Z) (x : short) : short :=
  Short (mem x) (head x) (tail x) (tv_data x) (tv_head x) (tv_tail x) (short_wq_count x)
    (bh_pending x) (short_base x) (short_irq x) (outs x) (live x) v (regs x).
Definition set_regs (v : registry) (x : short) : short :=
  Short (mem x) (head x) (tail x) (tv_data x) (tv_head x) (tv_tail x) (short_wq_count x)
    (bh_pending x) (short_base x) (short_irq x) (outs x) (live x) (wakes x) v.

#[export] Instance short_registry : HasRegistry short :=
  { registry_of := regs; set_registry := set_regs; registry_set g s := eq_refl }.

Definition outb (b port : Z) : K short unit := modify (λ s, set_outs ((port, u8 b) :: outs s) s).

(** ** The port-oriented nodes *)

(** Whether the interrupt-driven operations are installed. *)
Definition short_open (minor : Z) : K short (Z * bool) :=
  mret (0, c_bool (Z.land minor 128)).
Definition short_release : K short Z := mret 0.

Definition SHORT_DEFAULT : Z := 0.
Definition SHORT_STRING : Z := 1.
Definition SHORT_MEMORY : Z := 2.

(** [while (count--) *(ptr++) = inb(port);], and [insb]. *)
Fixpoint in_bytes (n : nat) (port : Z) : K short (list Z) :=
  match n with
  | O => mret []
  | S n' => b ← call (io_in port); l ← in_bytes n' port; mret (b :: l)
  end.

Fixpoint out_bytes (l : list Z) (port : Z) : K short unit :=
  match l with
  | [] => mret tt
  | b :: l => outb b port;; out_bytes l port
  end.

Definition kalloc (n : Z) : K short bool :=
  z ← call (kmalloc n);
  if z =? 0 then mret false else modify (λ s, set_live (live s + 1) s);; mret true.
Definition kfree : K short unit := modify (λ s, set_live (live s - 1) s).

(** The port and the mode a minor number stands for. *)
Definition port_of (short_base minor : Z) : Z := short_base + Z.land minor 15.
Definition mode_of (use_mem : bool) (minor : Z) : Z :=
  if use_mem then SHORT_MEMORY else Z.shiftr (Z.land minor 112) 4.

Definition do_short_read (p : params) (minor count : Z) : K short (Z * list cell) :=
  sb ← gets short_base;
  ok ← kalloc count;
  if negb ok then mret (- ENOMEM, []) else
  let mode := mode_of (use_mem p) minor in
  let known := (mode =? SHORT_STRING) || (mode =? SHORT_DEFAULT) || (mode =? SHORT_MEMORY) in
  kbuf ← (if known then in_bytes (Z.to_nat count) (port_of sb minor) else mret []);
  let retval := if known then s32 count else - EINVAL in
  if retval >? 0 then
    '(bytes, ok) ← copy_to_user (Some <$> take (Z.to_nat retval) kbuf);
    kfree;;
    mret (if ok : bool then retval else - EFAULT, bytes)
  else kfree;; mret (retval, []).

Definition short_read := do_short_read.

Definition do_short_write (p : params) (minor : Z) (buf : list Z) : K short Z :=
  sb ← gets short_base;
  let count := lenZ buf in
  ok ← kalloc count;
  if negb ok then mret (- ENOMEM) else
  left ← call (copy_user count);
  if negb (left =? 0) then mret (- EFAULT) else
  let mode := mode_of (use_mem p) minor in
  let known := (mode =? SHORT_STRING) || (mode =? SHORT_DEFAULT) || (mode =? SHORT_MEMORY) in
  (if known then out_bytes buf (port_of sb minor) else mret tt);;
  kfree;;
  mret (if known then s32 count else - EINVAL).

Definition short_write := do_short_write.

(** POLLIN | POLLRDNORM | POLLOUT | POLLWRNORM *)
Definition short_poll : Z := Z.lor 1 (Z.lor 64 (Z.lor 4 256)).

(** ** The interrupt-driven node *)

(** [short_incr_bp] on an offset. *)
Definition short_incr_bp (index delta : Z) : Z :=
  let new := index + delta in if new >=? PAGE_SIZE then 0 else new.

(** [while (short_head == short_tail) ...]: [true] once there is something to
    read, [false] on a signal. [fuel] bounds the times the task is woken in vain. *)
Fixpoint wait_data (fuel : nat) : K short bool :=
  match fuel with
  | O => sleep_forever
  | S fuel' =>
      s ← get;
      if head s =? tail s then
        interfere;;
        sig ← call signal_pending;
        if negb (sig =? 0) then mret false else wait_data fuel'
      else mret true
  end.

(** [n] bytes at offset [off] of the page. *)
Definition page_bytes (off n : Z) : K short (list cell) :=
  b ← gets mem;
  if bool_decide (0 <= off ∧ 0 <= n ∧ off + n <= PAGE_SIZE) then mret (slice off n b)
  else oops OutOfBounds.

Definition short_i_read (fuel : nat) (count : Z) : K short (Z * list cell) :=
  ok ← wait_data fuel;
  if negb ok then mret (- ERESTARTSYS, []) else
  s ← get;
  let count0 := s32 (head s - tail s) in
  let count0 := if count0 <? 0 then PAGE_SIZE - tail s else count0 in
  let count := if count0 <? count then count0 else count in
  src ← page_bytes (tail s) count;
  '(bytes, ok) ← copy_to_user src;
  if negb ok then mret (- EFAULT, bytes) else
  modify (λ s, set_tail (short_incr_bp (tail s) count) s);;
  mret (count, bytes).

(** [while (written < count) outb(0xff * ((++written + odd) & 1), port)] *)
Fixpoint toggle (n : nat) (written odd port : Z) : K short unit :=
  match n with
  | O => mret tt
  | S n' =>
      outb (255 * Z.land (written + 1 + odd) 1) port;;
      toggle n' (written + 1) odd port
  end.

(** The value of the call and the new file position. *)
Definition short_i_write (count f_pos : Z) : K short (Z * Z) :=
  sb ← gets short_base;
  toggle (Z.to_nat count) 0 (Z.land f_pos 1) sb;;
  mret (count, f_pos + count).

(** ** Interrupt handlers *)

Definition do_gettimeofday : K short (Z * Z) :=
  sec ← call (kint "tv_sec"%string);
  usec ← call (kint "tv_usec"%string);
  mret (sec, usec).

(** What [sprintf] prints for a time, and before the times of a bottom half. *)
Definition time_record (tv : Z * Z) : list Z :=
  fmt_0u 8 (Z.rem (fst tv) 100000000) ++ [46] ++ fmt_0u 6 (snd tv) ++ [10].
Definition bh_record (savecount : Z) : list Z :=
  [98; 104; 32; 97; 102; 116; 101; 114; 32] ++ fmt_wi 6 savecount ++ [10].

(** [sprintf((char * )short_head, ...)], its terminator included, and then
    [short_incr_bp(&short_head, written)]. *)
Definition sprintf_head (l : list Z) : K short unit :=
  s ← get;
  if bool_decide (0 <= head s ∧ head s + lenZ l + 1 <= lenZ (mem s))
  then modify (set_mem (store (head s) (Some <$> (l ++ [0])) (mem s)))
  else oops OutOfBounds.
Definition advance_head (n : Z) : K short unit :=
  modify (λ s, set_head (short_incr_bp (head s) n) s).

Definition wake_up : K short unit := modify (λ s, set_wakes (wakes s + 1) s).

Definition short_interrupt : K short Z :=
  tv ← do_gettimeofday;
  let r := time_record tv in
  sprintf_head r;;
  (if negb (lenZ r =? 16) then oops BugOn else mret tt);;
  advance_head (lenZ r);;
  wake_up;;
  mret IRQ_HANDLED.

Definition short_incr_tv (i : Z) : Z := if i =? NR_TIMEVAL - 1 then 0 else i + 1.

(** [do { ... } while (tv_tail != tv_head)]: the pointers meet within one turn
    of the array. *)
Fixpoint print_times (fuel : nat) : K short unit :=
  match fuel with
  | O => sleep_forever
  | S fuel' =>
      s ← get;
      tv ← deref OutOfBounds (lookupZ (tv_data s) (tv_tail s));
      let r := time_record tv in
      sprintf_head r;;
      advance_head (lenZ r);;
      modify (λ s, set_tv_tail (short_incr_tv (tv_tail s)) s);;
      s ← get;
      if negb (tv_tail s =? tv_head s) then print_times fuel' else mret tt
  end.

Definition short_do_tasklet : K short unit :=
  savecount ← gets short_wq_count;
  modify (set_short_wq_count 0);;
  modify (set_bh_pending false);;
  sprintf_head (bh_record savecount);;
  advance_head (lenZ (bh_record savecount));;
  print_times (Z.to_nat NR_TIMEVAL);;
  wake_up.

(** [do_gettimeofday(tv_head); short_incr_tv(&tv_head);] *)
Definition stamp : K short unit :=
  tv ← do_gettimeofday;
  s ← get;
  deref OutOfBounds (lookupZ (tv_data s) (tv_head s));;
  modify (λ s, set_tv_data (<[Z.to_nat (tv_head s) := tv]> (tv_data s)) s);;
  modify (λ s, set_tv_head (short_incr_tv (tv_head s)) s).

Definition short_wq_interrupt : K short Z :=
  stamp;;
  modify (set_bh_pending true);;                (* schedule_work *)
  modify (λ s, set_short_wq_count (s32 (short_wq_count s + 1)) s);;
  mret IRQ_HANDLED.

Definition short_tl_interrupt : K short Z :=
  stamp;;
  modify (set_bh_pending true);;                (* tasklet_schedule *)
  modify (λ s, set_short_wq_count (s32 (short_wq_count s + 1)) s);;
  mret IRQ_HANDLED.

Definition short_sh_interrupt : K short Z :=
  sb ← gets short_base;
  value ← call (io_in sb);
  if negb (c_bool (Z.land value 128)) then mret IRQ_NONE else
  outb (Z.land value 127) sb;;
  tv ← do_gettimeofday;
  let r := time_record tv in
  sprintf_head r;;
  advance_head (lenZ r);;
  wake_up;;
  mret IRQ_HANDLED.

(** ** Probing for the interrupt line *)

(** [outb(0x10,...); outb(0x00,...); outb(0xFF,...); outb(0x00,...);] *)
Definition trigger : K short unit :=
  sb ← gets short_base;
  outb 16 (sb + 2);; outb 0 sb;; outb 255 sb;; outb 0 (sb + 2).

(** The number of times the loop went round is [count + 1]; [count] is at most
    5, so six rounds are fuel enough. *)
Fixpoint kernelprobe_loop (fuel : nat) (count : Z) : K short Z :=
  match fuel with
  | O => sleep_forever
  | S fuel' =>
      call (kint "probe_irq_on"%string);;
      trigger;;
      r ← call (kint "probe_irq_off"%string);
      modify (set_short_irq (if r =? 0 then -1 else r));;
      i ← gets short_irq;
      if i <? 0 then
        if count <? 5 then kernelprobe_loop fuel' (count + 1) else mret (count + 1)
      else mret count
  end.
Definition short_kernelprobe : K short Z := kernelprobe_loop 6 0.

Definition short_probing (irq : Z) (s : short) : short :=
  let s := if short_irq s =? 0 then set_short_irq irq s else s in
  if negb (short_irq s =? irq) then set_short_irq (- irq) s else s.

(** The lines tried; [short_probing] may run, for the ones that were granted,
    while the driver waits. *)
Definition trials : list Z := [3; 5; 7; 9].

Fixpoint request_trials (l : list Z) : K short (list (Z * Z)) :=
  match l with
  | [] => mret []
  | t :: l =>
      r ← acquire "request_irq"%string (Res "irq" t);
      rest ← request_trials l;
      mret ((t, r) :: rest)
  end.
Fixpoint free_trials (l : list (Z * Z)) : K short unit :=
  match l with
  | [] => mret tt
  | (t, r) :: l => (if r =? 0 then give_back (Res "irq" t) else mret tt);; free_trials l
  end.

Fixpoint selfprobe_loop (fuel : nat) (count : Z) : K short Z :=
  match fuel with
  | O => sleep_forever
  | S fuel' =>
      modify (set_short_irq 0);;
      trigger;;
      interfere;;                               (* udelay(5) *)
      i ← gets short_irq;
      if i <=? 0 then
        if count <? 5 then selfprobe_loop fuel' (count + 1) else mret (count + 1)
      else mret count
  end.
Definition short_selfprobe : K short Z :=
  tried ← request_trials trials;
  count ← selfprobe_loop 6 0;
  free_trials tried;;
  mret count.

(** ** The module *)

Definition free_page : resource := Res "page" 0.
Definition chrdev : resource := Res "chrdev" 0.
Definition io_region (b : Z) : resource := Res "region" b.
Definition mem_region (b : Z) : resource := Res "mem region" b.
Definition mapping (b : Z) : resource := Res "mapping" b.

(** The default line of a base address. *)
Definition default_irq (base irq : Z) : Z :=
  if base =? 888 then 7 else if base =? 632 then 2 else if base =? 956 then 5 else irq.

(** Regions first; the value is an error or 0. *)
Definition short_regions (p : params) : K short Z :=
  if negb (use_mem p) then
    z ← acquire_ptr "request_region"%string (io_region (base p));
    mret (if z =? 0 then - ENODEV else 0)
  else
    z ← acquire_ptr "request_mem_region"%string (mem_region (base p));
    if z =? 0 then mret (- ENODEV) else
    a ← call (kint "ioremap"%string);
    modify (set_short_base a);;
    hold (mapping a);;
    mret 0.

(** The handlers, at the end of [short_init]. *)
Definition short_handlers (p : params) : K short unit :=
  i ← gets short_irq;
  sb ← gets short_base;
  if (i >=? 0) && share p then
    r ← acquire "request_irq"%string (Res "irq" i);
    if negb (r =? 0) then modify (set_short_irq (-1)) else outb 16 (sb + 2)
  else
    (if i >=? 0 then
       r ← acquire "request_irq"%string (Res "irq" i);
       if negb (r =? 0) then modify (set_short_irq (-1)) else outb 16 (sb + 2)
     else mret tt);;
    i ← gets short_irq;
    if (i >=? 0) && (wq p || tasklet p) then
      give_back (Res "irq" i);;
      r ← acquire "request_irq"%string (Res "irq" i);
      if negb (r =? 0) then modify (set_short_irq (-1)) else mret tt
    else mret tt.

Definition short_init (p : params) : K short Z :=
  modify (set_short_base (base p));;
  modify (set_short_irq (irq p));;
  r ← short_regions p;
  if negb (r =? 0) then mret r else
  result ← call (kint "register_chrdev"%string);
  if result <? 0 then
    sb ← gets short_base;
    give_back (io_region sb);;
    mret result
  else
    hold chrdev;;
    modify (set_mem (uninit (PAGE_SIZE + 1)));;
    hold free_page;;
    modify (set_head 0);; modify (set_tail 0);;
    i ← gets short_irq;
    (if (i <? 0) && (probe p =? 1) then short_kernelprobe;; mret tt else mret tt);;
    i ← gets short_irq;
    (if (i <? 0) && (probe p =? 2) then short_selfprobe;; mret tt else mret tt);;
    modify (λ s, if short_irq s <? 0 then set_short_irq (default_irq (short_base s) (short_irq s)) s else s);;
    short_handlers p;;
    mret 0.

Definition short_cleanup (p : params) : K short unit :=
  i ← gets short_irq;
  sb ← gets short_base;
  (if i >=? 0 then outb 0 (sb + 2);; give_back (Res "irq" i) else mret tt);;
  modify (set_bh_pending false);;
  give_back chrdev;;
  (if use_mem p then give_back (mapping sb);; give_back (mem_region sb)
   else give_back (io_region sb));;
  give_back free_page.

(** * Invariant *)

#[local] Arguments time_record _ : simpl never.
#[local] Arguments bh_record _ : simpl never.

Record wf (s : short) : Prop := {
  wf_mem : lenZ (mem s) = PAGE_SIZE + 1;
  wf_head : 0 <= head s < PAGE_SIZE;
  wf_align : head s mod 16 = 0;
  wf_tail : 0 <= tail s < PAGE_SIZE;
  wf_data : lenZ (tv_data s) = NR_TIMEVAL;
  wf_times : Forall (λ tv, 0 <= fst tv ∧ 0 <= snd tv < 1000000) (tv_data s);
  wf_tv_head : 0 <= tv_head s < NR_TIMEVAL;
  wf_tv_tail : 0 <= tv_tail s < NR_TIMEVAL;
  wf_count : 0 <= short_wq_count s < 1000000
}.

(** A clock that tells a time; other tasks keep the invariant. *)
Definition clock_ans (c : kcall) (z : Z) : Prop :=
  doc_ans c z ∧ (c = kint "tv_sec"%string → 0 <= z) ∧
  (c = kint "tv_usec"%string → 0 <= z < 1000000).
Definition short_contract : contract short := Contract clock_ans (λ s s', wf s → wf s') True.

(** What a reader has still to see. *)
Definition page (s : short) : list cell := take (Z.to_nat PAGE_SIZE) (mem s).
Definition unread (s : short) : list cell := ring (page s) (tail s) (head s).

Lemma length_page s : wf s → lenZ (page s) = PAGE_SIZE.
Proof. intros [Hm]. unfold page. rewrite length_take. unfold PAGE_SIZE in *. lia. Qed.

Lemma length_time_record tv :
  0 <= fst tv → 0 <= snd tv < 1000000 → lenZ (time_record tv) = 16.
Proof.
  intros Hs Hu. unfold time_record.
  pose proof (Z.rem_bound_pos (fst tv) 100000000).
  rewrite !length_app, !length_fmt_0u; cbn; try lia.
Qed.

Lemma length_bh_record n : 0 <= n < 1000000 → lenZ (bh_record n) = 16.
Proof.
  intros Hn. unfold bh_record. rewrite !length_app, length_fmt_wi; cbn; lia.
Qed.

(** An aligned pointer advances by a record, round the page. *)
Lemma incr_aligned h :
  0 <= h < PAGE_SIZE → h mod 16 = 0 →
  short_incr_bp h 16 = (h + 16) mod PAGE_SIZE ∧ 0 <= short_incr_bp h 16 < PAGE_SIZE ∧
  short_incr_bp h 16 mod 16 = 0 ∧ h + 16 <= PAGE_SIZE ∧
  short_incr_bp h 16 = wrap PAGE_SIZE (h + 16).
Proof.
  unfold PAGE_SIZE. intros Hh Ha. pose proof (Z.div_mod h 16).
  assert (h + 16 <= 4096) by lia. unfold short_incr_bp, PAGE_SIZE, wrap.
  destruct (Z.geb_spec (h + 16) 4096).
  - replace (h + 16) with 4096 by lia. splits.
  - rewrite (proj2 (Z.eqb_neq _ _)) by lia.
    rewrite Z.mod_small by lia. splits. rewrite <-Z.add_mod_idemp_r by lia.
    change (16 mod 16) with 0. by rewrite Z.add_0_r.
Qed.

Section rules.
Context (C : contract short).
Hypothesis Hclock : ∀ c z, c_ans C c z → clock_ans c z.

Lemma wp_gettimeofday s (Q : Z * Z → short → Prop) :
  (∀ tv, 0 <= fst tv → 0 <= snd tv < 1000000 → Q tv s) → wp C do_gettimeofday Q s.
Proof.
  intros HQ. unfold do_gettimeofday. wp_step. wp_step. wp_step. wp_step. wp_step.
  apply HQ; cbn.
  - apply Hclock in H as (_ & ? & _). auto.
  - apply Hclock in H0 as (_ & _ & ?). auto.
Qed.

(** Printing a record of 16 characters at the head, and moving past it. *)
Definition printed (r : list Z) (s : short) : short :=
  set_head (short_incr_bp (head s) (lenZ r)) (set_mem (store (head s) (Some <$> (r ++ [0])) (mem s)) s).

Lemma wf_printed r s : wf s → lenZ r = 16 → wf (printed r s).
Proof.
  intros [] Hr. unfold printed. rewrite Hr.
  destruct (incr_aligned (head s)) as (? & ? & ? & ? & ?); [done|done|].
  split; cbn; rewrite ?length_store; done.
Qed.

Lemma wp_sprintf r s (Q : unit → short → Prop) :
  wf s → lenZ r = 16 → Q tt (set_mem (store (head s) (Some <$> (r ++ [0])) (mem s)) s) →
  wp C (sprintf_head r) Q s.
Proof.
  intros [] Hr HQ. unfold sprintf_head. wp_step. wp_step.
  destruct (incr_aligned (head s)) as (_ & _ & _ & ? & _); [done|done|].
  rewrite bool_decide_true by lia. by apply wp_modify.
Qed.

Lemma wp_print r s (Q : unit → short → Prop) :
  wf s → lenZ r = 16 → Q tt (printed r s) →
  wp C (sprintf_head r;; advance_head (lenZ r)) Q s.
Proof. intros Hs Hr HQ. wp_step. apply wp_sprintf; [done|done|]. by apply wp_modify. Qed.
End rules.

(** The page after a record and its terminator were stored. *)
Lemma page_printed r s :
  wf s → lenZ r = 16 →
  page (printed r s) =
    let b := store (head s) (Some <$> r) (page s) in
    if head s + 16 <? PAGE_SIZE then store (head s + 16) [Some 0] b else b.
Proof.
  intros Hs Hr. pose proof (length_page s Hs) as Hp. destruct Hs as [Hm Hh Ha Ht _ _ _ _].
  destruct (incr_aligned (head s)) as (_ & _ & _ & Hl & _); [done|done|].
  cbv zeta. apply list_eq. intros i. unfold page, printed, PAGE_SIZE in *.
  cbn [mem set_head set_mem]. rewrite fmap_app.
  destruct (decide (Z.of_nat i < 4096)) as [Hi|Hi].
  - rewrite lookup_take_lt by lia.
    assert (take 4096 (mem s) !! i = mem s !! i) as Hti by (apply lookup_take_lt; lia).
    change (Z.to_nat 4096) with 4096%nat in *.
    destruct (decide (head s <= Z.of_nat i < head s + 16)) as [Hin|Hin];
      [|destruct (decide (Z.of_nat i = head s + 16)) as [He|He]].
    + rewrite lookup_store_in by (rewrite ?length_app, ?length_fmap; cbn; lia).
      rewrite lookup_app_l by (rewrite length_fmap; lia).
      case_match; [rewrite lookup_store_out by (rewrite ?length_store; cbn; lia)|];
        by rewrite lookup_store_in by (rewrite ?length_fmap; lia).
    + rewrite lookup_store_in by (rewrite ?length_app, ?length_fmap; cbn; lia).
      rewrite lookup_app_r by (rewrite length_fmap; lia). rewrite length_fmap.
      rewrite (proj2 (Z.ltb_lt _ _)) by lia.
      rewrite lookup_store_in by (rewrite ?length_store; cbn; lia).
      f_equal. lia.
    + rewrite lookup_store_out by (rewrite ?length_app, ?length_fmap; cbn; lia).
      case_match; [rewrite lookup_store_out by (cbn; lia)|];
        by rewrite lookup_store_out by (rewrite ?length_fmap; lia).
  - rewrite lookup_take_ge by lia. symmetry. apply lookup_ge_None_2.
    case_match; rewrite ?length_store; lia.
Qed.

Lemma ring_store_free {A} (b src : list A) rp wp k :
  0 <= rp < lenZ b → 0 <= wp < lenZ b → wp <= k → (wp < rp → k + lenZ src <= rp) →
  ring (store k src b) rp wp = ring b rp wp.
Proof.
  intros ? ? ? ?. unfold ring. rewrite length_store. case_match; zbool.
  - apply slice_store_disjoint; lia.
  - f_equal; apply slice_store_disjoint; lia.
Qed.

(** Printing adds the record to what is unread while there is room; on a page
    full up to the last record it makes everything look read. *)
Lemma unread_printed r s :
  wf s → lenZ r = 16 →
  (lenZ (unread s) + 16 < PAGE_SIZE → unread (printed r s) = unread s ++ (Some <$> r)) ∧
  (lenZ (unread s) + 16 = PAGE_SIZE → unread (printed r s) = []).
Proof.
  intros Hs Hr. pose proof (length_page s Hs) as Hp.
  pose proof (page_printed r s Hs Hr) as Hpp. destruct Hs as [Hm Hh Ha Ht _ _ _ _ _].
  destruct (incr_aligned (head s)) as (He & Hr' & _ & Hl & Hi); [done|done|].
  assert (lenZ (unread s) = if tail s <=? head s then head s - tail s else PAGE_SIZE - tail s + head s)
    as Hlen by (unfold unread; rewrite length_ring; by rewrite Hp).
  assert (tail (printed r s) = tail s) as Et by done.
  assert (head (printed r s) = short_incr_bp (head s) 16) as Eh by (cbn; by rewrite Hr).
  unfold unread in *. rewrite Et, Eh, Hlen. split; intros Hroom.
  - rewrite Hpp. cbv zeta.
    assert (ring (store (head s) (Some <$> r) (page s)) (tail s) (short_incr_bp (head s) 16) =
      ring (page s) (tail s) (head s) ++ (Some <$> r)) as Hpush.
    { rewrite Hi, <-Hp. replace (head s + 16) with (head s + lenZ (Some <$> r))
        by (rewrite length_fmap; lia).
      apply ring_push; rewrite ?Hp, ?length_fmap; try done. unfold ring_room.
      pose proof (Z.div_mod (head s) 16). unfold PAGE_SIZE in *. case_match; zbool; lia. }
    rewrite <-Hpush. destruct (head s + 16 <? PAGE_SIZE) eqn:E; zbool; [|done].
    unfold short_incr_bp in *. unfold PAGE_SIZE in *. destruct (Z.geb_spec (head s + 16) 4096); [lia|].
    apply ring_store_free; rewrite ?length_store, ?Hp; cbn; try lia.
  - assert (short_incr_bp (head s) 16 = tail s) as ->.
    { rewrite He. unfold PAGE_SIZE in *. pose proof (Z.div_mod (head s) 16).
      destruct (tail s <=? head s) eqn:E; zbool.
      - replace (head s + 16) with (tail s + 1 * 4096) by lia.
        rewrite Z.mod_add, Z.mod_small by lia. done.
      - replace (head s + 16) with (tail s) by lia. apply Z.mod_small. lia. }
    apply ring_empty.
Qed.

(** ** The handlers *)

Section handlers.
Context (C : contract short).
Hypothesis Hclock : ∀ c z, c_ans C c z → clock_ans c z.

Lemma wp_short_interrupt s (Q : Z → short → Prop) :
  wf s →
  (∀ tv, 0 <= fst tv → 0 <= snd tv < 1000000 →
    Q IRQ_HANDLED (set_wakes (wakes s + 1) (printed (time_record tv) s))) →
  wp C short_interrupt Q s.
Proof.
  intros Hs HQ. unfold short_interrupt, wake_up. wp_step. apply wp_gettimeofday; [done|].
  intros tv H1 H2. cbv zeta. pose proof (length_time_record tv H1 H2) as Hr. wp_step.
  apply wp_sprintf; [done|done|]. rewrite Hr. cbn [Z.eqb negb Pos.eqb]. wp_step. wp_step.
  wp_step. apply wp_modify. wp_step. apply wp_modify. wp_step.
  specialize (HQ tv H1 H2). unfold printed in HQ. by rewrite Hr in HQ.
Qed.

Lemma wf_wakes n s : wf s → wf (set_wakes n s).
Proof. by intros []. Qed.

(** The shared handler looks at the port first. *)
Lemma wp_short_sh_interrupt s (Q : Z → short → Prop) :
  wf s →
  Q IRQ_NONE s →
  (∀ b tv, 0 <= fst tv → 0 <= snd tv < 1000000 →
    Q IRQ_HANDLED (set_wakes (wakes s + 1)
      (printed (time_record tv) (set_outs ((short_base s, u8 (Z.land b 127)) :: outs s) s)))) →
  wp C short_sh_interrupt Q s.
Proof.
  intros Hs Hn HQ. unfold short_sh_interrupt, outb, wake_up. wp_step. wp_step. wp_step. wp_step.
  wp_step; [by wp_step|]. wp_step. apply wp_modify. wp_step. apply wp_gettimeofday; [done|].
  intros tv H1 H2. cbv zeta. pose proof (length_time_record tv H1 H2) as Hr. wp_step.
  apply wp_sprintf; [by destruct Hs|done|]. wp_step. apply wp_modify. wp_step. apply wp_modify.
  wp_step. specialize (HQ z tv H1 H2). unfold printed in HQ. by rewrite Hr in *.
Qed.

Lemma incr_tv_mod i : 0 <= i < NR_TIMEVAL → short_incr_tv i = (i + 1) mod NR_TIMEVAL.
Proof.
  unfold short_incr_tv, NR_TIMEVAL. intros. case_match; zbool; [by subst|].
  rewrite Z.mod_small; lia.
Qed.

(** The top half fills one slot of the array. *)
Record stamped (tv : Z * Z) (s s' : short) : Prop := {
  st_data : tv_data s' = <[Z.to_nat (tv_head s) := tv]> (tv_data s);
  st_head : tv_head s' = (tv_head s + 1) mod NR_TIMEVAL;
  st_pending : bh_pending s' = true;
  st_count : short_wq_count s' = short_wq_count s + 1;
  st_wf : wf s'
}.

Lemma wp_short_wq_interrupt s (Q : Z → short → Prop) :
  wf s → short_wq_count s + 1 < 1000000 →
  (∀ tv s', stamped tv s s' → Q IRQ_HANDLED s') →
  wp C short_wq_interrupt Q s.
Proof.
  intros [] Hc HQ. unfold short_wq_interrupt, stamp. wp_step. wp_step.
  apply wp_gettimeofday; [done|]. intros tv H1 H2. wp_step. wp_step. wp_step.
  destruct (proj2 (lookupZ_is_Some (tv_data s) (tv_head s)) ltac:(lia)) as [x Hx].
  eapply wp_deref; [exact Hx|]. wp_step. apply wp_modify. apply wp_modify.
  do 2 (wp_step; apply wp_modify).
  wp_step. apply (HQ tv). pose proof (incr_tv_mod (tv_head s) ltac:(done)) as Hi.
  split; cbn; rewrite ?s32_small by lia; try done.
  split; cbn; rewrite ?length_insert, ?s32_small by lia; try done; try lia.
  - apply Forall_insert; [done|]. auto.
  - rewrite Hi. apply Z.mod_pos_bound. done.
Qed.

(** The slots the bottom half prints: all of them when the pointers are equal. *)
Definition pending (s : short) : Z :=
  if tv_head s =? tv_tail s then NR_TIMEVAL else (tv_head s - tv_tail s) mod NR_TIMEVAL.

Lemma pending_spec s :
  wf s → 1 <= pending s <= NR_TIMEVAL ∧ (tv_tail s + pending s) mod NR_TIMEVAL = tv_head s.
Proof.
  intros []. unfold pending, NR_TIMEVAL in *. case_match; zbool.
  - split; [lia|]. replace (tv_tail s + 512) with (tv_tail s + 1 * 512) by lia.
    rewrite Z.mod_add, Z.mod_small by lia. done.
  - pose proof (Z.mod_pos_bound (tv_head s - tv_tail s) 512). split.
    + split; [|lia]. destruct (decide ((tv_head s - tv_tail s) mod 512 = 0)) as [E|]; [|lia].
      apply Z.mod_divide in E; [|done]. destruct E as [k E]. lia.
    + rewrite Z.add_mod_idemp_r by done. replace (_ + _) with (tv_head s) by lia.
      apply Z.mod_small. lia.
Qed.

(** The bottom half after [k] more lines. *)
Record moved (k : Z) (s s' : short) : Prop := {
  mv_wf : wf s';
  mv_head : head s' = (head s + 16 * k) mod PAGE_SIZE;
  mv_tail : tail s' = tail s;
  mv_count : short_wq_count s' = short_wq_count s;
  mv_tv_head : tv_head s' = tv_head s
}.

Lemma wp_print_times fuel k s (Q : unit → short → Prop) :
  wf s → 1 <= k <= NR_TIMEVAL → (tv_tail s + k) mod NR_TIMEVAL = tv_head s →
  k <= Z.of_nat fuel →
  (∀ s', moved k s s' → tv_tail s' = tv_head s' → Q tt s') →
  wp C (print_times fuel) Q s.
Proof.
  revert k s. induction fuel as [|fuel IH]; intros k s Hs Hk Hm Hf HQ; [lia|]. cbn [print_times].
  pose proof (Hs) as Hs0. destruct Hs0 as [? Hh Ha ? Hd Hts ? Htt ?]. wp_step. wp_step. wp_step.
  destruct (proj2 (lookupZ_is_Some (tv_data s) (tv_tail s)) ltac:(lia)) as [tv Htv].
  eapply wp_deref; [exact Htv|]. cbv zeta.
  assert (0 <= fst tv ∧ 0 <= snd tv < 1000000) as [H1 H2].
  { apply lookupZ_Some in Htv as [_ Htv]. exact (Forall_lookup_1 _ _ _ _ Hts Htv). }
  pose proof (length_time_record tv H1 H2) as Hr. wp_step.
  apply wp_sprintf; [done|done|]. wp_step. apply wp_modify. wp_step. apply wp_modify.
  set (s1 := set_tv_tail _ _). pose proof (incr_tv_mod (tv_tail s) Htt) as Hi.
  destruct (incr_aligned (head s)) as (He & _ & _ & _ & _); [done|done|].
  assert (wf s1) as Hs1.
  { destruct (wf_printed (time_record tv) s Hs Hr). unfold printed in *.
    split; cbn in *; try done. rewrite Hi. by apply Z.mod_pos_bound. }
  assert (tv_tail s1 = (tv_tail s + 1) mod NR_TIMEVAL) as Ht1 by (cbn; by rewrite Hi).
  assert (head s1 = (head s + 16) mod PAGE_SIZE) as Hh1 by (cbn; by rewrite Hr, He).
  assert (moved 1 s s1) as Hmv by (split; try done; by rewrite Hh1).
  clearbody s1. wp_step. wp_step. wp_step.
  - apply (IH (k - 1)).
    + done.
    + assert (k ≠ 1); [|lia]. intros ->. rewrite (mv_tv_head _ _ _ Hmv), Ht1 in *. congruence.
    + rewrite Ht1, (mv_tv_head _ _ _ Hmv), <-Hm. rewrite Z.add_mod_idemp_l by done. f_equal. lia.
    + lia.
    + intros s2 [? Hh2 ? ? ?] Hend. apply HQ; [|done]. destruct Hmv. split; try congruence.
      rewrite Hh2, Hh1. rewrite Z.add_mod_idemp_l by done. f_equal. lia.
  - wp_step. assert (k = 1) as ->.
    { destruct Hmv as [_ _ _ _ Hth]. rewrite Hth, Ht1, <-Hm in *. unfold NR_TIMEVAL in *.
      assert (((tv_tail s + k) - (tv_tail s + 1)) mod 512 = 0) as E.
      { rewrite Zminus_mod. replace ((tv_tail s + 1) mod 512) with ((tv_tail s + k) mod 512) by done.
        by rewrite Z.sub_diag. }
      replace (_ - _) with (k - 1) in E by lia. rewrite Z.mod_small in E; lia. }
    by apply HQ.
Qed.

Lemma wp_short_do_tasklet s (Q : unit → short → Prop) :
  wf s →
  (∀ s', wf s' → head s' = (head s + 16 * (1 + pending s)) mod PAGE_SIZE → tail s' = tail s →
    tv_tail s' = tv_head s → tv_head s' = tv_head s → short_wq_count s' = 0 → Q tt s') →
  wp C short_do_tasklet Q s.
Proof.
  intros Hs HQ. destruct (pending_spec s Hs) as [Hp Hpm]. unfold short_do_tasklet, wake_up.
  pose proof (Hs) as [? Hh Ha ? Hd Hts ? Htt Hcnt].
  pose proof (length_bh_record _ Hcnt) as Hr. wp_step. wp_step. wp_step. apply wp_modify.
  wp_step. apply wp_modify. set (s1 := set_bh_pending _ _).
  assert (wf s1) as Hs1 by (split; cbn; done || lia).
  wp_step. apply wp_sprintf; [done|done|]. wp_step. apply wp_modify. wp_step.
  change (set_head _ _) with (printed (bh_record (short_wq_count s)) s1).
  pose proof (wf_printed _ s1 Hs1 Hr) as Hs2.
  destruct (incr_aligned (head s)) as (He & _ & _ & _ & _); [done|done|].
  apply (wp_print_times _ (pending s)); [done|done|done|unfold NR_TIMEVAL in *; lia|].
  intros s3 [? Hh3 Ht3 Hc3 Hth3] Hend. cbn in Hh3, Ht3, Hc3, Hth3. apply wp_modify.
  apply HQ; cbn; try done.
  - by apply wf_wakes.
  - rewrite Hh3, Hr, He, Z.add_mod_idemp_l by done. f_equal. lia.
  - congruence.
Qed.

(** ** Reading *)

Lemma wp_wait_data fuel s (Q : bool → short → Prop) :
  c_sleep C → (∀ s s', c_rely C s s' → wf s → wf s') →
  wf s → (∀ s', wf s' → Q false s') → (∀ s', wf s' → head s' ≠ tail s' → Q true s') →
  wp C (wait_data fuel) Q s.
Proof.
  intros Hsl Hrely Hs Hf Ht. revert s Hs. induction fuel as [|fuel IH]; intros s Hs; cbn [wait_data].
  - by apply wp_sleep.
  - wp_step. wp_step. wp_step; [|wp_step; by apply Ht].
    wp_step. wp_step. wp_step. wp_step. wp_step; [wp_step; eauto|]. apply IH. eauto.
Qed.
End handlers.

(** * The driver as a state machine *)

Inductive op :=
| Read (minor count : Z) | Write (minor : Z) (buf : list Z)
| IRead (fuel : nat) (count : Z) | IWrite (count f_pos : Z)
| Interrupt | ShInterrupt | WqInterrupt | TlInterrupt | BottomHalf.

Definition handle (p : params) (o : op) : K short Z :=
  match o with
  | Read minor count => kfmap fst (short_read p minor count)
  | Write minor buf => short_write p minor buf
  | IRead fuel count => kfmap fst (short_i_read fuel count)
  | IWrite count f_pos => kfmap fst (short_i_write count f_pos)
  | Interrupt => short_interrupt
  | ShInterrupt => short_sh_interrupt
  | WqInterrupt => short_wq_interrupt
  | TlInterrupt => short_tl_interrupt
  | BottomHalf => kfmap (λ _, 0) short_do_tasklet
  end.

(** A million interrupts do not happen before a bottom half runs. *)
Definition allowed (s : short) (o : op) : Prop :=
  match o with
  | IRead _ count => 0 <= count
  | Write _ buf => lenZ buf < 2 ^ 31
  | WqInterrupt | TlInterrupt => short_wq_count s + 1 < 1000000
  | _ => True
  end.

Section safety.
Context (C : contract short).
Hypothesis Hclock : ∀ c z, c_ans C c z → clock_ans c z.
Hypothesis Hsleep : c_sleep C.
Hypothesis Hrely : ∀ s s', c_rely C s s' → wf s → wf s'.

Lemma wp_in_bytes n port s (Q : list Z → short → Prop) :
  (∀ l, length l = n → Forall (λ b, 0 <= b < 256) l → Q l s) → wp C (in_bytes n port) Q s.
Proof.
  revert Q. induction n as [|n IH]; intros Q HQ; cbn [in_bytes]; [wp_step; by apply HQ|].
  do 3 wp_step. apply IH. intros l Hl Hb. wp_step. apply HQ; [cbn; lia|].
  constructor; [|done]. apply Hclock in H as [H _]. exact H.
Qed.

(** What [out_bytes] and [toggle] leave: port writes, newest first. *)
Lemma wp_out_bytes l port s (Q : unit → short → Prop) :
  Q tt (set_outs (rev ((λ b, (port, u8 b)) <$> l) ++ outs s) s) → wp C (out_bytes l port) Q s.
Proof.
  revert s. induction l as [|b l IH]; intros s HQ; cbn [out_bytes]; [wp_step; by destruct s|].
  unfold outb. wp_step. apply wp_modify. apply IH. cbn in *. rewrite <-app_assoc in HQ. exact HQ.
Qed.

Lemma wf_outs l s : wf s → wf (set_outs l s).
Proof. by intros []. Qed.
Lemma wf_live n s : wf s → wf (set_live n s).
Proof. by intros []. Qed.

Lemma wp_toggle n w odd port s (Q : unit → short → Prop) :
  wf s → (∀ l, Q tt (set_outs l s)) → wp C (toggle n w odd port) Q s.
Proof.
  intros Hs HQ. assert (∀ l w, wp C (toggle n w odd port) Q (set_outs l s)) as H.
  { induction n as [|n IH]; intros l w'; cbn [toggle]; [by wp_step|].
    unfold outb. wp_step. apply wp_modify. apply (IH _ (w' + 1)). }
  specialize (H (outs s) w). by destruct s.
Qed.

Lemma wp_do_short_read p minor count s :
  wf s → wp C (do_short_read p minor count) (λ _ s', s' = s) s.
Proof.
  intros Hs. unfold do_short_read, kalloc, kfree, copy_to_user. wp_step. wp_step. wp_step. wp_step.
  wp_step. wp_step; [by do 2 wp_step|]. wp_step. apply wp_modify. wp_step. cbn [negb]. cbv zeta.
  set (known := _ || _). wp_step.
  apply (wp_mono _ _ (λ _ s', s' = set_live (live s + 1) s)).
  { destruct known; [apply wp_in_bytes; by intros|by wp_step]. }
  intros kbuf s' ->. assert (set_live (live s + 1 - 1) (set_live (live s + 1) s) = s) as E
    by (rewrite Z.add_simpl_r; by destruct s).
  repeat wp_step; exact E.
Qed.

(** A buffer is leaked exactly when the user's bytes cannot be copied. *)
Lemma wp_do_short_write p minor buf s :
  wf s → lenZ buf < 2 ^ 31 → wp C (do_short_write p minor buf) (λ r s', wf s' ∧
    live s' = (if r =? - EFAULT then live s + 1 else live s)) s.
Proof.
  intros Hs Hl. unfold do_short_write, kalloc, kfree. wp_step. wp_step. wp_step. cbv zeta.
  wp_step. wp_step. wp_step; [wp_step; cbn [negb]; wp_step; by split|]. wp_step. apply wp_modify. wp_step.
  cbn [negb]. wp_step. wp_step. wp_step; [wp_step; split; [by apply wf_live|done]|].
  set (known := _ || _). wp_step.
  apply (wp_mono _ _ (λ _ s', ∃ l, s' = set_outs l (set_live (live s + 1) s))).
  { destruct known; [apply wp_out_bytes; by eexists|wp_step]. exists (outs s). by destruct s. }
  intros _ s' [l ->]. wp_step. apply wp_modify. wp_step. split; [by apply wf_live, wf_outs, wf_live|].
  rewrite (proj2 (Z.eqb_neq _ _)); [cbn; lia|].
  unfold EFAULT, EINVAL. destruct known; [rewrite s32_small; lia|lia].
Qed.

Lemma wp_short_i_read fuel count s :
  wf s → 0 <= count → wp C (short_i_read fuel count) (λ _ s', wf s') s.
Proof.
  intros Hs Hc. unfold short_i_read. wp_step. apply wp_wait_data; [done..| |].
  { intros s' Hs'. cbn [negb]. by wp_step. }
  intros s' Hs' Hne. cbn [negb]. wp_step. wp_step. cbv zeta. destruct (Hs') as [].
  rewrite s32_small by (unfold PAGE_SIZE in *; lia).
  set (count0 := if _ <? 0 then _ else _).
  assert (0 < count0 ∧ tail s' + count0 <= PAGE_SIZE) as [? ?].
  { subst count0. case_match; zbool; unfold PAGE_SIZE in *; lia. }
  set (n := if count0 <? count then _ else _).
  assert (0 <= n <= count0) as Hn by (subst n; case_match; zbool; lia). clearbody n.
  wp_step. unfold page_bytes. wp_step. wp_step. rewrite bool_decide_true by lia. wp_step.
  wp_step. apply wp_copy_to_user. intros z Hz. wp_step; [by wp_step|].
  wp_step. apply wp_modify. wp_step.
  split; cbn; try done. unfold short_incr_bp. cbv zeta. destruct (Z.geb_spec (tail s' + n) PAGE_SIZE); unfold PAGE_SIZE in *; lia.
Qed.

Lemma short_wp_handle p s o : wf s → allowed s o → wp C (handle p o) (λ _, wf) s.
Proof.
  intros Hs Ha. destruct o; cbn [handle].
  - apply wp_kfmap. eapply wp_mono; [by apply wp_do_short_read|]. by intros ? ? ->.
  - eapply wp_mono; [by apply wp_do_short_write|]. by intros ? ? [].
  - apply wp_kfmap. by apply wp_short_i_read.
  - apply wp_kfmap. unfold short_i_write. wp_step. wp_step. wp_step.
    apply wp_toggle; [done|]. intros l. wp_step. by apply wf_outs.
  - apply wp_short_interrupt; [done|done|]. intros tv H1 H2. apply wf_wakes.
    apply wf_printed; [done|by apply length_time_record].
  - apply wp_short_sh_interrupt; [done|done|done|]. intros b tv H1 H2. apply wf_wakes.
    apply wf_printed; [by apply wf_outs|by apply length_time_record].
  - apply wp_short_wq_interrupt; [done|done|done|]. by intros ? ? [].
  - apply wp_short_wq_interrupt; [done|done|done|]. by intros ? ? [].
  - apply wp_kfmap. by apply wp_short_do_tasklet.
Qed.
End safety.


(** ** What each part does *)

Definition clock_quiet : contract short := Contract clock_ans alone False.

Lemma unread_wakes n s : unread (set_wakes n s) = unread s.
Proof. unfold unread, page. cbn [mem head tail set_wakes]. reflexivity. Qed.

(** An interrupt appends its record to what is unread while there is room;
    on a page that is full up to the last record it makes everything look read,
    so that 255 records are lost at once. *)
Theorem short_interrupt_appends s :
  wf s →
  wp clock_quiet short_interrupt (λ r s', r = IRQ_HANDLED ∧ wf s' ∧ tail s' = tail s ∧
    ∃ tv, 0 <= fst tv ∧ 0 <= snd tv < 1000000 ∧
      (lenZ (unread s) + 16 < PAGE_SIZE → unread s' = unread s ++ (Some <$> time_record tv)) ∧
      (lenZ (unread s) + 16 = PAGE_SIZE → unread s' = [])) s.
Proof.
  intros Hs. apply wp_short_interrupt; [done|done|]. intros tv H1 H2.
  pose proof (length_time_record tv H1 H2) as Hr.
  destruct (unread_printed _ s Hs Hr) as [Ha Hl].
  split_and!; [done|by apply wf_wakes, wf_printed|done|].
  exists tv. rewrite unread_wakes. split_and!; [done|lia|lia|exact Ha|exact Hl].
Qed.

(** A reader gets the oldest unread bytes, as many as it asks for up to the
    end of the page, and exactly those are removed. *)
Theorem short_i_read_takes fuel count s :
  wf s → head s ≠ tail s → 0 <= count → (0 < fuel)%nat →
  wp (quiet short) (short_i_read fuel count) (λ r s',
    let n := Z.min count (ring_avail PAGE_SIZE (tail s) (head s)) in
    fst r = n ∧ lenZ (snd r) = n ∧ unread s = snd r ++ unread s') s.
Proof.
  intros Hs Hne Hc Hf. unfold short_i_read. destruct fuel as [|fuel]; [lia|]. cbn [wait_data].
  pose proof (length_page s Hs) as Hp. destruct Hs as [Hm Hh Ha Ht _ _ _ _ _].
  wp_step. wp_step. wp_step. rewrite (proj2 (Z.eqb_neq _ _)) by done. wp_step. cbn [negb].
  wp_step. wp_step. cbv zeta. rewrite s32_small by (unfold PAGE_SIZE in *; lia).
  set (count0 := if _ <? 0 then _ else _).
  assert (count0 = ring_avail PAGE_SIZE (tail s) (head s)) as ->.
  { subst count0. unfold ring_avail. repeat case_match; zbool; lia. }
  set (avail := ring_avail _ _ _). set (n := if avail <? count then _ else _).
  assert (0 < avail ∧ tail s + avail <= PAGE_SIZE) as [? ?].
  { subst avail. unfold ring_avail. case_match; zbool; lia. }
  assert (n = Z.min count avail) as -> by (subst n; case_match; zbool; lia).
  wp_step. unfold page_bytes. wp_step. wp_step. rewrite bool_decide_true by lia. wp_step.
  wp_step. apply wp_copy_to_user. intros z [_ ->]. cbn [Z.eqb negb]. wp_step. apply wp_modify.
  wp_step. cbn [fst snd]. rewrite Nat.sub_0_r, firstn_all.
  assert (slice (tail s) (Z.min count avail) (mem s) = slice (tail s) (Z.min count avail) (page s)) as ->.
  { apply list_eq. intros j. unfold PAGE_SIZE in *.
    destruct (decide (Z.of_nat j < Z.min count avail)).
    - rewrite !lookup_slice by lia. unfold page, PAGE_SIZE. by rewrite lookup_take_lt by lia.
    - unfold slice. by rewrite !lookup_take_ge by lia. }
  split_and!; [done|apply length_slice; lia|].
  unfold unread. cbn [tail head set_tail mem]. change (page (set_tail _ s)) with (page s).
  unfold short_incr_bp. cbv zeta.
  rewrite (ring_pop (page s) (tail s) (head s) (Z.min count avail)); rewrite ?Hp; try lia.
  do 2 f_equal. unfold wrap. repeat case_match; zbool; lia.
Qed.

(** Reading a record back gives the time it was printed for, seconds
    modulo a hundred million. *)
Theorem time_record_parses tv :
  0 <= fst tv → 0 <= snd tv < 1000000 →
  lenZ (time_record tv) = 16 ∧
  value (take 8 (time_record tv)) = Z.rem (fst tv) 100000000 ∧
  value (take 6 (drop 9 (time_record tv))) = snd tv.
Proof.
  intros H1 H2. split; [by apply length_time_record|].
  pose proof (Z.rem_bound_pos (fst tv) 100000000).
  assert (length (fmt_0u 8 (Z.rem (fst tv) 100000000)) = 8%nat) as L1
    by (apply length_fmt_0u; cbn; lia).
  assert (length (fmt_0u 6 (snd tv)) = 6%nat) as L2 by (apply length_fmt_0u; cbn; lia).
  unfold time_record. split.
  - rewrite take_app_length' by done. apply value_fmt_0u. lia.
  - rewrite app_assoc, drop_app_length' by (rewrite length_app, L1; done).
    rewrite take_app_length' by done. apply value_fmt_0u. lia.
Qed.

(** A bottom half prints one line for itself and one per time value stored
    since the last one, and catches up with the top half; but run twice with no
    interrupt between it prints all 512 slots again. *)
Theorem short_do_tasklet_spec s :
  wf s →
  let k := if tv_head s =? tv_tail s then NR_TIMEVAL else (tv_head s - tv_tail s) mod NR_TIMEVAL in
  wp clock_quiet short_do_tasklet (λ _ s', wf s' ∧
    head s' = (head s + 16 * (1 + k)) mod PAGE_SIZE ∧
    tv_tail s' = tv_head s ∧ short_wq_count s' = 0 ∧ tail s' = tail s) s.
Proof. intros Hs k. apply wp_short_do_tasklet; [done|]. intros. by split_and!. Qed.

(** Probing gives up after six rounds, not five: with an ambiguous line every
    time the ports were written 24 times. *)
Lemma short_kernelprobe_rounds s :
  wp (documented (S:=short) alone False) short_kernelprobe
    (λ count s', 0 <= count <= 6 ∧ (count = 6 → short_irq s' < 0) ∧
      (length (outs s') <= length (outs s) + 24)%nat) s.
Proof.
  unfold short_kernelprobe.
  assert (∀ fuel c s, 0 <= c → c + Z.of_nat fuel = 6 → (0 < fuel)%nat →
    wp (documented (S:=short) alone False) (kernelprobe_loop fuel c)
      (λ count s', 0 <= count <= 6 ∧ (count = 6 → short_irq s' < 0) ∧
        (length (outs s') <= length (outs s) + 4 * fuel)%nat) s) as H.
  { clear s. induction fuel as [|fuel IH]; intros c s Hc Hf Hpos; [lia|]. cbn [kernelprobe_loop].
    unfold trigger, outb. do 3 wp_step. repeat (wp_step || apply wp_modify).
    2-3: cbn in *; split_and!; lia.
    eapply wp_mono; [apply IH; lia|]. intros count s' (? & ? & Hl). cbn in Hl. split_and!; try done; lia. }
  apply (H 6%nat 0 s); lia.
Qed.

Lemma short_kernelprobe_six :
  let s := Short [] 0 0 [] 0 0 0 false 888 (-1) [] 0 0 empty_registry in
  ∃ s', run (Oracle (λ c _, match c with kint w => if String.eqb w "probe_irq_off" then -3 else 0 | _ => 0 end) (λ _ _, 0) (λ _ s, s))
    short_kernelprobe s = Done (6, s') ∧ length (outs s') = 24%nat.
Proof. eexists. split; vm_compute; reflexivity. Qed.

(** ** Resources of the module *)

(** Other tasks touch neither the resources nor the base. *)
Definition module_rely (s s' : short) : Prop :=
  regs s' = regs s ∧ short_base s' = short_base s ∧ outs s' = outs s.
Definition module_contract : contract short := documented module_rely False.

(** The interrupt line is held when there is one. *)
Definition irq_owned (s : short) : list resource :=
  if short_irq s >=? 0 then [Res "irq" (short_irq s)] else [].

Section module_rules.
Let C := module_contract.

(** A program that keeps the registry and the base. *)
Definition keeps {A} (m : K short A) : Prop :=
  ∀ s, wp C m (λ _ s', regs s' = regs s ∧ short_base s' = short_base s) s.

Lemma keeps_trigger : keeps trigger.
Proof. intros s. unfold trigger, outb. repeat (wp_step || apply wp_modify). done. Qed.

Lemma keeps_kernelprobe : keeps short_kernelprobe.
Proof.
  unfold short_kernelprobe. assert (∀ fuel c, (0 < fuel)%nat → 6 <= c + Z.of_nat fuel →
    keeps (kernelprobe_loop fuel c)) as H.
  { induction fuel as [|fuel IH]; intros c Hf Hc s; [lia|]. cbn [kernelprobe_loop].
    do 3 wp_step. eapply wp_mono; [apply keeps_trigger|]. intros _ s1 [E1 E2].
    repeat (wp_step || apply wp_modify); [|done..].
    eapply wp_mono; [apply IH; lia|]. intros _ s2 [-> ->]. done. }
  apply H; lia.
Qed.

Lemma keeps_selfprobe_loop fuel c :
  (0 < fuel)%nat → 6 <= c + Z.of_nat fuel → keeps (selfprobe_loop fuel c).
Proof.
  revert c. induction fuel as [|fuel IH]; intros c Hf Hc s; [lia|]. cbn [selfprobe_loop].
  wp_step. apply wp_modify. wp_step. eapply wp_mono; [apply keeps_trigger|]. intros _ s1 [E1 E2].
  wp_step. apply wp_interfere. intros s2 (E3 & E4 & _). cbn in E1, E2.
  repeat (wp_step || apply wp_modify); [|split; congruence..].
  eapply wp_mono; [apply IH; lia|]. intros _ s3 [-> ->]. split; congruence.
Qed.

(** The lines granted are those freed. *)
Definition granted (l : list (Z * Z)) : list resource :=
  (λ tr, Res "irq" (fst tr)) <$> List.filter (λ tr, snd tr =? 0) l.

Lemma granted_cons t r l :
  granted ((t, r) :: l) = if r =? 0 then Res "irq" t :: granted l else granted l.
Proof. unfold granted. cbn. by destruct (r =? 0). Qed.

Lemma wp_request_trials l L s (Q : list (Z * Z) → short → Prop) :
  owned L s →
  (∀ tried s', owned (granted tried ++ L) s' → short_base s' = short_base s → Q tried s') →
  wp C (request_trials l) Q s.
Proof.
  revert L s Q. induction l as [|t l IH]; intros L s Q HL HQ; cbn [request_trials].
  - wp_step. by apply HQ.
  - wp_step. apply wp_acquire.
    + wp_step. apply (IH (Res "irq" t :: L)); [by apply owned_add|]. intros tried s' H E. wp_step.
      apply HQ; [|done]. rewrite granted_cons. eapply owned_perm; [|exact H]. cbn.
      by rewrite <-Permutation_middle.
    + intros z _ Hz. wp_step. apply (IH L); [done|]. intros tried s' H E. wp_step.
      apply HQ; [|done]. rewrite granted_cons. by rewrite (proj2 (Z.eqb_neq _ _)).
Qed.

Lemma wp_free_trials tried L s (Q : unit → short → Prop) :
  owned (granted tried ++ L) s →
  (∀ s', owned L s' → short_base s' = short_base s → short_irq s' = short_irq s → Q tt s') →
  wp C (free_trials tried) Q s.
Proof.
  revert s. induction tried as [|[t r] tried IH]; intros s HL HQ; cbn [free_trials].
  - wp_step. by apply HQ.
  - rewrite granted_cons in HL. wp_step. wp_step.
    + apply wp_give_back. subst r. cbn in HL. apply IH; [by apply owned_del|]. intros s' ? ? ?. by apply HQ.
    + wp_step. by apply IH.
Qed.

Lemma wp_short_selfprobe L s (Q : Z → short → Prop) :
  owned L s → (∀ c s', owned L s' → short_base s' = short_base s → Q c s') →
  wp C short_selfprobe Q s.
Proof.
  intros HL HQ. unfold short_selfprobe. wp_step. apply (wp_request_trials _ L); [done|].
  intros tried s1 H1 E1. wp_step. eapply wp_mono; [apply keeps_selfprobe_loop; lia|].
  intros c s2 [E2 E3]. wp_step. apply (wp_free_trials _ L).
  { unfold owned in *. cbn in *. by rewrite E2. }
  intros s3 H3 E4 _. wp_step. apply HQ; [done|congruence].
Qed.

Lemma irq_owned_some s L : 0 <= short_irq s → irq_owned s ++ L = Res "irq" (short_irq s) :: L.
Proof. intros H. unfold irq_owned. rewrite Z.geb_leb. by rewrite (proj2 (Z.leb_le _ _)). Qed.
Lemma irq_owned_none s L : short_irq s < 0 → irq_owned s ++ L = L.
Proof. intros H. unfold irq_owned. rewrite Z.geb_leb. by rewrite (proj2 (Z.leb_gt _ _)). Qed.

(** Installing a handler on the line, or giving the line up. *)
Lemma wp_install L s (k : K short unit) (Q : unit → short → Prop) :
  owned L s → 0 <= short_irq s →
  (∀ s, wp C k (λ _ s', regs s' = regs s ∧ short_base s' = short_base s ∧ short_irq s' = short_irq s) s) →
  (∀ s', owned (irq_owned s' ++ L) s' → short_base s' = short_base s → Q tt s') →
  wp C (r ← acquire "request_irq"%string (Res "irq" (short_irq s));
        if negb (r =? 0) then modify (set_short_irq (-1)) else k) Q s.
Proof.
  intros HL Hi Hk HQ. wp_step. apply wp_acquire.
  - cbn [Z.eqb negb]. eapply wp_mono; [apply Hk|]. intros [] s' (E1 & E2 & E3). apply HQ; [|done].
    rewrite irq_owned_some by (rewrite E3; done). rewrite E3. unfold owned. cbn. rewrite E1.
    by apply owns_add.
  - intros z _ Hz. rewrite (proj2 (Z.eqb_neq _ _)) by done. apply wp_modify.
    apply HQ; [|done]. by rewrite irq_owned_none.
Qed.

Lemma wp_short_handlers p L s (Q : unit → short → Prop) :
  owned L s →
  (∀ s', owned (irq_owned s' ++ L) s' → short_base s' = short_base s → Q tt s') →
  wp C (short_handlers p) Q s.
Proof.
  intros HL HQ. unfold short_handlers, outb. wp_step. wp_step. wp_step. wp_step. wp_step.
  - apply wp_install with L; [done|lia| |done].
    intros s'. by apply wp_modify.
  - wp_step. apply (wp_mono _ _ (λ _ s', owned (irq_owned s' ++ L) s' ∧ short_base s' = short_base s)).
    { wp_step.
      - apply wp_install with L; [done|lia| |done]. intros s'. by apply wp_modify.
      - wp_step. split; [|done]. rewrite irq_owned_none; [done|lia]. }
    intros _ s1 [H1 E1]. wp_step. wp_step. wp_step; [|wp_step; by apply HQ].
    rewrite irq_owned_some in H1 by lia. wp_step. apply wp_give_back.
    set (s2 := set_registry _ _). assert (owned L s2) as H2 by by apply owned_del.
    change (short_irq s1) with (short_irq s2). apply wp_install with L; [done|cbn; lia| |].
    + intros s'. by wp_step.
    + intros s' H3 E3. apply HQ; [done|]. by rewrite E3.
Qed.

(** Unloading with I/O ports. *)
Lemma wp_short_cleanup p s :
  use_mem p = false → short_base s = base p →
  owned (irq_owned s ++ [free_page; chrdev; io_region (base p)]) s →
  wp C (short_cleanup p) (λ _ s', regs s' = empty_registry) s.
Proof.
  intros Hm Hb HL. set (L := [free_page; chrdev; io_region (base p)]) in *.
  unfold short_cleanup, outb. do 4 wp_step. rewrite Hm.
  wp_step. apply (wp_mono _ _ (λ _ s7, owned L s7)).
  - wp_step.
    + rewrite (irq_owned_some s L) in HL by done. wp_step. apply wp_modify. apply wp_give_back.
      by apply (owned_del (Res "irq" (short_irq s))).
    + wp_step. by rewrite (irq_owned_none s L) in HL by done.
  - intros _ s7 Ho7. wp_step. apply wp_modify. wp_step. apply wp_give_back.
    wp_step. apply wp_give_back. apply wp_give_back. refine (owned_nil (set_registry _ _) _). subst L.
    rewrite Hb.
    apply (owned_del free_page []), (owned_del (io_region (base p)) [free_page]),
      (owned_del chrdev [io_region (base p); free_page]).
    eapply owned_perm; [|exact Ho7].
    apply (Permutation_app_comm [free_page] [chrdev; io_region (base p)]).
Qed.

(** Loading the module with I/O ports: when it fails everything it took was
    given back, and when it succeeds unloading gives everything back, whatever
    way the interrupt line is found and handled. *)
Theorem short_init_balanced p s :
  use_mem p = false → regs s = empty_registry →
  wp module_contract (r ← short_init p; if r =? 0 then short_cleanup p else mret tt)
    (λ _ s', regs s' = empty_registry) s.
Proof.
  intros Hm Hr. assert (∀ s, owned [] s → regs s = empty_registry) as Hend.
  { intros s' [Hh Hb]. cbn in Hh, Hb. apply Permutation_nil_r in Hh.
    destruct (regs s'). unfold empty_registry. cbn in *. by subst. }
  unfold short_init, short_regions. rewrite Hm. cbn [negb].
  wp_step. wp_step. apply wp_modify. wp_step. apply wp_modify. wp_step. wp_step.
  apply wp_acquire_ptr.
  { wp_step. cbn [Z.eqb]. change (negb _) with true. cbn iota. wp_step.
    change (_ =? 0) with false. cbn iota. by wp_step. }
  intros z _ Hz. wp_step. rewrite (proj2 (Z.eqb_neq z 0)) by done. cbn [Z.eqb negb].
  set (s1 := set_registry _ _).
  assert (owned [io_region (base p)] s1 ∧ short_base s1 = base p) as [H1 E1].
  { split; [|done]. unfold owned. cbn. rewrite Hr. apply owns_add, owns_empty. }
  clearbody s1. wp_step. wp_step. wp_step.
  { (* register_chrdev failed *)
    do 2 wp_step. rewrite E1. wp_step. apply wp_give_back. wp_step.
    rewrite (proj2 (Z.eqb_neq _ _)) by lia. wp_step. apply Hend. by apply owned_del. }
  set (L := [free_page; chrdev; io_region (base p)]).
  wp_step. apply wp_hold. wp_step. apply wp_modify. wp_step. apply wp_hold.
  do 2 (wp_step; apply wp_modify). set (s2 := set_tail _ _).
  assert (owned L s2 ∧ short_base s2 = base p) as [Ho2 Eb2].
  { split; [|done]. unfold owned in *. cbn in *. apply owns_add, owns_add. exact H1. }
  clearbody s2. do 3 wp_step. apply (wp_mono _ _ (λ _ s3, owned L s3 ∧ short_base s3 = base p)).
  { wp_step; [|by wp_step]. wp_step. eapply wp_mono; [apply keeps_kernelprobe|].
    intros _ s3 [Eb3 Eb4]. wp_step. split; [|congruence]. unfold owned in *. cbn in *. by rewrite Eb3. }
  intros _ s3 [Ho3 Eb3]. do 3 wp_step. apply (wp_mono _ _ (λ _ s4, owned L s4 ∧ short_base s4 = base p)).
  { wp_step; [|by wp_step]. wp_step. apply (wp_short_selfprobe L); [done|].
    intros _ s4 Ho4 Eb4. wp_step. split; [done|congruence]. }
  intros _ s4 [Ho4 Eb4]. wp_step. apply wp_modify. set (s5 := if _ <? 0 then _ else _).
  assert (owned L s5 ∧ short_base s5 = base p) as [Ho5 Eb5] by (subst s5; by case_match).
  clearbody s5. wp_step. apply (wp_short_handlers _ L); [done|]. intros s6 Ho6 Eb6.
  wp_step. cbn [Z.eqb]. apply wp_short_cleanup; [done|congruence|exact Ho6].
Qed.
End module_rules.

(** With memory-mapped ports unloading gives back the address the ports were
    mapped at in place of the one requested: the region stays taken. *)
Lemma short_cleanup_leaks_region :
  let p := Params 0 true 888 7 0 false false false in
  let o := Oracle (λ c _, match c with kint w => if String.eqb w "ioremap" then 100000 else
                     if String.eqb w "request_mem_region" then 1 else 0 | _ => 0 end)
             (λ _ _, 0) (λ _ s, s) in
  let s := Short [] 0 0 [] 0 0 0 false 0 0 [] 0 0 empty_registry in
  match run o (short_init p;; short_cleanup p) s with
  | Done (_, s') => regs s' = Registry [mem_region 888] [mem_region 100000]
  | _ => False
  end.
Proof. vm_compute. reflexivity. Qed.

(** ** Witnesses *)

(** After loading, and after one interrupt. *)
Definition short0 : short :=
  Short (uninit (PAGE_SIZE + 1)) 0 0 (replicate 512 (0, 0)) 0 0 0 false 888 7 [] 0 0 empty_registry.

Lemma wf_short0 : wf short0.
Proof.
  split; cbn -[uninit replicate]; try done; try (unfold PAGE_SIZE, NR_TIMEVAL; lia).
  by apply Forall_replicate.
Qed.

Lemma short_interrupt_appends_witness :
  wf short0 ∧ wp clock_quiet short_interrupt (λ r s', r = IRQ_HANDLED ∧ wf s') short0.
Proof.
  split; [apply wf_short0|].
  eapply wp_mono; [apply (short_interrupt_appends short0 wf_short0)|].
  intros r s' (? & ? & _). by split.
Defined.

Definition short1 : short := printed (time_record (1, 2)) short0.

Lemma wf_short1 : wf short1.
Proof. apply wf_printed; [apply wf_short0|by apply length_time_record]. Qed.

Lemma short_i_read_takes_witness :
  wp (quiet short) (short_i_read 1 10) (λ r _, fst r = 10) short1.
Proof.
  assert (head short1 = 16 ∧ tail short1 = 0) as [E1 E2] by (split; vm_compute; reflexivity).
  eapply wp_mono; [apply (short_i_read_takes 1 10 short1 wf_short1); [by rewrite E1, E2|lia|lia]|].
  intros r s' (H & _). cbv zeta in H. rewrite E1, E2 in H. exact H.
Defined.

Lemma time_record_parses_witness :
  value (take 8 (time_record (1234567890, 42))) = 34567890.
Proof.
  destruct (time_record_parses (1234567890, 42)) as (_ & H & _); [done|done|exact H].
Defined.

Lemma short_do_tasklet_spec_witness :
  wp clock_quiet short_do_tasklet (λ _ s', head s' = (0 + 16 * 513) mod PAGE_SIZE) short0.
Proof.
  eapply wp_mono; [apply (short_do_tasklet_spec short0 wf_short0)|]. intros _ s' (_ & H & _).
  exact H.
Defined.

Lemma short_init_balanced_witness :
  let p := Params 0 false 888 (-1) 1 true false false in
  use_mem p = false ∧ regs short0 = empty_registry ∧
  wp module_contract (r ← short_init p; if r =? 0 then short_cleanup p else mret tt)
    (λ _ s', regs s' = empty_registry) short0.
Proof. split_and!; [done|done|]. by apply short_init_balanced. Defined.
