(* ===== verification/ShortPrint.v ===== *)
(** * shortprint: the parallel printer (src/ldd4/shortprint)

    Writers fill an output ring from which a work item sends one byte per
    interrupt to the printer; the times of the interrupts are printed into an
    input page, as in short. Pointers are offsets into their page; the input
    page has one byte more than a page, for the terminator of [sprintf].
    [accepted] and [sent] are ghosts: the bytes writers stored and the bytes
    strobed out. *)

From stdpp Require Import base tactics numbers list strings.
From S2P Require Import Prelude Ring KMonad Text Registry Short.
From Stdlib Require Import ZArith Lia.

Open Scope Z_scope.

(** ** Data *)

Definition SP_DATA : Z := 0.
Definition SP_STATUS : Z := 1.
Definition SP_CONTROL : Z := 2.
Definition SP_NPORTS : Z := 3.
Definition SP_SR_BUSY : Z := 128.
Definition SP_SR_ACK : Z := 64.
Definition SP_CR_IRQ : Z := 16.
Definition SP_CR_SELECT : Z := 8.
Definition SP_CR_INIT : Z := 4.
Definition SP_CR_STROBE : Z := 1.
Definition SP_MIN_SPACE : Z := PAGE_SIZE / 2.

(** The globals of the module ([shortp_in_head], ...); whether the timer is
    pending and the work item queued; how often writers were woken; port
    writes, newest first. *)
Record printer := Printer {
  in_mem : list cell;
  in_head : Z;
  in_tail : Z;
  tv : Z * Z;
  out_mem : list cell;
  out_head : Z;
  out_tail : Z;
  out_mutex : bool;
  out_lock : bool;
  output_active : bool;
  timer : bool;
  work_queued : bool;
  out_wakes : Z;
  wbase : Z;
  wirq : Z;
  pouts : list (Z * cell);
  pregs : registry;
  accepted : list cell;
  sent : list cell
}.

Definition set_in_mem (v : list cell) (x : printer) : printer :=
  Printer v (in_head x) (in_tail x) (tv x) (out_mem x) (out_head x) (out_tail x) (out_mutex x)
    (out_lock x) (output_active x) (timer x) (work_queued x) (out_wakes x) (wbase x) (wirq x)
    (pouts x) (pregs x) (accepted x) (sent x).
Definition set_in_head (v : Z) (x : printer) : printer :=
  Printer (in_mem x) v (in_tail x) (tv x) (out_mem x) (out_head x) (out_tail x) (out_mutex x)
    (out_lock x) (output_active x) (timer x) (work_queued x) (out_wakes x) (wbase x) (wirq x)
    (pouts x) (pregs x) (accepted x) (sent x).
Definition set_in_tail (v : Z) (x : printer) : printer :=
  Printer (in_mem x) (in_head x) v (tv x) (out_mem x) (out_head x) (out_tail x) (out_mutex x)
    (out_lock x) (output_active x) (timer x) (work_queued x) (out_wakes x) (wbase x) (wirq x)
    (pouts x) (pregs x) (accepted x) (sent x).
Definition set_tv (v : Z * Z) (x : printer) : printer :=
  Printer (in_mem x) (in_head x) (in_tail x) v (out_mem x) (out_head x) (out_tail x)
    (out_mutex x) (out_lock x) (output_active x) (timer x) (work_queued x) (out_wakes x)
    (wbase x) (wirq x) (pouts x) (pregs x) (accepted x) (sent x).
Definition set_out_mem (v : list cell) (x : printer) : printer :=
  Printer (in_mem x) (in_head x) (in_tail x) (tv x) v (out_head x) (out_tail x) (out_mutex x)
    (out_lock x) (output_active x) (timer x) (work_queued x) (out_wakes x) (wbase x) (wirq x)
    (pouts x) (pregs x) (accepted x) (sent x).
Definition set_out_head (v : Z) (x : printer) : printer :=
  Printer (in_mem x) (in_head x) (in_tail x) (tv x) (out_mem x) v (out_tail x) (out_mutex x)
    (out_lock x) (output_active x) (timer x) (work_queued x) (out_wakes x) (wbase x) (wirq x)
    (pouts x) (pregs x) (accepted x) (sent x).
Definition set_out_tail (v : Z) (x : printer) : printer :=
  Printer (in_mem x) (in_head x) (in_tail x) (tv x) (out_mem x) (out_head x) v (out_mutex x)
    (out_lock x) (output_active x) (timer x) (work_queued x) (out_wakes x) (wbase x) (wirq x)
    (pouts x) (pregs x) (accepted x) (sent x).
Definition set_out_mutex (v : bool) (x : printer) : printer :=
  Printer (in_mem x) (in_head x) (in_tail x) (tv x) (out_mem x) (out_head x) (out_tail x) v
    (out_lock x) (output_active x) (timer x) (work_queued x) (out_wakes x) (wbase x) (wirq x)
    (pouts x) (pregs x) (accepted x) (sent x).
Definition set_out_lock (v : bool) (x : printer) : printer :=
  Printer (in_mem x) (in_head x) (in_tail x) (tv x) (out_mem x) (out_head x) (out_tail x)
    (out_mutex x) v (output_active x) (timer x) (work_queued x) (out_wakes x) (wbase x) (wirq x)
    (pouts x) (pregs x) (accepted x) (sent x).
Definition set_output_active (v : bool) (x : printer) : printer :=
  Printer (in_mem x) (in_head x) (in_tail x) (tv x) (out_mem x) (out_head x) (out_tail x)
    (out_mutex x) (out_lock x) v (timer x) (work_queued x) (out_wakes x) (wbase x) (wirq x)
    (pouts x) (pregs x) (accepted x) (sent x).
Definition set_timer (v : bool) (x : printer) : printer :=
  Printer (in_mem x) (in_head x) (in_tail x) (tv x) (out_mem x) (out_head x) (out_tail x)
    (out_mutex x) (out_lock x) (output_active x) v (work_queued x) (out_wakes x) (wbase x)
    (wirq x) (pouts x) (pregs x) (accepted x) (sent x).
Definition set_work_queued (v : bool) (x : printer) : printer :=
  Printer (in_mem x) (in_head x) (in_tail x) (tv x) (out_mem x) (out_head x) (out_tail x)
    (out_mutex x) (out_lock x) (output_active x) (timer x) v (out_wakes x) (wbase x) (wirq x)
    (pouts x) (pregs x) (accepted x) (sent x).
Definition set_out_wakes (v : Z) (x : printer) : printer :=
  Printer (in_mem x) (in_head x) (in_tail x) (tv x) (out_mem x) (out_head x) (out_tail x)
    (out_mutex x) (out_lock x) (output_active x) (timer x) (work_queued x) v (wbase x) (wirq x)
    (pouts x) (pregs x) (accepted x) (sent x).
Definition set_wbase (v : Z) (x : printer) : printer :=
  Printer (in_mem x) (in_head x) (in_tail x) (tv x) (out_mem x) (out_head x) (out_tail x)
    (out_mutex x) (out_lock x) (output_active x) (timer x) (work_queued x) (out_wakes x) v
    (wirq x) (pouts x) (pregs x) (accepted x) (sent x).
Definition set_wirq (v : Z) (x : printer) : printer :=
  Printer (in_mem x) (in_head x) (in_tail x) (tv x) (out_mem x) (out_head x) (out_tail x)
    (out_mutex x) (out_lock x) (output_active x) (timer x) (work_queued x) (out_wakes x)
    (wbase x) v (pouts x) (pregs x) (accepted x) (sent x).
Definition set_pouts (v : list (Z * cell)) (x : printer) : printer :=
  Printer (in_mem x) (in_head x) (in_tail x) (tv x) (out_mem x) (out_head x) (out_tail x)
    (out_mutex x) (out_lock x) (output_active x) (timer x) (work_queued x) (out_wakes x)
    (wbase x) (wirq x) v (pregs x) (accepted x) (sent x).
Definition set_pregs (v : registry) (x : printer) : printer :=
  Printer (in_mem x) (in_head x) (in_tail x) (tv x) (out_mem x) (out_head x) (out_tail x)
    (out_mutex x) (out_lock x) (output_active x) (timer x) (work_queued x) (out_wakes x)
    (wbase x) (wirq x) (pouts x) v (accepted x) (sent x).
Definition set_accepted (v : list cell) (x : printer) : printer :=
  Printer (in_mem x) (in_head x) (in_tail x) (tv x) (out_mem x) (out_head x) (out_tail x)
    (out_mutex x) (out_lock x) (output_active x) (timer x) (work_queued x) (out_wakes x)
    (wbase x) (wirq x) (pouts x) (pregs x) v (sent x).
Definition set_sent (v : list cell) (x : printer) : printer :=
  Printer (in_mem x) (in_head x) (in_tail x) (tv x) (out_mem x) (out_head x) (out_tail x)
    (out_mutex x) (out_lock x) (output_active x) (timer x) (work_queued x) (out_wakes x)
    (wbase x) (wirq x) (pouts x) (pregs x) (accepted x) v.

#[export] Instance printer_lock : HasLock printer :=
  { lock_of := out_mutex; set_lock := set_out_mutex; lock_set b s := eq_refl }.
#[export] Instance printer_registry : HasRegistry printer :=
  { registry_of := pregs; set_registry := set_pregs; registry_set g s := eq_refl }.

Definition outc (b : cell) (port : Z) : K printer unit :=
  modify (λ s, set_pouts ((port, b) :: pouts s) s).
Definition outb (b port : Z) : K printer unit := outc (Some (u8 b)) port.

Definition spin_lock : K printer unit :=
  b ← gets out_lock; if b : bool then oops Deadlock else modify (set_out_lock true).
Definition spin_unlock : K printer unit :=
  b ← gets out_lock; if b : bool then modify (set_out_lock false) else oops BadUnlock.

(** [add_timer], a bug when the timer is pending already; [mod_timer], [del_timer]. *)
Definition add_timer : K printer unit :=
  b ← gets timer; if b : bool then oops BugOn else modify (set_timer true).
Definition mod_timer : K printer unit := modify (set_timer true).
Definition del_timer : K printer unit := modify (set_timer false).
Definition queue_work : K printer unit := modify (set_work_queued true).

(** ** Pointers *)

Definition shortp_incr_bp (index delta : Z) : Z :=
  let new := index + delta in if new >=? PAGE_SIZE then 0 else new.

Definition shortp_out_space (s : printer) : Z :=
  if out_head s >=? out_tail s then
    let space := PAGE_SIZE - out_head s in
    if out_tail s =? 0 then space - 1 else space
  else out_tail s - out_head s - 1.

Definition shortp_incr_out_bp (bp incr : Z) : Z :=
  let new := bp + incr in if new >=? PAGE_SIZE then new - PAGE_SIZE else new.

(** ** Open, release, poll, read *)

Definition shortp_open : K printer Z := mret 0.

Definition shortp_release : K printer Z :=
  wait_event_interruptible (λ s, negb (output_active s));;
  mret 0.

(** POLLIN | POLLRDNORM | POLLOUT | POLLWRNORM *)
Definition shortp_poll : Z := Z.lor 1 (Z.lor 64 (Z.lor 4 256)).

(** [while (shortp_in_head == shortp_in_tail) ...] *)
Fixpoint wait_input (fuel : nat) : K printer bool :=
  match fuel with
  | O => sleep_forever
  | S fuel' =>
      s ← get;
      if in_head s =? in_tail s then
        interfere;;
        sig ← call signal_pending;
        if negb (sig =? 0) then mret false else wait_input fuel'
      else mret true
  end.

Definition shortp_read (fuel : nat) (count : Z) : K printer (Z * list cell) :=
  ok ← wait_input fuel;
  if negb ok then mret (- ERESTARTSYS, []) else
  s ← get;
  let count0 := s32 (in_head s - in_tail s) in
  let count0 := if count0 <? 0 then PAGE_SIZE - in_tail s else count0 in
  let count := if count0 <? count then count0 else count in
  src ← (if bool_decide (0 <= in_tail s ∧ 0 <= count ∧ in_tail s + count <= PAGE_SIZE)
         then mret (slice (in_tail s) count (in_mem s)) else oops OutOfBounds);
  '(bytes, ok) ← copy_to_user src;
  if negb ok then mret (- EFAULT, bytes) else
  modify (λ s, set_in_tail (shortp_incr_bp (in_tail s) count) s);;
  mret (count, bytes).

(** ** Output *)

(** [while ((inb(...) & SP_SR_BUSY) == 0) schedule_timeout(...)] *)
Fixpoint wait_ready (fuel : nat) : K printer unit :=
  match fuel with
  | O => sleep_forever
  | S fuel' =>
      sb ← gets wbase;
      b ← call (io_in (sb + SP_STATUS));
      if Z.land b SP_SR_BUSY =? 0 then interfere;; wait_ready fuel' else mret tt
  end.

Definition shortp_wait (fuel : nat) : K printer unit :=
  sb ← gets wbase;
  b ← call (io_in (sb + SP_STATUS));
  if Z.land b SP_SR_BUSY =? 0 then
    call (io_in (sb + SP_STATUS));;
    wait_ready fuel
  else mret tt.

Definition shortp_do_write : K printer unit :=
  sb ← gets wbase;
  cr ← call (io_in (sb + SP_CONTROL));
  mod_timer;;
  s ← get;
  b ← deref OutOfBounds (lookupZ (out_mem s) (out_tail s));
  outc b (sb + SP_DATA);;
  modify (λ s, set_sent (sent s ++ [b]) s);;
  modify (λ s, set_out_tail (shortp_incr_out_bp (out_tail s) 1) s);;
  outb (Z.lor cr SP_CR_STROBE) (sb + SP_CONTROL);;
  outb (Z.land cr (Z.lnot SP_CR_STROBE)) (sb + SP_CONTROL).

Definition shortp_start_output : K printer unit :=
  a ← gets output_active;
  if a : bool then mret tt else
  modify (set_output_active true);;
  add_timer;;
  queue_work.

(** "If no output is active, make it active." *)
Definition ensure_output : K printer unit :=
  spin_lock;;
  a ← gets output_active;
  (if negb a then shortp_start_output else mret tt);;
  spin_unlock.

(** The loop of [shortp_write]: [Some r] is a return from inside it. Each round
    stores a byte at least. *)
Fixpoint write_loop (fuel : nat) (buf : list Z) (written : Z) : K printer (Z + Z) :=
  match fuel with
  | O => sleep_forever
  | S fuel' =>
      if written <? written + lenZ buf then
        space ← gets shortp_out_space;
        r ← (if space <=? 0 then wait_event_interruptible (λ s, shortp_out_space s >? 0) else mret 0);
        if negb (r =? 0) then mret (inr written) else
        space ← gets shortp_out_space;
        let space := if space >? lenZ buf then lenZ buf else space in
        s ← get;
        '(bytes, ok) ← copy_from_user (take (Z.to_nat space) buf);
        (if bool_decide (0 <= space ∧ out_head s + space <= PAGE_SIZE)
         then modify (set_out_mem (store (out_head s) bytes (out_mem s))) else oops OutOfBounds);;
        if negb ok then unlock;; mret (inl (- EFAULT)) else
        modify (λ s, set_accepted (accepted s ++ bytes) s);;
        modify (λ s, set_out_head (shortp_incr_out_bp (out_head s) space) s);;
        ensure_output;;
        write_loop fuel' (drop (Z.to_nat space) buf) (written + space)
      else mret (inr written)
  end.

(** The value of the call and the new file position. *)
Definition shortp_write (buf : list Z) (f_pos : Z) : K printer (Z * Z) :=
  ok ← lock_interruptible;
  if negb ok then mret (- ERESTARTSYS, f_pos) else
  r ← write_loop (S (length buf)) buf 0;
  match r with
  | inl e => mret (e, f_pos)
  | inr written => unlock;; mret (written, f_pos + written)
  end.

(** [sprintf((char * )shortp_in_head, ...)] and the advance of the pointer. *)
Definition log_time : K printer unit :=
  s ← get;
  let l := time_record (tv s) in
  (if bool_decide (0 <= in_head s ∧ in_head s + lenZ l + 1 <= lenZ (in_mem s))
   then modify (set_in_mem (store (in_head s) (Some <$> (l ++ [0])) (in_mem s)))
   else oops OutOfBounds);;
  modify (λ s, set_in_head (shortp_incr_bp (in_head s) (lenZ l)) s).

(** [(PAGE_SIZE + shortp_out_tail - shortp_out_head) % PAGE_SIZE > SP_MIN_SPACE] *)
Definition room_to_wake (s : printer) : bool :=
  Z.rem (PAGE_SIZE + out_tail s - out_head s) PAGE_SIZE >? SP_MIN_SPACE.

Definition shortp_do_work (fuel : nat) : K printer unit :=
  modify (set_work_queued false);;
  shortp_wait fuel;;
  spin_lock;;
  s ← get;
  (if out_head s =? out_tail s then
     modify (set_output_active false);;
     del_timer
   else shortp_do_write);;
  modify (λ s, if room_to_wake s then set_out_wakes (out_wakes s + 1) s else s);;
  spin_unlock;;
  log_time.

Definition do_gettimeofday : K printer (Z * Z) :=
  sec ← call (kint "tv_sec"%string);
  usec ← call (kint "tv_usec"%string);
  mret (sec, usec).

Definition shortp_interrupt : K printer Z :=
  a ← gets output_active;
  if negb a then mret IRQ_NONE else
  t ← do_gettimeofday;
  modify (set_tv t);;
  queue_work;;
  mret IRQ_HANDLED.

(** The timer is no longer pending when its function runs. *)
Definition shortp_timeout : K printer unit :=
  modify (set_timer false);;
  a ← gets output_active;
  if negb a then mret tt else
  spin_lock;;
  sb ← gets wbase;
  status ← call (io_in (sb + SP_STATUS));
  if (Z.land status SP_SR_BUSY =? 0) || c_bool (Z.land status SP_SR_ACK) then
    add_timer;;
    spin_unlock
  else
    spin_unlock;;
    shortp_interrupt;;
    mret tt.

(** ** The module *)

Definition workqueue : resource := Res "workqueue" 0.
Definition in_page : resource := Res "page" 1.
Definition out_page : resource := Res "page" 2.

Definition shortp_cleanup : K printer unit :=
  i ← gets wirq;
  sb ← gets wbase;
  (if i >=? 0 then outb 0 (sb + SP_CONTROL);; give_back (Res "irq" i) else mret tt);;
  give_back chrdev;;
  give_back (io_region sb);;
  modify (set_timer false);;
  modify (set_work_queued false);;
  give_back workqueue;;
  give_back in_page;;
  give_back out_page.

Definition shortp_init (base irq : Z) : K printer Z :=
  modify (set_wbase base);;
  modify (set_wirq irq);;
  z ← acquire_ptr "request_region"%string (io_region base);
  if z =? 0 then mret (- ENODEV) else
  result ← call (kint "register_chrdev"%string);
  if result <? 0 then give_back (io_region base);; mret result else
  hold chrdev;;
  hold in_page;;
  modify (set_in_mem (uninit (PAGE_SIZE + 1)));; modify (set_in_head 0);; modify (set_in_tail 0);;
  hold out_page;;
  modify (set_out_mem (uninit PAGE_SIZE));; modify (set_out_head 0);; modify (set_out_tail 0);;
  modify (set_out_mutex false);;
  modify (set_output_active false);;
  modify (set_out_lock false);;
  modify (set_timer false);;
  hold workqueue;;
  modify (λ s, if wirq s <? 0 then set_wirq (default_irq base (wirq s)) s else s);;
  i ← gets wirq;
  result ← acquire "request_irq"%string (Res "irq" i);
  if negb (result =? 0) then
    modify (set_wirq (-1));;
    shortp_cleanup;;
    mret result
  else
    outb (Z.lor SP_CR_IRQ (Z.lor SP_CR_SELECT SP_CR_INIT)) (base + SP_CONTROL);;
    mret 0.

(** * Invariant *)

#[local] Arguments time_record _ : simpl never.

(** With [m] telling whether a writer holds the mutex. *)
Record wf (m : bool) (s : printer) : Prop := {
  wf_in_mem : lenZ (in_mem s) = PAGE_SIZE + 1;
  wf_in_head : 0 <= in_head s < PAGE_SIZE;
  wf_align : in_head s mod 16 = 0;
  wf_in_tail : 0 <= in_tail s < PAGE_SIZE;
  wf_tv : 0 <= fst (tv s) ∧ 0 <= snd (tv s) < 1000000;
  wf_out_mem : lenZ (out_mem s) = PAGE_SIZE;
  wf_out_head : 0 <= out_head s < PAGE_SIZE;
  wf_out_tail : 0 <= out_tail s < PAGE_SIZE;
  wf_mutex : out_mutex s = m;
  wf_lock : out_lock s = false;
  wf_active : out_head s ≠ out_tail s → output_active s = true;
  wf_timer : timer s = true → output_active s = true;
  wf_stream : accepted s = sent s ++ ring (out_mem s) (out_tail s) (out_head s)
}.

(** Other tasks keep the invariant and the mutex; only its holder adds bytes. *)
Definition rely (s s' : printer) : Prop :=
  (∀ m, wf m s → wf m s') ∧ out_mutex s' = out_mutex s ∧
  (out_mutex s = true → out_head s' = out_head s ∧ accepted s' = accepted s).
Definition printer_contract : contract printer := Contract clock_ans rely True.

(** The space found is what the ring has in one piece. *)
Lemma out_space_room m s : wf m s → shortp_out_space s = ring_room PAGE_SIZE (out_tail s) (out_head s).
Proof.
  intros []. unfold shortp_out_space, ring_room, PAGE_SIZE in *. cbv zeta.
  repeat case_match; zbool; lia.
Qed.

Lemma incr_out_wrap bp n :
  0 <= bp → 0 <= n → bp + n <= PAGE_SIZE →
  shortp_incr_out_bp bp n = wrap PAGE_SIZE (bp + n) ∧ (n < PAGE_SIZE → bp < PAGE_SIZE →
  0 <= shortp_incr_out_bp bp n < PAGE_SIZE).
Proof.
  unfold shortp_incr_out_bp, wrap, PAGE_SIZE. cbv zeta. intros. repeat case_match; zbool; lia.
Qed.

Section rules.
Context (C : contract printer).
Hypothesis Hclock : ∀ c z, c_ans C c z → clock_ans c z.
Hypothesis Hsleep : c_sleep C.
Hypothesis Hrely : ∀ s s', c_rely C s s' → rely s s'.

Lemma wp_log_time m s (Q : unit → printer → Prop) :
  wf m s → (∀ s', wf m s' → accepted s' = accepted s → out_head s' = out_head s →
    sent s' = sent s → out_tail s' = out_tail s → Q tt s') → wp C log_time Q s.
Proof.
  intros Hs HQ. destruct (Hs) as [? ? ? ? [Ht1 Ht2] ? ? ? ? ? ? ? ?].
  pose proof (length_time_record _ Ht1 Ht2) as Hr.
  destruct (incr_aligned (in_head s)) as (_ & Hh & Ha & Hl & _); [done|done|].
  unfold log_time. cbv zeta. wp_step. wp_step. wp_step. rewrite bool_decide_true by lia.
  wp_step. apply wp_modify. apply HQ; try done.
  split; cbn; rewrite ?length_store, ?Hr; done.
Qed.

Lemma wp_wait_ready fuel m s (Q : unit → printer → Prop) :
  wf m s → (∀ s', wf m s' → Q tt s') → wp C (wait_ready fuel) Q s.
Proof.
  revert s. induction fuel as [|fuel IH]; intros s Hs HQ; cbn [wait_ready]; [by apply wp_sleep|].
  do 4 wp_step. wp_step; [|wp_step; eauto]. wp_step. wp_step. apply IH; [|done].
  destruct (Hrely _ _ H0) as (Hw & _). eauto.
Qed.

Lemma wp_shortp_wait fuel m s (Q : unit → printer → Prop) :
  wf m s → (∀ s', wf m s' → Q tt s') → wp C (shortp_wait fuel) Q s.
Proof.
  intros Hs HQ. unfold shortp_wait. do 4 wp_step. wp_step; [|wp_step; eauto].
  do 2 wp_step. by eapply wp_wait_ready.
Qed.

(** The locked part of the work item: one byte goes out, or the output stops. *)
Definition work_step (s : printer) : printer :=
  if out_head s =? out_tail s then set_timer false (set_output_active false s)
  else set_out_tail (shortp_incr_out_bp (out_tail s) 1)
         (set_sent (sent s ++ slice (out_tail s) 1 (out_mem s)) (set_timer true s)).

Lemma work_step_wf m s : wf m s → wf m (work_step s).
Proof.
  intros []. unfold work_step. case_match; zbool.
  - by split; cbn.
  - destruct (incr_out_wrap (out_tail s) 1) as [Hw Hr]; [lia..|].
    split; cbn; try done.
    + apply Hr; unfold PAGE_SIZE in *; lia.
    + intros _. auto.
    + intros _. auto.
    + rewrite wf_stream0, (ring_pop _ (out_tail s) (out_head s) 1), Hw, wf_out_mem0, app_assoc;
        rewrite ?wf_out_mem0; try lia; [done|]. unfold ring_avail. case_match; zbool; lia.
Qed.

(** Up to the port writes, the lock and the count of wake-ups, which the
    invariant does not read. *)
Record same (s s' : printer) : Prop := {
  sm_in : in_mem s' = in_mem s ∧ in_head s' = in_head s ∧ in_tail s' = in_tail s ∧ tv s' = tv s;
  sm_out : out_mem s' = out_mem s ∧ out_head s' = out_head s ∧ out_tail s' = out_tail s;
  sm_lock : out_mutex s' = out_mutex s ∧ out_lock s' = out_lock s;
  sm_active : output_active s' = output_active s ∧ timer s' = timer s;
  sm_ghost : accepted s' = accepted s ∧ sent s' = sent s
}.

Lemma wf_same m s s' : same s s' → wf m s → wf m s'.
Proof.
  intros [(E1 & E2 & E3 & E4) (E5 & E6 & E7) (E8 & E9) (E10 & E11) (E12 & E13)] [].
  split; rewrite ?E1, ?E2, ?E3, ?E4, ?E5, ?E6, ?E7, ?E8, ?E9, ?E10, ?E11, ?E12, ?E13; done.
Qed.

Lemma wp_shortp_do_write s (Q : unit → printer → Prop) :
  lenZ (out_mem s) = PAGE_SIZE → 0 <= out_tail s < PAGE_SIZE → out_head s ≠ out_tail s →
  (∀ s' b cr, slice (out_tail s) 1 (out_mem s) = [b] → same (work_step s) s' →
    pouts s' = [(wbase s + SP_CONTROL, Some (u8 (Z.land cr (Z.lnot SP_CR_STROBE))));
                (wbase s + SP_CONTROL, Some (u8 (Z.lor cr SP_CR_STROBE)));
                (wbase s + SP_DATA, b)] ++ pouts s →
    out_wakes s' = out_wakes s → Q tt s') →
  wp C shortp_do_write Q s.
Proof.
  intros Hm Ht Hne HQ. unfold shortp_do_write, mod_timer, outb, outc. do 4 wp_step. wp_step.
  apply wp_modify. wp_step. wp_step. wp_step.
  destruct (proj2 (lookupZ_is_Some (out_mem s) (out_tail s)) ltac:(lia)) as [b Hb].
  cbn [out_mem out_tail set_timer]. eapply wp_deref; [exact Hb|].
  repeat (wp_step; apply wp_modify). apply wp_modify.
  assert (slice (out_tail s) 1 (out_mem s) = [b]) as Hsl.
  { apply lookupZ_Some in Hb as [_ Hb]. unfold slice. change (Z.to_nat 1) with 1%nat.
    by rewrite (drop_S _ _ _ Hb). }
  eapply (HQ _ b z Hsl); [|reflexivity|reflexivity].
  unfold work_step. rewrite (proj2 (Z.eqb_neq _ _)), Hsl by done. by split.
Qed.

Lemma wp_shortp_do_work fuel m s (Q : unit → printer → Prop) :
  wf m s →
  (∀ s1 s', wf m s1 → wf m s' → accepted s' = accepted s1 → sent s' = sent (work_step s1) →
    out_head s' = out_head s1 → out_tail s' = out_tail (work_step s1) → Q tt s') →
  wp C (shortp_do_work fuel) Q s.
Proof.
  intros Hs HQ. unfold shortp_do_work. wp_step. apply wp_modify. wp_step.
  apply (wp_shortp_wait _ m); [eapply wf_same; [|exact Hs]; by split|]. intros s1 Hs1.
  unfold spin_lock. wp_step. wp_step. wp_step. rewrite (wf_lock _ _ Hs1). apply wp_modify.
  wp_step. wp_step. wp_step.
  apply (wp_mono _ _ (λ _ s2, same (work_step (set_out_lock true s1)) s2)).
  { wp_step.
    - unfold del_timer. wp_step. apply wp_modify. apply wp_modify. unfold work_step.
      rewrite (proj2 (Z.eqb_eq _ _)) by done. by split.
    - destruct Hs1. apply wp_shortp_do_write; try done. }
  intros _ s2 Hs2. wp_step. apply wp_modify.
  set (s3 := if room_to_wake s2 then _ else _).
  assert (same (work_step (set_out_lock true s1)) s3) as Hs3.
  { subst s3. case_match; [|done]. destruct Hs2. by split. }
  clearbody s3. unfold spin_unlock. wp_step. wp_step. wp_step.
  assert (work_step (set_out_lock true s1) = set_out_lock true (work_step s1)) as Hc.
  { unfold work_step. cbn. by case_match. }
  rewrite Hc in Hs3. destruct (sm_lock _ _ Hs3) as [_ ->]. cbn [out_lock set_out_lock]. apply wp_modify.
  assert (same (work_step s1) (set_out_lock false s3)) as Hs4.
  { pose proof (wf_lock _ _ (work_step_wf _ _ Hs1)) as Hl. destruct Hs3. split; cbn in *; try done.
    destruct sm_lock0. by rewrite Hl. }
  apply (wp_log_time m); [eapply wf_same; [exact Hs4|]; by apply work_step_wf|].
  intros s5 Hs5 E1 E2 E3 E4. destruct Hs4 as [_ (? & ? & ?) _ _ [? ?]].
  assert (accepted (work_step s1) = accepted s1 ∧ out_head (work_step s1) = out_head s1) as [? ?]
    by (unfold work_step; by case_match).
  eapply HQ; [exact Hs1|done|congruence..].
Qed.
(** What that makes of the state. *)
Definition kicked (s : printer) : printer :=
  if output_active s then s
  else set_work_queued true (set_timer true (set_output_active true s)).

Lemma wp_kick s (Q : unit → printer → Prop) :
  out_lock s = false → (timer s = true → output_active s = true) → Q tt (kicked s) →
  wp C ensure_output Q s.
Proof.
  intros Hl Ht HQ. unfold ensure_output, spin_lock, spin_unlock, shortp_start_output, add_timer, queue_work.
  wp_step. wp_step. wp_step. rewrite Hl. apply wp_modify. wp_step. wp_step. wp_step.
  unfold kicked in HQ. cbn [output_active set_out_lock]. destruct s as [];
    cbn in *. destruct output_active0; cbn [negb].
  - wp_step. do 2 wp_step. cbn [out_lock set_out_lock]. apply wp_modify. by subst.
  - wp_step. wp_step. cbn. wp_step. apply wp_modify. wp_step. wp_step. wp_step. cbn.
    destruct timer0; [by specialize (Ht eq_refl)|].
    apply wp_modify. apply wp_modify. wp_step. wp_step. cbn. apply wp_modify. by subst.
Qed.

(** Storing [bytes] at the head and moving it: what a writer adds. *)
Definition stored (bytes : list cell) (s : printer) : printer :=
  set_out_head (shortp_incr_out_bp (out_head s) (lenZ bytes))
    (set_accepted (accepted s ++ bytes) (set_out_mem (store (out_head s) bytes (out_mem s)) s)).

Lemma printer_stored_wf bytes s :
  wf true s → lenZ bytes <= shortp_out_space s → wf true (kicked (stored bytes s)).
Proof.
  intros Hs Hn. rewrite (out_space_room _ _ Hs) in Hn. destruct Hs.
  destruct (incr_out_wrap (out_head s) (lenZ bytes)) as [Hw Hr].
  { lia. } { lia. }
  { unfold ring_room, PAGE_SIZE in *. revert Hn. case_match; zbool; lia. }
  assert (lenZ bytes < PAGE_SIZE) as Hlt
    by (unfold ring_room, PAGE_SIZE in *; revert Hn; case_match; zbool; lia).
  assert (ring (store (out_head s) bytes (out_mem s)) (out_tail s) (shortp_incr_out_bp (out_head s) (lenZ bytes))
    = ring (out_mem s) (out_tail s) (out_head s) ++ bytes) as Hp.
  { rewrite Hw, <-wf_out_mem0. apply ring_push; rewrite ?wf_out_mem0; try lia. }
  unfold kicked. change (output_active (stored bytes s)) with (output_active s).
  destruct (output_active s) eqn:E; split; cbn; rewrite ?length_store, ?E; try done; try (apply Hr; lia);
    by rewrite wf_stream0, Hp, app_assoc.
Qed.

(** Bytes that could not be copied fall on free cells. *)
Lemma ring_junk bytes m s :
  wf m s → lenZ bytes <= shortp_out_space s →
  wf m (set_out_mem (store (out_head s) bytes (out_mem s)) s).
Proof.
  intros Hs Hn. rewrite (out_space_room _ _ Hs) in Hn. destruct Hs.
  split; cbn; rewrite ?length_store; try done. rewrite wf_stream0. f_equal. symmetry.
  apply ring_store_free; rewrite ?wf_out_mem0; try lia.
  unfold ring_room in Hn. revert Hn. case_match; zbool; lia.
Qed.

Lemma wp_write_loop fuel buf written s (Q : Z + Z → printer → Prop) :
  wf true s → (length buf < fuel)%nat →
  (∀ k s', (k <= length buf)%nat → accepted s' = accepted s ++ (Some <$> take k buf) →
    wf false s' → Q (inl (- EFAULT)) s') →
  (∀ k s', (k <= length buf)%nat → accepted s' = accepted s ++ (Some <$> take k buf) →
    wf true s' → Q (inr (written + Z.of_nat k)) s') →
  wp C (write_loop fuel buf written) Q s.
Proof.
  revert buf written s Q. induction fuel as [|fuel IH]; intros buf written s Q Hs Hf Hl Hr; [lia|].
  cbn [write_loop]. wp_step.
  2: { wp_step. rewrite <-(Z.add_0_r written). apply (Hr 0%nat); [lia| |done]. by rewrite app_nil_r. }
  wp_step. wp_step. wp_step.
  assert (∀ s, wf true s → rely s s) as Hrefl by (intros; by split).
  apply (wp_mono _ _ (λ r s1, wf true s1 ∧ accepted s1 = accepted s ∧
    (r = 0 → shortp_out_space s1 > 0))).
  { wp_step; [|wp_step; split_and!; [done|done|lia]].
    assert (∀ a b, wf true a → c_rely C a b → wf true b ∧ accepted b = accepted a) as Hab.
    { intros a b Ha (Hw & _ & Hh)%Hrely. split; [by apply Hw|]. by apply Hh, (wf_mutex _ _ Ha). }
    apply wp_wait_event; [done| | |].
    - intros s1 H1 Hc. destruct (Hab _ _ Hs H1). split_and!; [done|done|]. zbool. lia.
    - intros s1 s2 H1 H2 Hc. destruct (Hab _ _ Hs H1) as [? E1]. destruct (Hab s1 s2) as [? E2]; [done..|].
      split_and!; [done|congruence|]. zbool. lia.
    - intros s1 s2 z H1 H2 _ _. destruct (Hab _ _ Hs H1) as [? E1]. destruct (Hab s1 s2) as [? E2]; [done..|].
      by split_and!; [|congruence|]. }
  intros r s1 (Hs1 & Ha1 & Hsp). wp_step.
  { wp_step. rewrite <-(Z.add_0_r written). apply (Hr 0%nat); [lia| |done]. by rewrite app_nil_r. }
  specialize (Hsp Heqb0). wp_step. wp_step. cbv zeta.
  set (n := if _ >? lenZ buf then _ else _).
  assert (0 < n <= lenZ buf ∧ n <= shortp_out_space s1) as [Hn Hns].
  { subst n. case_match; zbool; lia. }
  clearbody n. wp_step. wp_step. wp_step.
  assert (out_head s1 + n <= PAGE_SIZE) as Hfit.
  { rewrite (out_space_room _ _ Hs1) in Hns. destruct Hs1. unfold ring_room, PAGE_SIZE in *.
    revert Hns. case_match; zbool; lia. }
  assert (length (take (Z.to_nat n) buf) = Z.to_nat n) as Hlt by (rewrite length_take; lia).
  apply wp_copy_from_user.
  { intros z Hz. by apply Hclock. }
  - intros z _ _. wp_step. rewrite bool_decide_true by lia. apply wp_modify. cbn [negb].
    wp_step. apply wp_modify. wp_step. apply wp_modify.
    set (s2 := set_out_head _ _).
    assert (s2 = stored (Some <$> take (Z.to_nat n) buf) s1) as E2.
    { unfold stored. rewrite length_fmap, Hlt, Z2Nat.id by lia. done. }
    rewrite E2. clear s2 E2. set (bytes := Some <$> take (Z.to_nat n) buf).
    assert (lenZ bytes = n) as Hb by (subst bytes; rewrite length_fmap; lia).
    rewrite <-Hb in Hns. pose proof (printer_stored_wf _ _ Hs1 Hns) as Hs3.
    wp_step. apply wp_kick; [by destruct Hs1|by destruct Hs1|].
    assert (accepted (kicked (stored bytes s1)) = accepted s ++ bytes) as Ha3.
    { unfold kicked. rewrite <-Ha1. by case_match. }
    assert (∀ k, Some <$> take (Z.to_nat n + k) buf = bytes ++ (Some <$> take k (drop (Z.to_nat n) buf)))
      as Hcat by (intros k; subst bytes; by rewrite <-fmap_app, take_take_drop).
    apply IH; [done|rewrite length_drop; lia| |].
    + intros k s4 Hk Ha4 Hs4. rewrite length_drop in Hk. apply (Hl (Z.to_nat n + k)%nat); [lia| |done].
      by rewrite Ha4, Ha3, Hcat, app_assoc.
    + intros k s4 Hk Ha4 Hs4. rewrite length_drop in Hk.
      replace (written + n + Z.of_nat k) with (written + Z.of_nat (Z.to_nat n + k)) by lia.
      apply (Hr (Z.to_nat n + k)%nat); [lia| |done]. by rewrite Ha4, Ha3, Hcat, app_assoc.
  - intros z l _ _ Hll. wp_step. rewrite bool_decide_true by lia. apply wp_modify. cbn [negb].
    pose proof (ring_junk l true s1 Hs1 ltac:(lia)) as Hj.
    wp_step. apply wp_unlock; [by destruct Hj|]. wp_step. apply (Hl 0%nat); [lia| |].
    + by rewrite app_nil_r.
    + destruct Hj. by split.
Qed.

Lemma wp_shortp_write buf f_pos s (Q : Z * Z → printer → Prop) :
  wf false s →
  (∀ s1, c_rely C s s1 → wf false s1 → Q (- ERESTARTSYS, f_pos) s1) →
  (∀ s1 k s', c_rely C s s1 → (k <= length buf)%nat →
    accepted s' = accepted s1 ++ (Some <$> take k buf) → wf false s' →
    Q (- EFAULT, f_pos) s' ∧ Q (Z.of_nat k, f_pos + Z.of_nat k) s') →
  wp C (shortp_write buf f_pos) Q s.
Proof.
  intros Hs H1 H2. unfold shortp_write. wp_step. apply wp_lock_interruptible.
  - intros s1 (_ & Hm & _)%Hrely. cbn. rewrite Hm. by destruct Hs.
  - intros s1 z Hr _ _. cbn [negb]. destruct (Hrely _ _ Hr) as [Hw _]. specialize (Hw _ Hs).
    wp_step. apply wp_write_loop; [by destruct Hw; split|lia| |].
    + intros k s2 Hk Ha Hs2. wp_step. by eapply H2.
    + intros k s2 Hk Ha Hs2. wp_step. apply wp_unlock; [by destruct Hs2|]. wp_step.
      rewrite Z.add_0_l. apply (H2 s1 k); [done|done|done|]. by destruct Hs2; split.
  - intros s1 z Hr _ _. cbn [negb]. wp_step. apply H1; [done|]. by apply (proj1 (Hrely _ _ Hr)).
Qed.

(** ** The other entry points *)

Lemma wp_wait_input fuel m s (Q : bool → printer → Prop) :
  wf m s → (∀ s', wf m s' → Q false s') → (∀ s', wf m s' → in_head s' ≠ in_tail s' → Q true s') →
  wp C (wait_input fuel) Q s.
Proof.
  intros Hs Hf Ht. revert s Hs. induction fuel as [|fuel IH]; intros s Hs; cbn [wait_input].
  - by apply wp_sleep.
  - wp_step. wp_step. wp_step; [|wp_step; by apply Ht].
    wp_step. wp_step. destruct (Hrely _ _ H) as [Hw _]. do 2 wp_step.
    wp_step; [wp_step; eauto|]. apply IH. eauto.
Qed.

Lemma wp_shortp_read fuel count m s :
  wf m s → 0 <= count → wp C (shortp_read fuel count) (λ _ s', wf m s') s.
Proof.
  intros Hs Hc. unfold shortp_read. wp_step. apply (wp_wait_input _ m); [done| |].
  { intros s' Hs'. cbn [negb]. by wp_step. }
  intros s' Hs' Hne. cbn [negb]. wp_step. wp_step. cbv zeta. destruct (Hs') as [].
  rewrite s32_small by (unfold PAGE_SIZE in *; lia).
  set (count0 := if _ <? 0 then _ else _).
  assert (0 < count0 ∧ in_tail s' + count0 <= PAGE_SIZE) as [? ?].
  { subst count0. case_match; zbool; unfold PAGE_SIZE in *; lia. }
  set (n := if count0 <? count then _ else _).
  assert (0 <= n <= count0) as Hn by (subst n; case_match; zbool; lia). clearbody n.
  wp_step. rewrite bool_decide_true by lia. wp_step.
  wp_step. apply wp_copy_to_user. intros z Hz. wp_step; [by wp_step|].
  wp_step. apply wp_modify. wp_step.
  split; cbn; try done. unfold shortp_incr_bp. cbv zeta.
  destruct (Z.geb_spec (in_tail s' + n) PAGE_SIZE); unfold PAGE_SIZE in *; lia.
Qed.

Lemma wp_shortp_interrupt m s :
  wf m s → wp C shortp_interrupt (λ _ s', wf m s') s.
Proof.
  intros Hs. unfold shortp_interrupt, do_gettimeofday, queue_work.
  wp_step. wp_step. wp_step; [by wp_step|]. do 6 wp_step. wp_step. apply wp_modify.
  wp_step. apply wp_modify. wp_step. destruct Hs.
  apply Hclock in H as (_ & ? & _), H0 as (_ & _ & ?). split; cbn; auto.
Qed.

Lemma wp_shortp_timeout m s :
  wf m s → wp C shortp_timeout (λ _ s', wf m s') s.
Proof.
  intros Hs. unfold shortp_timeout, spin_lock, spin_unlock, add_timer.
  wp_step. apply wp_modify. wp_step. wp_step. wp_step; [wp_step; by destruct Hs; split|].
  wp_step. wp_step. wp_step. cbn [out_lock set_timer]. rewrite (wf_lock _ _ Hs). apply wp_modify.
  do 4 wp_step. wp_step.
  - wp_step. wp_step. wp_step. cbn [timer set_out_lock set_timer]. apply wp_modify. wp_step. wp_step.
    cbn [out_lock set_out_lock set_timer]. apply wp_modify. destruct Hs. by split.
  - wp_step. wp_step. wp_step. cbn [out_lock set_out_lock]. apply wp_modify. wp_step.
    eapply wp_mono; [apply (wp_shortp_interrupt m)|].
    + by destruct Hs; split.
    + intros ? s' Hs'. by wp_step.
Qed.
End rules.

(** * The driver as a state machine *)

Inductive op :=
| Open | Release | Read (fuel : nat) (count : Z) | Write (buf : list Z) (f_pos : Z)
| Work (fuel : nat) | Interrupt | Timeout.

Definition handle (o : op) : K printer Z :=
  match o with
  | Open => shortp_open
  | Release => shortp_release
  | Read fuel count => kfmap fst (shortp_read fuel count)
  | Write buf f_pos => kfmap fst (shortp_write buf f_pos)
  | Work fuel => kfmap (λ _, 0) (shortp_do_work fuel)
  | Interrupt => shortp_interrupt
  | Timeout => kfmap (λ _, 0) shortp_timeout
  end.

(** The kernel runs the work item when it is queued and the timer's function
    when the timer was pending. *)
Definition allowed (s : printer) (o : op) : Prop :=
  match o with
  | Read _ count => 0 <= count
  | Work _ => work_queued s = true
  | Timeout => timer s = true
  | _ => True
  end.

Lemma printer_wp_handle s o : wf false s → allowed s o → wp printer_contract (handle o) (λ _, wf false) s.
Proof.
  intros Hs Ha. destruct o; cbn [handle].
  - unfold shortp_open. by wp_step.
  - unfold shortp_release. wp_step.
    assert (∀ s1, rely s s1 → wf false s1) as H1 by (intros s1 [Hw _]; auto).
    apply wp_wait_event; [done| | |].
    + intros s1 Hr _. wp_step. auto.
    + intros s1 s2 Hr [Hw _] _. wp_step. auto.
    + intros s1 s2 z Hr [Hw _] _ _. wp_step. auto.
  - apply wp_kfmap. by apply wp_shortp_read.
  - apply wp_kfmap. by apply wp_shortp_write.
  - apply wp_kfmap. by eapply wp_shortp_do_work.
  - by apply wp_shortp_interrupt.
  - apply wp_kfmap. by apply wp_shortp_timeout.
Qed.

(** C5: Writers, the work item, interrupts, timeouts and readers in any order:
    no entry point faults, and what was strobed to the printer followed by what
    the output ring holds is what writers stored: no byte is lost, repeated or
    reordered. Output is active while there are bytes left. *)
Theorem shortprint_stream :
  faultless handle allowed printer_contract (wf false) ∧
  ∀ s, reachable handle allowed printer_contract (wf false) s →
    accepted s = sent s ++ ring (out_mem s) (out_tail s) (out_head s) ∧
    (out_head s ≠ out_tail s → output_active s = true).
Proof.
  assert (inductive_inv handle allowed printer_contract (wf false) (wf false)) as Hinv.
  { split_and!; [done| |intros s s' Hs [Hw _]; auto]. intros s o Hs Ha. by apply printer_wp_handle. }
  split; [by eapply inv_faultless|]. intros s Hr.
  by destruct (reachable_inv _ _ _ _ _ _ Hinv Hr).
Qed.

(** A write stores a prefix of the user's buffer, of the length it returns,
    and moves the file position past it; on a fault in user memory it answers
    [-EFAULT] although the bytes copied before the fault will be printed. *)
Theorem shortp_write_spec buf f_pos s :
  wf false s →
  wp printer_contract (shortp_write buf f_pos) (λ '(r, p) s', wf false s' ∧
    ∃ s1 k, rely s s1 ∧ (k <= length buf)%nat ∧
      accepted s' = accepted s1 ++ (Some <$> take k buf) ∧
      (r = Z.of_nat k ∧ p = f_pos + Z.of_nat k ∨ r = - EFAULT ∧ p = f_pos ∨
       r = - ERESTARTSYS ∧ p = f_pos ∧ k = 0%nat)) s.
Proof.
  intros Hs. apply wp_shortp_write; [by intros ? ? ?|done..| |].
  - intros s1 Hr Hs1. split; [done|]. exists s1, 0%nat. split_and!; [done|lia|by rewrite app_nil_r|auto].
  - intros s1 k s' Hr Hk Ha Hs'. split; (split; [done|]); exists s1, k; split_and!; auto.
Qed.

(** The work item strobes out the oldest byte of the ring, the data first
    and then the strobe set and cleared, and removes just that byte. *)
Theorem shortp_do_write_sends s :
  wf false s → out_head s ≠ out_tail s →
  wp (Contract clock_ans alone False) shortp_do_write (λ _ s',
    ∃ b cr, ring (out_mem s) (out_tail s) (out_head s) = b :: ring (out_mem s') (out_tail s') (out_head s') ∧
      sent s' = sent s ++ [b] ∧
      pouts s' = [(wbase s + SP_CONTROL, Some (u8 (Z.land cr (Z.lnot SP_CR_STROBE))));
                  (wbase s + SP_CONTROL, Some (u8 (Z.lor cr SP_CR_STROBE)));
                  (wbase s + SP_DATA, b)] ++ pouts s) s.
Proof.
  intros Hs Hne. pose proof (work_step_wf _ _ Hs) as Hw. destruct Hs.
  apply wp_shortp_do_write; [done|done|done|]. intros s' b cr Hb Hsm Hp _.
  destruct Hsm as [_ (E1 & E2 & E3) _ _ [_ E4]]. exists b, cr. rewrite E1, E2, E3, E4, Hp.
  unfold work_step. rewrite (proj2 (Z.eqb_neq _ _)) by done. cbn. rewrite Hb.
  split_and!; [|done|done].
  destruct (incr_out_wrap (out_tail s) 1) as [Hi _]; [lia..|].
  rewrite Hi, (ring_pop _ (out_tail s) (out_head s) 1), Hb, wf_out_mem0; rewrite ?wf_out_mem0; try lia; [done|].
  unfold ring_avail. case_match; zbool; lia.
Qed.

(** ** Loading *)

(** Updates of the other fields. *)
Lemma owned_same L s s' : pregs s' = pregs s → owned L s → owned L s'.
Proof. unfold owned. cbn. by intros ->. Qed.

(** Everything but the interrupt line. *)
Definition taken (base : Z) : list resource := [workqueue; out_page; in_page; chrdev; io_region base].

Lemma wp_shortp_cleanup C s (Q : unit → printer → Prop) :
  owned ((if wirq s >=? 0 then [Res "irq" (wirq s)] else []) ++ taken (wbase s)) s →
  (∀ s', pregs s' = empty_registry → Q tt s') → wp C shortp_cleanup Q s.
Proof.
  intros HL HQ. unfold shortp_cleanup, outb, outc. do 4 wp_step. wp_step.
  apply (wp_mono _ _ (λ _ s', owned (taken (wbase s)) s')).
  { destruct (wirq s >=? 0).
    - wp_step. apply wp_modify. eapply (wp_give_back_owned _ _ _ (taken (wbase s))); [exact HL|done|]. by intros.
    - by wp_step. }
  intros _ s1 H1. wp_step. eapply (wp_give_back_owned _ _ _ [workqueue; out_page; in_page; io_region (wbase s)]);
    [exact H1|symmetry; apply (Permutation_middle [workqueue; out_page; in_page] [io_region (wbase s)] chrdev)|].
  intros g1 H2. wp_step. eapply (wp_give_back_owned _ _ _ [workqueue; out_page; in_page]);
    [exact H2|symmetry; apply (Permutation_cons_append [workqueue; out_page; in_page])|].
  intros g2 H3. do 2 (wp_step; apply wp_modify).
  wp_step. eapply (wp_give_back_owned _ _ _ [out_page; in_page]); [exact H3|done|].
  intros g3 H4. wp_step. eapply (wp_give_back_owned _ _ _ [out_page]); [exact H4|apply perm_swap|].
  intros g4 H5. eapply (wp_give_back_owned _ _ _ []); [exact H5|done|].
  intros g5 H6. apply HQ. exact (owned_nil _ H6).
Qed.

(** Loading gives everything back when it fails, unloading when it succeeded. *)
Lemma shortp_init_balanced base irq s :
  0 <= irq → pregs s = empty_registry →
  wp (documented (S:=printer) alone False)
    (r ← shortp_init base irq; if r =? 0 then shortp_cleanup else mret tt)
    (λ _ s', pregs s' = empty_registry) s.
Proof.
  intros Hirq Hr. pose proof (nil_owned (St:=printer) s Hr) as Ho. clear Hr. rename Ho into Hr. unfold shortp_init.
  wp_step. do 2 (wp_step; apply wp_modify). wp_step. apply wp_acquire_ptr.
  { cbn [Z.eqb]. wp_step. change (_ =? 0) with false. cbn iota. wp_step. exact (owned_nil s Hr). }
  intros z _ Hz. rewrite (proj2 (Z.eqb_neq z 0)) by done.
  set (s1 := set_registry _ _). assert (owned [io_region base] s1) as H1 by by apply owned_add.
  assert (wbase s1 = base ∧ wirq s1 = irq) as [E1 Ei1] by done. clearbody s1. wp_step. wp_step. wp_step.
  { wp_step. apply wp_give_back. wp_step. rewrite (proj2 (Z.eqb_neq _ _)) by lia. wp_step.
    refine (owned_nil (set_registry _ _) _). by apply owned_del. }
  wp_step. eapply wp_hold_owned; [exact H1|]. intros g1 H2.
  wp_step. eapply wp_hold_owned; [exact H2|]. intros g2 H3. do 3 (wp_step; apply wp_modify).
  wp_step. eapply wp_hold_owned; [exact H3|]. intros g3 H4. do 7 (wp_step; apply wp_modify).
  wp_step. eapply wp_hold_owned; [exact H4|]. intros g4 H5. wp_step. apply wp_modify.
  set (s2 := if _ <? 0 then _ else _).
  assert (owned (taken base) s2 ∧ wbase s2 = base ∧ wirq s2 = irq) as (H6 & E2 & E3).
  { subst s2. cbn [wirq set_registry]. cbn. rewrite Ei1, (proj2 (Z.ltb_ge _ _)) by done.
    split_and!; [exact H5|done|done]. }
  clearbody s2. wp_step. wp_step. wp_step. apply wp_acquire.
  - change (negb _) with false. cbn iota. unfold outb, outc. wp_step. apply wp_modify. wp_step.
    cbn [Z.eqb]. apply wp_shortp_cleanup; [|done]. apply (owned_add (Res "irq" (wirq s2))) in H6.
    cbn. rewrite E2, E3, Z.geb_leb, (proj2 (Z.leb_le _ _)) by done. rewrite E3 in H6. exact H6.
  - intros r _ Hr0. rewrite (proj2 (Z.eqb_neq _ _)) by done. cbn [negb].
    wp_step. apply wp_modify. wp_step. apply wp_shortp_cleanup.
    { cbn. rewrite E2. exact H6. }
    intros s3 H7. wp_step. rewrite (proj2 (Z.eqb_neq _ _)) by done. by wp_step.
Qed.

(** ** Witnesses *)

Definition printer0 : printer :=
  Printer (uninit (PAGE_SIZE + 1)) 0 0 (0, 0) (store 0 [Some 65; Some 66] (uninit PAGE_SIZE)) 2 0
    false false true true false 0 888 7 [] empty_registry [Some 65; Some 66] [].

Lemma wf_printer0 : wf false printer0.
Proof. split; cbn -[uninit]; try done; try (unfold PAGE_SIZE; lia).
Qed.

Lemma shortp_write_spec_witness :
  wf false printer0 ∧
  wp printer_contract (shortp_write [1; 2] 0) (λ _ s', wf false s') printer0.
Proof.
  split; [apply wf_printer0|]. eapply wp_mono; [apply (shortp_write_spec [1; 2] 0 printer0 wf_printer0)|].
  by intros [r p] s' [? _].
Defined.

Lemma shortp_do_write_sends_witness :
  wp (Contract clock_ans alone False) shortp_do_write (λ _ s', sent s' = [Some 65]) printer0.
Proof.
  eapply wp_mono; [apply (shortp_do_write_sends printer0 wf_printer0); done|].
  intros _ s' (b & cr & H & -> & _). vm_compute in H. by simplify_eq.
Defined.
