(* ===== verification/TinyTty.v ===== *)
(** * tiny_tty: a terminal driver without hardware (src/ldd4/tty/tiny_tty.c)

    Four ports. Each has the driver's structure, allocated at the first open,
    and the [driver_data] pointer of its [struct tty_struct]. A timer inserts a
    character every two seconds while the port is open. What the tty layer was
    given is kept in [flip] and [pushed], and what went to the log in [log]. *)

From stdpp Require Import base tactics numbers list strings.
From S2P Require Import Prelude KMonad Text.
From Stdlib Require Import ZArith Lia.

Open Scope Z_scope.

(** ** Data *)

Definition TINY_DATA_CHARACTER : Z := 116.
Definition TINY_TTY_MINORS : nat := 4.
Definition TTY_FLIPBUF_SIZE : Z := 512.

(** [struct tiny_serial]: [timer] is NULL, or tells whether the timer is
    pending; [serial] and [icount] are the fields of the structures of those
    names, in the order the ioctls copy them. *)
Record tiny_serial := Tiny {
  open_count : Z;
  sem : bool;
  timer : option bool;
  msr : Z;
  mcr : Z;
  serial : list Z;
  icount : list Z
}.

Definition set_open_count (v : Z) (x : tiny_serial) : tiny_serial :=
  Tiny v (sem x) (timer x) (msr x) (mcr x) (serial x) (icount x).
Definition set_sem (v : bool) (x : tiny_serial) : tiny_serial :=
  Tiny (open_count x) v (timer x) (msr x) (mcr x) (serial x) (icount x).
Definition set_timer (v : option bool) (x : tiny_serial) : tiny_serial :=
  Tiny (open_count x) (sem x) v (msr x) (mcr x) (serial x) (icount x).
Definition set_mcr (v : Z) (x : tiny_serial) : tiny_serial :=
  Tiny (open_count x) (sem x) (timer x) (msr x) v (serial x) (icount x).

(** An entry of [tiny_table] and the tty of that index; [users] counts the opens
    the tty layer has not closed yet. *)
Record port := Port {
  tiny : option tiny_serial;
  driver_data : bool;
  flip : list Z;
  pushed : list Z;
  log : list (list Z);
  users : Z
}.

Definition set_tiny (v : option tiny_serial) (x : port) : port :=
  Port v (driver_data x) (flip x) (pushed x) (log x) (users x).
Definition set_driver_data (v : bool) (x : port) : port :=
  Port (tiny x) v (flip x) (pushed x) (log x) (users x).
Definition set_flip (v : list Z) (x : port) : port :=
  Port (tiny x) (driver_data x) v (pushed x) (log x) (users x).
Definition set_pushed (v : list Z) (x : port) : port :=
  Port (tiny x) (driver_data x) (flip x) v (log x) (users x).
Definition add_log (v : list Z) (x : port) : port :=
  Port (tiny x) (driver_data x) (flip x) (pushed x) (v :: log x) (users x).
Definition set_users (v : Z) (x : port) : port :=
  Port (tiny x) (driver_data x) (flip x) (pushed x) (log x) v.

(** The driver's structure, through a pointer that may be NULL. *)
Definition get_tiny : K port tiny_serial := gets tiny ≫= deref NullDeref.
Definition on_tiny (f : tiny_serial → tiny_serial) : K port unit :=
  t ← get_tiny; modify (set_tiny (Some (f t))).

(** [tty->driver_data]. *)
Definition driver_tiny : K port tiny_serial :=
  d ← gets driver_data; if d : bool then get_tiny else oops NullDeref.

Definition down : K port unit :=
  t ← get_tiny; if sem t then oops Deadlock else on_tiny (set_sem true).
Definition up : K port unit :=
  t ← get_tiny; if sem t then on_tiny (set_sem false) else oops BadUnlock.

(** [add_timer(tiny->timer)], a bug on a pending timer; [del_timer]. *)
Definition add_timer : K port unit :=
  t ← get_tiny;
  b ← deref NullDeref (timer t);
  if b : bool then oops BugOn else on_tiny (set_timer (Some true)).
Definition del_timer : K port unit :=
  t ← get_tiny;
  deref NullDeref (timer t);;
  on_tiny (set_timer (Some false)).

(** ** The timer *)

Definition tty_flip_buffer_push : K port unit :=
  modify (λ p, set_flip [] (set_pushed (pushed p ++ flip p) p)).
Definition tty_insert_flip_char (c : Z) : K port unit :=
  modify (λ p, set_flip (flip p ++ [c]) p).

(** The timer is no longer pending when its function runs. *)
Definition tiny_timer : K port unit :=
  on_tiny (set_timer (Some false));;
  p ← get;
  (if lenZ (flip p) >=? TTY_FLIPBUF_SIZE then tty_flip_buffer_push else mret tt);;
  tty_insert_flip_char TINY_DATA_CHARACTER;;
  tty_flip_buffer_push;;
  add_timer.

(** ** Open and close *)

(** [n] words of memory that was not initialised. *)
Fixpoint garbage (n : nat) : K port (list Z) :=
  match n with
  | O => mret []
  | S n' => w ← call (kint "uninitialised"%string); l ← garbage n'; mret (w :: l)
  end.

(** "first time accessing this device, let's create it" *)
Definition create_tiny : K port bool :=
  z ← call (kmalloc 1);
  if z =? 0 then mret false else
  m ← call (kint "uninitialised"%string);
  c ← call (kint "uninitialised"%string);
  ser ← garbage 9;
  ic ← garbage 11;
  modify (set_tiny (Some (Tiny 0 false None m c ser ic)));;
  mret true.

Definition tiny_open : K port Z :=
  modify (λ p, set_users (users p + 1) p);;
  modify (set_driver_data false);;
  p ← get;
  ok ← (match tiny p with Some _ => mret true | None => create_tiny end);
  if negb ok then mret (- ENOMEM) else
  down;;
  modify (set_driver_data true);;
  on_tiny (λ t, set_open_count (s32 (open_count t + 1)) t);;
  t ← get_tiny;
  r ← (if open_count t =? 1 then
         ok ← (match timer t with
               | Some _ => mret true
               | None =>
                   z ← call (kmalloc 2);
                   if z =? 0 then mret false else on_tiny (set_timer (Some false));; mret true
               end);
         if negb ok then mret (- ENOMEM) else add_timer;; mret 0
       else mret 0);
  up;;
  mret r.

Definition do_close : K port unit :=
  down;;
  t ← get_tiny;
  (if open_count t =? 0 then mret tt else
     on_tiny (λ t, set_open_count (open_count t - 1) t);;
     t ← get_tiny;
     if open_count t <=? 0 then del_timer else mret tt);;
  up.

Definition tiny_close : K port unit :=
  modify (λ p, set_users (users p - 1) p);;
  d ← gets driver_data;
  if d : bool then do_close else mret tt.

(** ** Write *)

Definition tiny_write (buffer : list Z) : K port Z :=
  d ← gets driver_data;
  if negb d then mret (- ENODEV) else
  down;;
  t ← get_tiny;
  (if open_count t =? 0 then mret tt else modify (add_log buffer));;
  up;;
  mret (- EINVAL).

Definition tiny_write_room : K port Z :=
  d ← gets driver_data;
  if negb d then mret (- ENODEV) else
  down;;
  t ← get_tiny;
  let room := if open_count t =? 0 then - EINVAL else 255 in
  up;;
  mret room.

(** ** Line settings *)

(** [struct termios], the fields read, and the bits of asm/termbits.h. *)
Record termios := Termios { c_iflag : Z; c_cflag : Z }.
Definition CSIZE : Z := 48.
Definition CS5 : Z := 0.
Definition CS6 : Z := 16.
Definition CS7 : Z := 32.
Definition CSTOPB : Z := 64.
Definition PARENB : Z := 256.
Definition PARODD : Z := 512.
Definition CRTSCTS : Z := 2147483648.
Definition IXON : Z := 1024.
Definition IXOFF : Z := 4096.

(** IGNBRK|BRKINT|IGNPAR|PARMRK|INPCK *)
Definition RELEVANT_IFLAG (iflag : Z) : Z := Z.land iflag 31.

Inductive parity := NoParity | OddParity | EvenParity.

(** What [tiny_set_termios] finds, and logs. *)
Record settings := Settings {
  data_bits : Z;
  parity_of : parity;
  stop_bits : Z;
  rtscts : bool;
  xonxoff : option (bool * bool)     (* inbound, outbound, when one is on *)
}.

Definition decode (cflag iflag : Z) : settings :=
  let size := Z.land cflag CSIZE in
  Settings
    (if size =? CS5 then 5 else if size =? CS6 then 6 else if size =? CS7 then 7 else 8)
    (if c_bool (Z.land cflag PARENB)
     then if c_bool (Z.land cflag PARODD) then OddParity else EvenParity else NoParity)
    (if c_bool (Z.land cflag CSTOPB) then 2 else 1)
    (c_bool (Z.land cflag CRTSCTS))
    (let inb := c_bool (Z.land iflag IXOFF) in
     let outb := c_bool (Z.land iflag IXON) in
     if inb || outb then Some (inb, outb) else None).

(** [None]: nothing to change. *)
Definition tiny_set_termios (new : termios) (old : option termios) : option settings :=
  match old with
  | Some o =>
      if (c_cflag new =? c_cflag o) && (RELEVANT_IFLAG (c_iflag new) =? RELEVANT_IFLAG (c_iflag o))
      then None else Some (decode (c_cflag new) (c_iflag new))
  | None => Some (decode (c_cflag new) (c_iflag new))
  end.

(** ** Modem lines *)

Definition MCR_DTR : Z := 1.
Definition MCR_RTS : Z := 2.
Definition MCR_LOOP : Z := 4.
Definition MSR_CTS : Z := 8.
Definition MSR_CD : Z := 16.
Definition MSR_RI : Z := 32.
Definition MSR_DSR : Z := 64.

(** asm/termios.h *)
Definition TIOCM_DTR : Z := 2.
Definition TIOCM_RTS : Z := 4.
Definition TIOCM_CTS : Z := 32.
Definition TIOCM_CAR : Z := 64.
Definition TIOCM_RI : Z := 128.
Definition TIOCM_DSR : Z := 256.
Definition TIOCM_LOOP : Z := 32768.

Definition line (reg bit out : Z) : Z := if c_bool (Z.land reg bit) then out else 0.

Definition tiny_tiocmget : K port Z :=
  t ← driver_tiny;
  let msr := u32 (msr t) in
  let mcr := u32 (mcr t) in
  mret (s32 (Z.lor (line mcr MCR_DTR TIOCM_DTR) (Z.lor (line mcr MCR_RTS TIOCM_RTS)
    (Z.lor (line mcr MCR_LOOP TIOCM_LOOP) (Z.lor (line msr MSR_CTS TIOCM_CTS)
    (Z.lor (line msr MSR_CD TIOCM_CAR) (Z.lor (line msr MSR_RI TIOCM_RI)
    (line msr MSR_DSR TIOCM_DSR)))))))).

(** The new MCR. *)
Definition mcr_update (set clear mcr : Z) : Z :=
  let mcr := if c_bool (Z.land set TIOCM_RTS) then Z.lor mcr MCR_RTS else mcr in
  let mcr := if c_bool (Z.land set TIOCM_DTR) then Z.lor mcr MCR_RTS else mcr in
  let mcr := if c_bool (Z.land clear TIOCM_RTS) then Z.land mcr (u32 (Z.lnot MCR_RTS)) else mcr in
  if c_bool (Z.land clear TIOCM_DTR) then Z.land mcr (u32 (Z.lnot MCR_RTS)) else mcr.

Definition tiny_tiocmset (set clear : Z) : K port Z :=
  t ← driver_tiny;
  on_tiny (set_mcr (s32 (mcr_update set clear (u32 (mcr t)))));;
  mret 0.

(** ** ioctl *)

Definition TIOCGSERIAL : Z := 21534.
Definition TIOCMIWAIT : Z := 21596.
Definition TIOCGICOUNT : Z := 21597.
Definition ENOIOCTLCMD : Z := 515.
Definition HZ : Z := 250.

(** The words of the structure given to the user: the nine fields copied, and
    the flags and delays between them; [arg] is NULL when it is 0. *)
Definition serial_words (ser : list Z) : list Z :=
  take 4 ser ++ [Z.lor 64 128] ++ take 2 (drop 4 ser) ++ [5 * HZ; 30 * HZ] ++ drop 6 ser.

Definition tiny_ioctl_tiocgserial (arg : Z) : K port (Z * list Z) :=
  t ← driver_tiny;
  if arg =? 0 then mret (- EFAULT, []) else
  left ← call (copy_user 72);
  if negb (left =? 0) then mret (- EFAULT, []) else mret (0, serial_words (serial t)).

(** The counters of the modem lines in [icount]. *)
Definition cts (ic : list Z) : Z := nth 0 ic 0.
Definition dsr (ic : list Z) : Z := nth 1 ic 0.
Definition rng (ic : list Z) : Z := nth 2 ic 0.
Definition dcd (ic : list Z) : Z := nth 3 ic 0.

Definition changed (arg bit : Z) (f : list Z → Z) (cprev cnow : list Z) : bool :=
  c_bool (Z.land arg bit) && negb (f cnow =? f cprev).

Fixpoint miwait_loop (fuel : nat) (arg : Z) (cprev : list Z) : K port Z :=
  match fuel with
  | O => sleep_forever
  | S fuel' =>
      interfere;;                               (* schedule() *)
      sig ← call signal_pending;
      if negb (sig =? 0) then mret (- ERESTARTSYS) else
      t ← driver_tiny;
      let cnow := icount t in
      if (rng cnow =? rng cprev) && (dsr cnow =? dsr cprev) && (dcd cnow =? dcd cprev) &&
         (cts cnow =? cts cprev) then mret (- EIO) else
      if changed arg TIOCM_RI rng cprev cnow || changed arg TIOCM_DSR dsr cprev cnow ||
         changed arg TIOCM_CAR dcd cprev cnow || changed arg TIOCM_CTS cts cprev cnow
      then mret 0
      else miwait_loop fuel' arg cnow
  end.

Definition tiny_ioctl_tiocmiwait (fuel : nat) (arg : Z) : K port Z :=
  t ← driver_tiny; miwait_loop fuel arg (icount t).

Definition tiny_ioctl_tiocgicount : K port (Z * list Z) :=
  t ← driver_tiny;
  left ← call (copy_user 80);
  if negb (left =? 0) then mret (- EFAULT, []) else mret (0, icount t).

Definition tiny_ioctl (fuel : nat) (cmd arg : Z) : K port (Z * list Z) :=
  if cmd =? TIOCGSERIAL then tiny_ioctl_tiocgserial arg else
  if cmd =? TIOCMIWAIT then r ← tiny_ioctl_tiocmiwait fuel arg; mret (r, []) else
  if cmd =? TIOCGICOUNT then tiny_ioctl_tiocgicount else
  mret (- ENOIOCTLCMD, []).

(** ** /proc *)

Definition proc_header : list Z := ascii_of "tinyserinfo:1.0 driver:v2.0" ++ [10].

(** The loop of [tiny_read_proc] over the entries of the table: the page, [begin],
    [length], and whether the table was finished ([*eof]). *)
Fixpoint proc_loop (table : list bool) (i off count : Z) (page : list Z) (begin length : Z) :
    list Z * Z * Z * bool :=
  match table with
  | [] => (page, begin, length, true)
  | present :: table =>
      if length >=? 4096 then (page, begin, length, true) else
      if negb present then proc_loop table (i + 1) off count page begin length else
      let l := fmt_i i ++ [10] in
      let page := take (Z.to_nat length) page ++ l in
      let length := length + lenZ l in
      if length + begin >? off + count then (page, begin, length, false) else
      if length + begin <? off then proc_loop table (i + 1) off count page (begin + length) 0
      else proc_loop table (i + 1) off count page begin length
  end.

(** The value of the call, [*eof], and the bytes at [*start]. *)
Definition tiny_read_proc (table : list bool) (off count : Z) : Z * bool * list Z :=
  let '(page, begin, length, eof) := proc_loop table 0 off count proc_header 0 (lenZ proc_header) in
  if off >=? length + begin then (0, eof, []) else
  let n := if count <? begin + length - off then count else begin + length - off in
  (n, eof, slice (off - begin) n page).

(** ** The module *)

(** [while (tiny->open_count) do_close(tiny);], for a count that is at most the
    fuel, then the end of the body of [tiny_exit]. *)
Fixpoint close_all (fuel : nat) : K port unit :=
  t ← get_tiny;
  if open_count t =? 0 then mret tt else
  match fuel with
  | O => sleep_forever
  | S fuel' => do_close;; close_all fuel'
  end.

Definition exit_port (fuel : nat) : K port unit :=
  p ← get;
  match tiny p with
  | None => mret tt
  | Some _ =>
      close_all fuel;;
      del_timer;;
      modify (set_tiny None)
  end.

(** * Correctness *)

(** A structure in the table is consistent with the opens of its tty: the lock
    is free, the count is theirs and the timer is pending while it is not 0. *)
Definition tiny_ok (t : tiny_serial) (n : Z) : Prop :=
  sem t = false ∧ open_count t = n ∧ timer t = Some (0 <? n).

Definition wf (p : port) : Prop :=
  0 <= users p < 2 ^ 31 ∧
  match tiny p with
  | None => users p = 0 ∧ driver_data p = false
  | Some t => driver_data p = true ∧ tiny_ok t (users p)
  end.

(** A kernel with memory; other tasks keep the invariant, and the ttys that the
    running task uses open. *)
Definition rely (p p' : port) : Prop := wf p → wf p' ∧ (0 < users p → 0 < users p').
Definition tty_contract : contract port :=
  Contract (λ c z, doc_ans c z ∧ match c with kmalloc _ => z ≠ 0 | _ => True end) rely True.

Section rules.
Let C := tty_contract.

Lemma wp_get_tiny t p (Q : tiny_serial → port → Prop) :
  tiny p = Some t → Q t p → wp C get_tiny Q p.
Proof. intros Ht HQ. unfold get_tiny. wp_step. wp_step. by eapply wp_deref. Qed.

Lemma wp_on_tiny t p f (Q : unit → port → Prop) :
  tiny p = Some t → Q tt (set_tiny (Some (f t)) p) → wp C (on_tiny f) Q p.
Proof. intros Ht HQ. unfold on_tiny. wp_step. apply (wp_get_tiny t); [done|]. by apply wp_modify. Qed.

Lemma wp_driver_tiny t p (Q : tiny_serial → port → Prop) :
  driver_data p = true → tiny p = Some t → Q t p → wp C driver_tiny Q p.
Proof.
  intros Hd Ht HQ. unfold driver_tiny. wp_step. wp_step. rewrite Hd. by apply (wp_get_tiny t).
Qed.

Lemma wp_down t p (Q : unit → port → Prop) :
  tiny p = Some t → sem t = false → Q tt (set_tiny (Some (set_sem true t)) p) → wp C down Q p.
Proof.
  intros Ht Hs HQ. unfold down. wp_step. apply (wp_get_tiny t); [done|]. rewrite Hs.
  by apply (wp_on_tiny t).
Qed.

Lemma wp_up t p (Q : unit → port → Prop) :
  tiny p = Some t → sem t = true → Q tt (set_tiny (Some (set_sem false t)) p) → wp C up Q p.
Proof.
  intros Ht Hs HQ. unfold up. wp_step. apply (wp_get_tiny t); [done|]. rewrite Hs.
  by apply (wp_on_tiny t).
Qed.

Lemma wp_add_timer t p (Q : unit → port → Prop) :
  tiny p = Some t → timer t = Some false →
  Q tt (set_tiny (Some (set_timer (Some true) t)) p) → wp C add_timer Q p.
Proof.
  intros Ht Hs HQ. unfold add_timer. wp_step. apply (wp_get_tiny t); [done|]. wp_step.
  eapply wp_deref; [exact Hs|]. by apply (wp_on_tiny t).
Qed.

Lemma wp_del_timer t b p (Q : unit → port → Prop) :
  tiny p = Some t → timer t = Some b →
  Q tt (set_tiny (Some (set_timer (Some false) t)) p) → wp C del_timer Q p.
Proof.
  intros Ht Hs HQ. unfold del_timer. wp_step. apply (wp_get_tiny t); [done|]. wp_step.
  eapply wp_deref; [exact Hs|]. by apply (wp_on_tiny t).
Qed.

Lemma wp_garbage n p (Q : list Z → port → Prop) :
  (∀ l, length l = n → Q l p) → wp C (garbage n) Q p.
Proof.
  revert Q. induction n as [|n IH]; intros Q HQ; cbn [garbage]; [wp_step; by apply HQ|].
  do 3 wp_step. apply IH. intros l Hl. wp_step. apply HQ. cbn. lia.
Qed.

(** The structure is there after the first step of an open. *)
Lemma wp_create_tiny p (Q : bool → port → Prop) :
  (∀ m c ser ic, Q true (set_tiny (Some (Tiny 0 false None m c ser ic)) p)) →
  wp C create_tiny Q p.
Proof.
  intros HQ. unfold create_tiny. wp_step. wp_step. destruct H as [_ H].
  rewrite (proj2 (Z.eqb_neq _ _)) by done. do 5 wp_step. apply wp_garbage. intros ser _.
  wp_step. apply wp_garbage. intros ic _. wp_step. apply wp_modify. wp_step. apply HQ.
Qed.

Lemma wp_tiny_open p :
  wf p → users p + 1 < 2 ^ 31 →
  wp C tiny_open (λ r p', r = 0 ∧ wf p' ∧ users p' = users p + 1) p.
Proof.
  intros [Hu Hp] Hb. unfold tiny_open. do 2 (wp_step; apply wp_modify). wp_step. wp_step. wp_step.
  apply (wp_mono _ _ (λ ok p1, ok = true ∧ users p1 = users p + 1 ∧
    ∃ t, tiny p1 = Some t ∧ sem t = false ∧ open_count t = users p ∧
      (timer t = None ∧ users p = 0 ∨ timer t = Some (0 <? users p)))).
  { cbn. destruct (tiny p) as [t|] eqn:Et.
    - wp_step. split_and!; [done|done|]. exists t. destruct Hp as (_ & ? & ? & ?). split_and!; auto.
    - destruct Hp as [Hz _]. apply wp_create_tiny. intros. split_and!; [done|done|].
      eexists. split_and!; [done|done|done|]. auto. }
  intros ok p1 (-> & Hu1 & t & Et & Hs & Ho & Htm). cbn [negb].
  wp_step. apply (wp_down t); [done|done|]. wp_step. apply wp_modify. wp_step.
  eapply wp_on_tiny; [done|]. wp_step. eapply wp_get_tiny; [done|].
  cbn. rewrite Ho, s32_small by lia. wp_step.
  destruct (users p + 1 =? 1) eqn:E; zbool.
  - assert (users p = 0) as Hz by lia. wp_step.
    apply (wp_mono _ _ (λ ok p2, ok = true ∧ users p2 = 1 ∧ driver_data p2 = true ∧
      ∃ t, tiny p2 = Some t ∧ sem t = true ∧ open_count t = 1 ∧ timer t = Some false)).
    { destruct (timer t) as [b|] eqn:Eb.
      - wp_step. split_and!; [done|cbn; lia|done|]. eexists. split_and!; [done|done|cbn; lia|].
        cbn. destruct Htm as [[? ?]|Htm]; [congruence|]. rewrite Hz in Htm. cbn in Htm. congruence.
      - wp_step. wp_step. destruct H as [_ H]. rewrite (proj2 (Z.eqb_neq _ _)) by done.
        wp_step. eapply wp_on_tiny; [done|]. wp_step. split_and!; [done|cbn; lia|done|].
        eexists. split_and!; [done|done|cbn; lia|done]. }
    intros ok p2 (-> & Hu2 & Hd2 & t2 & Et2 & Hs2 & Ho2 & Htm2). cbn [negb].
    wp_step. eapply wp_add_timer; [done|done|]. wp_step. wp_step. eapply wp_up; [done|done|].
    wp_step. split_and!; [done| |cbn; lia]. split; [cbn; lia|]. cbn. split; [done|].
    rewrite Hu2. by split_and!.
  - wp_step. wp_step. eapply wp_up; [done|done|]. wp_step.
    split_and!; [done| |cbn; lia]. split; [cbn; lia|]. cbn. rewrite Hu1. split; [done|].
    split_and!; [done|done|]. cbn. destruct Htm as [[? ?]| ->]; [lia|].
    f_equal. destruct (Z.ltb_spec 0 (users p)), (Z.ltb_spec 0 (users p + 1)); lia || done.
Qed.

(** [do_close] takes one open back. *)
Lemma wp_do_close t n p (Q : unit → port → Prop) :
  tiny p = Some t → tiny_ok t n → 0 < n →
  (∀ t', tiny_ok t' (n - 1) → Q tt (set_tiny (Some t') p)) →
  wp C do_close Q p.
Proof.
  intros Et (Hs & Ho & Ht) Hn HQ. unfold do_close. wp_step. apply (wp_down t); [done|done|].
  wp_step. eapply wp_get_tiny; [done|]. cbn. rewrite Ho, (proj2 (Z.eqb_neq _ _)) by lia.
  wp_step. wp_step. eapply wp_on_tiny; [done|]. wp_step. eapply wp_get_tiny; [done|]. cbn.
  rewrite Ho. wp_step.
  - eapply wp_del_timer; [done|done|]. eapply wp_up; [done|done|]. apply HQ.
    split_and!; [done|done|]. cbn. f_equal. destruct (Z.ltb_spec 0 (n - 1)); lia || done.
  - wp_step. eapply wp_up; [done|done|]. apply HQ. split_and!; [done|done|].
    cbn. rewrite Ht. f_equal. destruct (Z.ltb_spec 0 n), (Z.ltb_spec 0 (n - 1)); lia || done.
Qed.

Lemma wp_tiny_close p :
  wf p → 0 < users p → wp C tiny_close (λ _ p', wf p' ∧ users p' = users p - 1) p.
Proof.
  intros [Hu Hp] Hn. unfold tiny_close. wp_step. apply wp_modify. wp_step. wp_step.
  cbn [driver_data set_users]. destruct (tiny p) as [t|] eqn:Et; [|destruct Hp; lia].
  destruct Hp as [Hd Ht]. rewrite Hd. eapply wp_do_close; [done|done|done|].
  intros t' Ht'. split; [|done]. split; [cbn; lia|]. cbn. by split.
Qed.

(** Between the lock and the release of the other entry points. *)
Lemma wp_tiny_timer t p :
  wf p → tiny p = Some t → timer t = Some true → wp C tiny_timer (λ _ p', wf p') p.
Proof.
  intros [Hu Hp] Et Htm. rewrite Et in Hp. destruct Hp as (Hd & Hs & Ho & Ht).
  unfold tiny_timer, tty_flip_buffer_push, tty_insert_flip_char.
  wp_step. eapply wp_on_tiny; [done|]. wp_step. wp_step. wp_step.
  apply (wp_mono _ _ (λ _ p1, users p1 = users p ∧ driver_data p1 = true ∧
    tiny p1 = Some (set_timer (Some false) t))).
  { wp_step; [by apply wp_modify|by wp_step]. }
  intros _ p1 (E1 & E2 & E3). do 2 (wp_step; apply wp_modify).
  eapply wp_add_timer; [done|done|]. split; [cbn; lia|]. cbn. rewrite E1. split; [done|].
  split_and!; [done|done|]. cbn. congruence.
Qed.
End rules.

(** * The driver as a state machine *)

Inductive op :=
| Open | Close | Write (buffer : list Z) | WriteRoom | Timer
| Tiocmget | Tiocmset (set clear : Z) | Ioctl (fuel : nat) (cmd arg : Z).

Definition handle (o : op) : K port Z :=
  match o with
  | Open => tiny_open
  | Close => kfmap (λ _, 0) tiny_close
  | Write buffer => tiny_write buffer
  | WriteRoom => tiny_write_room
  | Timer => kfmap (λ _, 0) tiny_timer
  | Tiocmget => tiny_tiocmget
  | Tiocmset set clear => tiny_tiocmset set clear
  | Ioctl fuel cmd arg => kfmap fst (tiny_ioctl fuel cmd arg)
  end.

(** The tty layer calls the others on an open tty only, and closes what it
    opened; the timer's function runs when the timer was pending. *)
Definition allowed (p : port) (o : op) : Prop :=
  match o with
  | Open => users p + 1 < 2 ^ 31
  | Timer => ∃ t, tiny p = Some t ∧ timer t = Some true
  | _ => 0 < users p
  end.

Section safety.
Let C := tty_contract.

(** An open tty. *)
Lemma wf_open p : wf p → 0 < users p →
  ∃ t, tiny p = Some t ∧ driver_data p = true ∧ tiny_ok t (users p).
Proof.
  intros [Hu Hp] Hn. destruct (tiny p) as [t|]; [|lia]. destruct Hp. by exists t.
Qed.

Lemma wf_tiny p t n : wf p → 0 < users p → n = users p → tiny_ok t n → wf (set_tiny (Some t) p).
Proof.
  intros Hp Hn -> Ht. destruct (wf_open p Hp Hn) as (_ & _ & Hd & _). destruct Hp as [Hu _].
  by split.
Qed.

Lemma wp_miwait_loop fuel arg cprev p :
  wf p → 0 < users p → wp C (miwait_loop fuel arg cprev) (λ _ p', wf p') p.
Proof.
  revert cprev p. induction fuel as [|fuel IH]; intros cprev p Hp Hn; cbn [miwait_loop].
  - by apply wp_sleep.
  - wp_step. wp_step. destruct (H Hp) as [Hp1 Hn1]. specialize (Hn1 Hn). wp_step. wp_step.
    wp_step; [by wp_step|]. wp_step. destruct (wf_open _ Hp1 Hn1) as (t & Et & Hd & _).
    eapply wp_driver_tiny; [done|done|]. cbv zeta. wp_step; [by wp_step|].
    wp_step; [by wp_step|]. by apply IH.
Qed.

Lemma tty_wp_handle p o : wf p → allowed p o → wp C (handle o) (λ _, wf) p.
Proof.
  intros Hp Ha. destruct o; cbn [handle].
  - eapply wp_mono; [by apply wp_tiny_open|]. by intros ? ? (_ & ? & _).
  - apply wp_kfmap. eapply wp_mono; [by apply wp_tiny_close|]. by intros ? ? [].
  - destruct (wf_open p Hp Ha) as (t & Et & Hd & Hs & Ho & Ht). unfold tiny_write.
    wp_step. wp_step. rewrite Hd. cbn [negb]. wp_step. eapply wp_down; [done|done|].
    wp_step. eapply wp_get_tiny; [done|]. cbn [open_count set_sem].
    rewrite (proj2 (Z.eqb_neq _ _)) by (cbn in Ha; lia).
    wp_step. apply wp_modify. wp_step. eapply wp_up; [done|done|]. wp_step.
    destruct Hp as [Hu _]. split; [done|]. cbn. by split_and!.
  - destruct (wf_open p Hp Ha) as (t & Et & Hd & Hs & Ho & Ht). unfold tiny_write_room.
    wp_step. wp_step. rewrite Hd. cbn [negb]. wp_step. eapply wp_down; [done|done|].
    wp_step. eapply wp_get_tiny; [done|]. cbv zeta. wp_step. eapply wp_up; [done|done|]. wp_step.
    destruct Hp as [Hu _]. split; [done|]. cbn. by split_and!.
  - apply wp_kfmap. destruct Ha as (t & Et & Ht). by eapply wp_tiny_timer.
  - destruct (wf_open p Hp Ha) as (t & Et & Hd & _). unfold tiny_tiocmget. wp_step.
    eapply wp_driver_tiny; [done|done|]. by wp_step.
  - destruct (wf_open p Hp Ha) as (t & Et & Hd & Ht). unfold tiny_tiocmset. wp_step.
    eapply wp_driver_tiny; [done|done|]. wp_step. eapply wp_on_tiny; [done|]. wp_step.
    by eapply wf_tiny.
  - apply wp_kfmap. destruct (wf_open p Hp Ha) as (t & Et & Hd & Ht). unfold tiny_ioctl.
    wp_step; [|wp_step; [|wp_step; [|by wp_step]]].
    + unfold tiny_ioctl_tiocgserial. wp_step. eapply wp_driver_tiny; [done|done|].
      wp_step; [by wp_step|]. wp_step. wp_step. wp_step; by wp_step.
    + unfold tiny_ioctl_tiocmiwait. wp_step. wp_step. eapply wp_driver_tiny; [done|done|].
      eapply wp_mono; [by apply wp_miwait_loop|]. intros ? ? ?. by wp_step.
    + unfold tiny_ioctl_tiocgicount. wp_step. eapply wp_driver_tiny; [done|done|].
      wp_step. wp_step. wp_step; by wp_step.
Qed.
End safety.

(** With memory for the structures, opens, closes, writes, ioctls and timers
    in any order the tty layer allows never fault, and the number of opens
    recorded is that of the ttys open, the timer running exactly while it is
    positive. *)
Theorem tiny_tty_faultless :
  faultless handle allowed tty_contract (λ p, p = Port None false [] [] [] 0) ∧
  ∀ p t, reachable handle allowed tty_contract (λ p, p = Port None false [] [] [] 0) p →
    tiny p = Some t → open_count t = users p ∧ timer t = Some (0 <? users p).
Proof.
  assert (inductive_inv handle allowed tty_contract (λ p, p = Port None false [] [] [] 0) wf) as Hinv.
  { split_and!.
    - intros p ->. split; cbn; [lia|done].
    - intros p o Hp Ha. by apply tty_wp_handle.
    - intros p p' Hp Hr. by apply Hr. }
  split; [by eapply inv_faultless|]. intros p t Hr Et.
  destruct (reachable_inv _ _ _ _ _ _ Hinv Hr) as [_ Hp]. rewrite Et in Hp.
  by destruct Hp as (_ & _ & ? & ?).
Qed.

(** Unloading closes what is open, stops the timer and frees the port. *)
Lemma wp_exit_port p fuel :
  wf p → users p <= Z.of_nat fuel →
  wp tty_contract (exit_port fuel) (λ _ p', tiny p' = None) p.
Proof.
  intros [Hu Hp] Hf. unfold exit_port. wp_step. wp_step.
  destruct (tiny p) as [t|] eqn:Et; [|by wp_step]. destruct Hp as [Hd Ht].
  wp_step. apply (wp_mono _ _ (λ _ p1, ∃ t b, tiny p1 = Some t ∧ timer t = Some b)).
  - clear Hd. revert Hu Hf Ht. generalize (users p). intros n Hn Hnf Ht. revert n t p Hn Hnf Et Ht.
    induction fuel as [|fuel IH]; intros n t p Hn Hnf Et Ht; cbn [close_all].
    + wp_step. eapply wp_get_tiny; [done|]. destruct (Ht) as (_ & -> & ?).
      rewrite (proj2 (Z.eqb_eq n 0)) by lia. wp_step. eauto.
    + wp_step. eapply wp_get_tiny; [done|]. destruct (Ht) as (_ & -> & ?).
      wp_step; [wp_step; eauto|]. wp_step. eapply (wp_do_close t n); [done|done|lia|].
      intros t' Ht'. apply (IH (n - 1) t'); [lia|lia|done|done].
  - intros _ p1 (t1 & b & E1 & E2). wp_step. eapply wp_del_timer; [done|done|]. by apply wp_modify.
Qed.

(** A mask of one bit tests it. *)
Lemma c_bool_bit x k : 0 <= k → c_bool (Z.land x (2 ^ k)) = Z.testbit x k.
Proof.
  intros Hk. unfold c_bool. destruct (Z.testbit x k) eqn:E.
  - apply negb_true_iff, Z.eqb_neq. intros H0. apply (f_equal (λ z, Z.testbit z k)) in H0.
    rewrite Z.land_spec, Z.pow2_bits_true, E, Z.bits_0 in H0 by done. done.
  - apply negb_false_iff, Z.eqb_eq, Z.bits_inj_0. intros n. rewrite Z.land_spec, Z.pow2_bits_eqb by done.
    destruct (Z.eqb_spec k n) as [->|]; [by rewrite E|apply andb_false_r].
Qed.

(** The bits of the new MCR. *)
Lemma mcr_update_bits set clear mcr :
  let asks m := c_bool (Z.land m TIOCM_RTS) || c_bool (Z.land m TIOCM_DTR) in
  Z.testbit (mcr_update set clear mcr) 1 = negb (asks clear) && (asks set || Z.testbit mcr 1) ∧
  Z.testbit (mcr_update set clear mcr) 0 = Z.testbit mcr 0.
Proof.
  cbv zeta. unfold mcr_update.
  destruct (c_bool (Z.land set TIOCM_RTS)), (c_bool (Z.land set TIOCM_DTR)),
    (c_bool (Z.land clear TIOCM_RTS)), (c_bool (Z.land clear TIOCM_DTR));
    rewrite ?Z.land_spec, ?Z.lor_spec; cbn; rewrite ?andb_true_r, ?andb_false_r, ?orb_true_r, ?orb_false_r;
    done.
Qed.

Lemma mcr_update_range set clear mcr : 0 <= mcr < 2 ^ 31 → 0 <= mcr_update set clear mcr < 2 ^ 31.
Proof.
  intros Hm. assert (∀ x, 0 <= x < 2 ^ 31 → 0 <= Z.lor x MCR_RTS < 2 ^ 31) as Hl.
  { intros x Hx. split; [apply Z.lor_nonneg; unfold MCR_RTS; lia|].
    destruct (decide (x = 0)) as [->|]; [done|]. apply Z.log2_lt_pow2; [|rewrite Z.log2_lor by (unfold MCR_RTS; lia)].
    - assert (0 <= Z.lor x MCR_RTS ∧ Z.lor x MCR_RTS ≠ 0) as []; [|lia].
      split; [apply Z.lor_nonneg; unfold MCR_RTS; lia|]. intros [? ?]%Z.lor_eq_0_iff. done.
    - apply Z.max_lub_lt; [apply Z.log2_lt_pow2; lia|done]. }
  assert (∀ x, 0 <= x < 2 ^ 31 → 0 <= Z.land x (u32 (Z.lnot MCR_RTS)) < 2 ^ 31) as Hc.
  { intros x Hx. split; [apply Z.land_nonneg; lia|].
    destruct (decide (Z.land x (u32 (Z.lnot MCR_RTS)) = 0)) as [->|]; [done|].
    assert (0 <= Z.land x (u32 (Z.lnot MCR_RTS))) by (apply Z.land_nonneg; lia).
    apply Z.log2_lt_pow2; [lia|]. eapply Z.le_lt_trans; [apply Z.log2_land; [lia|done]|].
    eapply Z.le_lt_trans; [apply Z.le_min_l|]. destruct (decide (x = 0)) as [->|]; [done|].
    apply Z.log2_lt_pow2; lia. }
  unfold mcr_update. repeat case_match; auto.
Qed.

(** What [tiny_tiocmset] does to the modem lines [tiny_tiocmget] reports:
    RTS is set or cleared, clearing taking precedence, when the caller names RTS
    or DTR; the DTR line itself never changes. *)
Theorem tiny_tiocmset_get set clear p t :
  driver_data p = true → tiny p = Some t → 0 <= mcr t < 2 ^ 31 → 0 <= msr t < 2 ^ 31 →
  wp tty_contract (tiny_tiocmset set clear;; tiny_tiocmget) (λ r _,
    let asks m := c_bool (Z.land m TIOCM_RTS) || c_bool (Z.land m TIOCM_DTR) in
    Z.testbit r 2 = negb (asks clear) && (asks set || Z.testbit (mcr t) 1) ∧
    Z.testbit r 1 = Z.testbit (mcr t) 0) p.
Proof.
  intros Hd Et Hm Hms. unfold tiny_tiocmset, tiny_tiocmget. wp_step. wp_step.
  eapply wp_driver_tiny; [done|done|]. wp_step. eapply wp_on_tiny; [done|]. wp_step. wp_step.
  eapply wp_driver_tiny; [done|done|]. cbv zeta. wp_step. cbn [mcr msr set_mcr].
  pose proof (mcr_update_range set clear (mcr t) Hm) as Hr.
  rewrite (u32_small (mcr t)) by lia. rewrite (s32_small (mcr_update set clear (mcr t))) by lia.
  rewrite (u32_small (mcr_update set clear (mcr t))) by lia.
  destruct (mcr_update_bits set clear (mcr t)) as [<- <-].
  set (m := mcr_update set clear (mcr t)). unfold line.
  change MCR_DTR with (2 ^ 0). change MCR_RTS with (2 ^ 1). rewrite !(c_bool_bit m) by lia.
  destruct (Z.testbit m 0), (Z.testbit m 1);
    repeat (match goal with |- context [c_bool ?x] => destruct (c_bool x) end); split; reflexivity.
Qed.

(** A write logs the bytes and then always answers an error, so that its
    caller takes none of them for written. *)
Theorem tiny_write_refuses buffer p t :
  driver_data p = true → tiny p = Some t → sem t = false →
  wp tty_contract (tiny_write buffer) (λ r p', r = - EINVAL ∧
    log p' = if open_count t =? 0 then log p else buffer :: log p) p.
Proof.
  intros Hd Et Hs. unfold tiny_write. wp_step. wp_step. rewrite Hd. cbn [negb].
  wp_step. eapply wp_down; [done|done|]. wp_step. eapply wp_get_tiny; [done|].
  cbn [open_count set_sem]. wp_step. wp_step.
  - wp_step. wp_step. eapply wp_up; [done|done|]. by wp_step.
  - apply wp_modify. wp_step. eapply wp_up; [done|done|]. by wp_step.
Qed.

(** An open that fails for want of memory for the timer leaves the count at one;
    the close that follows it dereferences the missing timer. *)
Lemma tiny_failed_open_oops :
  run (Oracle (λ c _, match c with kmalloc 1 => 1 | _ => 0 end) (λ _ _, 0) (λ _ p, p))
    (tiny_open;; tiny_close) (Port None false [] [] [] 0) = Oops NullDeref.
Proof. vm_compute. reflexivity. Qed.

(** Reading [/proc] from the start lists the ports in use. *)
Lemma tiny_read_proc_lists :
  tiny_read_proc [true; false; true; false] 0 100 =
    (32, true, proc_header ++ fmt_i 0 ++ [10] ++ fmt_i 2 ++ [10]).
Proof. vm_compute. reflexivity. Qed.

(** ** Witnesses *)

Definition tiny1 : tiny_serial := Tiny 1 false (Some true) 0 1 (replicate 9 0) (replicate 11 0).
Definition port1 : port := Port (Some tiny1) true [] [] [] 1.

Lemma tiny_tiocmset_get_witness :
  wp tty_contract (tiny_tiocmset TIOCM_DTR 0;; tiny_tiocmget)
    (λ r _, Z.testbit r 2 = true ∧ Z.testbit r 1 = true) port1.
Proof.
  eapply wp_mono; [apply (tiny_tiocmset_get TIOCM_DTR 0 port1 tiny1); cbn; lia || done|].
  intros r p' [H1 H2]. by rewrite H1, H2.
Defined.

Lemma tiny_write_refuses_witness :
  wp tty_contract (tiny_write [104; 105]) (λ r p', r = - EINVAL ∧ log p' = [[104; 105]]) port1.
Proof. by apply (tiny_write_refuses [104; 105] port1 tiny1). Defined.
