(* ===== verification/TinyModule.v ===== *)
(** * tiny_tty: loading and unloading (src/ldd4/tty/tiny_tty.c)

    The ttys of the driver, the structure of the driver, which
    [alloc_tty_driver] creates and [put_tty_driver] frees, and what is
    registered with the tty layer. *)

From stdpp Require Import base tactics numbers list strings.
From S2P Require Import Prelude KMonad Registry TinyTty.
From Stdlib Require Import ZArith Lia.

Open Scope Z_scope.

(** ** Data *)

Record tiny_mod := TinyMod { tiny_table : list port; tiny_regs : registry }.

Definition set_tiny_table (v : list port) (x : tiny_mod) : tiny_mod := TinyMod v (tiny_regs x).
Definition set_tiny_regs (v : registry) (x : tiny_mod) : tiny_mod := TinyMod (tiny_table x) v.

#[export] Instance tiny_mod_registry : HasRegistry tiny_mod :=
  { registry_of := tiny_regs; set_registry := set_tiny_regs; registry_set g s := eq_refl }.

#[export] Instance tiny_mod_table : HasTable tiny_mod port.
Proof. refine {| table_of s := Some (tiny_table s); set_table := set_tiny_table |}; try done.
  by intros l [] [= ->]. Defined.

Definition tty_struct : resource := Res "tty_driver" 0.
Definition tty_registered : resource := Res "tty_register_driver" 0.
Definition tty_device (i : nat) : resource := Res "tty_register_device" (Z.of_nat i).

(** ** Loading *)

(** Whether a device could be registered is not looked at. *)
Definition tiny_init : K tiny_mod Z :=
  z ← acquire_ptr "alloc_tty_driver" tty_struct;
  if z =? 0 then mret (- ENOMEM) else
  retval ← acquire "tty_register_driver" tty_registered;
  if c_bool retval then
    give_back tty_struct;;
    mret retval
  else
    for_each TINY_TTY_MINORS 0 (λ i, hold (tty_device i));;
    mret retval.

(** ** Unloading *)

(** The end of [tiny_exit] for one entry of the table. *)
Definition exit_entry (fuel i : nat) : K tiny_mod unit := at_entry i (exit_port fuel).

Definition tiny_exit (fuel : nat) : K tiny_mod unit :=
  for_each TINY_TTY_MINORS 0 (λ i, give_back (tty_device i));;
  give_back tty_registered;;
  for_each TINY_TTY_MINORS 0 (exit_entry fuel).

(** ** Specification *)

Definition tiny_loaded : tiny_mod := TinyMod (replicate 4 (Port None false [] [] [] 0)) empty_registry.

Definition tty_devices (i : nat) : list resource := tty_device <$> seq i (TINY_TTY_MINORS - i).

(** The state between loading and unloading: the ttys are consistent, none with
    more than [n] opens. *)
Record tiny_ready (n : nat) (s : tiny_mod) : Prop := {
  tr_len : length (tiny_table s) = TINY_TTY_MINORS;
  tr_ports : Forall (λ p, wf p ∧ users p <= Z.of_nat n) (tiny_table s);
  tr_regs : owned (tty_registered :: tty_struct :: tty_devices 0) s
}.

(** Memory and the tty layer as documented; while the module is loaded its ttys
    are used, [n] times at once at most. *)
Record tiny_contract (C : contract tiny_mod) (n : nat) : Prop := {
  tm_ans : ∀ c z, c_ans C c z → doc_ans c z ∧ match c with kmalloc _ => z ≠ 0 | _ => True end;
  tm_reg : ∀ z, c_ans C (kint "tty_register_driver") z → z <= 0;
  tm_used : ∀ s s', c_rely C s s' → tiny_ready n s → tiny_ready n s';
  tm_sleep : c_sleep C
}.

Section rules.
Context (C : contract tiny_mod) (n : nat) (HC : tiny_contract C n).
Implicit Types (s : tiny_mod) (L : list resource).

Lemma wp_hold_devices L s (Q : unit → tiny_mod → Prop) :
  owned L s →
  (∀ g, owned (tty_devices 0 ++ L) (set_tiny_regs g s) → Q tt (set_tiny_regs g s)) →
  wp C (for_each TINY_TTY_MINORS 0 (λ i, hold (tty_device i))) Q s.
Proof.
  intros HL HQ. apply (wp_for_each _ _ _ _ (λ j s', ∃ g, s' = set_tiny_regs g s ∧
    owned ((tty_device <$> seq 0 j) ++ L) s')).
  - exists (tiny_regs s). split; [by destruct s|done].
  - intros j s1 _ (g & -> & Ho). apply wp_hold. eexists. split; [done|].
    eapply owned_perm, (owned_add (tty_device j)), Ho. rewrite seq_S, fmap_app. cbn.
    rewrite <-app_assoc. apply Permutation_middle.
  - intros s1 (g & -> & Ho). by apply HQ.
Qed.

Lemma wp_drop_devices L s (Q : unit → tiny_mod → Prop) :
  owned (tty_devices 0 ++ L) s →
  (∀ g, owned L (set_tiny_regs g s) → Q tt (set_tiny_regs g s)) →
  wp C (for_each TINY_TTY_MINORS 0 (λ i, give_back (tty_device i))) Q s.
Proof.
  intros HL HQ. apply (wp_for_each _ _ _ _ (λ j s', ∃ g, s' = set_tiny_regs g s ∧
    owned (tty_devices j ++ L) s')).
  - exists (tiny_regs s). split; [by destruct s|done].
  - intros j s1 Hj (g & -> & Ho). apply wp_give_back. eexists. split; [done|].
    apply (owned_del (tty_device j)). unfold tty_devices in *.
    by replace (TINY_TTY_MINORS - j)%nat with (S (TINY_TTY_MINORS - S j)) in Ho by lia.
  - intros s1 (g & -> & Ho). by apply HQ.
Qed.

Lemma wp_exit_entries s (Q : unit → tiny_mod → Prop) :
  length (tiny_table s) = TINY_TTY_MINORS →
  Forall (λ p, wf p ∧ users p <= Z.of_nat n) (tiny_table s) →
  (∀ t, Forall (λ p, tiny p = None) t → Q tt (set_tiny_table t s)) →
  wp C (for_each TINY_TTY_MINORS 0 (exit_entry n)) Q s.
Proof.
  intros Hlen Hall HQ. rewrite <-Hlen.
  eapply (wp_for_entries C (λ _, exit_port n)); [done|exact Hall| |by intros; apply HQ].
  intros _ p [Hw Hu]. apply (wp_weaken tty_contract).
  - intros c z Hz. by apply (tm_ans _ _ HC).
  - by intros ? ? <-.
  - intros _. apply (tm_sleep _ _ HC).
  - by apply wp_exit_port.
Qed.
End rules.

(** ** Properties *)

(** Loading the driver, using its ttys, at most [n] opens of one at once,
    and unloading it: every port is closed and freed and all that was registered
    is given back, except that the structure of the driver stays allocated; a
    load that fails keeps nothing. *)
Theorem tiny_module_unloads C n :
  tiny_contract C n →
  wp C (r ← tiny_init; if r =? 0 then interfere;; tiny_exit n;; mret r else mret r)
    (λ r s, if r =? 0 then Forall (λ p, tiny p = None) (tiny_table s) ∧ owned [tty_struct] s
            else tiny_table s = tiny_table tiny_loaded ∧ owned [] s) tiny_loaded.
Proof.
  intros HC. wp_step. unfold tiny_init. wp_step. apply wp_acquire_ptr.
  { change (0 =? 0) with true. cbn iota. wp_step. change (- ENOMEM =? 0) with false. cbn iota.
    by wp_step. }
  intros z _ Hz. rewrite (proj2 (Z.eqb_neq z 0)) by done. wp_step.
  apply wp_acquire.
  2:{ intros r Hr Hr0. apply (tm_reg _ _ HC) in Hr. unfold c_bool.
      rewrite (proj2 (Z.eqb_neq r 0)) by done. cbn [negb]. wp_step. apply wp_give_back. wp_step.
      rewrite (proj2 (Z.eqb_neq r 0)) by done. wp_step. by rewrite (proj2 (Z.eqb_neq r 0)). }
  change (c_bool 0) with false. cbn iota. wp_step.
  apply (wp_hold_devices C [tty_registered; tty_struct]); [done|]. intros g Hg.
  wp_step. change (0 =? 0) with true. cbn iota. wp_step. wp_step. rename H into Hrely.
  apply (tm_used _ _ HC) in Hrely; [|split; [done|apply Forall_replicate; repeat split; cbn; lia|]].
  2:{ eapply owned_perm, Hg. by rewrite Permutation_app_comm. }
  destruct Hrely as [Hlen Hall Ho]. wp_step. unfold tiny_exit. wp_step.
  apply (wp_drop_devices C [tty_registered; tty_struct]).
  { eapply owned_perm, Ho. by rewrite Permutation_app_comm. }
  intros g1 H1. wp_step. apply wp_give_back. apply (wp_exit_entries C n HC); [done..|].
  intros t Ht. wp_step. change (0 =? 0) with true. cbn iota. split; [done|].
  exact (owned_del tty_registered [tty_struct] _ H1).
Qed.

Definition tiny_kernel (n : nat) : contract tiny_mod :=
  Contract (λ c z, (doc_ans c z ∧ match c with kmalloc _ => z ≠ 0 | _ => True end) ∧
    (c = kint "tty_register_driver" → z <= 0)) (λ s s', tiny_ready n s → tiny_ready n s') True.

Lemma tiny_kernel_ok n : tiny_contract (tiny_kernel n) n.
Proof. split; [by intros c z []| |done|done]. intros z [_ H]. by apply H. Qed.

Lemma tiny_module_unloads_witness :
  wp (tiny_kernel 3) (r ← tiny_init; if r =? 0 then interfere;; tiny_exit 3;; mret r else mret r)
    (λ r s, if r =? 0 then Forall (λ p, tiny p = None) (tiny_table s) ∧ owned [tty_struct] s
            else tiny_table s = tiny_table tiny_loaded ∧ owned [] s) tiny_loaded.
Proof. apply (tiny_module_unloads (tiny_kernel 3) 3), tiny_kernel_ok. Defined.
