(* ===== verification/TinySerial.v ===== *)
(** * tiny_serial: a serial port without hardware (src/ldd4/tty/tiny_serial.c)

    The serial core owns the port and its transmit ring; the driver's timer
    takes characters from the ring, as many as half its FIFO, and inserts one
    for the user to read. [timer] is shared by all the driver. What was sent is
    kept in [wrote], what the tty layer was given in [flip]. *)

From stdpp Require Import base tactics numbers list strings.
From S2P Require Import Prelude Ring KMonad Registry TinyTty.
From Stdlib Require Import ZArith Lia.

Open Scope Z_scope.

(** ** Data *)

Definition UART_XMIT_SIZE : Z := 4096.
Definition WAKEUP_CHARS : Z := 256.

(** [struct uart_port] and its [info], the fields the driver touches; [has_tty]
    tells whether [port->info->tty] is there; [tx_stopped] is
    [uart_tx_stopped(port)]. *)
Record uart_port := Uart {
  has_tty : bool;
  xbuf : list cell;
  xhead : Z;
  xtail : Z;
  x_char : Z;
  tx_stopped : bool;
  fifosize : Z;
  icount_tx : Z;
  utimer : option bool;
  wrote : list cell;
  uflip : list Z;
  uwakes : Z;
  uregs : registry
}.

Definition set_has_tty (v : bool) (x : uart_port) : uart_port :=
  Uart v (xbuf x) (xhead x) (xtail x) (x_char x) (tx_stopped x) (fifosize x) (icount_tx x)
    (utimer x) (wrote x) (uflip x) (uwakes x) (uregs x).
Definition set_xbuf (v : list cell) (x : uart_port) : uart_port :=
  Uart (has_tty x) v (xhead x) (xtail x) (x_char x) (tx_stopped x) (fifosize x) (icount_tx x)
    (utimer x) (wrote x) (uflip x) (uwakes x) (uregs x).
Definition set_xhead (v : Z) (x : uart_port) : uart_port :=
  Uart (has_tty x) (xbuf x) v (xtail x) (x_char x) (tx_stopped x) (fifosize x) (icount_tx x)
    (utimer x) (wrote x) (uflip x) (uwakes x) (uregs x).
Definition set_xtail (v : Z) (x : uart_port) : uart_port :=
  Uart (has_tty x) (xbuf x) (xhead x) v (x_char x) (tx_stopped x) (fifosize x) (icount_tx x)
    (utimer x) (wrote x) (uflip x) (uwakes x) (uregs x).
Definition set_x_char (v : Z) (x : uart_port) : uart_port :=
  Uart (has_tty x) (xbuf x) (xhead x) (xtail x) v (tx_stopped x) (fifosize x) (icount_tx x)
    (utimer x) (wrote x) (uflip x) (uwakes x) (uregs x).
Definition set_tx_stopped (v : bool) (x : uart_port) : uart_port :=
  Uart (has_tty x) (xbuf x) (xhead x) (xtail x) (x_char x) v (fifosize x) (icount_tx x)
    (utimer x) (wrote x) (uflip x) (uwakes x) (uregs x).
Definition set_fifosize (v : Z) (x : uart_port) : uart_port :=
  Uart (has_tty x) (xbuf x) (xhead x) (xtail x) (x_char x) (tx_stopped x) v (icount_tx x)
    (utimer x) (wrote x) (uflip x) (uwakes x) (uregs x).
Definition set_icount_tx (v : Z) (x : uart_port) : uart_port :=
  Uart (has_tty x) (xbuf x) (xhead x) (xtail x) (x_char x) (tx_stopped x) (fifosize x) v
    (utimer x) (wrote x) (uflip x) (uwakes x) (uregs x).
Definition set_utimer (v : option bool) (x : uart_port) : uart_port :=
  Uart (has_tty x) (xbuf x) (xhead x) (xtail x) (x_char x) (tx_stopped x) (fifosize x)
    (icount_tx x) v (wrote x) (uflip x) (uwakes x) (uregs x).
Definition set_wrote (v : list cell) (x : uart_port) : uart_port :=
  Uart (has_tty x) (xbuf x) (xhead x) (xtail x) (x_char x) (tx_stopped x) (fifosize x)
    (icount_tx x) (utimer x) v (uflip x) (uwakes x) (uregs x).
Definition set_uflip (v : list Z) (x : uart_port) : uart_port :=
  Uart (has_tty x) (xbuf x) (xhead x) (xtail x) (x_char x) (tx_stopped x) (fifosize x)
    (icount_tx x) (utimer x) (wrote x) v (uwakes x) (uregs x).
Definition set_uwakes (v : Z) (x : uart_port) : uart_port :=
  Uart (has_tty x) (xbuf x) (xhead x) (xtail x) (x_char x) (tx_stopped x) (fifosize x)
    (icount_tx x) (utimer x) (wrote x) (uflip x) v (uregs x).
Definition set_uregs (v : registry) (x : uart_port) : uart_port :=
  Uart (has_tty x) (xbuf x) (xhead x) (xtail x) (x_char x) (tx_stopped x) (fifosize x)
    (icount_tx x) (utimer x) (wrote x) (uflip x) (uwakes x) v.

#[export] Instance uart_registry : HasRegistry uart_port :=
  { registry_of := uregs; set_registry := set_uregs; registry_set g s := eq_refl }.

(** [uart_circ_empty] and [uart_circ_chars_pending]. *)
Definition circ_empty (p : uart_port) : bool := xhead p =? xtail p.
Definition circ_pending (p : uart_port) : Z := Z.land (xhead p - xtail p) (UART_XMIT_SIZE - 1).

(** ** Transmission *)

Definition tiny_stop_tx : K uart_port unit := mret tt.
Definition tiny_stop_rx : K uart_port unit := mret tt.
Definition tiny_enable_ms : K uart_port unit := mret tt.
Definition tiny_start_tx : K uart_port unit := mret tt.

Definition count_tx : K uart_port unit := modify (λ p, set_icount_tx (u32 (icount_tx p + 1)) p).

(** [do { ... } while (--count > 0);]; the ring empties within a turn of it. *)
Fixpoint tx_loop (fuel : nat) (count : Z) : K uart_port unit :=
  match fuel with
  | O => sleep_forever
  | S fuel' =>
      p ← get;
      c ← deref OutOfBounds (lookupZ (xbuf p) (xtail p));
      modify (λ p, set_wrote (wrote p ++ [c]) p);;
      modify (λ p, set_xtail (Z.land (xtail p + 1) (UART_XMIT_SIZE - 1)) p);;
      count_tx;;
      p ← get;
      if circ_empty p then mret tt else
      if count - 1 >? 0 then tx_loop fuel' (count - 1) else mret tt
  end.

Definition tiny_tx_chars : K uart_port unit :=
  p ← get;
  if c_bool (x_char p) then
    modify (λ p, set_wrote (wrote p ++ [Some (x_char p)]) p);;
    count_tx;;
    modify (set_x_char 0)
  else
  if circ_empty p || tx_stopped p then tiny_stop_tx else
  tx_loop (Z.to_nat UART_XMIT_SIZE) (Z.shiftr (fifosize p) 1);;
  p ← get;
  (if circ_pending p <? WAKEUP_CHARS then modify (λ p, set_uwakes (uwakes p + 1) p) else mret tt);;
  p ← get;
  if circ_empty p then tiny_stop_tx else mret tt.

(** ** The timer, startup and shutdown *)

Definition add_timer : K uart_port unit :=
  p ← get;
  b ← deref NullDeref (utimer p);
  if b : bool then oops BugOn else modify (set_utimer (Some true)).

(** The timer is no longer pending when its function runs. *)
Definition tiny_timer : K uart_port unit :=
  modify (set_utimer (Some false));;
  p ← get;
  if negb (has_tty p) then mret tt else
  modify (λ p, set_uflip (uflip p ++ [TINY_DATA_CHARACTER]) p);;
  add_timer;;
  tiny_tx_chars.

Definition tiny_startup : K uart_port Z :=
  p ← get;
  ok ← (match utimer p with
        | Some _ => mret true
        | None =>
            z ← call (kmalloc 1);
            if z =? 0 then mret false else modify (set_utimer (Some false));; mret true
        end);
  if negb ok then mret (- ENOMEM) else
  add_timer;;
  mret 0.

Definition tiny_shutdown : K uart_port unit :=
  p ← get;
  deref NullDeref (utimer p);;
  modify (set_utimer (Some false)).

Definition tiny_tx_empty : K uart_port Z := mret 0.
Definition tiny_get_mctrl : K uart_port Z := mret 0.
Definition tiny_set_mctrl (mctrl : Z) : K uart_port unit := mret tt.
Definition tiny_break_ctl (break_state : Z) : K uart_port unit := mret tt.
Definition tiny_request_port : K uart_port Z := mret 0.
Definition tiny_release_port : K uart_port unit := mret tt.
Definition tiny_verify_port : K uart_port Z := mret 0.
Definition tiny_type : string := "tinytty".

(** The settings found, without software flow control. *)
Definition tiny_set_termios (cflag : Z) : settings := decode cflag 0.

(** ** The module *)

Definition uart_driver : resource := Res "uart driver" 0.
Definition uart_line : resource := Res "uart port" 0.

Definition tiny_init : K uart_port Z :=
  result ← acquire "uart_register_driver"%string uart_driver;
  if negb (result =? 0) then mret result else
  result ← acquire "uart_add_one_port"%string uart_line;
  (if negb (result =? 0) then give_back uart_driver else mret tt);;
  mret result.

(** * Correctness *)

(** The indices are in the ring; [open] tells whether the port is started up. *)
Record wf (open : bool) (p : uart_port) : Prop := {
  wf_buf : lenZ (xbuf p) = UART_XMIT_SIZE;
  wf_head : 0 <= xhead p < UART_XMIT_SIZE;
  wf_tail : 0 <= xtail p < UART_XMIT_SIZE;
  wf_timer : if open then utimer p = Some true else utimer p ≠ Some true
}.

Lemma land_wrap i : 0 <= i < UART_XMIT_SIZE → Z.land (i + 1) (UART_XMIT_SIZE - 1) = wrap UART_XMIT_SIZE (i + 1).
Proof.
  unfold UART_XMIT_SIZE, wrap. intros Hi. change (4096 - 1) with (Z.ones 12).
  rewrite Z.land_ones by lia. change (2 ^ 12) with 4096. case_match; zbool; [by rewrite H|].
  apply Z.mod_small. lia.
Qed.

(** What is waiting to be sent. *)
Definition waiting (p : uart_port) : list cell := ring (xbuf p) (xtail p) (xhead p).

(** Taking [n] characters from the ring. *)
Record took (n : Z) (p p' : uart_port) : Prop := {
  tk_wrote : ∃ l, waiting p = l ++ waiting p' ∧ wrote p' = wrote p ++ l ∧ lenZ l = n;
  tk_rest : xbuf p' = xbuf p ∧ xhead p' = xhead p ∧ utimer p' = utimer p ∧
    fifosize p' = fifosize p ∧ has_tty p' = has_tty p;
  tk_tail : 0 <= xtail p' < UART_XMIT_SIZE
}.

Lemma length_waiting p : lenZ (xbuf p) = UART_XMIT_SIZE → 0 <= xhead p < UART_XMIT_SIZE →
  0 <= xtail p < UART_XMIT_SIZE →
  lenZ (waiting p) = (xhead p - xtail p) mod UART_XMIT_SIZE.
Proof.
  unfold waiting, UART_XMIT_SIZE. intros Hb Hh Ht. rewrite length_ring by lia. rewrite Hb. case_match; zbool.
  - rewrite Z.mod_small; lia.
  - replace (xhead p - xtail p) with (xhead p - xtail p + 4096 + (-1) * 4096) by lia.
    rewrite Z.mod_add, Z.mod_small by lia. lia.
Qed.

Section rules.
Context (C : contract uart_port).

Lemma wp_tx_loop fuel count p (Q : unit → uart_port → Prop) :
  lenZ (xbuf p) = UART_XMIT_SIZE → 0 <= xhead p < UART_XMIT_SIZE → 0 <= xtail p < UART_XMIT_SIZE →
  xhead p ≠ xtail p → lenZ (waiting p) <= Z.of_nat fuel →
  (∀ p', took (Z.min (lenZ (waiting p)) (Z.max 1 count)) p p' → uwakes p' = uwakes p → Q tt p') →
  wp C (tx_loop fuel count) Q p.
Proof.
  revert count p. induction fuel as [|fuel IH]; intros count p Hb Hh Ht Hne Hf HQ.
  { unfold waiting in Hf. rewrite length_ring in Hf by lia. revert Hf. case_match; zbool; lia. }
  cbn [tx_loop]. wp_step. wp_step. wp_step.
  destruct (proj2 (lookupZ_is_Some (xbuf p) (xtail p)) ltac:(lia)) as [c Hc].
  eapply wp_deref; [exact Hc|]. do 2 (wp_step; apply wp_modify). unfold count_tx.
  wp_step. apply wp_modify. set (p1 := set_icount_tx _ _).
  assert (xtail p1 = wrap UART_XMIT_SIZE (xtail p + 1)) as Et by (cbn; by rewrite land_wrap).
  assert (0 <= xtail p1 < UART_XMIT_SIZE) as Ht1.
  { rewrite Et. unfold wrap, UART_XMIT_SIZE in *. case_match; zbool; lia. }
  assert (waiting p = [c] ++ waiting p1) as Hw.
  { unfold waiting. rewrite Et. change (xbuf p1) with (xbuf p). change (xhead p1) with (xhead p).
    rewrite <-Hb, (ring_pop _ (xtail p) (xhead p) 1); rewrite ?Hb; try lia.
    - f_equal. apply lookupZ_Some in Hc as [_ Hc]. unfold slice. change (Z.to_nat 1) with 1%nat.
      by rewrite (drop_S _ _ _ Hc).
    - unfold ring_avail. case_match; zbool; lia. }
  assert (wrote p1 = wrote p ++ [c]) as Hwr by done.
  assert (took 1 p p1) as Htk by (split; [exists [c]; by split_and!|by split_and!|done]).
  wp_step. wp_step. unfold circ_empty. wp_step.
  - wp_step. apply HQ; [|done]. assert (waiting p1 = []) as E.
    { unfold waiting. change (xhead p1) with (xhead p) in *. replace (xhead p) with (xtail p1) by done.
      apply ring_empty. }
    rewrite Hw, E. cbn [length app]. by replace (Z.min _ (Z.max 1 count)) with 1 by lia.
  - assert (lenZ (waiting p) = 1 + lenZ (waiting p1)) as Hlen by (rewrite Hw; cbn; lia).
    assert (0 < lenZ (waiting p1)).
    { unfold waiting. change (xhead p1) with (xhead p) in *. change (xbuf p1) with (xbuf p).
      rewrite length_ring by (rewrite ?Hb; done). rewrite Hb. unfold UART_XMIT_SIZE in *. case_match; zbool; lia. }
    wp_step.
    + apply IH; try done; [lia|]. intros p2 [(l & E1 & E2 & E3) ? ?] Eu. apply HQ; [|by rewrite Eu]. split; [|done|done].
      exists (c :: l). split_and!; [by rewrite Hw, E1|by rewrite E2, Hwr, <-app_assoc|].
      rewrite Hlen. cbn [length]. lia.
    + wp_step. apply HQ; [|done]. by replace (Z.min _ _) with 1 by lia.
Qed.
End rules.

(** When the port is not stopped and there is no urgent character, a run of
    the transmitter sends the oldest characters of the ring in order, one at
    least and at most half the FIFO, and wakes writers when fewer than 256 are
    left. *)
Theorem tiny_tx_chars_sends p :
  wf true p → x_char p = 0 → tx_stopped p = false → waiting p ≠ [] →
  wp (documented (S:=uart_port) alone False) tiny_tx_chars (λ _ p',
    took (Z.min (lenZ (waiting p)) (Z.max 1 (Z.shiftr (fifosize p) 1))) p p' ∧
    uwakes p' = uwakes p + (if lenZ (waiting p') <? WAKEUP_CHARS then 1 else 0)) p.
Proof.
  intros [Hb Hh Ht _] Hx Hs Hw. unfold tiny_tx_chars. wp_step. wp_step. rewrite Hx, Hs.
  cbn [c_bool Z.eqb negb]. unfold circ_empty at 1.
  assert (xhead p ≠ xtail p) as Hne.
  { intros E. apply Hw. unfold waiting. rewrite E. apply ring_empty. }
  rewrite (proj2 (Z.eqb_neq _ _)) by done. cbn [orb]. wp_step.
  apply wp_tx_loop; try done.
  { rewrite (length_waiting p) by done. unfold UART_XMIT_SIZE.
    pose proof (Z.mod_pos_bound (xhead p - xtail p) 4096). lia. }
  intros p1 Htk Eu. pose proof (tk_rest _ _ _ Htk) as (E1 & E2 & _).
  assert (circ_pending p1 = lenZ (waiting p1)) as Hp.
  { unfold circ_pending. rewrite (length_waiting p1) by (rewrite ?E1, ?E2; apply Htk || done).
    unfold UART_XMIT_SIZE. change (4096 - 1) with (Z.ones 12). by rewrite Z.land_ones. }
  wp_step. wp_step. wp_step. rewrite Hp.
  apply (wp_mono _ _ (λ _ p2, took (Z.min (lenZ (waiting p)) (Z.max 1 (Z.shiftr (fifosize p) 1))) p p2 ∧
    uwakes p2 = uwakes p + (if lenZ (waiting p2) <? WAKEUP_CHARS then 1 else 0))).
  - wp_step; [apply wp_modify|wp_step].
    + split.
      * destruct Htk as [H1 H2 H3]. split; [exact H1|exact H2|exact H3].
      * change (waiting (set_uwakes _ p1)) with (waiting p1). rewrite (proj2 (Z.ltb_lt _ _)) by done.
        cbn. by rewrite Eu.
    + split; [done|]. rewrite (proj2 (Z.ltb_ge _ _)) by done. rewrite Eu. lia.
  - intros _ p2 Hp2. wp_step. wp_step. wp_step; unfold tiny_stop_tx; by wp_step.
Qed.

(** Starting a port up arms the timer or fails for want of memory, and shutting
    it down disarms it. *)
Lemma wp_tiny_startup p :
  wf false p → wp (documented (S:=uart_port) alone False) tiny_startup
    (λ r p', (r = 0 ∧ wf true p') ∨ (r = - ENOMEM ∧ p' = p)) p.
Proof.
  intros [Hb Hh Ht Htm]. unfold tiny_startup, add_timer. wp_step. wp_step. wp_step.
  destruct (utimer p) as [b|] eqn:E.
  - wp_step. cbn [negb]. wp_step. wp_step. wp_step. wp_step. eapply wp_deref; [exact E|].
    destruct b; [done|]. apply wp_modify. wp_step. left. by split_and!.
  - wp_step. wp_step. wp_step; [wp_step; cbn [negb]; wp_step; auto|].
    wp_step. apply wp_modify. wp_step. cbn [negb]. wp_step. wp_step. wp_step. wp_step.
    eapply wp_deref; [done|]. apply wp_modify. wp_step. left. by split_and!.
Qed.

Lemma wp_tiny_shutdown p :
  wf true p → wp (documented (S:=uart_port) alone False) tiny_shutdown (λ _ p', wf false p') p.
Proof.
  intros [Hb Hh Ht Htm]. unfold tiny_shutdown. do 3 wp_step. eapply wp_deref; [exact Htm|].
  by apply wp_modify.
Qed.

(** A failed registration leaves nothing behind. *)
Lemma tiny_init_balanced p :
  uregs p = empty_registry →
  wp (documented (S:=uart_port) alone False) tiny_init
    (λ r p', r ≠ 0 → uregs p' = empty_registry) p.
Proof.
  intros Hr. pose proof (nil_owned (St:=uart_port) p Hr) as Ho. unfold tiny_init.
  wp_step. apply wp_acquire.
  - cbn [Z.eqb negb]. set (p1 := set_registry _ _).
    assert (owned [uart_driver] p1) as H1 by by apply owned_add. clearbody p1.
    wp_step. apply wp_acquire; [by repeat wp_step|]. intros z _ Hz.
    rewrite (proj2 (Z.eqb_neq _ _)) by done. cbn [negb]. wp_step. apply wp_give_back. wp_step.
    intros _. refine (owned_nil (set_registry _ _) _). by apply owned_del.
  - intros z _ Hz. rewrite (proj2 (Z.eqb_neq _ _)) by done. cbn [negb]. by wp_step.
Qed.

(** ** Witnesses *)

Definition uart1 : uart_port :=
  Uart true (store 0 [Some 65; Some 66; Some 67] (uninit UART_XMIT_SIZE)) 3 0 0 false 4 0 (Some true)
    [] [] 0 empty_registry.

Lemma tiny_tx_chars_sends_witness :
  wp (documented (S:=uart_port) alone False) tiny_tx_chars (λ _ p', took 2 uart1 p') uart1.
Proof.
  eapply wp_mono; [apply (tiny_tx_chars_sends uart1)|].
  - split; [by vm_compute|by vm_compute|by vm_compute|done].
  - done.
  - done.
  - vm_compute. done.
  - intros _ p' [H _]. vm_compute (Z.min _ _) in H. exact H.
Defined.
