(* ===== verification/FifoDev.v ===== *)
(** * Devices between two FIFOs

    The drivers of src/ldt keep what they received for readers in one [kfifo]
    and what writers left for the hardware in another; their reads, writes and
    polls are the same. The kfifo of the kernel is known by its documentation
    only: it is the class [Kfifo], with the laws the drivers rely on. *)

From stdpp Require Import base tactics numbers list.
From S2P Require Import Prelude KMonad.
From Stdlib Require Import ZArith Lia.

Open Scope Z_scope.

(** ** The kfifo interface *)

Definition FIFO_SIZE : Z := 128.

(** A queue of at most [FIFO_SIZE] bytes. [kfifo_in] answers how many bytes it
    took, one or none; [fifo_to_user n left] hands [n] bytes over of which the
    last [left] do not reach user space; [fifo_from_user] takes as many as there
    is room for, of which [left] could not be read. *)
Class Kfifo (F : Type) := {
  fifo_bytes : F → list Z;
  fifo_init : F;
  kfifo_in : Z → F → Z * F;
  kfifo_out : F → option (Z * F);
  fifo_to_user : Z → Z → F → list Z * F;
  fifo_from_user : list Z → Z → F → F;
  fifo_init_bytes : fifo_bytes fifo_init = [];
  kfifo_in_room b f : lenZ (fifo_bytes f) < FIFO_SIZE →
    kfifo_in b f = (1, snd (kfifo_in b f)) ∧ fifo_bytes (snd (kfifo_in b f)) = fifo_bytes f ++ [b];
  kfifo_in_full b f : FIFO_SIZE <= lenZ (fifo_bytes f) → kfifo_in b f = (0, f);
  kfifo_out_some b l f : fifo_bytes f = b :: l →
    ∃ f', kfifo_out f = Some (b, f') ∧ fifo_bytes f' = l;
  kfifo_out_none f : fifo_bytes f = [] → kfifo_out f = None;
  fifo_to_user_all n f : 0 <= n <= lenZ (fifo_bytes f) →
    ∃ f', fifo_to_user n 0 f = (take (Z.to_nat n) (fifo_bytes f), f') ∧
      fifo_bytes f' = drop (Z.to_nat n) (fifo_bytes f);
  fifo_to_user_part n left f : 0 <= n <= lenZ (fifo_bytes f) →
    ∃ k, fifo_bytes (snd (fifo_to_user n left f)) = drop k (fifo_bytes f);
  fifo_from_user_all l f : lenZ (fifo_bytes f) + lenZ l <= FIFO_SIZE →
    fifo_bytes (fifo_from_user l 0 f) = fifo_bytes f ++ l;
  fifo_from_user_part l left f : lenZ (fifo_bytes f) + lenZ l <= FIFO_SIZE →
    ∃ l', fifo_bytes (fifo_from_user l left f) = fifo_bytes f ++ l' ∧ (length l' <= length l)%nat
}.

(** A list of bytes is such a queue; on a fault it forgets what it handed over
    and keeps what it could read. *)
#[export] Instance list_kfifo : Kfifo (list Z).
Proof.
  refine {|
    fifo_bytes f := f; fifo_init := [];
    kfifo_in b f := if lenZ f <? FIFO_SIZE then (1, f ++ [b]) else (0, f);
    kfifo_out f := match f with [] => None | b :: l => Some (b, l) end;
    fifo_to_user n left f := (take (Z.to_nat (n - left)) f, drop (Z.to_nat n) f);
    fifo_from_user l left f := f ++ take (length l - Z.to_nat left) l
  |}.
  - done.
  - intros b f H. by rewrite (proj2 (Z.ltb_lt _ _)).
  - intros b f H. by rewrite (proj2 (Z.ltb_ge _ _)).
  - intros b l f ->. by exists l.
  - by intros f ->.
  - intros n f H. rewrite Z.sub_0_r. eauto.
  - intros n left f H. eauto.
  - intros l f H. by rewrite Nat.sub_0_r, firstn_all.
  - intros l left f H. eexists. split; [done|]. rewrite length_take. lia.
Defined.

(** ** The shared part of the drivers' state *)

(** [pending]: the tasklet is scheduled. Four ghosts, for the bytes that passed:
    [stored], by writers into [out_fifo]; [sent], from it to the hardware;
    [arrived], from the hardware, each with whether there was room for it;
    [handed], from [in_fifo] to readers. *)
Record fifos (F : Type) := Fifos {
  in_fifo : F;
  out_fifo : F;
  read_lock : bool;
  write_lock : bool;
  pending : bool;
  stored : list Z;
  sent : list Z;
  arrived : list (Z * bool);
  handed : list Z
}.
Arguments Fifos {F} _ _ _ _ _ _ _ _ _.
Arguments in_fifo {F} _.
Arguments out_fifo {F} _.
Arguments read_lock {F} _.
Arguments write_lock {F} _.
Arguments pending {F} _.
Arguments stored {F} _.
Arguments sent {F} _.
Arguments arrived {F} _.
Arguments handed {F} _.

(** A driver that has them. *)
Class HasFifos (S F : Type) := {
  fifos_of : S → fifos F;
  set_fifos : fifos F → S → S;
  fifos_set : ∀ f s, fifos_of (set_fifos f s) = f;
  set_set_fifos : ∀ f g s, set_fifos f (set_fifos g s) = set_fifos f s;
  set_fifos_same : ∀ s, set_fifos (fifos_of s) s = s
}.

Section updates.
Context {F : Type} `{!Kfifo F}.
Implicit Types (x : fifos F).

Definition set_read_lock (b : bool) x : fifos F :=
  Fifos (in_fifo x) (out_fifo x) b (write_lock x) (pending x) (stored x) (sent x) (arrived x) (handed x).
Definition set_write_lock (b : bool) x : fifos F :=
  Fifos (in_fifo x) (out_fifo x) (read_lock x) b (pending x) (stored x) (sent x) (arrived x) (handed x).
Definition set_pending (b : bool) x : fifos F :=
  Fifos (in_fifo x) (out_fifo x) (read_lock x) (write_lock x) b (stored x) (sent x) (arrived x) (handed x).

(** A byte goes to [in_fifo] if there is room, or is lost. *)
Definition receive (data : Z) x : fifos F :=
  let (n, f) := kfifo_in data (in_fifo x) in
  Fifos f (out_fifo x) (read_lock x) (write_lock x) (pending x) (stored x) (sent x)
    (arrived x ++ [(data, c_bool n)]) (handed x).
(** A byte [data] was taken from [out_fifo], [f] is left. *)
Definition take_out (data : Z) (f : F) x : fifos F :=
  Fifos (in_fifo x) f (read_lock x) (write_lock x) (pending x) (stored x) (sent x ++ [data])
    (arrived x) (handed x).
(** [f] is left of [in_fifo]. *)
Definition hand_over (f : F) x : fifos F :=
  Fifos f (out_fifo x) (read_lock x) (write_lock x) (pending x) (stored x) (sent x) (arrived x)
    (handed x ++ take (length (fifo_bytes (in_fifo x)) - length (fifo_bytes f)) (fifo_bytes (in_fifo x))).
(** [f] replaces [out_fifo], of which it is an extension. *)
Definition store_out (f : F) x : fifos F :=
  Fifos (in_fifo x) f (read_lock x) (write_lock x) (pending x)
    (stored x ++ drop (length (fifo_bytes (out_fifo x))) (fifo_bytes f)) (sent x) (arrived x) (handed x).
End updates.

(** ** Entry points *)

Section entry_points.
Context {S F : Type} `{!Kfifo F} `{!HasFifos S F}.

Definition on_fifos (f : fifos F → fifos F) : K S unit :=
  modify (λ s, set_fifos (f (fifos_of s)) s).

Definition read_mutex : HasLock S.
Proof.
  refine {| lock_of s := read_lock (fifos_of s);
            set_lock b s := set_fifos (set_read_lock b (fifos_of s)) s |}.
  intros b s. by rewrite fifos_set.
Defined.
Definition write_mutex : HasLock S.
Proof.
  refine {| lock_of s := write_lock (fifos_of s);
            set_lock b s := set_fifos (set_write_lock b (fifos_of s)) s |}.
  intros b s. by rewrite fifos_set.
Defined.

Definition is_empty (f : F) : bool := bool_decide (fifo_bytes f = []).
Definition is_full (f : F) : bool := FIFO_SIZE <=? lenZ (fifo_bytes f).

(** [kfifo_in_spinlocked] of one byte; its result is not looked at. *)
Definition fifo_receive (data : Z) : K S unit := on_fifos (receive data).

(** [kfifo_out_spinlocked] of one byte. *)
Definition fifo_take : K S (option Z) :=
  x ← gets (λ s, kfifo_out (out_fifo (fifos_of s)));
  match x with
  | None => mret None
  | Some (data, f) => on_fifos (take_out data f);; mret (Some data)
  end.

Definition tasklet_schedule : K S unit := on_fifos (set_pending true).

(** [kfifo_to_user]: the result, the number of bytes copied, and those that
    reached user space. *)
Definition kfifo_to_user (count : Z) : K S (Z * Z * list Z) :=
  f ← gets (λ s, in_fifo (fifos_of s));
  let n := Z.min (u32 count) (lenZ (fifo_bytes f)) in
  left ← call (copy_user n);
  let (bytes, f') := fifo_to_user n left f in
  on_fifos (hand_over f');;
  mret (if left =? 0 then 0 else - EFAULT, n - left, bytes).

(** [kfifo_from_user], of the user's buffer [buf]. *)
Definition kfifo_from_user (buf : list Z) : K S (Z * Z) :=
  f ← gets (λ s, out_fifo (fifos_of s));
  let n := Z.min (u32 (lenZ buf)) (FIFO_SIZE - lenZ (fifo_bytes f)) in
  left ← call (copy_user n);
  on_fifos (store_out (fifo_from_user (take (Z.to_nat n) buf) left f));;
  mret (if left =? 0 then 0 else - EFAULT, n - left).

(** [return ret ? ret : copied;] The two have types [int] and [unsigned int]:
    so has the whole type [unsigned int]. *)
Definition ret_or_copied (ret copied : Z) : Z := u32 (if c_bool ret then ret else copied).

(** The start of both transfers: [blocked] is the condition to wait out. *)
Definition await_fifo (f_flags : Z) (blocked : S → bool) : K S Z :=
  b ← gets blocked;
  if b : bool then
    if c_bool (Z.land f_flags O_NONBLOCK) then mret (- EAGAIN) else
    ret ← wait_event_interruptible (λ s, negb (blocked s));
    if ret =? - ERESTARTSYS then mret (- EINTR) else mret 0
  else mret 0.

(** The value of the call and the bytes that reached user space. *)
Definition fifo_read (f_flags count : Z) : K S (Z * list Z) :=
  r ← await_fifo f_flags (λ s, is_empty (in_fifo (fifos_of s)));
  if c_bool r then mret (r, []) else
  ok ← lock_interruptible (HasLock0 := read_mutex);
  if negb ok then mret (- EINTR, []) else
  '(ret, copied, bytes) ← kfifo_to_user count;
  unlock (HasLock0 := read_mutex);;
  mret (ret_or_copied ret copied, bytes).

Definition fifo_write (f_flags : Z) (buf : list Z) : K S Z :=
  r ← await_fifo f_flags (λ s, is_full (out_fifo (fifos_of s)));
  if c_bool r then mret r else
  ok ← lock_interruptible (HasLock0 := write_mutex);
  if negb ok then mret (- EINTR) else
  '(ret, copied) ← kfifo_from_user buf;
  unlock (HasLock0 := write_mutex);;
  tasklet_schedule;;
  mret (ret_or_copied ret copied).

Definition fifo_poll : K S Z :=
  f ← gets (λ s, in_fifo (fifos_of s));
  let mask := if negb (is_empty f) then Z.lor 0 (Z.lor POLLIN POLLRDNORM) else 0 in
  mret (Z.lor mask (Z.lor POLLOUT POLLWRNORM)).
End entry_points.

(** ** The invariant and what the entry points keep *)

(** The bytes there was room for. *)
Definition kept (l : list (Z * bool)) : list Z := (filter (λ x, x.2 = true) l).*1.
Arguments kept : simpl never.

Lemma kept_app l1 l2 : kept (l1 ++ l2) = kept l1 ++ kept l2.
Proof. unfold kept. by rewrite filter_app, fmap_app. Qed.

(** Bytes that were kept are among those that arrived; all of them when there
    always was room. *)
Lemma kept_sublist (l : list (Z * bool)) : kept l `sublist_of` l.*1.
Proof.
  induction l as [|[b k] l IH]; [done|]. unfold kept in *. rewrite filter_cons. cbn.
  destruct (decide (k = true)); cbn; by constructor.
Qed.
Lemma kept_all (l : list (Z * bool)) : Forall (λ x, x.2 = true) l → kept l = l.*1.
Proof.
  induction 1 as [|[b k] l Hk _ IH]; [done|]. unfold kept in *. rewrite filter_cons, decide_True by done.
  cbn. by rewrite IH.
Qed.

Section invariant.
Context {F : Type} `{!Kfifo F}.
Implicit Types (x y : fifos F).

(** What writers stored went out or waits, in order; what arrived and was kept
    was handed over or waits, in order. *)
Record fifo_inv x : Prop := {
  fi_out : stored x = sent x ++ fifo_bytes (out_fifo x);
  fi_in : kept (arrived x) = handed x ++ fifo_bytes (in_fifo x);
  fi_sizes : lenZ (fifo_bytes (out_fifo x)) <= FIFO_SIZE ∧ lenZ (fifo_bytes (in_fifo x)) <= FIFO_SIZE
}.

(** A reader changes only what is to be read, a writer what is to be sent. *)
Record reads x y : Prop := {
  rd_inv : fifo_inv x → fifo_inv y;
  rd_out : out_fifo y = out_fifo x;
  rd_ghosts : stored y = stored x ∧ sent y = sent x ∧ arrived y = arrived x;
  rd_in : ∃ k, fifo_bytes (in_fifo y) = drop k (fifo_bytes (in_fifo x));
  rd_locks : read_lock y = read_lock x ∧ write_lock y = write_lock x ∧ pending y = pending x
}.
Record writes x y : Prop := {
  wr_inv : fifo_inv x → fifo_inv y;
  wr_in : in_fifo y = in_fifo x;
  wr_ghosts : sent y = sent x ∧ arrived y = arrived x ∧ handed y = handed x;
  wr_out : ∃ l, fifo_bytes (out_fifo y) = fifo_bytes (out_fifo x) ++ l;
  wr_locks : read_lock y = read_lock x ∧ write_lock y = write_lock x ∧ pending y = true
}.

(** What readers got is, in order, among what arrived, and a prefix of it when
    nothing was lost. *)
Lemma handed_arrived x :
  fifo_inv x → handed x `sublist_of` (arrived x).*1 ∧
  (Forall (λ a, a.2 = true) (arrived x) → handed x `prefix_of` (arrived x).*1).
Proof.
  intros [_ Hi _]. split.
  - etrans; [|apply kept_sublist]. rewrite Hi. by apply sublist_inserts_r.
  - intros Ha. rewrite <-kept_all, Hi by done. by apply prefix_app_r.
Qed.

(** What went out is a prefix of what writers stored. *)
Lemma sent_stored x : fifo_inv x → sent x `prefix_of` stored x.
Proof. intros [-> _ _]. by apply prefix_app_r. Qed.

Lemma hand_over_bytes f x k :
  fifo_bytes f = drop k (fifo_bytes (in_fifo x)) →
  take (length (fifo_bytes (in_fifo x)) - length (fifo_bytes f)) (fifo_bytes (in_fifo x)) ++
    fifo_bytes f = fifo_bytes (in_fifo x).
Proof.
  intros ->. set (l := fifo_bytes (in_fifo x)). rewrite length_drop.
  destruct (decide (k <= length l)%nat).
  - replace (length l - (length l - k))%nat with k by lia. by rewrite take_drop.
  - rewrite (drop_ge l k) by lia. rewrite app_nil_r. apply take_ge. lia.
Qed.

Lemma hand_over_reads f x k :
  fifo_bytes f = drop k (fifo_bytes (in_fifo x)) → reads x (hand_over f x).
Proof.
  intros Hf. split; [|done|done|by exists k|done].
  intros [Ho Hi [? ?]]. split; cbn; [done| |].
  - rewrite Hi, <-(hand_over_bytes f x k Hf) at 1. by rewrite app_assoc.
  - split; [done|]. rewrite Hf, length_drop. lia.
Qed.

Lemma store_out_writes f x l :
  fifo_bytes f = fifo_bytes (out_fifo x) ++ l → lenZ (fifo_bytes f) <= FIFO_SIZE →
  writes x (set_pending true (store_out f x)).
Proof.
  intros Hf Hs. split; [|done|done|by exists l|done].
  intros [Ho Hi [? ?]]. split; cbn; [|done|done].
  by rewrite Ho, Hf, drop_app_length, <-app_assoc.
Qed.

Lemma receive_inv data x : fifo_inv x → fifo_inv (receive data x).
Proof.
  intros [Ho Hi [? Hs]]. unfold receive. destruct (decide (lenZ (fifo_bytes (in_fifo x)) < FIFO_SIZE)).
  - destruct (kfifo_in_room data (in_fifo x)) as [-> E]; [done|]. revert E.
    generalize (kfifo_in data (in_fifo x)).2. cbn [snd]. intros f E. split; cbn; [done| |split; [done|]].
    + by rewrite kept_app, Hi, E, <-app_assoc.
    + rewrite E, length_app. cbn. lia.
  - rewrite kfifo_in_full by lia. split; cbn; [done| |done]. by rewrite kept_app, app_nil_r.
Qed.

(** What it does to the queue, and leaves. *)
Lemma receive_in data x :
  lenZ (fifo_bytes (in_fifo x)) <= FIFO_SIZE →
  fifo_bytes (in_fifo (receive data x)) = take (Z.to_nat FIFO_SIZE) (fifo_bytes (in_fifo x) ++ [data]).
Proof.
  intros Hs. unfold receive. destruct (decide (lenZ (fifo_bytes (in_fifo x)) < FIFO_SIZE)).
  - destruct (kfifo_in_room data (in_fifo x)) as [-> E]; [done|]. revert E.
    generalize (kfifo_in data (in_fifo x)).2. cbn. intros f ->. rewrite take_ge; [done|]. rewrite length_app. cbn. lia.
  - rewrite kfifo_in_full by lia. cbn [in_fifo]. rewrite take_app_length'; [done|lia].
Qed.

Lemma receive_ghosts data x :
  out_fifo (receive data x) = out_fifo x ∧ sent (receive data x) = sent x ∧
  (arrived (receive data x)).*1 = (arrived x).*1 ++ [data] ∧ pending (receive data x) = pending x ∧
  read_lock (receive data x) = read_lock x ∧ write_lock (receive data x) = write_lock x.
Proof. unfold receive. destruct (kfifo_in data (in_fifo x)). cbn. by rewrite fmap_app. Qed.

Lemma set_pending_inv b x : fifo_inv x → fifo_inv (set_pending b x).
Proof. by intros [? ? ?]. Qed.

Lemma take_out_inv data f l x :
  fifo_bytes (out_fifo x) = data :: l → fifo_bytes f = l → fifo_inv x → fifo_inv (take_out data f x).
Proof.
  intros E Ef [Ho Hi [Hs ?]]. split; cbn; [|done|split; [|done]].
  - by rewrite Ho, E, Ef, <-app_assoc.
  - rewrite Ef. rewrite E in Hs. cbn in Hs. lia.
Qed.
End invariant.

(** ** Triples *)

Section triples.
Context {S F : Type} `{!Kfifo F} `{!HasFifos S F} (C : contract S) (I : S → Prop).
Context (Hpeer : ∀ s s', I s → c_rely C s s' → I s').
Context (Hfree : ∀ s, I s → read_lock (fifos_of s) = false ∧ write_lock (fifos_of s) = false).
Implicit Types (s : S) (x : fifos F).

Lemma wp_on_fifos f s (Q : unit → S → Prop) :
  Q tt (set_fifos (f (fifos_of s)) s) → wp C (on_fifos f) Q s.
Proof. intros. by apply wp_modify. Qed.

Lemma wp_fifo_take s (Q : option Z → S → Prop) :
  (fifo_bytes (out_fifo (fifos_of s)) = [] → Q None s) →
  (∀ b l f, fifo_bytes (out_fifo (fifos_of s)) = b :: l → fifo_bytes f = l →
    Q (Some b) (set_fifos (take_out b f (fifos_of s)) s)) →
  wp C fifo_take Q s.
Proof.
  intros H0 H1. unfold fifo_take. wp_step. wp_step.
  destruct (fifo_bytes (out_fifo (fifos_of s))) as [|b l] eqn:El.
  - rewrite kfifo_out_none by done. wp_step. by apply H0.
  - destruct (kfifo_out_some b l _ El) as (f & -> & Ef). wp_step. apply wp_on_fifos. wp_step.
    by eapply H1.
Qed.

(** Waiting ends somewhere the others led, or the call is over. *)
Lemma wp_await f_flags blocked s (Q : Z → S → Prop) :
  I s → (blocked s = true → c_sleep C) →
  (∀ r s', I s' → blocked s = true → r = - EAGAIN ∨ r = - EINTR → Q r s') → (∀ s', I s' → Q 0 s') →
  wp C (await_fifo f_flags blocked) Q s.
Proof.
  intros Hs HS Hko Hok. unfold await_fifo. wp_step. wp_step. wp_step; [|wp_step; by apply Hok].
  wp_step; [wp_step; apply Hko; by auto|]. wp_step. apply wp_wait_event; [by apply HS|..].
  - intros s1 H1 _. change (0 =? - ERESTARTSYS) with false. cbn iota. wp_step. apply Hok. eauto.
  - intros s1 s2 H1 H2 _. change (0 =? - ERESTARTSYS) with false. cbn iota. wp_step. apply Hok. eauto.
  - intros s1 s2 z H1 H2 _ _. change (- ERESTARTSYS =? - ERESTARTSYS) with true. cbn iota.
    wp_step. apply Hko; [eauto|done|by auto].
Qed.

Lemma read_unlocked f x :
  read_lock x = false → set_read_lock false (hand_over f (set_read_lock true x)) = hand_over f x.
Proof. destruct x. cbn. by intros ->. Qed.
Lemma write_unlocked f x :
  write_lock x = false → set_write_lock false (store_out f (set_write_lock true x)) = store_out f x.
Proof. destruct x. cbn. by intros ->. Qed.

(** Why a call may be refused: it would have to wait, or a signal comes while it
    waits for the lock. *)
Definition refusable (blocked : bool) : Prop :=
  blocked = true ∨ ∃ z, c_ans C mutex_lock_intr z ∧ z ≠ 0.

(** What a read that is not refused does to the queue. *)
Definition read_result (count : Z) (x y : fifos F) (z : Z) (r : Z * list Z) : Prop :=
  let l := fifo_bytes (in_fifo x) in
  let n := Z.min (u32 count) (lenZ l) in
  if z =? 0 then r = (n, take (Z.to_nat n) l) ∧ fifo_bytes (in_fifo y) = drop (Z.to_nat n) l
  else r.1 = 2 ^ 32 - EFAULT.

Lemma wp_fifo_read f_flags count s (Q : Z * list Z → S → Prop) :
  I s →
  let b := is_empty (in_fifo (fifos_of s)) in (b = true → c_sleep C) →
  (∀ r s', I s' → refusable b → r = - EAGAIN ∨ r = - EINTR → Q (r, []) s') →
  (∀ s0 n z y r, I s0 → c_ans C (copy_user n) z → reads (fifos_of s0) y →
    read_result count (fifos_of s0) y z r → Q r (set_fifos y s0)) →
  wp C (fifo_read f_flags count) Q s.
Proof.
  intros Hs b HS Hko Hok. unfold fifo_read. wp_step. apply wp_await; [done|done|..].
  { intros r s' Hs' Hb Hr. assert (c_bool r = true) as -> by (by destruct Hr as [->| ->]).
    wp_step. apply Hko; [done|by left|done]. }
  intros s1 H1. cbn [c_bool Z.eqb negb]. change (c_bool 0) with false. cbn iota.
  wp_step. apply wp_lock_interruptible.
  { intros s' Hr. by apply Hfree, (Hpeer s1). }
  2:{ intros s' z Hr ? ?. wp_go. apply Hko; [by eapply Hpeer|right; by eauto|by auto]. }
  intros s0 z0 Hr _ _. assert (I s0) as H0 by (by eapply Hpeer). cbn [negb].
  cbn [set_lock read_mutex]. set (x := fifos_of s0). unfold kfifo_to_user.
  do 5 wp_step. rewrite fifos_set. change (in_fifo (set_read_lock true x)) with (in_fifo x).
  set (l := fifo_bytes (in_fifo x)). set (n := Z.min _ _).
  assert (0 <= n <= lenZ l) as Hn by (pose proof (Z.mod_pos_bound count (2 ^ 32)); unfold n, u32; lia).
  destruct (fifo_to_user n z (in_fifo x)) as [bytes f'] eqn:E. wp_step. apply wp_on_fifos. wp_step.
  wp_step. apply wp_unlock; [cbn; by rewrite !fifos_set|]. wp_step. cbn [set_lock read_mutex].
  rewrite !fifos_set, !set_set_fifos. rewrite read_unlocked by apply Hfree, H0.
  assert (∃ k, fifo_bytes f' = drop k l) as [k Hk].
  { destruct (fifo_to_user_part n z (in_fifo x) Hn) as [k Hk]. rewrite E in Hk. by exists k. }
  eapply Hok; [done|done|by eapply hand_over_reads|]. unfold read_result. fold l. fold n.
  destruct (z =? 0) eqn:Ez; zbool; [|done]. subst z.
  destruct (fifo_to_user_all n (in_fifo x) Hn) as (f'' & E' & Hf). rewrite E in E'. simplify_eq.
  split; [|done]. f_equal. unfold ret_or_copied. change (c_bool 0) with false. cbn iota.
  rewrite Z.sub_0_r. apply u32_small. pose proof (Z.mod_pos_bound count (2 ^ 32)).
  unfold n, u32 in *. lia.
Qed.

(** The same of a write. *)
Definition write_result (buf : list Z) (x y : fifos F) (z r : Z) : Prop :=
  let l := fifo_bytes (out_fifo x) in
  let n := Z.min (u32 (lenZ buf)) (FIFO_SIZE - lenZ l) in
  if z =? 0 then r = n ∧ fifo_bytes (out_fifo y) = l ++ take (Z.to_nat n) buf
  else r = 2 ^ 32 - EFAULT.

Lemma wp_fifo_write f_flags buf s (Q : Z → S → Prop) :
  (∀ s, I s → fifo_inv (fifos_of s)) → I s →
  let b := is_full (out_fifo (fifos_of s)) in (b = true → c_sleep C) →
  (∀ r s', I s' → refusable b → r = - EAGAIN ∨ r = - EINTR → Q r s') →
  (∀ s0 n z y r, I s0 → c_ans C (copy_user n) z → writes (fifos_of s0) y →
    write_result buf (fifos_of s0) y z r → Q r (set_fifos y s0)) →
  wp C (fifo_write f_flags buf) Q s.
Proof.
  intros Hinv Hs b HS Hko Hok. unfold fifo_write. wp_step. apply wp_await; [done|done|..].
  { intros r s' Hs' Hb Hr. assert (c_bool r = true) as -> by (by destruct Hr as [->| ->]).
    wp_step. apply Hko; [done|by left|done]. }
  intros s1 H1. change (c_bool 0) with false. cbn iota.
  wp_step. apply wp_lock_interruptible.
  { intros s' Hr. by apply Hfree, (Hpeer s1). }
  2:{ intros s' z Hr ? ?. wp_go. apply Hko; [by eapply Hpeer|right; by eauto|by auto]. }
  intros s0 z0 Hr _ _. assert (I s0) as H0 by (by eapply Hpeer). cbn [negb].
  cbn [set_lock write_mutex]. set (x := fifos_of s0). unfold kfifo_from_user.
  do 5 wp_step. rewrite fifos_set. change (out_fifo (set_write_lock true x)) with (out_fifo x).
  set (l := fifo_bytes (out_fifo x)). set (n := Z.min _ _).
  assert (0 <= n <= FIFO_SIZE - lenZ l) as Hn.
  { pose proof (fi_sizes _ (Hinv s0 H0)) as [Hl _]. fold x in Hl. fold l in Hl.
    pose proof (Z.mod_pos_bound (lenZ buf) (2 ^ 32)). unfold n, u32; lia. }
  assert (lenZ l + lenZ (take (Z.to_nat n) buf) <= FIFO_SIZE) as Hroom by (rewrite length_take; lia).
  wp_step. apply wp_on_fifos. wp_step.
  wp_step. apply wp_unlock; [cbn; by rewrite !fifos_set|]. wp_step. unfold tasklet_schedule.
  apply wp_on_fifos. wp_step. cbn [set_lock write_mutex].
  rewrite !fifos_set, !set_set_fifos. rewrite write_unlocked by apply Hfree, H0.
  destruct (fifo_from_user_part (take (Z.to_nat n) buf) z (out_fifo x) Hroom) as (l' & Hl' & Hlen).
  eapply Hok; [done|done|eapply store_out_writes; [done|]|].
  { rewrite Hl', length_app. fold l. lia. }
  unfold write_result. fold l n. destruct (z =? 0) eqn:Ez; zbool; [|done]. subst z. split.
  - unfold ret_or_copied. change (c_bool 0) with false. cbn iota. rewrite Z.sub_0_r.
    apply u32_small. change (0 <= n < 2 ^ 32). unfold FIFO_SIZE in Hn. lia.
  - cbn. by apply fifo_from_user_all.
Qed.
End triples.

