(* ===== verification/MiscLoop.v ===== *)
(** * misc_loop_drv: a looped-back port (src/ldt/misc_loop_drv.c)

    What is written goes to [out_fifo]; the tasklet passes it byte by byte
    through a two-byte emulation of a port, from which it comes back into
    [in_fifo], where it is read. *)

From stdpp Require Import base tactics numbers list strings sets.
From S2P Require Import Prelude KMonad Registry FifoDev.
From Stdlib Require Import ZArith Lia.

Open Scope Z_scope.

(** ** Data *)

Definition MISC_DRV_TX : nat := 0.
Definition MISC_DRV_RX : nat := 0.
Definition MISC_DRV_TX_FULL : nat := 1.
Definition MISC_DRV_RX_READY : nat := 1.

Record loop_dev (F : Type) := LoopDev { queues : fifos F; port_emulation : list Z }.
Arguments LoopDev {F} _ _.
Arguments queues {F} _.
Arguments port_emulation {F} _.

#[export] Instance loop_fifos F : HasFifos (loop_dev F) F.
Proof.
  refine {| fifos_of := queues; set_fifos x s := LoopDev x (port_emulation s) |}; try done.
  by intros [].
Defined.

Section driver.
Context {F : Type} `{!Kfifo F}.
Local Abbreviation KL := (K (loop_dev F)).

(** ** Operations *)

(** [ioread8] and [iowrite8] of the emulated port. *)
Definition ioread8 (offset : nat) : KL Z :=
  p ← gets port_emulation;
  deref OutOfBounds (p !! offset).
Definition iowrite8 (value : Z) (offset : nat) : KL unit :=
  p ← gets port_emulation;
  deref OutOfBounds (p !! offset);;
  modify (λ s, LoopDev (queues s) (<[offset := u8 value]> (port_emulation s))).

Definition misc_loop_drv_isr : KL unit := tasklet_schedule.

(** The first loop of the tasklet; [send_IPI_all] runs the handler. [fuel] bounds the
    rounds. *)
Fixpoint tx_loop (fuel : nat) : KL unit :=
  match fuel with
  | O => oops Endless
  | Datatypes.S fuel =>
      full ← ioread8 MISC_DRV_TX_FULL;
      if c_bool full then mret tt else
      x ← fifo_take;
      match x with
      | None => mret tt
      | Some data_out =>
          iowrite8 data_out MISC_DRV_TX;;
          iowrite8 1 MISC_DRV_TX_FULL;;
          misc_loop_drv_isr;;
          tx_loop fuel
      end
  end.

(** The second. *)
Fixpoint rx_loop (fuel : nat) : KL unit :=
  match fuel with
  | O => oops Endless
  | Datatypes.S fuel =>
      ready ← ioread8 MISC_DRV_RX_READY;
      if c_bool ready then
        data_in ← ioread8 MISC_DRV_RX;
        fifo_receive data_in;;
        iowrite8 0 MISC_DRV_RX_READY;;
        rx_loop fuel
      else mret tt
  end.

Definition misc_loop_drv_tasklet_func (fuel : nat) : KL unit := tx_loop fuel;; rx_loop fuel.

(** The kernel runs a scheduled tasklet once. *)
Definition run_tasklet (fuel : nat) : KL unit :=
  p ← gets (λ s, pending (queues s));
  if p : bool then on_fifos (set_pending false);; misc_loop_drv_tasklet_func fuel else mret tt.

Definition misc_loop_drv_open : KL Z := mret 0.
Definition misc_loop_drv_release : KL Z := mret 0.
Definition misc_loop_drv_read : Z → Z → KL (Z * list Z) := fifo_read.
Definition misc_loop_drv_write : Z → list Z → KL Z := fifo_write.
Definition misc_loop_drv_poll : KL Z := fifo_poll.

Inductive loop_op :=
| LOpen | LRelease | LPoll | LIsr | LTasklet
| LRead (f_flags count : Z)
| LWrite (f_flags : Z) (buf : list Z).

(** The loops of the tasklet go round twice at most; a third round is the fault
    [Endless]. *)
Definition loop_handle (o : loop_op) : KL Z :=
  match o with
  | LOpen => misc_loop_drv_open
  | LRelease => misc_loop_drv_release
  | LPoll => misc_loop_drv_poll
  | LIsr => misc_loop_drv_isr;; mret 0
  | LTasklet => run_tasklet 2;; mret 0
  | LRead f_flags count => kfmap fst (misc_loop_drv_read f_flags count)
  | LWrite f_flags buf => misc_loop_drv_write f_flags buf
  end.

(** ** Loading and unloading *)

(** [drvdata] with [port_ptr] and [port_res], [None] while it is NULL;
    [this_device], whether that of the misc device is not NULL. *)
Record loop_data := LoopData { loop_queues : fifos F; port_ptr : bool; port_res : bool }.
Record loop_mod := LoopMod {
  drvdata : option loop_data;
  mod_port : list Z;
  this_device : bool;
  loop_regs : registry
}.

#[export] Instance loop_mod_registry : HasRegistry loop_mod :=
  { registry_of := loop_regs;
    set_registry g s := LoopMod (drvdata s) (mod_port s) (this_device s) g;
    registry_set g s := eq_refl }.

Definition set_drvdata (d : option loop_data) (s : loop_mod) : loop_mod :=
  LoopMod d (mod_port s) (this_device s) (loop_regs s).
Definition set_mod_port (l : list Z) (s : loop_mod) : loop_mod :=
  LoopMod (drvdata s) l (this_device s) (loop_regs s).
Definition set_this_device (b : bool) (s : loop_mod) : loop_mod :=
  LoopMod (drvdata s) (mod_port s) b (loop_regs s).

Definition drvdata_mem : resource := Res "misc_loop_drv_data" 0.
Definition port_region (port : Z) : resource := Res "region" port.
Definition port_mapping : resource := Res "ioport_map" 0.
Definition misc_device : resource := Res "misc" 0.
Definition irq_line (irq : Z) : resource := Res "irq" irq.

(** After [misc_loop_drv_data_init]: no bytes, free locks, an idle tasklet. *)
Definition no_bytes : fifos F := Fifos fifo_init fifo_init false false false [] [] [] [].

Definition misc_loop_drv_data_init : K loop_mod (option loop_data) :=
  p ← acquire_ptr "kzalloc" drvdata_mem;
  mret (if p =? 0 then None else Some (LoopData no_bytes false false)).

(** [drvdata->f], and an update of [drvdata]. *)
Definition on_drvdata (f : loop_data → loop_data) : K loop_mod unit :=
  d ← gets drvdata;
  d ← deref NullDeref d;
  modify (set_drvdata (Some (f d))).

(** A failed [misc_register] may leave an error in [this_device]. *)
Definition misc_register : K loop_mod Z :=
  ret ← acquire "misc_register" misc_device;
  e ← call (kint "this_device");
  modify (set_this_device ((ret =? 0) || c_bool e));;
  mret ret.

Definition misc_loop_drv_cleanup (port irq : Z) : K loop_mod unit :=
  dev ← gets this_device;
  (if dev : bool then give_back misc_device else mret tt);;
  (if c_bool irq then give_back (irq_line irq) else mret tt);;
  on_drvdata (λ d, LoopData (set_pending false (loop_queues d)) (port_ptr d) (port_res d));;
  d ← gets drvdata ≫= deref NullDeref;
  (if port_ptr d then give_back port_mapping else mret tt);;
  (if port_res d then give_back (port_region port) else mret tt);;
  give_back drvdata_mem.

(** The label [exit]. *)
Definition init_exit (port irq ret : Z) : K loop_mod Z :=
  (if ret <? 0 then misc_loop_drv_cleanup port irq else mret tt);;
  mret ret.

Definition misc_loop_drv_init (port irq : Z) : K loop_mod Z :=
  d ← misc_loop_drv_data_init;
  modify (set_drvdata d);;
  match d with
  | None => init_exit port irq 0
  | Some _ =>
      r ← acquire_ptr "request_region" (port_region port);
      if r =? 0 then mret (- EBUSY) else
      on_drvdata (λ d, LoopData (loop_queues d) true true);;
      modify (λ s, set_mod_port (<[MISC_DRV_TX_FULL := 0]> (<[MISC_DRV_TX := 0]> (mod_port s))) s);;
      ret ← misc_register;
      if ret <? 0 then init_exit port irq ret else
      ret ← acquire "request_irq" (irq_line irq);
      if ret <? 0 then mret ret else
      init_exit port irq ret
  end.

(** ** Specification *)

(** The device once loaded: no bytes, and a clear port. *)
Definition loop_init : loop_dev F := LoopDev no_bytes [0; 0].

(** What one run of the tasklet does to the queues. *)
Definition looped (x y : fifos F) : Prop :=
  match fifo_bytes (out_fifo x) with
  | [] => y = set_pending false x
  | b :: l => ∃ f, fifo_bytes f = l ∧
      y = receive (u8 b) (set_pending true (take_out b f (set_pending false x)))
  end.

(** Between two calls: the port is empty, all that went in came back, and what
    waits to go in has a tasklet scheduled for it. *)
Record loop_inv (s : loop_dev F) : Prop := {
  lo_fifos : fifo_inv (queues s);
  lo_port : ∃ tx, port_emulation s = [tx; 0];
  lo_back : (arrived (queues s)).*1 = u8 <$> sent (queues s);
  lo_locks : read_lock (queues s) = false ∧ write_lock (queues s) = false;
  lo_pending : fifo_bytes (out_fifo (queues s)) ≠ [] → pending (queues s) = true
}.

(** The others are calls to this driver. *)
Record loop_contract (C : contract (loop_dev F)) : Prop := {
  lc_ans : ∀ c z, c_ans C c z → doc_ans c z;
  lc_peer : ∀ s s', c_rely C s s' → loop_inv s → loop_inv s';
  lc_sleep : c_sleep C
}.

(** ** The tasklet *)

Lemma wp_ioread8 C off z s (Q : Z → loop_dev F → Prop) :
  port_emulation s !! off = Some z → Q z s → wp C (ioread8 off) Q s.
Proof. intros Hz HQ. unfold ioread8. wp_step. wp_step. by eapply wp_deref. Qed.

Lemma wp_iowrite8 C v off z s (Q : unit → loop_dev F → Prop) :
  port_emulation s !! off = Some z →
  Q tt (LoopDev (queues s) (<[off := u8 v]> (port_emulation s))) → wp C (iowrite8 v off) Q s.
Proof.
  intros Hz HQ. unfold iowrite8. wp_step. wp_step. wp_step. eapply wp_deref; [done|]. by wp_step.
Qed.

Lemma wp_rx_loop C fuel data tx x (Q : unit → loop_dev F → Prop) :
  (2 <= fuel)%nat →
  Q tt (if c_bool data then LoopDev (receive tx x) [tx; 0] else LoopDev x [tx; data]) →
  wp C (rx_loop fuel) Q (LoopDev x [tx; data]).
Proof.
  intros Hf HQ. destruct fuel as [|[|fuel]]; [lia..|]. cbn [rx_loop]. wp_step.
  eapply wp_ioread8; [done|]. destruct (c_bool data) eqn:E; [|by wp_step].
  wp_step. eapply wp_ioread8; [done|]. wp_step. apply wp_on_fifos. wp_step.
  eapply wp_iowrite8; [done|]. cbn. wp_step. eapply wp_ioread8; [done|].
  change (c_bool (u8 0)) with false. cbn iota. by wp_step.
Qed.

Local Arguments rx_loop : simpl never.

Lemma wp_tasklet C fuel s (Q : unit → loop_dev F → Prop) :
  (2 <= fuel)%nat → (∃ tx, port_emulation s = [tx; 0]) → pending (queues s) = true →
  (∀ tx y, looped (queues s) y → Q tt (LoopDev y [tx; 0])) →
  wp C (run_tasklet fuel) Q s.
Proof.
  destruct s as [x p]. intros Hf [tx Hp] Hpend HQ. cbn in Hp, Hpend, HQ. subst p.
  unfold run_tasklet. wp_step. wp_step. cbn [queues]. rewrite Hpend. cbn iota.
  wp_step. apply wp_on_fifos. unfold misc_loop_drv_tasklet_func. wp_step.
  destruct fuel as [|[|n]]; [lia..|]. cbn [tx_loop]. wp_step.
  eapply wp_ioread8; [done|]. change (c_bool 0) with false. cbn iota. wp_step.
  unfold looped in HQ. apply wp_fifo_take.
  - intros El. change (fifo_bytes (out_fifo x) = []) in El. rewrite El in HQ.
    wp_step. apply wp_rx_loop; [lia|]. by apply HQ.
  - intros b l f El Ef. change (fifo_bytes (out_fifo x) = b :: l) in El. rewrite El in HQ.
    wp_step. eapply wp_iowrite8; [done|]. cbn. wp_step. eapply wp_iowrite8; [done|]. cbn.
    wp_step. apply wp_on_fifos. wp_step. eapply wp_ioread8; [done|].
    change (c_bool (u8 1)) with true. cbn iota. wp_step. apply wp_rx_loop; [lia|].
    change (c_bool (u8 1)) with true. cbn iota. apply HQ. by exists f.
Qed.

(** A run of the tasklet keeps the invariant. *)
Lemma looped_inv s y tx :
  loop_inv s → looped (queues s) y → loop_inv (LoopDev y [tx; 0]).
Proof.
  intros [Hi _ Hb [Hr Hw] Hp] Hl. unfold looped in Hl.
  destruct (fifo_bytes (out_fifo (queues s))) as [|b l] eqn:El.
  - subst y. split; cbn; eauto using set_pending_inv.
  - destruct Hl as (f & Ef & ->). set (x := set_pending true _).
    destruct (receive_ghosts (u8 b) x) as (Ho & Hs & Ha & Hpe & Hrl & Hwl). split; cbn.
    + apply receive_inv, set_pending_inv, (take_out_inv _ _ l); [done..|]. by apply set_pending_inv.
    + eauto.
    + rewrite Ha, Hs. cbn. by rewrite Hb, fmap_app.
    + by rewrite Hrl, Hwl.
    + by rewrite Hpe.
Qed.

(** The byte at the head of [out_fifo] goes to the end of [in_fifo], or is
    lost when that is full. *)
Lemma looped_bytes x y b l :
  looped x y → fifo_bytes (out_fifo x) = b :: l → lenZ (fifo_bytes (in_fifo x)) <= FIFO_SIZE →
  fifo_bytes (out_fifo y) = l ∧ fifo_bytes (in_fifo y) =
    take (Z.to_nat FIFO_SIZE) (fifo_bytes (in_fifo x) ++ [u8 b]).
Proof.
  unfold looped. intros Hy E Hs. rewrite E in Hy. destruct Hy as (f & Ef & ->).
  rewrite receive_in by done. by destruct (receive_ghosts (u8 b)
    (set_pending true (take_out b f (set_pending false x)))) as (-> & _).
Qed.

(** ** Every call *)

Lemma reads_inv s y : loop_inv s → reads (queues s) y → loop_inv (set_fifos y s).
Proof.
  intros [Hi Hp Hb [Hl1 Hl2] Hn] [H1 H2 (H3 & H4 & H5) _ (H6 & H7 & H8)]. split; cbn; [auto|done|..].
  - by rewrite H4, H5.
  - by rewrite H6, H7.
  - by rewrite H2, H8.
Qed.

Lemma writes_inv s y : loop_inv s → writes (queues s) y → loop_inv (set_fifos y s).
Proof.
  intros [Hi Hp Hb [Hl1 Hl2] Hn] [H1 H2 (H3 & H4 & H5) _ (H6 & H7 & H8)]. split; cbn; [auto|done|..].
  - by rewrite H3, H4.
  - by rewrite H6, H7.
  - by rewrite H8.
Qed.

Lemma scheduled_inv s : loop_inv s → loop_inv (set_fifos (set_pending true (queues s)) s).
Proof. intros [? ? ? ? ?]. split; cbn; auto using set_pending_inv. Qed.

Lemma loop_handle_inv C o s :
  loop_contract C → loop_inv s → wp C (loop_handle o) (λ _, loop_inv) s.
Proof.
  intros HC Hs. assert (∀ s s', loop_inv s → c_rely C s s' → loop_inv s') as Hpeer.
  { intros s1 s2 H1 Hr. by eapply (lc_peer _ HC). }
  destruct o as [| | | | |f n|f buf]; cbn [loop_handle]; [by apply wp_ret|by apply wp_ret|..].
  - unfold misc_loop_drv_poll, fifo_poll. by repeat wp_step.
  - wp_step. apply wp_on_fifos. wp_step. by apply scheduled_inv.
  - wp_step. destruct (pending (queues s)) eqn:E.
    + apply wp_tasklet; [lia|apply Hs|done|]. intros tx y Hy. wp_step. by eapply looped_inv.
    + unfold run_tasklet. wp_step. wp_step. rewrite E. wp_step. by wp_step.
  - apply wp_kfmap, (wp_fifo_read C loop_inv); eauto using lo_locks.
    { intros _. apply (lc_sleep _ HC). }
    intros s0 m z y r H0 _ Hy _. by apply reads_inv.
  - apply (wp_fifo_write C loop_inv); eauto using lo_locks, lo_fifos.
    { intros _. apply (lc_sleep _ HC). }
    intros s0 m z y r H0 _ Hy _. by apply writes_inv.
Qed.

Lemma loop_init_inv : loop_inv loop_init.
Proof.
  assert (fifo_bytes (fifo_init : F) = []) as E by apply fifo_init_bytes.
  split; cbn; [|by eexists|done..].
  split; cbn; rewrite ?E; done.
Qed.

(** ** Properties *)

(** C12: whatever calls are made, in any order, with other tasks calling while one
    waits: nothing faults; the loops of the tasklet end, within two rounds each, since
    a third is a fault; what readers got is, in order, among the bytes writers
    stored, and a prefix of them when [in_fifo] never was full; and a byte that still
    waits to go out has a tasklet scheduled for it. (A read may wait for bytes, a
    write for room, for ever.) *)
Theorem loop_stream C :
  loop_contract C →
  faultless loop_handle (λ _ _, True) C (λ s, s = loop_init) ∧
  ∀ s, reachable loop_handle (λ _ _, True) C (λ s, s = loop_init) s →
    let x := queues s in
    handed x `sublist_of` (u8 <$> stored x) ∧
    (Forall (λ a, a.2 = true) (arrived x) → handed x `prefix_of` (u8 <$> stored x)) ∧
    (fifo_bytes (out_fifo x) ≠ [] → pending x = true).
Proof.
  intros HC. assert (inductive_inv loop_handle (λ _ _, True) C (λ s, s = loop_init) loop_inv) as Hinv.
  { split; [|split]; [by intros s ->; apply loop_init_inv|by intros; apply loop_handle_inv|].
    intros s s' Hs Hr. by eapply (lc_peer _ HC). }
  split; [by eapply inv_faultless|]. intros s Hs x.
  destruct (reachable_inv _ _ _ _ _ _ Hinv Hs) as [Hf _ Hb _ Hp].
  destruct (handed_arrived _ Hf) as [H1 H2]. pose proof (sent_stored _ Hf) as [l Hl].
  fold x in Hb, Hp, H1, H2, Hl. rewrite Hb in H1, H2. rewrite Hl, fmap_app. split_and!; [| |done].
  - by apply sublist_inserts_r.
  - intros Ha. by apply prefix_app_r, H2.
Qed.

(** [k] runs of the tasklet move [k] bytes from [out_fifo] to [in_fifo], in
    order; those for which [in_fifo] has no room are lost. *)
Lemma wp_moves C k s :
  loop_inv s → (k <= length (fifo_bytes (out_fifo (queues s))))%nat →
  wp C (for_each k 0 (λ _, run_tasklet 2))
    (λ _ s', loop_inv s' ∧
      fifo_bytes (out_fifo (queues s')) = drop k (fifo_bytes (out_fifo (queues s))) ∧
      fifo_bytes (in_fifo (queues s')) =
        take (Z.to_nat FIFO_SIZE) (fifo_bytes (in_fifo (queues s)) ++
          (u8 <$> take k (fifo_bytes (out_fifo (queues s)))))) s.
Proof.
  intros Hs Hk. set (lo := fifo_bytes (out_fifo (queues s))). set (li := fifo_bytes (in_fifo (queues s))).
  fold lo in Hk.
  pose proof (proj2 (fi_sizes _ (lo_fifos _ Hs))) as Hli. fold li in Hli.
  apply (wp_for_each _ _ _ _ (λ j s', loop_inv s' ∧ fifo_bytes (out_fifo (queues s')) = drop j lo ∧
    fifo_bytes (in_fifo (queues s')) = take (Z.to_nat FIFO_SIZE) (li ++ (u8 <$> take j lo)))).
  - split_and!; [done..|]. cbn. rewrite app_nil_r, take_ge by lia. done.
  - intros j s1 Hj (H1 & Ho & Hi). destruct (lookup_lt_is_Some_2 lo j) as [b Hb]; [lia|].
    rewrite (drop_S _ _ _ Hb) in Ho. apply wp_tasklet; [lia|apply H1|by apply H1; rewrite Ho|].
    intros tx y Hy. pose proof (proj2 (fi_sizes _ (lo_fifos _ H1))) as Hsz.
    pose proof (looped_bytes _ _ _ _ Hy Ho Hsz) as [Ho' Hi'].
    split_and!; [by eapply looped_inv|done|]. cbn [queues]. rewrite Hi', Hi.
    by rewrite (take_S_r _ _ _ Hb), fmap_app, app_assoc, take_take_app.
  - by intros s1 H.
Qed.

(** What is written when there is room for it, with as many runs of the
    tasklet as bytes wait, is read back behind what was there, in order and as it
    was; but of all this only [FIFO_SIZE] bytes: the others are lost, for nobody
    looks at the result of [kfifo_in]. *)
Theorem loop_roundtrip buf s :
  let lo := fifo_bytes (out_fifo (queues s)) in
  let li := fifo_bytes (in_fifo (queues s)) in
  loop_inv s → buf ≠ [] → lenZ lo + lenZ buf <= FIFO_SIZE →
  wp (quiet _) (n ← misc_loop_drv_write 0 buf;
      for_each (length lo + length buf) 0 (λ _, run_tasklet 2);;
      r ← misc_loop_drv_read 0 FIFO_SIZE; mret (n, r))
    (λ x s', let l := take (Z.to_nat FIFO_SIZE) (li ++ (u8 <$> lo ++ buf)) in
      x = (lenZ buf, (lenZ l, l)) ∧ loop_inv s' ∧
      fifo_bytes (out_fifo (queues s')) = [] ∧ fifo_bytes (in_fifo (queues s')) = []) s.
Proof.
  intros lo li Hs Hne Hlen.
  assert (lenZ buf > 0) as Hpos by (destruct buf; [done|cbn; lia]).
  assert (is_full (out_fifo (queues s)) = false) as Hfull.
  { apply Z.leb_gt. fold lo. unfold FIFO_SIZE in *. lia. }
  wp_step. apply (wp_fifo_write (quiet _) (λ s', s' = s)).
  { by intros ? ? -> <-. } { intros ? ->. apply Hs. } { intros ? ->. apply Hs. } { done. }
  { intros Hb. cbn in Hb. congruence. }
  { intros r s' _ Hr. exfalso. cbn in Hr. rewrite Hfull in Hr. by destruct Hr as [?|(? & [_ ?] & ?)]. }
  intros s0 m z y n -> [_ Hz] Hy Hn. cbn in Hz. subst z. destruct Hn as [-> Ho].
  assert (loop_inv (set_fifos y s)) as H1 by by apply writes_inv.
  change (fifo_bytes (out_fifo (fifos_of s))) with lo in Ho |- *.
  assert (u32 (lenZ buf) `min` (FIFO_SIZE - lenZ lo) = lenZ buf) as E.
  { rewrite u32_small; unfold FIFO_SIZE in *; lia. }
  rewrite E in *. clear E. rewrite take_ge in Ho by lia. change (fifo_bytes (out_fifo (queues (set_fifos y s))) = lo ++ buf) in Ho.
  assert (fifo_bytes (in_fifo (queues (set_fifos y s))) = li) as Hi by (cbn; by rewrite (wr_in _ _ Hy)).
  wp_step. eapply wp_mono; [apply wp_moves; [done|by rewrite Ho, length_app]|].
  rewrite Ho, Hi, <-length_app, firstn_all, drop_all. intros [] s2 (H2 & Ho2 & Hi2). clear Hy H1.
  set (l := take (Z.to_nat FIFO_SIZE) _) in *.
  assert (lenZ l <= FIFO_SIZE) as Hl by (unfold l; rewrite length_take; lia).
  assert (is_empty (in_fifo (queues s2)) = false) as He.
  { apply bool_decide_eq_false. rewrite Hi2. intros [?|Hnil]%take_nil_inv; [by unfold FIFO_SIZE in *|].
    apply app_nil in Hnil as [_ Hnil%fmap_nil_inv]. by apply app_nil in Hnil as [_ ?]. }
  wp_step. apply (wp_fifo_read (quiet _) (λ s', s' = s2)).
  { by intros ? ? -> <-. } { intros ? ->. apply H2. } { done. }
  { intros Hb. cbn in Hb. congruence. }
  { intros r s' _ Hr. exfalso. cbn in Hr. rewrite He in Hr. by destruct Hr as [?|(? & [_ ?] & ?)]. }
  intros s0 m' z x r -> [_ Hz] Hx Hr. cbn in Hz. subst z. destruct Hr as [-> Hin].
  change (fifo_bytes (in_fifo (fifos_of s2))) with (fifo_bytes (in_fifo (queues s2))) in *.
  rewrite Hi2 in *. assert (u32 FIFO_SIZE `min` lenZ l = lenZ l) as E by (change (u32 FIFO_SIZE) with FIFO_SIZE; lia).
  rewrite E, Nat2Z.id, firstn_all, drop_all in *. wp_step. split_and!; [done|by apply reads_inv| |done].
  cbn. by rewrite (rd_out _ _ Hx).
Qed.

(** ** Loading and unloading *)

(** How [misc_loop_drv_init] may end, what it holds, and what it gave back that
    it did not hold. *)
Inductive load_outcome (port irq : Z) : Z → loop_mod → Prop :=
| NoMemory s : drvdata s = None → owned [] s → load_outcome port irq 0 s
| NoRegion s : owned [drvdata_mem] s → load_outcome port irq (- EBUSY) s
| NoMiscDevice r s : r < 0 → holding (loop_regs s) = [] →
    bad_frees (loop_regs s) =
      port_mapping :: irq_line irq :: (if this_device s then [misc_device] else []) →
    load_outcome port irq r s
| NoIrq r s : r < 0 → owned [misc_device; port_region port; drvdata_mem] s →
    load_outcome port irq r s
| Loaded s : drvdata s = Some (LoopData no_bytes true true) → mod_port s = [0; 0] → this_device s = true →
    owned [irq_line irq; misc_device; port_region port; drvdata_mem] s →
    load_outcome port irq 0 s.

Definition unloaded : loop_mod := LoopMod None [0; 0] false empty_registry.

(** [request_irq] and [misc_register] answer 0 or an error. *)
Record loop_mod_contract (C : contract loop_mod) : Prop := {
  lm_misc : ∀ z, c_ans C (kint "misc_register") z → z <= 0;
  lm_irq : ∀ z, c_ans C (kint "request_irq") z → z <= 0
}.

Lemma wp_on_drvdata C f d s (Q : unit → loop_mod → Prop) :
  drvdata s = Some d → Q tt (set_drvdata (Some (f d)) s) → wp C (on_drvdata f) Q s.
Proof.
  intros Hd HQ. unfold on_drvdata. do 2 wp_step. wp_step. eapply wp_deref; [done|]. by wp_step.
Qed.

Lemma wp_the_drvdata C d s (Q : loop_data → loop_mod → Prop) :
  drvdata s = Some d → Q d s → wp C (gets drvdata ≫= deref NullDeref) Q s.
Proof. intros Hd HQ. do 2 wp_step. by eapply wp_deref. Qed.

Lemma wp_cleanup C port irq d s (Q : unit → loop_mod → Prop) :
  irq ≠ 0 → drvdata s = Some d → port_ptr d = true → port_res d = true →
  (∀ s', this_device s' = this_device s → loop_regs s' =
    reg_del drvdata_mem (reg_del (port_region port) (reg_del port_mapping (reg_del (irq_line irq)
      (if this_device s then reg_del misc_device (loop_regs s) else loop_regs s)))) → Q tt s') →
  wp C (misc_loop_drv_cleanup port irq) Q s.
Proof.
  destruct s as [? p t g], d as [q ? ?]. cbn. intros Hirq -> -> -> HQ. unfold misc_loop_drv_cleanup.
  assert (c_bool irq = true) as -> by (unfold c_bool; by rewrite (proj2 (Z.eqb_neq _ _))).
  do 2 wp_step. cbn [this_device]. wp_step.
  assert (∀ g', g' = (if t then reg_del misc_device g else g) →
    wp C (give_back (irq_line irq);;
      on_drvdata (λ d, LoopData (set_pending false (loop_queues d)) (port_ptr d) (port_res d));;
      d ← gets drvdata ≫= deref NullDeref;
      (if port_ptr d then give_back port_mapping else mret tt);;
      (if port_res d then give_back (port_region port) else mret tt);;
      give_back drvdata_mem) Q (LoopMod (Some (LoopData q true true)) p t g')) as H.
  { intros g' ->. wp_step. apply wp_give_back. wp_step. eapply wp_on_drvdata; [done|].
    wp_step. eapply wp_the_drvdata; [done|]. wp_step. apply wp_give_back. wp_step.
    apply wp_give_back. apply wp_give_back. by apply HQ. }
  destruct t; [apply wp_give_back|wp_step]; by apply H.
Qed.

Lemma load_outcomes C port irq :
  loop_mod_contract C → irq ≠ 0 →
  wp C (misc_loop_drv_init port irq) (load_outcome port irq) unloaded.
Proof.
  intros HC Hirq. unfold misc_loop_drv_init, misc_loop_drv_data_init. wp_step. wp_step.
  apply wp_acquire_ptr; [|intros z _ Hz]; wp_step; wp_step; wp_step.
  { change (0 =? 0) with true. cbn iota. unfold init_exit. change (0 <? 0) with false. cbn iota.
    do 3 wp_step. by apply NoMemory. }
  rewrite (proj2 (Z.eqb_neq z 0)) by done. wp_step. apply wp_acquire_ptr.
  { change (0 =? 0) with true. cbn iota. wp_step. by apply NoRegion. }
  intros z1 _ Hz1. rewrite (proj2 (Z.eqb_neq z1 0)) by done. wp_step.
  eapply wp_on_drvdata; [done|]. wp_step. wp_step. wp_step. unfold misc_register. wp_step.
  apply wp_acquire.
  - do 5 wp_step. change (0 <? 0) with false. cbn iota. wp_step. apply wp_acquire.
    + change (0 <? 0) with false. cbn iota. unfold init_exit. change (0 <? 0) with false. cbn iota.
      do 3 wp_step. by apply Loaded.
    + intros r Hr Hr0. apply (lm_irq _ HC) in Hr. rewrite (proj2 (Z.ltb_lt r 0)) by lia. wp_step.
      apply NoIrq; [lia|done].
  - intros r Hr Hr0. apply (lm_misc _ HC) in Hr. do 5 wp_step. cbn [orb].
    rewrite (proj2 (Z.eqb_neq r 0)), (proj2 (Z.ltb_lt r 0)) by lia. cbn [orb].
    unfold init_exit. rewrite (proj2 (Z.ltb_lt r 0)) by lia. wp_step.
    eapply wp_cleanup; [done..|]. intros s' Ht Hg. wp_step. cbn in Ht, Hg.
    assert (owns_but [] (port_mapping :: irq_line irq :: if this_device s' then [misc_device] else [])
      (loop_regs s')) as [? ?]%owns_but_empty; [|by apply NoMiscDevice; [lia|..]].
    rewrite Hg, Ht. apply owns_but_del, owns_but_del, owns_but_miss; [set_solver|].
    apply owns_but_miss; [set_solver|]. destruct (c_bool z0); [apply owns_but_miss; [set_solver|]|]; done.
Qed.

(** Loading ends as [load_outcome] lists: a load that finds no memory
    succeeds with a NULL [drvdata], of which the unloading faults; one refused the
    region keeps the memory, one refused the line keeps all it had, with the misc
    device registered; one refused the misc device gives back all it had, and a
    line and a port mapping it had not. Unloading gives back all that is held,
    and the mapping again. *)
Theorem loop_module C port irq :
  loop_mod_contract C → irq ≠ 0 →
  wp C (misc_loop_drv_init port irq) (load_outcome port irq) unloaded ∧
  (∀ s, load_outcome port irq 0 s →
    match drvdata s with
    | None => ∀ o t, misc_loop_drv_cleanup port irq o (t, s) = Oops NullDeref
    | Some _ => wp C (misc_loop_drv_cleanup port irq)
        (λ _ s', holding (loop_regs s') = [] ∧ bad_frees (loop_regs s') = [port_mapping]) s
    end).
Proof.
  intros HC Hirq. split; [by apply load_outcomes|].
  intros s. generalize (eq_refl 0). generalize 0 at 1 3 as r. intros r Hr H.
  destruct H as [s Hd Ho|s|r s ?|r s ?|s Hd Hp Ht Ho]; [|done|lia|lia|]; rewrite Hd.
  - intros o t. destruct s as [d p dev g]. cbn in Hd. subst d. unfold misc_loop_drv_cleanup.
    by destruct dev, (c_bool irq).
  - eapply wp_cleanup; [done..|]. intros s' _ ->. rewrite Ht.
    apply owns_but_empty, owns_but_del, owns_but_del, owns_but_miss; [set_solver|].
    apply owns_but_del, owns_but_del. destruct Ho as [Hh Hb]. split; [|done].
    rewrite Hh. apply Permutation_swap.
Qed.
End driver.

(** The kernel of the documentation and any other calls. *)
Definition loop_kernel : contract (loop_dev (list Z)) :=
  documented (λ s s', loop_inv s → loop_inv s') True.

Lemma loop_kernel_ok : loop_contract loop_kernel.
Proof. by split. Qed.

Lemma loop_stream_witness :
  faultless (loop_handle (F := list Z)) (λ _ _, True) loop_kernel (λ s, s = loop_init) ∧
  ∀ s, reachable loop_handle (λ _ _, True) loop_kernel (λ s, s = loop_init) s →
    let x := queues s in
    handed x `sublist_of` (u8 <$> stored x) ∧
    (Forall (λ a, a.2 = true) (arrived x) → handed x `prefix_of` (u8 <$> stored x)) ∧
    (fifo_bytes (out_fifo x) ≠ [] → pending x = true).
Proof. apply (loop_stream loop_kernel), loop_kernel_ok. Defined.

Lemma loop_roundtrip_witness :
  wp (quiet (loop_dev (list Z))) (n ← misc_loop_drv_write 0 [104; 105; 33];
      for_each 3 0 (λ _, run_tasklet 2);;
      r ← misc_loop_drv_read 0 FIFO_SIZE; mret (n, r))
    (λ x s', x = (3, (3, [104; 105; 33])) ∧ loop_inv s' ∧ out_fifo (queues s') = [] ∧
      in_fifo (queues s') = []) loop_init.
Proof.
  apply (loop_roundtrip (Kfifo0 := list_kfifo) [104; 105; 33] (loop_init (Kfifo0 := list_kfifo))); [apply loop_init_inv|done..].
Defined.

(** With [in_fifo] full, what is written is lost. *)
Example loop_overrun :
  let s := LoopDev (Fifos (replicate 128 7) [] false false false [] [] [] []) [0; 0] in
  run quiet_oracle (n ← misc_loop_drv_write 0 [1]; run_tasklet 2;; mret n) s =
    Done (1, LoopDev (Fifos (replicate 128 7) [] false false true [1] [1] [(1, false)] []) [1; 0]).
Proof. vm_compute. reflexivity. Qed.

Definition loop_mod_kernel : contract (loop_mod (F := list Z)) :=
  Contract (λ c z, match c with kint _ => z <= 0 | _ => True end) alone False.

Lemma loop_mod_kernel_ok : loop_mod_contract loop_mod_kernel.
Proof. by split. Qed.

Lemma loop_module_witness :
  wp loop_mod_kernel (misc_loop_drv_init 1012 6) (load_outcome 1012 6) unloaded ∧
  (∀ s, load_outcome 1012 6 0 s →
    match drvdata s with
    | None => ∀ o t, misc_loop_drv_cleanup 1012 6 o (t, s) = Oops NullDeref
    | Some _ => wp loop_mod_kernel (misc_loop_drv_cleanup 1012 6)
        (λ _ s', holding (loop_regs s') = [] ∧ bad_frees (loop_regs s') = [port_mapping]) s
    end).
Proof. by apply (loop_module loop_mod_kernel 1012 6 loop_mod_kernel_ok). Defined.
