(* ===== verification/Ldt.v ===== *)
(** * ldt: the Linux driver template (src/ldt/ldt.c)

    A byte device over a UART, or over a loopback in software where there is
    none: the two FIFOs of [FifoDev], a tasklet that serves them, an interrupt
    and a timer that schedule it, and two buffers for [ioctl] and [mmap]. *)

From stdpp Require Import base tactics numbers list strings sets.
From S2P Require Import Prelude KMonad Registry FifoDev.
From Stdlib Require Import ZArith Lia.

Open Scope Z_scope.

(** ** Constants (serial_reg.h, mm.h) *)

Definition UART_TX : Z := 0.
Definition UART_RX : Z := 0.
Definition UART_IER : Z := 1.
Definition UART_FCR : Z := 2.
Definition UART_MCR : Z := 4.
Definition UART_LSR : Z := 5.
Definition UART_MSR : Z := 6.
Definition UART_LSR_DR : Z := 1.
Definition UART_LSR_THRE : Z := 32.
Definition VM_READ : Z := 1.
Definition VM_WRITE : Z := 2.
Definition bufsize : Z := 8 * PAGE_SIZE.

(** ** Data *)

(** [struct ldt_data]; a buffer is [None] while it is NULL. *)
Record ldt_data (F : Type) := LdtData {
  ldt_queues : fifos F;
  in_buf : option (list cell);
  out_buf : option (list cell);
  port_ptr : Z;
  uart_detected : bool
}.
Arguments LdtData {F} _ _ _ _ _.
Arguments ldt_queues {F} _.
Arguments in_buf {F} _.
Arguments out_buf {F} _.
Arguments port_ptr {F} _.
Arguments uart_detected {F} _.

(** What the driver keeps while [drvdata] is allocated. Ghosts: [line], the
    bytes given to the transmitter of the UART; [mappings], the mappings made
    of the buffers, [true] for [in_buf], with their lengths. *)
Record ldt (F : Type) := Ldt {
  drvdata : ldt_data F;
  isr_counter : Z;
  ioctl_lock : bool;
  timer_armed : bool;
  line : list Z;
  mappings : list (bool * Z)
}.
Arguments Ldt {F} _ _ _ _ _ _.
Arguments drvdata {F} _.
Arguments isr_counter {F} _.
Arguments ioctl_lock {F} _.
Arguments timer_armed {F} _.
Arguments line {F} _.
Arguments mappings {F} _.

Section driver.
Context {F : Type} `{!Kfifo F}.
Local Abbreviation KD := (K (ldt F)).

Definition set_drvdata (d : ldt_data F) (s : ldt F) : ldt F :=
  Ldt d (isr_counter s) (ioctl_lock s) (timer_armed s) (line s) (mappings s).
Definition set_isr_counter (v : Z) (s : ldt F) : ldt F :=
  Ldt (drvdata s) v (ioctl_lock s) (timer_armed s) (line s) (mappings s).
Definition set_ioctl_lock (v : bool) (s : ldt F) : ldt F :=
  Ldt (drvdata s) (isr_counter s) v (timer_armed s) (line s) (mappings s).
Definition set_timer_armed (v : bool) (s : ldt F) : ldt F :=
  Ldt (drvdata s) (isr_counter s) (ioctl_lock s) v (line s) (mappings s).
Definition set_line (v : list Z) (s : ldt F) : ldt F :=
  Ldt (drvdata s) (isr_counter s) (ioctl_lock s) (timer_armed s) v (mappings s).
Definition set_mappings (v : list (bool * Z)) (s : ldt F) : ldt F :=
  Ldt (drvdata s) (isr_counter s) (ioctl_lock s) (timer_armed s) (line s) v.

Definition set_ldt_queues (x : fifos F) (d : ldt_data F) : ldt_data F :=
  LdtData x (in_buf d) (out_buf d) (port_ptr d) (uart_detected d).
Definition set_in_buf (b : option (list cell)) (d : ldt_data F) : ldt_data F :=
  LdtData (ldt_queues d) b (out_buf d) (port_ptr d) (uart_detected d).
Definition set_out_buf (b : option (list cell)) (d : ldt_data F) : ldt_data F :=
  LdtData (ldt_queues d) (in_buf d) b (port_ptr d) (uart_detected d).

#[export] Instance ldt_fifos : HasFifos (ldt F) F.
Proof.
  refine {| fifos_of s := ldt_queues (drvdata s);
            set_fifos x s := set_drvdata (set_ldt_queues x (drvdata s)) s |}; try done.
  by intros [[]].
Defined.

Definition ioctl_mutex : HasLock (ldt F).
Proof. by refine {| lock_of := ioctl_lock; set_lock := set_ioctl_lock |}. Defined.

(** ** The tasklet *)

Definition ldt_received (data : Z) : KD unit := fifo_receive data.

(** [iowrite8] to the transmitter; the other registers are written when the
    driver is loaded and unloaded. *)
Definition ldt_send (loopback data : Z) : KD unit :=
  uart ← gets (λ s, uart_detected (drvdata s));
  if uart : bool then modify (λ s, set_line (line s ++ [u8 data]) s)
  else if c_bool loopback then ldt_received data else mret tt.

Definition ioread8 (offset : Z) : KD Z :=
  p ← gets (λ s, port_ptr (drvdata s));
  call (io_in (p + offset)).

Definition tx_ready : KD Z := r ← ioread8 UART_LSR; mret (Z.land r UART_LSR_THRE).
Definition rx_ready : KD Z := r ← ioread8 UART_LSR; mret (Z.land r UART_LSR_DR).

Fixpoint tx_loop (loopback : Z) (fuel : nat) : KD unit :=
  match fuel with
  | O => sleep_forever
  | S fuel =>
      r ← tx_ready;
      if c_bool r then
        x ← fifo_take;
        match x with
        | None => mret tt
        | Some data_out => ldt_send loopback data_out;; tx_loop loopback fuel
        end
      else mret tt
  end.

Fixpoint rx_loop (fuel : nat) : KD unit :=
  match fuel with
  | O => sleep_forever
  | S fuel =>
      r ← rx_ready;
      if c_bool r then
        data_in ← ioread8 UART_RX;
        ldt_received data_in;;
        rx_loop fuel
      else mret tt
  end.

(** The loop where no UART was detected. *)
Fixpoint soft_loop (loopback : Z) (fuel : nat) : KD unit :=
  match fuel with
  | O => sleep_forever
  | S fuel =>
      x ← fifo_take;
      match x with
      | None => mret tt
      | Some data_out => ldt_send loopback data_out;; soft_loop loopback fuel
      end
  end.

Definition ldt_tasklet_func (loopback : Z) (fuel : nat) : KD unit :=
  uart ← gets (λ s, uart_detected (drvdata s));
  if uart : bool then tx_loop loopback fuel;; rx_loop fuel else soft_loop loopback fuel.

(** The kernel runs a scheduled tasklet once. *)
Definition run_tasklet (loopback : Z) (fuel : nat) : KD unit :=
  p ← gets (λ s, pending (fifos_of s));
  if p : bool then on_fifos (set_pending false);; ldt_tasklet_func loopback fuel else mret tt.

(** ** The interrupt and the timer *)

Definition IRQ_HANDLED : Z := 1.

Definition ldt_isr : KD Z :=
  modify (λ s, set_isr_counter (s32 (isr_counter s + 1)) s);;
  tasklet_schedule;;
  mret IRQ_HANDLED.

Definition ldt_timer_func (loopback : Z) : KD unit :=
  (if c_bool loopback then tasklet_schedule else mret tt);;
  modify (set_timer_armed true).

(** ** File operations *)

Definition ldt_open : KD Z := mret 0.
Definition ldt_release : KD Z := mret 0.
Definition ldt_read : Z → Z → KD (Z * list Z) := fifo_read.
Definition ldt_write : Z → list Z → KD Z := fifo_write.
Definition ldt_poll : KD Z := fifo_poll.

(** [pages_flag] over the [page_num] pages from the first of [flags]. *)
Fixpoint pages_flag (flags : list Z) (page_num : nat) (mask value : Z) : outcome (list Z) :=
  match page_num with
  | O => Done flags
  | S page_num =>
      match flags with
      | [] => Oops OutOfBounds
      | f :: flags =>
          rest ← pages_flag flags page_num mask value;
          Done ((if c_bool value then Z.lor f (Z.shiftl 1 mask) else Z.ldiff f (Z.shiftl 1 mask)) :: rest)
      end
  end.

Definition ldt_mmap (vm_flags vm_start vm_end : Z) : KD Z :=
  d ← gets drvdata;
  let buf := if c_bool (Z.land vm_flags VM_WRITE) then b ← in_buf d; Some (true, b)
             else if c_bool (Z.land vm_flags VM_READ) then b ← out_buf d; Some (false, b)
             else None in
  match buf with
  | None => mret (- EINVAL)
  | Some (which, _) =>
      r ← call (kint "remap_pfn_range");
      if c_bool r then mret (- EAGAIN) else
      modify (λ s, set_mappings ((which, vm_end - vm_start) :: mappings s) s);;
      mret 0
  end.

(** [memcpy(b, data, |data|)] *)
Definition block_write (b : list cell) (data : list cell) : KD (list cell) :=
  if lenZ data <=? lenZ b then mret (store 0 data b) else oops OutOfBounds.

(** Command 0 of type 'A'; the value and what reaches user space. [user] is the
    memory of the size of the command at the user's address. *)
Definition ioctl_write (user : list Z) : KD (Z * list cell) :=
  b ← gets (λ s, in_buf (drvdata s)) ≫= deref NullDeref;
  '(data, ok) ← copy_from_user user;
  b ← block_write b data;
  modify (λ s, set_drvdata (set_in_buf (Some b) (drvdata s)) s);;
  if negb ok then mret (- EFAULT, []) else
  o ← gets (λ s, out_buf (drvdata s)) ≫= deref NullDeref;
  o ← block_write o b;
  z ← block_write b (zeroed bufsize);
  modify (λ s, set_drvdata (set_out_buf (Some o) (set_in_buf (Some z) (drvdata s))) s);;
  mret (0, []).

Definition ioctl_read (size : Z) : KD (Z * list cell) :=
  o ← gets (λ s, out_buf (drvdata s)) ≫= deref NullDeref;
  if lenZ o <? size then oops OutOfBounds else
  '(bytes, ok) ← copy_to_user (slice 0 size o);
  if negb ok then mret (- EFAULT, bytes) else
  z ← block_write o (zeroed bufsize);
  modify (λ s, set_drvdata (set_out_buf (Some z) (drvdata s)) s);;
  mret (0, bytes).

Definition ldt_ioctl (cmnd : Z) (user : list Z) : KD (Z * list cell) :=
  ok ← lock_interruptible (HasLock0 := ioctl_mutex);
  if negb ok then mret (- EINTR, []) else
  r ← (if (_IOC_TYPE cmnd =? 65) && (_IOC_NR cmnd =? 0) then
         if _IOC_DIR cmnd =? _IOC_WRITE then ioctl_write user
         else if _IOC_DIR cmnd =? _IOC_READ then ioctl_read (_IOC_SIZE cmnd)
         else mret (0, [])
       else mret (0, []));
  unlock (HasLock0 := ioctl_mutex);;
  mret r.

Inductive ldt_op :=
| DOpen | DRelease | DPoll | DIsr | DTimer | DTasklet
| DRead (f_flags count : Z)
| DWrite (f_flags : Z) (buf : list Z)
| DMmap (vm_flags vm_start vm_end : Z)
| DIoctl (cmnd : Z) (user : list Z).

Definition ldt_handle (loopback : Z) (fuel : nat) (o : ldt_op) : KD Z :=
  match o with
  | DOpen => ldt_open
  | DRelease => ldt_release
  | DPoll => ldt_poll
  | DIsr => ldt_isr
  | DTimer => ldt_timer_func loopback;; mret 0
  | DTasklet => run_tasklet loopback fuel;; mret 0
  | DRead f_flags count => kfmap fst (ldt_read f_flags count)
  | DWrite f_flags buf => ldt_write f_flags buf
  | DMmap vm_flags vm_start vm_end => ldt_mmap vm_flags vm_start vm_end
  | DIoctl cmnd user => kfmap fst (ldt_ioctl cmnd user)
  end.

(** The memory of an [ioctl] has the size the command says. *)
Definition ldt_allowed (s : ldt F) (o : ldt_op) : Prop :=
  match o with DIoctl cmnd user => lenZ user = _IOC_SIZE cmnd | _ => True end.

(** ** Specification *)

Definition buf_ok (b : option (list cell)) : Prop := ∃ l, b = Some l ∧ lenZ l = bufsize.

(** What holds at all times: both buffers have their size, and every byte sent
    went to the UART, or came back when there is none and [loopback] is set. *)
Record ldt_running (loopback : Z) (s : ldt F) : Prop := {
  ld_fifos : fifo_inv (fifos_of s);
  ld_bufs : buf_ok (in_buf (drvdata s)) ∧ buf_ok (out_buf (drvdata s));
  ld_locks : read_lock (fifos_of s) = false ∧ write_lock (fifos_of s) = false ∧ ioctl_lock s = false;
  ld_sent : if uart_detected (drvdata s) then line s = u8 <$> sent (fifos_of s)
    else (arrived (fifos_of s)).*1 = if c_bool loopback then sent (fifos_of s) else []
}.

(** Between two calls: without a UART, what waits to be sent has a tasklet
    scheduled for it. *)
Record ldt_inv (loopback : Z) (s : ldt F) : Prop := {
  ld_run : ldt_running loopback s;
  ld_pending : uart_detected (drvdata s) = false → fifo_bytes (out_fifo (fifos_of s)) ≠ [] →
    pending (fifos_of s) = true
}.

Record ldt_contract (loopback : Z) (C : contract (ldt F)) : Prop := {
  dc_ans : ∀ c z, c_ans C c z → doc_ans c z;
  dc_peer : ∀ s s', c_rely C s s' → ldt_inv loopback s → ldt_inv loopback s';
  dc_sleep : c_sleep C
}.

(** What arrives of [l] in a queue that holds [li]. *)
Definition received (loopback : Z) (li l : list Z) : list Z :=
  if c_bool loopback then take (Z.to_nat FIFO_SIZE) (li ++ l) else li.

(** ** The tasklet *)

Lemma running_fifos loopback s x :
  ldt_running loopback s → fifo_inv x →
  read_lock x = read_lock (fifos_of s) → write_lock x = write_lock (fifos_of s) →
  sent x = sent (fifos_of s) → (uart_detected (drvdata s) = false → arrived x = arrived (fifos_of s)) →
  ldt_running loopback (set_fifos x s).
Proof.
  intros [Hf Hb (H1 & H2 & H3) Hs] Hx Hr Hw Hsent Ha. split; cbn; [done|done|by rewrite Hr, Hw|].
  rewrite Hsent. destruct (uart_detected _) eqn:E; [done|]. by rewrite Ha.
Qed.

(** One byte leaves [out_fifo]. *)
Definition sent_one (loopback b : Z) (l : list Z) (s s' : ldt F) : Prop :=
  ldt_running loopback s' ∧ fifo_bytes (out_fifo (fifos_of s')) = l ∧
  uart_detected (drvdata s') = uart_detected (drvdata s) ∧
  fifo_bytes (in_fifo (fifos_of s')) =
    if uart_detected (drvdata s) then fifo_bytes (in_fifo (fifos_of s))
    else received loopback (fifo_bytes (in_fifo (fifos_of s))) [b].

Lemma uart_set_fifos x s : uart_detected (drvdata (set_fifos x s)) = uart_detected (drvdata s).
Proof. done. Qed.

Lemma wp_send C loopback b l f s (Q : unit → ldt F → Prop) :
  ldt_running loopback s → fifo_bytes (out_fifo (fifos_of s)) = b :: l → fifo_bytes f = l →
  (∀ s', sent_one loopback b l s s' → Q tt s') →
  wp C (ldt_send loopback b) Q (set_fifos (take_out b f (fifos_of s)) s).
Proof.
  intros [Hi Hb Hl Hs] Ho Hf HQ. pose proof (take_out_inv _ _ _ _ Ho Hf Hi) as Hi'.
  unfold ldt_send. wp_step. wp_step. rewrite uart_set_fifos.
  unfold sent_one, received in HQ. destruct (uart_detected (drvdata s)) eqn:Eu; [|destruct (c_bool loopback) eqn:El].
  - wp_step. apply HQ. split_and!; [|done..]. split; cbn; [done..|]. rewrite Eu, Hs.
    by rewrite fmap_app.
  - apply wp_on_fifos, HQ. rewrite fifos_set. set (x := take_out b f (fifos_of s)) in *.
    pose proof (receive_inv b x Hi') as Hy. pose proof (receive_in b x (proj2 (fi_sizes _ Hi'))) as Hin.
    destruct (receive_ghosts b x) as (Ro & Rs & Ra & _ & Rr & Rw).
    set (y := receive b x) in *. clearbody y. subst x. cbn in Ro, Rs, Ra, Rr, Rw, Hin.
    split_and!; [|cbn; by rewrite Ro|done|done].
    split; cbn; [done|done|by rewrite Rr, Rw|]. rewrite Eu, El, Ra, Rs. cbn in Hs. by rewrite Hs.
  - wp_step. apply HQ. split_and!; [|done..]. split; cbn; [done..|]. by rewrite Eu, El.
Qed.

Lemma received_app loopback li l k : received loopback (received loopback li l) k = received loopback li (l ++ k).
Proof. unfold received. destruct (c_bool loopback); [|done]. by rewrite take_take_app, app_assoc. Qed.

Lemma received_nil loopback s :
  ldt_running loopback s →
  received loopback (fifo_bytes (in_fifo (fifos_of s))) [] = fifo_bytes (in_fifo (fifos_of s)).
Proof.
  intros Hs. pose proof (proj2 (fi_sizes _ (ld_fifos _ _ Hs))). unfold received. destruct (c_bool _); [|done].
  rewrite app_nil_r, take_ge; [done|lia].
Qed.

Lemma wp_soft_loop C loopback fuel s (Q : unit → ldt F → Prop) :
  ldt_running loopback s → uart_detected (drvdata s) = false →
  (length (fifo_bytes (out_fifo (fifos_of s))) < fuel)%nat →
  (∀ s', ldt_running loopback s' → uart_detected (drvdata s') = false →
    fifo_bytes (out_fifo (fifos_of s')) = [] →
    fifo_bytes (in_fifo (fifos_of s')) =
      received loopback (fifo_bytes (in_fifo (fifos_of s))) (fifo_bytes (out_fifo (fifos_of s))) →
    Q tt s') →
  wp C (soft_loop loopback fuel) Q s.
Proof.
  revert s. induction fuel as [|fuel IH]; intros s Hs Hu Hf HQ; [lia|]. cbn [soft_loop]. wp_step.
  apply wp_fifo_take.
  - intros Ho. wp_step. apply HQ; [done..|]. by rewrite Ho, received_nil.
  - intros b l f Ho Ef. rewrite Ho in Hf. cbn in Hf. wp_step. eapply wp_send; [done..|].
    intros s' (H1 & Ho' & Hu' & Hi'). rewrite Hu in Hu', Hi'.
    apply IH; [done|done|rewrite Ho'; lia|]. intros s2 H2 Hu2 Ho2 Hi2. apply HQ; [done..|].
    by rewrite Hi2, Hi', Ho', received_app, Ho.
Qed.

Lemma wp_uart_tx_loop C loopback fuel s (Q : unit → ldt F → Prop) :
  ldt_running loopback s → uart_detected (drvdata s) = true →
  (length (fifo_bytes (out_fifo (fifos_of s))) < fuel)%nat →
  (∀ s', ldt_running loopback s' → uart_detected (drvdata s') = true → Q tt s') →
  wp C (tx_loop loopback fuel) Q s.
Proof.
  revert s. induction fuel as [|fuel IH]; intros s Hs Hu Hf HQ; [lia|]. cbn [tx_loop].
  unfold tx_ready, ioread8. do 6 wp_step. wp_step; [|wp_step; by apply HQ]. wp_step.
  apply wp_fifo_take.
  - intros _. wp_step. by apply HQ.
  - intros b l f Ho Ef. rewrite Ho in Hf. cbn in Hf. wp_step. eapply wp_send; [done..|].
    intros s' (H1 & Ho' & Hu' & _). rewrite Hu in Hu'. apply IH; [done|done|rewrite Ho'; lia|done].
Qed.

(** As long as the UART has bytes, or for ever. *)
Lemma wp_uart_rx_loop C loopback fuel s (Q : unit → ldt F → Prop) :
  c_sleep C → ldt_running loopback s → uart_detected (drvdata s) = true →
  (∀ s', ldt_running loopback s' → uart_detected (drvdata s') = true → Q tt s') →
  wp C (rx_loop fuel) Q s.
Proof.
  intros Hsl. revert s. induction fuel as [|fuel IH]; intros s Hs Hu HQ; [by apply wp_sleep|]. cbn [rx_loop].
  unfold rx_ready, ioread8. do 6 wp_step. wp_step; [|wp_step; by apply HQ]. do 4 wp_step. wp_step.
  apply wp_on_fifos, IH; [|done|done]. destruct (receive_ghosts z0 (fifos_of s)) as (_ & Rs & _ & _ & Rr & Rw).
  apply running_fifos; [done|by apply receive_inv, Hs|done..|]. by rewrite Hu.
Qed.

Lemma running_pending loopback b s :
  ldt_running loopback s → ldt_running loopback (set_fifos (set_pending b (fifos_of s)) s).
Proof. intros Hs. apply running_fifos; [done|apply set_pending_inv, Hs|done..]. Qed.

Lemma wp_run_tasklet C loopback fuel s (Q : unit → ldt F → Prop) :
  c_sleep C → ldt_inv loopback s → FIFO_SIZE < Z.of_nat fuel →
  (∀ s', ldt_inv loopback s' → Q tt s') → wp C (run_tasklet loopback fuel) Q s.
Proof.
  intros Hsl Hs Hf HQ. unfold run_tasklet. wp_step. wp_step.
  destruct (pending (fifos_of s)); [|wp_step; by apply HQ]. wp_step. apply wp_on_fifos.
  destruct Hs as [Hs _]. pose proof (proj1 (fi_sizes _ (ld_fifos _ _ Hs))) as Hsz.
  apply (running_pending _ false) in Hs. set (s1 := set_fifos _ s) in *.
  unfold ldt_tasklet_func. wp_step. wp_step. destruct (uart_detected (drvdata s1)) eqn:Hu.
  - wp_step. eapply wp_uart_tx_loop; [done|done|cbn in *; lia|]. intros s2 H2 Hu2.
    eapply wp_uart_rx_loop; [done..|]. intros s3 H3 Hu3. apply HQ. split; [done|]. by rewrite Hu3.
  - eapply wp_soft_loop; [done|done|cbn in *; lia|]. intros s2 H2 Hu2 Ho2 _. apply HQ.
    split; [done|]. by rewrite Ho2.
Qed.

(** ** The buffers *)

Definition with_bufs (i o : list cell) (s : ldt F) : ldt F :=
  set_drvdata (set_out_buf (Some o) (set_in_buf (Some i) (drvdata s))) s.

Lemma with_bufs_inv loopback i o s :
  ldt_inv loopback s → lenZ i = bufsize → lenZ o = bufsize → ldt_inv loopback (with_bufs i o s).
Proof. intros [[Hf Hb Hl Hs] Hp] Hi Ho. split; [|done]. split; [done|split; by eexists|done|done]. Qed.

Lemma wp_block_write C b data s (Q : list cell → ldt F → Prop) :
  lenZ data <= lenZ b → Q (store 0 data b) s → wp C (block_write b data) Q s.
Proof. intros Hl HQ. unfold block_write. rewrite (proj2 (Z.leb_le _ _)) by done. by wp_step. Qed.

Lemma bufsize_zeroed : lenZ (zeroed bufsize) = bufsize.
Proof. apply length_zeroed. unfold bufsize, PAGE_SIZE. lia. Qed.

Lemma ioc_size_bound cmnd : 0 <= _IOC_SIZE cmnd <= bufsize.
Proof.
  unfold _IOC_SIZE. change 16383 with (Z.ones 14). rewrite Z.land_ones by lia.
  pose proof (Z.mod_pos_bound (Z.shiftr cmnd 16) (2 ^ 14)). unfold bufsize, PAGE_SIZE. lia.
Qed.

#[local] Opaque bufsize.

Lemma store_all (b b' : list cell) : lenZ b = bufsize → lenZ b' = bufsize → store 0 b b' = b.
Proof. intros. apply store_full. lia. Qed.

Section buffers.
Context (C : contract (ldt F)) (i o : list cell) (s : ldt F).
Context (Hans : ∀ c z, c_ans C c z → doc_ans c z).
Context (Hin : in_buf (drvdata s) = Some i) (Hout : out_buf (drvdata s) = Some o).
Context (Hi : lenZ i = bufsize) (Ho : lenZ o = bufsize).

(** A write leaves the bytes in [out_buf], or fails. *)
Lemma wp_ioctl_write user (Q : Z * list cell → ldt F → Prop) :
  lenZ user <= bufsize →
  Q (0, []) (with_bufs (zeroed bufsize) (store 0 (Some <$> user) i) s) →
  (∀ i' z, lenZ i' = bufsize → c_ans C (copy_user (lenZ user)) z → z ≠ 0 →
    Q (- EFAULT, []) (with_bufs i' o s)) →
  wp C (ioctl_write user) Q s.
Proof.
  intros Hu Hok Hko. unfold ioctl_write. do 3 wp_step. eapply wp_deref; [done|]. wp_step.
  assert (∀ l, with_bufs l o s = set_drvdata (set_in_buf (Some l) (drvdata s)) s) as Hset.
  { intros l. unfold with_bufs. f_equal. destruct (drvdata s). cbn in *. by subst. }
  apply wp_copy_from_user; [by intros; apply Hans|..].
  - intros z Hz _. wp_step. apply wp_block_write; [rewrite length_fmap; lia|].
    set (b := store 0 _ i). assert (lenZ b = bufsize) as Hb by (unfold b; by rewrite length_store).
    wp_step. wp_step. cbn [negb]. do 3 wp_step. eapply wp_deref; [cbn; done|]. wp_step.
    apply wp_block_write; [lia|]. rewrite store_all by done. wp_step.
    apply wp_block_write; [rewrite bufsize_zeroed; lia|]. rewrite (store_all _ b bufsize_zeroed Hb).
    wp_step. wp_step. wp_step. exact Hok.
  - intros z l Hz Hz0 Hl. wp_step. apply wp_block_write; [lia|]. wp_step. wp_step. cbn [negb].
    wp_step. rewrite <-Hset. eapply Hko; [by rewrite length_store|done|done].
Qed.

(** A read hands the start of [out_buf] over and clears it, or fails. *)
Lemma wp_ioctl_read size (Q : Z * list cell → ldt F → Prop) :
  0 <= size <= bufsize →
  Q (0, slice 0 size o) (with_bufs i (zeroed bufsize) s) →
  (∀ l z, c_ans C (copy_user size) z → z ≠ 0 → Q (- EFAULT, l) s) →
  wp C (ioctl_read size) Q s.
Proof.
  intros Hs Hok Hko. unfold ioctl_read. do 3 wp_step. eapply wp_deref; [done|].
  rewrite (proj2 (Z.ltb_ge _ _)) by lia. wp_step. apply wp_copy_to_user. intros z Hz.
  rewrite length_slice in Hz by lia. wp_step; [wp_step; by eapply Hko|]. subst z.
  rewrite Nat.sub_0_r, firstn_all. wp_step. apply wp_block_write; [rewrite bufsize_zeroed; lia|].
  rewrite (store_all _ o bufsize_zeroed Ho). wp_step. wp_step. wp_step.
  replace (set_drvdata _ s) with (with_bufs i (zeroed bufsize) s); [exact Hok|].
  unfold with_bufs. f_equal. destruct (drvdata s). cbn in *. by subst.
Qed.
End buffers.

(** ** Every call *)

Lemma reads_run loopback s y : ldt_inv loopback s → reads (fifos_of s) y → ldt_inv loopback (set_fifos y s).
Proof.
  intros [Hs Hp] [H1 H2 (H3 & H4 & H5) _ (H6 & H7 & H8)]. split.
  - apply running_fifos; [done|apply H1, Hs|done..].
  - cbn. rewrite H2, H8. exact Hp.
Qed.

Lemma writes_run loopback s y : ldt_inv loopback s → writes (fifos_of s) y → ldt_inv loopback (set_fifos y s).
Proof.
  intros [Hs Hp] [H1 H2 (H3 & H4 & H5) _ (H6 & H7 & H8)]. split.
  - apply running_fifos; [done|apply H1, Hs|done..].
  - cbn. by rewrite H8.
Qed.

Lemma ldt_scheduled loopback s :
  ldt_inv loopback s → ldt_inv loopback (set_fifos (set_pending true (fifos_of s)) s).
Proof. intros [Hs _]. split; [by apply running_pending|done]. Qed.

Lemma inv_same loopback (s s' : ldt F) :
  drvdata s' = drvdata s → line s' = line s → ioctl_lock s' = ioctl_lock s →
  ldt_inv loopback s → ldt_inv loopback s'.
Proof.
  intros Hd Hl Hi [[Hf Hb Hk Hs] Hp]. cbn in *. split; [split|]; cbn; rewrite Hd; try done.
  - by rewrite Hi.
  - by rewrite Hl.
Qed.

Lemma wp_ldt_ioctl C loopback cmnd user s (Q : Z * list cell → ldt F → Prop) :
  ldt_contract loopback C → ldt_inv loopback s → lenZ user = _IOC_SIZE cmnd →
  (∀ r s', ldt_inv loopback s' → Q r s') → wp C (ldt_ioctl cmnd user) Q s.
Proof.
  intros HC Hs Hlen HQ. pose proof (ioc_size_bound cmnd) as Hsz.
  unfold ldt_ioctl. wp_step. apply wp_lock_interruptible.
  { intros s' Hr. by apply (dc_peer _ _ HC) in Hr; [apply Hr|]. }
  2:{ intros s' z Hr _ _. cbn [negb]. wp_step. apply HQ. by eapply (dc_peer _ _ HC). }
  intros s1 z Hr _ _. apply (dc_peer _ _ HC) in Hr; [|done]. cbn [negb set_lock ioctl_mutex].
  set (s2 := set_ioctl_lock true s1).
  destruct (proj1 (ld_bufs _ _ (ld_run _ _ Hr))) as (i & Hi & Hil).
  destruct (proj2 (ld_bufs _ _ (ld_run _ _ Hr))) as (o & Ho & Hol).
  assert (ioctl_lock s1 = false) as Hfree by apply (ld_locks _ _ (ld_run _ _ Hr)).
  assert (∀ i' o' r, lenZ i' = bufsize → lenZ o' = bufsize →
    wp C (unlock (HasLock0 := ioctl_mutex);; mret r) Q (with_bufs i' o' s2)) as Hend.
  { intros i' o' r Hi' Ho'. wp_step. apply wp_unlock; [done|]. wp_step. apply HQ.
    apply (with_bufs_inv _ i' o') in Hr; [|done..]. revert Hr. by apply inv_same. }
  assert (s2 = with_bufs i o s2) as Hsame.
  { unfold with_bufs, s2. cbn. destruct s1 as [[]]. cbn in *. by subst. }
  assert (∀ r, wp C (unlock (HasLock0 := ioctl_mutex);; mret r) Q s2) as Hnop
    by (intros r; rewrite Hsame; by apply Hend).
  assert (∀ c z, c_ans C c z → doc_ans c z) as Hans by apply (dc_ans _ _ HC).
  wp_step. destruct (_ && _); [|wp_step; apply Hnop].
  destruct (_ =? _); [|destruct (_ =? _); [|wp_step; apply Hnop]].
  - apply (wp_ioctl_write C i o); [done..|lia| |].
    + apply Hend; [apply bufsize_zeroed|by rewrite length_store].
    + intros i' _ Hi' _ _. by apply Hend.
  - apply (wp_ioctl_read C i o); [done..|lia| |].
    + apply Hend; [done|apply bufsize_zeroed].
    + intros l _ _ _. apply Hnop.
Qed.

Lemma ldt_handle_inv loopback C fuel o s :
  ldt_contract loopback C → FIFO_SIZE < Z.of_nat fuel → ldt_inv loopback s → ldt_allowed s o →
  wp C (ldt_handle loopback fuel o) (λ _, ldt_inv loopback) s.
Proof.
  intros HC Hf Hs Ha. assert (∀ s s', ldt_inv loopback s → c_rely C s s' → ldt_inv loopback s') as Hpeer.
  { intros s1 s2 H1 Hr. by eapply (dc_peer _ _ HC). }
  assert (∀ s, ldt_inv loopback s → read_lock (fifos_of s) = false ∧ write_lock (fifos_of s) = false) as Hfree.
  { intros s1 [[_ _ (? & ? & _) _] _]. done. }
  assert (∀ s, ldt_inv loopback s → fifo_inv (fifos_of s)) as Hfi by (intros s1 H1; apply H1).
  pose proof (dc_sleep _ _ HC) as Hsl.
  destruct o as [| | | | | |f n|f buf|fl a b|cmnd user]; cbn [ldt_handle]; [by apply wp_ret|by apply wp_ret|..].
  - unfold ldt_poll, fifo_poll. by repeat wp_step.
  - unfold ldt_isr, tasklet_schedule. wp_step. wp_step. wp_step. apply wp_on_fifos. wp_step.
    apply ldt_scheduled. revert Hs. by apply inv_same.
  - unfold ldt_timer_func, tasklet_schedule. wp_step. wp_step. destruct (c_bool loopback);
      [apply wp_on_fifos|wp_step]; wp_step; wp_step; [apply ldt_scheduled in Hs|]; revert Hs; by apply inv_same.
  - wp_step. apply (wp_run_tasklet C loopback); [done..|]. intros s' Hs'. by wp_step.
  - apply wp_kfmap, (wp_fifo_read C (ldt_inv loopback)); [done..|].
    intros s0 m z y r H0 _ Hy _. by apply reads_run.
  - apply (wp_fifo_write C (ldt_inv loopback)); [done..|].
    intros s0 m z y r H0 _ Hy _. by apply writes_run.
  - unfold ldt_mmap. wp_step. wp_step. wp_step; [|by wp_step]. wp_step.
    do 2 wp_step. wp_step; [by wp_step|]. do 3 wp_step. revert Hs. by apply inv_same.
  - apply wp_kfmap. by eapply wp_ldt_ioctl.
Qed.

(** The driver after a load, with or without a UART. *)
Definition ldt_start (s : ldt F) : Prop :=
  fifos_of s = Fifos fifo_init fifo_init false false false [] [] [] [] ∧ ioctl_lock s = false ∧ line s = [] ∧
  buf_ok (in_buf (drvdata s)) ∧ buf_ok (out_buf (drvdata s)).

Lemma ldt_start_inv loopback s : ldt_start s → ldt_inv loopback s.
Proof.
  intros (Hf & Hl & Hline & Hi & Ho). assert (fifo_bytes (fifo_init : F) = []) as E by apply fifo_init_bytes.
  split; [split|]; [rewrite Hf|done|by rewrite Hf|rewrite Hf|rewrite Hf].
  - split; cbn; by rewrite ?E.
  - cbn. rewrite Hline. by destruct (uart_detected _), (c_bool loopback).
  - by cbn.
Qed.

(** The command under a quiet kernel. *)
Section quiet_ioctl.
Context (loopback : Z) (i o : list cell) (s : ldt F).
Context (Hs : ldt_inv loopback s).
Context (Hin : in_buf (drvdata s) = Some i) (Hout : out_buf (drvdata s) = Some o).
Context (Hi : lenZ i = bufsize) (Ho : lenZ o = bufsize).

Lemma with_bufs_unlocked i' o' :
  ioctl_lock s = false → set_ioctl_lock false (with_bufs i' o' (set_ioctl_lock true s)) = with_bufs i' o' s.
Proof. destruct s. cbn. by intros ->. Qed.

(** Both commands take the lock, run, and let it go. *)
Lemma wp_ioctl_locked cmnd user (m : KD (Z * list cell)) r i' o' (Q : Z * list cell → ldt F → Prop) :
  (if (_IOC_TYPE cmnd =? 65) && (_IOC_NR cmnd =? 0) then
     if _IOC_DIR cmnd =? _IOC_WRITE then ioctl_write user
     else if _IOC_DIR cmnd =? _IOC_READ then ioctl_read (_IOC_SIZE cmnd) else mret (0, [])
   else mret (0, [])) = m →
  wp (quiet _) m (λ r' s', r' = r ∧ s' = with_bufs i' o' (set_ioctl_lock true s)) (set_ioctl_lock true s) →
  Q r (with_bufs i' o' s) → wp (quiet _) (ldt_ioctl cmnd user) Q s.
Proof.
  intros Hm Hw HQ. pose proof (ld_locks _ _ (ld_run _ _ Hs)) as (_ & _ & Hl).
  unfold ldt_ioctl. wp_step. apply wp_lock_interruptible_quiet; [done|]. cbn [negb]. wp_step.
  rewrite Hm. eapply wp_mono; [exact Hw|]. intros r' s' [-> ->]. wp_step.
  apply wp_unlock; [done|]. wp_step. cbn [set_lock ioctl_mutex]. by rewrite with_bufs_unlocked.
Qed.

Lemma wp_ioctl_w user (Q : Z * list cell → ldt F → Prop) :
  lenZ user < 2 ^ 14 →
  Q (0, []) (with_bufs (zeroed bufsize) (store 0 (Some <$> user) i) s) →
  wp (quiet _) (ldt_ioctl (_IOW 65 0 (lenZ user)) user) Q s.
Proof.
  intros Hu. pose proof (ioc_size_bound (_IOW 65 0 (lenZ user))) as Hb.
  destruct (ioc_fields _IOC_WRITE 65 0 (lenZ user)) as (Ed & Et & En & Es); [unfold _IOC_WRITE; lia|lia..|].
  unfold _IOW in *. rewrite Es in Hb. intros HQ.
  eapply (wp_ioctl_locked _ _ (ioctl_write user)); [by rewrite Ed, Et, En| |exact HQ].
  apply (wp_ioctl_write _ i o); [by intros ? ? []|done..|lia|done|]. intros i' z _ [_ Hz] Hz'. done.
Qed.

Lemma wp_ioctl_r size user (Q : Z * list cell → ldt F → Prop) :
  0 <= size < 2 ^ 14 → Q (0, slice 0 size o) (with_bufs i (zeroed bufsize) s) →
  wp (quiet _) (ldt_ioctl (_IOR 65 0 size) user) Q s.
Proof.
  intros Hu. pose proof (ioc_size_bound (_IOR 65 0 size)) as Hb.
  destruct (ioc_fields _IOC_READ 65 0 size) as (Ed & Et & En & Es); [unfold _IOC_READ; lia|lia..|].
  unfold _IOR in *. rewrite Es in Hb. intros HQ.
  eapply (wp_ioctl_locked _ _ (ioctl_read size)); [by rewrite Ed, Et, En, Es| |exact HQ].
  apply (wp_ioctl_read _ i o); [done..|]. intros l z [_ Hz] Hz'. done.
Qed.
End quiet_ioctl.

(** ** Properties *)

(** C11: whatever calls, interrupts and timers come, in any order, with other
    tasks calling while one waits, nothing faults; what goes to the UART is a
    prefix of what writers stored; without one readers get, in order, bytes that
    writers stored, and a byte that waits has a tasklet scheduled for it; readers
    get, in order, bytes that arrived, none skipped unless the queue was full. *)
Theorem ldt_stream loopback C fuel :
  ldt_contract loopback C → FIFO_SIZE < Z.of_nat fuel →
  faultless (ldt_handle loopback fuel) ldt_allowed C ldt_start ∧
  ∀ s, reachable (ldt_handle loopback fuel) ldt_allowed C ldt_start s →
    let x := fifos_of s in
    (if uart_detected (drvdata s) then line s `prefix_of` (u8 <$> stored x)
     else handed x `sublist_of` stored x ∧
       (fifo_bytes (out_fifo x) ≠ [] → pending x = true)) ∧
    handed x `sublist_of` (arrived x).*1 ∧
    (Forall (λ a, a.2 = true) (arrived x) → handed x `prefix_of` (arrived x).*1).
Proof.
  intros HC Hf.
  assert (inductive_inv (ldt_handle loopback fuel) ldt_allowed C ldt_start (ldt_inv loopback)) as Hinv.
  { split; [|split]; [by intros; apply ldt_start_inv|by intros; apply ldt_handle_inv|].
    intros s s' Hs Hr. by eapply (dc_peer _ _ HC). }
  split; [by eapply inv_faultless|]. intros s Hs x.
  destruct (reachable_inv _ _ _ _ _ _ Hinv Hs) as [[Hi _ _ Hsent] Hp].
  pose proof (handed_arrived _ Hi) as [H1 H2]. pose proof (sent_stored _ Hi) as [l Hl].
  fold x in Hsent, Hp, H1, H2, Hl. split_and!; [|done..].
  destruct (uart_detected _).
  - rewrite Hsent, Hl, fmap_app. by apply prefix_app_r.
  - split; [|by apply Hp]. rewrite Hsent in H1. rewrite Hl.
    destruct (c_bool loopback); [by apply sublist_inserts_r|].
    apply sublist_nil_r in H1 as ->. apply sublist_nil_l.
Qed.

(** Without a UART a run of the tasklet ends with nothing left to send, and
    with [loopback] all of it arrived behind what was to be read, up to the size
    of the queue; without, it is gone. *)
Theorem ldt_loopback_drains loopback C fuel s :
  ldt_inv loopback s → uart_detected (drvdata s) = false →
  FIFO_SIZE < Z.of_nat fuel →
  wp C (run_tasklet loopback fuel)
    (λ _ s', ldt_inv loopback s' ∧ fifo_bytes (out_fifo (fifos_of s')) = [] ∧
      fifo_bytes (in_fifo (fifos_of s')) =
        received loopback (fifo_bytes (in_fifo (fifos_of s))) (fifo_bytes (out_fifo (fifos_of s)))) s.
Proof.
  intros [Hs Hp] Hu Hf. pose proof (proj1 (fi_sizes _ (ld_fifos _ _ Hs))) as Hsz.
  unfold run_tasklet. wp_step. wp_step. destruct (pending (fifos_of s)) eqn:E.
  - wp_step. apply wp_on_fifos. unfold ldt_tasklet_func. wp_step. wp_step. rewrite uart_set_fifos, Hu.
    eapply wp_soft_loop; [by apply running_pending|done|cbn in *; lia|].
    intros s2 H2 Hu2 Ho2 Hi2. split_and!; [split; [done|by rewrite Ho2]|done|done].
  - assert (fifo_bytes (out_fifo (fifos_of s)) = []) as Ho.
    { destruct (fifo_bytes _); [done|]. discriminate Hp; done. }
    wp_step. split_and!; [by split|done|]. by rewrite Ho, received_nil.
Qed.

(** What one [ioctl] writes the next one reads back, and one more reads
    zeros. *)
Theorem ldt_ioctl_roundtrip loopback user s :
  let size := lenZ user in
  size < 2 ^ 14 → ldt_inv loopback s →
  wp (quiet _) (w ← ldt_ioctl (_IOW 65 0 size) user;
      r ← ldt_ioctl (_IOR 65 0 size) user;
      r' ← ldt_ioctl (_IOR 65 0 size) user; mret (w, r, r'))
    (λ x s', x = ((0, []), (0, Some <$> user), (0, zeroed size)) ∧ ldt_inv loopback s') s.
Proof.
  intros size Hsz Hs.
  destruct (proj1 (ld_bufs _ _ (ld_run _ _ Hs))) as (i & Hi & Hil).
  destruct (proj2 (ld_bufs _ _ (ld_run _ _ Hs))) as (o & Ho & Hol).
  pose proof (ioc_size_bound (_IOW 65 0 size)) as Hb.
  destruct (ioc_fields _IOC_WRITE 65 0 size) as (_ & _ & _ & Es); [unfold _IOC_WRITE; lia|lia..|].
  unfold _IOW in Hb. rewrite Es in Hb. clear Es.
  assert (lenZ (store 0 (Some <$> user) i) = bufsize) as Hst by (by rewrite length_store).
  wp_step. apply (wp_ioctl_w loopback i o); [done..|].
  apply (with_bufs_inv _ (zeroed bufsize) (store 0 (Some <$> user) i)) in Hs; [|apply bufsize_zeroed|done].
  wp_step. eapply (wp_ioctl_r loopback _ _ _ Hs); [done|done|exact Hst|lia|].
  replace (slice 0 size (store 0 (Some <$> user) i)) with (Some <$> user).
  2:{ symmetry. unfold size. rewrite <-(length_fmap Some user) at 1. apply slice_store; rewrite ?length_fmap; lia. }
  apply (with_bufs_inv _ (zeroed bufsize) (zeroed bufsize)) in Hs; [|apply bufsize_zeroed..].
  wp_step. eapply (wp_ioctl_r loopback _ _ _ Hs); [done|done|apply bufsize_zeroed|lia|].
  wp_step. split; [|by apply with_bufs_inv; [|apply bufsize_zeroed..]].
  f_equal. f_equal. unfold slice, zeroed. rewrite drop_0, take_replicate. f_equal. lia.
Qed.
End driver.

(** A kernel as documented with any other calls, and a driver just loaded where
    there is no UART. *)
Definition ldt_kernel (loopback : Z) : contract (ldt (list Z)) :=
  documented (λ s s', ldt_inv loopback s → ldt_inv loopback s') True.

Lemma ldt_kernel_ok loopback : ldt_contract loopback (ldt_kernel loopback).
Proof. by split. Qed.

Definition ldt_started : ldt (list Z) :=
  Ldt (LdtData (Fifos [] [] false false false [] [] [] []) (Some (zeroed bufsize)) (Some (zeroed bufsize)) 760 false)
    0 false true [] [].

Lemma ldt_started_ok : ldt_start ldt_started.
Proof. split_and!; [done..| |]; eexists; (split; [done|apply bufsize_zeroed]). Qed.

Lemma ldt_stream_witness :
  faultless (ldt_handle (F := list Z) 1 129) ldt_allowed (ldt_kernel 1) ldt_start ∧
  ∀ s, reachable (ldt_handle 1 129) ldt_allowed (ldt_kernel 1) ldt_start s →
    let x := fifos_of s in
    (if uart_detected (drvdata s) then line s `prefix_of` (u8 <$> stored x)
     else handed x `sublist_of` stored x ∧
       (fifo_bytes (out_fifo x) ≠ [] → pending x = true)) ∧
    handed x `sublist_of` (arrived x).*1 ∧
    (Forall (λ a, a.2 = true) (arrived x) → handed x `prefix_of` (arrived x).*1).
Proof. apply (ldt_stream 1 (ldt_kernel 1) 129); [apply ldt_kernel_ok|done]. Defined.

(** The same with a byte to be read and two to be sent. *)
Definition ldt_busy : ldt (list Z) :=
  set_fifos (Fifos [7] [1; 2] false false true [7; 1; 2] [7] [(7, true)] []) ldt_started.

Lemma ldt_busy_inv : ldt_inv 1 ldt_busy.
Proof. destruct ldt_started_ok as (_ & _ & _ & Hb). by split; [split; [|exact Hb|..]|]. Qed.

Lemma ldt_loopback_drains_witness :
  wp (quiet (ldt (list Z))) (run_tasklet 1 129)
    (λ _ s', ldt_inv 1 s' ∧ out_fifo (fifos_of s') = [] ∧ in_fifo (fifos_of s') = [7; 1; 2]) ldt_busy.
Proof. apply (ldt_loopback_drains (Kfifo0 := list_kfifo) 1 (quiet _) 129 ldt_busy ldt_busy_inv); done. Defined.

Lemma ldt_ioctl_roundtrip_witness :
  let size := 3 in
  wp (quiet (ldt (list Z))) (w ← ldt_ioctl (_IOW 65 0 size) [97; 98; 99];
      r ← ldt_ioctl (_IOR 65 0 size) [97; 98; 99];
      r' ← ldt_ioctl (_IOR 65 0 size) [97; 98; 99]; mret (w, r, r'))
    (λ x s', x = ((0, []), (0, [Some 97; Some 98; Some 99]), (0, zeroed size)) ∧ ldt_inv 1 s') ldt_started.
Proof. by apply (ldt_ioctl_roundtrip (Kfifo0 := list_kfifo) 1 [97; 98; 99] ldt_started); [|apply ldt_start_inv, ldt_started_ok]. Defined.
