(* ===== verification/LdtModule.v ===== *)
(** * ldt: loading and unloading (src/ldt/ldt.c)

    The data of the driver and its buffers, the probe of the UART, and what is
    registered with the kernel, on every way out of [ldt_init]. *)

From stdpp Require Import base tactics numbers list strings sets.
From S2P Require Import Prelude KMonad Registry FifoDev Ldt.
From Stdlib Require Import ZArith Lia.

Open Scope Z_scope.

(** ** Constants (serial_reg.h) *)

Definition UART_IER_RDI : Z := 1.
Definition UART_IER_THRI : Z := 2.
Definition UART_IER_RLSI : Z := 4.
Definition UART_MCR_DTR : Z := 1.
Definition UART_MCR_RTS : Z := 2.
Definition UART_MCR_OUT2 : Z := 8.
Definition UART_MCR_LOOP : Z := 16.
Definition UART_MSR_CTS : Z := 16.
Definition UART_MSR_DCD : Z := 128.
Definition UART_FCR_ENABLE_FIFO : Z := 1.
Definition UART_FCR_CLEAR_RCVR : Z := 2.
Definition UART_FCR_CLEAR_XMIT : Z := 4.

(** [PFN_UP(bufsize)] *)
Definition buf_pages : nat := 8.

(** ** Data *)

(** [drvdata] is [None] while NULL; [in_flags] and [out_flags] are the flags of
    the pages of the buffers, [outs] what was written to the port, latest first,
    with the offsets. *)
Record ldt_mod (F : Type) := LdtMod {
  mod_drvdata : option (ldt_data F);
  in_flags : list Z;
  out_flags : list Z;
  mod_counter : Z;
  mod_timer : bool;
  debugfs : bool;
  this_device : bool;
  outs : list (Z * Z);
  ldt_regs : registry
}.
Arguments LdtMod {F} _ _ _ _ _ _ _ _ _.
Arguments mod_drvdata {F} _.
Arguments in_flags {F} _.
Arguments out_flags {F} _.
Arguments mod_counter {F} _.
Arguments mod_timer {F} _.
Arguments debugfs {F} _.
Arguments this_device {F} _.
Arguments outs {F} _.
Arguments ldt_regs {F} _.

Section module.
Context {F : Type} `{!Kfifo F} (PG_reserved : Z).
Local Abbreviation KM := (K (ldt_mod F)).
Implicit Types (m : ldt_mod F).

Definition upd_drvdata (d : option (ldt_data F)) m : ldt_mod F :=
  LdtMod d (in_flags m) (out_flags m) (mod_counter m) (mod_timer m) (debugfs m) (this_device m) (outs m) (ldt_regs m).
Definition upd_in_flags (l : list Z) m : ldt_mod F :=
  LdtMod (mod_drvdata m) l (out_flags m) (mod_counter m) (mod_timer m) (debugfs m) (this_device m) (outs m) (ldt_regs m).
Definition upd_out_flags (l : list Z) m : ldt_mod F :=
  LdtMod (mod_drvdata m) (in_flags m) l (mod_counter m) (mod_timer m) (debugfs m) (this_device m) (outs m) (ldt_regs m).
Definition upd_counter (n : Z) m : ldt_mod F :=
  LdtMod (mod_drvdata m) (in_flags m) (out_flags m) n (mod_timer m) (debugfs m) (this_device m) (outs m) (ldt_regs m).
Definition upd_timer (b : bool) m : ldt_mod F :=
  LdtMod (mod_drvdata m) (in_flags m) (out_flags m) (mod_counter m) b (debugfs m) (this_device m) (outs m) (ldt_regs m).
Definition upd_debugfs (b : bool) m : ldt_mod F :=
  LdtMod (mod_drvdata m) (in_flags m) (out_flags m) (mod_counter m) (mod_timer m) b (this_device m) (outs m) (ldt_regs m).
Definition upd_device (b : bool) m : ldt_mod F :=
  LdtMod (mod_drvdata m) (in_flags m) (out_flags m) (mod_counter m) (mod_timer m) (debugfs m) b (outs m) (ldt_regs m).
Definition upd_outs (l : list (Z * Z)) m : ldt_mod F :=
  LdtMod (mod_drvdata m) (in_flags m) (out_flags m) (mod_counter m) (mod_timer m) (debugfs m) (this_device m) l (ldt_regs m).
Definition upd_regs (g : registry) m : ldt_mod F :=
  LdtMod (mod_drvdata m) (in_flags m) (out_flags m) (mod_counter m) (mod_timer m) (debugfs m) (this_device m) (outs m) g.

#[export] Instance ldt_mod_registry : HasRegistry (ldt_mod F) :=
  { registry_of := ldt_regs; set_registry := upd_regs; registry_set g m := eq_refl }.

Definition data_mem : resource := Res "ldt_data" 0.
Definition in_pages : resource := Res "in_buf" 0.
Definition out_pages : resource := Res "out_buf" 0.
Definition port_map : resource := Res "ioport_map" 0.
Definition irq_line (irq : Z) : resource := Res "irq" irq.
Definition debugfs_file : resource := Res "debugfs" 0.
Definition misc_device : resource := Res "misc" 0.

(** [drvdata->f], [drvdata] not being NULL. *)
Definition the_data : KM (ldt_data F) := d ← gets mod_drvdata; deref NullDeref d.
Definition on_data (f : ldt_data F → ldt_data F) : KM unit :=
  d ← the_data; modify (upd_drvdata (Some (f d))).

Definition set_port_ptr (p : Z) (d : ldt_data F) : ldt_data F :=
  LdtData (ldt_queues d) (in_buf d) (out_buf d) p (uart_detected d).
Definition set_uart (b : bool) (d : ldt_data F) : ldt_data F :=
  LdtData (ldt_queues d) (in_buf d) (out_buf d) (port_ptr d) b.

Definition port_out (value offset : Z) : KM unit := modify (λ m, upd_outs ((offset, u8 value) :: outs m) m).
Definition port_in (offset : Z) : KM Z := d ← the_data; call (io_in (port_ptr d + offset)).

(** ** Loading *)

Definition ldt_data_init : KM (option (ldt_data F)) :=
  p ← acquire_ptr "kzalloc" data_mem;
  mret (if p =? 0 then None
        else Some (LdtData (Fifos fifo_init fifo_init false false false [] [] [] []) None None 0 false)).

(** The end of [uart_probe]: the detection of a UART and its configuration. *)
Definition uart_setup (loopback : Z) : KM unit :=
  port_out (Z.lor (Z.lor UART_MCR_RTS UART_MCR_OUT2) UART_MCR_LOOP) UART_MCR;;
  msr ← port_in UART_MSR;
  let uart := Z.land msr 240 =? Z.lor UART_MSR_DCD UART_MSR_CTS in
  on_data (set_uart uart);;
  if uart then
    port_out (Z.lor (Z.lor UART_IER_RDI UART_IER_RLSI) UART_IER_THRI) UART_IER;;
    port_out (Z.lor (Z.lor UART_MCR_DTR UART_MCR_RTS) UART_MCR_OUT2) UART_MCR;;
    port_out (Z.lor (Z.lor UART_FCR_ENABLE_FIFO UART_FCR_CLEAR_RCVR) UART_FCR_CLEAR_XMIT) UART_FCR;;
    if c_bool loopback then
      mcr ← port_in UART_MCR;
      port_out (Z.lor mcr UART_MCR_LOOP) UART_MCR
    else mret tt
  else mret tt.

Definition uart_probe (port irq loopback : Z) : KM Z :=
  p ← (if c_bool port then
         p ← acquire_ptr "ioport_map" port_map;
         on_data (set_port_ptr p);;
         mret p
       else d ← the_data; mret (port_ptr d));
  if c_bool port && (p =? 0) then mret (- ENODEV) else
  if negb (c_bool irq) || (p =? 0) then mret 0 else
  ret ← acquire "request_irq" (irq_line irq);
  if ret <? 0 then mret ret else
  uart_setup loopback;;
  mret ret.

(** A buffer: its pages, zeroed and marked. *)
Definition alloc_buf (what : string) (r : resource) (set : option (list cell) → ldt_data F → ldt_data F)
    (set_flags : list Z → ldt_mod F → ldt_mod F) : KM Z :=
  b ← acquire_ptr what r;
  if b =? 0 then mret (- ENOMEM) else
  on_data (set (Some (zeroed bufsize)));;
  flags ← liftO (pages_flag (replicate buf_pages 0) buf_pages PG_reserved 1);
  modify (set_flags flags);;
  mret 0.

(** [free_pages_exact], with the marks of the pages taken off. *)
Definition free_buf (r : resource) (flags : ldt_mod F → list Z)
    (set_flags : list Z → ldt_mod F → ldt_mod F) : KM unit :=
  l ← gets flags;
  l ← liftO (pages_flag l buf_pages PG_reserved 0);
  modify (set_flags l);;
  give_back r.

Definition uart_off : KM unit :=
  d ← the_data;
  if uart_detected d then
    port_out 0 UART_IER;; port_out 0 UART_FCR;; port_out 0 UART_MCR;;
    port_in UART_RX;; mret tt
  else mret tt.

Definition ldt_cleanup (irq : Z) : KM unit :=
  f ← gets debugfs;
  (if f : bool then give_back debugfs_file else mret tt);;
  dev ← gets this_device;
  (if dev : bool then give_back misc_device else mret tt);;
  modify (upd_timer false);;
  (if c_bool irq then
     uart_off;;
     give_back (irq_line irq)
   else mret tt);;
  on_data (λ d, set_ldt_queues (set_pending false (ldt_queues d)) d);;
  d ← the_data;
  (if bool_decide (is_Some (in_buf d)) then free_buf in_pages in_flags upd_in_flags else mret tt);;
  (if bool_decide (is_Some (out_buf d)) then free_buf out_pages out_flags upd_out_flags else mret tt);;
  (if c_bool (port_ptr d) then give_back port_map else mret tt);;
  give_back data_mem.

(** A failed [misc_register] may leave an error in [this_device]. *)
Definition misc_register : KM Z :=
  ret ← acquire "misc_register" misc_device;
  e ← call (kint "this_device");
  modify (upd_device ((ret =? 0) || c_bool e));;
  mret ret.

(** Under the label [exit]. *)
Definition ldt_exit (irq ret : Z) : KM Z :=
  (if ret <? 0 then ldt_cleanup irq else mret tt);;
  mret ret.

(** From [mod_timer] on; [debugfs_create_file] may answer an error or NULL. *)
Definition ldt_register : KM Z :=
  modify (upd_timer true);;
  f ← call (kint "debugfs_create_file");
  if f <? 0 then mret f else
  (if f =? 0 then mret tt else hold debugfs_file;; modify (upd_debugfs true));;
  misc_register.

Definition ldt_init (port irq loopback : Z) : KM Z :=
  d ← ldt_data_init;
  modify (upd_drvdata d);;
  match d with
  | None => ldt_exit irq 0
  | Some _ =>
      r ← alloc_buf "alloc_pages_exact(in)" in_pages set_in_buf upd_in_flags;
      if r <? 0 then ldt_exit irq r else
      r ← alloc_buf "alloc_pages_exact(out)" out_pages set_out_buf upd_out_flags;
      if r <? 0 then ldt_exit irq r else
      modify (upd_counter 0);;
      ret ← uart_probe port irq loopback;
      if ret <? 0 then ldt_exit irq ret else
      ret ← ldt_register;
      ldt_exit irq ret
  end.

(** ** Specification *)

Definition ldt_unloaded : ldt_mod F := LdtMod None [] [] 0 false false false [] empty_registry.

Definition unmarked (l : list Z) : Prop := Forall (λ f, Z.testbit f PG_reserved = false) l.

(** What a loaded driver starts from. *)
Definition driver_of (d : ldt_data F) m : ldt F := Ldt d (mod_counter m) false (mod_timer m) [] [].

(** How [ldt_init] may end, what it holds then, and what it gave back and did not
    hold. *)
Inductive ldt_outcome (irq : Z) : Z → ldt_mod F → Prop :=
| LdtNoMemory m : mod_drvdata m = None → owned [] m → ldt_outcome irq 0 m
| LdtNoLine r m : r < 0 → holding (ldt_regs m) = [] → bad_frees (ldt_regs m) = [irq_line irq] →
    unmarked (in_flags m) → unmarked (out_flags m) → ldt_outcome irq r m
| LdtNoDevice r m : r < 0 → holding (ldt_regs m) = [] →
    bad_frees (ldt_regs m) = opt (this_device m) misc_device →
    unmarked (in_flags m) → unmarked (out_flags m) → mod_timer m = false → ldt_outcome irq r m
| LdtLoaded d m : mod_drvdata m = Some d → ldt_start (driver_of d m) → port_ptr d ≠ 0 →
    mod_timer m = true → this_device m = true →
    length (in_flags m) = buf_pages → length (out_flags m) = buf_pages →
    owned (opt (debugfs m) debugfs_file ++ [misc_device; irq_line irq; in_pages; out_pages; port_map; data_mem]) m →
    ldt_outcome irq 0 m.

Record ldt_mod_contract (C : contract (ldt_mod F)) : Prop := {
  dm_misc : ∀ z, c_ans C (kint "misc_register") z → z <= 0;
  dm_irq : ∀ z, c_ans C (kint "request_irq") z → z <= 0
}.

(** ** The pages *)

Definition mark (value f : Z) : Z :=
  if c_bool value then Z.lor f (Z.shiftl 1 PG_reserved) else Z.ldiff f (Z.shiftl 1 PG_reserved).

Lemma pages_flag_all l value :
  pages_flag l (length l) PG_reserved value = Done (mark value <$> l).
Proof. induction l as [|f l IH]; [done|]. cbn. by rewrite IH. Qed.

Lemma unmarked_mark l : 0 <= PG_reserved → unmarked (mark 0 <$> l).
Proof.
  intros HP. apply Forall_fmap, Forall_forall. intros f _. cbn.
  rewrite Z.ldiff_spec, Z.shiftl_spec, Z.sub_diag by done. apply andb_false_r.
Qed.

(** ** Unloading *)

Section unload.
Context (C : contract (ldt_mod F)) (HP : 0 <= PG_reserved).

Lemma wp_the_data d m (Q : ldt_data F → ldt_mod F → Prop) :
  mod_drvdata m = Some d → Q d m → wp C the_data Q m.
Proof. intros Hd HQ. unfold the_data. do 2 wp_step. by eapply wp_deref. Qed.

Lemma wp_on_data f d m (Q : unit → ldt_mod F → Prop) :
  mod_drvdata m = Some d → Q tt (upd_drvdata (Some (f d)) m) → wp C (on_data f) Q m.
Proof. intros Hd HQ. unfold on_data. wp_step. eapply wp_the_data; [done|]. by wp_step. Qed.

(** A buffer, if it is there. *)
Lemma wp_free_opt (b : bool) r flags set_flags L B m (Q : unit → ldt_mod F → Prop) :
  (∀ m, set_flags (flags m) m = m) → (∀ l m, ldt_regs (set_flags l m) = ldt_regs m) →
  owns_but (opt b r ++ L) B (ldt_regs m) →
  (if b then length (flags m) = buf_pages else unmarked (flags m)) →
  (∀ l g, unmarked l → owns_but L B g → Q tt (upd_regs g (set_flags l m))) →
  wp C (if b then free_buf r flags set_flags else mret tt) Q m.
Proof.
  intros Hsame Hregs Ho Hl HQ. destruct b.
  - unfold free_buf. do 3 wp_step. rewrite <-Hl. apply (wp_liftO _ _ _ _ (mark 0 <$> flags m));
      [apply pages_flag_all|]. do 2 wp_step. eapply wp_give_but; [cbn; rewrite Hregs; exact Ho|].
    intros g Hg. by apply HQ; [apply unmarked_mark|].
  - wp_step. rewrite <-(Hsame m) at 1. replace (set_flags (flags m) m) with (upd_regs (ldt_regs m) (set_flags (flags m) m)).
    + by apply HQ.
    + rewrite Hsame. by destruct m.
Qed.

(** What is held when [exit] is reached: [line], the interrupt line; [dev], the
    misc device. *)
Record ready (irq : Z) (line dev : bool) (d : ldt_data F) m : Prop := {
  rd_data : mod_drvdata m = Some d;
  rd_regs : owns_but (opt (debugfs m) debugfs_file ++ opt dev misc_device ++ opt line (irq_line irq) ++
      opt (bool_decide (is_Some (in_buf d))) in_pages ++ opt (bool_decide (is_Some (out_buf d))) out_pages ++
      opt (c_bool (port_ptr d)) port_map ++ [data_mem]) [] (ldt_regs m);
  rd_dev : dev = true → this_device m = true;
  rd_in : if bool_decide (is_Some (in_buf d)) then length (in_flags m) = buf_pages else unmarked (in_flags m);
  rd_out : if bool_decide (is_Some (out_buf d)) then length (out_flags m) = buf_pages else unmarked (out_flags m)
}.

Ltac elsewhere :=
  apply other_kind; repeat apply Forall_app_2; try (by apply Forall_opt); by repeat constructor.

Lemma regs_same m : set_registry (registry_of m) m = m.
Proof. by destruct m. Qed.

Lemma wp_uart_off d m (Q : unit → ldt_mod F → Prop) :
  mod_drvdata m = Some d → (∀ l, Q tt (upd_outs l m)) → wp C uart_off Q m.
Proof.
  intros Hd HQ. unfold uart_off. wp_step. eapply wp_the_data; [done|]. destruct (uart_detected d).
  - unfold port_out, port_in. do 8 wp_step. eapply wp_the_data; [exact Hd|]. do 2 wp_step. apply HQ.
  - wp_step. specialize (HQ (outs m)). by destruct m.
Qed.

(** All is given back, and what was not held besides. *)
Lemma wp_ldt_cleanup irq line dev d m (Q : unit → ldt_mod F → Prop) :
  irq ≠ 0 → ready irq line dev d m →
  (∀ m', holding (ldt_regs m') = [] →
    bad_frees (ldt_regs m') = opt (negb line) (irq_line irq) ++ opt (this_device m && negb dev) misc_device →
    unmarked (in_flags m') → unmarked (out_flags m') → mod_timer m' = false →
    this_device m' = this_device m → Q tt m') →
  wp C (ldt_cleanup irq) Q m.
Proof.
  intros Hirq [Hd Ho Hdev Hi Hu] HQ. unfold ldt_cleanup.
  assert (c_bool irq = true) as Hc by (unfold c_bool; by rewrite (proj2 (Z.eqb_neq _ _))).
  do 2 wp_step. wp_step. eapply wp_give_opt; [apply regs_same|exact Ho|]. intros g1 H1. clear Ho.
  do 2 wp_step. wp_step. eapply wp_give_may; [apply regs_same|exact Hdev| |exact H1|]; [elsewhere|].
  intros g2 H2. clear H1. rewrite app_nil_r in H2. do 2 wp_step. wp_step. rewrite Hc. wp_step.
  eapply wp_uart_off; [exact Hd|]. intros l.
  eapply (wp_give_may _ true line); [apply regs_same|done| |exact H2|]; [elsewhere|].
  intros g3 H3. clear H2. wp_step. eapply wp_on_data; [exact Hd|]. wp_step.
  eapply wp_the_data; [done|]. cbn [in_buf out_buf port_ptr set_ldt_queues]. wp_step.
  eapply wp_free_opt; [by intros []|done|exact H3|exact Hi|]. intros l1 g4 Hl1 H4. clear H3 Hi. wp_step.
  eapply wp_free_opt; [by intros []|done|exact H4|exact Hu|]. intros l2 g5 Hl2 H5. clear H4 Hu. wp_step.
  eapply wp_give_opt; [apply regs_same|exact H5|]. intros g6 H6. clear H5.
  eapply (wp_give_but _ _ []); [exact H6|]. intros g7 [H7 H8]%owns_but_empty. clear H6.
  by apply HQ.
Qed.
End unload.

(** ** Loading *)

Section load.
Context (C : contract (ldt_mod F)) (HP : 0 <= PG_reserved).
Context (HC : ldt_mod_contract C) (irq : Z) (Hirq : irq ≠ 0).

(** A load that fails. *)
Lemma wp_exit_fails line d m r :
  r < 0 → ready irq line false d m → (line = false → this_device m = false) →
  wp C (ldt_exit irq r) (ldt_outcome irq) m.
Proof.
  intros Hr Hm Hl. unfold ldt_exit. rewrite (proj2 (Z.ltb_lt r 0)) by done. wp_step.
  eapply wp_ldt_cleanup; [done|done|exact Hm|]. intros m' Hh Hb Hi Ho Ht Hd. wp_step.
  destruct line; cbn in Hb.
  - apply LdtNoDevice; [done|done| |done..]. rewrite Hb, Hd, andb_true_r. done.
  - rewrite Hl in Hb by done. by apply LdtNoLine.
Qed.

(** [drvdata] as far as it is set up. *)
Definition fresh (i o : option (list cell)) (p : Z) (u : bool) : ldt_data F :=
  LdtData (Fifos fifo_init fifo_init false false false [] [] [] []) i o p u.

Lemma ready_registry line d m f t :
  ready irq line false d m → ready irq line false d (upd_timer f (upd_device t m)).
Proof. by intros [? ? ? ? ?]. Qed.

Lemma wp_misc_stage p u m :
  p ≠ 0 → mod_timer m = true →
  ready irq true false (fresh (Some (zeroed bufsize)) (Some (zeroed bufsize)) p u) m →
  wp C misc_register (λ ret, wp C (ldt_exit irq ret) (ldt_outcome irq)) m.
Proof.
  intros Hp Ht Hm. unfold misc_register. wp_step. apply wp_acquire.
  - do 4 wp_step. change (0 =? 0) with true. cbn [orb]. wp_step. unfold ldt_exit.
    change (0 <? 0) with false. cbn iota. do 3 wp_step.
    destruct Hm as [Hd [Hh Hb] _ Hi Ho]. eapply LdtLoaded; [exact Hd| |exact Hp|exact Ht|done|done|done|].
    + split_and!; [done..| |]; eexists; (split; [done|apply bufsize_zeroed]).
    + split; [|exact Hb]. cbn -[zeroed] in *. rewrite Hh.
      assert (c_bool p = true) as -> by (unfold c_bool; by rewrite (proj2 (Z.eqb_neq _ _))).
      by destruct (debugfs m); [apply Permutation_swap|].
  - intros r Hr Hr0. apply (dm_misc _ HC) in Hr. do 4 wp_step. rewrite (proj2 (Z.eqb_neq r 0)) by done.
    cbn [orb]. wp_step. eapply (wp_exit_fails true); [lia| |done].
    apply (ready_registry _ _ _ (mod_timer m) (c_bool z)) in Hm. by destruct m.
Qed.

Lemma wp_register_stage p u m :
  p ≠ 0 → debugfs m = false → this_device m = false →
  ready irq true false (fresh (Some (zeroed bufsize)) (Some (zeroed bufsize)) p u) m →
  wp C (ret ← ldt_register; ldt_exit irq ret) (ldt_outcome irq) m.
Proof.
  intros Hp Hf Hd Hm. apply (ready_registry _ _ _ true (this_device m)) in Hm.
  replace (upd_device (this_device m) m) with m in Hm by (by destruct m).
  wp_step. unfold ldt_register. wp_step. wp_step. wp_step. wp_step. wp_step.
  { wp_step. by eapply (wp_exit_fails true). }
  wp_step. wp_step.
  - wp_step. by apply (wp_misc_stage p u).
  - wp_step. apply wp_hold. wp_step. apply (wp_misc_stage p u); [done|done|].
    destruct Hm as [H1 [Hh Hb] H3 H4 H5]. split; [done| |done|done|done].
    split; [|done]. cbn -[zeroed] in *. rewrite Hf in Hh. by rewrite Hh.
Qed.

Lemma wp_uart_setup loopback d m (Q : unit → ldt_mod F → Prop) :
  mod_drvdata m = Some d → (∀ u l, Q tt (upd_outs l (upd_drvdata (Some (set_uart u d)) m))) →
  wp C (uart_setup loopback) Q m.
Proof.
  intros Hd HQ. unfold uart_setup, port_out, port_in. do 4 wp_step. eapply wp_the_data; [exact Hd|].
  do 2 wp_step. eapply wp_on_data; [exact Hd|]. destruct (_ =? _); [|wp_step; apply HQ].
  do 6 wp_step. destruct (c_bool loopback); [|wp_step; apply HQ].
  do 2 wp_step. eapply wp_the_data; [done|]. do 2 wp_step. apply HQ.
Qed.

(** [uart_probe] and what follows. *)
Lemma wp_probe_stage port loopback u m :
  port ≠ 0 → debugfs m = false → this_device m = false →
  ready irq false false (fresh (Some (zeroed bufsize)) (Some (zeroed bufsize)) 0 u) m →
  wp C (ret ← uart_probe port irq loopback;
    if ret <? 0 then ldt_exit irq ret else ret ← ldt_register; ldt_exit irq ret) (ldt_outcome irq) m.
Proof.
  intros Hport Hf Hd Hm.
  assert (c_bool port = true ∧ c_bool irq = true) as [Hcp Hci] by (unfold c_bool; by rewrite !(proj2 (Z.eqb_neq _ _))).
  wp_step. unfold uart_probe. rewrite Hcp, Hci. wp_step. wp_step. apply wp_acquire_ptr; [|intros p _ Hp].
  - wp_step. eapply wp_on_data; [apply Hm|]. wp_step. cbn [andb Z.eqb]. wp_step.
    change (- ENODEV <? 0) with true. cbn iota. eapply (wp_exit_fails false); [done| |done].
    by destruct Hm.
  - wp_step. eapply wp_on_data; [apply Hm|]. wp_step. rewrite (proj2 (Z.eqb_neq p 0)) by done.
    assert (c_bool p = true) as Hcp' by (unfold c_bool; by rewrite (proj2 (Z.eqb_neq _ _))).
    cbn [andb orb negb]. cbn iota. destruct Hm as [H1 [Hh Hb] H3 H4 H5]. rewrite Hf in Hh.
    wp_step. apply wp_acquire; [|intros r Hr Hr0].
    + change (0 <? 0) with false. cbn iota. wp_step. eapply wp_uart_setup; [done|]. intros u' l.
      wp_step. change (0 <? 0) with false. cbn iota. apply (wp_register_stage p u'); [done..|].
      split; [done| |done..]. split; [|done]. cbn -[zeroed] in *. rewrite Hf, Hcp', Hh.
      apply perm_skip, (Permutation_middle [in_pages; out_pages] [data_mem] port_map).
    + apply (dm_irq _ HC) in Hr. rewrite (proj2 (Z.ltb_lt r 0)) by lia. wp_step.
      rewrite (proj2 (Z.ltb_lt r 0)) by lia.
      apply (wp_exit_fails false (fresh (Some (zeroed bufsize)) (Some (zeroed bufsize)) p u)); [lia| |done].
      split; [done| |done..]. split; [|done]. cbn -[zeroed] in *. rewrite Hf, Hcp', Hh.
      apply (Permutation_middle [in_pages; out_pages] [data_mem] port_map).
Qed.
Lemma wp_alloc_buf what r set set_flags d m (Q : Z → ldt_mod F → Prop) :
  mod_drvdata m = Some d → Q (- ENOMEM) m →
  Q 0 (set_flags (mark 1 <$> replicate buf_pages 0)
    (upd_drvdata (Some (set (Some (zeroed bufsize)) d)) (upd_regs (reg_add r (ldt_regs m)) m))) →
  wp C (alloc_buf what r set set_flags) Q m.
Proof.
  intros Hd Hko Hok. unfold alloc_buf. wp_step. apply wp_acquire_ptr; [by apply wp_ret|]. intros z _ Hz.
  rewrite (proj2 (Z.eqb_neq z 0)) by done. wp_step. eapply wp_on_data; [exact Hd|]. wp_step.
  apply (wp_liftO _ _ _ _ (mark 1 <$> replicate buf_pages 0)); [apply (pages_flag_all (replicate buf_pages 0))|].
  by do 3 wp_step.
Qed.

Lemma ldt_outcomes port loopback :
  port ≠ 0 → wp C (ldt_init port irq loopback) (ldt_outcome irq) ldt_unloaded.
Proof.
  intros Hport. unfold ldt_init, ldt_data_init. do 2 wp_step. apply wp_acquire_ptr; [|intros z _ Hz]; do 3 wp_step.
  { change (0 =? 0) with true. cbn iota. unfold ldt_exit. change (0 <? 0) with false. cbn iota.
    do 3 wp_step. by apply LdtNoMemory. }
  rewrite (proj2 (Z.eqb_neq z 0)) by done. wp_step.
  eapply wp_alloc_buf; [done|..].
  { change (- ENOMEM <? 0) with true. cbn iota. apply (wp_exit_fails false (fresh None None 0 false)); [done| |done].
    by split; [|split|..|constructor|constructor]. }
  change (0 <? 0) with false. cbn iota. wp_step. eapply wp_alloc_buf; [done|..].
  { change (- ENOMEM <? 0) with true. cbn iota.
    apply (wp_exit_fails false (fresh (Some (zeroed bufsize)) None 0 false)); [done| |done].
    by split; [|split|..|constructor]. }
  change (0 <? 0) with false. cbn iota. wp_step. wp_step.
  apply (wp_probe_stage port loopback false); [done..|].
  split; [done| |done..]. split; [|done]. apply (Permutation_swap).
Qed.

(** ** Properties *)

(** Loading ends as [ldt_outcome] lists. A load that fails gives back all
    there was, the marks of the pages taken off, and besides the line when that
    was not requested yet, or the misc device when that is what failed; one that
    finds no memory for [drvdata] succeeds, and unloading then faults. A load
    that succeeds starts a driver as [ldt_stream] asks, and unloading it, whatever
    it was used for, gives back exactly what is held. *)
Theorem ldt_module port loopback :
  port ≠ 0 →
  wp C (ldt_init port irq loopback) (ldt_outcome irq) ldt_unloaded ∧
  (∀ m, ldt_outcome irq 0 m →
    match mod_drvdata m with
    | None => ∀ o t, ldt_cleanup irq o (t, m) = Oops NullDeref
    | Some d => ∀ d', buf_ok (in_buf d') → buf_ok (out_buf d') → port_ptr d' = port_ptr d →
        wp C (ldt_cleanup irq)
          (λ _ m', ldt_regs m' = empty_registry ∧ unmarked (in_flags m') ∧ unmarked (out_flags m') ∧
            mod_timer m' = false) (upd_drvdata (Some d') m)
    end).
Proof.
  intros Hport. split; [by apply ldt_outcomes|]. intros m.
  generalize (eq_refl 0). generalize 0 at 1 3 as r. intros r Hr H.
  destruct H as [m Hd _|r m ?|r m ?|d m Hd _ Hp Ht Hdev Hi Ho Hown]; [|lia|lia|]; rewrite Hd.
  - intros o t. destruct m as [d0 ? ? ? ? f dev ? ?]. cbn in Hd. subst d0. unfold ldt_cleanup.
    assert (c_bool irq = true) as -> by (unfold c_bool; by rewrite (proj2 (Z.eqb_neq _ _))).
    by destruct f, dev.
  - intros d' (i & Ei & _) (o & Eo & _) Ep.
    apply (wp_ldt_cleanup C HP irq true true d'); [done| |].
    + split; [done| |done|by rewrite Ei|by rewrite Eo]. destruct Hown as [Hh Hb]. split; [|done].
      rewrite Ei, Eo, Ep. unfold c_bool. rewrite (proj2 (Z.eqb_neq _ _)) by done. cbn. rewrite Hh.
      done.
    + intros m' Hh Hb H1 H2 H3 H4. split_and!; [|done..]. rewrite andb_false_r in Hb. cbn in Hb.
      destruct (ldt_regs m'). cbn in *. by subst.
Qed.
End load.
End module.

Definition ldt_mod_kernel : contract (ldt_mod (list Z)) :=
  Contract (λ c z, match c with kint _ => z <= 0 | _ => True end) alone False.

Lemma ldt_mod_kernel_ok : ldt_mod_contract ldt_mod_kernel.
Proof. by split. Qed.

Lemma ldt_module_witness :
  wp ldt_mod_kernel (ldt_init 10 760 4 1) (ldt_outcome 10 4) ldt_unloaded ∧
  (∀ m, ldt_outcome 10 4 0 m →
    match mod_drvdata m with
    | None => ∀ o t, ldt_cleanup 10 4 o (t, m) = Oops NullDeref
    | Some d => ∀ d', buf_ok (in_buf d') → buf_ok (out_buf d') → port_ptr d' = port_ptr d →
        wp ldt_mod_kernel (ldt_cleanup 10 4)
          (λ _ m', ldt_regs m' = empty_registry ∧ unmarked 10 (in_flags m') ∧ unmarked 10 (out_flags m') ∧
            mod_timer m' = false) (upd_drvdata (Some d') m)
    end).
Proof. by apply (ldt_module 10 ldt_mod_kernel ltac:(lia) ldt_mod_kernel_ok 4 ltac:(lia) 760 1). Defined.
