(* ===== verification/Silly.v ===== *)
(** * silly: ISA memory (src/ldd4/misc-modules/silly.c)

    Character devices over the memory from 640 KB to 1 MB, read and written by
    8, 16 or 32 bits at a time, or by block copies, as the minor says. *)

From stdpp Require Import base tactics numbers list strings.
From S2P Require Import Prelude KMonad Registry.
From Stdlib Require Import ZArith Lia.

Open Scope Z_scope.

(** ** Data *)

Definition ISA_BASE : Z := 655360.
Definition ISA_MAX : Z := 1048576.
Definition ISA_SIZE : Z := ISA_MAX - ISA_BASE.

Inductive silly_modes := M_8 | M_16 | M_32 | M_memcpy.

(** A minor that is no mode ends in the [default] of the [switch]. *)
Definition mode_of (minor : Z) : option silly_modes :=
  if minor =? 0 then Some M_8 else if minor =? 1 then Some M_16
  else if minor =? 2 then Some M_32 else if minor =? 3 then Some M_memcpy else None.

(** [isa a] is the byte at [ISA_BASE + a], which is ordinary memory; [kbufs]
    counts the buffers that are allocated. *)
Record silly := MkSilly {
  io_base : Z;
  isa : Z → Z;
  kbufs : nat;
  silly_major : Z;
  silly_regs : registry
}.

Definition set_io_base (v : Z) (s : silly) : silly := MkSilly v (isa s) (kbufs s) (silly_major s) (silly_regs s).
Definition set_isa (v : Z → Z) (s : silly) : silly := MkSilly (io_base s) v (kbufs s) (silly_major s) (silly_regs s).
Definition set_kbufs (v : nat) (s : silly) : silly := MkSilly (io_base s) (isa s) v (silly_major s) (silly_regs s).
Definition set_silly_major (v : Z) (s : silly) : silly := MkSilly (io_base s) (isa s) (kbufs s) v (silly_regs s).
Definition set_silly_regs (v : registry) (s : silly) : silly := MkSilly (io_base s) (isa s) (kbufs s) (silly_major s) v.

#[export] Instance silly_registry : HasRegistry silly :=
  { registry_of := silly_regs; set_registry := set_silly_regs; registry_set g s := eq_refl }.

(** ** The mapped memory *)

(** A little-endian word and its bytes. *)
Fixpoint le_value (l : list Z) : Z :=
  match l with [] => 0 | b :: l => b + 256 * le_value l end.
Fixpoint le_bytes (n : nat) (v : Z) : list Z :=
  match n with O => [] | S n => v mod 256 :: le_bytes n (v / 256) end.

(** The [n] bytes from [a] on. *)
Definition isa_bytes (f : Z → Z) (a : Z) (n : nat) : list Z := (λ i, f (a + Z.of_nat i)) <$> seq 0 n.

(** An access of [n] bytes at offset [a] of the mapping. *)
Definition mapped (a n : Z) : K silly unit :=
  b ← gets io_base;
  if b =? 0 then oops NullDeref
  else if (0 <=? a) && (a + n <=? ISA_SIZE) then mret tt else oops OutOfBounds.

(** [ioread8], [ioread16], [ioread32], for [n] of 1, 2 and 4. *)
Definition ioread (n : nat) (a : Z) : K silly Z :=
  mapped a (Z.of_nat n);;
  f ← gets isa;
  mret (le_value (isa_bytes f a n)).

Definition isa_store (a : Z) (l : list Z) (f : Z → Z) : Z → Z := λ x,
  if a <=? x then default (f x) (l !! Z.to_nat (x - a)) else f x.

Definition iowrite8 (v a : Z) : K silly unit :=
  mapped a 1;;
  modify (λ s, set_isa (isa_store a [u8 v] (isa s)) s).

Definition memcpy_fromio (a n : Z) : K silly (list Z) :=
  mapped a n;;
  f ← gets isa;
  mret (isa_bytes f a (Z.to_nat n)).

Definition memcpy_toio (a : Z) (l : list Z) : K silly unit :=
  mapped a (lenZ l);;
  modify (λ s, set_isa (isa_store a l (isa s)) s).

(** ** Operations *)

Definition silly_open : K silly Z := mret 0.
Definition silly_release : K silly Z := mret 0.
Definition silly_poll : K silly Z := mret (Z.lor (Z.lor POLLIN POLLRDNORM) (Z.lor POLLOUT POLLWRNORM)).

(** The end of the range, where the subtraction is of unsigned numbers. *)
Definition clip (isa_addr count : Z) : Z :=
  if u64 (isa_addr + count) >? ISA_MAX then u64 (ISA_MAX - isa_addr) else count.

Definition downgrade (mode : option silly_modes) (isa_addr count : Z) : option silly_modes :=
  let mode := match mode with
              | Some M_32 => if c_bool (Z.land (Z.lor isa_addr count) 3) then Some M_16 else mode
              | _ => mode end in
  match mode with
  | Some M_16 => if c_bool (Z.land (Z.lor isa_addr count) 1) then Some M_8 else mode
  | _ => mode
  end.

(** The width of the accesses of the loops. *)
Definition width (mode : silly_modes) : nat :=
  match mode with M_32 => 4 | M_16 => 2 | M_8 => 1 | M_memcpy => 0 end.

(** [while (count >= n)], with what is left of [kbuf] to be filled; the bytes that
    are filled. *)
Fixpoint read_loop (fuel n : nat) (add count : Z) : K silly (list Z) :=
  match fuel with
  | O => sleep_forever
  | S fuel =>
      if Z.of_nat n <=? count then
        v ← ioread n add;
        l ← read_loop fuel n (add + Z.of_nat n) (count - Z.of_nat n);
        mret (le_bytes n v ++ l)
      else mret []
  end.

(** The same of a write; every access is an [iowrite8] of the word at [ptr]. *)
Fixpoint write_loop (fuel n : nat) (add count : Z) (ptr : list Z) : K silly unit :=
  match fuel with
  | O => sleep_forever
  | S fuel =>
      if Z.of_nat n <=? count then
        iowrite8 (le_value (take n ptr)) add;;
        write_loop fuel n (add + Z.of_nat n) (count - Z.of_nat n) (drop n ptr)
      else mret tt
  end.

Definition kmalloc_buf (n : Z) : K silly bool :=
  p ← call (kmalloc n);
  if p =? 0 then mret false else modify (λ s, set_kbufs (S (kbufs s)) s);; mret true.
Definition kfree_buf : K silly unit := modify (λ s, set_kbufs (pred (kbufs s)) s).

(** The value, the new position, and what reaches user space. *)
Definition silly_read (minor count f_pos : Z) : K silly (Z * Z * list cell) :=
  let isa_addr := u64 (ISA_BASE + f_pos) in
  let count := clip isa_addr count in
  ok ← kmalloc_buf count;
  if negb ok then mret (- ENOMEM, f_pos, []) else
  let retval := s32 count in
  let add := isa_addr - ISA_BASE in
  match downgrade (mode_of minor) isa_addr count with
  | None => mret (- EINVAL, f_pos, [])
  | Some mode =>
      kbuf ← (match mode with
              | M_memcpy => memcpy_fromio add count
              | _ => read_loop (S (Z.to_nat count)) (width mode) add count
              end);
      let kbuf := (Some <$> kbuf) ++ uninit (count - lenZ kbuf) in
      '(bytes, ok) ← (if retval >? 0 then copy_to_user (take (Z.to_nat retval) kbuf) else mret ([], true));
      let retval := if ok : bool then retval else - EFAULT in
      kfree_buf;;
      mret (retval, f_pos + retval, bytes)
  end.

Definition silly_write (minor : Z) (buf : list Z) (f_pos : Z) : K silly (Z * Z) :=
  c ← call capable;
  if c =? 0 then mret (- EPERM, f_pos) else
  let isa_addr := u64 (ISA_BASE + f_pos) in
  let count := clip isa_addr (lenZ buf) in
  ok ← kmalloc_buf count;
  if negb ok then mret (- ENOMEM, f_pos) else
  let retval := s32 count in
  let mode := downgrade (mode_of minor) isa_addr count in
  left ← call (copy_user count);
  if negb (left =? 0) then kfree_buf;; mret (- EFAULT, f_pos) else
  let kbuf := take (Z.to_nat count) buf in
  let add := isa_addr - ISA_BASE in
  match mode with
  | None => mret (- EINVAL, f_pos)
  | Some mode =>
      (match mode with
       | M_memcpy => memcpy_toio add kbuf
       | _ => write_loop (S (Z.to_nat count)) (width mode) add count kbuf
       end);;
      kfree_buf;;
      mret (retval, f_pos + retval)
  end.

(** Loading: the result of [ioremap] is not looked at. *)
Definition chrdev : resource := Res "chrdev" 0.
Definition isa_mapping : resource := Res "ioremap" ISA_BASE.

Definition silly_init : K silly Z :=
  major ← gets silly_major;
  result ← call (kint "register_chrdev");
  if result <? 0 then mret result else
  hold chrdev;;
  (if major =? 0 then modify (set_silly_major result) else mret tt);;
  b ← acquire_ptr "ioremap" isa_mapping;
  modify (set_io_base b);;
  mret 0.

Definition silly_cleanup : K silly unit :=
  b ← gets io_base;
  (if b =? 0 then mret tt else give_back isa_mapping);;
  give_back chrdev.

(** ** Specification *)

Definition byte_memory (f : Z → Z) : Prop := ∀ a, 0 <= f a < 256.

(** The bytes there are from [f_pos] on. *)
Definition extent (f_pos count : Z) : Z := Z.min count (ISA_SIZE - f_pos).

(** Memory as documented: no block is larger than 4 MB. *)
Definition silly_contract (C : contract silly) : Prop :=
  ∀ n z, c_ans C (kmalloc n) z → 2 ^ 22 < n → z = 0.

(** Every [w]-th byte of [l] is written. *)
Definition strided (w a : Z) (l : list Z) (f : Z → Z) : Z → Z := λ x,
  if (a <=? x) && ((x - a) mod w =? 0) then default (f x) (u8 <$> l !! Z.to_nat (x - a)) else f x.

(** ** Words *)

Lemma le_bytes_value l : Forall (λ b, 0 <= b < 256) l → le_bytes (length l) (le_value l) = l.
Proof.
  induction 1 as [|b l Hb _ IH]; [done|]. cbn [length le_bytes le_value].
  replace ((b + 256 * le_value l) mod 256) with b by (Z.to_euclidean_division_equations; lia).
  by replace ((b + 256 * le_value l) / 256) with (le_value l) by (Z.to_euclidean_division_equations; lia);
    rewrite IH.
Qed.

Lemma u8_le_value b l : u8 (le_value (b :: l)) = u8 b.
Proof. unfold u8. cbn. Z.to_euclidean_division_equations. lia. Qed.

Lemma isa_bytes_app f a n m : isa_bytes f a (n + m) = isa_bytes f a n ++ isa_bytes f (a + Z.of_nat n) m.
Proof.
  unfold isa_bytes. rewrite seq_app, fmap_app. f_equal. apply list_eq. intros i.
  rewrite !list_lookup_fmap. destruct (decide (i < m)%nat).
  - rewrite !lookup_seq_lt by done. cbn. f_equal. f_equal. lia.
  - by rewrite !lookup_seq_ge by lia.
Qed.

Lemma length_isa_bytes f a n : length (isa_bytes f a n) = n.
Proof. unfold isa_bytes. by rewrite length_fmap, length_seq. Qed.

Lemma isa_bytes_range f a n : byte_memory f → Forall (λ b, 0 <= b < 256) (isa_bytes f a n).
Proof. intros Hf. apply Forall_fmap, Forall_forall. intros i _. apply Hf. Qed.

(** Masks of low bits. *)
Lemma aligned a n k : 0 <= k → c_bool (Z.land (Z.lor a n) (Z.ones k)) = false → n mod 2 ^ k = 0 ∧ a mod 2 ^ k = 0.
Proof.
  intros Hk H. apply negb_false_iff, Z.eqb_eq in H. rewrite Z.land_lor_distr_l in H.
  apply Z.lor_eq_0_iff in H as [Ha Hn]. by rewrite !Z.land_ones in * by done.
Qed.

(** The accesses that are left fit. *)
Lemma downgrade_fits minor a n mode :
  downgrade (mode_of minor) a n = Some mode → mode ≠ M_memcpy →
  (0 < width mode)%nat ∧ n mod Z.of_nat (width mode) = 0.
Proof.
  unfold downgrade, mode_of. intros H Hm.
  repeat case_match; simplify_eq; cbn [width]; (split; [lia|]); try apply Z.mod_1_r;
    match goal with
    | H : c_bool (Z.land _ ?m) = false |- _ mod ?d = 0 =>
        by apply (aligned a n (Z.log2 (m + 1)) ltac:(done))
    end.
Qed.

Section triples.
Context (C : contract silly).

(** An access within the memory, which is mapped. *)
Lemma wp_mapped a n s (Q : unit → silly → Prop) :
  io_base s ≠ 0 → 0 <= a → a + n <= ISA_SIZE → Q tt s → wp C (mapped a n) Q s.
Proof.
  intros Hb Ha Hn HQ. unfold mapped. wp_step. wp_step. rewrite (proj2 (Z.eqb_neq _ _)) by done.
  rewrite (proj2 (Z.leb_le 0 a)), (proj2 (Z.leb_le _ _)) by done. by apply wp_ret.
Qed.

(** The loops of [silly_read] fill [kbuf] with what the block copy gives. *)
Lemma wp_silly_read_loop fuel n k add s (Q : list Z → silly → Prop) :
  io_base s ≠ 0 → byte_memory (isa s) → (0 < n)%nat → (k < fuel)%nat →
  0 <= add → add + Z.of_nat (k * n) <= ISA_SIZE →
  Q (isa_bytes (isa s) add (k * n)) s →
  wp C (read_loop fuel n add (Z.of_nat (k * n))) Q s.
Proof.
  intros Hb Hm Hn. revert fuel add Q. induction k as [|k IH]; intros fuel add Q Hf Ha Hs HQ;
    (destruct fuel as [|fuel]; [lia|]); cbn [read_loop].
  - rewrite (proj2 (Z.leb_gt _ _)) by lia. by wp_step.
  - rewrite (proj2 (Z.leb_le _ _)) by lia. wp_step. unfold ioread. wp_step.
    apply wp_mapped; [done|done|lia|]. do 4 wp_step.
    replace (Z.of_nat (S k * n) - Z.of_nat n) with (Z.of_nat (k * n)) by lia.
    apply IH; [lia|lia|lia|]. wp_step.
    pose proof (le_bytes_value _ (isa_bytes_range (isa s) add n Hm)) as E.
    rewrite length_isa_bytes in E. by rewrite E, <-isa_bytes_app.
Qed.

(** A write loop stores the first byte of every word. *)
Lemma strided_step w a l f x :
  (0 < w)%nat → (w <= length l)%nat →
  strided (Z.of_nat w) (a + Z.of_nat w) (drop w l) (isa_store a [u8 (le_value (take w l))] f) x =
  strided (Z.of_nat w) a l f x.
Proof.
  intros Hw Hl. unfold strided, isa_store. destruct l as [|b l]; [cbn in Hl; lia|].
  destruct w as [|w]; [lia|]. cbn [take]. rewrite u8_le_value.
  destruct (a <=? x) eqn:E; zbool.
  2:{ rewrite (proj2 (Z.leb_gt _ _)) by lia. done. }
  cbn [andb]. destruct (decide (x = a)) as [->|Hx].
  { rewrite (proj2 (Z.leb_gt _ _)) by lia. by rewrite Z.sub_diag, Z.mod_0_l by lia. }
  rewrite (lookup_ge_None_2 [u8 b]) by (cbn; lia). cbn [default]. set (n := Z.of_nat (S w)).
  destruct (a + n <=? x) eqn:E'; zbool; cbn [andb].
  - replace ((x - (a + n)) mod n) with ((x - a) mod n).
    2:{ replace (x - a) with (x - (a + n) + 1 * n) by lia. apply Z.mod_add. lia. }
    rewrite lookup_drop. by replace (S w + Z.to_nat (x - (a + n)))%nat with (Z.to_nat (x - a)) by lia.
  - by rewrite (Z.mod_small (x - a)), (proj2 (Z.eqb_neq _ _)) by lia.
Qed.

Lemma strided_nil w a f x : strided w a [] f x = f x.
Proof. unfold strided. by destruct (_ && _). Qed.

Lemma strided_ext w a l f g x : f x = g x → strided w a l f x = strided w a l g x.
Proof. unfold strided. by intros ->. Qed.

(** What a write leaves alone. *)
Definition same_but_isa (s s' : silly) : Prop :=
  io_base s' = io_base s ∧ kbufs s' = kbufs s ∧ silly_major s' = silly_major s ∧ silly_regs s' = silly_regs s.

Lemma wp_silly_write_loop fuel n k add ptr s (Q : unit → silly → Prop) :
  io_base s ≠ 0 → (0 < n)%nat → (k < fuel)%nat → length ptr = (k * n)%nat →
  0 <= add → add + Z.of_nat (k * n) <= ISA_SIZE →
  (∀ s', same_but_isa s s' → (∀ x, isa s' x = strided (Z.of_nat n) add ptr (isa s) x) → Q tt s') →
  wp C (write_loop fuel n add (Z.of_nat (k * n)) ptr) Q s.
Proof.
  intros Hb Hn. revert fuel add ptr s Hb. induction k as [|k IH]; intros fuel add ptr s Hb Hf Hl Ha Hs HQ;
    (destruct fuel as [|fuel]; [lia|]); cbn [write_loop].
  - rewrite (proj2 (Z.leb_gt _ _)) by lia. wp_step. apply HQ; [done|]. intros x.
    apply nil_length_inv in Hl as ->. by rewrite strided_nil.
  - rewrite (proj2 (Z.leb_le _ _)) by lia. wp_step. unfold iowrite8. wp_step.
    apply wp_mapped; [done|done|lia|]. wp_step.
    replace (Z.of_nat (S k * n) - Z.of_nat n) with (Z.of_nat (k * n)) by lia.
    apply IH; [done|lia|rewrite length_drop; lia|lia|lia|].
    intros s' Hsame Hx. apply HQ; [exact Hsame|]. intros x. rewrite Hx. cbn [isa set_isa].
    apply strided_step; lia.
Qed.

(** ** A read *)

Lemma clip_extent f_pos count :
  0 <= f_pos <= ISA_SIZE → 0 <= count < 2 ^ 31 →
  u64 (ISA_BASE + f_pos) = ISA_BASE + f_pos ∧ clip (ISA_BASE + f_pos) count = extent f_pos count ∧
  0 <= extent f_pos count ∧ f_pos + extent f_pos count <= ISA_SIZE.
Proof.
  unfold clip, extent, ISA_SIZE, ISA_BASE, ISA_MAX. intros Hp Hc. rewrite !u64_small by lia.
  split_and!; [done| |lia|lia]. case_match; zbool; lia.
Qed.

Lemma downgrade_is_Some minor a n : is_Some (mode_of minor) → is_Some (downgrade (mode_of minor) a n).
Proof. intros [[] ->]; unfold downgrade; repeat case_match; simplify_eq; eauto. Qed.

Lemma wp_kmalloc_buf n s (Q : bool → silly → Prop) :
  (c_ans C (kmalloc n) 0 → Q false s) → (∀ z, c_ans C (kmalloc n) z → z ≠ 0 → Q true (set_kbufs (S (kbufs s)) s)) →
  wp C (kmalloc_buf n) Q s.
Proof.
  intros H0 H1. unfold kmalloc_buf. wp_step. wp_step. wp_step; [subst; wp_step; by apply H0|].
  wp_step. wp_step. wp_step. by eapply H1.
Qed.

Lemma kbufs_back s : set_kbufs (pred (kbufs (set_kbufs (S (kbufs s)) s))) (set_kbufs (S (kbufs s)) s) = s.
Proof. by destruct s. Qed.

(** Any way of reading fills [kbuf] alike. *)
Lemma wp_silly_fill minor f_pos n mode s (Q : list Z → silly → Prop) :
  io_base s ≠ 0 → byte_memory (isa s) → 0 <= f_pos → 0 <= n → f_pos + n <= ISA_SIZE →
  downgrade (mode_of minor) (ISA_BASE + f_pos) n = Some mode →
  Q (isa_bytes (isa s) f_pos (Z.to_nat n)) s →
  wp C (match mode with
        | M_memcpy => memcpy_fromio f_pos n
        | _ => read_loop (S (Z.to_nat n)) (width mode) f_pos n
        end) Q s.
Proof.
  intros Hb Hm Hp Hn Hs Hd HQ.
  assert (mode ≠ M_memcpy → wp C (read_loop (S (Z.to_nat n)) (width mode) f_pos n) Q s) as Hloop.
  { intros Hne. destruct (downgrade_fits _ _ _ _ Hd Hne) as [Hw Hmod].
    apply Z.mod_divide in Hmod as [k Hk]; [|lia].
    assert (n = Z.of_nat (Z.to_nat k * width mode)) as En by nia. rewrite En at 2.
    apply wp_silly_read_loop; [done..|nia|done|lia|]. by replace (Z.to_nat k * width mode)%nat with (Z.to_nat n) by lia. }
  destruct mode; try by apply Hloop. unfold memcpy_fromio. wp_step. apply wp_mapped; [done..|].
  by repeat wp_step.
Qed.

Lemma wp_silly_read minor count f_pos s (Q : Z * Z * list cell → silly → Prop) :
  let n := extent f_pos count in
  let bytes := Some <$> isa_bytes (isa s) f_pos (Z.to_nat n) in
  io_base s ≠ 0 → byte_memory (isa s) → 0 <= f_pos <= ISA_SIZE → 0 <= count < 2 ^ 31 →
  is_Some (mode_of minor) →
  (c_ans C (kmalloc n) 0 → Q (- ENOMEM, f_pos, []) s) →
  (∀ z k, c_ans C (copy_user n) z → z ≠ 0 → Q (- EFAULT, f_pos - EFAULT, take k bytes) s) →
  Q (n, f_pos + n, bytes) s →
  wp C (silly_read minor count f_pos) Q s.
Proof.
  intros n bytes Hb Hm Hp Hc Hmode Hmem Hko Hok. destruct (clip_extent f_pos count Hp Hc) as (Eu & Ec & Hn).
  fold n in Ec, Hn. unfold silly_read. rewrite Eu, Ec. wp_step.
  apply wp_kmalloc_buf; [intros H0; cbn [negb]; wp_step; by apply Hmem|]. intros _ _ _. cbn [negb].
  destruct (downgrade_is_Some minor (ISA_BASE + f_pos) n Hmode) as [mode Hd]. rewrite Hd. wp_step.
  replace (ISA_BASE + f_pos - ISA_BASE) with f_pos by lia. set (s1 := set_kbufs _ s).
  eapply wp_silly_fill; [done|done|lia|lia|lia|done|].
  change (isa s1) with (isa s). rewrite length_isa_bytes. rewrite s32_small by (unfold ISA_SIZE, ISA_MAX, ISA_BASE in *; lia).
  replace (n - Z.of_nat (Z.to_nat n)) with 0 by lia. rewrite app_nil_r. fold bytes.
  assert (length bytes = Z.to_nat n) as Hlen by (unfold bytes; by rewrite length_fmap, length_isa_bytes).
  rewrite (take_ge bytes) by lia. unfold kfree_buf. wp_step. destruct (n >? 0) eqn:En.
  - apply wp_copy_to_user. intros z Hz. rewrite Hlen, Z2Nat.id in Hz by lia. wp_step. wp_step.
    unfold s1. rewrite kbufs_back. wp_step. destruct (z =? 0) eqn:Ez; zbool; [|by eapply Hko].
    subst z. rewrite Nat.sub_0_r, firstn_all. exact Hok.
  - wp_step. wp_step. wp_step. unfold s1. rewrite kbufs_back. wp_step.
    replace [] with bytes; [exact Hok|]. apply nil_length_inv. rewrite Hlen. lia.
Qed.

(** ** A write *)

(** The stride of the bytes that are written. *)
Definition stride (mode : silly_modes) : Z := match mode with M_memcpy => 1 | _ => Z.of_nat (width mode) end.

Lemma strided_one a l f x :
  Forall (λ b, 0 <= b < 2 ^ 8) l → isa_store a l f x = strided 1 a l f x.
Proof.
  intros Hl. unfold isa_store, strided. rewrite Z.mod_1_r, andb_true_r. destruct (a <=? x); [|done].
  destruct (l !! Z.to_nat (x - a)) as [b|] eqn:E; [|done]. cbn. rewrite u8_small; [done|].
  by apply (proj1 (Forall_lookup _ _) Hl _ _ E).
Qed.

Lemma wp_spill minor f_pos n mode kbuf s (Q : unit → silly → Prop) :
  io_base s ≠ 0 → 0 <= f_pos → 0 <= n → f_pos + n <= ISA_SIZE → lenZ kbuf = n →
  Forall (λ b, 0 <= b < 2 ^ 8) kbuf →
  downgrade (mode_of minor) (ISA_BASE + f_pos) n = Some mode →
  (∀ s', same_but_isa s s' → (∀ x, isa s' x = strided (stride mode) f_pos kbuf (isa s) x) → Q tt s') →
  wp C (match mode with
        | M_memcpy => memcpy_toio f_pos kbuf
        | _ => write_loop (S (Z.to_nat n)) (width mode) f_pos n kbuf
        end) Q s.
Proof.
  intros Hb Hp Hn Hs Hl Hbytes Hd HQ.
  assert (mode ≠ M_memcpy → wp C (write_loop (S (Z.to_nat n)) (width mode) f_pos n kbuf) Q s) as Hloop.
  { intros Hne. destruct (downgrade_fits _ _ _ _ Hd Hne) as [Hw Hmod].
    apply Z.mod_divide in Hmod as [k Hk]; [|lia].
    assert (n = Z.of_nat (Z.to_nat k * width mode)) as En by nia. rewrite En at 2.
    apply wp_silly_write_loop; [done..|nia|lia|done|lia|]. intros s' H1 H2. apply HQ; [done|].
    by destruct mode. }
  destruct mode; try by apply Hloop. unfold memcpy_toio. wp_step. apply wp_mapped; [done|done|lia|].
  wp_step. apply HQ; [done|]. intros x. by apply strided_one.
Qed.

Lemma wp_silly_write minor buf f_pos s (Q : Z * Z → silly → Prop) :
  let n := extent f_pos (lenZ buf) in
  io_base s ≠ 0 → 0 <= f_pos <= ISA_SIZE → lenZ buf < 2 ^ 31 → Forall (λ b, 0 <= b < 2 ^ 8) buf →
  is_Some (mode_of minor) →
  (c_ans C capable 0 → Q (- EPERM, f_pos) s) → (c_ans C (kmalloc n) 0 → Q (- ENOMEM, f_pos) s) →
  (∀ z, c_ans C (copy_user n) z → z ≠ 0 → Q (- EFAULT, f_pos) s) →
  (∀ s' mode, downgrade (mode_of minor) (ISA_BASE + f_pos) n = Some mode → same_but_isa s s' →
    (∀ x, isa s' x = strided (stride mode) f_pos (take (Z.to_nat n) buf) (isa s) x) →
    Q (n, f_pos + n) s') →
  wp C (silly_write minor buf f_pos) Q s.
Proof.
  intros n Hb Hp Hc Hbytes Hmode Hperm Hmem Hko Hok.
  destruct (clip_extent f_pos (lenZ buf) Hp ltac:(lia)) as (Eu & Ec & Hn).
  fold n in Ec, Hn. unfold silly_write. wp_step. wp_step. wp_step; [subst; wp_step; by apply Hperm|].
  rewrite Eu, Ec. wp_step.
  apply wp_kmalloc_buf; [intros H0; cbn [negb]; wp_step; by apply Hmem|]. intros _ _ _. cbn [negb].
  destruct (downgrade_is_Some minor (ISA_BASE + f_pos) n Hmode) as [mode Hd]. rewrite Hd. unfold kfree_buf.
  wp_step. wp_step. wp_step.
  { wp_step. wp_step. wp_step. rewrite kbufs_back. by eapply Hko. }
  replace (ISA_BASE + f_pos - ISA_BASE) with f_pos by lia. set (s1 := set_kbufs _ s). wp_step.
  assert (n <= lenZ buf) as Hle by (unfold n, extent; lia).
  eapply wp_spill; [done|lia|lia|lia|rewrite length_take; lia|by apply Forall_take|exact Hd|].
  intros s2 (H1 & H2 & H3 & H4) Hx. do 3 wp_step.
  rewrite s32_small by (unfold ISA_SIZE, ISA_MAX, ISA_BASE in *; lia). eapply Hok; [exact Hd| |done].
  split_and!; [done| |done|done]. cbn. rewrite H2. done.
Qed.
End triples.

(** ** Properties *)

(** C27: a read gives what the memory holds from the position to the end of the
    request or of the memory, the same with accesses of 8, 16 or 32 bits as with
    a block copy, whatever the alignment; no buffer is left. *)
Theorem silly_modes_agree o m1 m2 count f_pos s :
  obeys o (quiet silly) → is_Some (mode_of m1) → is_Some (mode_of m2) →
  io_base s ≠ 0 → byte_memory (isa s) → 0 <= f_pos <= ISA_SIZE → 0 <= count < 2 ^ 31 →
  let n := extent f_pos count in
  run o (silly_read m1 count f_pos) s = run o (silly_read m2 count f_pos) s ∧
  run o (silly_read m1 count f_pos) s =
    Done ((n, f_pos + n, Some <$> isa_bytes (isa s) f_pos (Z.to_nat n)), s).
Proof.
  intros Ho H1 H2 Hb Hm Hp Hc n.
  assert (∀ m, is_Some (mode_of m) → run o (silly_read m count f_pos) s =
    Done ((n, f_pos + n, Some <$> isa_bytes (isa s) f_pos (Z.to_nat n)), s)) as H.
  { intros m Hmode.
    destruct (wp_total (quiet silly) (silly_read m count f_pos)
      (λ r s', r = (n, f_pos + n, Some <$> isa_bytes (isa s) f_pos (Z.to_nat n)) ∧ s' = s) s o)
      as (r & s' & E & -> & ->); [|done|by intros []|done].
    apply wp_silly_read; [done..|by intros [_ ?]|by intros z k [_ ?]|done]. }
  by rewrite !H.
Qed.

(** A write is refused without effect, or stores the bytes that fit; of every
    16-bit word only the first byte, of every 32-bit word only the first of four,
    for all loops use [iowrite8]. *)
Theorem silly_write_spec C minor buf f_pos s :
  let n := extent f_pos (lenZ buf) in
  io_base s ≠ 0 → 0 <= f_pos <= ISA_SIZE → lenZ buf < 2 ^ 31 → Forall (λ b, 0 <= b < 2 ^ 8) buf →
  is_Some (mode_of minor) →
  wp C (silly_write minor buf f_pos)
    (λ r s', (∃ e, e ∈ [EPERM; ENOMEM; EFAULT] ∧ r = (- e, f_pos) ∧ s' = s) ∨
      (r = (n, f_pos + n) ∧ same_but_isa s s' ∧
       ∃ mode, downgrade (mode_of minor) (ISA_BASE + f_pos) n = Some mode ∧
         ∀ x, isa s' x = strided (stride mode) f_pos (take (Z.to_nat n) buf) (isa s) x)) s.
Proof.
  intros n Hb Hp Hc Hbytes Hmode. apply wp_silly_write; [done..| | | |].
  - intros _. left. exists EPERM. split_and!; [|done..]. by repeat constructor.
  - intros _. left. exists ENOMEM. split_and!; [|done..]. by repeat constructor.
  - intros z _ _. left. exists EFAULT. split_and!; [|done..]. by repeat constructor.
  - intros s' mode Hd Hsame Hx. right. eauto 10.
Qed.

(** Past the end of the memory the count wraps round to a block no kernel has:
    the calls fail with [-ENOMEM], the [return 0] meant for them is never taken. *)
Theorem silly_beyond C minor buf count f_pos s :
  silly_contract C → ISA_SIZE < f_pos < 2 ^ 62 → 0 <= count < 2 ^ 31 → lenZ buf < 2 ^ 31 →
  wp C (silly_read minor count f_pos) (λ r s', r = (- ENOMEM, f_pos, []) ∧ s' = s) s ∧
  wp C (silly_write minor buf f_pos) (λ r s', (r = (- EPERM, f_pos) ∨ r = (- ENOMEM, f_pos)) ∧ s' = s) s.
Proof.
  intros HC Hp Hc Hl.
  assert (∀ k, 0 <= k < 2 ^ 31 → 2 ^ 22 < clip (u64 (ISA_BASE + f_pos)) k) as Hclip.
  { intros k Hk. unfold clip, u64, ISA_SIZE, ISA_BASE, ISA_MAX in *.
    rewrite (Z.mod_small (655360 + f_pos)), (Z.mod_small (655360 + f_pos + k)) by lia.
    rewrite Z.gtb_ltb, (proj2 (Z.ltb_lt _ _)) by lia.
    rewrite <-(Z.mod_unique _ (2 ^ 64) (-1) (1048576 - (655360 + f_pos) + 2 ^ 64)) by lia. lia. }
  split.
  - unfold silly_read. wp_step. apply wp_kmalloc_buf; [intros _; by wp_step|].
    intros z Hz Hz0. by destruct Hz0; eapply HC, Hclip.
  - unfold silly_write. wp_step. wp_step. wp_step; [wp_step; by auto|]. wp_step.
    apply wp_kmalloc_buf; [intros _; cbn [negb]; wp_step; by auto|].
    intros z' Hz Hz0. destruct Hz0. eapply HC; [exact Hz|]. apply Hclip. lia.
Qed.

(** Memory that holds its addresses. *)
Definition silly_loaded : silly := MkSilly 4096 (λ a, a mod 256) 0 250 empty_registry.

Lemma silly_modes_agree_witness :
  run quiet_oracle (silly_read 2 8 4) silly_loaded = run quiet_oracle (silly_read 3 8 4) silly_loaded ∧
  run quiet_oracle (silly_read 2 8 4) silly_loaded =
    Done ((8, 12, Some <$> [4; 5; 6; 7; 8; 9; 10; 11]), silly_loaded).
Proof.
  apply (silly_modes_agree quiet_oracle 2 3 8 4 silly_loaded);
    first [done | apply quiet_obeys | by eexists | by intros a; apply Z.mod_pos_bound].
Defined.

Lemma silly_write_spec_witness :
  wp (quiet silly) (silly_write 1 [1; 2; 3; 4] 16)
    (λ r s', (∃ e, e ∈ [EPERM; ENOMEM; EFAULT] ∧ r = (- e, 16) ∧ s' = silly_loaded) ∨
      (r = (4, 20) ∧ same_but_isa silly_loaded s' ∧
       ∃ mode, downgrade (mode_of 1) (ISA_BASE + 16) 4 = Some mode ∧
         ∀ x, isa s' x = strided (stride mode) 16 [1; 2; 3; 4] (isa silly_loaded) x)) silly_loaded.
Proof.
  apply (silly_write_spec (quiet silly) 1 [1; 2; 3; 4] 16 silly_loaded);
    first [done | by eexists | by repeat constructor].
Defined.

Lemma silly_beyond_witness :
  let C := Contract (λ c z, match c with kmalloc n => 2 ^ 22 < n → z = 0 | _ => True end) alone False in
  wp C (silly_read 0 10 500000) (λ r s', r = (- ENOMEM, 500000, []) ∧ s' = silly_loaded) silly_loaded ∧
  wp C (silly_write 0 [7] 500000)
    (λ r s', (r = (- EPERM, 500000) ∨ r = (- ENOMEM, 500000)) ∧ s' = silly_loaded) silly_loaded.
Proof. intros C. apply (silly_beyond C 0 [7] 10 500000 silly_loaded); try done. by intros n z Hz Hn; apply Hz. Defined.

(** Two words written with 16-bit accesses and read back: the second byte of
    each is still what it was. *)
Example silly_word_write :
  run quiet_oracle (silly_write 1 [1; 2; 3; 4] 16;; silly_read 0 4 16) silly_loaded ≫=
    (λ '((_, _, l), _), Done l) = Done (Some <$> [1; 17; 3; 19]).
Proof. vm_compute. reflexivity. Qed.

(** A read from a driver whose [ioremap] failed. *)
Example silly_unmapped :
  run quiet_oracle (r ← silly_init; silly_read 0 1 0;; mret r)
    (MkSilly 4096 (λ a, a mod 256) 0 250 empty_registry) = Oops NullDeref.
Proof. vm_compute. reflexivity. Qed.
