(* ===== verification/Skull.v ===== *)
(** * skull: probing memory and ports (src/ldd4/skull)

    The scan of the memory hole of a PC at load time, which tells RAM, ROM and
    empty blocks apart by what reads and writes do, and the search for a board. *)

From stdpp Require Import base tactics numbers list strings sets.
From S2P Require Import Prelude KMonad Registry.
From Stdlib Require Import ZArith Lia.

Open Scope Z_scope.

(** ** Data *)

Definition ISA_REGION_BEGIN : Z := 655360.
Definition ISA_REGION_END : Z := 1048576.
Definition STEP : Z := 2048.

(** What answers at an address: writable memory, memory that is not, or nothing,
    when a read gives any byte. *)
Inductive answerer := Ram | Rom | Nothing.

(** What the scan prints of a block. *)
Inductive verdict := Allocated | IsRam | IsEmpty | ExpansionRom (size : Z) | LooksEmpty | IsRom.

Record skull := MkSkull {
  at_address : Z → answerer;
  contents : Z → Z;
  printed : list (Z * verdict);
  skull_regs : registry
}.

Definition set_contents (v : Z → Z) (s : skull) : skull := MkSkull (at_address s) v (printed s) (skull_regs s).
Definition set_printed (v : list (Z * verdict)) (s : skull) : skull :=
  MkSkull (at_address s) (contents s) v (skull_regs s).
Definition set_skull_regs (v : registry) (s : skull) : skull :=
  MkSkull (at_address s) (contents s) (printed s) v.

#[export] Instance skull_registry : HasRegistry skull :=
  { registry_of := skull_regs; set_registry := set_skull_regs; registry_set g s := eq_refl }.

Definition print (add : Z) (v : verdict) : K skull unit := modify (λ s, set_printed (printed s ++ [(add, v)]) s).

(** ** The memory

    [base] is what [ioremap] answered; an access outside the region, or with no
    mapping, faults. *)
Definition in_region (base a : Z) : K skull unit :=
  if base =? 0 then oops NullDeref
  else if (ISA_REGION_BEGIN <=? a) && (a <? ISA_REGION_END) then mret tt else oops OutOfBounds.

Definition readb (base a : Z) : K skull Z :=
  in_region base a;;
  s ← get;
  match at_address s a with
  | Nothing => call (io_in a)
  | _ => mret (contents s a)
  end.

Definition writeb (base v a : Z) : K skull unit :=
  in_region base a;;
  s ← get;
  match at_address s a with
  | Ram => put (set_contents (λ x, if x =? a then v else contents s x) s)
  | _ => mret tt
  end.

(** ** The scan *)

(** The last loop: five bytes at "random" places; whether one is neither 0 nor 255
    nor the low byte of its address. *)
Fixpoint probe_bytes (n : nat) (i base add : Z) : K skull bool :=
  match n with
  | O => mret false
  | S n =>
      let radd := add + 57 * (i + 1) in
      val ← readb base radd;
      if c_bool val && negb (val =? 255) && negb (val =? Z.land radd 255) then mret true
      else probe_bytes n (i + 1) base add
  end.

(** [Read and write the beginning of the region]: the two values read. *)
Definition test_byte (base add : Z) : K skull (Z * Z) :=
  oldval ← readb base add;
  writeb base (Z.lxor oldval 255) add;;
  newval ← readb base add;
  writeb base oldval add;;
  mret (oldval, newval).

(** The body of the loop, with the value of [add] at its end. *)
Definition probe_block (base add : Z) : K skull Z :=
  busy ← call (kint "check_mem_region");
  if c_bool busy then print add Allocated;; mret add else
  '(oldval, newval) ← test_byte base add;
  if Z.lxor oldval newval =? 255 then print add IsRam;; mret add else
  if negb (Z.lxor oldval newval =? 0) then print add IsEmpty;; mret add else
  sig ← (if oldval =? 85 then b ← readb base (add + 1); mret (b =? 170) else mret false);
  if sig : bool then
    b ← readb base (add + 2);
    let size := 512 * b in
    print add (ExpansionRom size);;
    mret (u64 (add + (Z.land size (Z.lnot 2048) - 2048)))
  else
    rom ← probe_bytes 5 0 base add;
    print add (if rom : bool then IsRom else LooksEmpty);;
    mret add.

Fixpoint scan (fuel : nat) (base add : Z) : K skull unit :=
  match fuel with
  | O => sleep_forever
  | S fuel =>
      if add <? ISA_REGION_END then
        add ← probe_block base add;
        scan fuel base (u64 (add + STEP))
      else mret tt
  end.

(** ** The board *)

Definition SKULL_PORT_FLOOR : Z := 640.
Definition SKULL_PORT_CEIL : Z := 768.
Definition SKULL_PORT_RANGE : Z := 16.

Definition skull_probe_hw (port range : Z) : K skull Z := mret (-1).
Definition skull_init_board (port : Z) : K skull Z := mret 0.

Definition skull_detect (port range : Z) : K skull Z :=
  err ← call (kint "check_region");
  if err <? 0 then mret err else
  r ← skull_probe_hw port range;
  if negb (r =? 0) then mret (- ENODEV) else
  hold (Res "region" port);;
  mret 0.

Fixpoint find_loop (fuel : nat) (skull_port_base base result : Z) : K skull Z :=
  match fuel with
  | O => sleep_forever
  | S fuel =>
      d ← skull_detect base SKULL_PORT_RANGE;
      result ← (if d =? 0 then skull_init_board base;; mret (result + 1) else mret result);
      let base := s32 (base + SKULL_PORT_RANGE) in
      if (skull_port_base =? 0) && (base <? SKULL_PORT_CEIL)
      then find_loop fuel skull_port_base base result else mret result
  end.

Definition skull_find_hw (fuel : nat) (skull_port_base : Z) : K skull Z :=
  find_loop fuel skull_port_base
    (if c_bool skull_port_base then skull_port_base else SKULL_PORT_FLOOR) 0.

Definition isa_mapping : resource := Res "ioremap" ISA_REGION_BEGIN.

Definition skull_init (fuel : nat) (skull_port_base : Z) : K skull Z :=
  base ← acquire_ptr "ioremap" isa_mapping;
  scan fuel base ISA_REGION_BEGIN;;
  skull_find_hw fuel skull_port_base;;
  mret 0.

(** [skull_cleanup] of skull_clean.c. *)
Definition skull_release (port range : Z) : K skull unit := give_back (Res "region" port).
Definition skull_cleanup : K skull unit := mret tt.

(** ** Specification *)

(** Where the scan goes on after a block. *)
Definition next_block (add : Z) (v : verdict) : Z :=
  match v with
  | ExpansionRom size => add + Z.land size (Z.lnot 2048)
  | _ => add + STEP
  end.

(** A scan from [add] to the end of the region. *)
Inductive scanned : Z → list (Z * verdict) → Prop :=
| scanned_end add : ISA_REGION_END <= add → scanned add []
| scanned_block add v l : add < ISA_REGION_END → scanned (next_block add v) l → scanned add ((add, v) :: l).

(** What a verdict is worth. *)
Definition verdict_ok (s : skull) (r : Z * verdict) : Prop :=
  let (add, v) := r in
  match at_address s add with
  | Ram => v = Allocated ∨ v = IsRam
  | Rom => v = Allocated ∨ v = IsRom ∨ v = LooksEmpty ∨
      (∃ size, v = ExpansionRom size ∧ contents s add = 85)
  | Nothing => v = Allocated ∨ v = IsRam ∨ v = IsEmpty ∨ v = LooksEmpty ∨ v = IsRom
  end.

(** The three bytes at the start of an expansion ROM. *)
Definition signature (s : skull) (add : Z) : Prop :=
  at_address s add = Rom ∧ contents s add = 85 ∧
  at_address s (add + 1) = Rom ∧ contents s (add + 1) = 170 ∧ at_address s (add + 2) = Rom.

Definition in_hole (a : Z) : Prop := ISA_REGION_BEGIN <= a < ISA_REGION_END.

(** Bytes; and where a multiple of 512 starts like an expansion ROM, with 0x55 and
    0xAA, there is a size byte, and it is neither 0 nor 4. *)
Record sane_memory (s : skull) : Prop := {
  sm_bytes : ∀ a, 0 <= contents s a < 256;
  sm_rom : ∀ a, in_hole a → a mod 512 = 0 → at_address s a = Rom → contents s a = 85 →
    at_address s (a + 1) ≠ Nothing → contents s (a + 1) = 170 →
    at_address s (a + 2) ≠ Nothing ∧ contents s (a + 2) ∉ [0; 4]
}.

(** The bus as the comment in [skull_init] has it: where nothing answers a read
    gives 0, 255, or the low byte of the address. *)
Definition floating_bus (C : contract skull) : Prop :=
  ∀ a z, c_ans C (io_in a) z → z = 0 ∨ z = 255 ∨ z = Z.land a 255.

(** Writes of the scan are undone. *)
Record restored (s s' : skull) : Prop := {
  rs_at : at_address s' = at_address s;
  rs_contents : ∀ x, contents s' x = contents s x;
  rs_regs : skull_regs s' = skull_regs s
}.

Lemma restored_refl s : restored s s.
Proof. done. Qed.
Lemma restored_trans s1 s2 s3 : restored s1 s2 → restored s2 s3 → restored s1 s3.
Proof. intros [H1 H2 H3] [H4 H5 H6]. split; [congruence| |congruence]. intros x. by rewrite H5. Qed.

Lemma sane_restored s s' : restored s s' → sane_memory s → sane_memory s'.
Proof.
  intros [Ha Hc _] [Hb Hr]. split; [intros a; by rewrite Hc|]. intros a. rewrite Ha, !Hc. apply Hr.
Qed.
Lemma verdict_restored s s' r : restored s s' → verdict_ok s' r → verdict_ok s r.
Proof. intros [Ha Hc _]. destruct r as [a v]. cbn. by rewrite Ha, Hc. Qed.

(** ** The size of a ROM *)

Lemma rom_step b : 0 <= b < 256 → b ∉ [0; 4] →
  512 <= Z.land (512 * b) (Z.lnot 2048) <= 512 * 255 ∧ Z.land (512 * b) (Z.lnot 2048) mod 512 = 0.
Proof.
  intros Hb H04.
  assert (forallb (λ n, let x := Z.land (512 * Z.of_nat n) (Z.lnot 2048) in
    bool_decide (Z.of_nat n ∈ [0; 4]) || (512 <=? x) && (x <=? 512 * 255) && (x mod 512 =? 0)) (seq 0 256) = true)
    as H by (vm_compute; reflexivity).
  rewrite forallb_forall in H. specialize (H (Z.to_nat b)). rewrite Z2Nat.id in H by lia.
  specialize (H ltac:(apply in_seq; lia)). rewrite bool_decide_eq_false_2 in H by done.
  cbn [orb] in H. zbool. lia.
Qed.

(** ** Triples *)

Section triples.
Context (C : contract skull) (HC : floating_bus C) (base : Z) (Hbase : base ≠ 0).

Lemma wp_in_region a s (Q : unit → skull → Prop) : in_hole a → Q tt s → wp C (in_region base a) Q s.
Proof.
  intros [H1 H2] HQ. unfold in_region. rewrite (proj2 (Z.eqb_neq _ _)) by done.
  rewrite (proj2 (Z.leb_le _ _)), (proj2 (Z.ltb_lt _ _)) by done. by apply wp_ret.
Qed.

Lemma wp_readb a s (Q : Z → skull → Prop) :
  in_hole a →
  (∀ z, (at_address s a = Nothing ∧ (z = 0 ∨ z = 255 ∨ z = Z.land a 255)) ∨
        (at_address s a ≠ Nothing ∧ z = contents s a) → Q z s) →
  wp C (readb base a) Q s.
Proof.
  intros Ha HQ. unfold readb. wp_step. apply wp_in_region; [done|]. wp_step. wp_step.
  destruct (at_address s a) eqn:E; [wp_step; apply HQ; by right|wp_step; apply HQ; by right|].
  wp_step. apply HQ. left. split; [done|]. by apply HC.
Qed.

Lemma wp_writeb v a s (Q : unit → skull → Prop) :
  in_hole a →
  Q tt (match at_address s a with Ram => set_contents (λ x, if x =? a then v else contents s x) s | _ => s end) →
  wp C (writeb base v a) Q s.
Proof.
  intros Ha HQ. unfold writeb. wp_step. apply wp_in_region; [done|]. wp_step. wp_step.
  destruct (at_address s a); wp_step; exact HQ.
Qed.

Lemma wp_probe_bytes n i add s (Q : bool → skull → Prop) :
  0 <= i → (∀ j, i <= j < i + Z.of_nat n → in_hole (add + 57 * (j + 1))) → (∀ b, Q b s) →
  wp C (probe_bytes n i base add) Q s.
Proof.
  revert i. induction n as [|n IH]; intros i Hi Ha HQ; cbn [probe_bytes]; [by wp_step|].
  wp_step. apply wp_readb; [apply Ha; lia|]. intros z _.
  destruct (_ && _); [by wp_step|]. apply IH; [lia| |done]. intros j Hj. apply Ha. lia.
Qed.

Lemma low_byte add : Z.land add 255 = add mod 256.
Proof. change 255 with (Z.ones 8). by rewrite Z.land_ones. Qed.

(** What the two reads may be. *)
Definition tested (s : skull) (add o n : Z) : Prop :=
  match at_address s add with
  | Ram => Z.lxor o n = 255
  | Rom => o = contents s add ∧ n = o
  | Nothing => o ≠ 85
  end.

Lemma wp_test_byte add s (Q : Z * Z → skull → Prop) :
  in_hole add → add mod 512 = 0 →
  (∀ o n s', restored s s' → printed s' = printed s → tested s add o n → Q (o, n) s') →
  wp C (test_byte base add) Q s.
Proof.
  intros Ha Hmod HQ. unfold test_byte. wp_step. apply wp_readb; [done|]. intros o Ho. wp_step. apply wp_writeb; [done|].
  wp_step. apply wp_readb; [done|]. intros n Hn. wp_step. apply wp_writeb; [done|]. wp_step. unfold tested in HQ.
  assert (Z.land add 255 = 0) as Hlow.
  { rewrite low_byte. Z.to_euclidean_division_equations. lia. }
  destruct (at_address s add) eqn:E; cbn in *; rewrite ?E in *.
  - destruct Ho as [[? _]|[_ ->]]; [done|]. destruct Hn as [[? _]|[_ ->]]; [done|]. cbn. rewrite Z.eqb_refl.
    apply HQ; [|done|by rewrite <-Z.lxor_assoc, Z.lxor_nilpotent].
    split; [done| |done]. intros x. cbn. destruct (x =? add) eqn:Ex; [zbool; by subst|done].
  - destruct Ho as [[? _]|[_ ->]]; [done|]. destruct Hn as [[? _]|[_ ->]]; [done|]. by apply HQ.
  - destruct Ho as [[_ Ho]|[? _]]; [|done]. apply HQ; [done|done|]. lia.
Qed.

(** One block. *)
Lemma wp_probe_block add s (Q : Z → skull → Prop) :
  sane_memory s → in_hole add → add mod 512 = 0 →
  (∀ r v s', restored s s' → printed s' = printed s ++ [(add, v)] → verdict_ok s (add, v) →
    u64 (r + STEP) = next_block add v → next_block add v mod 512 = 0 →
    add + 512 <= next_block add v <= add + 512 * 255 → Q r s') →
  wp C (probe_block base add) Q s.
Proof.
  intros Hs Ha Hmod HQ. assert (∀ j, 0 <= j <= 285 → in_hole (add + j)) as Hin.
  { intros j Hj. unfold in_hole, ISA_REGION_BEGIN, ISA_REGION_END in *. Z.to_euclidean_division_equations. lia. }
  assert (∀ v s', restored s s' → printed s' = printed s → verdict_ok s (add, v) → next_block add v = add + STEP →
    wp C (print add v;; mret add) Q s') as Hend.
  { intros v s' Hr Hp Hv Hnext. unfold print. do 3 wp_step. apply (HQ add v); [by destruct Hr|cbn; by rewrite Hp|done|..];
      rewrite Hnext; unfold STEP, in_hole, ISA_REGION_BEGIN, ISA_REGION_END in *; [apply u64_small; lia| |lia].
    Z.to_euclidean_division_equations. lia. }
  unfold probe_block. wp_step. wp_step. wp_step.
  { apply Hend; [done|done| |done]. cbn. destruct (at_address s add); auto. }
  wp_step. apply wp_test_byte; [done|done|]. intros o n s' Hr Hp Ht. unfold tested in Ht.
  destruct (Z.lxor o n =? 255) eqn:E1; zbool.
  { apply Hend; [done|done| |done]. cbn. destruct (at_address s add); [by auto| |by auto].
    destruct Ht as [_ ->]. by rewrite Z.lxor_nilpotent in E1. }
  destruct (Z.lxor o n =? 0) eqn:E2; zbool; cbn [negb].
  2:{ apply Hend; [done|done| |done]. cbn. destruct (at_address s add); [done| |by auto].
    destruct Ht as [_ ->]. by rewrite Z.lxor_nilpotent in E2. }
  assert (at_address s add ≠ Ram → wp C (rom ← probe_bytes 5 0 base add;
    print add (if rom : bool then IsRom else LooksEmpty);; mret add) Q s') as Hlast.
  { intros Hram. wp_step. apply wp_probe_bytes; [done| |].
    - intros j Hj. apply Hin. lia.
    - intros rom. apply Hend; [done|done| |by destruct rom]. cbn.
      destruct (at_address s add); [done|destruct rom; by auto|destruct rom; by auto 6]. }
  assert (at_address s add ≠ Ram) as Hram by (intros E; rewrite E in Ht; congruence).
  wp_step. destruct (o =? 85) eqn:E85; zbool; [|by wp_step; apply Hlast].
  destruct (at_address s add) eqn:E; [done| |done]. destruct Ht as [Ho _]. rewrite E85 in Ho.
  wp_step. apply wp_readb; [apply Hin; lia|]. rewrite (rs_at _ _ Hr), (rs_contents _ _ Hr).
  intros z1 Hz1. wp_step. destruct (z1 =? 170) eqn:E1a; zbool; [|by apply Hlast]. subst z1.
  destruct Hz1 as [[_ Hz1]|[A1 B1]].
  { exfalso. rewrite low_byte in Hz1. Z.to_euclidean_division_equations. lia. }
  destruct (sm_rom _ Hs add Ha Hmod E (eq_sym Ho) A1 (eq_sym B1)) as [A2 Hsize].
  pose proof (rom_step _ (sm_bytes _ Hs (add + 2)) Hsize) as [Hstep Hstep'].
  wp_step. apply wp_readb; [apply Hin; lia|]. rewrite (rs_at _ _ Hr), (rs_contents _ _ Hr).
  intros z2 [[? _]|[_ ->]]; [done|]. unfold print. do 3 wp_step.
  apply (HQ _ (ExpansionRom (512 * contents s (add + 2)))); [by destruct Hr|cbn; by rewrite Hp| |..].
  - cbn. rewrite E. by eauto 6.
  - cbn. unfold u64. rewrite Zplus_mod_idemp_l. rewrite Z.mod_small; [unfold STEP; lia|].
    unfold STEP, in_hole, ISA_REGION_BEGIN, ISA_REGION_END in *. lia.
  - cbn. rewrite Z.add_mod, Hmod, Hstep' by lia. done.
  - cbn. lia.
Qed.

(** The scan advances by 512 bytes at least. *)
Lemma wp_scan fuel add s (Q : unit → skull → Prop) :
  sane_memory s → ISA_REGION_BEGIN <= add → add mod 512 = 0 →
  (0 < fuel)%nat → ISA_REGION_END - add <= 512 * (Z.of_nat fuel - 1) →
  (∀ l s', restored s s' → printed s' = printed s ++ l → scanned add l → Forall (verdict_ok s) l → Q tt s') →
  wp C (scan fuel base add) Q s.
Proof.
  revert add s Q. induction fuel as [|fuel IH]; intros add s Q Hs Ha Hmod Hpos Hf HQ; [lia|]. cbn [scan].
  destruct (add <? ISA_REGION_END) eqn:E; zbool.
  2:{ wp_step. apply (HQ []); [done|by rewrite app_nil_r|by constructor|done]. }
  wp_step. apply wp_probe_block; [done|split; lia|done|].
  intros r v s1 Hr Hp Hv Hnext Hmod' Hstep. rewrite Hnext.
  apply IH; [by eapply sane_restored|lia|done|lia|lia|].
  intros l s2 Hr2 Hp2 Hl HF. apply (HQ ((add, v) :: l)).
  - by eapply restored_trans.
  - by rewrite Hp2, Hp, <-app_assoc.
  - by constructor.
  - constructor; [done|]. eapply Forall_impl; [exact HF|]. intros x. by apply verdict_restored.
Qed.

(** No board is found, and no region taken. *)
Lemma wp_find_loop fuel skull_port_base b s (Q : Z → skull → Prop) :
  SKULL_PORT_FLOOR <= b < SKULL_PORT_CEIL ∨ skull_port_base ≠ 0 →
  (0 < fuel)%nat → SKULL_PORT_CEIL - b <= 16 * Z.of_nat fuel ∨ skull_port_base ≠ 0 →
  Q 0 s → wp C (find_loop fuel skull_port_base b 0) Q s.
Proof.
  intros Hb Hpos Hf HQ. revert b Hb Hpos Hf. induction fuel as [|fuel IH]; intros b Hb Hpos Hf; [lia|]. cbn [find_loop].
  wp_step. unfold skull_detect, skull_probe_hw. wp_step. wp_step. rename z into err.
  assert (∀ d, d ≠ 0 → wp C (result ← (if d =? 0 then skull_init_board b;; mret (0 + 1) else mret 0);
    if (skull_port_base =? 0) && (s32 (b + SKULL_PORT_RANGE) <? SKULL_PORT_CEIL)
    then find_loop fuel skull_port_base (s32 (b + SKULL_PORT_RANGE)) result else mret result) Q s) as Hgo.
  { intros d Hd. rewrite (proj2 (Z.eqb_neq d 0)) by done. wp_step. wp_step.
    destruct (skull_port_base =? 0) eqn:E; zbool; cbn [andb]; [|by wp_step].
    destruct (_ <? _) eqn:Ec; zbool; [|by wp_step].
    destruct Hb as [Hb|]; [|done]. destruct Hf as [Hf|]; [|done].
    unfold SKULL_PORT_FLOOR, SKULL_PORT_CEIL, SKULL_PORT_RANGE in *.
    rewrite s32_small in * by lia. apply IH; [left; lia|lia|left; lia]. }
  destruct (err <? 0) eqn:E; zbool; [wp_step; apply Hgo; lia|]. wp_step. wp_step.
  change (negb (-1 =? 0)) with true. cbn iota. wp_step. by apply Hgo.
Qed.
End triples.

(** Accesses to ROM, run. *)
Lemma run_readb o base a t s :
  base ≠ 0 → in_hole a → at_address s a = Rom → readb base a o (t, s) = Done (contents s a, (t, s)).
Proof.
  intros Hb [H1 H2] Ha. unfold readb, in_region. rewrite (proj2 (Z.eqb_neq _ _)) by done.
  rewrite (proj2 (Z.leb_le _ _)), (proj2 (Z.ltb_lt _ _)) by done. unfold mbind, K_bind. cbn. by rewrite Ha.
Qed.

Lemma run_writeb o base v a t s :
  base ≠ 0 → in_hole a → at_address s a = Rom → writeb base v a o (t, s) = Done (tt, (t, s)).
Proof.
  intros Hb [H1 H2] Ha. unfold writeb, in_region. rewrite (proj2 (Z.eqb_neq _ _)) by done.
  rewrite (proj2 (Z.leb_le _ _)), (proj2 (Z.ltb_lt _ _)) by done. unfold mbind, K_bind. cbn. by rewrite Ha.
Qed.

Lemma run_bind {A B} (m : K skull A) (f : A → K skull B) o x a y :
  m o x = Done (a, y) → (m ≫= f) o x = f a o y.
Proof. unfold mbind, K_bind. by intros ->. Qed.

(** A block with the signature, when the region is free. *)
Lemma run_probe_rom o base add t s :
  (∀ t, ans o (kint "check_mem_region") t = 0) → base ≠ 0 → in_hole add → in_hole (add + 2) →
  signature s add →
  probe_block base add o (t, s) =
    Done (u64 (add + (Z.land (512 * contents s (add + 2)) (Z.lnot 2048) - 2048)),
      (S t, set_printed (printed s ++ [(add, ExpansionRom (512 * contents s (add + 2)))]) s)).
Proof.
  intros Ho Hb Ha Ha2 (R0 & C0 & R1 & C1 & R2).
  assert (in_hole (add + 1)) as Ha1 by (unfold in_hole in *; lia).
  unfold probe_block. erewrite run_bind by reflexivity. rewrite Ho. change (c_bool 0) with false. cbn iota.
  unfold test_byte. erewrite run_bind.
  2:{ erewrite run_bind by by apply run_readb. erewrite run_bind by by apply run_writeb.
      erewrite run_bind by by apply run_readb. erewrite run_bind by by apply run_writeb. reflexivity. }
  cbn beta iota. rewrite Z.lxor_nilpotent, C0. cbn -[Z.land Z.lnot Z.mul u64].
  erewrite run_bind by (erewrite run_bind by (by apply run_readb); reflexivity). rewrite C1.
  cbn -[Z.land Z.lnot Z.mul u64]. erewrite run_bind by by apply run_readb. reflexivity.
Qed.

(** ** Properties *)

(** The fuel: a block is 512 bytes long at least. *)
Definition scan_fuel : nat := 769.

(** C26: when [ioremap] maps the region, where every expansion ROM in it (the bytes
    55 AA on a multiple of 512) has a size byte that is neither 0 nor 4, and where reads of
    addresses at which nothing answers give 0, 255 or the low byte of the address, as
    the comment in the code says, loading ends; the scan covers the region from its begin to its end, RAM
    is never called anything else, nor ROM called RAM or empty by the test of the
    first byte; the memory is as before. No board is found; the mapping of the
    region is kept for ever. *)
Theorem skull_init_ends C skull_port_base s :
  floating_bus C → (∀ z, c_ans C (kint "ioremap") z → z ≠ 0) → sane_memory s →
  wp C (skull_init scan_fuel skull_port_base)
    (λ r s', r = 0 ∧ at_address s' = at_address s ∧ (∀ a, contents s' a = contents s a) ∧
      skull_regs s' = reg_add isa_mapping (skull_regs s) ∧
      ∃ l, printed s' = printed s ++ l ∧ scanned ISA_REGION_BEGIN l ∧ Forall (verdict_ok s) l) s.
Proof.
  intros HC Hmap Hs. unfold skull_init. wp_step. unfold acquire_ptr. wp_step. wp_step. rename z into b.
  apply Hmap in H. wp_step. rewrite (proj2 (Z.eqb_neq b 0)) by done. apply wp_hold. wp_step. wp_step.
  set (s1 := set_registry _ s). assert (restored s1 s1) as _ by done.
  apply wp_scan; [done|done|by split; apply Hs|done|done|unfold scan_fuel; lia|done|].
  intros l s2 [H1 H2 H3] Hp Hl HF. wp_step. unfold skull_find_hw. apply wp_find_loop.
  - destruct (decide (skull_port_base = 0)) as [->|]; [left; done|by right].
  - unfold scan_fuel. lia.
  - destruct (decide (skull_port_base = 0)) as [->|]; [left; done|by right].
  - wp_step. split_and!; [done|done|done|done|]. by exists l.
Qed.

(** With a ROM of 2048 bytes, or of none, the scan finds its block again and
    again: whatever the fuel, it is not enough. *)
Theorem skull_scan_hangs o base add s :
  (∀ t, ans o (kint "check_mem_region") t = 0) → base ≠ 0 →
  in_hole add → in_hole (add + 2) → signature s add → contents s (add + 2) ∈ [0; 4] →
  ∀ fuel t, scan fuel base add o (t, s) = Asleep.
Proof.
  intros Ho Hb Ha Ha2 Hsig H04 fuel. revert s Hsig H04. induction fuel as [|fuel IH]; intros s Hsig H04 t; [done|].
  cbn [scan]. rewrite (proj2 (Z.ltb_lt _ _)) by apply Ha.
  erewrite run_bind by by apply run_probe_rom.
  assert (u64 (u64 (add + (Z.land (512 * contents s (add + 2)) (Z.lnot 2048) - 2048)) + STEP) = add) as ->.
  { assert (Z.land (512 * contents s (add + 2)) (Z.lnot 2048) = 0) as ->.
    { apply elem_of_cons in H04 as [->|[->|H]%elem_of_cons]; [done|done|by apply not_elem_of_nil in H]. }
    unfold u64, STEP. rewrite Zplus_mod_idemp_l. rewrite Z.mod_small; [lia|].
    unfold in_hole, ISA_REGION_BEGIN, ISA_REGION_END in *. lia. }
  by apply IH.
Qed.

(** A machine with RAM below 0xC0000 and an expansion ROM at 0xC8000, whose size
    byte is [n]. *)
Definition rom_base : Z := 819200.
Definition machine (n : Z) : skull :=
  MkSkull (λ a, if a <? 786432 then Ram
                else if (rom_base <=? a) && (a <? rom_base + 32768) then Rom else Nothing)
    (λ a, if a =? rom_base then 85 else if a =? rom_base + 1 then 170 else if a =? rom_base + 2 then n else 7)
    [] empty_registry.

Lemma machine_signature n : signature (machine n) rom_base.
Proof. done. Qed.

Lemma machine_sane n : 0 <= n < 256 → n ∉ [0; 4] → sane_memory (machine n).
Proof.
  intros Hn Hbad. split.
  - intros a. cbn. repeat case_match; lia.
  - intros a _ Hmod _ H85 _ _. cbn in H85. destruct (a =? rom_base) eqn:E; zbool; [by subst a|].
    exfalso. unfold rom_base in *. destruct (a =? 819200 + 1) eqn:E1; [done|].
    destruct (a =? 819200 + 2) eqn:E2; zbool; [by subst a|done].
Qed.

Definition bus : contract skull :=
  Contract (λ c z, match c with
                   | io_in a => z = 0 ∨ z = 255 ∨ z = Z.land a 255
                   | kint w => w = "ioremap"%string → z ≠ 0
                   | _ => True end) alone False.

Lemma skull_init_ends_witness :
  wp bus (skull_init scan_fuel 0)
    (λ r s', r = 0 ∧ at_address s' = at_address (machine 64) ∧
      (∀ a, contents s' a = contents (machine 64) a) ∧
      skull_regs s' = reg_add isa_mapping empty_registry ∧
      ∃ l, printed s' = [] ++ l ∧ scanned ISA_REGION_BEGIN l ∧ Forall (verdict_ok (machine 64)) l) (machine 64).
Proof.
  apply (skull_init_ends bus 0 (machine 64)); [by intros ? ?|by intros z Hz; apply Hz|].
  apply machine_sane; [lia|set_solver].
Defined.

Lemma skull_scan_hangs_witness : ∀ fuel t, scan fuel 4096 rom_base quiet_oracle (t, machine 4) = Asleep.
Proof. apply (skull_scan_hangs quiet_oracle 4096 rom_base (machine 4)); try done. by right; left. Defined.
