(* ===== verification/Waiters.v ===== *)
(** * sleepy and complete: readers that wait for a writer
    (src/ldd4/misc-modules/sleepy.c, complete.c)

    Two drivers with one contract, a write lets a reader go, and two ways of
    waiting: a flag under [wait_event_interruptible] and a completion. What
    matters here is how processes interleave, so that the calls are not run one
    by one: a [pool] holds every process at its program point, and an event lets
    one of them take its next step. The completion of the kernel is the class
    [Completion]. *)

From stdpp Require Import base tactics numbers list strings.
From S2P Require Import Prelude KMonad Registry.
From Stdlib Require Import ZArith Lia.

Open Scope Z_scope.

(** ** Pools of processes *)

(** The program points of the processes, and what they share. *)
Record pool (T G : Type) := Pool { points : list T; globals : G }.
Arguments Pool {T G} _ _.
Arguments points {T G} _.
Arguments globals {T G} _.

(** A process enters the driver, takes its next step, or gets a signal. *)
Inductive event (T : Type) := Enter (t : T) | Run (i : nat) | Signal (i : nat).
Arguments Enter {T} t.
Arguments Run {T} i.
Arguments Signal {T} i.

Section pool.
Context {T G : Type}.

(** [starts]: the points where a call begins. [next]: the step of a process, if
    it can take one, and whether it wakes the sleepers. [wake]: where a sleeper
    goes on. [signal]: what a signal does to a process. *)
Context (starts : T → bool) (next : T → G → option (T * G * bool)).
Context (wake : T → T) (signal : T → option T).
Implicit Types (s : pool T G) (e : event T).

Definition exec e s : option (pool T G) :=
  match e with
  | Enter t => if starts t then Some (Pool (points s ++ [t]) (globals s)) else None
  | Run i =>
      t ← points s !! i;
      '(t', g, w) ← next t (globals s);
      Some (Pool (<[i := t']> (if w : bool then wake <$> points s else points s)) g)
  | Signal i =>
      t ← points s !! i;
      t' ← signal t;
      Some (Pool (<[i := t']> (points s)) (globals s))
  end.

Fixpoint exec_all (es : list (event T)) s : option (pool T G) :=
  match es with
  | [] => Some s
  | e :: es => s' ← exec e s; exec_all es s'
  end.

(** Nobody can go on without a new call or a signal. *)
Definition quiescent s : Prop := ∀ i, exec (Run i) s = None.

Definition unsignalled (es : list (event T)) : Prop := Forall (λ e, ∀ i, e ≠ Signal i) es.

(** How many processes are at points of a kind. *)
Definition count (f : T → bool) (l : list T) : nat := length (filter (λ t, f t) l).

(** An invariant of the steps holds all along. *)
Lemma exec_all_inv (I : pool T G → Prop) es s s' :
  (∀ e s s', I s → exec e s = Some s' → I s') → I s → exec_all es s = Some s' → I s'.
Proof.
  intros HI. revert s. induction es as [|e es IH]; intros s Hs E; cbn in E; [by simplify_eq|].
  apply bind_Some in E as (s1 & E1 & E). eauto.
Qed.

Lemma exec_all_app es1 es2 s : exec_all (es1 ++ es2) s = exec_all es1 s ≫= exec_all es2.
Proof. revert s. induction es1 as [|e es1 IH]; intros s; cbn; [done|]. by destruct (exec e s); cbn. Qed.

Lemma count_app f (l1 l2 : list T) : count f (l1 ++ l2) = (count f l1 + count f l2)%nat.
Proof. unfold count. by rewrite filter_app, length_app. Qed.

Lemma count_cons f t (l : list T) : count f (t :: l) = (Nat.b2n (f t) + count f l)%nat.
Proof. unfold count. rewrite filter_cons. by destruct (f t). Qed.

Lemma count_snoc f t (l : list T) : count f (l ++ [t]) = (count f l + Nat.b2n (f t))%nat.
Proof. rewrite count_app, count_cons. change (count f []) with 0%nat. lia. Qed.

(** One process moves. *)
Lemma count_insert f i t t' (l : list T) :
  l !! i = Some t → (count f (<[i := t']> l) + Nat.b2n (f t) = count f l + Nat.b2n (f t'))%nat.
Proof.
  intros Hi. rewrite (insert_take_drop l i t') by by eapply lookup_lt_Some.
  rewrite <-(take_drop_middle l i t Hi) at 3. rewrite !count_app, !count_cons. lia.
Qed.

Lemma count_replicate f n (t : T) : count f (replicate n t) = (n * Nat.b2n (f t))%nat.
Proof. induction n as [|n IH]; cbn [replicate]; [done|]. rewrite count_cons, IH. lia. Qed.

Lemma count_fmap f (g : T → T) (l : list T) : (∀ t, f (g t) = f t) → count f (g <$> l) = count f l.
Proof. intros H. induction l as [|t l IH]; [done|]. by rewrite fmap_cons, !count_cons, H, IH. Qed.

Lemma count_0 f (l : list T) : count f l = 0%nat ↔ ∀ t, t ∈ l → f t = false.
Proof.
  induction l as [|t l IH]; [by split; [intros _ t' ?%not_elem_of_nil|]|]. rewrite count_cons. split.
  - intros H t' [->|Ht]%elem_of_cons; [by destruct (f t)|]. apply IH; [lia|done].
  - intros H. rewrite H, (proj2 IH); [done| |by left]. intros t' Ht. apply H. by right.
Qed.

Lemma count_le f1 f2 (l : list T) : (∀ t, f1 t = true → f2 t = true) → (count f1 l <= count f2 l)%nat.
Proof.
  intros H. induction l as [|t l IH]; [done|]. rewrite !count_cons. specialize (H t).
  destruct (f1 t), (f2 t); cbn; lia.
Qed.

Lemma count_ext f1 f2 (l : list T) : (∀ t, t ∈ l → f1 t = f2 t) → count f1 l = count f2 l.
Proof.
  induction l as [|t l IH]; intros H; [done|]. rewrite !count_cons, H by (by left).
  rewrite IH; [done|]. intros t' Ht. apply H. by right.
Qed.

(** Who cannot take a step. *)
Lemma quiescent_points s : quiescent s ↔ ∀ t, t ∈ points s → next t (globals s) = None.
Proof.
  unfold quiescent. cbn. split.
  - intros H t [i Hi]%list_elem_of_lookup. specialize (H i). rewrite Hi in H. cbn in H.
    by destruct (next t (globals s)) as [[[]]|].
  - intros H i. destruct (points s !! i) as [t|] eqn:Hi; [|done]. cbn.
    by rewrite H by by eapply list_elem_of_lookup_2.
Qed.

Lemma exec_then es1 es2 s s1 s2 :
  exec_all es1 s = Some s1 → exec_all es2 s1 = Some s2 → exec_all (es1 ++ es2) s = Some s2.
Proof. intros E1 E2. by rewrite exec_all_app, E1. Qed.

(** New processes. *)
Lemma exec_enter n t l g : starts t = true →
  exec_all (replicate n (Enter t)) (Pool l g) = Some (Pool (l ++ replicate n t) g).
Proof.
  intros Ht. revert l. induction n as [|n IH]; intros l; cbn; [by rewrite app_nil_r|].
  rewrite Ht. cbn. by rewrite IH, <-(assoc_L (++)).
Qed.

(** The processes between two blocks, all at [a], take a step to [b] each. *)
Lemma exec_block n (a b : T) l1 l2 g g' w :
  (∀ g0, g0 = g ∨ g0 = g' → next a g0 = Some (b, g', w)) →
  (w = true → wake a = a ∧ wake b = b ∧ wake <$> l1 = l1 ∧ wake <$> l2 = l2) →
  (0 < n)%nat ∨ g = g' →
  exec_all (Run <$> seq (length l1) n) (Pool (l1 ++ replicate n a ++ l2) g) =
    Some (Pool (l1 ++ replicate n b ++ l2) g').
Proof.
  intros H. assert (∀ n l1 g0, g0 = g ∨ g0 = g' →
    (w = true → wake a = a ∧ wake b = b ∧ wake <$> l1 = l1 ∧ wake <$> l2 = l2) →
    exec_all (Run <$> seq (length l1) n) (Pool (l1 ++ replicate n a ++ l2) g0) =
    Some (Pool (l1 ++ replicate n b ++ l2) (if n is O then g0 else g'))) as Hall.
  { clear n l1. induction n as [|n IH]; intros l1 g0 Hg Hw; [done|]. cbn.
    rewrite list_lookup_middle by done. cbn. rewrite H by done. cbn.
    assert ((if w then wake <$> l1 ++ a :: replicate n a ++ l2 else l1 ++ a :: replicate n a ++ l2) =
      l1 ++ a :: replicate n a ++ l2) as ->.
    { destruct w; [|done]. destruct (Hw eq_refl) as (Ha & _ & H1 & H2).
      by rewrite !fmap_app, fmap_cons, fmap_app, fmap_replicate, Ha, H1, H2. }
    rewrite insert_app_r_alt, Nat.sub_diag by done. cbn.
    transitivity (exec_all (Run <$> seq (length (l1 ++ [b])) n)
      (Pool ((l1 ++ [b]) ++ replicate n a ++ l2) g')).
    { by rewrite <-(assoc_L (++)), length_app, Nat.add_1_r. }
    rewrite IH, <-(assoc_L (++)); [by destruct n|by right|].
    intros Hwt. destruct (Hw Hwt) as (? & Hb & H1 & H2). rewrite fmap_app, H1. cbn. by rewrite Hb. }
  intros Hw Hn. rewrite Hall by auto. destruct n; [|done]. destruct Hn as [?| ->]; [lia|done].
Qed.
End pool.
Arguments count : simpl never.

(** ** complete *)

(** A completion: [complete] lets one more [wait_for_completion] through. *)
Class Completion (C : Type) := {
  comp_init : C;
  complete : C → C;
  wait_for_completion : C → option C;
  posted : C → nat;
  posted_init : posted comp_init = 0%nat;
  posted_complete c : posted (complete c) = S (posted c);
  wait_some c c' : wait_for_completion c = Some c' → posted c = S (posted c');
  wait_none c : wait_for_completion c = None ↔ posted c = 0%nat
}.

(** The program points of the two calls; the last holds what the call returns. *)
Inductive complete_pc :=
| ReadWaits | ReadReturned (r : Z)
| WritePosts (n : Z) | WriteReturned (r : Z).

Section complete.
Context {C : Type} `{!Completion C}.

Definition complete_read (p : complete_pc) (comp : C) : option (complete_pc * C * bool) :=
  match p with
  | ReadWaits => comp' ← wait_for_completion comp; Some (ReadReturned 0, comp', false)
  | _ => None
  end.

Definition complete_write (p : complete_pc) (comp : C) : option (complete_pc * C * bool) :=
  match p with
  | WritePosts n => Some (WriteReturned n, complete comp, false)
  | _ => None
  end.

Definition complete_fops (p : complete_pc) (comp : C) : option (complete_pc * C * bool) :=
  match p with
  | ReadWaits | ReadReturned _ => complete_read p comp
  | WritePosts _ | WriteReturned _ => complete_write p comp
  end.

Definition complete_starts (p : complete_pc) : bool :=
  match p with ReadWaits | WritePosts _ => true | _ => false end.

(** [wait_for_completion] is not interruptible. *)
Definition complete_exec : event complete_pc → pool complete_pc C → option (pool complete_pc C) :=
  exec complete_starts complete_fops id (λ _, None).
Definition complete_runs : list (event complete_pc) → pool complete_pc C → option (pool complete_pc C) :=
  exec_all complete_starts complete_fops id (λ _, None).
Definition complete_quiet : pool complete_pc C → Prop :=
  quiescent complete_starts complete_fops id (λ _, None).

Definition complete_loaded : pool complete_pc C := Pool [] comp_init.

Definition reading (p : complete_pc) : bool :=
  match p with ReadWaits | ReadReturned _ => true | _ => false end.
Definition writing (p : complete_pc) : bool := negb (reading p).
Definition has_read (p : complete_pc) : bool :=
  match p with ReadReturned _ => true | _ => false end.
Definition has_written (p : complete_pc) : bool :=
  match p with WriteReturned _ => true | _ => false end.
Definition comp_ended (p : complete_pc) : bool := has_read p || has_written p.

(** As many reads have returned as writes, less what is posted. *)
Definition complete_inv (s : pool complete_pc C) : Prop :=
  (count has_read (points s) + posted (globals s) = count has_written (points s))%nat.

Lemma complete_exec_inv e s s' : complete_inv s → complete_exec e s = Some s' → complete_inv s'.
Proof.
  unfold complete_inv. intros HI. destruct e as [t|i|i]; cbn.
  - destruct (complete_starts t) eqn:Et; [|done]. intros [= <-]. cbn. rewrite !count_snoc.
    destruct t; cbn; done || lia.
  - intros E. apply bind_Some in E as (t & Hi & E). apply bind_Some in E as ([[t' g] w] & E' & E).
    destruct t as [|r|n|r]; cbn in E'; simplify_eq/=.
    + apply bind_Some in E' as (c & Ec & E'). simplify_eq/=. apply wait_some in Ec.
      pose proof (count_insert has_read i _ (ReadReturned 0) _ Hi).
      pose proof (count_insert has_written i _ (ReadReturned 0) _ Hi). cbn in *. lia.
    + pose proof (count_insert has_read i _ (WriteReturned n) _ Hi).
      pose proof (count_insert has_written i _ (WriteReturned n) _ Hi).
      rewrite posted_complete. cbn in *. lia.
  - intros E. by apply bind_Some in E as (? & _ & ?).
Qed.

(** Every step ends a call. *)
Lemma complete_step_ends i s s' : complete_exec (Run i) s = Some s' →
  S (count (negb ∘ comp_ended) (points s')) = count (negb ∘ comp_ended) (points s).
Proof.
  cbn. intros E. apply bind_Some in E as (t & Hi & E). apply bind_Some in E as ([[t' g] w] & E' & E).
  assert (comp_ended t = false ∧ comp_ended t' = true ∧ w = false) as (Ht & Ht' & ->).
  { destruct t; cbn in E'; simplify_eq/=; [|done]. by apply bind_Some in E' as (? & _ & [= <- <- <-]). }
  simplify_eq/=. pose proof (count_insert (negb ∘ comp_ended) i t t' _ Hi) as H. cbn in H.
  rewrite Ht, Ht' in H. cbn in H. lia.
Qed.

Lemma complete_runs_end l s s' : complete_runs (Run <$> l) s = Some s' →
  (length l + count (negb ∘ comp_ended) (points s') = count (negb ∘ comp_ended) (points s))%nat.
Proof.
  revert s. induction l as [|i l IH]; intros s E; cbn in E; [by simplify_eq|].
  apply bind_Some in E as (s1 & E1 & E). apply complete_step_ends in E1. apply IH in E. cbn. lia.
Qed.

(** Where nobody can go on, what is left waits for a completion. *)
Lemma complete_quiescent s : complete_inv s → complete_quiet s →
  (count has_read (points s) = count reading (points s) `min` count writing (points s))%nat ∧
  count has_written (points s) = count writing (points s).
Proof.
  intros HI HQ. pose proof (proj1 (quiescent_points _ _ _ _ _) HQ) as Hn.
  assert (count has_written (points s) = count writing (points s)) as Hw.
  { apply count_ext. intros t Ht%Hn. by destruct t. }
  split; [|done]. unfold complete_inv in HI. destruct (posted (globals s)) as [|k] eqn:Ep.
  - pose proof (count_le has_read reading (points s)) as Hle. rewrite <-Hw. 
    specialize (Hle ltac:(by intros [])). lia.
  - assert (count has_read (points s) = count reading (points s)) as Hr; [|lia].
    apply count_ext. intros t Ht%Hn. destruct t; try done. cbn in Ht.
    destruct (wait_for_completion (globals s)) eqn:Ew; [done|]. apply wait_none in Ew. lia.
Qed.

(** C31: whatever the order in which processes enter complete and go on, as many
    reads have returned as writes, less the completions nobody has taken; the
    processes that are there do not go on for ever; and where they can go no
    further every write has returned, and exactly one read for each write, as
    long as there are reads. *)
Theorem complete_exact es s :
  complete_runs es complete_loaded = Some s →
  (count has_read (points s) + posted (globals s) = count has_written (points s))%nat ∧
  (∀ l s', complete_runs (Run <$> l) s = Some s' → length l <= length (points s))%nat ∧
  (complete_quiet s →
    (count has_read (points s) = count reading (points s) `min` count writing (points s))%nat ∧
    count has_written (points s) = count writing (points s)).
Proof.
  intros E. assert (complete_inv s) as HI.
  { revert E. apply (exec_all_inv _ _ _ _ complete_inv); [apply complete_exec_inv|].
    unfold complete_inv. cbn. by rewrite posted_init. }
  split; [exact HI|]. split; [|by apply complete_quiescent].
  intros l s' E'. apply complete_runs_end in E'.
  pose proof (length_filter (λ t, (negb ∘ comp_ended) t) (points s)). unfold count in *. lia.
Qed.
End complete.

#[export] Instance nat_completion : Completion nat.
Proof.
  refine {| comp_init := 0%nat; complete := S; posted n := n;
            wait_for_completion n := match n with O => None | S n => Some n end |}; try done.
  - by intros [|c] c' [= ->].
  - by intros [|c].
Defined.

Lemma complete_exact_witness :
  let s := Pool [ReadReturned 0; ReadWaits; WriteReturned 7] 0%nat in
  complete_runs [Enter ReadWaits; Enter ReadWaits; Enter (WritePosts 7); Run 2; Run 0]
    complete_loaded = Some s ∧
  count has_read (points s) = (count reading (points s) `min` count writing (points s))%nat.
Proof.
  split; [vm_compute; reflexivity|].
  apply (complete_exact [Enter ReadWaits; Enter ReadWaits; Enter (WritePosts 7); Run 2; Run 0]).
  - vm_compute. reflexivity.
  - by intros [|[|[|i]]].
Defined.

(** ** sleepy *)

(** A reader tests the flag, is on [wq], or has left [wait_event_interruptible]
    and is about to clear the flag; a writer is about to set the flag, or to wake
    the readers. *)
Inductive sleepy_pc :=
| Tests | OnQueue | Clears | HasRead (r : Z)
| Sets (n : Z) | Wakes (n : Z) | HasWritten (r : Z).

Definition sleepy_read (p : sleepy_pc) (flag : Z) : option (sleepy_pc * Z * bool) :=
  match p with
  | Tests => Some (if flag =? 0 then OnQueue else Clears, flag, false)
  | Clears => Some (HasRead 0, 0, false)
  | _ => None
  end.

Definition sleepy_write (p : sleepy_pc) (flag : Z) : option (sleepy_pc * Z * bool) :=
  match p with
  | Sets n => Some (Wakes n, 1, false)
  | Wakes n => Some (HasWritten n, flag, true)
  | _ => None
  end.

Definition sleepy_fops (p : sleepy_pc) (flag : Z) : option (sleepy_pc * Z * bool) :=
  match p with
  | Tests | OnQueue | Clears | HasRead _ => sleepy_read p flag
  | Sets _ | Wakes _ | HasWritten _ => sleepy_write p flag
  end.

Definition sleepy_starts (p : sleepy_pc) : bool :=
  match p with Tests | Sets _ => true | _ => false end.

(** [wake_up_interruptible]: a reader on the queue tests the flag again. *)
Definition sleepy_wake (p : sleepy_pc) : sleepy_pc :=
  match p with OnQueue => Tests | _ => p end.

(** A signal ends the wait, and the result of the wait is not looked at. *)
Definition sleepy_signal (p : sleepy_pc) : option sleepy_pc :=
  match p with Tests | OnQueue => Some Clears | _ => None end.

Definition sleepy_exec : event sleepy_pc → pool sleepy_pc Z → option (pool sleepy_pc Z) :=
  exec sleepy_starts sleepy_fops sleepy_wake sleepy_signal.
Definition sleepy_runs : list (event sleepy_pc) → pool sleepy_pc Z → option (pool sleepy_pc Z) :=
  exec_all sleepy_starts sleepy_fops sleepy_wake sleepy_signal.
Definition sleepy_quiet : pool sleepy_pc Z → Prop :=
  quiescent sleepy_starts sleepy_fops sleepy_wake sleepy_signal.

Definition sleepy_loaded : pool sleepy_pc Z := Pool [] 0.

Definition a_reader (p : sleepy_pc) : bool :=
  match p with Tests | OnQueue | Clears | HasRead _ => true | _ => false end.
Definition a_writer (p : sleepy_pc) : bool := negb (a_reader p).
Definition asleep (p : sleepy_pc) : bool := match p with OnQueue => true | _ => false end.
Definition waking (p : sleepy_pc) : bool := match p with Wakes _ => true | _ => false end.
Definition released (p : sleepy_pc) : bool := match p with HasRead _ => true | _ => false end.
Definition has_set (p : sleepy_pc) : bool := match p with Wakes _ | HasWritten _ => true | _ => false end.

(** No wake-up is lost: while the flag is set and a reader sleeps, a writer is
    about to wake it. And a flag that was set and is clear again let a reader go. *)
Definition sleepy_inv (s : pool sleepy_pc Z) : Prop :=
  (globals s ≠ 0 → (0 < count asleep (points s))%nat → (0 < count waking (points s))%nat) ∧
  (globals s = 0 → count released (points s) = 0%nat → count has_set (points s) = 0%nat).

(** How the four counts change when process [i] moves to [t]. *)
Ltac moves Hi t :=
  pose proof (count_insert asleep _ _ t _ Hi); pose proof (count_insert waking _ _ t _ Hi);
  pose proof (count_insert released _ _ t _ Hi); pose proof (count_insert has_set _ _ t _ Hi).

Lemma count_asleep_wake l : count asleep (sleepy_wake <$> l) = 0%nat.
Proof. apply count_0. intros t (t' & -> & _)%list_elem_of_fmap. by destruct t'. Qed.

Lemma sleepy_exec_inv e s s' : sleepy_inv s → sleepy_exec e s = Some s' → sleepy_inv s'.
Proof.
  intros [H1 H2]. destruct e as [t|i|i]; cbn.
  - destruct (sleepy_starts t) eqn:Et; [|done]. intros [= <-].
    split; cbn; rewrite !count_snoc; destruct t; cbn; done || lia.
  - intros E. apply bind_Some in E as (t & Hi & E). apply bind_Some in E as ([[t' g] w] & E' & E).
    destruct t as [| | |r|n|n|r]; cbn in E'; simplify_eq/=.
    + destruct (globals s =? 0) eqn:Eg; zbool; [moves Hi OnQueue|moves Hi Clears]; split; cbn in *; lia.
    + moves Hi (HasRead 0). split; cbn in *; lia.
    + moves Hi (Wakes n). split; cbn in *; lia.
    + assert ((sleepy_wake <$> points s) !! i = Some (Wakes n)) as Hi' by by rewrite list_lookup_fmap, Hi.
      moves Hi' (HasWritten n). rewrite count_asleep_wake in *.
      rewrite (count_fmap released), (count_fmap has_set) in * by (by intros []). split; cbn in *; lia.
  - intros E. apply bind_Some in E as (t & Hi & E). apply bind_Some in E as (t' & E' & E).
    destruct t; cbn in E'; simplify_eq/=; moves Hi Clears; split; cbn in *; lia.
Qed.

Lemma sleepy_runs_inv es s : sleepy_runs es sleepy_loaded = Some s → sleepy_inv s.
Proof. apply (exec_all_inv _ _ _ _ sleepy_inv); [apply sleepy_exec_inv|done]. Qed.

(** Where nobody can go on, a write that found a reader let one go. *)
Lemma sleepy_quiet_releases s : sleepy_inv s → sleepy_quiet s →
  (0 < count a_reader (points s))%nat → (0 < count a_writer (points s))%nat →
  (0 < count released (points s) <= count a_reader (points s))%nat.
Proof.
  intros [H1 H2] HQ Hr Hw. pose proof (proj1 (quiescent_points _ _ _ _ _) HQ) as Hn.
  split; [|apply count_le; by intros []].
  destruct (count released (points s)) as [|k] eqn:Ek; [|lia].
  assert (count has_set (points s) = count a_writer (points s)) as Es.
  { apply count_ext. intros t Ht%Hn. by destruct t. }
  assert (count waking (points s) = 0%nat) as Ew.
  { apply count_0. intros t Ht%Hn. by destruct t. }
  assert (count asleep (points s) = count a_reader (points s)) as Ea.
  { apply count_ext. intros t Ht. pose proof (proj1 (count_0 _ _) Ek t Ht). apply Hn in Ht.
    by destruct t. }
  destruct (decide (globals s = 0)); [specialize (H2 ltac:(done) ltac:(done))|specialize (H1 ltac:(done))]; lia.
Qed.

(** [k] of [n] readers test the flag that [m] writers set before one clears it. *)
Definition sleepy_schedule (n m k : nat) : list (event sleepy_pc) :=
  replicate n (Enter Tests) ++ replicate m (Enter (Sets 1)) ++
  (Run <$> seq n m) ++ (Run <$> seq n m) ++
  (Run <$> seq 0 k) ++ (Run <$> seq 0 k) ++ (Run <$> seq k (n - k)).

Lemma sleepy_schedule_runs n m k : (0 < k <= n)%nat → (0 < m)%nat →
  sleepy_runs (sleepy_schedule n m k) sleepy_loaded =
  Some (Pool (replicate k (HasRead 0) ++ replicate (n - k) OnQueue ++ replicate m (HasWritten 1)) 0).
Proof.
  intros Hk Hm. unfold sleepy_runs, sleepy_schedule, sleepy_loaded.
  eapply exec_then; [by apply exec_enter|]. eapply exec_then; [by apply exec_enter|]. cbn [app].
  replace (seq n m) with (seq (length (replicate n Tests)) m) by by rewrite length_replicate.
  rewrite <-(app_nil_r (replicate m (Sets 1))).
  eapply exec_then; [apply (exec_block _ _ _ _ m (Sets 1) (Wakes 1) _ [] 0 1 false); by auto|].
  eapply exec_then; [apply (exec_block _ _ _ _ m (Wakes 1) (HasWritten 1) _ [] 1 1 true)|].
  { by intros g [-> | ->]. }
  { intros _. split_and!; try done. by rewrite fmap_replicate. }
  { by right. }
  rewrite app_nil_r. replace (replicate n Tests) with (replicate k Tests ++ replicate (n - k) Tests).
  2: { rewrite <-replicate_add. f_equal. lia. }
  rewrite <-(assoc_L (++)).
  eapply exec_then; [apply (exec_block _ _ _ _ k Tests Clears [] _ 1 1 false)|].
  { by intros g [-> | ->]. }
  { done. }
  { by right. }
  eapply exec_then; [apply (exec_block _ _ _ _ k Clears (HasRead 0) [] _ 1 0 false)|].
  { done. }
  { done. }
  { left. lia. }
  cbn [app]. replace k with (length (replicate k (HasRead 0))) at 1 by by rewrite length_replicate.
  rewrite (exec_block _ _ _ _ (n - k) Tests OnQueue _ _ 0 0 false); [done| |done|by right].
  by intros g [-> | ->].
Qed.

(** Only what waits for nobody in particular. *)
Definition sleepy_outcome (n m k : nat) : Prop :=
  ∃ es s, unsignalled es ∧ sleepy_runs es sleepy_loaded = Some s ∧ sleepy_quiet s ∧
    count a_reader (points s) = n ∧ count a_writer (points s) = m ∧ count released (points s) = k.

(** Of [n] readers and [m] writers of sleepy, with no signals, any number of
    readers may return, but one at least: the flag is not cleared where it is
    tested, so that one write lets several readers go, and several writes may
    let one go. No write is missed by all the readers. *)
Theorem sleepy_outcomes n m k :
  (0 < n)%nat → (0 < m)%nat → sleepy_outcome n m k ↔ (0 < k <= n)%nat.
Proof.
  intros Hn Hm. split.
  - intros (es & s & _ & E & HQ & <- & <- & <-). apply sleepy_runs_inv in E.
    by apply sleepy_quiet_releases.
  - intros Hk. eexists (sleepy_schedule n m k), _. split_and!; [|by apply sleepy_schedule_runs|..]; cbn [points].
    + unfold sleepy_schedule, unsignalled. rewrite !Forall_app, !Forall_fmap. split_and!;
        by (apply Forall_replicate || apply Forall_true).
    + apply quiescent_points. cbn. intros t.
      rewrite !elem_of_app, !elem_of_replicate. intros [[-> _]|[[-> _]|[-> _]]]; done.
    + rewrite !count_app, !count_replicate. cbn. lia.
    + rewrite !count_app, !count_replicate. cbn. lia.
    + rewrite !count_app, !count_replicate. cbn. lia.
Qed.

Lemma sleepy_outcomes_witness : sleepy_outcome 3 1 1 ∧ sleepy_outcome 3 1 3.
Proof. split; apply sleepy_outcomes; lia. Defined.

(** A signal loses a write: the reader it wakes takes itself for released and
    clears the flag, and the reader that waits for the write sleeps on. *)
Theorem sleepy_signal_loses_write : ∃ es s,
  sleepy_runs es sleepy_loaded = Some s ∧ sleepy_quiet s ∧
  points s = [HasRead 0; OnQueue; HasWritten 1].
Proof.
  eexists [Enter Tests; Enter Tests; Run 0; Run 1; Signal 0; Enter (Sets 1); Run 2; Run 2; Run 0; Run 1], _.
  split; [vm_compute; reflexivity|]. split; [|done]. by intros [|[|[|i]]].
Qed.

(** ** Loading and unloading

    The two files are the same here, but for the names. *)

Record wait_mod := WaitMod { wait_major : Z; wait_regs : registry }.

#[export] Instance wait_mod_registry : HasRegistry wait_mod :=
  { registry_of := wait_regs; set_registry g s := WaitMod (wait_major s) g; registry_set g s := eq_refl }.

(** The structure of [cdev_alloc]: it is freed by [cdev_del]. *)
Definition wait_cdev : resource := Res "cdev" 0.

(** [sleepy_minor] and [complete_minor]. *)
Definition wait_minor : Z := 0.

Definition wait_init : K wait_mod Z :=
  result ← call (kint "alloc_chrdev_region");
  if result <? 0 then mret result else
  ma ← call (kint "dynamic major");
  let dev := MKDEV ma wait_minor in
  hold (region dev);;
  modify (λ s, WaitMod (MAJOR dev) (wait_regs s));;
  p ← acquire_ptr "cdev_alloc" wait_cdev;
  if p =? 0 then oops NullDeref else
  call (kint "cdev_add");;
  mret 0.

Definition wait_cleanup : K wait_mod unit :=
  ma ← gets wait_major;
  give_back (region (MKDEV ma wait_minor)).

Definition sleepy_init : K wait_mod Z := wait_init.
Definition sleepy_cleanup : K wait_mod unit := wait_cleanup.
Definition complete_init : K wait_mod Z := wait_init.
Definition complete_cleanup : K wait_mod unit := wait_cleanup.

Record wait_contract (C : contract wait_mod) : Prop := {
  wc_alloc : ∀ z, c_ans C (kint "alloc_chrdev_region") z → z <= 0;
  wc_major : ∀ z, c_ans C (kint "dynamic major") z → 0 < z < 2 ^ 12
}.

(** Loading fails with nothing held, or with the region and the cdev, and then
    unloading leaves the cdev behind; where [cdev_alloc] finds no memory loading
    faults. *)
Theorem wait_module C major :
  wait_contract C →
  ((∀ z, c_ans C (kint "cdev_alloc") z → z ≠ 0) →
   wp C wait_init (λ r s, r < 0 ∧ owned [] s ∨
     r = 0 ∧ wp C wait_cleanup (λ _ s', owned [wait_cdev] s') s) (WaitMod major empty_registry)) ∧
  (∀ o t, obeys o C → (∀ t, ans o (kint "alloc_chrdev_region") t = 0) →
    (∀ t, ans o (kint "cdev_alloc") t = 0) →
    wait_init o (t, WaitMod major empty_registry) = Oops NullDeref).
Proof.
  intros HC. split.
  - intros Hp. unfold wait_init. wp_step. wp_step. wp_step; [wp_step; left; split; [lia|done]|].
    wp_step. wp_step. apply (wc_major _ HC) in H0. wp_step. apply wp_hold. wp_step. wp_step. wp_step.
    unfold acquire_ptr. wp_step. wp_step. pose proof (Hp _ H1). wp_step. rewrite (proj2 (Z.eqb_neq z1 0)) by done.
    apply wp_hold. wp_step. rewrite (proj2 (Z.eqb_neq z1 0)) by done. do 3 wp_step. right. split; [done|].
    unfold wait_cleanup. wp_step. wp_step. cbn [wait_major]. apply wp_give_back.
    rewrite MAJOR_MKDEV by (unfold wait_minor; lia). apply (owned_del _ [wait_cdev]).
    eapply owned_perm; [apply Permutation_swap|]. by repeat apply owned_add.
  - intros o t [Ho _] Ha Hc. unfold wait_init, acquire_ptr, mbind, K_bind, call.
    rewrite Ha. cbn. by rewrite Hc.
Qed.
