(* ===== verification/LddBus.v ===== *)
(** * lddbus: a bus for the sample devices (src/ldd4/lddbus/lddbus.c)

    The match of devices and drivers by name, the registration of drivers and
    devices for the modules that sit on the bus ([Sculld]), over any state that
    has a [registry], and the loading of the bus itself. Names are lists of the
    bytes before the NUL. *)

From stdpp Require Import base tactics numbers list strings.
From S2P Require Import Prelude KMonad Registry Text.
From Stdlib Require Import ZArith Lia.

Open Scope Z_scope.

(** ** Names *)

(** A string without a NUL, and the byte under a pointer into it. *)
Definition cstring (l : list Z) : Prop := Forall (λ c, 0 < c < 256) l.
Definition char_at (l : list Z) : Z := default 0 (head l).

(** [strncmp(a, b, n)] of the C library. *)
Fixpoint strncmp (a b : list Z) (n : nat) : Z :=
  match n with
  | O => 0
  | S n =>
      if negb (char_at a =? char_at b) then char_at a - char_at b
      else if char_at a =? 0 then 0 else strncmp (tail a) (tail b) n
  end.

Definition ldd_match (dev_name driver_name : list Z) : Z :=
  if strncmp dev_name driver_name (length driver_name) =? 0 then 1 else 0.

Definition Version : list Z := ascii_of "$Revision: 1.9 $".

(** [snprintf(buf, PAGE_SIZE, "%s\n", Version)] and [sprintf] of the version of a
    driver: what is written, and the result. *)
Definition show_bus_version : list Z * Z := (Version ++ [10], lenZ (Version ++ [10])).
Definition show_version (version : list Z) : list Z * Z := (version ++ [10], lenZ (version ++ [10])).

Lemma strncmp_prefix a b : cstring a → cstring b → strncmp a b (length b) = 0 ↔ b `prefix_of` a.
Proof.
  intros Ha Hb. revert a Ha. induction Hb as [|y b Hy Hb IH]; intros a Ha; cbn [strncmp length].
  { split; [intros _; apply prefix_nil|done]. }
  destruct Ha as [|x a Hx Ha]; change (char_at (y :: b)) with y.
  - change (char_at []) with 0. destruct (0 =? y) eqn:E; zbool; [lia|]. cbn [negb].
    split; [lia|]. by intros [? ?].
  - change (char_at (x :: a)) with x. destruct (x =? y) eqn:E; zbool; cbn [negb].
    + subst y. rewrite (proj2 (Z.eqb_neq x 0)) by lia. cbn [tail]. rewrite IH by done. split.
      * apply prefix_cons.
      * apply prefix_cons_inv_2.
    + split; [lia|]. intros ?%prefix_cons_inv_1. done.
Qed.

(** A device matches the drivers whose name begins its own. *)
Lemma ldd_match_spec dev drv : cstring dev → cstring drv →
  ldd_match dev drv = if decide (drv `prefix_of` dev) then 1 else 0.
Proof.
  intros Hdev Hdrv. unfold ldd_match. pose proof (strncmp_prefix dev drv Hdev Hdrv) as H.
  case_decide as Hp; [by rewrite (proj2 H Hp)|]. destruct (_ =? 0) eqn:E; zbool; [|done].
  by apply H in E.
Qed.

(** ** Drivers and devices on the bus *)

Definition ldd_driver_res : resource := Res "ldd_driver" 0.
Definition ldd_device_res (i : nat) : resource := Res "ldd_device" (Z.of_nat i).

Section bus.
Context {St : Type} `{!HasRegistry St}.

(** A driver whose attribute file cannot be made stays registered. *)
Definition register_ldd_driver : K St Z :=
  ret ← acquire "driver_register" ldd_driver_res;
  if c_bool ret then mret ret else call (kint "driver_create_file").

Definition unregister_ldd_driver : K St unit := give_back ldd_driver_res.

Definition register_ldd_device (i : nat) : K St Z := acquire "device_register" (ldd_device_res i).

Definition unregister_ldd_device (i : nat) : K St unit := give_back (ldd_device_res i).

(** The driver is registered or not, whatever the result. *)
Lemma wp_register_ldd_driver C s (Q : Z → St → Prop) :
  (∀ z, Q z (set_registry (reg_add ldd_driver_res (registry_of s)) s)) → (∀ z, Q z s) →
  wp C register_ldd_driver Q s.
Proof.
  intros H1 H2. unfold register_ldd_driver. wp_step. apply wp_acquire.
  - change (c_bool 0) with false. cbn iota. wp_step. apply H1.
  - intros z _ Hz. unfold c_bool. rewrite (proj2 (Z.eqb_neq _ _)) by done. cbn. wp_step. apply H2.
Qed.
End bus.

(** ** Loading the bus *)

Definition ldd_bus_type : resource := Res "bus_type" 0.
Definition ldd_bus : resource := Res "ldd_bus" 0.

#[export] Instance registry_registry : HasRegistry registry :=
  { registry_of g := g; set_registry g _ := g; registry_set g s := eq_refl }.

Definition ldd_bus_init : K registry Z :=
  ret ← acquire "bus_register" ldd_bus_type;
  if c_bool ret then mret ret else
  call (kint "bus_create_file");;
  acquire "device_register" ldd_bus.

Definition ldd_bus_exit : K registry unit :=
  give_back ldd_bus;;
  give_back ldd_bus_type.

(** The bus loads and unloads with nothing left; but when its device cannot be
    registered loading fails and the bus type, in memory that is about to be
    freed, stays registered. *)
Theorem ldd_bus_module C :
  wp C ldd_bus_init (λ r g,
    r ≠ 0 ∧ (owns [] g ∨ owns [ldd_bus_type] g) ∨
    r = 0 ∧ wp C ldd_bus_exit (λ _ g', g' = empty_registry) g) empty_registry ∧
  (∀ o t, (∀ t, ans o (kint "bus_register") t = 0) → (∀ t, ans o (kint "device_register") t = - ENOMEM) →
    ∃ t', ldd_bus_init o (t, empty_registry) = Done (- ENOMEM, (t', Registry [ldd_bus_type] []))).
Proof.
  split.
  - unfold ldd_bus_init. wp_step. apply wp_acquire.
    + change (c_bool 0) with false. cbn iota. wp_step. wp_step. apply wp_acquire.
      * right. split; [done|]. unfold ldd_bus_exit. wp_step. apply wp_give_back, wp_give_back. done.
      * intros z' _ Hz. left. split; [done|]. right. by apply owns_add.
    + intros z _ Hz. unfold c_bool. rewrite (proj2 (Z.eqb_neq _ _)) by done. cbn. wp_step.
      left. split; [done|]. by left.
  - intros o t Hb Hd. eexists. unfold ldd_bus_init, acquire, mbind, K_bind, call. rewrite Hb. cbn.
    by rewrite Hd.
Qed.
