(* ===== verification/Sculld.v ===== *)
(** * sculld: scullp on the sample bus (src/ldd4/sculld)

    sculld is scullp whose devices sit on the bus of [LddBus]: the operations on
    a device are those of [Scullp], word for word but for the names, so that its
    devices are scullp's with the name each bears on the bus; what is its own is
    loading and unloading, and the naming of the devices. *)

From stdpp Require Import base tactics numbers list strings.
From S2P Require Import Prelude KMonad Quanta Registry Text Scull Scullp ScullpSpec CharModule LddBus.
From Stdlib Require Import ZArith Lia.

Open Scope Z_scope.

(** ** Data *)

(** [devname] of 20 bytes: what is before the NUL. *)
Record sculld_dev := SculldDev { dev_part : scullp; devname : list Z }.

Definition set_dev_part (d : scullp) (x : sculld_dev) : sculld_dev := SculldDev d (devname x).
Definition set_devname (l : list Z) (x : sculld_dev) : sculld_dev := SculldDev (dev_part x) l.

Definition DEVNAME_SIZE : Z := 20.

(** [sculld_driver.driver.name] *)
Definition sculld_driver_name : list Z := ascii_of "sculld".

(** An operation of scullp on a device. *)
Definition on_dev {A} (m : K scullp A) : K sculld_dev A := zoom dev_part set_dev_part m.

Definition sculld_trim : K sculld_dev Z := on_dev scullp_trim.

Definition sculld_zero (order qset : Z) : sculld_dev := SculldDev (scullp_zero order qset) [].

(** [order = sculld_order; qset = sculld_qset;] *)
Definition sculld_set_up (x : sculld_dev) : sculld_dev := set_dev_part (scullp_set_up (dev_part x)) x.

(** [sprintf(dev->devname, "sculld%d", index)] *)
Definition sprintf_devname (index : nat) : K sculld_dev unit :=
  let name := ascii_of "sculld" ++ fmt_i (Z.of_nat index) in
  if lenZ name + 1 >? DEVNAME_SIZE then oops OutOfBounds else modify (set_devname name).

(** ** The operations

    These are scullp's. *)
Definition SCULLD_ORDER : Z := SCULLP_ORDER.
Definition SCULLD_QSET : Z := SCULLP_QSET.
Definition sculld_open : Z → K scullp Z := scullp_open.
Definition sculld_release : K scullp Z := scullp_release.
Definition sculld_follow : Z → K scullp nat := scullp_follow.
Definition sculld_read : Z → Z → K scullp xfer := scullp_read.
Definition sculld_write : list Z → Z → K scullp xfer := scullp_write.
Definition sculld_ioctl : Z → Z → K scullp ioctl_result := scullp_ioctl.
Definition sculld_llseek : Z → Z → Z → K scullp (Z * Z) := scullp_llseek.
Definition sculld_do_deferred_op : K scullp unit := scullp_do_deferred_op.
Definition sculld_vma_open : K scullp unit := scullp_vma_open.
Definition sculld_vma_close : K scullp unit := scullp_vma_close.
Definition sculld_mmap : K scullp Z := scullp_mmap.

(** These are written for the kernels of the bus: an asynchronous request is one
    buffer, [buf] for a write or as many bytes of room for a read. *)
Definition sculld_defer_op (write is_sync : bool) (iocb : nat) (buf : list Z) (pos : Z) : K scullp Z :=
  x ← (if write then sculld_write buf pos else sculld_read (lenZ buf) pos);
  let result := s32 (retval x) in
  if is_sync then mret result else
  z ← call (kmalloc sizeof_async_work);
  if z =? 0 then mret result else
  modify (Scullp.add_live 1);;
  modify (λ s, Scullp.set_works (Scullp.works s ++ [(iocb, result)]) s);;
  mret (- EIOCBQUEUED).

Definition sculld_aio_read := sculld_defer_op false.
Definition sculld_aio_write := sculld_defer_op true.

(** The page, [None] for [NOPAGE_SIGBUS]. *)
Definition sculld_vma_nopage (vm_start vm_pgoff address : Z) : K scullp (option nat) :=
  lock;;
  let offset := u64 (u64 (address - vm_start) + u64 (Z.shiftl vm_pgoff PAGE_SHIFT)) in
  size ← gets Scullp.size;
  if offset >=? size then unlock;; mret None else
  let offset := Z.shiftr offset PAGE_SHIFT in
  n ← gets Scullp.qset;
  l ← gets Scullp.items;
  let '(ptr, index) := nopage_item n l offset in
  pageptr ← (match ptr with
             | Some (Item (Some arr) _) => deref OutOfBounds (lookupZ arr index)
             | _ => mret None
             end);
  match pageptr with
  | None => unlock;; mret None
  | Some a => get_page (Z.to_nat offset) a;; unlock;; mret (Some a)
  end.

(** ** Sculld beside scullp *)

(** The calls that are not word for word scullp's, and those that are. *)
Inductive sculld_op :=
| Shared (o : op)
| AioReadOne (is_sync : bool) (iocb : nat) (buf : list Z) (f_pos : Z)
| AioWriteOne (is_sync : bool) (iocb : nat) (buf : list Z) (f_pos : Z)
| NopageOld (vm_start vm_pgoff address : Z).

(** [sculld_fops], [sculld_vm_ops], the deferred work, and the memory manager. *)
Definition sculld_handle (o : sculld_op) : K scullp Z :=
  match o with
  | Shared o => scullp_handle o
  | AioReadOne is_sync iocb buf f_pos => sculld_aio_read is_sync iocb buf f_pos
  | AioWriteOne is_sync iocb buf f_pos => sculld_aio_write is_sync iocb buf f_pos
  | NopageOld vm_start vm_pgoff address =>
      kfmap (λ p, if decide (is_Some p) then 0 else VM_FAULT_SIGBUS) (sculld_vma_nopage vm_start vm_pgoff address)
  end.

Definition as_scullp (o : sculld_op) : op :=
  match o with
  | Shared o => o
  | AioReadOne is_sync iocb buf f_pos => AioRead is_sync iocb [buf] f_pos
  | AioWriteOne is_sync iocb buf f_pos => AioWrite is_sync iocb [buf] f_pos
  | NopageOld vm_start vm_pgoff address => Nopage vm_start vm_pgoff address
  end.

(** The same outcome, but for the result. *)
Definition same_effect {A B} (x : outcome (A * (nat * scullp))) (y : outcome (B * (nat * scullp))) : Prop :=
  match x, y with
  | Done (_, s), Done (_, s') => s = s'
  | Oops f, Oops f' => f = f'
  | Asleep, Asleep => True
  | _, _ => False
  end.

Lemma s32_u64 z : s32 (u64 (0 + u64 z)) = s32 z.
Proof.
  unfold s32, u64. rewrite Z.add_0_l, Z.mod_mod by done. f_equal.
  rewrite <-(Z.add_mod_idemp_l (z mod _)) by done. change (2 ^ 64) with (2 ^ 32 * 2 ^ 32).
  by rewrite mod_mul_mod, Z.add_mod_idemp_l by done.
Qed.

(** A request of one buffer is one of one segment. *)
Lemma sculld_defer_single write is_sync iocb buf pos o ts :
  sculld_defer_op write is_sync iocb buf pos o ts = scullp_defer_op write is_sync iocb [buf] pos o ts.
Proof.
  unfold sculld_defer_op, scullp_defer_op. cbn [segments]. unfold transfer, sculld_write, sculld_read.
  cbv [mbind K_bind]. destruct ((if write then scullp_write buf pos else scullp_read (lenZ buf) pos) o ts)
    as [[x s]| |]; [|done..].
  rewrite (proj2 (Z.ltb_ge (u64 (retval x)) 0)) by apply u64_range. cbn [mret K_ret].
  by rewrite s32_u64.
Qed.

Lemma same_effect_bind {A B B'} (m : K scullp A) (f : A → K scullp B) (g : A → K scullp B') o ts :
  (∀ a ts', same_effect (f a o ts') (g a o ts')) → same_effect ((m ≫= f) o ts) ((m ≫= g) o ts).
Proof. intros H. unfold mbind, K_bind. by destruct (m o ts) as [[a ts']| |]. Qed.

Lemma same_effect_fmap {A A' B B'} (h : A → A') (h' : B → B') (m : K scullp A) (m' : K scullp B) o ts :
  same_effect (m o ts) (m' o ts) → same_effect (kfmap h m o ts) (kfmap h' m' o ts).
Proof. unfold kfmap, mbind, K_bind. by destruct (m o ts) as [[]| |], (m' o ts) as [[]| |]. Qed.

Lemma same_effect_refl {A} (x : outcome (A * (nat * scullp))) : same_effect x x.
Proof. by destruct x as [[]| |]. Qed.

Lemma nopage_same vm_start vm_pgoff address o ts :
  same_effect (sculld_vma_nopage vm_start vm_pgoff address o ts)
    (scullp_vma_nopage vm_start vm_pgoff address o ts).
Proof.
  unfold sculld_vma_nopage, scullp_vma_nopage. do 2 (apply same_effect_bind; intros ? ?).
  destruct (_ >=? _); [by apply same_effect_bind|]. do 2 (apply same_effect_bind; intros ? ?).
  destruct (nopage_item _ _ _). apply same_effect_bind. intros [p|] ?; by repeat (apply same_effect_bind; intros ? ?).
Qed.

(** Every call of sculld does what scullp's does, but for what is returned. *)
Lemma sculld_as_scullp op o ts :
  same_effect (sculld_handle op o ts) (scullp_handle (as_scullp op) o ts).
Proof.
  destruct op; cbn [sculld_handle as_scullp scullp_handle].
  - apply same_effect_refl.
  - unfold sculld_aio_read, scullp_aio_read. rewrite sculld_defer_single. apply same_effect_refl.
  - unfold sculld_aio_write, scullp_aio_write. rewrite sculld_defer_single. apply same_effect_refl.
  - apply same_effect_fmap, nopage_same.
Qed.

(** So a device of sculld goes only where one of scullp can go, and its calls do
    not fault. *)
Theorem sculld_mapped_safe C n :
  fair_contract C → good_qset n →
  faultless sculld_handle (λ s o, scullp_allowed s (as_scullp o)) C (λ s, s = scullp_init_dev n) ∧
  ∀ s, reachable sculld_handle (λ s o, scullp_allowed s (as_scullp o)) C (λ s, s = scullp_init_dev n) s →
    reachable scullp_handle scullp_allowed C (λ s, s = scullp_init_dev n) s ∧ idle s.
Proof.
  intros HC Hn. pose proof (scullp_idle_inductive C n HC Hn) as Hinv.
  assert (∀ s, reachable sculld_handle (λ s o, scullp_allowed s (as_scullp o)) C (λ s, s = scullp_init_dev n) s →
    reachable scullp_handle scullp_allowed C (λ s, s = scullp_init_dev n) s) as Hr.
  { induction 1 as [s Hs|s op o t r t' s' _ IH Hop Ho E|s s' _ IH Hp]; [by apply reach_init| |by eapply reach_peer].
    pose proof (sculld_as_scullp op o (t, s)) as Hsame. rewrite E in Hsame.
    destruct (scullp_handle (as_scullp op) o (t, s)) as [[r2 [t2 s2]]| |] eqn:E2; [|done..].
    injection Hsame as -> ->. by eapply reach_call. }
  split; [|intros s Hs; split; [by apply Hr|by eapply reachable_inv, Hr]].
  intros s op o t Hs Hop Ho.
  pose proof (inv_faultless _ _ _ _ _ Hinv s (as_scullp op) o t (Hr s Hs) Hop Ho) as Hf.
  pose proof (sculld_as_scullp op o (t, s)) as Hsame.
  by destruct (sculld_handle op o (t, s)) as [[]| |], (scullp_handle (as_scullp op) o (t, s)) as [[]| |].
Qed.

(** ** Loading and unloading *)

Section module.
Context (sizeof_sculld_dev : Z).
Local Abbreviation M := (K (char_mod sculld_dev)).

Definition sculld_setup_cdev (index : nat) : M unit := setup_cdev index.

(** Whether the registrations succeed is not looked at. *)
Definition sculld_register_dev (index : nat) : M unit :=
  at_entry index (sprintf_devname index);;
  register_ldd_device index;;
  call (kint "device_create_file");;
  mret tt.

(** From the allocation of the devices on. *)
Definition sculld_alloc (order qset dev : Z) : M Z :=
  n ← gets char_devs;
  z ← call (kmalloc (n * sizeof_sculld_dev));
  if z =? 0 then
    modify (set_char_devices None);;
    give_back (region dev);;
    mret (- ENOMEM)
  else
    hold char_block;;
    modify (set_char_devices (Some (replicate (Z.to_nat n) (sculld_zero order qset))));;
    for_each (Z.to_nat n) 0 (λ i,
      at_entry i (modify sculld_set_up);; sculld_setup_cdev i;; sculld_register_dev i);;
    mret 0.

Definition sculld_init (order qset : Z) : M Z :=
  '(result, dev) ← get_numbers;
  if result <? 0 then mret result else
  register_ldd_driver;;
  sculld_alloc order qset dev.

Definition sculld_cleanup : M unit :=
  n ← gets char_devs;
  for_each (Z.to_nat n) 0 (λ i,
    unregister_ldd_device i;; give_back (char_cdev i);; at_entry i (sculld_trim;; mret tt));;
  give_back char_block;;
  unregister_ldd_driver;;
  ma ← gets char_major;
  give_back (region (MKDEV ma 0)).
End module.

(** ** Names *)

Lemma length_fmt_i_le n : (length (fmt_i n) <= 11)%nat.
Proof.
  unfold fmt_i. pose proof (length_digits_le 10 n). pose proof (length_digits_le 10 (- n)).
  case_match; zbool; cbn [length]; lia.
Qed.

Lemma cstring_digits fuel n : 0 <= n → cstring (digits fuel n).
Proof.
  revert n. induction fuel as [|fuel IH]; intros n Hn; [constructor|]. cbn [digits].
  case_match; zbool; [repeat constructor; lia|]. apply Forall_app. split.
  - apply IH, Z.div_pos; lia.
  - pose proof (Z.mod_pos_bound n 10). repeat constructor; lia.
Qed.

(** The name a device is given: it fits, it is no other device's, and the driver
    matches it. *)
Definition dev_named (i : nat) (x : sculld_dev) : Prop :=
  devname x = ascii_of "sculld" ++ fmt_i (Z.of_nat i).

Lemma dev_named_matches i x : dev_named i x → ldd_match (devname x) sculld_driver_name = 1.
Proof.
  intros ->. rewrite ldd_match_spec.
  - rewrite decide_True; [done|]. by apply prefix_app_r.
  - apply Forall_app. split; [by vm_compute; repeat constructor|]. unfold fmt_i.
    rewrite (proj2 (Z.ltb_ge _ _)) by lia. by apply cstring_digits; lia.
  - by vm_compute; repeat constructor.
Qed.

(** No two devices have the same name. *)
Lemma dev_named_inj i j x y : Z.of_nat i <= INT_MAX → Z.of_nat j <= INT_MAX →
  dev_named i x → dev_named j y → devname x = devname y → i = j.
Proof.
  unfold INT_MAX. intros Hi Hj -> -> E%(app_inv_head (ascii_of "sculld")). unfold fmt_i in E.
  rewrite !(proj2 (Z.ltb_ge _ _)) in E by lia.
  apply (f_equal value) in E. rewrite !value_digits in E by lia. lia.
Qed.

Lemma wp_sprintf_devname C i x (Q : unit → sculld_dev → Prop) :
  Q tt (set_devname (ascii_of "sculld" ++ fmt_i (Z.of_nat i)) x) → wp C (sprintf_devname i) Q x.
Proof.
  intros HQ. unfold sprintf_devname. pose proof (length_fmt_i_le (Z.of_nat i)).
  rewrite length_app. change (length (ascii_of "sculld")) with 6%nat. unfold DEVNAME_SIZE.
  wp_step; [lia|]. by wp_step.
Qed.

(** A device of sculld can be trimmed as scullp's. *)
#[export] Instance sculld_trims : Trims sculld_dev sculld_trim.
Proof.
  refine {| device_ok d := device_ok (dev_part d); device_empty d := device_empty (dev_part d) |}.
  intros C d Hd. apply wp_zoom. eapply wp_mono; [by apply wp_trim|]. done.
Defined.

(** ** What is registered

    [reg] says, device by device, whether it could be registered. *)
Fixpoint ldd_devs (i : nat) (reg : list bool) : list resource :=
  match reg with
  | [] => []
  | b :: reg => opt b (ldd_device_res i) ++ ldd_devs (S i) reg
  end.

Lemma ldd_devs_snoc i reg b : ldd_devs i (reg ++ [b]) = ldd_devs i reg ++ opt b (ldd_device_res (i + length reg)).
Proof.
  revert i. induction reg as [|b' reg IH]; intros i; cbn; [by rewrite app_nil_r, Nat.add_0_r|].
  by rewrite IH, <-(assoc_L (++)), Nat.add_succ_r.
Qed.

Lemma ldd_devs_later i j reg : (i < j)%nat → ldd_device_res i ∉ ldd_devs j reg.
Proof.
  revert j. induction reg as [|b reg IH]; intros j Hij; cbn; [apply not_elem_of_nil|].
  rewrite elem_of_app. intros [H|H]; [|eapply IH; [|exact H]; lia].
  destruct b; [|by apply not_elem_of_nil in H]. apply list_elem_of_singleton in H.
  injection H. lia.
Qed.

Lemma ldd_devs_cons j reg b : reg !! j = Some b →
  ldd_devs j (drop j reg) = opt b (ldd_device_res j) ++ ldd_devs (S j) (drop (S j) reg).
Proof. intros H. by rewrite (drop_S _ _ _ H). Qed.

(** The other things a loaded module holds. *)
Definition sculld_base (dr : bool) (ma : Z) (j n : nat) : list resource :=
  (char_cdev <$> seq j (n - j)) ++ char_block :: opt dr ldd_driver_res ++ [region (MKDEV ma 0)].

Record sculld_ready (dr : bool) (reg : list bool) (s : char_mod sculld_dev) : Prop := {
  sr_devices : ∃ l, char_devices s = Some l ∧ length l = Z.to_nat (char_devs s) ∧
    length reg = Z.to_nat (char_devs s) ∧ Forall device_ok l ∧
    ∀ i x, l !! i = Some x → dev_named i x;
  sr_regs : owned (ldd_devs 0 reg ++ sculld_base dr (char_major s) 0 (Z.to_nat (char_devs s))) s
}.

(** How loading ends; [dr] says whether the driver could be registered. *)
Inductive sculld_outcome : Z → char_mod sculld_dev → Prop :=
| SculldNoNumber r s : r < 0 → owned [] s → sculld_outcome r s
| SculldNoMemory dr s : owned (opt dr ldd_driver_res) s → sculld_outcome (- ENOMEM) s
| SculldLoaded dr reg s : sculld_ready dr reg s → sculld_outcome 0 s.

Section proofs.
Context (sizeof_sculld_dev : Z) (C : contract (char_mod sculld_dev)) (HC : numbers_contract C).
Implicit Types (s : char_mod sculld_dev).

(** The registrations of one device. *)
Lemma wp_sculld_register_dev i l x s (Q : unit → char_mod sculld_dev → Prop) :
  char_devices s = Some l → l !! i = Some x →
  (∀ b, Q tt (set_char_regs (if b : bool then reg_add (ldd_device_res i) (char_regs s) else char_regs s)
    (set_char_devices (Some (<[i := set_devname (ascii_of "sculld" ++ fmt_i (Z.of_nat i)) x]> l)) s))) →
  wp C (sculld_register_dev i) Q s.
Proof.
  intros Hs Hx HQ. unfold sculld_register_dev. wp_step. eapply wp_at_entry; [exact Hs|exact Hx|].
  apply wp_sprintf_devname. wp_step. unfold register_ldd_device. apply wp_acquire.
  - do 3 wp_step. apply (HQ true).
  - intros z' _ _. do 3 wp_step. apply (HQ false).
Qed.

(** One round of the loop of [sculld_init]. *)
Lemma wp_set_up_dev i l order qset reg L s (Q : unit → char_mod sculld_dev → Prop) :
  char_devices s = Some l → l !! i = Some (sculld_zero order qset) → good_qset qset → order = 0 →
  length reg = i → owns (ldd_devs 0 reg ++ (char_cdev <$> seq 0 i) ++ L) (char_regs s) →
  (∀ b x g, device_ok x → dev_named i x →
    owns (ldd_devs 0 (reg ++ [b]) ++ (char_cdev <$> seq 0 (S i)) ++ L) g →
    Q tt (set_char_regs g (set_char_devices (Some (<[i := x]> l)) s))) →
  wp C (at_entry i (modify sculld_set_up);; sculld_setup_cdev i;; sculld_register_dev i) Q s.
Proof.
  intros Hs Hx Hq -> Hreg Ho HQ. wp_step. eapply wp_at_entry; [exact Hs|exact Hx|]. wp_step.
  wp_step. unfold sculld_setup_cdev, setup_cdev. wp_step. apply wp_hold. do 3 wp_step.
  pose proof (lookup_lt_Some _ _ _ Hx) as Hi.
  eapply wp_sculld_register_dev; [done|by apply list_lookup_insert_eq|]. intros b.
  rewrite list_insert_insert_eq.
  apply (HQ b (set_devname (ascii_of "sculld" ++ fmt_i (Z.of_nat i)) (sculld_set_up (sculld_zero 0 qset)))
    (if b then reg_add (ldd_device_res i) (reg_add (char_cdev i) (char_regs s))
     else reg_add (char_cdev i) (char_regs s))).
  - split; [apply (scullp_init_idle qset Hq)|done].
  - done.
  - rewrite ldd_devs_snoc, Hreg, Nat.add_0_l, seq_S, fmap_app.
    apply (owns_add (char_cdev i)) in Ho. destruct b; [apply (owns_add (ldd_device_res i)) in Ho|];
      (eapply owns_proper; [|done|exact Ho]); cbn; solve_Permutation.
Qed.

Lemma wp_sculld_alloc qset dr m s :
  good_qset qset → char_major s = m → owned (opt dr ldd_driver_res ++ [region (MKDEV m 0)]) s →
  wp C (sculld_alloc sizeof_sculld_dev 0 qset (MKDEV m 0)) sculld_outcome s.
Proof.
  intros Hq <- Ho. unfold sculld_alloc. do 5 wp_step.
  { do 2 wp_step. wp_step. apply wp_give_back. wp_step. apply (SculldNoMemory dr). apply (owned_del (region (MKDEV (char_major s) 0))).
    eapply owned_perm; [|exact Ho]. apply Permutation_app_comm. }
  wp_step. apply wp_hold. do 3 wp_step. set (n := Z.to_nat (char_devs s)).
  set (l0 := replicate n (sculld_zero 0 qset)). rewrite <-(length_replicate n (sculld_zero 0 qset)). fold l0.
  set (L := char_block :: opt dr ldd_driver_res ++ [region (MKDEV (char_major s) 0)]).
  apply (wp_for_devices_at _ _ (λ d, d = sculld_zero 0 qset) (λ i x, device_ok x ∧ dev_named i x)
    (λ j g, ∃ reg, length reg = j ∧ owns (ldd_devs 0 reg ++ (char_cdev <$> seq 0 j) ++ L) g) l0);
    [done|by apply Forall_replicate|exists []; split; [done|by apply owns_add]|..].
  - intros i x l g Hi -> Hx (reg & Hreg & Hg). eapply wp_set_up_dev; [done|exact Hx|done|done|exact Hreg|exact Hg|].
    intros b x g' Hx' Hn Hg'. exists x, g'. split_and!; [done..|]. exists (reg ++ [b]).
    split; [|done]. rewrite length_app. cbn. lia.
  - intros l g Hlen HR (reg & Hreg & Hg). wp_step. apply (SculldLoaded dr reg). unfold l0 in Hreg, Hlen, Hg.
    rewrite length_replicate in Hreg, Hlen, Hg. split.
    + exists l. split_and!; [done..| |by intros i x Hx; apply HR].
      apply Forall_lookup. intros i x Hx. by apply (HR i x).
    + unfold sculld_base. rewrite Nat.sub_0_r. exact Hg.
Qed.

Lemma sculld_loads qset major n :
  good_qset qset → wp C (sculld_init sizeof_sculld_dev 0 qset) sculld_outcome (char_fresh major n).
Proof.
  intros Hq. unfold sculld_init. wp_step. apply wp_get_numbers; [done..| |].
  { intros z dev m Hz. rewrite (proj2 (Z.ltb_lt _ _)) by done. wp_step. by apply SculldNoNumber. }
  intros g m s1 H1. change (0 <? 0) with false. cbn iota. wp_step.
  apply wp_register_ldd_driver; intros _.
  - apply (wp_sculld_alloc qset true m); [done|done|]. apply owned_add, H1.
  - apply (wp_sculld_alloc qset false m); [done|done|]. exact H1.
Qed.

(** ** Unloading *)

(** One round: the registration is given back whether it is there or not. *)
Lemma wp_drop_dev i l x s reg b B L (Q : unit → char_mod sculld_dev → Prop) :
  char_devices s = Some l → l !! i = Some x → device_ok x → reg !! i = Some b →
  Forall (λ r, res_kind r ≠ "ldd_device"%string) L →
  owns_but (ldd_devs i (drop i reg) ++ char_cdev i :: L) B (char_regs s) →
  (∀ x' g, device_empty x' → owns_but (ldd_devs (S i) (drop (S i) reg) ++ L) (opt (negb b) (ldd_device_res i) ++ B) g →
    Q tt (set_char_regs g (set_char_devices (Some (<[i := x']> l)) s))) →
  wp C (unregister_ldd_device i;; give_back (char_cdev i);; at_entry i (sculld_trim;; mret tt)) Q s.
Proof.
  intros Hs Hx Hok Hb HL Ho HQ. rewrite (ldd_devs_cons _ _ _ Hb), <-(assoc_L (++)) in Ho.
  wp_step. unfold unregister_ldd_device.
  apply (wp_give_may C true b _ (ldd_devs (S i) (drop (S i) reg) ++ char_cdev i :: L) B); [by destruct s|done| |done|].
  { rewrite elem_of_app, elem_of_cons. intros [H|[H|H]]; [by apply ldd_devs_later in H; [|lia]|done|].
    by apply (other_kind (ldd_device_res i) L). }
  intros g Hg. wp_step. apply (wp_give_but _ _ (ldd_devs (S i) (drop (S i) reg) ++ L) (opt (negb b) (ldd_device_res i) ++ B)).
  { unfold owns_but in *. by rewrite (Permutation_middle _ L). }
  intros g' Hg'. eapply wp_at_entry; [exact Hs|exact Hx|]. wp_step.
  eapply wp_mono; [by apply wp_trim|]. intros r x' Hx'. wp_step. apply (HQ x' g'); done.
Qed.

Lemma other_kind_cdevs i k dr m :
  Forall (λ r, res_kind r ≠ "ldd_device"%string)
    ((char_cdev <$> seq i k) ++ char_block :: opt dr ldd_driver_res ++ [region m]).
Proof.
  apply Forall_app. split; [apply Forall_fmap; by apply Forall_true|]. constructor; [done|].
  apply Forall_app. split; [by apply Forall_opt|by repeat constructor].
Qed.

(** What was given back and never held, latest first. *)
Definition never_held (dr : bool) (reg : list bool) : list resource :=
  opt (negb dr) ldd_driver_res ++ reverse (ldd_devs 0 (negb <$> reg)).

Lemma missed_snoc j reg b : reg !! j = Some b →
  reverse (ldd_devs 0 (negb <$> take (S j) reg)) =
  opt (negb b) (ldd_device_res j) ++ reverse (ldd_devs 0 (negb <$> take j reg)).
Proof.
  intros Hb. rewrite (take_S_r _ _ _ Hb), fmap_app. cbn. rewrite ldd_devs_snoc, reverse_app.
  rewrite length_fmap, length_take_le by (apply lookup_lt_Some in Hb; lia). by destruct b.
Qed.

Lemma sculld_unloads dr reg s : sculld_ready dr reg s →
  wp C sculld_cleanup (λ _ s', holding (char_regs s') = [] ∧
    bad_frees (char_regs s') = never_held dr reg ∧
    ∃ l, char_devices s' = Some l ∧ Forall device_empty l) s.
Proof.
  intros [(l & Hl & Hlen & Hreg & Hok & _) Ho]. unfold sculld_cleanup. do 3 wp_step. rewrite <-Hlen in *.
  set (L := char_block :: opt dr ldd_driver_res ++ [region (MKDEV (char_major s) 0)]).
  apply (wp_for_devices _ _ device_ok device_empty (λ j g,
    owns_but (ldd_devs j (drop j reg) ++ (char_cdev <$> seq j (length l - j)) ++ L)
      (reverse (ldd_devs 0 (negb <$> take j reg))) g) l); [done|done|exact Ho|..].
  - intros i x l' g Hi Hx Hi' Hg. destruct (lookup_lt_is_Some_2 reg i) as [b Hb]; [lia|].
    rewrite cdevs_cons in Hg by done.
    eapply wp_drop_dev; [done|exact Hi'|exact Hx|exact Hb|apply (other_kind_cdevs (S i))|exact Hg|].
    intros x' g' Hx' Hg'. exists x', g'. split_and!; [done..|]. by rewrite (missed_snoc _ _ _ Hb).
  - intros l' g Hlen' He Hg. rewrite drop_ge, take_ge, Nat.sub_diag in Hg by lia. cbn [seq fmap list_fmap ldd_devs app] in Hg.
    wp_step. eapply wp_give_but; [exact Hg|]. intros g1 H1. wp_step. unfold unregister_ldd_driver.
    apply (wp_give_may C true dr _ [region (MKDEV (char_major s) 0)] (reverse (ldd_devs 0 (negb <$> reg))));
      [done|done|by rewrite list_elem_of_singleton|exact H1|]. 
    intros g2 H2. do 2 wp_step. cbn beta.
    eapply wp_give_but; [exact H2|]. intros g3 H3%owns_but_empty. split; [apply H3|]. split; [apply H3|].
    by exists l'.
Qed.

(** The bus binds every device to the driver, and tells them apart. *)
Definition well_named (s : char_mod sculld_dev) : Prop :=
  ∃ l, char_devices s = Some l ∧ (∀ x, x ∈ l → ldd_match (devname x) sculld_driver_name = 1) ∧
    NoDup (devname <$> l).

Lemma ready_well_named dr reg s : char_devs s <= INT_MAX → sculld_ready dr reg s → well_named s.
Proof.
  intros Hn [(l & Hl & Hlen & _ & _ & Hnames) _]. exists l. split; [done|]. split.
  - intros x [i Hi]%list_elem_of_lookup. by eapply dev_named_matches, Hnames.
  - apply NoDup_alt. intros i j name Hi Hj. rewrite !list_lookup_fmap in Hi, Hj.
    destruct (l !! i) as [x|] eqn:Ex; [|done]. destruct (l !! j) as [y|] eqn:Ey; [|done].
    simplify_eq/=. pose proof (lookup_lt_Some _ _ _ Ex). pose proof (lookup_lt_Some _ _ _ Ey).
    eapply dev_named_inj; [..|exact (Hnames i x Ex)|exact (Hnames j y Ey)|done]; lia.
Qed.

(** Loading sculld fails with nothing held, or, when there is no memory for
    the devices, with the driver still registered on the bus, or succeeds,
    whatever was registered. Of a loaded sculld the devices have names that tell
    them apart and that the driver matches; unloading it, whatever its devices
    were used for, empties them and gives everything back, and besides every
    registration that had failed. *)
Theorem sculld_module qset major n :
  good_qset qset →
  wp C (sculld_init sizeof_sculld_dev 0 qset) sculld_outcome (char_fresh major n) ∧
  (∀ dr reg s, sculld_ready dr reg s →
    (char_devs s <= INT_MAX → well_named s) ∧
    wp C sculld_cleanup (λ _ s', holding (char_regs s') = [] ∧
      bad_frees (char_regs s') = never_held dr reg ∧
      ∃ l, char_devices s' = Some l ∧ Forall device_empty l) s).
Proof.
  intros Hq. split; [by apply sculld_loads|]. intros dr reg s Hs. split.
  - intros Hn. by eapply ready_well_named.
  - by apply sculld_unloads.
Qed.
End proofs.

Definition sculld_kernel : contract (char_mod sculld_dev) :=
  Contract (λ c z, match c with
    | kint what => if decide (what = "dynamic major"%string) then 0 < z < 2 ^ 12 else z <= 0
    | _ => True end) alone False.

Lemma sculld_kernel_ok : numbers_contract sculld_kernel.
Proof. by split. Qed.

Lemma sculld_module_witness :
  wp sculld_kernel (sculld_init 1000 0 500) sculld_outcome (char_fresh 0 4) ∧
  (∀ dr reg s, sculld_ready dr reg s →
    (char_devs s <= INT_MAX → well_named s) ∧
    wp sculld_kernel sculld_cleanup (λ _ s', holding (char_regs s') = [] ∧
      bad_frees (char_regs s') = never_held dr reg ∧
      ∃ l, char_devices s' = Some l ∧ Forall device_empty l) s).
Proof. by apply (sculld_module 1000 sculld_kernel sculld_kernel_ok 500 0 4). Defined.

(** The failed load of a kernel without memory. *)
Theorem sculld_leaks_driver : ∃ s,
  run (Oracle (λ c _, match c with kint what => if decide (what = "dynamic major"%string) then 253 else 0 | _ => 0 end)
    (λ _ _, 0) (λ _ s, s)) (sculld_init 1000 0 500) (char_fresh 0 4) = Done (- ENOMEM, s) ∧
  owned [ldd_driver_res] s.
Proof. eexists. split; [vm_compute; reflexivity|]. done. Qed.
