(* ===== verification/Simple.v ===== *)
(** * simple: mapping physical memory (src/ldd4/simple/simple.c)

    Two devices that map the physical memory at the offset of the mapping: the
    first when the mapping is made, with [remap_pfn_range], the second page by
    page, when a page is touched. [BITS] is the width of an [unsigned long]. *)

From stdpp Require Import base tactics numbers list gmap strings.
From S2P Require Import Prelude KMonad Registry.
From Stdlib Require Import ZArith Lia.

Open Scope Z_scope.

(** ** Data *)

(** [simple_remap_vm_ops], [simple_nopage_vm_ops] *)
Inductive vm_operations := simple_remap_vm_ops | simple_nopage_vm_ops.

Record vm_area := VmArea {
  vm_start : Z;
  vm_end : Z;
  vm_pgoff : Z;
  vm_flags : Z;
  vm_ops : option vm_operations
}.

(** The mapping at work; the frames the kernel has mapped, by virtual page; and
    the references taken on frames, latest first. *)
Record simple := MkSimple { vma : vm_area; page_table : gmap Z Z; frame_refs : list Z }.

Definition set_vma (v : vm_area) (s : simple) : simple := MkSimple v (page_table s) (frame_refs s).
Definition set_page_table (t : gmap Z Z) (s : simple) : simple := MkSimple (vma s) t (frame_refs s).
Definition set_frame_refs (l : list Z) (s : simple) : simple := MkSimple (vma s) (page_table s) l.
Definition set_vm_ops (o : vm_operations) (v : vm_area) : vm_area :=
  VmArea (vm_start v) (vm_end v) (vm_pgoff v) (vm_flags v) (Some o).
Definition set_vm_flags (f : Z) (v : vm_area) : vm_area :=
  VmArea (vm_start v) (vm_end v) (vm_pgoff v) f (vm_ops v).

Definition O_SYNC : Z := 1052672.
Definition VM_IO : Z := 16384.
Definition VM_FAULT_SIGBUS : Z := 2.

Section simple.
Context (BITS : Z).

(** What [remap_pfn_range] adds to the page table: the frames from a number on,
    for a range of virtual memory. *)
Context (remap : Z → Z → Z → gmap Z Z).
Definition remaps : Prop := ∀ start pfn size i,
  0 <= i → PAGE_SIZE * i < size → start mod PAGE_SIZE = 0 →
  remap start pfn size !! (start / PAGE_SIZE + i) = Some (pfn + i).

(** [__pa(high_memory)] *)
Context (pa_high_memory : Z).

Definition ulong (z : Z) : Z := z mod 2 ^ BITS.

(** [vma->vm_pgoff << PAGE_SHIFT] *)
Definition vm_offset (v : vm_area) : Z := ulong (Z.shiftl (vm_pgoff v) PAGE_SHIFT).

(** ** The operations *)

Definition simple_open : K simple Z := mret 0.
Definition simple_release : K simple Z := mret 0.

Definition simple_remap_mmap : K simple Z :=
  v ← gets vma;
  r ← call (kint "remap_pfn_range");
  if c_bool r then mret (- EAGAIN) else
  modify (λ s, set_page_table
    (remap (vm_start v) (vm_pgoff v) (ulong (vm_end v - vm_start v)) ∪ page_table s) s);;
  modify (λ s, set_vma (set_vm_ops simple_remap_vm_ops (vma s)) s);;
  mret 0.

(** The result and [vmf->page]. *)
Definition simple_vma_nopage (virtual_address : Z) : K simple (Z * option Z) :=
  v ← gets vma;
  let offset := vm_offset v in
  let physaddr := ulong (virtual_address - vm_start v + offset) in
  let pageframe := Z.shiftr physaddr PAGE_SHIFT in
  valid ← call (kint "pfn_valid");
  if negb (c_bool valid) then mret (VM_FAULT_SIGBUS, None) else
  modify (λ s, set_frame_refs (pageframe :: frame_refs s) s);;
  mret (0, Some pageframe).

Definition simple_nopage_mmap (f_flags : Z) : K simple Z :=
  v ← gets vma;
  (if (vm_offset v >=? pa_high_memory) || c_bool (Z.land f_flags O_SYNC) then
     modify (λ s, set_vma (set_vm_flags (Z.lor (vm_flags (vma s)) VM_IO) (vma s)) s)
   else mret tt);;
  modify (λ s, set_vma (set_vm_ops simple_nopage_vm_ops (vma s)) s);;
  mret 0.

(** ** Properties *)

(** A mapping as the kernel makes them: of whole pages, at addresses and an
    offset in pages that are [unsigned long]s. *)
Record area_ok (v : vm_area) : Prop := {
  ao_bits : PAGE_SHIFT <= BITS;
  ao_start : 0 <= vm_start v < vm_end v;
  ao_end : vm_end v < 2 ^ BITS;
  ao_aligned : vm_start v mod PAGE_SIZE = 0;
  ao_pgoff : 0 <= vm_pgoff v < 2 ^ BITS
}.

(** The frame the mapping shows at an address. *)
Definition frame_at (v : vm_area) (address : Z) : Z := vm_pgoff v + (address - vm_start v) / PAGE_SIZE.

(** The frame [simple_vma_nopage] computes. *)
Lemma nopage_frame v address : area_ok v → vm_start v <= address < vm_end v →
  Z.shiftr (ulong (address - vm_start v + vm_offset v)) PAGE_SHIFT = frame_at v address mod 2 ^ (BITS - PAGE_SHIFT).
Proof.
  intros [Hb Hs He Ha Hp] Haddr. unfold vm_offset, ulong, frame_at, PAGE_SHIFT, PAGE_SIZE in *.
  rewrite Z.add_mod_idemp_r, Z.shiftr_div_pow2, Z.shiftl_mul_pow2 by lia.
  replace (2 ^ BITS) with (2 ^ 12 * 2 ^ (BITS - 12)) by (rewrite <-Z.pow_add_r by lia; f_equal; lia).
  assert (0 < 2 ^ (BITS - 12)) by (apply Z.pow_pos_nonneg; lia).
  rewrite Z.rem_mul_r, (Z.mul_comm (2 ^ 12)), Z.div_add by lia.
  rewrite (Z.div_small (_ mod 2 ^ 12)) by (apply Z.mod_pos_bound; lia).
  rewrite Z.add_0_l, Z.div_add by lia. by rewrite Z.add_comm.
Qed.

(** Both devices show the same memory: where the first has mapped an address
    of an area, the second gives for that address the very frame, which is the
    one at the offset the user asked for, or a bus error. This needs the area to
    end below the largest physical address an [unsigned long] can name; beyond
    it the second device wraps around and gives low memory. *)
Theorem simple_devices_agree C v address s :
  remaps → area_ok v → vm_start v <= address < vm_end v → vma s = v →
  wp C simple_remap_mmap (λ r s',
    r = - EAGAIN ∨
    (r = 0 ∧ page_table s' !! (address / PAGE_SIZE) = Some (frame_at v address))) s ∧
  wp C (simple_vma_nopage address) (λ r s',
    (r = (VM_FAULT_SIGBUS, None) ∧ s' = s) ∨
    (∃ f, r = (0, Some f) ∧ s' = set_frame_refs (f :: frame_refs s) s ∧
      f = frame_at v address mod 2 ^ (BITS - PAGE_SHIFT) ∧
      (PAGE_SIZE * vm_pgoff v + (vm_end v - vm_start v) <= 2 ^ BITS → f = frame_at v address))) s.
Proof.
  intros HR Hv Haddr Hs. split.
  - unfold simple_remap_mmap. do 4 wp_step. wp_step; [wp_step; by left|]. do 5 wp_step. right.
    split; [done|]. cbn. rewrite Hs. destruct Hv as [Hb Hst He Ha Hp].
    pose proof (Z.div_mod (vm_start v) PAGE_SIZE ltac:(done)) as Hq. rewrite Ha in Hq.
    apply lookup_union_Some_l. unfold ulong. rewrite Z.mod_small by lia.
    replace (address / PAGE_SIZE) with (vm_start v / PAGE_SIZE + (address - vm_start v) / PAGE_SIZE).
    + apply HR; [apply Z.div_pos; unfold PAGE_SIZE; lia| |done].
      pose proof (Z.mul_div_le (address - vm_start v) PAGE_SIZE ltac:(done)). lia.
    + rewrite Hq at 2. unfold PAGE_SIZE in *. Z.to_euclidean_division_equations. lia.
  - unfold simple_vma_nopage. do 4 wp_step. wp_step; [wp_step; by left|]. do 3 wp_step. right.
    eexists. split; [done|]. split; [done|]. rewrite Hs, (nopage_frame v address) by done.
    split; [done|]. intros Hend. apply Z.mod_small. destruct Hv as [Hb Hst He Ha Hp].
    unfold frame_at, PAGE_SIZE, PAGE_SHIFT in *.
    assert (2 ^ BITS = 4096 * 2 ^ (BITS - 12)) as E.
    { change 4096 with (2 ^ 12). rewrite <-Z.pow_add_r by lia. f_equal. lia. }
    Z.to_euclidean_division_equations. lia.
Qed.
End simple.

(** Pages mapped one by one. *)
Definition remap_list (start pfn size : Z) : gmap Z Z :=
  list_to_map ((λ i, (start / PAGE_SIZE + Z.of_nat i, pfn + Z.of_nat i)) <$>
    seq 0 (Z.to_nat ((size + PAGE_SIZE - 1) / PAGE_SIZE))).

Lemma remap_list_ok : remaps remap_list.
Proof.
  intros start pfn size i Hi Hs _. unfold remap_list. apply elem_of_list_to_map_1.
  - rewrite <-list_fmap_compose. apply NoDup_fmap_2; [|apply NoDup_seq].
    intros x y E. cbn in E. lia.
  - apply list_elem_of_fmap. exists (Z.to_nat i). rewrite Z2Nat.id by done. split; [done|].
    apply elem_of_seq. unfold PAGE_SIZE in *. Z.to_euclidean_division_equations. lia.
Qed.

Lemma simple_devices_agree_witness :
  let v := VmArea 8192 16384 253952 0 None in
  let s := MkSimple v ∅ [] in
  wp (documented alone False) (simple_remap_mmap 64 remap_list) (λ r s',
    r = - EAGAIN ∨
    (r = 0 ∧ page_table s' !! (12300 / PAGE_SIZE) = Some (frame_at v 12300))) s ∧
  wp (documented alone False) (simple_vma_nopage 64 12300) (λ r s',
    (r = (VM_FAULT_SIGBUS, None) ∧ s' = s) ∨
    (∃ f, r = (0, Some f) ∧ s' = set_frame_refs (f :: frame_refs s) s ∧
      f = frame_at v 12300 mod 2 ^ (64 - PAGE_SHIFT) ∧
      (PAGE_SIZE * vm_pgoff v + (vm_end v - vm_start v) <= 2 ^ 64 → f = frame_at v 12300))) s.
Proof.
  apply (simple_devices_agree 64 remap_list (documented alone False) (VmArea 8192 16384 253952 0 None)
    12300 (MkSimple (VmArea 8192 16384 253952 0 None) ∅ [])).
  - apply remap_list_ok.
  - by split.
  - by cbn.
  - reflexivity.
Defined.

(** On a 32-bit machine, whose [mmap2] counts offsets in pages, the second device
    maps frame 0 where frame [2 ^ 20] was asked for. *)
Theorem simple_nopage_wraps : let v := VmArea 8192 12288 (2 ^ 20) 0 None in
  frame_at v 8192 = 2 ^ 20 ∧
  run (Oracle (λ _ _, 1) (λ _ _, 0) (λ _ s, s)) (simple_vma_nopage 32 8192) (MkSimple v ∅ []) =
    Done ((0, Some 0), MkSimple v ∅ [0]).
Proof. split; reflexivity. Qed.

(** ** Loading and unloading *)

Record simple_mod := SimpleMod { simple_major : Z; simple_regs : registry }.

#[export] Instance simple_mod_registry : HasRegistry simple_mod :=
  { registry_of := simple_regs; set_registry g s := SimpleMod (simple_major s) g; registry_set g s := eq_refl }.

Definition simple_cdev (minor : Z) : resource := Res "cdev" minor.

(** A failed [cdev_add] is only reported. *)
Definition simple_setup_cdev (minor : Z) : K simple_mod unit :=
  hold (simple_cdev minor);;
  call (kint "cdev_add");;
  mret tt.

Definition set_simple_major (v : Z) (s : simple_mod) : simple_mod := SimpleMod v (simple_regs s).

Definition simple_init : K simple_mod Z :=
  ma ← gets simple_major;
  result ← (if c_bool ma then acquire "register_chrdev_region" (region (MKDEV ma 0))
            else
              result ← call (kint "alloc_chrdev_region");
              (if result <? 0 then modify (set_simple_major (MAJOR (MKDEV ma 0)))
               else
                 dyn ← call (kint "dynamic major");
                 hold (region (MKDEV dyn 0));;
                 modify (set_simple_major (MAJOR (MKDEV dyn 0))));;
              mret result);
  if result <? 0 then mret result else
  ma ← gets simple_major;
  (if ma =? 0 then modify (set_simple_major result) else mret tt);;
  simple_setup_cdev 0;;
  simple_setup_cdev 1;;
  mret 0.

Definition simple_cleanup : K simple_mod unit :=
  give_back (simple_cdev 0);;
  give_back (simple_cdev 1);;
  ma ← gets simple_major;
  give_back (region (MKDEV ma 0)).

(** Loading fails with nothing held, or succeeds, and then unloading gives back
    all there is. *)
Theorem simple_module C major :
  (∀ z, c_ans C (kint "register_chrdev_region") z → z <= 0) →
  (∀ z, c_ans C (kint "alloc_chrdev_region") z → z <= 0) →
  (∀ z, c_ans C (kint "dynamic major") z → 0 < z < 2 ^ 12) →
  wp C simple_init (λ r s, r < 0 ∧ owned [] s ∨
    r = 0 ∧ wp C simple_cleanup (λ _ s', owned [] s') s) (SimpleMod major empty_registry).
Proof.
  intros Hr Ha Hd.
  assert (∀ ma s, simple_major s = ma → ma ≠ 0 → owned [region (MKDEV ma 0)] s →
    wp C (ma ← gets simple_major;
      (if ma =? 0 then modify (set_simple_major 0) else mret tt);;
      simple_setup_cdev 0;; simple_setup_cdev 1;; mret 0) (λ r s, r < 0 ∧ owned [] s ∨
    r = 0 ∧ wp C simple_cleanup (λ _ s', owned [] s') s) s) as Hrest.
  { intros ma s Hs Hma Ho. wp_step. wp_step. rewrite Hs, (proj2 (Z.eqb_neq _ _)) by done. do 2 wp_step.
    do 2 (wp_step; unfold simple_setup_cdev at 1; wp_step; apply wp_hold; do 3 wp_step). wp_step. right.
    split; [done|]. unfold simple_cleanup. wp_step. apply wp_give_back. wp_step. apply wp_give_back.
    do 2 wp_step. apply wp_give_back. cbn [simple_major set_registry simple_mod_registry]. rewrite Hs.
    assert (owns [simple_cdev 0; simple_cdev 1; region (MKDEV ma 0)]
      (reg_add (simple_cdev 1) (reg_add (simple_cdev 0) (simple_regs s)))) as Ho'.
    { eapply owns_proper; [apply Permutation_swap|done|]. apply owns_add, owns_add, Ho. }
    exact (owns_del _ _ _ (owns_del _ _ _ (owns_del _ _ _ Ho'))). }
  unfold simple_init. do 4 wp_step.
  - apply wp_acquire.
    + change (0 <? 0) with false. cbn iota. apply (Hrest major); [done| |by apply owned_add].
      by intros ->.
    + intros z Hz Hz0. apply Hr in Hz. rewrite (proj2 (Z.ltb_lt _ _)) by lia. wp_step. left. split; [lia|done].
  - wp_step. wp_step. apply Ha in H. wp_step. wp_step.
    + wp_step. wp_step. wp_step; [|lia]. wp_step. by left.
    + do 2 wp_step. apply Hd in H0. wp_step. apply wp_hold. do 2 wp_step. assert (z = 0) as -> by lia.
      change (0 <? 0) with false. cbn iota. apply (Hrest z0); [apply MAJOR_MKDEV; lia|lia|].
      exact (owns_add _ _ _ owns_empty).
Qed.
