(* ===== verification/SeqFile.v ===== *)
(** * seq: a file of all the numbers (src/ldd4/misc-modules/seq.c)

    The four functions of a seq_file whose records are the numbers from the
    position on. The kernel reads such a file in sessions, [start], then [show]
    and [next] as often as the reader has room, then [stop]; what the next
    session starts from is the position the last [next] left. *)

From stdpp Require Import base tactics numbers list strings.
From S2P Require Import Prelude KMonad Registry Text.
From Stdlib Require Import ZArith Lia.

Open Scope Z_scope.

(** ** Data *)

(** The position of the file, what was printed to it, and the blocks of [kmalloc]
    in use. An iterator is the [loff_t] in its block, [None] is NULL. *)
Record seq_file := SeqFile { index : Z; printed : list Z; live : Z }.

Definition set_index (v : Z) (s : seq_file) : seq_file := SeqFile v (printed s) (live s).
Definition set_printed (v : list Z) (s : seq_file) : seq_file := SeqFile (index s) v (live s).
Definition add_live (n : Z) (s : seq_file) : seq_file := SeqFile (index s) (printed s) (live s + n).

Definition sizeof_loff_t : Z := 8.

(** ** The iterator *)

Definition ct_seq_start : K seq_file (option Z) :=
  z ← call (kmalloc sizeof_loff_t);
  if z =? 0 then mret None else
  modify (add_live 1);;
  pos ← gets index;
  mret (Some pos).

Definition ct_seq_next (spos : Z) : K seq_file Z :=
  let spos := s64 (spos + 1) in
  modify (set_index spos);;
  mret spos.

Definition ct_seq_stop (v : option Z) : K seq_file unit :=
  match v with Some _ => modify (add_live (-1)) | None => mret tt end.

Definition ct_seq_show (spos : Z) : K seq_file Z :=
  modify (λ s, set_printed (printed s ++ fmt_l spos ++ [10]) s);;
  mret 0.

(** ** Reading *)

(** [n] records, then the session stops. *)
Fixpoint ct_records (n : nat) (spos : Z) : K seq_file Z :=
  match n with
  | O => mret spos
  | S n => ct_seq_show spos;; spos ← ct_seq_next spos; ct_records n spos
  end.

Definition ct_session (n : nat) : K seq_file unit :=
  v ← ct_seq_start;
  match v with
  | None => ct_seq_stop None
  | Some spos => spos ← ct_records n spos; ct_seq_stop (Some spos)
  end.

Fixpoint ct_read (ns : list nat) : K seq_file unit :=
  match ns with
  | [] => mret tt
  | n :: ns => ct_session n;; ct_read ns
  end.

(** ** Specification *)

(** The lines from number [pos] on. *)
Definition lines (pos : Z) (n : nat) : list Z :=
  concat ((λ i, fmt_l (pos + Z.of_nat i) ++ [10]) <$> seq 0 n).

Lemma lines_add pos n m : lines pos (n + m) = lines pos n ++ lines (pos + Z.of_nat n) m.
Proof.
  unfold lines. rewrite seq_app, fmap_app, concat_app. f_equal. rewrite Nat.add_0_l, <-(Nat.add_0_r n).
  rewrite <-fmap_add_seq, <-list_fmap_compose, Nat.add_0_r. f_equal.
  apply list_fmap_ext. intros i x _. cbn. do 2 f_equal. lia.
Qed.

Lemma lines_S pos n : lines pos (S n) = fmt_l pos ++ [10] ++ lines (pos + 1) n.
Proof.
  change (S n) with (1 + n)%nat. rewrite lines_add. unfold lines at 1. cbn. by rewrite Z.add_0_r, app_nil_r, <-(assoc_L (++)).
Qed.

(** What a session has done, having shown [n] records. *)
Definition shown (n : nat) (s : seq_file) : seq_file :=
  SeqFile (index s + Z.of_nat n) (printed s ++ lines (index s) n) (live s).

Lemma shown_shown n m s : shown m (shown n s) = shown (n + m) s.
Proof. unfold shown. cbn. rewrite lines_add, <-(assoc_L (++)). f_equal. lia. Qed.

Section proofs.
Context (C : contract seq_file).

Lemma wp_ct_records n s (Q : Z → seq_file → Prop) :
  - 2 ^ 63 <= index s → index s + Z.of_nat n < 2 ^ 63 →
  Q (index s + Z.of_nat n) (shown n s) → wp C (ct_records n (index s)) Q s.
Proof.
  revert s. induction n as [|n IH]; intros s Hlo Hhi HQ; cbn [ct_records].
  { wp_step. unfold shown in HQ. rewrite Z.add_0_r, app_nil_r in HQ. by destruct s. }
  wp_step. unfold ct_seq_show. do 3 wp_step. unfold ct_seq_next. do 4 wp_step. rewrite s64_small by lia.
  set (s' := set_index _ _). change (index s + 1) with (index s').
  apply IH; [cbn; lia|cbn; lia|]. unfold shown in *. cbn. rewrite lines_S in HQ.
  replace (index s + 1 + Z.of_nat n) with (index s + Z.of_nat (S n)) by lia.
  by rewrite <-!(assoc_L (++)).
Qed.

(** A session shows its records, or nothing when its block is refused, and gives
    the block back. *)
Lemma wp_ct_session n s (Q : unit → seq_file → Prop) :
  - 2 ^ 63 <= index s → index s + Z.of_nat n < 2 ^ 63 →
  (c_ans C (kmalloc sizeof_loff_t) 0 → Q tt s) → Q tt (shown n s) → wp C (ct_session n) Q s.
Proof.
  intros Hlo Hhi Hno HQ. unfold ct_session, ct_seq_start. do 4 wp_step.
  - subst. wp_step. cbn. wp_step. by apply Hno.
  - do 5 wp_step. cbn iota. wp_step. apply (wp_ct_records n (add_live 1 s)); [done..|].
    unfold ct_seq_stop. wp_step. unfold shown, add_live in *. cbn in *.
    by replace (live s + 1 + -1) with (live s) by lia.
Qed.

(** However a reader cuts its reads into sessions, it gets the lines of
    consecutive numbers, from the position on, none twice and none left out, and
    no block is left in use. A session whose block is refused shows nothing,
    which the reader takes for the end of a file that has none, and the next one
    goes on where it was. *)
Theorem ct_sequence ns s :
  - 2 ^ 63 <= index s → index s + Z.of_nat (sum_list ns) < 2 ^ 63 →
  wp C (ct_read ns) (λ _ s', ∃ ms, Forall2 (λ n m, m = n ∨ m = 0%nat) ns ms ∧
    s' = shown (sum_list ms) s ∧ (¬ c_ans C (kmalloc sizeof_loff_t) 0 → ms = ns)) s.
Proof.
  revert s. induction ns as [|n ns IH]; intros s Hlo Hhi; cbn [ct_read].
  { wp_step. exists []. split_and!; [done| |done]. unfold shown. cbn.
    rewrite Z.add_0_r, app_nil_r. by destruct s. }
  change (sum_list (n :: ns)) with (n + sum_list ns)%nat in Hhi. wp_step. apply wp_ct_session; [lia|lia|..].
  - intros Hno. eapply wp_mono; [apply IH; lia|]. intros [] s' (ms & Hms & -> & _).
    exists (0%nat :: ms). split_and!; [by constructor; [right|]|done|done].
  - eapply wp_mono; [apply IH; cbn; lia|]. intros [] s' (ms & Hms & -> & Hall).
    exists (n :: ms). split_and!; [by constructor; [left|]|by rewrite shown_shown|].
    intros Hno. by rewrite Hall.
Qed.
End proofs.

Lemma ct_sequence_witness :
  wp (quiet seq_file) (ct_read [2; 0; 3]%nat) (λ _ s', ∃ ms,
    Forall2 (λ n m, m = n ∨ m = 0%nat) [2; 0; 3]%nat ms ∧ s' = shown (sum_list ms) (SeqFile 8 [] 0) ∧
    (¬ c_ans (quiet seq_file) (kmalloc sizeof_loff_t) 0 → ms = [2; 0; 3]%nat)) (SeqFile 8 [] 0).
Proof. by apply (ct_sequence (quiet seq_file) [2; 0; 3]%nat (SeqFile 8 [] 0)). Defined.

(** ** Loading and unloading *)

Definition seq_entry : resource := Res "proc" 0.

(** A file that cannot be made is not reported. *)
Definition ct_init : K registry Z :=
  entry ← call (kint "create_proc_entry");
  (if entry =? 0 then mret tt else modify (reg_add seq_entry));;
  mret 0.

Definition ct_exit : K registry unit := modify (reg_del seq_entry).

Theorem ct_module C :
  wp C (ct_init;; ct_exit) (λ _ g, holding g = [] ∧ (bad_frees g = [] ∨ bad_frees g = [seq_entry])) empty_registry.
Proof.
  unfold ct_init, ct_exit. wp_go; (split; [done|]); auto.
Qed.
