(* ===== verification/Scullv.v ===== *)
(** * scullv: scullp over vmalloc (src/ldd4/scullv)

    A quantum is an area of [vmalloc]; [pages] of [Scullp] holds such areas, each
    with the count of its first page, the only one that is ever handed out. The
    code is scullp's but where it frees a quantum, in [scullv_mmap], which asks for
    no order, and in the order the module has unless it is loaded with another and
    that an ioctl resets it to: 4, not 0. *)

From stdpp Require Import base tactics numbers list gmap.
From S2P Require Import Prelude KMonad Quanta Registry Scull Scullp ScullpSpec CharModule.
From Stdlib Require Import ZArith Lia.

Open Scope Z_scope.

(** ** What is scullp's *)

Definition scullv_release : K scullp Z := scullp_release.
Definition scullv_follow : Z → K scullp nat := scullp_follow.
Definition scullv_read : Z → Z → K scullp xfer := scullp_read.
(** [vmalloc(PAGE_SIZE << order)] where scullp has [__get_free_pages]: a new area
    of as many bytes, or NULL. *)
Definition scullv_write : list Z → Z → K scullp xfer := scullp_write.
Definition scullv_llseek : Z → Z → Z → K scullp (Z * Z) := scullp_llseek.
Definition scullv_do_deferred_op : K scullp unit := scullp_do_deferred_op.
Definition scullv_defer_op : bool → bool → nat → list (list Z) → Z → K scullp Z := scullp_defer_op.
Definition scullv_aio_read := scullv_defer_op false.
Definition scullv_aio_write := scullv_defer_op true.
Definition scullv_vma_open : K scullp unit := scullp_vma_open.
Definition scullv_vma_close : K scullp unit := scullp_vma_close.
(** [vmalloc_to_page(pageptr)]: the first page of the area. *)
Definition scullv_vma_nopage : Z → Z → Z → K scullp (Z * option nat) := scullp_vma_nopage.

(** ** What is not *)

Definition SCULLV_ORDER : Z := 4.
Definition SCULLV_QSET : Z := 500.

(** The commands have the numbers of scullp's. *)
Definition scullv_ioctl (cmd arg : Z) : K scullp ioctl_result :=
  if negb (_IOC_TYPE cmd =? SCULLP_IOC_MAGIC) then mret (- ENOTTY, None) else
  if _IOC_NR cmd >? SCULLP_IOC_MAXNR then mret (- ENOTTY, None) else
  ok ← (if c_bool (Z.land (_IOC_DIR cmd) _IOC_READ) then call access_ok
        else if c_bool (Z.land (_IOC_DIR cmd) _IOC_WRITE) then call access_ok
        else mret 1);
  if ok =? 0 then mret (- EFAULT, None) else
  if cmd =? SCULLP_IOCRESET then
    modify (set_scullp_qset SCULLV_QSET);;
    modify (set_scullp_order SCULLV_ORDER);;
    mret (0, None)
  else if cmd =? SCULLP_IOCSORDER then ioctl_S set_scullp_order
  else if cmd =? SCULLP_IOCTORDER then ioctl_T set_scullp_order arg
  else if cmd =? SCULLP_IOCGORDER then ioctl_G scullp_order
  else if cmd =? SCULLP_IOCQORDER then ioctl_Q scullp_order
  else if cmd =? SCULLP_IOCXORDER then ioctl_X scullp_order set_scullp_order
  else if cmd =? SCULLP_IOCHORDER then ioctl_H scullp_order set_scullp_order arg
  else if cmd =? SCULLP_IOCSQSET then ioctl_S set_scullp_qset
  else if cmd =? SCULLP_IOCTQSET then ioctl_T set_scullp_qset arg
  else if cmd =? SCULLP_IOCGQSET then ioctl_G scullp_qset
  else if cmd =? SCULLP_IOCQQSET then ioctl_Q scullp_qset
  else if cmd =? SCULLP_IOCXQSET then ioctl_X scullp_qset set_scullp_qset
  else if cmd =? SCULLP_IOCHQSET then ioctl_H scullp_qset set_scullp_qset arg
  else mret (- ENOTTY, None).

(** [vfree]: the area goes, but for a page somebody holds. *)
Definition vfree (a : nat) : K scullp unit :=
  pg ← gets (λ s, pages s !! a) ≫= deref DoubleFree;
  modify (λ s, set_pages
    (if pg_count pg =? 1 then delete a (pages s)
     else <[a := Page (pg_order pg) (pg_count pg - 1) (pg_bytes pg)]> (pages s)) s).

(** [for (i = 0; i < qset; i++) if (dptr->data[i]) vfree(dptr->data[i]);] *)
Fixpoint vfree_array (n i : nat) (arr : list (option nat)) : K scullp unit :=
  match n with
  | O => mret tt
  | S n' =>
      q ← deref OutOfBounds (arr !! i);
      (match q with Some a => vfree a | None => mret tt end);;
      vfree_array n' (S i) arr
  end.

Fixpoint vfree_items (qset : Z) (first : bool) (l : list item) : K scullp unit :=
  match l with
  | [] => mret tt
  | it :: next =>
      (match data it with
       | Some arr => vfree_array (Z.to_nat qset) 0 arr;; modify (add_live (-1))
       | None => mret tt
       end);;
      (if first then mret tt else modify (add_live (-1)));;
      vfree_items qset false next
  end.

Definition scullv_trim : K scullp Z :=
  n ← gets qset;
  v ← gets vmas;
  if c_bool v then mret (- EBUSY) else
  l ← gets items;
  vfree_items n true l;;
  modify (set_size 0);;
  modify (λ s, set_qset (scullp_qset s) s);;
  modify (λ s, set_items [Item None (scullp_order s)] s);;
  mret 0.

Definition scullv_open (f_flags : Z) : K scullp Z :=
  if Z.land f_flags O_ACCMODE =? O_WRONLY then
    ok ← lock_interruptible;
    if ok : bool then scullv_trim;; unlock;; mret 0
    else mret (- ERESTARTSYS)
  else mret 0.

Definition scullv_mmap : K scullp Z :=
  scullv_vma_open;;
  mret 0.

(** [scullv_fops], [scullv_vm_ops], the deferred work, and the memory manager. *)
Definition scullv_handle (o : op) : K scullp Z :=
  match o with
  | Open f_flags => scullv_open f_flags
  | Release => scullv_release
  | Read count f_pos => kfmap retval (scullv_read count f_pos)
  | Write buf f_pos => kfmap retval (scullv_write buf f_pos)
  | Ioctl cmd arg => kfmap fst (scullv_ioctl cmd arg)
  | Llseek off whence f_pos => kfmap fst (scullv_llseek off whence f_pos)
  | AioRead is_sync iocb iovec f_pos => scullv_aio_read is_sync iocb iovec f_pos
  | AioWrite is_sync iocb iovec f_pos => scullv_aio_write is_sync iocb iovec f_pos
  | DeferredWork => kfmap unit0 scullv_do_deferred_op
  | Mmap => scullv_mmap
  | VmaOpen => kfmap unit0 scullv_vma_open
  | VmaClose => kfmap unit0 scullv_vma_close
  | Nopage vm_start vm_pgoff va => kfmap fst (scullv_vma_nopage vm_start vm_pgoff va)
  | PutPage k => kfmap unit0 (put_page k)
  | UserStore k off b => kfmap unit0 (user_store k off b)
  end.

(** ** Scullv beside scullp

    The two do the same, unless scullp frees a block with an order that is not
    its own. *)
Definition same_but_bug {A} (x y : outcome A) : Prop := y = Oops BugOn ∨ x = y.

Lemma same_refl {A} (x : outcome A) : same_but_bug x x.
Proof. by right. Qed.

Lemma same_bind {A B} (m m' : K scullp A) (f g : A → K scullp B) o ts :
  same_but_bug (m o ts) (m' o ts) → (∀ a ts', same_but_bug (f a o ts') (g a o ts')) →
  same_but_bug ((m ≫= f) o ts) ((m' ≫= g) o ts).
Proof.
  intros Hm Hf. unfold mbind, K_bind. destruct Hm as [-> | ->]; [by left|].
  destruct (m' o ts) as [[a ts']| |]; [apply Hf|by right|by right].
Qed.

Lemma vfree_same a order o ts : same_but_bug (vfree a o ts) (free_pages a order o ts).
Proof.
  unfold vfree, free_pages. apply same_bind; [apply same_refl|]. intros pg ts'.
  destruct (pg_order pg =? order); [by right|by left].
Qed.

Lemma vfree_array_same n i arr order o ts :
  same_but_bug (vfree_array n i arr o ts) (free_array n i arr order o ts).
Proof.
  revert i ts. induction n as [|n IH]; intros i ts; cbn; [by right|].
  apply same_bind; [apply same_refl|]. intros q ts1.
  apply same_bind; [destruct q; [apply vfree_same|apply same_refl]|]. intros _ ts2. apply IH.
Qed.

Lemma vfree_items_same n first l o ts :
  same_but_bug (vfree_items n first l o ts) (free_items n first l o ts).
Proof.
  revert first ts. induction l as [|it l IH]; intros first ts; cbn; [by right|].
  apply same_bind.
  { destruct (data it); [|apply same_refl]. apply same_bind; [apply vfree_array_same|].
    intros _ ts1. apply same_refl. }
  intros _ ts1. apply same_bind; [apply same_refl|]. intros _ ts2. apply IH.
Qed.

Lemma scullv_trim_same o ts : same_but_bug (scullv_trim o ts) (scullp_trim o ts).
Proof.
  unfold scullv_trim, scullp_trim. apply same_bind; [apply same_refl|]. intros n ts1.
  apply same_bind; [apply same_refl|]. intros v ts2. destruct (c_bool v); [apply same_refl|].
  apply same_bind; [apply same_refl|]. intros l ts3.
  apply same_bind; [apply vfree_items_same|]. intros _ ts4. apply same_refl.
Qed.

Lemma scullv_open_same f_flags o ts : same_but_bug (scullv_open f_flags o ts) (scullp_open f_flags o ts).
Proof.
  unfold scullv_open, scullp_open. destruct (_ =? _); [|apply same_refl].
  apply same_bind; [apply same_refl|]. intros [] ts1; [|apply same_refl].
  apply same_bind; [apply scullv_trim_same|]. intros _ ts2. apply same_refl.
Qed.

(** Where the order is 0, as it is unless an ioctl changed it. *)
Lemma scullv_mmap_same o t s : wf s → scullv_mmap o (t, s) = scullp_mmap o (t, s).
Proof.
  intros Hwf. assert (dev_order o (t, s) = Done (0, (t, s))) as E.
  { destruct (items s) as [|it l] eqn:El; [by destruct (wf_items _ Hwf)|].
    pose proof (wf_item _ Hwf) as Hi. rewrite El in Hi. apply Forall_cons in Hi as [[Ho _] _].
    unfold dev_order, gets, get, mbind, K_bind. cbn. rewrite El. cbn. by rewrite Ho. }
  unfold scullp_mmap, mbind, K_bind. by rewrite E.
Qed.

(** The command that resets the order to another one than scullp's. *)
Definition resets (op : op) : Prop :=
  match op with Ioctl cmd _ => cmd = SCULLP_IOCRESET | _ => False end.

Lemma scullv_ioctl_same cmd arg : cmd ≠ SCULLP_IOCRESET → scullv_ioctl cmd arg = scullp_ioctl cmd arg.
Proof. intros H. unfold scullv_ioctl, scullp_ioctl. by rewrite (proj2 (Z.eqb_neq cmd SCULLP_IOCRESET) H). Qed.

Lemma mmap_or_not (op : op) : op = Mmap ∨ op ≠ Mmap.
Proof. destruct op; auto. Qed.

Lemma scullv_as_scullp op o ts :
  ¬ resets op → op ≠ Mmap → same_but_bug (scullv_handle op o ts) (scullp_handle op o ts).
Proof.
  intros Hr Hm. destruct op; try apply same_refl; [apply scullv_open_same| |done].
  right. cbn [scullv_handle scullp_handle]. by rewrite scullv_ioctl_same.
Qed.

(** A device as [scullv_init] leaves it. *)
Definition scullv_init_dev (order n : Z) : scullp :=
  Scullp [Item None order] 0 n 0 false order n ∅ [] 0 [] [].

(** What may be called, on a device of order 0. *)
Definition scullv_allowed (s : scullp) (op : op) : Prop := scullp_allowed s op ∧ ¬ resets op.

(** C7: (1) Whatever the order, in any state: a call of scullv but a mapping and
    the ioctl that resets the order does what the same call of scullp does and
    gives the same result, or scullp is stopped because it frees a block with an
    order that is not the block's. (2) On a device of a module loaded with order 0
    (not with its own default, 4), calls without the ioctls that reset or change
    the order or the array size, and with memory for the members of the list: the
    mapping too is scullp's; scullv goes through the very states scullp goes
    through, none of its calls faults, and the mutex is free and no block leaked
    after each. (With order 4 the device faults, [scullv_default_overflow], and
    mappings do not show it, [scullv_order_misaddresses].) *)
Theorem scullv_simulates C n :
  fair_contract C → good_qset n →
  (∀ op o ts, ¬ resets op → op ≠ Mmap →
    scullp_handle op o ts = Oops BugOn ∨ scullv_handle op o ts = scullp_handle op o ts) ∧
  faultless scullv_handle scullv_allowed C (λ s, s = scullv_init_dev 0 n) ∧
  ∀ s, reachable scullv_handle scullv_allowed C (λ s, s = scullv_init_dev 0 n) s →
    reachable scullp_handle scullp_allowed C (λ s, s = scullp_init_dev n) s ∧ idle s ∧
    ∀ op o t, scullv_allowed s op → obeys o C →
      scullv_handle op o (t, s) = scullp_handle op o (t, s).
Proof.
  intros HC Hn. split; [intros; by apply scullv_as_scullp|].
  pose proof (scullp_idle_inductive C n HC Hn) as Hinv.
  assert (∀ s op o t, reachable scullp_handle scullp_allowed C (λ s, s = scullp_init_dev n) s →
    scullv_allowed s op → obeys o C → scullv_handle op o (t, s) = scullp_handle op o (t, s)) as Hsame.
  { intros s op o t Hs [Hop Hr] Ho. pose proof (inv_faultless _ _ _ _ _ Hinv s op o t Hs Hop Ho) as Hf.
    destruct (mmap_or_not op) as [->|Hm].
    - apply scullv_mmap_same. by apply (reachable_inv _ _ _ _ _ _ Hinv Hs).
    - destruct (scullv_as_scullp op o (t, s)) as [E|]; [done..|by rewrite E in Hf|done]. }
  assert (∀ s, reachable scullv_handle scullv_allowed C (λ s, s = scullv_init_dev 0 n) s →
    reachable scullp_handle scullp_allowed C (λ s, s = scullp_init_dev n) s) as Hr.
  { induction 1 as [s Hs|s op o t r t' s' _ IH Hop Ho E|s s' _ IH Hp]; [by apply reach_init| |by eapply reach_peer].
    rewrite Hsame in E by done. destruct Hop as [Hop _]. by eapply reach_call. }
  split.
  - intros s op o t Hs Hop Ho. rewrite Hsame by auto. destruct Hop as [Hop _]. eapply inv_faultless; eauto.
  - intros s Hs. split_and!; [by apply Hr|by eapply reachable_inv, Hr|]. auto.
Qed.

Lemma scullv_simulates_witness :
  faultless scullv_handle scullv_allowed scullp_kernel (λ s, s = scullv_init_dev 0 500) ∧
  ∀ s, reachable scullv_handle scullv_allowed scullp_kernel (λ s, s = scullv_init_dev 0 500) s →
    reachable scullp_handle scullp_allowed scullp_kernel (λ s, s = scullp_init_dev 500) s ∧ idle s ∧
    ∀ op o t, scullv_allowed s op → obeys o scullp_kernel →
      scullv_handle op o (t, s) = scullp_handle op o (t, s).
Proof. apply (scullv_simulates scullp_kernel 500); [apply scullp_kernel_fair|by split]. Defined.

(** As the module is loaded by default, a write past the first member of the list
    overruns its quantum: the member is one page, the device's quanta are sixteen. *)
Lemma scullv_default_overflow :
  run quiet_oracle (scullv_write (replicate 4097 0) (65536 * 500)) (scullv_init_dev SCULLV_ORDER SCULLV_QSET) =
    Oops OutOfBounds.
Proof. vm_compute. reflexivity. Qed.

(** And a mapping does not show the device: of two pages written
    by one call, the second can be read but is a bus error in a mapping. *)
Theorem scullv_order_misaddresses :
  let d := scullv_init_dev SCULLV_ORDER SCULLV_QSET in
  let program :=
    w ← scullv_write (replicate (Z.to_nat 8192) 7) 0; m ← scullv_mmap; r ← scullv_read 1 4096;
    f ← scullv_vma_nopage 0 0 4096; mret (retval w, m, out r, f) in
  match run quiet_oracle program d with
  | Done (r, _) => r = (8192, 0, [Some 7], (VM_FAULT_SIGBUS, None))
  | _ => False
  end.
Proof. vm_compute. reflexivity. Qed.

(** ** Loading and unloading

    As scullp's, but for the trimming. *)
Definition scullv_init (order qset : Z) : K (char_mod scullp) Z := scullp_init order qset.

Definition scullv_cleanup : K (char_mod scullp) unit := char_cleanup scullv_trim.

Lemma wp_same {A} C (m m' : K scullp A) Q s :
  (∀ o ts, same_but_bug (m o ts) (m' o ts)) → wp C m' Q s → wp C m Q s.
Proof.
  intros Hm H o Ho t. specialize (H o Ho t). destruct (Hm o (t, s)) as [E|E]; [by rewrite E in H|by rewrite E].
Qed.

#[export] Instance scullv_trims : Trims scullp scullv_trim.
Proof.
  refine {| device_ok := device_ok (Trims := scullp_trims); device_empty := device_empty (Trims := scullp_trims) |}.
  intros C d Hd. eapply wp_same; [apply scullv_trim_same|]. by apply wp_trim.
Defined.

(** Loading scullv, using it and unloading it gives everything back, the devices
    emptied, whatever step of the load fails. *)
Theorem scullv_module_unloads C qset major n :
  char_contract scullp_trim C → good_qset qset →
  wp C (r ← scullv_init 0 qset;
        if r =? 0 then interfere;; scullv_cleanup;; mret r else mret r)
    (λ r s, r <= 0 ∧ owned [] s ∧
      ∀ l, char_devices s = Some l →
        Forall (λ d, pages d = ∅ ∧ Scullp.live d = lenZ (Scullp.works d)) l)
    (char_fresh major n).
Proof.
  intros HC Hq. wp_step. unfold scullv_init. apply wp_scullp_init; [done|done|done|..].
  - intros z s Hz [Ho He]. rewrite (proj2 (Z.eqb_neq _ _)) by lia. wp_step. split_and!; [lia|done..].
  - intros s Hs Hsl. change (0 =? 0) with true. cbn iota. wp_step. wp_step.
    apply (cc_used _ _ HC) in H. destruct (H Hs) as [Hs' Hsl']. wp_step. unfold scullv_cleanup.
    apply (wp_char_cleanup scullv_trim); [by destruct Hs'|congruence|]. intros s2 [Ho He]. by wp_step.
Qed.
