(* ===== verification/Eeprom.v ===== *)
(** * ee24lc512: a serial EEPROM as a character device
    (src/ldd-johnmadieu/sources/Chapter07/ee24lc512.c)

    Reads and writes go through a buffer of the driver and through transfers on
    the I2C bus; a write is cut where the pages of the chip end. The chip and the
    bus are the class [Chip]. *)

From stdpp Require Import base tactics numbers list strings.
From S2P Require Import Prelude KMonad Quanta Ring.
From Stdlib Require Import ZArith Lia.

Open Scope Z_scope.

Definition EEP_PAGE_SIZE : Z := 128.
Definition EEP_SIZE : Z := 65536.

(** ** The chip

    A write of the bus carries an address of 16 bits and the bytes; the chip
    takes it when all bytes are in one page (and else rolls over in the page).
    Of a transfer that fails nothing is known. *)
Class Chip (C : Type) := {
  chip_mem : C → list cell;
  chip_write : bool → Z → list cell → C → C;
  chip_read : bool → Z → Z → C → list cell;
  chip_size c : lenZ (chip_mem c) = EEP_SIZE;
  chip_write_page a l c : 0 <= a < EEP_SIZE → a mod EEP_PAGE_SIZE + lenZ l <= EEP_PAGE_SIZE →
    chip_mem (chip_write true a l c) = store a l (chip_mem c);
  chip_read_all a n c : 0 <= a → 0 <= n → a + n <= EEP_SIZE →
    chip_read true a n c = slice a n (chip_mem c);
  chip_read_length ok a n c : 0 <= n → lenZ (chip_read ok a n c) <= n
}.

(** ** Data *)

(** The fields of [struct eep_dev], with the chip; [live] counts the blocks in
    use. [data] is [None] while NULL. *)
Record eep (C : Type) := Eep {
  data : option (list cell);
  current_pointer : Z;
  eep_mutex : bool;
  chip : C;
  live : Z
}.
Arguments Eep {C} _ _ _ _ _.
Arguments data {C} _.
Arguments current_pointer {C} _.
Arguments eep_mutex {C} _.
Arguments chip {C} _.
Arguments live {C} _.

Section eeprom.
Context {C : Type} `{!Chip C}.
Implicit Types (s : eep C) (c : C).
Local Abbreviation E := (K (eep C)).

Definition set_data (v : option (list cell)) s : eep C :=
  Eep v (current_pointer s) (eep_mutex s) (chip s) (live s).
Definition set_pointer (v : Z) s : eep C := Eep (data s) v (eep_mutex s) (chip s) (live s).
Definition set_eep_mutex (v : bool) s : eep C := Eep (data s) (current_pointer s) v (chip s) (live s).
Definition set_chip (v : C) s : eep C := Eep (data s) (current_pointer s) (eep_mutex s) v (live s).
Definition add_live (n : Z) s : eep C :=
  Eep (data s) (current_pointer s) (eep_mutex s) (chip s) (live s + n).

#[export] Instance eep_lock : HasLock (eep C) :=
  { lock_of := eep_mutex; set_lock := set_eep_mutex; lock_set b s := eq_refl }.

(** ** Open and release *)

(** The device of the inode is always there. *)
Definition eep_open : E Z :=
  modify (set_pointer 0);;
  z ← call (kmalloc EEP_SIZE);
  if z =? 0 then modify (set_data None);; mret (- ENOMEM)
  else modify (set_data (Some (zeroed EEP_SIZE)));; modify (add_live 1);; mret 0.

Definition eep_release : E Z :=
  d ← gets data;
  match d with
  | Some _ => modify (add_live (-1));; modify (set_data None)
  | None => mret tt
  end;;
  modify (set_pointer 0);;
  mret 0.

(** ** Transfers *)

(** The bytes [reg_addr[0]], [reg_addr[1]] of an address, as the chip reads them. *)
Definition reg_address (a : Z) : Z := Z.lor (Z.shiftl (u8 (Z.shiftr a 8)) 8) (u8 (Z.land a 255)).

Definition eep_data : E (list cell) := gets data ≫= deref NullDeref.

(** [i2c_transfer] of so many messages: it answers their number when all went
    over the bus, and a negative error when one did not. *)
Definition i2c_transfer (num : Z) : kcall :=
  kint (if num =? 1 then "i2c_transfer, 1 message" else "i2c_transfer, 2 messages").

(** The two messages of a read: the address, and [len] bytes into [dev->data]; the
    length of a message has 16 bits. *)
Definition read_transfer (a len : Z) : E unit :=
  d ← eep_data;
  r ← call (i2c_transfer 2);
  s ← get;
  modify (set_data (Some (store 0 (chip_read (r =? 2) (reg_address a) (u16 len) (chip s)) d))).

(** [EINTR] for a fatal signal. The result of the transfer is only reported. *)
Definition eep_read (count f_pos : Z) : E xfer :=
  ok ← lock_interruptible;
  if negb ok then mret (Xfer (- EINTR) [] f_pos) else
  if f_pos >=? EEP_SIZE then unlock;; mret (Xfer 0 [] f_pos) else
  cp ← gets current_pointer;
  if cp >=? EEP_SIZE then unlock;; mret (Xfer 0 [] f_pos) else
  let count := if u64 (cp + count) >? EEP_SIZE then EEP_SIZE - cp else count in
  let count := if count >? EEP_SIZE then EEP_SIZE else count in
  read_transfer cp count;;
  d ← eep_data;
  '(bytes, ok) ← copy_to_user (slice 0 count d);
  if negb ok then unlock;; mret (Xfer (- EIO) bytes f_pos) else
  modify (λ s, set_pointer (current_pointer s + count) s);;
  unlock;;
  mret (Xfer count bytes f_pos).

(** [len] bytes of [data] from [offset] on. *)
Definition transacWrite (reg_addr offset len : Z) : E Z :=
  d ← eep_data;
  if negb (bool_decide (0 <= offset ∧ 0 <= len ∧ offset + len <= lenZ d)) then oops OutOfBounds else
  r ← call (i2c_transfer 1);
  modify (λ s, set_chip (chip_write (r =? 1) (reg_address reg_addr) (slice offset len d) (chip s)) s);;
  if r <? 0 then mret (-1) else mret len.

(** One of the three places where a piece is written: the result is the new
    offset, or what [transacWrite] returned. *)
Definition write_piece (reg_addr offset len : Z) : E Z :=
  r ← transacWrite reg_addr offset len;
  if r <? 0 then mret r else
  modify (λ s, set_pointer (current_pointer s + len) s);;
  mret (offset + len).

(** The loop over whole pages. *)
Fixpoint write_pages (n : nat) (reg_addr offset retval : Z) : E Z :=
  match n with
  | O => mret retval
  | S n =>
      r ← write_piece reg_addr offset EEP_PAGE_SIZE;
      if r <? 0 then mret r else write_pages n (reg_addr + EEP_PAGE_SIZE) (offset + EEP_PAGE_SIZE) r
  end.

(** From the computation of [remain_in_page] on. [count] is a [size_t], the rest
    are [int]s. *)
Definition write_data (count : Z) : E Z :=
  cp ← gets current_pointer;
  let remain_in_page := Z.rem (EEP_PAGE_SIZE - Z.rem cp EEP_PAGE_SIZE) EEP_PAGE_SIZE in
  let nb_page := s32 (u64 (count - remain_in_page) / EEP_PAGE_SIZE) in
  let last_remain := s32 (u64 (count - remain_in_page) mod EEP_PAGE_SIZE) in
  r ← (if remain_in_page >? 0 then write_piece cp 0 remain_in_page else mret 0);
  if r <? 0 then mret r else
  if (nb_page <? 1) && (last_remain <? 1) then mret r else
  let offset := remain_in_page in
  r ← write_pages (Z.to_nat nb_page) (cp + offset) offset r;
  if r <? 0 then mret r else
  let offset := offset + Z.max 0 nb_page * EEP_PAGE_SIZE in
  if last_remain >? 0 then write_piece (cp + offset) offset last_remain else mret r.

(** [buf] is the user's buffer, of [count] bytes. *)
Definition eep_write (buf : list Z) (f_pos : Z) : E Z :=
  ok ← lock_interruptible;
  if negb ok then mret (- EINTR) else
  cp ← gets current_pointer;
  if cp >=? EEP_SIZE then unlock;; mret (- EINVAL) else
  if f_pos >=? EEP_SIZE then unlock;; mret (- EINVAL) else
  let count := lenZ buf in
  let count := if u64 (cp + count) >=? EEP_SIZE then EEP_SIZE - cp else count in
  let count := if count >? EEP_SIZE then EEP_SIZE else count in
  d ← eep_data;
  '(bytes, ok) ← copy_from_user (take (Z.to_nat count) buf);
  modify (set_data (Some (store 0 bytes d)));;
  if negb ok then unlock;; mret (- EFAULT) else
  r ← write_data count;
  unlock;;
  mret r.

(** [if (newpos < 0 || EEP_SIZE)] holds whatever [newpos] is. *)
Definition eep_llseek (off whence f_pos : Z) : E Z :=
  let seek newpos :=
    if (newpos <? 0) || c_bool EEP_SIZE then mret (- EINVAL)
    else modify (set_pointer (s32 newpos));; mret newpos in
  match whence with
  | 0 => seek off
  | 1 => seek (s64 (f_pos + off))
  | _ => mret (- EINVAL)
  end.

(** ** Writing *)

(** The bytes [l] from [a] on; what does not fit goes to the beginning, since
    the chip has 16 bits of address. *)
Definition wrap_store (a : Z) (l mem : list cell) : list cell :=
  store 0 (drop (Z.to_nat (EEP_SIZE - a)) l) (store a (take (Z.to_nat (EEP_SIZE - a)) l) mem).

Lemma reg_address_u16 a : reg_address a = u16 a.
Proof.
  unfold reg_address, u16, u8. change 255 with (Z.ones 8). rewrite Z.land_ones, Z.mod_mod by lia.
  rewrite lor_add by (Z.to_euclidean_division_equations; lia). rewrite Z.shiftr_div_pow2 by lia.
  Z.to_euclidean_division_equations. lia.
Qed.

Lemma store_nil {A} a (l : list A) : store a [] l = l.
Proof. done. Qed.

Lemma wrap_store_fits a l mem : lenZ l <= EEP_SIZE - a → wrap_store a l mem = store a l mem.
Proof. intros. unfold wrap_store. by rewrite drop_ge, take_ge, store_nil by lia. Qed.

Lemma length_wrap_store a l mem : length (wrap_store a l mem) = length mem.
Proof. unfold wrap_store. by rewrite !length_store. Qed.

(** A piece that does not go over the end of the chip follows the others. *)
Lemma wrap_store_piece a k len (d mem : list cell) :
  0 <= a < EEP_SIZE → 0 <= k → 0 <= len → k + len <= lenZ d →
  a + k + len <= EEP_SIZE ∨ a + k = EEP_SIZE →
  wrap_store a (slice 0 (k + len) d) mem
  = store (u16 (a + k)) (slice k len d) (wrap_store a (slice 0 k d) mem).
Proof.
  intros Ha Hk Hlen Hd Hfit. pose proof (length_slice 0 k d) as Hl1. pose proof (length_slice k len d) as Hl2.
  destruct (decide (a + k = EEP_SIZE)) as [He|He].
  - rewrite He, (wrap_store_fits a (slice 0 k d)) by lia.
    unfold wrap_store. replace (EEP_SIZE - a) with k by lia.
    rewrite slice_app by lia. rewrite take_app_length', drop_app_length' by lia. done.
  - rewrite !wrap_store_fits by (rewrite length_slice; lia).
    rewrite slice_app, store_app by lia. rewrite Hl1 by lia.
    unfold u16, EEP_SIZE in *. by rewrite Z.mod_small by lia.
Qed.

(** [s] after [k] bytes of the buffer [d] have been written to the device of [s0]. *)
Definition written (s0 : eep C) (d : list cell) (k : Z) (s : eep C) : Prop :=
  data s = Some d ∧ current_pointer s = current_pointer s0 + k ∧ eep_mutex s = eep_mutex s0 ∧
  live s = live s0 ∧ chip_mem (chip s) = wrap_store (current_pointer s0) (slice 0 k d) (chip_mem (chip s0)).

(** [s] when a transfer failed after [k] bytes. *)
Definition write_failed (s0 : eep C) (d : list cell) (n : Z) (s : eep C) : Prop :=
  data s = Some d ∧ eep_mutex s = eep_mutex s0 ∧ live s = live s0 ∧
  ∃ k, 0 <= k <= n ∧ current_pointer s = current_pointer s0 + k.

Section writes.
Context (K0 : contract (eep C)) (s0 : eep C) (d : list cell).
Context (Hbus : ∀ z, c_ans K0 (i2c_transfer 1) z → z < 0 ∨ z = 1).
Local Abbreviation transfer_fails := (∃ z, c_ans K0 (i2c_transfer 1) z ∧ z < 0).

Lemma wp_write_piece k len n s (Q : Z → eep C → Prop) :
  0 <= current_pointer s0 < EEP_SIZE → 0 <= k → 0 <= len → k + len <= lenZ d → k + len <= n →
  (current_pointer s0 + k) mod EEP_PAGE_SIZE + len <= EEP_PAGE_SIZE →
  current_pointer s0 + k + len <= EEP_SIZE ∨ current_pointer s0 + k = EEP_SIZE →
  written s0 d k s →
  (∀ s', transfer_fails → write_failed s0 d n s' → Q (-1) s') →
  (∀ s', written s0 d (k + len) s' → Q (k + len) s') →
  wp K0 (write_piece (current_pointer s0 + k) k len) Q s.
Proof.
  intros Hcp Hk Hlen Hd Hn Hpage Hfit (E1 & E2 & E3 & E4 & E5) Hbad Hok.
  unfold write_piece, transacWrite, eep_data. wp_step. wp_step. wp_step. wp_step.
  apply (wp_deref _ _ _ _ _ d); [done|].
  rewrite bool_decide_true by lia. cbn [negb].
  wp_step. apply wp_call. intros z Hans. wp_step. wp_step.
  destruct (Z.ltb_spec z 0) as [Hz|Hz]; wp_step.
  - change (-1 <? 0) with true. cbn iota. wp_step.
    apply Hbad; [by exists z|]. split_and!; [done..|]. exists k. split; [lia|done].
  - assert (z = 1) as -> by (destruct (Hbus z Hans); lia).
    rewrite (proj2 (Z.ltb_ge len 0)) by done. wp_step. wp_step. wp_step.
    apply Hok. split_and!; [done|cbn; lia|done..|]. cbn. rewrite reg_address_u16.
    assert (u16 (current_pointer s0 + k) mod EEP_PAGE_SIZE = (current_pointer s0 + k) mod EEP_PAGE_SIZE) as Hu.
    { unfold u16. by apply (mod_mul_mod _ 128 512). }
    assert (0 <= u16 (current_pointer s0 + k) < EEP_SIZE) by (apply Z.mod_pos_bound; done).
    pose proof (length_slice k len d). rewrite chip_write_page by (rewrite ?Hu; lia).
    by rewrite E5, wrap_store_piece.
Qed.

(** The whole pages. *)
Lemma wp_write_pages n : ∀ k m s (Q : Z → eep C → Prop),
  0 <= current_pointer s0 < EEP_SIZE → 0 <= k → k + Z.of_nat n * EEP_PAGE_SIZE <= lenZ d →
  k + Z.of_nat n * EEP_PAGE_SIZE <= m →
  (current_pointer s0 + k) mod EEP_PAGE_SIZE = 0 →
  current_pointer s0 + k + Z.of_nat n * EEP_PAGE_SIZE <= EEP_SIZE ∨ n = O →
  written s0 d k s →
  (∀ s', transfer_fails → write_failed s0 d m s' → Q (-1) s') →
  (∀ s', written s0 d (k + Z.of_nat n * EEP_PAGE_SIZE) s' → Q (k + Z.of_nat n * EEP_PAGE_SIZE) s') →
  wp K0 (write_pages n (current_pointer s0 + k) k k) Q s.
Proof.
  induction n as [|n IH]; intros k m s Q Hcp Hk Hd Hm Hal Hfit Hs Hbad Hok; cbn [write_pages].
  - wp_step. replace k with (k + Z.of_nat 0 * EEP_PAGE_SIZE) at 1 by lia. apply Hok.
    by replace (k + Z.of_nat 0 * EEP_PAGE_SIZE) with k by lia.
  - assert (k + Z.of_nat (S n) * EEP_PAGE_SIZE = k + EEP_PAGE_SIZE + Z.of_nat n * EEP_PAGE_SIZE) as En by lia.
    rewrite En in *. unfold EEP_PAGE_SIZE in *.
    wp_step. apply (wp_write_piece _ _ m); unfold EEP_PAGE_SIZE; [done..|lia|lia|lia|lia| |done| |].
    { left. lia. }
    + intros s' Hf Hs'. change (-1 <? 0) with true. cbn iota. wp_step. auto.
    + intros s' Hs'. rewrite (proj2 (Z.ltb_ge (k + 128) 0)) by lia.
      replace (current_pointer s0 + k + 128) with (current_pointer s0 + (k + 128)) by lia.
      apply (IH (k + 128) m); try done; try lia.
      replace (current_pointer s0 + (k + 128)) with (current_pointer s0 + k + 1 * 128) by lia.
      by rewrite Z.mod_add.
Qed.

(** What is left of the page of [cp], none at its beginning; and the number of
    bytes that go out for a write of [n]: where it ends before the page does, the
    unsigned difference gives 128 too many. *)
Definition page_rest (cp : Z) : Z := Z.rem (EEP_PAGE_SIZE - Z.rem cp EEP_PAGE_SIZE) EEP_PAGE_SIZE.
Definition total (cp n : Z) : Z := if n <? page_rest cp then n + EEP_PAGE_SIZE else n.

Lemma page_rest_spec cp : 0 <= cp < EEP_SIZE →
  0 <= page_rest cp < EEP_PAGE_SIZE ∧ (cp + page_rest cp) mod EEP_PAGE_SIZE = 0 ∧
  cp + page_rest cp <= EEP_SIZE ∧ cp mod EEP_PAGE_SIZE + page_rest cp <= EEP_PAGE_SIZE.
Proof.
  unfold page_rest, EEP_PAGE_SIZE, EEP_SIZE. intros.
  rewrite (Z.rem_mod_nonneg cp), Z.rem_mod_nonneg by (Z.to_euclidean_division_equations; lia).
  Z.to_euclidean_division_equations. lia.
Qed.

(** The [int]s the division gives, on both sides of the underflow. *)
Lemma pages_and_rest cp n : 0 <= cp < EEP_SIZE → 0 <= n <= EEP_SIZE →
  let r := page_rest cp in
  let nb := s32 (u64 (n - r) / EEP_PAGE_SIZE) in let last := s32 (u64 (n - r) mod EEP_PAGE_SIZE) in
  -1 <= nb ∧ 0 <= last < EEP_PAGE_SIZE ∧ r + Z.max 0 nb * EEP_PAGE_SIZE + last = total cp n ∧
  (nb = -1 ↔ n < r).
Proof.
  intros Hcp Hn r nb last. destruct (page_rest_spec cp Hcp) as (Hr & _). fold r in Hr.
  unfold total. fold r. unfold EEP_PAGE_SIZE, EEP_SIZE in *.
  destruct (Z.ltb_spec n r).
  - assert (u64 (n - r) = 2 ^ 64 + (n - r)) as E.
    { unfold u64. rewrite <-(Z.mod_add _ 1), Z.mod_small by lia. lia. }
    assert (nb = -1) as Enb.
    { unfold nb. rewrite E. replace ((2 ^ 64 + (n - r)) / 128) with (2 ^ 57 - 1)
        by (Z.to_euclidean_division_equations; lia). done. }
    assert (last = 128 + (n - r)) as El.
    { unfold last. rewrite E, s32_small; Z.to_euclidean_division_equations; lia. }
    lia.
  - assert (nb = (n - r) / 128 ∧ last = (n - r) mod 128) as [Enb El].
    { unfold nb, last. rewrite u64_small by lia.
      rewrite !s32_small; Z.to_euclidean_division_equations; lia. }
    Z.to_euclidean_division_equations. lia.
Qed.

Lemma total_fits cp n : 0 <= cp < EEP_SIZE → 0 <= n <= EEP_SIZE - cp →
  total cp n <= EEP_SIZE ∧
  (total cp n <= EEP_SIZE - cp ∨ cp + page_rest cp = EEP_SIZE ∧ n < page_rest cp).
Proof.
  intros Hcp Hn. destruct (page_rest_spec cp Hcp) as (Hr & Hal & _).
  unfold total, EEP_PAGE_SIZE, EEP_SIZE in *. destruct (Z.ltb_spec n (page_rest cp)); [|lia].
  Z.to_euclidean_division_equations. lia.
Qed.

(** Everything goes out, or a transfer fails and the result is -1. *)
Lemma wp_write_data n (Q : Z → eep C → Prop) :
  let cp := current_pointer s0 in
  data s0 = Some d → lenZ d = EEP_SIZE → 0 <= cp < EEP_SIZE → 0 <= n <= EEP_SIZE - cp →
  (∀ s', transfer_fails → write_failed s0 d (total cp n) s' → Q (-1) s') →
  (∀ s', written s0 d (total cp n) s' → Q (total cp n) s') →
  wp K0 (write_data n) Q s0.
Proof.
  intros cp Hdata Hlen Hcp Hn Hbad Hok.
  destruct (page_rest_spec cp Hcp) as (Hr & Hal & Hend & Hpage).
  destruct (pages_and_rest cp n) as (Hnb & Hlast & Htot & Hneg); [done|lia|].
  destruct (total_fits cp n Hcp Hn) as (Hmax & Hfit).
  unfold write_data. wp_step. wp_step. wp_step. fold (page_rest (current_pointer s0)). fold cp.
  set (r := page_rest cp) in *. cbn zeta in Hnb, Hlast, Htot, Hneg.
  set (nb := s32 (u64 (n - r) / EEP_PAGE_SIZE)) in *. set (lst := s32 (u64 (n - r) mod EEP_PAGE_SIZE)) in *.
  assert (r <= total cp n - lst) by (unfold EEP_PAGE_SIZE in *; lia).
  assert (written s0 d 0 s0) as Hs0.
  { unfold written. rewrite slice_0, wrap_store_fits by (cbn; lia). split_and!; try done. lia. }
  eapply (wp_mono _ _ (λ v s, v = -1 ∧ transfer_fails ∧ write_failed s0 d (total cp n) s ∨
    v = r ∧ written s0 d r s)).
  { destruct (r >? 0) eqn:Hr0; zbool; cbn iota; [|wp_step; right; replace r with 0 by lia; done].
    replace cp with (current_pointer s0 + 0) at 1 by lia.
    apply (wp_write_piece _ _ (total cp n)); rewrite ?Z.add_0_r; try done; try lia; auto. }
  intros v s1 [(-> & Hf & Hs1)|(-> & Hs1)]; [change (-1 <? 0) with true; cbn iota; wp_step; auto|].
  rewrite (proj2 (Z.ltb_ge r 0)) by lia. cbn iota.
  destruct ((nb <? 1) && (lst <? 1)) eqn:Hnone; cbn iota; [|clear Hnone].
  { zbool. wp_step. replace r with (total cp n) by lia. apply Hok. by replace (total cp n) with r by lia. }
  wp_step. eapply (wp_mono _ _ (λ v s, v = -1 ∧ transfer_fails ∧ write_failed s0 d (total cp n) s ∨
    v = total cp n - lst ∧ written s0 d (total cp n - lst) s)).
  { replace (total cp n - lst) with (r + Z.of_nat (Z.to_nat nb) * EEP_PAGE_SIZE) by lia.
    apply (wp_write_pages _ _ (total cp n)); try done; unfold EEP_PAGE_SIZE in *; try lia; auto. }
  intros v s2 [(-> & Hf & Hs2)|(-> & Hs2)]; [change (-1 <? 0) with true; cbn iota; wp_step; auto|].
  replace (r + 0 `max` nb * EEP_PAGE_SIZE) with (total cp n - lst) by lia.
  rewrite (proj2 (Z.ltb_ge (total cp n - lst) 0)) by lia. cbn iota.
  destruct (lst >? 0) eqn:Hl; zbool; cbn iota.
  - apply (wp_write_piece _ _ (total cp n)); replace (total cp n - lst + lst) with (total cp n) by lia; try done; try lia; auto.
    replace (total cp n - lst) with (r + 0 `max` nb * EEP_PAGE_SIZE) by lia.
    rewrite Z.add_assoc, Z.mod_add by done. fold cp. lia.
  - wp_step. replace (total cp n - lst) with (total cp n) in * by lia. by apply Hok.
Qed.
End writes.

(** ** The entry points *)

(** The state of the device between two calls, while a file is open. *)
Definition opened s : Prop :=
  (∃ d, data s = Some d ∧ lenZ d = EEP_SIZE) ∧ 0 <= current_pointer s < 2 * EEP_SIZE ∧
  eep_mutex s = false ∧ live s = 1.

(** What the calls need of the kernel: documented answers, a bus that carries all
    messages or reports an error, and other tasks that leave the device as it is
    between calls. *)
Definition eep_contract (K0 : contract (eep C)) : Prop :=
  (∀ (k : kcall) z, c_ans K0 k z → doc_ans k z) ∧
  (∀ num z, num = 1 ∨ num = 2 → c_ans K0 (i2c_transfer num) z → z < 0 ∨ z = num) ∧
  ∀ s s', opened s → c_rely K0 s s' → opened s'.

(** A service that can answer something else than 0. *)
Definition refuses (K0 : contract (eep C)) (k : kcall) : Prop := ∃ z, c_ans K0 k z ∧ z ≠ 0.

(** A bus that can fail to carry [num] messages. *)
Definition bus_fails (K0 : contract (eep C)) (num : Z) : Prop := ∃ z, c_ans K0 (i2c_transfer num) z ∧ z < 0.

(** The buffer of the driver when [buf] is in it. *)
Definition loaded (d : list cell) (buf : list Z) : list cell := store 0 (Some <$> buf) d.

(** What a write from [s1] on ends in. [n] is the length, clipped to the chip. *)
Definition write_outcome (K0 : contract (eep C)) (buf : list Z) (f_pos : Z) s1 (v : Z) s2 : Prop :=
  let cp := current_pointer s1 in
  let n := Z.min (lenZ buf) (EEP_SIZE - cp) in
  v = - EINTR ∧ s2 = s1 ∧ refuses K0 mutex_lock_intr ∨
  v = - EINVAL ∧ s2 = s1 ∧ (EEP_SIZE <= cp ∨ EEP_SIZE <= f_pos) ∨
  cp < EEP_SIZE ∧ f_pos < EEP_SIZE ∧ opened s2 ∧
  ((v = - EFAULT ∧ chip s2 = chip s1 ∧ current_pointer s2 = cp ∧ refuses K0 (copy_user n)) ∨
   (v = -1 ∧ bus_fails K0 1 ∧ (∃ k, 0 <= k <= total cp n ∧ current_pointer s2 = cp + k)) ∨
   (v = total cp n ∧ current_pointer s2 = cp + total cp n ∧ ∃ d, data s1 = Some d ∧
    chip_mem (chip s2) = wrap_store cp (slice 0 (total cp n) (loaded d (take (Z.to_nat n) buf))) (chip_mem (chip s1)))).

Lemma clip_min cp n : 0 <= cp < EEP_SIZE → 0 <= n < 2 ^ 63 →
  (let count := if u64 (cp + n) >=? EEP_SIZE then EEP_SIZE - cp else n in
   if count >? EEP_SIZE then EEP_SIZE else count) = Z.min n (EEP_SIZE - cp).
Proof.
  intros. cbn zeta. unfold EEP_SIZE in *. rewrite u64_small by lia. rewrite Z.geb_leb, Z.gtb_ltb.
  destruct (Z.leb_spec 65536 (cp + n)); cbn iota;
    match goal with |- context [?a <? ?b] => destruct (Z.ltb_spec a b) end; lia.
Qed.

(** The common beginning of the calls, and their end. *)
Lemma wp_lock_opened K0 s (Q : bool → eep C → Prop) :
  eep_contract K0 → opened s →
  (∀ s1, c_rely K0 s s1 → opened s1 → Q true (set_eep_mutex true s1)) →
  (∀ s1, c_rely K0 s s1 → refuses K0 mutex_lock_intr → Q false s1) →
  wp K0 lock_interruptible Q s.
Proof.
  intros (_ & _ & Hrely) Hs Ht Hf. apply wp_lock_interruptible.
  - intros s1 Hr. by destruct (Hrely _ _ Hs Hr) as (_ & _ & ? & _).
  - intros s1 z Hr _ _. eauto.
  - intros s1 z Hr Hz Hz0. apply Hf; [done|by exists z].
Qed.

Lemma wp_unlock_ret {A} K0 (v : A) s (Q : A → eep C → Prop) :
  eep_mutex s = true → Q v (set_eep_mutex false s) → wp K0 (unlock;; mret v) Q s.
Proof. intros Hl HQ. wp_step. apply wp_unlock; [done|]. by wp_step. Qed.

Lemma set_eep_mutex_back s : eep_mutex s = false → set_eep_mutex false (set_eep_mutex true s) = s.
Proof. destruct s. cbn. by intros ->. Qed.

(** A write, on every branch: refused by a signal or because the pointer or
    the file position is at the end, stopped by a fault of the user page with the
    chip untouched, stopped by the bus with -1 and the pointer where the transfer
    failed, or finished: then the bytes of the buffer are in the chip from the
    pointer on, and the pointer and the result have advanced by [total], which is
    the length clipped to the chip when that reaches the end of the page, and 128
    more (of stale bytes) when it does not. *)
Theorem eep_write_spec K0 buf f_pos s :
  eep_contract K0 → opened s → lenZ buf < 2 ^ 63 →
  wp K0 (eep_write buf f_pos) (λ v s2, ∃ s1, c_rely K0 s s1 ∧ write_outcome K0 buf f_pos s1 v s2) s.
Proof.
  intros HK Hs Hbuf. unfold eep_write. wp_step. apply wp_lock_opened; [done..| |].
  2: { intros s1 Hr Href. cbn. wp_step. exists s1. split; [done|]. by left. }
  intros s1 Hr ((d & Hd & Hlen) & Hcp & Hm & Hl). cbn [negb].
  wp_step. wp_step. cbn [current_pointer set_eep_mutex].
  destruct (current_pointer s1 >=? EEP_SIZE) eqn:Hcp1; zbool; cbn iota.
  { apply wp_unlock_ret; [done|]. rewrite set_eep_mutex_back by done. exists s1. split; [done|]. right. left. auto. }
  destruct (f_pos >=? EEP_SIZE) eqn:Hfp; zbool; cbn iota.
  { apply wp_unlock_ret; [done|]. rewrite set_eep_mutex_back by done. exists s1. split; [done|]. right. left. auto. }
  rewrite clip_min by lia. set (n := Z.min (lenZ buf) (EEP_SIZE - current_pointer s1)).
  assert (lenZ (take (Z.to_nat n) buf) = n) as Hn by (rewrite length_take; lia).
  unfold eep_data. wp_step. wp_step. wp_step. apply (wp_deref _ _ _ _ _ d); [done|].
  wp_step. apply wp_copy_from_user; rewrite ?Hn; [intros z; by apply HK| |].
  - intros z Hz _. wp_step. cbn. wp_step. wp_step. fold (loaded d (take (Z.to_nat n) buf)).
    set (d' := loaded d (take (Z.to_nat n) buf)).
    assert (lenZ d' = EEP_SIZE) as Hlen' by (unfold d', loaded; by rewrite length_store).
    destruct (total_fits (current_pointer s1) n) as [Htot _]; [lia..|].
    apply (wp_write_data _ _ d'); cbn [current_pointer data set_data set_eep_mutex];
      [by intros z1; apply HK; left|done..|lia|lia| |].
    + intros s2 (z1 & ? & ?) (E1 & E2 & E3 & k & Hk & E4). cbn in E2, E3, E4.
      apply wp_unlock_ret; [by rewrite E2|]. exists s1. split; [done|]. right. right. split_and!; [done..| |].
      * split_and!; cbn; [by exists d'|lia|lia|done|lia].
      * right. left. split_and!; [done|by exists z1|]. by exists k.
    + intros s2 (E1 & E2 & E3 & E4 & E5). cbn in E2, E3, E4, E5.
      assert (0 <= total (current_pointer s1) n) by (unfold total, EEP_PAGE_SIZE; destruct (_ <? _); lia).
      apply wp_unlock_ret; [by rewrite E3|]. exists s1. split; [done|]. right. right. split_and!; [done..| |].
      * split_and!; cbn; [by exists d'|lia|lia|done|lia].
      * right. right. split_and!; [done..|]. by exists d.
  - intros z l Hz Hz0 Hll. wp_step. cbn. wp_step. apply wp_unlock_ret; [done|].
    exists s1. split; [done|]. right. right. split_and!; [done..| |].
    + split_and!; cbn; [|lia|lia|done|lia]. exists (store 0 l d). by rewrite length_store.
    + left. split_and!; [done..|by exists z].
Qed.

(** What a read from [s1] on ends in. *)
Definition read_outcome (K0 : contract (eep C)) (count f_pos : Z) s1 (v : xfer) s2 : Prop :=
  let cp := current_pointer s1 in
  let n := Z.min count (EEP_SIZE - cp) in
  pos v = f_pos ∧
  (retval v = - EINTR ∧ out v = [] ∧ s2 = s1 ∧ refuses K0 mutex_lock_intr ∨
   retval v = 0 ∧ out v = [] ∧ s2 = s1 ∧ (EEP_SIZE <= cp ∨ EEP_SIZE <= f_pos) ∨
   cp < EEP_SIZE ∧ f_pos < EEP_SIZE ∧ opened s2 ∧ chip s2 = chip s1 ∧
   ((retval v = - EIO ∧ current_pointer s2 = cp ∧ refuses K0 (copy_user n)) ∨
    (retval v = n ∧ current_pointer s2 = cp + n ∧ lenZ (out v) = n ∧
     (bus_fails K0 2 ∨
      out v = (if n =? EEP_SIZE then default [] (data s1) else slice cp n (chip_mem (chip s1))))))).

Lemma clip_min_read cp n : 0 <= cp < EEP_SIZE → 0 <= n < 2 ^ 63 →
  (let count := if u64 (cp + n) >? EEP_SIZE then EEP_SIZE - cp else n in
   if count >? EEP_SIZE then EEP_SIZE else count) = Z.min n (EEP_SIZE - cp).
Proof.
  intros. cbn zeta. unfold EEP_SIZE in *. rewrite u64_small by lia. rewrite !Z.gtb_ltb.
  destruct (Z.ltb_spec 65536 (cp + n)); cbn iota;
    match goal with |- context [?a <? ?b] => destruct (Z.ltb_spec a b) end; lia.
Qed.

(** What the bus leaves in the buffer. *)
Lemma read_data ok cp n d c :
  0 <= cp < EEP_SIZE → 0 <= n <= EEP_SIZE - cp → lenZ d = EEP_SIZE →
  let d' := store 0 (chip_read ok (reg_address cp) (u16 n) c) d in
  lenZ d' = EEP_SIZE ∧
  (ok = true → slice 0 n d' = if n =? EEP_SIZE then d else slice cp n (chip_mem c)).
Proof.
  intros Hcp Hn Hd d'. split; [unfold d'; by rewrite length_store|]. intros ->. unfold d'.
  rewrite reg_address_u16. assert (u16 cp = cp) as -> by (apply Z.mod_small; done).
  rewrite chip_read_all by (unfold u16, EEP_SIZE in *; Z.to_euclidean_division_equations; lia).
  destruct (Z.eqb_spec n EEP_SIZE) as [->|Hne].
  - change (u16 EEP_SIZE) with 0. rewrite slice_0, store_nil, <-Hd. apply slice_all.
  - assert (u16 n = n) as -> by (apply Z.mod_small; unfold EEP_SIZE in *; lia).
    pose proof (chip_size c). pose proof (length_slice cp n (chip_mem c)) as Hl.
    rewrite <-Hl at 1 by lia. apply slice_store; lia.
Qed.

(** A read, on every branch: refused by a signal or at the end, stopped by a
    fault of the user page with the pointer unmoved, or finished with the length
    clipped to the chip. When the bus worked the user has the bytes of the chip from the
    pointer on, but for a read of the whole chip, whose length does not fit the
    message: it returns what the buffer held. A failure of the bus is not reported. *)
Theorem eep_read_spec K0 count f_pos s :
  eep_contract K0 → opened s → 0 <= count < 2 ^ 63 →
  wp K0 (eep_read count f_pos) (λ v s2, ∃ s1, c_rely K0 s s1 ∧ read_outcome K0 count f_pos s1 v s2) s.
Proof.
  intros HK Hs Hcount. unfold eep_read. wp_step. apply wp_lock_opened; [done..| |].
  2: { intros s1 Hr Href. cbn. wp_step. exists s1. split; [done|]. split; [done|]. by left. }
  intros s1 Hr ((d & Hd & Hlen) & Hcp & Hm & Hl). cbn [negb].
  destruct (f_pos >=? EEP_SIZE) eqn:Hfp; zbool; cbn iota.
  { apply wp_unlock_ret; [done|]. rewrite set_eep_mutex_back by done.
    exists s1. split; [done|]. split; [done|]. right. left. auto. }
  wp_step. wp_step. cbn [current_pointer set_eep_mutex].
  destruct (current_pointer s1 >=? EEP_SIZE) eqn:Hcp1; zbool; cbn iota.
  { apply wp_unlock_ret; [done|]. rewrite set_eep_mutex_back by done.
    exists s1. split; [done|]. split; [done|]. right. left. auto. }
  rewrite clip_min_read by lia. set (n := Z.min count (EEP_SIZE - current_pointer s1)).
  unfold read_transfer, eep_data. wp_step. wp_step. wp_step. wp_step. apply (wp_deref _ _ _ _ _ d); [done|].
  wp_step. apply wp_call. intros z Hz. wp_step. wp_step. wp_step. cbn [chip set_eep_mutex].
  set (ok := z =? 2). set (d' := store 0 _ d).
  destruct (read_data ok (current_pointer s1) n d (chip s1)) as [Hlen' Hd']; [lia..|done|]. fold d' in Hlen', Hd'.
  wp_step. wp_step. wp_step. apply (wp_deref _ _ _ _ _ d'); [done|].
  assert (lenZ (slice 0 n d') = n) as Hsl by (apply length_slice; lia).
  wp_step. apply wp_copy_to_user. rewrite Hsl. intros lft Hlft.
  destruct (lft =? 0) eqn:Hl0; zbool; cbn [negb].
  - wp_step. wp_step. apply wp_unlock_ret; [done|]. exists s1. split; [done|]. split; [done|]. right. right.
    split_and!; [done..| |done|].
    { split_and!; cbn; [by exists d'|lia|lia|done|lia]. }
    right. cbn [retval out]. subst lft. rewrite Nat.sub_0_r, firstn_all. split_and!; [done..|].
    destruct ok eqn:Hok; [right; rewrite Hd; by apply Hd'|left]. exists z. split; [done|].
    unfold ok in Hok. zbool. destruct HK as (_ & Hb & _). destruct (Hb 2 z); [by right|done|lia|done].
  - apply wp_unlock_ret; [done|]. exists s1. split; [done|]. split; [done|]. right. right.
    split_and!; [done..| |done|].
    + split_and!; cbn; [by exists d'|lia|lia|done|lia].
    + left. split_and!; [done..|by exists lft].
Qed.

(** ** Open and release *)

Definition closed s : Prop := data s = None ∧ eep_mutex s = false ∧ live s = 0.

Lemma wp_eep_open K0 s (Q : Z → eep C → Prop) :
  closed s →
  (c_ans K0 (kmalloc EEP_SIZE) 0 → Q (- ENOMEM) (set_data None (set_pointer 0 s))) →
  Q 0 (Eep (Some (zeroed EEP_SIZE)) 0 false (chip s) 1) →
  wp K0 eep_open Q s.
Proof.
  intros (Hd & Hm & Hl) Hno Hok. unfold eep_open. wp_step. wp_step. wp_step. wp_step.
  wp_step; wp_step; wp_step; [subst; wp_step; auto|]. wp_step. wp_step. wp_step.
  unfold add_live, set_data, set_pointer. cbn. by rewrite Hl, Hm.
Qed.

Lemma wp_eep_release K0 s (Q : Z → eep C → Prop) :
  opened s → (∀ s', closed s' → chip s' = chip s → Q 0 s') → wp K0 eep_release Q s.
Proof.
  intros ((d & Hd & _) & _ & Hm & Hl) HQ. unfold eep_release. wp_step. wp_step. wp_step. rewrite Hd.
  do 6 wp_step.
  apply HQ; [|done]. split_and!; [done..|]. cbn. lia.
Qed.

(** No position can be sought: the condition that guards the update holds
    always, so that the result is an error and the device unchanged. *)
Lemma eep_llseek_fails off whence f_pos o t s :
  eep_llseek off whence f_pos o (t, s) = Done (- EINVAL, (t, s)).
Proof.
  unfold eep_llseek, c_bool. change (negb (EEP_SIZE =? 0)) with true. rewrite !orb_true_r.
  destruct whence as [|[]|]; done.
Qed.

(** ** The device as a state machine *)

Inductive eep_op :=
| EOpen
| ERelease
| ERead (count f_pos : Z)
| EWrite (buf : list Z) (f_pos : Z)
| ESeek (off whence f_pos : Z).

Definition eep_handle (op : eep_op) : E Z :=
  match op with
  | EOpen => eep_open
  | ERelease => eep_release
  | ERead count f_pos => kfmap retval (eep_read count f_pos)
  | EWrite buf f_pos => eep_write buf f_pos
  | ESeek off whence f_pos => eep_llseek off whence f_pos
  end.

(** One file at a time: the device is opened when it is closed, the other calls
    need an open file. The kernel passes no length above [LONG_MAX]. *)
Definition eep_allowed s (op : eep_op) : Prop :=
  match op with
  | EOpen => data s = None
  | ERead count _ => is_Some (data s) ∧ 0 <= count < 2 ^ 63
  | EWrite buf _ => is_Some (data s) ∧ lenZ buf < 2 ^ 63
  | _ => is_Some (data s)
  end.

(** A chip that is bound to the driver, and what the driver must find in memory:
    one block while it is open, none else. *)
Definition eep_init s : Prop := ∃ c, s = Eep None 0 false c 0.
Definition eep_inv s : Prop := opened s ∨ closed s.

Lemma write_outcome_opened K0 buf f_pos s1 v s2 :
  opened s1 → write_outcome K0 buf f_pos s1 v s2 → opened s2.
Proof. intros ? [(_ & -> & _)|[(_ & -> & _)|(_ & _ & ? & _)]]; done. Qed.

Lemma read_outcome_opened K0 count f_pos s1 v s2 :
  opened s1 → read_outcome K0 count f_pos s1 v s2 → opened s2.
Proof. intros ? (_ & [(_ & _ & -> & _)|[(_ & _ & -> & _)|(_ & _ & ? & _)]]); done. Qed.

Lemma eep_inv_data s : eep_inv s → is_Some (data s) → opened s.
Proof. intros [?|(Hd & _)] [d Hd']; [done|congruence]. Qed.

Lemma eep_inv_closed s : eep_inv s → data s = None → closed s.
Proof. intros [((d & Hd & _) & _)|?] Hd'; [congruence|done]. Qed.

Lemma eep_inductive K0 :
  eep_contract K0 → (∀ s s', closed s → c_rely K0 s s' → closed s') →
  inductive_inv eep_handle eep_allowed K0 eep_init eep_inv.
Proof.
  intros HK Hcl. split_and!.
  - intros s [c ->]. by right.
  - intros s op Hs Hop. destruct op as [| |count f_pos|buf f_pos|off whence f_pos]; cbn in *.
    + apply eep_inv_closed in Hs; [|done]. apply wp_eep_open; [done| |].
      * intros _. right. by destruct Hs as (_ & ? & ?).
      * left. split_and!; [by exists (zeroed EEP_SIZE)|done..].
    + apply wp_eep_release; [by apply eep_inv_data|]. intros s' ? _. by right.
    + destruct Hop as [Hop Hc]. apply wp_kfmap. eapply wp_mono; [apply eep_read_spec; [done|by apply eep_inv_data|done]|].
      intros v s' (s1 & Hr & Ho). left. eapply read_outcome_opened, Ho. eapply HK; [|done]. by apply eep_inv_data.
    + destruct Hop as [Hop Hc]. eapply wp_mono; [apply eep_write_spec; [done|by apply eep_inv_data|done]|].
      intros v s' (s1 & Hr & Ho). left. eapply write_outcome_opened, Ho. eapply HK; [|done]. by apply eep_inv_data.
    + intros o Ho t. by rewrite eep_llseek_fails.
  - intros s s' [Hs|Hs] Hr; [left; by eapply HK|right; by eapply Hcl].
Qed.

(** With one file open at a time no sequence of calls faults or hangs, under
    any documented answers of the kernel and the bus and with other tasks using
    the device as well; the mutex is free after each call, and the buffer is
    allocated once while the file is open and freed when it is closed. *)
Theorem eep_faultless K0 :
  eep_contract K0 → (∀ s s', closed s → c_rely K0 s s' → closed s') →
  faultless eep_handle eep_allowed K0 eep_init ∧
  ∀ s, reachable eep_handle eep_allowed K0 eep_init s → opened s ∨ closed s.
Proof.
  intros HK Hcl. pose proof (eep_inductive K0 HK Hcl) as Hinv.
  split; [by eapply inv_faultless|]. intros s. by apply (reachable_inv _ _ _ _ eep_inv).
Qed.

(** ** With a kernel that has memory and a bus that works *)

Definition bus_works (k : kcall) (z : Z) : Prop :=
  (k = i2c_transfer 1 → z = 1) ∧ (k = i2c_transfer 2 → z = 2).

Definition eep_quiet : contract (eep C) :=
  Contract (λ k z, good_ans k z ∧ bus_works k z) alone False.

Lemma eep_quiet_contract : eep_contract eep_quiet.
Proof.
  split_and!; [by intros k z [[? _] _]| |].
  - intros num z [-> | ->] [_ [H1 H2]]; right; auto.
  - intros s s' ? Hr. change (s = s') in Hr. by subst s'.
Qed.

Lemma eep_quiet_grants :
  ¬ refuses eep_quiet mutex_lock_intr ∧ (∀ n, ¬ refuses eep_quiet (copy_user n)) ∧
  ¬ bus_fails eep_quiet 1 ∧ ¬ bus_fails eep_quiet 2.
Proof.
  split_and!; [|intros n|..]; intros (z & [[_ Hg] [H1 H2]] & Hz); [by apply Hz..| |].
  - rewrite H1 in Hz by done. lia.
  - rewrite H2 in Hz by done. lia.
Qed.

Lemma loaded_slice d l n m : lenZ l = n → 0 <= m → n + m <= lenZ d →
  slice 0 (n + m) (loaded d l) = (Some <$> l) ++ slice n m d.
Proof.
  intros Hl Hm Hd. unfold loaded. assert (lenZ (Some <$> l) = n) as Hl' by (by rewrite length_fmap).
  rewrite slice_app by lia. f_equal; [rewrite <-Hl' at 1; apply slice_store; lia|].
  apply slice_store_disjoint; lia.
Qed.

(** What a write then does: the bytes of the buffer, and in front of the end of
    a page 128 stale ones. *)
Lemma wp_eep_write_quiet buf f_pos s d (Q : Z → eep C → Prop) :
  let cp := current_pointer s in
  let n := Z.min (lenZ buf) (EEP_SIZE - cp) in
  let m := total cp n in
  opened s → data s = Some d → lenZ buf < 2 ^ 63 → cp < EEP_SIZE → f_pos < EEP_SIZE →
  (∀ s', opened s' → current_pointer s' = cp + m →
    chip_mem (chip s') = wrap_store cp ((Some <$> take (Z.to_nat n) buf) ++ slice n (m - n) d) (chip_mem (chip s)) →
    Q m s') →
  wp eep_quiet (eep_write buf f_pos) Q s.
Proof.
  intros cp n m Hs Hd Hbuf Hcp Hf HQ.
  destruct eep_quiet_grants as (Hno1 & Hno2 & Hno3 & Hno4). pose proof Hs as (Hd' & [Hcp0 _] & _).
  assert (lenZ d = EEP_SIZE) as Hlen by (destruct Hd' as (d1 & ? & ?); congruence).
  assert (0 <= n <= EEP_SIZE - cp) as Hn by lia.
  destruct (total_fits cp n) as [Hm _]; [lia|lia|]. fold m in Hm.
  assert (n <= m) by (unfold m, total, EEP_PAGE_SIZE; destruct (_ <? _); lia).
  eapply wp_mono; [by apply eep_write_spec; [apply eep_quiet_contract|..]|]. cbn beta.
  intros v s' (s1 & Hr & Ho). change (s = s1) in Hr. subst s1.
  destruct Ho as [(_ & _ & ?)|[(_ & _ & ?)|(_ & _ & Hs' & Ho)]]; [done|lia|].
  destruct Ho as [(_ & _ & _ & Hr)|[(_ & ? & _)|(-> & Hp & d2 & Hd2 & Hmem)]]; [by edestruct Hno2|done|].
  apply HQ; [done..|]. rewrite Hmem. simplify_eq. fold cp n m.
  replace m with (n + (m - n)) at 1 by lia. rewrite loaded_slice; [done|rewrite length_take; lia|lia|lia].
Qed.

Lemma wp_eep_read_quiet count f_pos s d (Q : xfer → eep C → Prop) :
  let cp := current_pointer s in
  let n := Z.min count (EEP_SIZE - cp) in
  opened s → data s = Some d → 0 <= count < 2 ^ 63 → cp < EEP_SIZE → f_pos < EEP_SIZE →
  (∀ s', opened s' → chip s' = chip s → current_pointer s' = cp + n →
    Q (Xfer n (if n =? EEP_SIZE then d else slice cp n (chip_mem (chip s))) f_pos) s') →
  wp eep_quiet (eep_read count f_pos) Q s.
Proof.
  intros cp n Hs Hd Hcount Hcp Hf HQ. destruct eep_quiet_grants as (Hno1 & Hno2 & Hno3 & Hno4).
  eapply wp_mono; [by apply eep_read_spec; [apply eep_quiet_contract|..]|]. cbn beta.
  intros [r bytes p] s' (s1 & Hr & Hp & Ho). change (s = s1) in Hr. subst s1. cbn in Hp, Ho. subst p.
  destruct Ho as [(_ & _ & _ & ?)|[(_ & _ & _ & ?)|(_ & _ & Hs' & Hc & Ho)]]; [done|lia|].
  destruct Ho as [(_ & _ & Hr)|(-> & Hp & _ & [?| ->])]; [by edestruct Hno2|done|].
  rewrite Hd. by apply HQ.
Qed.

(** C13: a write of [buf] at the pointer of an open file, where the page of the
    pointer ends before [buf] does, the pointer and the file position are below the
    end of the chip, the bus carries every message, and no signal or fault of user
    memory comes: all bytes up to the end of the chip are in the chip, in their place and
    nothing else has changed, the result is their number and the pointer has
    passed them. *)
Theorem eep_write_stores buf f_pos s :
  let cp := current_pointer s in
  let n := Z.min (lenZ buf) (EEP_SIZE - cp) in
  opened s → cp < EEP_SIZE → f_pos < EEP_SIZE → lenZ buf < 2 ^ 63 → page_rest cp <= n →
  wp eep_quiet (eep_write buf f_pos) (λ v s', v = n ∧ opened s' ∧ current_pointer s' = cp + n ∧
    chip_mem (chip s') = store cp (Some <$> take (Z.to_nat n) buf) (chip_mem (chip s))) s.
Proof.
  intros cp n Hs Hcp Hf Hbuf Hrest. pose proof Hs as ((d & Hd & _) & _).
  apply (wp_eep_write_quiet _ _ _ d); [done..|]. fold cp n. intros s' Hs' Hp Hmem.
  assert (total cp n = n) as Ht by (unfold total; by rewrite (proj2 (Z.ltb_ge _ _))).
  rewrite Ht in *. rewrite Z.sub_diag, slice_0, app_nil_r in Hmem. split_and!; [done..|].
  rewrite Hmem. apply wrap_store_fits. rewrite length_fmap, length_take. lia.
Qed.

(** C14: where the pointer of an open file and the file position are below the end of
    the chip, the bus carries every message, and no signal or fault of user memory
    comes, a write that ends before the page of the pointer does writes 128 bytes too many, what the buffer of the driver held behind the user's bytes, and
    returns their number too; in the last page of the chip they go over its end
    and to its beginning. *)
Theorem eep_short_write buf f_pos s d :
  let cp := current_pointer s in
  opened s → data s = Some d → cp < EEP_SIZE → f_pos < EEP_SIZE → lenZ buf < page_rest cp →
  wp eep_quiet (eep_write buf f_pos) (λ v s', v = lenZ buf + EEP_PAGE_SIZE ∧
    current_pointer s' = cp + lenZ buf + EEP_PAGE_SIZE ∧
    chip_mem (chip s') = wrap_store cp ((Some <$> buf) ++ slice (lenZ buf) EEP_PAGE_SIZE d) (chip_mem (chip s))) s.
Proof.
  intros cp Hs Hd Hcp Hf Hbuf. pose proof Hs as (_ & [Hcp0 _] & _).
  destruct (page_rest_spec cp) as (Hr & _ & Hend & _); [done|].
  apply (wp_eep_write_quiet _ _ _ d); [done..|unfold EEP_PAGE_SIZE in *; lia|done|done|]. fold cp.
  rewrite Z.min_l by lia. rewrite Nat2Z.id, firstn_all. intros s' Hs' Hp Hmem.
  assert (total cp (lenZ buf) = lenZ buf + EEP_PAGE_SIZE) as Ht by (unfold total; by rewrite (proj2 (Z.ltb_lt _ _))).
  rewrite Ht in *. rewrite Z.add_simpl_l in Hmem. split_and!; [done|lia|done].
Qed.

(** A file written from the beginning, closed, opened again and read. *)
Definition write_then_read (buf : list Z) (count : Z) : E (Z * xfer) :=
  o1 ← eep_open;
  w ← eep_write buf 0;
  eep_release;;
  o2 ← eep_open;
  x ← eep_read count 0;
  eep_release;;
  mret (w, x).

(** What is written is read back, also through another open file, for every
    length below the size of the chip. *)
Theorem eep_roundtrip buf s :
  closed s → lenZ buf < EEP_SIZE →
  wp eep_quiet (write_then_read buf (lenZ buf))
    (λ '(w, x) s', w = lenZ buf ∧ x = Xfer (lenZ buf) (Some <$> buf) 0 ∧ closed s') s.
Proof.
  intros Hs Hbuf. unfold write_then_read. assert (lenZ buf < 65536) by done.
  wp_step. apply wp_eep_open; [done|by intros [[_ ?] _]|].
  set (s1 := Eep (Some (zeroed EEP_SIZE)) 0 false (chip s) 1).
  assert (opened s1) as Hs1 by (split_and!; [by exists (zeroed EEP_SIZE)|done..]).
  wp_step. apply (wp_eep_write_quiet _ _ _ (zeroed EEP_SIZE)); [done..|lia|done|done|].
  change (current_pointer s1) with 0. rewrite Z.min_l by lia. rewrite Nat2Z.id, firstn_all.
  assert (total 0 (lenZ buf) = lenZ buf) as ->
    by (unfold total; change (page_rest 0) with 0; rewrite (proj2 (Z.ltb_ge _ _)); lia).
  rewrite Z.sub_diag, slice_0, app_nil_r. intros s2 Hs2 _ Hmem.
  rewrite wrap_store_fits in Hmem by (rewrite length_fmap; lia).
  wp_step. apply wp_eep_release; [done|]. intros s3 Hs3 Hc3.
  wp_step. apply wp_eep_open; [done|by intros [[_ ?] _]|].
  wp_step. apply (wp_eep_read_quiet _ _ _ (zeroed EEP_SIZE)); [by split_and!; [by exists (zeroed EEP_SIZE)|..]|done|lia|done..|].
  cbn [current_pointer chip]. rewrite Z.min_l by lia. intros s4 Hs4 _ _.
  rewrite (proj2 (Z.eqb_neq (lenZ buf) EEP_SIZE)) by lia.
  wp_step. apply wp_eep_release; [done|]. intros s5 Hs5 _. wp_step. split_and!; [done| |done].
  rewrite Hc3, Hmem. pose proof (chip_size (chip s)). change (chip s1) with (chip s).
  f_equal. rewrite <-(length_fmap Some buf) at 1. apply slice_store; rewrite ?length_fmap; lia.
Qed.
End eeprom.

(** ** A chip

    The array of its bytes; a transfer that fails does nothing. *)
Definition rom : Type := Z → cell.
Definition rom_mem (f : rom) : list cell := f <$> seqZ 0 EEP_SIZE.
Definition rom_write (ok : bool) (a : Z) (l : list cell) (f : rom) : rom := λ x,
  if ok && (a <=? x) then default (f x) (l !! Z.to_nat (x - a)) else f x.
Definition rom_read (ok : bool) (a n : Z) (f : rom) : list cell :=
  if ok then (λ i, f ((a + i) mod EEP_SIZE)) <$> seqZ 0 n else [].

Lemma rom_mem_lookup f (k : nat) : Z.of_nat k < EEP_SIZE → rom_mem f !! k = Some (f (Z.of_nat k)).
Proof. intros. unfold rom_mem. by rewrite list_lookup_fmap, lookup_seqZ_lt. Qed.

Lemma length_rom_mem f : lenZ (rom_mem f) = EEP_SIZE.
Proof. unfold rom_mem. by rewrite length_fmap, length_seqZ. Qed.

Lemma rom_mem_write a l f : 0 <= a < EEP_SIZE → a + lenZ l <= EEP_SIZE →
  rom_mem (rom_write true a l f) = store a l (rom_mem f).
Proof.
  intros Ha Hl. apply list_eq. intros k. pose proof (length_rom_mem f).
  destruct (decide (Z.of_nat k < EEP_SIZE)).
  - rewrite rom_mem_lookup by done. unfold rom_write. cbn [andb].
    destruct (Z.leb_spec a (Z.of_nat k)); [|by rewrite lookup_store_out, rom_mem_lookup by (lia || done || auto)].
    destruct (decide (Z.of_nat k < a + lenZ l)).
    + rewrite lookup_store_in by lia. rewrite Z2Nat.inj_sub, Nat2Z.id by lia.
      destruct (lookup_lt_is_Some_2 l (k - Z.to_nat a)) as [x ->]; [lia|done].
    + rewrite lookup_store_out by lia. by rewrite rom_mem_lookup, lookup_ge_None_2 by lia.
  - rewrite !lookup_ge_None_2; [done|rewrite length_store; lia|].
    pose proof (length_rom_mem (rom_write true a l f)). lia.
Qed.

#[export] Program Instance rom_chip : Chip rom :=
  { chip_mem := rom_mem; chip_write := rom_write; chip_read := rom_read }.
Next Obligation. apply length_rom_mem. Qed.
Next Obligation.
  intros a l c Ha Hl. apply rom_mem_write; [done|]. unfold EEP_PAGE_SIZE, EEP_SIZE in *.
  Z.to_euclidean_division_equations. lia.
Qed.
Next Obligation.
  intros a n c Ha Hn Hend. unfold rom_read. apply list_eq. intros k. pose proof (length_rom_mem c).
  destruct (decide (Z.of_nat k < n)).
  - rewrite list_lookup_fmap, lookup_seqZ_lt by done. rewrite lookup_slice by lia.
    rewrite rom_mem_lookup by lia. cbn. do 2 f_equal.
    rewrite Z.mod_small by lia. lia.
  - rewrite !lookup_ge_None_2; [done| |rewrite length_fmap, length_seqZ; lia].
    pose proof (length_slice a n (rom_mem c)). lia.
Qed.
Next Obligation. intros [] a n c Hn; cbn; [|done]. rewrite length_fmap, length_seqZ. lia. Qed.

Definition blank : rom := λ _, Some 255.
Definition opened_blank (cp : Z) : eep rom := Eep (Some (zeroed EEP_SIZE)) cp false blank 1.
Definition closed_blank : eep rom := Eep None 0 false blank 0.

Lemma opened_blank_opened cp : 0 <= cp < 2 * EEP_SIZE → opened (opened_blank cp).
Proof. intros. split_and!; [by exists (zeroed EEP_SIZE)|cbn; lia|cbn; lia|done..]. Qed.

(** Other tasks that keep the device open or closed. *)
Definition eep_documented : contract (eep rom) :=
  Contract (λ k z, doc_ans k z ∧ ∀ num, num = 1 ∨ num = 2 → k = i2c_transfer num → z < 0 ∨ z = num)
    (λ s s', (opened s → opened s') ∧ (closed s → closed s')) False.

Lemma eep_documented_contract : eep_contract eep_documented.
Proof. split_and!; [by intros k z []|by intros num z Hn [_ H]; apply H|]. by intros s s' ? [? _]; auto. Qed.

(** A kernel and a bus that do all they are asked for. *)
Definition eep_oracle : oracle (eep rom) := Oracle (λ k t,
  if decide (k = i2c_transfer 1) then 1 else if decide (k = i2c_transfer 2) then 2 else quiet_ans k t)
  (λ _ _, 0) (λ _ s, s).

Lemma eep_oracle_obeys : obeys eep_oracle eep_quiet.
Proof.
  split; [|done]. intros k t. cbn. destruct (decide _) as [->|H1]; [done|]. destruct (decide _) as [->|H2]; [done|].
  split; [apply (quiet_obeys (S:=unit))|done].
Qed.

Lemma eep_write_spec_witness :
  wp eep_documented (eep_write [1; 2; 3] 0) (λ v s2, ∃ s1, c_rely eep_documented (opened_blank 0) s1 ∧
    write_outcome eep_documented [1; 2; 3] 0 s1 v s2) (opened_blank 0).
Proof. apply eep_write_spec; [apply eep_documented_contract|by apply opened_blank_opened|done]. Defined.

Lemma eep_read_spec_witness :
  wp eep_documented (eep_read 100 0) (λ v s2, ∃ s1, c_rely eep_documented (opened_blank 0) s1 ∧
    read_outcome eep_documented 100 0 s1 v s2) (opened_blank 0).
Proof. apply eep_read_spec; [apply eep_documented_contract|by apply opened_blank_opened|done]. Defined.

Lemma eep_faultless_witness :
  faultless eep_handle eep_allowed eep_documented eep_init ∧
  ∀ s, reachable eep_handle eep_allowed eep_documented eep_init s → opened s ∨ closed s.
Proof. apply (eep_faultless eep_documented); [apply eep_documented_contract|]. by intros s s' ? [_ ?]; auto. Defined.

Lemma eep_write_stores_witness :
  wp eep_quiet (eep_write [1; 2; 3; 4; 5] 0) (λ v s', v = 3 ∧ opened s' ∧ current_pointer s' = 65533 + 3 ∧
    chip_mem (chip s') = store 65533 (Some <$> [1; 2; 3]) (chip_mem blank)) (opened_blank 65533).
Proof. apply (eep_write_stores [1; 2; 3; 4; 5] 0 (opened_blank 65533)); [by apply opened_blank_opened|done..]. Defined.

Lemma eep_short_write_witness :
  wp eep_quiet (eep_write [] 0) (λ v s', v = 0 + EEP_PAGE_SIZE ∧
    current_pointer s' = 65535 + 0 + EEP_PAGE_SIZE ∧
    chip_mem (chip s') = wrap_store 65535 ((Some <$> []) ++ slice 0 EEP_PAGE_SIZE (zeroed EEP_SIZE)) (chip_mem blank))
    (opened_blank 65535).
Proof. apply (eep_short_write [] 0 (opened_blank 65535) (zeroed EEP_SIZE)); [by apply opened_blank_opened|done..]. Defined.

Lemma eep_roundtrip_witness :
  wp eep_quiet (write_then_read [1; 2; 3] 3)
    (λ '(w, x) s', w = 3 ∧ x = Xfer 3 (Some <$> [1; 2; 3]) 0 ∧ closed s') closed_blank.
Proof. apply (eep_roundtrip [1; 2; 3] closed_blank); done. Defined.

(** A write of no bytes at all at the last address, evaluated: it returns 128, and
    the first 127 bytes of the chip are lost with the last one. *)
Lemma eep_empty_write_destroys :
  match run eep_oracle (eep_write [] 0) (opened_blank 65535) with
  | Done (v, s') => v = 128 ∧ chip s' 65535 = Some 0 ∧ chip s' 0 = Some 0 ∧ chip s' 126 = Some 0 ∧ chip s' 127 = Some 255
  | _ => False
  end.
Proof. vm_compute. done. Qed.

(** Two files: the release of one takes the buffer of both, and the block of the
    first open is lost. *)
Lemma eep_two_files :
  run eep_oracle (eep_open;; eep_open;; eep_release;; eep_read 1 0) closed_blank = Oops NullDeref ∧
  match run eep_oracle (eep_open;; eep_open;; eep_release;; eep_release) closed_blank with
  | Done (_, s') => data s' = None ∧ live s' = 1
  | _ => False
  end.
Proof. vm_compute. done. Qed.
