(* ===== verification/EepromModule.v ===== *)
(** * ee24lc512: probe and remove (src/ldd-johnmadieu/sources/Chapter07/ee24lc512.c)

    What the driver takes from the kernel when a chip is found, and gives back
    when it goes. *)

From stdpp Require Import base tactics numbers list strings sets.
From S2P Require Import Prelude KMonad Registry Quanta Eeprom.
From Stdlib Require Import ZArith Lia.

Open Scope Z_scope.

(** ** Data

    [eep_class] is a pointer: 0 is NULL, a negative value an error that
    [class_create] returned. [clientdata] is the device of the client, with the chip;
    [spare] the chip while there is none, and [lost] the blocks a device left. *)
Record eep_mod (C : Type) := EepMod {
  eep_major : Z;
  eep_class : Z;
  clientdata : option (eep C);
  spare : C;
  lost : Z;
  eep_regs : registry
}.
Arguments EepMod {C} _ _ _ _ _ _.
Arguments eep_major {C} _.
Arguments eep_class {C} _.
Arguments clientdata {C} _.
Arguments spare {C} _.
Arguments lost {C} _.
Arguments eep_regs {C} _.

Section eeprom_module.
Context {C : Type}.
Implicit Types (m : eep_mod C).
Local Abbreviation M := (K (eep_mod C)).

Definition set_eep_major (v : Z) m : eep_mod C := EepMod v (eep_class m) (clientdata m) (spare m) (lost m) (eep_regs m).
Definition set_eep_class (v : Z) m : eep_mod C := EepMod (eep_major m) v (clientdata m) (spare m) (lost m) (eep_regs m).
Definition set_eep_regs (v : registry) m : eep_mod C := EepMod (eep_major m) (eep_class m) (clientdata m) (spare m) (lost m) v.

(** [i2c_set_clientdata], with the device [probe] has filled in. *)
Definition attach m : eep_mod C :=
  EepMod (eep_major m) (eep_class m) (Some (Eep None 0 false (spare m) 0)) (spare m) (lost m) (eep_regs m).

(** The device [d] is freed, and its buffer before it when there is one. *)
Definition detach (d : eep C) m : eep_mod C :=
  let n := match data d with Some _ => live d - 1 | None => live d end in
  EepMod (eep_major m) (eep_class m) None (chip d) (lost m + n) (eep_regs m).

#[export] Instance eep_mod_registry : HasRegistry (eep_mod C) :=
  { registry_of := eep_regs; set_registry := set_eep_regs; registry_set g m := eq_refl }.

Definition class_res : resource := Res "class" 0.
Definition dev_mem : resource := Res "eep_dev" 0.
Definition cdev_res : resource := Res "cdev" 0.
Definition device_res : resource := Res "device" 0.

(** ** Probe and remove *)

(** [device_destroy] follows the pointer to the class, and does nothing when the
    class has no such device; [class_destroy] leaves error pointers alone. *)
Definition device_destroy : M unit :=
  cls ← gets eep_class;
  if cls <=? 0 then oops NullDeref else give_if_held device_res.
Definition class_destroy : M unit :=
  cls ← gets eep_class;
  if cls <=? 0 then mret tt else give_back class_res.

(** The label [fail]; [eep_device] says whether the device was allocated. *)
Definition probe_fail (eep_device : bool) (err : Z) : M Z :=
  cls ← gets eep_class;
  (if negb (cls =? 0) then device_destroy;; class_destroy else mret tt);;
  (if eep_device then give_back dev_mem else mret tt);;
  mret err.

(** From [cdev_add] on. *)
Definition probe_device : M Z :=
  err ← acquire "cdev_add" cdev_res;
  if negb (err =? 0) then probe_fail true err else
  device ← call (kint "device_create");
  if device <? 0 then give_back cdev_res;; probe_fail true device else
  hold device_res;;
  modify attach;;
  mret 0.

Definition ee24lc512_probe : M Z :=
  ok ← call (kint "i2c_check_functionality");
  if ok =? 0 then mret (- EIO) else
  _ ← call (i2c_transfer 2);
  err ← call (kint "alloc_chrdev_region");
  if err <? 0 then mret err else
  dyn ← call (kint "dynamic major");
  hold (region (MKDEV dyn 0));;
  modify (set_eep_major (MAJOR (MKDEV dyn 0)));;
  cls ← call (kint "class_create");
  modify (set_eep_class cls);;
  if cls <? 0 then probe_fail false cls else
  hold class_res;;
  p ← acquire_ptr "kzalloc" dev_mem;
  if p =? 0 then probe_fail false (- ENOMEM) else
  probe_device.

(** The character device stays registered. *)
Definition ee24lc512_remove : M Z :=
  d ← gets clientdata ≫= deref NullDeref;
  device_destroy;;
  modify (detach d);;
  give_back dev_mem;;
  class_destroy;;
  ma ← gets eep_major;
  give_back (region (MKDEV ma 0));;
  mret 0.

(** ** What is held *)

(** Documented answers, where the majors have 12 bits, [cdev_add] answers an
    error or 0, [class_create] a pointer or an error. *)
Definition eep_mod_contract (K0 : contract (eep_mod C)) : Prop :=
  (∀ z, c_ans K0 (kint "dynamic major") z → 0 < z < 2 ^ 12) ∧
  (∀ z, c_ans K0 (kint "cdev_add") z → z <= 0) ∧
  (∀ z, c_ans K0 (kint "class_create") z → 0 < z).

(** The device of a client that was just found: as a closed device of [Eeprom]. *)
Definition attached m m' : Prop :=
  clientdata m' = Some (Eep None 0 false (spare m) 0) ∧ lost m' = lost m.

Definition bound (L : list resource) m' : Prop :=
  owned (L ++ [class_res; region (MKDEV (eep_major m') 0)]) m' ∧ 0 < eep_class m' ∧ 0 < eep_major m' < 2 ^ 12.

(** The region of the one number that was allocated, and nothing else. *)
Definition region_left m' : Prop := owned [region (MKDEV (eep_major m') 0)] m'.

Lemma wp_device_destroy K0 b L m (Q : unit → eep_mod C → Prop) :
  0 < eep_class m → device_res ∉ L → owned (opt b device_res ++ L) m →
  (∀ g, owned L (set_eep_regs g m) → Q tt (set_eep_regs g m)) → wp K0 device_destroy Q m.
Proof.
  intros Hc Hd Ho HQ. unfold device_destroy. do 2 wp_step.
  rewrite (proj2 (Z.leb_gt _ _)) by done. apply (wp_give_if_held _ b _ L); [by destruct m|done..].
Qed.

Lemma wp_class_destroy K0 L L' m (Q : unit → eep_mod C → Prop) :
  0 < eep_class m → owned L m → L ≡ₚ class_res :: L' →
  (∀ g, owned L' (set_eep_regs g m) → Q tt (set_eep_regs g m)) → wp K0 class_destroy Q m.
Proof.
  intros Hc Ho HL HQ. unfold class_destroy. do 2 wp_step.
  rewrite (proj2 (Z.leb_gt _ _)) by done. by apply (wp_give_back_owned _ _ L L').
Qed.

(** On the way out the class and the device go, the region stays. *)
Lemma wp_probe_fail K0 (b : bool) err m (Q : Z → eep_mod C → Prop) :
  bound (opt b dev_mem) m → (∀ m', region_left m' → clientdata m' = clientdata m → Q err m') →
  wp K0 (probe_fail b err) Q m.
Proof.
  intros (Ho & Hc & Hma) HQ. unfold probe_fail. do 3 wp_step.
  rewrite (proj2 (Z.eqb_neq _ _)) by lia. cbn [negb].
  set (r := region (MKDEV (eep_major m) 0)) in *.
  wp_step. apply (wp_device_destroy _ false (opt b dev_mem ++ [class_res; r]) _ _ Hc); [|exact Ho|].
  { apply other_kind. destruct b; by repeat constructor. }
  intros g Hg.
  apply (wp_class_destroy _ _ (opt b dev_mem ++ [r]) (set_eep_regs g m) _ Hc Hg); [destruct b; cbn; solve_Permutation|].
  intros g1 Hg1. wp_step. destruct b; [|by wp_step; wp_step; apply HQ].
  apply (wp_give_back_owned _ _ _ [r] _ _ Hg1); [done|]. intros g2 Hg2. wp_step. by apply HQ.
Qed.

(** What [probe] ends in. *)
Definition probed m (v : Z) m' : Prop :=
  v = 0 ∧ bound [device_res; cdev_res; dev_mem] m' ∧ attached m m' ∨
  v < 0 ∧ clientdata m' = None ∧ (owned [] m' ∨ region_left m').

Lemma wp_probe_device K0 m0 m :
  eep_mod_contract K0 → bound [dev_mem] m → clientdata m = None → spare m = spare m0 → lost m = lost m0 →
  wp K0 probe_device (probed m0) m.
Proof.
  intros (_ & Hcdev & _) (Ho & Hc & Hma) Hd Hsp Hlo. unfold probe_device.
  set (r := region (MKDEV (eep_major m) 0)) in *.
  wp_step. apply wp_acquire.
  2: { intros z Hz Hz0. rewrite (proj2 (Z.eqb_neq _ _)) by done. cbn [negb].
       apply (wp_probe_fail _ true); [done|]. intros m' Hm' Hd'. right. split; [|by rewrite Hd'; split; [|right]].
       specialize (Hcdev z Hz). lia. }
  change (0 =? 0) with true. cbn [negb]. pose proof (owned_add cdev_res _ _ Ho) as Ho1.
  set (m1 := set_registry _ m) in *.
  wp_step. wp_step. wp_step.
  - wp_step. apply (wp_give_back_owned _ _ _ [dev_mem; class_res; r] _ _ Ho1); [done|]. intros g Hg.
    apply (wp_probe_fail _ true); [done|]. intros m' Hm' Hd'. right. split; [done|]. by rewrite Hd'; split; [|right].
  - wp_step. apply (wp_hold_owned _ _ _ _ _ Ho1). intros g Hg. wp_step. wp_step. wp_step.
    left. split; [done|]. split; [by split|]. unfold attached, attach. cbn. by rewrite Hsp, Hlo.
Qed.

Lemma wp_probe K0 m :
  eep_mod_contract K0 → owned [] m → clientdata m = None → wp K0 ee24lc512_probe (probed m) m.
Proof.
  intros HK Ho Hd. pose proof HK as (Hmaj & _ & Hcls). unfold ee24lc512_probe.
  wp_step. wp_step. wp_step; [wp_step; right; split_and!; [done..|by left]|].
  wp_step. wp_step. wp_step. wp_step. wp_step; [wp_step; right; split_and!; [done..|by left]|].
  wp_step. apply wp_call. intros ma Hma%Hmaj.
  wp_step. apply (wp_hold_owned _ _ _ _ _ Ho). intros g Hg. wp_step. wp_step.
  wp_step. apply wp_call. intros cls Hcl%Hcls. wp_step. wp_step.
  rewrite (proj2 (Z.ltb_ge _ _)) by lia.
  assert (MAJOR (MKDEV ma 0) = ma) as Hmm by (apply MAJOR_MKDEV; lia). rewrite Hmm.
  wp_step. eapply (wp_hold_owned _ _ [region (MKDEV ma 0)]); [exact Hg|]. intros g1 Hg1.
  wp_step. apply wp_acquire_ptr.
  - change (0 =? 0) with true. cbn iota. apply (wp_probe_fail _ false); [by split; [|split]|].
    intros m' Hm' Hd'. right. split; [done|]. by rewrite Hd'; split; [|right].
  - intros p _ Hp. rewrite (proj2 (Z.eqb_neq _ _)) by done. cbn iota.
    apply wp_probe_device; [done| |done..]. split; [|done]. by apply (owned_add dev_mem _ _ Hg1).
Qed.

(** All but the character device is given back. *)
Lemma wp_remove K0 d m (Q : Z → eep_mod C → Prop) :
  bound [device_res; cdev_res; dev_mem] m → clientdata m = Some d → data d = None →
  (∀ m', owned [cdev_res] m' → clientdata m' = None → spare m' = chip d → lost m' = lost m + live d → Q 0 m') →
  wp K0 ee24lc512_remove Q m.
Proof.
  intros (Ho & Hc & Hma) Hd Hdata HQ. unfold ee24lc512_remove. set (r := region (MKDEV (eep_major m) 0)) in *.
  wp_step. wp_step. wp_step. apply (wp_deref _ _ _ _ _ d); [done|].
  wp_step. apply (wp_device_destroy _ true [cdev_res; dev_mem; class_res; r] _ _ Hc); [|exact Ho|].
  { apply other_kind. by repeat constructor. }
  intros g Hg. wp_step. wp_step.
  change (owned [cdev_res; dev_mem; class_res; r] (detach d (set_eep_regs g m))) in Hg.
  wp_step. apply (wp_give_back_owned _ _ _ [cdev_res; class_res; r] _ _ Hg); [solve_Permutation|].
  intros g1 Hg1. wp_step. apply (wp_class_destroy _ [cdev_res; class_res; r] [cdev_res; r]); [exact Hc|exact Hg1|solve_Permutation|].
  intros g2 Hg2. wp_step. wp_step. wp_step.
  apply (wp_give_back_owned _ _ _ [cdev_res] _ _ Hg2); [solve_Permutation|].
  intros g3 Hg3. wp_step. apply HQ; [done..|]. cbn. by rewrite Hdata.
Qed.

(** When the class cannot be created the way out follows the error as a pointer. *)
Lemma eep_class_fault o t m :
  ans o (kint "i2c_check_functionality") t ≠ 0 → 0 <= ans o (kint "alloc_chrdev_region") (S (S t)) →
  ans o (kint "class_create") (S (S (S (S t)))) < 0 → ee24lc512_probe o (t, m) = Oops NullDeref.
Proof.
  intros Hf Ha Hc. unfold ee24lc512_probe, mbind, K_bind, call, hold, modify. cbn.
  rewrite (proj2 (Z.eqb_neq _ _)) by done. cbn. rewrite (proj2 (Z.ltb_ge _ 0)) by done. cbn.
  rewrite (proj2 (Z.ltb_lt _ 0)) by done. unfold probe_fail, gets, get, mbind, K_bind. cbn.
  rewrite (proj2 (Z.eqb_neq _ _)) by lia. cbn. unfold device_destroy, gets, get, mbind, K_bind. cbn.
  by rewrite (proj2 (Z.leb_le _ 0)) by lia.
Qed.

(** ** A session: the chip is found, used, and taken away *)

Definition set_clientdata (d : eep C) m : eep_mod C :=
  EepMod (eep_major m) (eep_class m) (Some d) (spare m) (lost m) (eep_regs m).

(** Calls on the device of the client. *)
Definition on_device {A} (p : K (eep C) A) : M A :=
  d ← gets clientdata ≫= deref NullDeref;
  zoom (λ _, d) set_clientdata p.

Context `{!Chip C}.

Definition eep_session (buf : list Z) : M (option (Z * xfer)) :=
  r ← ee24lc512_probe;
  if negb (r =? 0) then mret None else
  x ← on_device (write_then_read buf (lenZ buf));
  ee24lc512_remove;;
  mret (Some x).

(** The kernel of [eep_quiet], which may still refuse what [probe] asks for, but
    the class. *)
Definition eep_mod_quiet (K0 : contract (eep_mod C)) : Prop :=
  eep_mod_contract K0 ∧ (∀ k z, c_ans K0 k z → good_ans k z ∧ bus_works k z).

(** C15: a chip is found, a file of it, shorter than the chip, written and read back
    through another one, and the chip taken away, on a bus that works and with memory, no
    signal and no fault of user memory in the file's calls: what was written is read, no
    block is lost and all that was taken is given back, but for the character
    device, which stays registered. Where [probe] fails in a step other than
    [class_create], whose failure is an oops ([eep_class_fault]), the region of device
    numbers may stay, and nothing else does. *)
Theorem eep_session_spec K0 buf m :
  eep_mod_quiet K0 → owned [] m → clientdata m = None → lost m = 0 → lenZ buf < EEP_SIZE →
  wp K0 (eep_session buf) (λ x m', clientdata m' = None ∧
    match x with
    | Some (w, r) => w = lenZ buf ∧ r = Xfer w (Some <$> buf) 0 ∧ owned [cdev_res] m' ∧ lost m' = 0
    | None => owned [] m' ∨ region_left m'
    end) m.
Proof.
  intros [HK Hans] Ho Hd Hlost Hbuf. unfold eep_session.
  wp_step. eapply wp_mono; [by apply wp_probe|]. intros v m1 [(-> & Hb & Hat & Hl)|(Hv & Hd1 & Hr)].
  2: { rewrite (proj2 (Z.eqb_neq _ _)) by lia. cbn [negb]. by wp_step. }
  change (0 =? 0) with true. cbn [negb]. wp_step. unfold on_device.
  wp_step. wp_step. wp_step. apply (wp_deref _ _ _ _ _ _ Hat). apply wp_zoom.
  eapply wp_mono; [by apply (wp_weaken eep_quiet); [exact Hans|done|done|apply eep_roundtrip]|].
  intros [w x] d (-> & -> & Hcl).
  wp_step. apply (wp_remove _ d); [exact Hb|done|by destruct Hcl|].
  intros m' Ho' Hd' _ Hl'. wp_step. split_and!; [done..|].
  rewrite Hl'. destruct Hcl as (_ & _ & ->). cbn. lia.
Qed.
End eeprom_module.

(** ** A kernel and a session *)

Definition eep_mod_kernel : contract (eep_mod rom) :=
  Contract (λ k z, good_ans k z ∧ bus_works k z ∧
    (k = kint "dynamic major" → 0 < z < 2 ^ 12) ∧ (k = kint "cdev_add" → z <= 0) ∧
    (k = kint "class_create" → 0 < z)) alone False.

(** There is such a kernel. *)
Definition eep_mod_answers (k : kcall) (t : nat) : Z :=
  if decide (k = kint "dynamic major") then 240 else
  if decide (k = kint "class_create") then 4096 else ans eep_oracle k t.

Lemma eep_mod_kernel_obeyed : obeys (Oracle eep_mod_answers (λ _ _, 0) (λ _ m, m)) eep_mod_kernel.
Proof.
  split; [|done]. intros k t. cbn [c_ans eep_mod_kernel ans]. unfold eep_mod_answers.
  destruct (decide _) as [->|H1]; [by split_and!|]. destruct (decide _) as [->|H2]; [by split_and!|].
  destruct (proj1 eep_oracle_obeys k t) as [Hg Hb]. split_and!; [exact Hg|exact Hb|done| |done]. by intros ->.
Qed.

Lemma eep_mod_kernel_quiet : eep_mod_quiet eep_mod_kernel.
Proof. split; [|by intros k z (? & ? & _)]. split_and!; intros z (_ & _ & H1 & H2 & H3); auto. Qed.

Lemma eep_session_spec_witness :
  wp eep_mod_kernel (eep_session [1; 2; 3]) (λ x m', clientdata m' = None ∧
    match x with
    | Some (w, r) => w = 3 ∧ r = Xfer w (Some <$> [1; 2; 3]) 0 ∧ owned [cdev_res] m' ∧ lost m' = 0
    | None => owned [] m' ∨ region_left m'
    end) (EepMod 0 0 None blank 0 empty_registry).
Proof. apply (eep_session_spec eep_mod_kernel [1; 2; 3]); [apply eep_mod_kernel_quiet|by apply nil_owned|done..]. Defined.
