(* ===== verification/TimerQueue.v ===== *)
(** * tq: one thread for many timers (src/lkd-todo/net/tq-master)

    Two queues of messages in blocks of memory, shared by a thread that adds
    messages and a thread that removes those whose time has come. *)

From stdpp Require Import base tactics numbers list strings.
From S2P Require Import Prelude KMonad Ring Text.
From Stdlib Require Import ZArith Lia.

Open Scope Z_scope.

(** ** Data (timer_queue.h) *)

Definition TIMER_QUEUE_IPV4_STRING_LEN : Z := 16.
Definition TIMER_QUEUE_MAC_STRING_LEN : Z := 18.
Definition TIMER_QUEUE_MSG_TYPE_IPV4 : Z := 0.
Definition TIMER_QUEUE_MSG_TYPE_MAC : Z := 1.
Definition TIMER_QUEUE_MSG_LEN : Z := 32.
Definition TIMER_QUEUE_MSG_NUM_MAX : Z := 100.
Definition TIMER_QUEUE_SIZE : Z := TIMER_QUEUE_MSG_LEN * TIMER_QUEUE_MSG_NUM_MAX.
Definition TIMER_QUEUE_NUM_MAX : Z := 2.

(** [m_str] is the union of [ipv4] and [mac], 18 bytes. *)
Record msg := Msg { m_type : Z; m_str : list Z; m_timer : Z }.

(** All accesses to a queue are to whole messages at multiples of their length,
    so that its memory is a list of messages; one nobody wrote is [None].
    [tq_ptr] is the distance of [timer_queue_ptr] from the start, in messages. *)
Inductive tq_mem := QNull | QFreed | QBlock (l : list (option msg)).
Record tqueue := TQueue { tq_block : tq_mem; tq_ptr : Z }.

(** [heap] counts the blocks in use. *)
Record tqs := TQS { queues : list tqueue; timer_queue_mutex : bool; heap : Z }.

Definition set_queue (i : Z) (q : tqueue) (s : tqs) : tqs :=
  TQS (<[Z.to_nat i := q]> (queues s)) (timer_queue_mutex s) (heap s).
Definition set_tq_mutex (b : bool) (s : tqs) : tqs := TQS (queues s) b (heap s).
Definition add_heap (n : Z) (s : tqs) : tqs := TQS (queues s) (timer_queue_mutex s) (heap s + n).

#[export] Instance tqs_lock : HasLock tqs :=
  { lock_of := timer_queue_mutex; set_lock := set_tq_mutex; lock_set b s := eq_refl }.

(** ** The queues (timer_queue.c) *)

Definition tq_validate_queue_index (i : Z) : Z := if (i >=? 0) && (i <? TIMER_QUEUE_NUM_MAX) then 1 else 0.

(** [TIMER_QUEUE_CHECK_INDEX_VOID] *)
Definition if_valid (i : Z) (m : K tqs unit) : K tqs unit :=
  if negb (tq_validate_queue_index i =? 1) then mret tt else m.

Definition queue (i : Z) : K tqs tqueue := gets (λ s, lookupZ (queues s) i) ≫= deref OutOfBounds.

(** The memory behind [timer_queue[i]]. *)
Definition slots (q : tqueue) : K tqs (list (option msg)) :=
  match tq_block q with QNull => oops NullDeref | QFreed => oops UseAfterFree | QBlock l => mret l end.

(** [memmove] of [n] messages within a block. *)
Definition tq_memmove (dst src n : Z) (q : tqueue) : K tqs tqueue :=
  if n =? 0 then mret q else
  l ← slots q;
  if src + n <=? lenZ l then mret (TQueue (QBlock (store dst (slice src n l) l)) (tq_ptr q)) else oops OutOfBounds.

Definition tq_init_queue (i : Z) : K tqs unit := if_valid i (
  p ← call (kmalloc TIMER_QUEUE_SIZE);
  if p =? 0 then modify (set_queue i (TQueue QNull 0)) else
  modify (set_queue i (TQueue (QBlock (replicate (Z.to_nat TIMER_QUEUE_MSG_NUM_MAX) None)) 0));;
  modify (add_heap 1)).

(** The pointers keep their values. *)
Definition tq_destroy_queue (i : Z) : K tqs unit := if_valid i (
  q ← queue i;
  match tq_block q with
  | QNull => mret tt
  | QFreed => oops DoubleFree
  | QBlock _ => modify (set_queue i (TQueue QFreed (tq_ptr q)));; modify (add_heap (-1))
  end).

Definition tq_clear_queue (i : Z) : K tqs unit := if_valid i (
  q ← queue i;
  modify (set_queue i (TQueue (tq_block q) 0))).

Definition for_queues (f : Z → K tqs unit) : K tqs unit :=
  for_each (Z.to_nat TIMER_QUEUE_NUM_MAX) 0 (λ i, f (Z.of_nat i)).
Definition tq_init_queue_all : K tqs unit := for_queues tq_init_queue.
Definition tq_destroy_queue_all : K tqs unit := for_queues tq_destroy_queue.
Definition tq_clear_queue_all : K tqs unit := for_queues tq_clear_queue.

Definition tq_get_msg_num (i : Z) : K tqs Z :=
  if tq_validate_queue_index i =? 0 then mret (-1) else
  q ← queue i;
  mret (tq_ptr q).

Definition tq_add_msg (m : msg) (i : Z) : K tqs Z :=
  if tq_validate_queue_index i =? 0 then mret (-1) else
  n ← tq_get_msg_num i;
  if negb (n =? TIMER_QUEUE_MSG_NUM_MAX) then
    q ← queue i;
    l ← slots q;
    if tq_ptr q <? lenZ l then
      modify (set_queue i (TQueue (QBlock (<[Z.to_nat (tq_ptr q) := Some m]> l)) (tq_ptr q + 1)));;
      mret 0
    else oops OutOfBounds
  else mret (-1).

(** A pointer into a queue is the index of the message it points to; [None] is
    NULL. *)
Definition tq_get_head_msg (i : Z) : K tqs (option Z) :=
  if tq_validate_queue_index i =? 0 then mret None else
  n ← tq_get_msg_num i;
  if n =? 0 then mret None else mret (Some 0).

Definition tq_del_head_msg (i : Z) : K tqs unit := if_valid i (
  q ← queue i;
  if negb (tq_ptr q =? 0) then
    q ← tq_memmove 0 1 (tq_ptr q - 1) q;
    modify (set_queue i (TQueue (tq_block q) (tq_ptr q - 1)))
  else mret tt).

(** [tqm[k]], where reading what was never written counts as a fault. *)
Definition tq_msg (i k : Z) : K tqs msg :=
  q ← queue i;
  l ← slots q;
  deref OutOfBounds (mjoin (lookupZ l k)).

(** The string that starts at a byte of memory, [None] if it does not end there. *)
Fixpoint cstr (l : list Z) : option (list Z) :=
  match l with
  | [] => None
  | c :: l => if c =? 0 then Some [] else cons c <$> cstr l
  end.
Definition tolower (c : Z) : Z := if (65 <=? c) && (c <=? 90) then c + 32 else c.
Definition strcasecmp_eq (a b : list Z) : bool := bool_decide (tolower <$> a = tolower <$> b).

(** The loop of the searches, from message [k] on: the first of the [n] that is
    equal to [str]. [ipv4] and [mac] are the same bytes. *)
Fixpoint tq_search (fuel : nat) (str : list Z) (i k : Z) : K tqs (option Z) :=
  match fuel with
  | O => sleep_forever
  | S fuel =>
      n ← tq_get_msg_num i;
      if negb (k <? n) then mret None else
      m ← tq_msg i k;
      a ← deref OutOfBounds (cstr (m_str m));
      if strcasecmp_eq a str then mret (Some k) else tq_search fuel str i (k + 1)
  end.

Definition bad_type (type : Z) : bool :=
  negb (type =? TIMER_QUEUE_MSG_TYPE_IPV4) && negb (type =? TIMER_QUEUE_MSG_TYPE_MAC).

(** More than there can be messages. *)
Definition tq_fuel : nat := S (Z.to_nat TIMER_QUEUE_MSG_NUM_MAX).

(** What is returned is [tqm] and not the address of the message found. *)
Definition tq_get_msg_on_str (type : Z) (str : list Z) (i : Z) : K tqs (option Z) :=
  if bad_type type then mret None else
  if tq_validate_queue_index i =? 0 then mret None else
  r ← tq_search tq_fuel str i 0;
  mret (match r with Some _ => Some 0 | None => None end).

(** [tqm + TIMER_QUEUE_MSG_LEN] is 32 messages behind [tqm]. *)
Definition tq_del_msg_on_str (type : Z) (str : list Z) (i : Z) : K tqs unit :=
  if bad_type type then mret tt else if_valid i (
  r ← tq_search tq_fuel str i 0;
  match r with
  | None => mret tt
  | Some _ =>
      q ← queue i;
      q ← tq_memmove 0 TIMER_QUEUE_MSG_LEN (tq_ptr q - 1) q;
      modify (set_queue i (TQueue (tq_block q) (tq_ptr q - 1)))
  end).

(** ** The threads *)

Definition TIMER_THREAD_BLACKLIST_IPV4 : Z := 0.
Definition TIMER_THREAD_BLACKLIST_MAC : Z := 1.
Definition TIMER_THREAD_BLACKLIST_BLOCK_TIME : Z := 20.

(** The loop over the messages of a queue in [timer_thread_main], from [j] on. *)
Fixpoint sweep_queue (fuel : nat) (i j : Z) : K tqs unit :=
  match fuel with
  | O => sleep_forever
  | S fuel =>
      n ← tq_get_msg_num i;
      if negb (j <? n) then mret tt else
      m ← tq_msg i j;
      now ← call (kint "time");
      if m_timer m <=? now then
        str ← deref OutOfBounds (cstr (m_str m));
        tq_del_msg_on_str (m_type m) str i;;
        sweep_queue fuel i (j + 1)
      else mret tt
  end.

(** One round of the timer thread. *)
Definition timer_thread_round : K tqs unit :=
  lock;;
  for_queues (λ i, sweep_queue tq_fuel i 0);;
  unlock.

(** [snprintf] into the union. *)
Definition put_str (size : Z) (str old : list Z) : list Z :=
  store 0 (take (Z.to_nat (size - 1)) str ++ [0]) old.

Definition hex (d : Z) : Z := if d <? 10 then 48 + d else 87 + d.
Definition mac_str (i : Z) : list Z := ascii_of "ff:ff:ff:ff:ff:" ++ [hex (i / 16 mod 16); hex (i mod 16)].
Definition ipv4_str (i : Z) : list Z := ascii_of "255.255.255." ++ fmt_i i.

(** One round of the loop of [main], with the value [tqm] has in it. *)
Definition main_round (i : Z) (tqm : msg) : K tqs msg :=
  lock;;
  now ← call (kint "time");
  let timer := s64 (now + TIMER_THREAD_BLACKLIST_BLOCK_TIME) in
  let '(m, ix) :=
    if Z.rem i 2 =? 0
    then (Msg TIMER_QUEUE_MSG_TYPE_MAC (put_str TIMER_QUEUE_MAC_STRING_LEN (mac_str i) (m_str tqm)) timer,
          TIMER_THREAD_BLACKLIST_MAC)
    else (Msg TIMER_QUEUE_MSG_TYPE_IPV4 (put_str TIMER_QUEUE_IPV4_STRING_LEN (ipv4_str i) (m_str tqm)) timer,
          TIMER_THREAD_BLACKLIST_IPV4) in
  tq_add_msg m ix;;
  unlock;;
  mret m.

(** The loop, for [i .. i + n). *)
Fixpoint main_loop (n : nat) (i : Z) (tqm : msg) : K tqs unit :=
  match n with
  | O => mret tt
  | S n => m ← main_round i tqm; main_loop n (i + 1) m
  end.

(** What the threads start with. *)
Definition main_start (n : nat) (tqm : msg) : K tqs unit :=
  tq_init_queue_all;;
  main_loop n 0 tqm.

(** ** Specification

    Two bounded queues, and what the calls answer. *)

(** A message whose text ends within its 18 bytes, and its text. *)
Definition good_msg (m : msg) : Prop := is_Some (cstr (m_str m)).
Definition text (m : msg) : list Z := default [] (cstr (m_str m)).

Inductive tq_op :=
| TAdd (m : msg) (i : Z)
| TDelHead (i : Z)
| TClear (i : Z)
| TNum (i : Z)
| THead (i : Z)
| TFind (type : Z) (str : list Z) (i : Z).

Inductive tq_res := RVoid | RInt (z : Z) | RPtr (p : option Z).

Definition tq_handle (op : tq_op) : K tqs tq_res :=
  match op with
  | TAdd m i => kfmap RInt (tq_add_msg m i)
  | TDelHead i => kfmap (λ _, RVoid) (tq_del_head_msg i)
  | TClear i => kfmap (λ _, RVoid) (tq_clear_queue i)
  | TNum i => kfmap RInt (tq_get_msg_num i)
  | THead i => kfmap RPtr (tq_get_head_msg i)
  | TFind type str i => kfmap RPtr (tq_get_msg_on_str type str i)
  end.

Definition op_queue (op : tq_op) : Z :=
  match op with TAdd _ i | TDelHead i | TClear i | TNum i | THead i | TFind _ _ i => i end.
Definition op_ok (op : tq_op) : Prop := match op with TAdd m _ => good_msg m | _ => True end.

(** On the queue the call is about. *)
Definition fifo_step (op : tq_op) (l : list msg) : list msg * tq_res :=
  match op with
  | TAdd m _ => if lenZ l <? TIMER_QUEUE_MSG_NUM_MAX then (l ++ [m], RInt 0) else (l, RInt (-1))
  | TDelHead _ => (tail l, RVoid)
  | TClear _ => ([], RVoid)
  | TNum _ => (l, RInt (lenZ l))
  | THead _ => (l, RPtr (match l with [] => None | _ => Some 0 end))
  | TFind type str _ => (l, RPtr (if negb (bad_type type) && existsb (λ m, strcasecmp_eq (text m) str) l then Some 0 else None))
  end.

(** With an index that is none nothing happens. *)
Definition invalid_res (op : tq_op) : tq_res :=
  match op with TAdd _ _ | TNum _ => RInt (-1) | TDelHead _ | TClear _ => RVoid | THead _ | TFind _ _ _ => RPtr None end.

Definition spec_step (op : tq_op) (L : list (list msg)) : list (list msg) * tq_res :=
  match lookupZ L (op_queue op) with
  | Some l => let '(l', r) := fifo_step op l in (<[Z.to_nat (op_queue op) := l']> L, r)
  | None => (L, invalid_res op)
  end.

Fixpoint spec_run (ops : list tq_op) (L : list (list msg)) : list (list msg) * list tq_res :=
  match ops with
  | [] => (L, [])
  | op :: ops => let '(L, r) := spec_step op L in let '(L, rs) := spec_run ops L in (L, r :: rs)
  end.

Fixpoint tq_run (ops : list tq_op) : K tqs (list tq_res) :=
  match ops with
  | [] => mret []
  | op :: ops => r ← tq_handle op; rs ← tq_run ops; mret (r :: rs)
  end.

(** [q] holds the messages [l], in front of memory that does not matter. *)
Definition holds (q : tqueue) (l : list msg) : Prop :=
  ∃ rest, tq_block q = QBlock ((Some <$> l) ++ rest) ∧ tq_ptr q = lenZ l ∧
    lenZ l + lenZ rest = TIMER_QUEUE_MSG_NUM_MAX ∧ Forall good_msg l.

Definition represents (s : tqs) (L : list (list msg)) : Prop :=
  Forall2 holds (queues s) L ∧ lenZ L = TIMER_QUEUE_NUM_MAX.

(** ** The queues implement it *)

Lemma validate_spec i : tq_validate_queue_index i = if bool_decide (0 <= i < TIMER_QUEUE_NUM_MAX) then 1 else 0.
Proof.
  unfold tq_validate_queue_index. rewrite Z.geb_leb. destruct (Z.leb_spec 0 i), (Z.ltb_spec i TIMER_QUEUE_NUM_MAX); cbn;
    case_bool_decide; lia.
Qed.

(** A block whose beginning is overwritten. *)
Lemma store_front {A} (l1 l2 : list A) : lenZ l1 <= lenZ l2 → store 0 l1 l2 = l1 ++ drop (length l1) l2.
Proof.
  intros Hl. rewrite <-(take_drop (length l1) l2) at 1. unfold store. change (Z.to_nat 0) with 0%nat.
  rewrite list_inserts_0_r by (rewrite length_take; lia). done.
Qed.

Section refinement.
Context (C : contract tqs).

Lemma lookup_invalid {A} (L : list A) i : lenZ L = TIMER_QUEUE_NUM_MAX →
  tq_validate_queue_index i = match lookupZ L i with Some _ => 1 | None => 0 end.
Proof.
  intros HL. rewrite validate_spec. case_bool_decide as Hi.
  - destruct (lookupZ L i) eqn:E; [done|]. pose proof (proj2 (lookupZ_is_Some L i)) as H.
    rewrite E in H. destruct H as [? [=]]. lia.
  - destruct (lookupZ L i) eqn:E; [|done]. apply lookupZ_lt in E. lia.
Qed.

Lemma represents_lookup s L i l : represents s L → lookupZ L i = Some l →
  tq_validate_queue_index i = 1 ∧ ∃ q, lookupZ (queues s) i = Some q ∧ holds q l.
Proof.
  intros [Hq HL] Hl. split; [by rewrite (lookup_invalid L), Hl|].
  apply lookupZ_Some in Hl as [Hi Hl]. destruct (Forall2_lookup_r _ _ _ _ _ Hq Hl) as (q & Hq1 & Hq2).
  exists q. by rewrite lookupZ_Some.
Qed.

Lemma represents_set s L i q l : represents s L → holds q l →
  represents (set_queue i q s) (<[Z.to_nat i := l]> L).
Proof.
  intros [Hq HL] Hl. split; [by apply Forall2_insert|]. by rewrite length_insert.
Qed.

Lemma wp_the_queue s L i l (Q : tqueue → tqs → Prop) :
  represents s L → lookupZ L i = Some l → (∀ q, holds q l → Q q s) → wp C (queue i) Q s.
Proof.
  intros Hr Hl HQ. destruct (represents_lookup _ _ _ _ Hr Hl) as (_ & q & Hq & Hh).
  unfold queue. wp_step. wp_step. apply (wp_deref _ _ _ _ _ q); auto.
Qed.

Lemma wp_if_valid s L i l m (Q : unit → tqs → Prop) :
  represents s L → lookupZ L i = Some l → wp C m Q s → wp C (if_valid i m) Q s.
Proof. intros Hr Hl Hm. unfold if_valid. by destruct (represents_lookup _ _ _ _ Hr Hl) as [-> _]. Qed.

Lemma wp_num s L i l (Q : Z → tqs → Prop) :
  represents s L → lookupZ L i = Some l → Q (lenZ l) s → wp C (tq_get_msg_num i) Q s.
Proof.
  intros Hr Hl HQ. unfold tq_get_msg_num. destruct (represents_lookup _ _ _ _ Hr Hl) as [-> _].
  change (1 =? 0) with false. cbn iota. wp_step. apply (wp_the_queue _ L _ l); [done..|].
  intros q (rest & _ & -> & _). by wp_step.
Qed.

Lemma wp_add s L i l m (Q : Z → tqs → Prop) :
  represents s L → lookupZ L i = Some l → good_msg m →
  (lenZ l < TIMER_QUEUE_MSG_NUM_MAX → ∀ s', represents s' (<[Z.to_nat i := l ++ [m]]> L) → timer_queue_mutex s' = timer_queue_mutex s → Q 0 s') →
  (lenZ l = TIMER_QUEUE_MSG_NUM_MAX → Q (-1) s) →
  wp C (tq_add_msg m i) Q s.
Proof.
  intros Hr Hl Hm Hok Hfull. unfold tq_add_msg. destruct (represents_lookup _ _ _ _ Hr Hl) as [-> _].
  change (1 =? 0) with false. cbn iota. wp_step. apply (wp_num _ L _ l); [done..|].
  destruct (lenZ l =? TIMER_QUEUE_MSG_NUM_MAX) eqn:Hn; zbool; cbn [negb]; [by wp_step; auto|].
  wp_step. apply (wp_the_queue _ L _ l); [done..|]. intros q (rest & Hb & Hp & Hlen & Hg).
  wp_step. unfold slots. rewrite Hb. wp_step. rewrite Hp.
  assert (lenZ ((Some <$> l) ++ rest) = TIMER_QUEUE_MSG_NUM_MAX) as Hbl by (rewrite length_app, length_fmap; lia).
  rewrite Hbl, (proj2 (Z.ltb_lt _ _)) by lia. wp_step. wp_step. wp_step.
  apply Hok; [lia| |done]. apply represents_set; [done|].
  destruct rest as [|x rest]; [cbn in Hlen; lia|]. exists rest. cbn in Hlen |- *.
  rewrite Nat2Z.id, insert_app_r_alt, length_fmap, Nat.sub_diag by (rewrite length_fmap; lia).
  cbn. rewrite fmap_app, <-app_assoc, length_app. cbn. split_and!; [done|lia|lia|]. by apply Forall_app_2; [|apply Forall_singleton].
Qed.

Lemma wp_head s L i l (Q : option Z → tqs → Prop) :
  represents s L → lookupZ L i = Some l → Q (match l with [] => None | _ => Some 0 end) s →
  wp C (tq_get_head_msg i) Q s.
Proof.
  intros Hr Hl HQ. unfold tq_get_head_msg. destruct (represents_lookup _ _ _ _ Hr Hl) as [-> _].
  change (1 =? 0) with false. cbn iota. wp_step. apply (wp_num _ L _ l); [done..|].
  destruct l as [|m l]; [change (lenZ (@nil msg) =? 0) with true; cbn iota; by wp_step|].
  rewrite (proj2 (Z.eqb_neq _ _)) by (cbn; lia). by wp_step.
Qed.

Lemma wp_clear s L i l (Q : unit → tqs → Prop) :
  represents s L → lookupZ L i = Some l → (∀ s', represents s' (<[Z.to_nat i := []]> L) → Q tt s') →
  wp C (tq_clear_queue i) Q s.
Proof.
  intros Hr Hl HQ. apply (wp_if_valid _ L _ l); [done..|]. wp_step. apply (wp_the_queue _ L _ l); [done..|].
  intros q (rest & Hb & _ & Hlen & _). wp_step. apply HQ, represents_set; [done|].
  exists ((Some <$> l) ++ rest). cbn. rewrite Hb, length_app, length_fmap. split_and!; [done|done|lia|done].
Qed.

Lemma wp_memmove src n b p s (Q : tqueue → tqs → Prop) :
  0 <= src → 0 <= n → src + n <= lenZ b →
  Q (TQueue (QBlock (slice src n b ++ drop (Z.to_nat n) b)) p) s →
  wp C (tq_memmove 0 src n (TQueue (QBlock b) p)) Q s.
Proof.
  intros Hs Hn Hb HQ. unfold tq_memmove, slots. cbn [tq_block tq_ptr].
  destruct (Z.eqb_spec n 0) as [->|]; [by wp_step|]. wp_step. wp_step.
  rewrite (proj2 (Z.leb_le _ _)) by done. wp_step.
  pose proof (length_slice src n b). rewrite store_front by lia.
  by replace (length (slice src n b)) with (Z.to_nat n) by lia.
Qed.

Lemma wp_del_head s L i l (Q : unit → tqs → Prop) :
  represents s L → lookupZ L i = Some l → (∀ s', represents s' (<[Z.to_nat i := tail l]> L) → Q tt s') →
  wp C (tq_del_head_msg i) Q s.
Proof.
  intros Hr Hl HQ. apply (wp_if_valid _ L _ l); [done..|]. wp_step. apply (wp_the_queue _ L _ l); [done..|].
  intros [blk ptr] (rest & Hb & Hp & Hlen & Hg). cbn in Hb, Hp. subst blk ptr. cbn [tq_ptr].
  destruct l as [|m l].
  { change (negb (lenZ (@nil msg) =? 0)) with false. cbn iota. wp_step. apply HQ.
    rewrite list_insert_id by (by apply lookupZ_Some in Hl as [_ ?]). done. }
  rewrite (proj2 (Z.eqb_neq _ _)) by (cbn; lia). cbn [negb]. replace (lenZ (m :: l) - 1) with (lenZ l) by (cbn; lia).
  assert (lenZ ((Some <$> m :: l) ++ rest) = TIMER_QUEUE_MSG_NUM_MAX) as Hbl by (rewrite length_app, length_fmap; lia).
  wp_step. apply wp_memmove; [done|lia|rewrite Hbl; cbn in Hlen; lia|]. wp_step. cbn [tq_block].
  apply HQ, represents_set; [done|]. apply Forall_cons in Hg as [_ Hg].
  exists (drop (length l) ((Some <$> m :: l) ++ rest)). cbn [tq_block tq_ptr]. rewrite Nat2Z.id.
  assert (slice 1 (lenZ l) ((Some <$> m :: l) ++ rest) = Some <$> l) as ->.
  { unfold slice. change (Z.to_nat 1) with 1%nat. rewrite fmap_cons, Nat2Z.id. cbn [app drop].
    apply take_app_length'. by rewrite length_fmap. }
  cbn [tail]. split_and!; [done|cbn; lia| |done]. rewrite length_drop. cbn in Hlen. lia.
Qed.

(** The searches: the first message of the rest [l2] whose text is the string. *)
Lemma wp_search s L i l str : represents s L → lookupZ L i = Some l →
  ∀ fuel l1 l2 (Q : option Z → tqs → Prop), l = l1 ++ l2 → (length l2 < fuel)%nat →
  (∀ r, is_Some r ↔ existsb (λ m, strcasecmp_eq (text m) str) l2 = true → Q r s) →
  wp C (tq_search fuel str i (lenZ l1)) Q s.
Proof.
  intros Hr Hl. induction fuel as [|fuel IH]; intros l1 l2 Q -> Hf HQ; [lia|]. cbn [tq_search].
  wp_step. apply (wp_num _ L _ _ _ Hr Hl). rewrite length_app.
  destruct l2 as [|m l2].
  { rewrite (proj2 (Z.ltb_ge _ _)) by (cbn; lia). cbn [negb]. wp_step. apply HQ. cbn. by rewrite is_Some_alt. }
  rewrite (proj2 (Z.ltb_lt _ _)) by (cbn; lia). cbn [negb].
  wp_step. unfold tq_msg. wp_step. apply (wp_the_queue _ L _ _ _ Hr Hl). intros q (rest & Hb & _ & _ & Hg).
  wp_step. unfold slots. rewrite Hb. wp_step.
  apply (wp_deref _ _ _ _ _ m).
  { unfold lookupZ. rewrite (proj2 (Z.ltb_ge _ _)) by lia. rewrite Nat2Z.id, fmap_app, <-app_assoc.
    rewrite lookup_app_r by (rewrite length_fmap; lia). by rewrite length_fmap, Nat.sub_diag. }
  apply Forall_app in Hg as [_ Hg]. apply Forall_cons in Hg as [[a Ha] _].
  wp_step. apply (wp_deref _ _ _ _ _ a Ha).
  assert (text m = a) as Ht by (unfold text; by rewrite Ha).
  destruct (strcasecmp_eq a str) eqn:He.
  - wp_step. apply HQ. cbn. rewrite Ht, He. by split.
  - replace (lenZ l1 + 1) with (lenZ (l1 ++ [m])) by (rewrite length_app; cbn; lia).
    apply (IH _ l2); [by rewrite <-app_assoc|cbn in Hf; lia|]. intros r Hr'. apply HQ. cbn. by rewrite Ht, He.
Qed.

Lemma wp_find s L i l type str (Q : option Z → tqs → Prop) :
  represents s L → lookupZ L i = Some l →
  Q (if negb (bad_type type) && existsb (λ m, strcasecmp_eq (text m) str) l then Some 0 else None) s →
  wp C (tq_get_msg_on_str type str i) Q s.
Proof.
  intros Hr Hl HQ. unfold tq_get_msg_on_str. destruct (bad_type type); [by wp_step|].
  destruct (represents_lookup _ _ _ _ Hr Hl) as (-> & q & _ & rest & _ & _ & Hlen & _).
  change (1 =? 0) with false. cbn iota. wp_step.
  apply (wp_search _ _ _ _ _ Hr Hl tq_fuel [] l); [done|unfold tq_fuel, TIMER_QUEUE_MSG_NUM_MAX in *; lia|].
  intros r Hs. wp_step. cbn [negb andb] in HQ.
  destruct (existsb _ l), r; try done; exfalso; destruct Hs as [H1 H2]; [by destruct H2|discriminate H1; by eexists].
Qed.

(** A call with an index that is none. *)
Lemma wp_invalid s L op (Q : tq_res → tqs → Prop) :
  represents s L → lookupZ L (op_queue op) = None → Q (invalid_res op) s → wp C (tq_handle op) Q s.
Proof.
  intros [Hq HL] Hn HQ. pose proof (lookup_invalid L (op_queue op) HL) as Hv. rewrite Hn in Hv.
  destruct op; cbn [op_queue] in Hv; cbn [tq_handle]; apply wp_kfmap;
    unfold tq_add_msg, tq_del_head_msg, tq_clear_queue, tq_get_msg_num, tq_get_head_msg, tq_get_msg_on_str, if_valid;
    rewrite Hv; cbn; try destruct (bad_type _); by apply wp_ret.
Qed.

Lemma wp_op s L op :
  represents s L → op_ok op →
  wp C (tq_handle op) (λ r s', represents s' (spec_step op L).1 ∧ r = (spec_step op L).2) s.
Proof.
  intros Hr Hop. unfold spec_step. destruct (lookupZ L (op_queue op)) as [l|] eqn:Hl.
  2: { by apply (wp_invalid _ L). }
  assert (<[Z.to_nat (op_queue op) := l]> L = L) as Hid
    by (apply list_insert_id; by apply lookupZ_Some in Hl as [_ ?]).
  assert (lenZ l <= TIMER_QUEUE_MSG_NUM_MAX) as Hlen
    by (destruct (represents_lookup _ _ _ _ Hr Hl) as (_ & q & _ & rest & _ & _ & ? & _); lia).
  destruct op as [m i|i|i|i|i|type str i]; cbn [tq_handle op_queue fifo_step] in *; apply wp_kfmap.
  - apply (wp_add _ L _ l); [done..| |].
    + intros Hlt s' Hs' _. by rewrite (proj2 (Z.ltb_lt _ _)).
    + intros Heq. rewrite (proj2 (Z.ltb_ge _ _)) by lia. cbn. by rewrite Hid.
  - apply (wp_del_head _ L _ l); [done..|]. by intros s' Hs'.
  - apply (wp_clear _ L _ l); [done..|]. by intros s' Hs'.
  - apply (wp_num _ L _ l); [done..|]. cbn. by rewrite Hid.
  - apply (wp_head _ L _ l); [done..|]. cbn. by rewrite Hid.
  - apply (wp_find _ L _ l); [done..|]. cbn. by rewrite Hid.
Qed.
End refinement.

(** C16: in every sequence of calls to add, take, clear, count, look at and search messages,
    with valid and invalid indices, the two blocks of memory answer as two
    queues of at most 100 messages do: first in, first out, an addition to a
    full queue refused, and no access outside a block. A search answers whether
    there is such a message, but with the address of the first in the queue. *)
Theorem tq_refines C ops s L :
  represents s L → Forall op_ok ops →
  wp C (tq_run ops) (λ rs s', represents s' (spec_run ops L).1 ∧ rs = (spec_run ops L).2) s.
Proof.
  revert s L. induction ops as [|op ops IH]; intros s L Hr Hops; cbn [tq_run spec_run]; [by wp_step|].
  apply Forall_cons in Hops as [Hop Hops]. wp_step. eapply wp_mono; [by apply (wp_op C s L)|].
  intros r s1 [Hr1 ->]. destruct (spec_step op L) as [L1 r1]. cbn [fst snd] in *.
  wp_step. eapply wp_mono; [by apply (IH _ _ Hr1)|]. intros rs s2 [Hr2 ->].
  wp_step. by destruct (spec_run ops L1).
Qed.

(** ** Removing a message by its text *)

(** The contract of no promises, which every kernel obeys. *)
Definition anything : contract tqs := Contract (λ _ _, True) (λ _ _, True) False.

Lemma wp_anything {A} (m : K tqs A) Q s o t : wp anything m Q s →
  ∃ a t' s', m o (t, s) = Done (a, (t', s')) ∧ Q a s'.
Proof.
  intros H. specialize (H o (conj (λ _ _, I) (λ _ _, I)) t).
  destruct (m o (t, s)) as [[a [t' s']]| |]; [by exists a, t', s'|done..].
Qed.

(** The memory of a queue of [n] messages after one was removed by its text. *)
Definition after_del (n : Z) (b : list (option msg)) : list (option msg) :=
  slice TIMER_QUEUE_MSG_LEN (n - 1) b ++ drop (Z.to_nat (n - 1)) b.

Lemma wp_del_on_str C s L i l type str (Q : unit → tqs → Prop) :
  represents s L → lookupZ L i = Some l → bad_type type = false →
  existsb (λ m, strcasecmp_eq (text m) str) l = true → lenZ l <= 69 →
  (∀ b, lookupZ (queues s) i = Some (TQueue (QBlock b) (lenZ l)) →
    Q tt (set_queue i (TQueue (QBlock (after_del (lenZ l) b)) (lenZ l - 1)) s)) →
  wp C (tq_del_msg_on_str type str i) Q s.
Proof.
  intros Hr Hl Ht Hex Hn HQ. unfold tq_del_msg_on_str. rewrite Ht. apply (wp_if_valid _ _ L _ l); [done..|].
  destruct (represents_lookup _ _ _ _ Hr Hl) as (_ & [blk p] & Hq & rest & Hb & Hp & Hlen & _). cbn in Hb, Hp. subst blk p.
  assert (1 <= lenZ l) by (destruct l; [done|cbn; lia]).
  wp_step. apply (wp_search _ _ _ _ _ _ Hr Hl tq_fuel [] l); [done|unfold tq_fuel, TIMER_QUEUE_MSG_NUM_MAX in *; lia|].
  intros r Hs. destruct r as [k|]; [|by apply Hs in Hex as [? ?]].
  wp_step. unfold queue. wp_step. wp_step. apply (wp_deref _ _ _ _ _ _ Hq).
  wp_step. cbn [tq_ptr]. apply wp_memmove; [done|lia|rewrite length_app, length_fmap; unfold TIMER_QUEUE_MSG_LEN, TIMER_QUEUE_MSG_NUM_MAX in *; lia|].
  wp_step. by apply HQ.
Qed.

Lemma wp_del_only C s L i m type str (Q : unit → tqs → Prop) :
  represents s L → lookupZ L i = Some [m] → bad_type type = false → strcasecmp_eq (text m) str = true →
  (∀ s', represents s' (<[Z.to_nat i := []]> L) → timer_queue_mutex s' = timer_queue_mutex s → Q tt s') →
  wp C (tq_del_msg_on_str type str i) Q s.
Proof.
  intros Hr Hl Ht Hm HQ. apply (wp_del_on_str _ _ L _ [m]); [done..|cbn; by rewrite Hm|done|]. intros b Hb.
  apply HQ; [|done]. apply represents_set; [done|].
  destruct (represents_lookup _ _ _ _ Hr Hl) as (_ & q & Hq & rest & Hb' & _ & Hlen & _).
  rewrite Hb in Hq. simplify_eq. cbn in Hb'. simplify_eq. unfold after_del.
  change (lenZ [m] - 1) with 0. rewrite slice_0, drop_0. exists (Some m :: rest). cbn in *. split_and!; [done|done|lia|done].
Qed.

Lemma tq_del_overreads s L i l type str o t :
  represents s L → lookupZ L i = Some l → bad_type type = false →
  existsb (λ m, strcasecmp_eq (text m) str) l = true → 70 <= lenZ l →
  tq_del_msg_on_str type str i o (t, s) = Oops OutOfBounds.
Proof.
  intros Hr Hl Ht Hex Hn. unfold tq_del_msg_on_str, if_valid. rewrite Ht.
  destruct (represents_lookup _ _ _ _ Hr Hl) as (-> & [blk p] & Hq & rest & Hb & Hp & Hlen & _). cbn in Hb, Hp. subst blk p.
  destruct (wp_anything (tq_search tq_fuel str i 0) (λ r s', is_Some r ∧ s' = s) s o t) as (r & t' & s' & E & [k ->] & ->).
  { apply (wp_search _ _ _ _ _ _ Hr Hl tq_fuel [] l); [done|unfold tq_fuel, TIMER_QUEUE_MSG_NUM_MAX in *; lia|].
    intros r Hs. by split; [apply Hs|]. }
  change (negb (1 =? 1)) with false. cbn iota. unfold mbind, K_bind. rewrite E. unfold queue, gets, get, deref, mbind, K_bind. rewrite Hq. cbn [mret K_ret].
  unfold tq_memmove, slots. cbn [tq_ptr tq_block]. rewrite (proj2 (Z.eqb_neq _ _)) by lia.
  unfold mbind, K_bind. cbn [mret K_ret]. rewrite (proj2 (Z.leb_gt _ _)); [done|].
  rewrite length_app, length_fmap. unfold TIMER_QUEUE_MSG_LEN, TIMER_QUEUE_MSG_NUM_MAX in *. lia.
Qed.

(** C17: a message that is found is the only one of its queue: it goes. There are
    others: what stands 32 messages and more behind the first takes their place,
    so that none of a queue of at most 32 stays; with 70 messages or more the
    move reads behind the block. *)
Theorem tq_deletion C s L i l type str :
  represents s L → lookupZ L i = Some l → bad_type type = false →
  existsb (λ m, strcasecmp_eq (text m) str) l = true →
  (lenZ l = 1 → wp C (tq_del_msg_on_str type str i) (λ _ s', represents s' (<[Z.to_nat i := []]> L)) s) ∧
  (lenZ l <= 69 → wp C (tq_del_msg_on_str type str i) (λ _ s', ∃ b,
    lookupZ (queues s) i = Some (TQueue (QBlock b) (lenZ l)) ∧
    s' = set_queue i (TQueue (QBlock (after_del (lenZ l) b)) (lenZ l - 1)) s) s) ∧
  (70 <= lenZ l → ∀ o t, tq_del_msg_on_str type str i o (t, s) = Oops OutOfBounds).
Proof.
  intros Hr Hl Ht Hex. split_and!.
  - intros Hn. destruct l as [|m [|]]; cbn in Hn; [lia| |lia]. apply (wp_del_only _ _ L _ m); [done..| |by intros].
    cbn in Hex. by rewrite orb_false_r in Hex.
  - intros Hn. apply (wp_del_on_str _ _ L _ l); [done..|]. intros b Hb. by exists b.
  - intros Hn o t. by apply (tq_del_overreads s L i l).
Qed.

(** ** The threads *)

(** Time does not leave [lo .. hi], allocations succeed, and nobody else runs. *)
Definition tq_kernel (lo hi : Z) : contract tqs :=
  Contract (λ k z, good_ans k z ∧ (k = kint "time" → lo <= z <= hi)) alone False.

Definition kept (hi : Z) (l : list msg) : list msg := filter (λ m, hi < m_timer m) l.

(** What the loop of the thread can handle: one message at most, whose time has
    come or has not. *)
Definition sweepable (lo hi : Z) (l : list msg) : Prop :=
  (length l <= 1)%nat ∧ Forall (λ m, bad_type (m_type m) = false ∧ (m_timer m <= lo ∨ hi < m_timer m)) l.

Lemma strcasecmp_refl a : strcasecmp_eq a a = true.
Proof. by apply bool_decide_eq_true. Qed.

Lemma wp_tq_msg_0 C s L i m l (Q : msg → tqs → Prop) :
  represents s L → lookupZ L i = Some (m :: l) → Q m s → wp C (tq_msg i 0) Q s.
Proof.
  intros Hr Hl HQ. unfold tq_msg. wp_step. apply (wp_the_queue _ _ L _ (m :: l)); [done..|].
  intros q (rest & Hb & _). wp_step. unfold slots. rewrite Hb. wp_step. by apply (wp_deref _ _ _ _ _ m).
Qed.

Lemma wp_sweep lo hi s L i l (Q : unit → tqs → Prop) :
  lo <= hi → represents s L → lookupZ L i = Some l → sweepable lo hi l →
  (∀ s', represents s' (<[Z.to_nat i := kept hi l]> L) → timer_queue_mutex s' = timer_queue_mutex s → Q tt s') →
  wp (tq_kernel lo hi) (sweep_queue tq_fuel i 0) Q s.
Proof.
  intros Hlohi Hr Hl [Hlen Hall] HQ.
  assert (<[Z.to_nat i := l]> L = L) as Hid by (apply list_insert_id; by apply lookupZ_Some in Hl as [_ ?]).
  unfold tq_fuel. cbn [sweep_queue]. wp_step. apply (wp_num _ _ L _ l); [done..|].
  destruct l as [|m [|]]; [| |cbn in Hlen; lia].
  { change (negb (0 <? lenZ (@nil msg))) with true. cbn iota. wp_step. apply HQ; [unfold kept; by rewrite filter_nil, Hid|done]. }
  apply Forall_cons in Hall as [[Hty Htm] _]. change (negb (0 <? lenZ [m])) with false. cbn iota.
  wp_step. apply (wp_tq_msg_0 _ _ L _ m []); [done..|]. wp_step. apply wp_call. intros now [_ Hnow].
  specialize (Hnow eq_refl). unfold kept in HQ. rewrite filter_cons, filter_nil in HQ.
  destruct (Z.leb_spec (m_timer m) now) as [Hd|Hd].
  2: { wp_step. rewrite decide_True in HQ by lia. apply HQ; [by rewrite Hid|done]. }
  rewrite decide_False in HQ by lia.
  destruct (represents_lookup _ _ _ _ Hr Hl) as (_ & q & _ & rest & _ & _ & _ & Hg).
  apply Forall_cons in Hg as [[a Ha] _]. assert (text m = a) as Ht by (unfold text; by rewrite Ha).
  wp_step. apply (wp_deref _ _ _ _ _ a Ha). wp_step.
  apply (wp_del_only _ _ L _ m); [done..|by rewrite Ht, strcasecmp_refl|]. intros s' Hs' Hm'.
  change (Z.to_nat TIMER_QUEUE_MSG_NUM_MAX) with (S 99). cbn [sweep_queue]. wp_step.
  apply (wp_num _ _ (<[Z.to_nat i := []]> L) _ []); [done| |].
  { apply lookupZ_Some in Hl as [? Hl]. apply lookupZ_Some. split; [done|].
    apply list_lookup_insert_eq. by eapply lookup_lt_Some. }
  change (negb (0 + 1 <? lenZ (@nil msg))) with true. cbn iota. wp_step. by apply HQ.
Qed.

Lemma wp_for_queues C f s (Q : unit → tqs → Prop) :
  wp C (f 0) (λ _ s1, wp C (f 1) Q s1) s → wp C (for_queues f) Q s.
Proof.
  intros H. unfold for_queues. change (Z.to_nat TIMER_QUEUE_NUM_MAX) with 2%nat. cbn [for_each].
  wp_step. eapply wp_mono; [exact H|]. intros [] s1 H1. wp_step. eapply wp_mono; [exact H1|]. intros [] s2 H2. by wp_step.
Qed.

Lemma wp_lock_alone lo hi s (Q : unit → tqs → Prop) :
  timer_queue_mutex s = false → Q tt (set_tq_mutex true s) → wp (tq_kernel lo hi) lock Q s.
Proof. intros Hm HQ. apply wp_lock; intros s' Hr; change (s = s') in Hr; by subst s'. Qed.

Lemma represents_mutex s L b : represents s L → represents (set_tq_mutex b s) L.
Proof. done. Qed.

Lemma wp_thread_round lo hi s l0 l1 (Q : unit → tqs → Prop) :
  lo <= hi → represents s [l0; l1] → timer_queue_mutex s = false → sweepable lo hi l0 → sweepable lo hi l1 →
  (∀ s', represents s' [kept hi l0; kept hi l1] → timer_queue_mutex s' = false → Q tt s') →
  wp (tq_kernel lo hi) timer_thread_round Q s.
Proof.
  intros Ht Hr Hm H0 H1 HQ. unfold timer_thread_round. wp_step. apply wp_lock_alone; [done|].
  wp_step. apply wp_for_queues. apply (wp_sweep _ _ _ [l0; l1] _ l0); [done|by apply represents_mutex|done..|].
  intros s1 Hr1 Hm1. apply (wp_sweep _ _ _ [kept hi l0; l1] _ l1); [done..|].
  intros s2 Hr2 Hm2. apply wp_unlock; [cbn; by rewrite Hm2, Hm1|]. by apply HQ.
Qed.

(** Memory for both queues. *)
Lemma wp_init_queue lo hi i s (Q : unit → tqs → Prop) :
  0 <= i < 2 →
  Q tt (add_heap 1 (set_queue i (TQueue (QBlock (replicate 100 None)) 0) s)) →
  wp (tq_kernel lo hi) (tq_init_queue i) Q s.
Proof.
  intros Hi HQ. unfold tq_init_queue, if_valid. rewrite validate_spec, bool_decide_true by done.
  cbn. wp_step. apply wp_call. intros p [[_ Hp] _]. cbn in Hp.
  rewrite (proj2 (Z.eqb_neq _ _)) by done. wp_step. wp_step. wp_step. exact HQ.
Qed.

Lemma wp_init_all lo hi q0 q1 h (Q : unit → tqs → Prop) :
  (∀ s', represents s' [[]; []] → timer_queue_mutex s' = false → heap s' = h + 2 → Q tt s') →
  wp (tq_kernel lo hi) tq_init_queue_all Q (TQS [q0; q1] false h).
Proof.
  intros HQ. apply wp_for_queues. apply wp_init_queue; [done|]. apply wp_init_queue; [done|].
  apply HQ; [|done|cbn; lia]. split; [|done].
  cbn. repeat constructor; exists (replicate 100 None); split_and!; done || constructor.
Qed.

(** The messages of [main]. *)
Lemma cstr_app str l : Forall (λ c, c ≠ 0) str → cstr (str ++ 0 :: l) = Some str.
Proof.
  induction 1 as [|c str Hc Hz IH]; [done|]. rewrite <-app_comm_cons. cbn [cstr].
  rewrite (proj2 (Z.eqb_neq _ _)) by done. by rewrite IH.
Qed.

Lemma cstr_put_str size str old : 0 < size → size <= lenZ old → lenZ str < size → Forall (λ c, c ≠ 0) str →
  cstr (put_str size str old) = Some str.
Proof.
  intros Hs Ho Hl Hz. unfold put_str. rewrite take_ge by lia.
  rewrite store_front by (rewrite length_app; cbn; lia). rewrite <-app_assoc. by apply cstr_app.
Qed.

Definition main_str (i : Z) : list Z := if Z.rem i 2 =? 0 then mac_str i else ipv4_str i.

Lemma main_str_spec i : 0 <= i < 100 →
  Forall (λ c, c ≠ 0) (main_str i) ∧ lenZ (main_str i) < (if Z.rem i 2 =? 0 then 18 else 16).
Proof.
  intros Hi. assert (forallb (λ i, forallb (λ c, negb (c =? 0)) (main_str i) &&
    (lenZ (main_str i) <? (if Z.rem i 2 =? 0 then 18 else 16))) (seqZ 0 100) = true) as H by (vm_compute; done).
  rewrite forallb_forall in H. specialize (H i). rewrite andb_true_iff, Z.ltb_lt in H.
  destruct H as [H1 H2]; [by apply list_elem_of_In, elem_of_seqZ|]. split; [|done].
  apply Forall_forall. intros c Hc. rewrite forallb_forall in H1. apply list_elem_of_In, H1 in Hc. by zbool.
Qed.

(** What a round leaves: its message behind the others of its queue. *)
Definition main_put (i : Z) (m : msg) (L : list msg * list msg) : list msg * list msg :=
  if Z.rem i 2 =? 0 then (L.1, L.2 ++ [m]) else (L.1 ++ [m], L.2).

Definition both (L : list msg * list msg) : list (list msg) := [L.1; L.2].

Lemma wp_tq_put lo hi m ix s L l (Q : msg → tqs → Prop) :
  represents s L → lookupZ L ix = Some l → good_msg m → lenZ l < 100 → timer_queue_mutex s = true →
  (∀ s', represents s' (<[Z.to_nat ix := l ++ [m]]> L) → timer_queue_mutex s' = false → Q m s') →
  wp (tq_kernel lo hi) (tq_add_msg m ix;; unlock;; mret m) Q s.
Proof.
  intros Hr Hl Hg Hlen Hm HQ. wp_step. apply (wp_add _ _ L _ l); [done..| |].
  - intros _ s' Hs' Hm'. wp_step. apply wp_unlock; [cbn; by rewrite Hm'|]. wp_step. by apply HQ.
  - unfold TIMER_QUEUE_MSG_NUM_MAX. lia.
Qed.

Lemma put_str_18 size str old : 0 < size → size <= 18 → lenZ old = 18 → lenZ str < size → Forall (λ c, c ≠ 0) str →
  cstr (put_str size str old) = Some str ∧ lenZ (put_str size str old) = 18.
Proof. intros. split; [apply cstr_put_str; (done || lia)|]. unfold put_str. by rewrite length_store. Qed.

Lemma wp_main_round lo hi i tqm s L (Q : msg → tqs → Prop) :
  0 <= i < 100 → lenZ (m_str tqm) = 18 → represents s (both L) → timer_queue_mutex s = false →
  lenZ L.1 < 100 → lenZ L.2 < 100 →
  (∀ m s', text m = main_str i → lenZ (m_str m) = 18 → represents s' (both (main_put i m L)) →
    timer_queue_mutex s' = false → Q m s') →
  wp (tq_kernel lo hi) (main_round i tqm) Q s.
Proof.
  intros Hi Hold Hr Hm H1 H2 HQ. unfold main_round. wp_step. apply wp_lock_alone; [done|].
  wp_step. wp_step. destruct (main_str_spec i Hi) as [Hz Hl]. unfold main_str, main_put, both in *.
  destruct (Z.rem i 2 =? 0).
  - destruct (put_str_18 TIMER_QUEUE_MAC_STRING_LEN (mac_str i) (m_str tqm)) as [Hc Hs]; [done..|].
    apply (wp_tq_put _ _ _ _ _ [L.1; L.2] L.2); [by apply represents_mutex|done|by exists (mac_str i)|done|done|].
    intros s' Hs' Hm'. apply HQ; [unfold text; cbn [m_str]; by rewrite Hc|done..].
  - destruct (put_str_18 TIMER_QUEUE_IPV4_STRING_LEN (ipv4_str i) (m_str tqm)) as [Hc Hs]; [done..|].
    apply (wp_tq_put _ _ _ _ _ [L.1; L.2] L.1); [by apply represents_mutex|done|by exists (ipv4_str i)|done|done|].
    intros s' Hs' Hm'. apply HQ; [unfold text; cbn [m_str]; by rewrite Hc|done..].
Qed.

(** The numbers below [n] that are even, and odd. *)
Definition evens (n : nat) : list Z := filter (λ i, Z.rem i 2 = 0) (seqZ 0 (Z.of_nat n)).
Definition odds (n : nat) : list Z := filter (λ i, Z.rem i 2 ≠ 0) (seqZ 0 (Z.of_nat n)).

(** The queues after [n] rounds. *)
Definition filled (n : nat) (L : list msg * list msg) : Prop :=
  text <$> L.1 = ipv4_str <$> odds n ∧ text <$> L.2 = mac_str <$> evens n.

Lemma filled_length n L : filled n L → (length L.1 + length L.2 = n)%nat.
Proof.
  intros [H1 H2]. apply (f_equal length) in H1, H2. rewrite !length_fmap in H1, H2. rewrite H1, H2.
  clear. unfold odds, evens. rewrite <-(Nat2Z.id n) at 3. rewrite <-(length_seqZ 0 (Z.of_nat n)).
  induction (seqZ 0 (Z.of_nat n)) as [|x l IH]; [done|]. rewrite !filter_cons.
  destruct (decide (Z.rem x 2 = 0)); [rewrite decide_False by auto|rewrite decide_True by done]; cbn; lia.
Qed.

Lemma filled_put n m L : filled n L → text m = main_str (Z.of_nat n) → filled (S n) (main_put (Z.of_nat n) m L).
Proof.
  intros [H1 H2] Hm. unfold filled, odds, evens, main_put, main_str in *.
  replace (Z.of_nat (S n)) with (Z.of_nat n + 1) by lia.
  rewrite (seqZ_app 0 (Z.of_nat n) 1), !filter_app, !fmap_app by lia. change (seqZ (0 + Z.of_nat n) 1) with [0 + Z.of_nat n].
  rewrite Z.add_0_l, !filter_cons, !filter_nil.
  destruct (Z.eqb_spec (Z.rem (Z.of_nat n) 2) 0) as [Hr|Hr]; cbn [fst snd].
  - rewrite decide_False, decide_True by auto. rewrite fmap_app, H1, H2. cbn. by rewrite Hm, app_nil_r.
  - rewrite decide_True, decide_False by auto. rewrite fmap_app, H1, H2. cbn. by rewrite Hm, app_nil_r.
Qed.

Lemma wp_main_loop lo hi n k tqm s L (Q : unit → tqs → Prop) :
  (k + n <= 100)%nat → lenZ (m_str tqm) = 18 → represents s (both L) → timer_queue_mutex s = false → filled k L →
  (∀ s' L', represents s' (both L') → timer_queue_mutex s' = false → filled (k + n) L' → Q tt s') →
  wp (tq_kernel lo hi) (main_loop n (Z.of_nat k) tqm) Q s.
Proof.
  revert k tqm s L. induction n as [|n IH]; intros k tqm s L Hk Ht Hr Hm Hf HQ; cbn [main_loop].
  - wp_step. apply (HQ _ L); [done..|]. by rewrite Nat.add_0_r.
  - pose proof (filled_length _ _ Hf). wp_step.
    apply (wp_main_round _ _ _ _ _ L); [lia|done..|lia|lia|]. intros m s' Hx Hlen Hr' Hm'.
    replace (Z.of_nat k + 1) with (Z.of_nat (S k)) by lia.
    apply (IH (S k) m s' (main_put (Z.of_nat k) m L)); [lia|done..|by apply filled_put|].
    intros s1 L1 H1 H2 H3. apply (HQ s1 L1); [done..|]. by replace (k + S n)%nat with (S k + n)%nat by lia.
Qed.

(** After [n] of its at most 100 rounds the main thread, which nothing is removed
    from meanwhile, has put the addresses with an odd number into the one queue and those with
    an even number into the other, each whole and in order: neither queue is ever full. *)
Theorem tq_main_fills lo hi n tqm q0 q1 h :
  (n <= 100)%nat → lenZ (m_str tqm) = 18 →
  wp (tq_kernel lo hi) (main_start n tqm) (λ _ s', ∃ l0 l1, represents s' [l0; l1] ∧ timer_queue_mutex s' = false ∧
    text <$> l0 = ipv4_str <$> odds n ∧ text <$> l1 = mac_str <$> evens n) (TQS [q0; q1] false h).
Proof.
  intros Hn Ht. unfold main_start. wp_step. apply wp_init_all. intros s Hr Hm _.
  apply (wp_main_loop _ _ _ 0 _ _ ([], [])); [lia|done..|]. intros s' L' Hr' Hm' [H1 H2]. by exists L'.1, L'.2.
Qed.

(** A round of the timer thread, when each queue has one message at most and
    the time of none comes during the round: what was due is removed, what was not
    stays, and the mutex is free again. *)
Theorem tq_thread_removes lo hi s l0 l1 :
  lo <= hi → represents s [l0; l1] → timer_queue_mutex s = false → sweepable lo hi l0 → sweepable lo hi l1 →
  wp (tq_kernel lo hi) timer_thread_round
    (λ _ s', represents s' [kept hi l0; kept hi l1] ∧ timer_queue_mutex s' = false) s.
Proof. intros Ht Hr Hm H0 H1. by apply (wp_thread_round _ _ _ l0 l1). Qed.

(** ** Concrete queues *)

Definition queue_of (l : list msg) : tqueue :=
  TQueue (QBlock ((Some <$> l) ++ replicate (100 - length l) None)) (lenZ l).
Definition tqs_of (l0 l1 : list msg) : tqs := TQS [queue_of l0; queue_of l1] false 2.

Lemma represents_of l0 l1 : (length l0 <= 100)%nat → (length l1 <= 100)%nat → Forall good_msg l0 → Forall good_msg l1 →
  represents (tqs_of l0 l1) [l0; l1].
Proof.
  assert (∀ l, (length l <= 100)%nat → Forall good_msg l → holds (queue_of l) l) as H.
  { intros l Hl Hg. exists (replicate (100 - length l) None). rewrite length_replicate. split_and!; [done|done| |done].
    unfold TIMER_QUEUE_MSG_NUM_MAX. lia. }
  intros. split; [|done]. cbn. repeat constructor; by apply H.
Qed.

Definition msg_at (i timer : Z) : msg := Msg TIMER_QUEUE_MSG_TYPE_MAC (mac_str i ++ [0]) timer.

Lemma msg_at_good i timer : 0 <= i < 100 → Z.rem i 2 = 0 → good_msg (msg_at i timer).
Proof.
  intros Hi Hr. destruct (main_str_spec i Hi) as [Hz _]. unfold main_str in Hz. rewrite Hr in Hz.
  exists (mac_str i). by apply cstr_app.
Qed.

Lemma tq_refines_witness :
  let ops := [TAdd (msg_at 0 5) 1; TAdd (msg_at 2 6) 1; TFind 1 (mac_str 2) 1; TDelHead 1; THead 1; TNum 7] in
  wp anything (tq_run ops) (λ rs s', represents s' (spec_run ops [[]; []]).1 ∧ rs = (spec_run ops [[]; []]).2) (tqs_of [] []).
Proof.
  intros ops. apply (tq_refines anything ops); [apply represents_of; [cbn; lia|cbn; lia|done|done]|].
  repeat constructor; by apply msg_at_good.
Defined.

Lemma tq_deletion_witness :
  (lenZ [msg_at 0 5] = 1 → wp anything (tq_del_msg_on_str 1 (mac_str 0) 0) (λ _ s', represents s' (<[Z.to_nat 0 := []]> [[msg_at 0 5]; []])) (tqs_of [msg_at 0 5] [])) ∧
  (lenZ [msg_at 0 5] <= 69 → wp anything (tq_del_msg_on_str 1 (mac_str 0) 0) (λ _ s', ∃ b,
    lookupZ (queues (tqs_of [msg_at 0 5] [])) 0 = Some (TQueue (QBlock b) (lenZ [msg_at 0 5])) ∧
    s' = set_queue 0 (TQueue (QBlock (after_del (lenZ [msg_at 0 5]) b)) (lenZ [msg_at 0 5] - 1)) (tqs_of [msg_at 0 5] [])) (tqs_of [msg_at 0 5] [])) ∧
  (70 <= lenZ [msg_at 0 5] → ∀ o t, tq_del_msg_on_str 1 (mac_str 0) 0 o (t, tqs_of [msg_at 0 5] []) = Oops OutOfBounds).
Proof.
  apply (tq_deletion anything (tqs_of [msg_at 0 5] []) [[msg_at 0 5]; []] 0 [msg_at 0 5]); [|done|done|by vm_compute].
  apply represents_of; [cbn; lia|cbn; lia| |done]. constructor; [by apply msg_at_good|done].
Defined.

Lemma tq_main_fills_witness :
  wp (tq_kernel 0 1000) (main_start 100 (Msg 0 (replicate 18 0) 0)) (λ _ s', ∃ l0 l1, represents s' [l0; l1] ∧ timer_queue_mutex s' = false ∧
    text <$> l0 = ipv4_str <$> odds 100 ∧ text <$> l1 = mac_str <$> evens 100) (TQS [TQueue QNull 0; TQueue QNull 0] false 0).
Proof. apply tq_main_fills; [lia|done]. Defined.

Lemma tq_thread_removes_witness :
  wp (tq_kernel 30 40) timer_thread_round
    (λ _ s', represents s' [kept 40 [msg_at 0 20]; kept 40 [msg_at 2 60]] ∧ timer_queue_mutex s' = false)
    (tqs_of [msg_at 0 20] [msg_at 2 60]).
Proof.
  apply (tq_thread_removes 30 40 (tqs_of [msg_at 0 20] [msg_at 2 60])); [done| |done| |].
  - apply represents_of; [cbn; lia|cbn; lia| |]; constructor; [by apply msg_at_good|done|by apply msg_at_good|done].
  - split; [cbn; lia|]. constructor; [split; [done|left; done]|done].
  - split; [cbn; lia|]. constructor; [split; [done|right; done]|done].
Defined.

(** Two addresses in one queue, whose time comes: the first round of the thread
    leaves one message that nobody wrote, and the second reads it. *)
Lemma tq_two_messages :
  run quiet_oracle timer_thread_round (tqs_of [] [msg_at 0 0; msg_at 2 0])
    = Done (tt, TQS [queue_of []; TQueue (QBlock (None :: Some (msg_at 2 0) :: replicate 98 None)) 1] false 2) ∧
  run quiet_oracle (timer_thread_round;; timer_thread_round) (tqs_of [] [msg_at 0 0; msg_at 2 0]) = Oops OutOfBounds.
Proof. split; vm_compute; done. Qed.

(** A search finds the second message and returns the first. *)
Lemma tq_search_first :
  match run quiet_oracle (tq_get_msg_on_str 1 (mac_str 2) 1) (tqs_of [] [msg_at 0 0; msg_at 2 0]) with
  | Done (r, _) => r = Some 0 ∧ tolower <$> text (msg_at 0 0) ≠ tolower <$> mac_str 2
  | _ => False
  end.
Proof. vm_compute. done. Qed.

(** The queues are destroyed and the pointers stay: a second time frees twice. *)
Lemma tq_destroy_twice :
  run quiet_oracle (tq_destroy_queue_all;; tq_destroy_queue_all) (tqs_of [] []) = Oops DoubleFree.
Proof. by vm_compute. Qed.
