(* ===== verification/Buttons.v ===== *)
(** * gpio-button-manager: a restart by two buttons
    (src/lkd-todo/platform/button-manager/platform_button.c)

    Two buttons with an LED each; the machine restarts when one has been held for
    four seconds while the other is held. The code for the two is the same but
    for the numbers in the names; here it is written once, for [b = false] (1) and
    [b = true] (2). *)

From stdpp Require Import base tactics numbers list strings.
From S2P Require Import Prelude KMonad Registry.
From Stdlib Require Import ZArith Lia.

Open Scope Z_scope.

(** ** Data

    The variables with the number of a button in their names: [timer] is the
    expiry of a pending [long_press_timer], [timer_set] says whether [setup_timer] was
    called, [led_pin] is the level of the LED. *)
Record button := Button {
  reset_flag : bool;
  ledOn : bool;
  timer : option Z;
  timer_set : bool;
  led_pin : bool;
  irqNumber : Z
}.

(** The gpios of [struct artik_switch], of one button. *)
Record pins := Pins { gpioButton : Z; gpioLED : Z }.

(** [drvdata] is [None] before [probe] and after the driver core has freed it. *)
Record board := Board {
  button1 : button;
  button2 : button;
  drvdata : option (pins * pins);
  jiffies : Z;
  restarted : bool;
  board_regs : registry
}.

Definition the_button (b : bool) (s : board) : button := if b then button2 s else button1 s.
Definition set_button (b : bool) (x : button) (s : board) : board :=
  Board (if b then button1 s else x) (if b then x else button2 s) (drvdata s) (jiffies s) (restarted s) (board_regs s).
Definition set_drvdata (d : option (pins * pins)) (s : board) : board :=
  Board (button1 s) (button2 s) d (jiffies s) (restarted s) (board_regs s).
Definition set_jiffies (n : Z) (s : board) : board :=
  Board (button1 s) (button2 s) (drvdata s) n (restarted s) (board_regs s).
Definition set_restarted (s : board) : board :=
  Board (button1 s) (button2 s) (drvdata s) (jiffies s) true (board_regs s).
Definition set_board_regs (g : registry) (s : board) : board :=
  Board (button1 s) (button2 s) (drvdata s) (jiffies s) (restarted s) g.

#[export] Instance board_registry : HasRegistry board :=
  { registry_of := board_regs; set_registry := set_board_regs; registry_set g s := eq_refl }.

Definition set_reset_flag (v : bool) (x : button) : button :=
  Button v (ledOn x) (timer x) (timer_set x) (led_pin x) (irqNumber x).
Definition set_ledOn (v : bool) (x : button) : button :=
  Button (reset_flag x) v (timer x) (timer_set x) (led_pin x) (irqNumber x).
Definition set_timer (v : option Z) (x : button) : button :=
  Button (reset_flag x) (ledOn x) v (timer_set x) (led_pin x) (irqNumber x).
Definition setup_timer (x : button) : button :=
  Button (reset_flag x) (ledOn x) None true (led_pin x) (irqNumber x).
Definition set_led_pin (v : bool) (x : button) : button :=
  Button (reset_flag x) (ledOn x) (timer x) (timer_set x) v (irqNumber x).
Definition set_irqNumber (v : Z) (x : button) : button :=
  Button (reset_flag x) (ledOn x) (timer x) (timer_set x) (led_pin x) v.

Definition on_button (b : bool) (f : button → button) : K board unit :=
  modify (λ s, set_button b (f (the_button b s)) s).

Section buttons.
Context (HZ : Z).

(** [msecs_to_jiffies(4000)] *)
Definition long_press : Z := 4 * HZ.

(** ** Interrupts and timers *)

(** [artik_switch], which the handlers were given as [dev_id]. *)
Definition dev_id (b : bool) : K board pins :=
  d ← gets drvdata ≫= deref UseAfterFree;
  mret (if b then d.2 else d.1).

(** [mod_timer], of a timer that was set up. *)
Definition mod_timer (b : bool) : K board unit :=
  s ← get;
  if timer_set (the_button b s) then on_button b (set_timer (Some (jiffies s + long_press))) else oops BugOn.

(** [value] is what [gpio_get_value] answers for the pin of the button. *)
Definition button_irq_handler (b : bool) (value : Z) : K board unit :=
  _ ← dev_id b;
  if u8 value =? 0 then
    on_button b (set_reset_flag true);;
    on_button b (λ x, set_ledOn (negb (ledOn x)) x);;
    on_button b (λ x, set_led_pin (ledOn x) x);;
    mod_timer b
  else
    on_button b (set_reset_flag false);;
    t ← gets (λ s, timer (the_button b s));
    match t with
    | Some _ => on_button b (set_timer None)
    | None => mret tt
    end.
Definition button1_irq_handler : Z → K board unit := button_irq_handler false.
Definition button2_irq_handler : Z → K board unit := button_irq_handler true.

(** Both timers have the same function; [emergency_restart] does not come back. *)
Definition long_press_timer_callback : K board unit :=
  s ← get;
  if reset_flag (button1 s) && reset_flag (button2 s) then modify set_restarted else mret tt.

(** What the kernel does about a timer at a tick of the clock. *)
Definition run_timer (b : bool) : K board unit :=
  s ← get;
  match timer (the_button b s) with
  | Some e =>
      if negb (restarted s) && (e <=? jiffies s)
      then on_button b (set_timer None);; long_press_timer_callback else mret tt
  | None => mret tt
  end.

Inductive event := Irq (b : bool) (value : Z) | Tick.

(** After a restart nothing happens. *)
Definition handle_event (e : event) : K board unit :=
  s ← get;
  if restarted s then mret tt else
  match e with
  | Irq b value => if b then button2_irq_handler value else button1_irq_handler value
  | Tick => modify (λ s, set_jiffies (jiffies s + 1) s);; run_timer false;; run_timer true
  end.

Fixpoint handle_events (l : list event) : K board unit :=
  match l with [] => mret tt | e :: l => handle_event e;; handle_events l end.

(** ** Probe and remove *)

(** [gpio_free] also takes back what [gpio_export] did. *)
Definition gpio (n : Z) : resource := Res "gpio" n.
Definition irq_of_dev (n : Z) : resource := Res "irq" n.
Definition irq_of_null (n : Z) : resource := Res "irq of NULL" n.

Definition drv_pins (b : bool) : K board pins :=
  d ← gets drvdata ≫= deref NullDeref;
  mret (if b then d.2 else d.1).

Definition gpioled_setup (b : bool) : K board Z :=
  p ← drv_pins b;
  v ← call (kint "gpio_is_valid");
  if v =? 0 then mret (- ENODEV) else
  on_button b (set_ledOn true);;
  ret ← acquire "gpio_request" (gpio (gpioLED p));
  if ret <? 0 then mret ret else
  ret ← call (kint "gpio_direction_output");
  if ret <? 0 then give_back (gpio (gpioLED p));; mret ret else
  on_button b (λ x, set_led_pin (ledOn x) x);;
  ret ← call (kint "gpio_export");
  if ret <? 0 then give_back (gpio (gpioLED p));; mret ret else
  mret ret.
Definition gpioled1_setup : K board Z := gpioled_setup false.
Definition gpioled2_setup : K board Z := gpioled_setup true.

(** The label [gpioButton_free]. *)
Definition button_fail (p : pins) (ret : Z) : K board Z :=
  give_back (gpio (gpioLED p));;
  give_back (gpio (gpioButton p));;
  mret ret.

Definition button_interrupt_config (b : bool) : K board Z :=
  p ← drv_pins b;
  ret ← acquire "gpio_request" (gpio (gpioButton p));
  if ret <? 0 then give_back (gpio (gpioLED p));; mret ret else
  ret ← call (kint "gpio_direction_input");
  if ret <? 0 then button_fail p ret else
  ret ← call (kint "gpio_export");
  if ret <? 0 then button_fail p ret else
  _ ← call (kint "gpio_set_debounce");
  n ← call (kint "gpio_to_irq");
  on_button b (set_irqNumber (u32 n));;
  ret ← acquire "request_irq" (irq_of_dev (u32 n));
  if negb (ret =? 0) then button_fail p ret else
  mret ret.
Definition button1_interrupt_config : K board Z := button_interrupt_config false.
Definition button2_interrupt_config : K board Z := button_interrupt_config true.

(** A gpio of the device tree; [None] when it is not valid. *)
Definition get_gpio : K board (option Z) :=
  n ← call (kint "of_get_named_gpio");
  v ← call (kint "gpio_is_valid");
  mret (if v =? 0 then None else Some n).

(** From [gpioled1_setup] on. *)
Definition probe_buttons : K board Z :=
  ret ← gpioled1_setup;
  if ret <? 0 then mret ret else
  ret ← button1_interrupt_config;
  if negb (ret =? 0) then mret ret else
  on_button false setup_timer;;
  ret ← gpioled2_setup;
  if ret <? 0 then mret ret else
  ret ← button2_interrupt_config;
  if negb (ret =? 0) then mret ret else
  on_button true setup_timer;;
  mret ret.

Definition gpio_shortlong_gpio_probe : K board Z :=
  np ← call (kint "of_node");
  if np =? 0 then mret (- ENODEV) else
  p ← call (kmalloc 16);
  if p =? 0 then mret (- ENOMEM) else
  b1 ← get_gpio;
  match b1 with None => mret (- ENODEV) | Some b1 =>
  l1 ← get_gpio;
  match l1 with None => mret (- ENODEV) | Some l1 =>
  b2 ← get_gpio;
  match b2 with None => mret (- ENODEV) | Some b2 =>
  l2 ← get_gpio;
  match l2 with None => mret (- ENODEV) | Some l2 =>
  modify (set_drvdata (Some (Pins b1 l1, Pins b2 l2)));;
  probe_buttons
  end end end end.

(** [free_irq] finds no handler with [dev_id] NULL. *)
Definition gpio_shortlong_gpio_remove : K board Z :=
  d ← gets drvdata ≫= deref NullDeref;
  n2 ← gets (λ s, irqNumber (button2 s));
  give_back (irq_of_null n2);;
  on_button true (set_led_pin false);;
  give_back (gpio (gpioLED d.2));;
  give_back (gpio (gpioButton d.2));;
  n1 ← gets (λ s, irqNumber (button1 s));
  give_back (irq_of_null n1);;
  on_button false (set_led_pin false);;
  give_back (gpio (gpioLED d.1));;
  give_back (gpio (gpioButton d.1));;
  mret 0.

(** The driver core frees what [devm_kzalloc] gave when [probe] fails, and after
    [remove]. *)
Definition bind_driver : K board Z :=
  r ← gpio_shortlong_gpio_probe;
  (if negb (r =? 0) then modify (set_drvdata None) else mret tt);;
  mret r.
Definition unbind_driver : K board Z :=
  r ← gpio_shortlong_gpio_remove;
  modify (set_drvdata None);;
  mret r.

(** The driver is bound, and what happens then. *)
Definition buttons_run (evs : list event) : K board Z :=
  r ← bind_driver;
  (if r =? 0 then handle_events evs else mret tt);;
  mret r.

(** Bound and unbound. *)
Definition buttons_load : K board Z :=
  r ← bind_driver;
  if r =? 0 then unbind_driver else mret r.

(** ** Specification

    What happened so far, the latest first. [age b tr] is the number of ticks
    since button [b] was last pressed, when it has not been released since. *)
Fixpoint age (b : bool) (tr : list event) : option Z :=
  match tr with
  | [] => None
  | Tick :: tr => Z.add 1 <$> age b tr
  | Irq b' value :: tr => if Bool.eqb b b' then if u8 value =? 0 then Some 0 else None else age b tr
  end.

Definition pressed (b : bool) (tr : list event) : bool := bool_decide (is_Some (age b tr)).
Definition due (b : bool) (tr : list event) : bool := bool_decide (age b tr = Some long_press).

(** At some tick a button had been held for the time of [long_press], and both were
    held. *)
Fixpoint should_restart (tr : list event) : bool :=
  match tr with
  | [] => false
  | e :: tr' =>
      should_restart tr' ||
      match e with
      | Tick => (due false tr || due true tr) && (pressed false tr && pressed true tr)
      | Irq _ _ => false
      end
  end.

(** How often a button was pressed. *)
Fixpoint presses (b : bool) (tr : list event) : nat :=
  match tr with
  | [] => O
  | Irq b' value :: tr => if Bool.eqb b b' && (u8 value =? 0) then S (presses b tr) else presses b tr
  | Tick :: tr => presses b tr
  end.

(** The timer of a button that has been held for [age] ticks. *)
Definition timer_of (now : Z) (a : option Z) : option Z :=
  match a with Some a => if a <? long_press then Some (now - a + long_press) else None | None => None end.

Definition button_ok (b : bool) (tr : list event) (s : board) : Prop :=
  let x := the_button b s in
  timer_set x = true ∧ reset_flag x = pressed b tr ∧ timer x = timer_of (jiffies s) (age b tr) ∧
  ledOn x = Nat.even (presses b tr) ∧ led_pin x = ledOn x.

Definition follows (tr : list event) (s : board) : Prop :=
  is_Some (drvdata s) ∧ restarted s = should_restart tr ∧
  (should_restart tr = false → ∀ b, button_ok b tr s).

(** A button that was just set up. *)
Definition fresh_button (n : Z) : button := Button false true None true true n.
Definition fresh_board (p : pins * pins) (n1 n2 now : Z) (g : registry) : board :=
  Board (fresh_button n1) (fresh_button n2) (Some p) now false g.

Lemma even_S n : Nat.even (S n) = negb (Nat.even n).
Proof. by rewrite Nat.even_succ, <-Nat.negb_even. Qed.

Section proofs.
Context (C : contract board) (HHZ : 0 < HZ).

Lemma fresh_follows p n1 n2 now g : follows [] (fresh_board p n1 n2 now g).
Proof. split_and!; [by eexists|done|]. intros _ []; by split_and!. Qed.

Lemma age_nonneg b tr a : age b tr = Some a → 0 <= a.
Proof.
  revert a. induction tr as [|[b' v|] tr IH]; intros a; cbn; [done| |].
  - destruct (Bool.eqb b b'); [|apply IH]. destruct (_ =? _); [|done]. intros. simplify_eq. lia.
  - destruct (age b tr) as [a'|]; [|done]. cbn. intros. simplify_eq. specialize (IH a' eq_refl). lia.
Qed.

Lemma pressed_tick b tr : pressed b (Tick :: tr) = pressed b tr.
Proof. unfold pressed. cbn. apply bool_decide_ext. by rewrite fmap_is_Some. Qed.

Lemma set_button_other b b' x s : the_button b' (set_button b x s) = if Bool.eqb b' b then x else the_button b' s.
Proof. by destruct b, b', s. Qed.

(** A press or a release. *)
Lemma wp_irq b value tr s (Q : unit → board → Prop) :
  follows tr s → should_restart tr = false →
  (∀ s', follows (Irq b value :: tr) s' → Q tt s') → wp C (button_irq_handler b value) Q s.
Proof.
  intros (Hd & Hre & Hok) Hno HQ. specialize (Hok Hno). destruct Hd as [d Hd].
  pose proof (Hok b) as (H1 & H2 & H3 & H4 & H5).
  assert (∀ s', drvdata s' = Some d → restarted s' = false → jiffies s' = jiffies s →
    the_button (negb b) s' = the_button (negb b) s → button_ok b (Irq b value :: tr) s' → Q tt s') as Hfin.
  { intros s' Hd' Hre' Hj Hother Hb. apply HQ. split_and!; [by eexists|cbn; by rewrite Hre', Hno|].
    intros _ b'. destruct (Bool.eqb_spec b' b) as [->|Hne]; [done|].
    assert (b' = negb b) as -> by (by destruct b, b'). specialize (Hok (negb b)).
    unfold button_ok, pressed in *. rewrite Hother, Hj. cbn [age presses].
    by replace (Bool.eqb (negb b) b) with false by (by destruct b). }
  unfold button_irq_handler, dev_id. do 4 wp_step. apply (wp_deref _ _ _ _ _ d); [done|]. wp_step.
  unfold button_ok, pressed in Hfin. cbn [age presses] in Hfin. rewrite Bool.eqb_reflx in Hfin.
  destruct s as [x1 x2 dd j r g], b; cbn in *; subst dd.
  all: destruct (u8 value =? 0) eqn:Hv; cbn iota; unfold mod_timer; unfold on_button; repeat (wp_step; cbn); try congruence.
  all: apply Hfin; try done; cbn; try congruence.
  all: split_and!; try done; try congruence.
  all: first [rewrite (proj2 (Z.ltb_lt 0 _)) by (unfold long_press; lia); f_equal; lia
    | rewrite H4; symmetry; apply even_S].
Qed.

(** The button whose timer the kernel looks at, before the other or after it. *)
Lemma timer_tick now a : 0 <= a →
  timer_of (now + 1) (Some (1 + a)) =
  match timer_of now (Some a) with
  | Some e => if e <=? now + 1 then None else Some e
  | None => None
  end.
Proof.
  intros Ha. unfold timer_of. destruct (Z.ltb_spec a long_press), (Z.ltb_spec (1 + a) long_press); try lia; try done.
  - rewrite (proj2 (Z.leb_gt _ _)) by lia. f_equal. lia.
  - by rewrite (proj2 (Z.leb_le _ _)) by lia.
Qed.

(** It fires when the button is due. *)
Lemma timer_fires b tr now : 
  match timer_of now (age b tr) with Some e => e <=? now + 1 | None => false end = due b (Tick :: tr).
Proof.
  unfold due. cbn [age]. destruct (age b tr) as [a|] eqn:Ha; cbn; [|done]. apply age_nonneg in Ha.
  destruct (Z.ltb_spec a long_press).
  - destruct (Z.leb_spec (now - a + long_press) (now + 1)); symmetry; [apply bool_decide_eq_true|apply bool_decide_eq_false].
    + f_equal. lia.
    + intros [=]. lia.
  - symmetry. apply bool_decide_eq_false. intros [=]. lia.
Qed.
Definition fires (b : bool) (s : board) : bool :=
  match timer (the_button b s) with Some e => e <=? jiffies s | None => false end.

Definition after_timer (b : bool) (s : board) : board :=
  let x := the_button b s in
  let s1 := set_button b (set_timer (if fires b s then None else timer x) x) s in
  if fires b s && (reset_flag (button1 s) && reset_flag (button2 s)) then set_restarted s1 else s1.

Lemma wp_run_button_timer b s (Q : unit → board → Prop) :
  Q tt (if restarted s then s else after_timer b s) → wp C (run_timer b) Q s.
Proof.
  unfold run_timer, long_press_timer_callback, on_button, after_timer, fires.
  destruct s as [[f1 l1 t1 ts1 p1 n1] [f2 l2 t2 ts2 p2 n2] dd j r g].
  destruct b; [destruct t2 as [e|]|destruct t1 as [e|]]; cbn; intros HQ;
    apply wp_bind, wp_get; cbn; try (wp_step; by destruct r).
  all: destruct r, (e <=? j); cbn in *; try by wp_step.
  all: apply wp_bind, wp_modify, wp_bind, wp_get; cbn; destruct f1, f2; cbn in *; by wp_step.
Qed.
Lemma fires_due b tr s : timer (the_button b s) = timer_of (jiffies s - 1) (age b tr) → fires b s = due b (Tick :: tr).
Proof. intros Ht. unfold fires. rewrite Ht, <-(timer_fires b tr (jiffies s - 1)). destruct (timer_of _ _); [|done]. by rewrite Z.sub_add. Qed.

(** What a tick leaves of a timer. *)
Lemma tick_timer b tr now :
  (if due b (Tick :: tr) then None else timer_of (now - 1) (age b tr)) = timer_of now (age b (Tick :: tr)).
Proof.
  rewrite <-(timer_fires b tr (now - 1)), Z.sub_add. cbn [age]. destruct (age b tr) as [a|] eqn:Ha; cbn [fmap option_fmap option_map]; [|done].
  rewrite <-(Z.sub_add 1 now) at 3. rewrite timer_tick, Z.sub_add by (by eapply age_nonneg).
  by destruct (timer_of (now - 1) (Some a)).
Qed.

(** Both timers, one after the other. *)
Lemma after_tick s : restarted s = false →
  let F := fires false s in let T := fires true s in
  let P := reset_flag (button1 s) && reset_flag (button2 s) in
  (if restarted (after_timer false s) then after_timer false s else after_timer true (after_timer false s)) =
  Board (set_timer (if F then None else timer (button1 s)) (button1 s))
    (if F && P then button2 s else set_timer (if T then None else timer (button2 s)) (button2 s))
    (drvdata s) (jiffies s) ((F || T) && P) (board_regs s).
Proof.
  intros Hr F T P. assert (fires true (after_timer false s) = T) as HT.
  { unfold after_timer. destruct (fires false s && _); by destruct s. }
  assert (reset_flag (button1 (after_timer false s)) && reset_flag (button2 (after_timer false s)) = P) as HP.
  { unfold after_timer. destruct (fires false s && _); by destruct s. }
  unfold after_timer at 3. rewrite HT, HP. unfold after_timer. fold F. fold P. clearbody F T P. clear HT HP.
  destruct s as [x1 x2 dd j r g]. cbn in *. subst r. by destruct F, T, P.
Qed.

Lemma wp_tick tr s (Q : unit → board → Prop) :
  follows tr s → should_restart tr = false →
  (∀ s', follows (Tick :: tr) s' → Q tt s') →
  wp C (modify (λ s, set_jiffies (jiffies s + 1) s);; run_timer false;; run_timer true) Q s.
Proof.
  intros (Hd & Hre & Hok) Hno HQ. specialize (Hok Hno). rewrite Hno in Hre.
  pose proof (Hok false) as (A1 & A2 & A3 & A4 & A5). pose proof (Hok true) as (B1 & B2 & B3 & B4 & B5). clear Hok.
  wp_step. wp_step. set (s1 := set_jiffies (jiffies s + 1) s).
  assert (fires false s1 = due false (Tick :: tr)) as HF 
    by (apply fires_due; change (jiffies s1) with (jiffies s + 1); rewrite Z.add_simpl_r; exact A3).
  assert (fires true s1 = due true (Tick :: tr)) as HT 
    by (apply fires_due; change (jiffies s1) with (jiffies s + 1); rewrite Z.add_simpl_r; exact B3).
  wp_step. apply wp_run_button_timer. replace (restarted s1) with false by done. apply wp_run_button_timer.
  apply HQ. pose proof (tick_timer false tr (jiffies s + 1)) as HtA. pose proof (tick_timer true tr (jiffies s + 1)) as HtB.
  rewrite Z.add_simpl_r in HtA, HtB.
  rewrite <-A3 in HtA. rewrite <-B3 in HtB.
  set (F := due false (Tick :: tr)) in *. set (T := due true (Tick :: tr)) in *.
  assert (should_restart (Tick :: tr) = (F || T) && (reset_flag (the_button false s) && reset_flag (the_button true s))) as Hsr.
  { cbn [should_restart]. by rewrite Hno, !pressed_tick, A2, B2. }
  assert (∀ b, pressed b (Tick :: tr) = pressed b tr) as Hp by (intros b; apply pressed_tick).
  unfold follows, button_ok. rewrite Hsr.
  rewrite after_tick by done. cbn zeta. rewrite HF, HT.
  split; [done|]. split; [done|]. intros HP.
  assert (F && (reset_flag (button1 s1) && reset_flag (button2 s1)) = false) as -> by (by destruct F, T).
  intros b. rewrite Hp. destruct b; cbn -[age]; [rewrite <-HtB|rewrite <-HtA]; by split_and!.
Qed.
Lemma wp_event e tr s (Q : unit → board → Prop) :
  follows tr s → (∀ s', follows (e :: tr) s' → Q tt s') → wp C (handle_event e) Q s.
Proof.
  intros Hs HQ. unfold handle_event. wp_step. wp_step. pose proof Hs as (Hd & Hre & _). rewrite Hre.
  destruct (should_restart tr) eqn:Hno.
  - wp_step. apply HQ. split; [done|]. cbn [should_restart]. rewrite Hno, Hre. by split.
  - destruct e as [b v|]; [|by apply (wp_tick tr)].
    destruct b; by apply (wp_irq _ _ tr).
Qed.

Lemma wp_events evs : ∀ tr s (Q : unit → board → Prop),
  follows tr s → (∀ s', follows (rev evs ++ tr) s' → Q tt s') → wp C (handle_events evs) Q s.
Proof.
  induction evs as [|e evs IH]; intros tr s Q Hs HQ; cbn [handle_events]; [wp_step; by apply HQ|].
  wp_step. apply (wp_event _ tr); [done|]. intros s' Hs'. apply (IH (e :: tr)); [done|].
  intros s2 H2. apply HQ. cbn. by rewrite <-app_assoc.
Qed.

(** Two buttons that have both been held for long. *)
Lemma both_held tr a1 a2 :
  age false tr = Some a1 → age true tr = Some a2 → long_press <= Z.min a1 a2 → should_restart tr = true.
Proof.
  assert (0 < long_press) as Hlp by (unfold long_press; lia).
  revert a1 a2. induction tr as [|[b v|] tr IH]; intros a1 a2 H1 H2 Hmin; [done| |]; cbn [should_restart].
  - exfalso. destruct b; cbn in H1, H2; destruct (u8 v =? 0); simplify_eq; lia.
  - apply orb_true_iff. destruct (decide (long_press = Z.min a1 a2)) as [He|].
    + right. unfold pressed, due. rewrite H1, H2. rewrite !(bool_decide_eq_true_2 (is_Some _)) by by eexists.
      apply andb_true_iff. split; [|done]. apply orb_true_iff. rewrite !bool_decide_eq_true.
      destruct (Z.min_spec a1 a2) as [[? Hm]|[? Hm]]; rewrite Hm in He; [left|right]; by rewrite He.
    + left. cbn in H1, H2. destruct (age false tr) as [c1|]; [|done]. destruct (age true tr) as [c2|]; [|done].
      cbn in H1, H2. simplify_eq. apply (IH c1 c2); [done..|lia].
Qed.

Lemma age_ticks n b tr a : age b tr = Some a → age b (replicate n Tick ++ tr) = Some (Z.of_nat n + a).
Proof.
  intros Ha. induction n as [|n IH]; [exact Ha|]. cbn [replicate app age]. rewrite IH. cbn. f_equal. lia.
Qed.
End proofs.

(** ** Loading *)

(** Documented answers: a request is granted with 0 or refused with an error. *)
Definition buttons_contract (C : contract board) : Prop :=
  (∀ z, c_ans C (kint "gpio_request") z → z <= 0) ∧ (∀ z, c_ans C (kint "request_irq") z → z <= 0).

Definition pins_of (b : bool) (d : pins * pins) : pins := if b then d.2 else d.1.

Section loading.
Context (C : contract board) (HC : buttons_contract C) (d : pins * pins).

(** Only what is registered has changed. *)
Definition with_regs (L : list resource) (s s' : board) : Prop :=
  ∃ g, s' = set_board_regs g s ∧ owns L g.

Lemma wp_drv_pins b s (Q : pins → board → Prop) : drvdata s = Some d → Q (pins_of b d) s → wp C (drv_pins b) Q s.
Proof. intros Hd HQ. unfold drv_pins. wp_step. wp_step. wp_step. apply (wp_deref _ _ _ _ _ d); [done|]. by wp_step. Qed.

(** What the two functions that set a button up leave, with the resources [R] of
    the button and [L] that were held before. *)
Definition set_up (R L : list resource) (f : button → button) (b : bool) s (z : Z) s' : Prop :=
  0 <= z ∧ with_regs (R ++ L) (set_button b (f (the_button b s)) s) s'.
Definition set_up_failed (L : list resource) (z : Z) s' : Prop :=
  z < 0 ∧ drvdata s' = Some d ∧ owned L s'.

Lemma wp_led_setup b L s :
  drvdata s = Some d → owned L s →
  wp C (gpioled_setup b) (λ z s', set_up_failed L z s' ∨
    set_up [gpio (gpioLED (pins_of b d))] L (λ x, set_led_pin true (set_ledOn true x)) b s z s') s.
Proof.
  intros Hd Ho. unfold gpioled_setup. set (r := gpio (gpioLED (pins_of b d))).
  wp_step. apply wp_drv_pins; [done|]. wp_step. wp_step. wp_step; [by wp_step; left|].
  wp_step. unfold on_button. wp_step. wp_step. apply wp_acquire.
  2: { intros z' Hz' Hz0. apply (proj1 HC) in Hz'. rewrite (proj2 (Z.ltb_lt _ _)) by lia. wp_step. left. split; [lia|done]. }
  change (0 <? 0) with false. cbn iota. fold r.
  set (s1 := set_button b _ s). set (g := reg_add r (registry_of s1)).
  assert (owns (r :: L) g) as Hg by (apply owns_add; exact Ho).
  wp_step. wp_step. wp_step.
  { wp_step. apply (wp_give_back_owned _ _ (r :: L) L); [exact Hg|done|]. intros g' Hg'. wp_step. by left. }
  wp_step. wp_step. wp_step. wp_step.
  wp_step; [|wp_step; right; split; [done|]; exists g; split; [by destruct b, s|done]].
  wp_step. apply (wp_give_back_owned _ _ (r :: L) L); [exact Hg|done|]. intros g' Hg'. wp_step. by left.
Qed.

Lemma wp_button_fail b L s z :
  owns (gpio (gpioButton (pins_of b d)) :: gpio (gpioLED (pins_of b d)) :: L) (board_regs s) → drvdata s = Some d → z < 0 →
  wp C (button_fail (pins_of b d) z) (set_up_failed L) s.
Proof.
  intros Ho Hd Hz. unfold button_fail. set (l := gpio (gpioLED _)) in *. set (r := gpio (gpioButton _)) in *.
  wp_step. apply (wp_give_back_owned _ _ (r :: l :: L) (r :: L)); [exact Ho|apply Permutation_swap|]. intros g Hg.
  wp_step. apply (wp_give_back_owned _ _ _ L _ _ Hg); [done|]. intros g' Hg'. by wp_step.
Qed.

Lemma wp_button_config b L s :
  drvdata s = Some d → owned (gpio (gpioLED (pins_of b d)) :: L) s →
  wp C (button_interrupt_config b) (λ z s', set_up_failed L z s' ∨ z = 0 ∧ ∃ n,
    set_up [irq_of_dev n; gpio (gpioButton (pins_of b d)); gpio (gpioLED (pins_of b d))] L (set_irqNumber n) b s z s') s.
Proof.
  intros Hd Ho. unfold button_interrupt_config. wp_step. apply wp_drv_pins; [done|]. wp_step. apply wp_acquire.
  2: { intros z' Hz' Hz0. apply (proj1 HC) in Hz'. rewrite (proj2 (Z.ltb_lt _ _)) by lia.
       wp_step. apply (wp_give_back_owned _ _ _ L _ _ Ho); [done|]. intros g Hg. wp_step. left. by split; [lia|]. }
  change (0 <? 0) with false. cbn iota. pose proof (owned_add (gpio (gpioButton (pins_of b d))) _ _ Ho) as Hg.
  set (g := reg_add _ _) in *.
  assert (∀ z (P : Z → board → Prop) s', z < 0 → drvdata s' = Some d →
    owns (gpio (gpioButton (pins_of b d)) :: gpio (gpioLED (pins_of b d)) :: L) (board_regs s') →
    wp C (button_fail (pins_of b d) z) (λ z s', set_up_failed L z s' ∨ P z s') s') as Hfail.
  { intros z P s' Hz Hd' Ho'. eapply wp_mono; [by apply wp_button_fail|]. by left. }
  wp_step. wp_step. wp_step; [by apply Hfail|]. wp_step. wp_step. wp_step; [by apply Hfail|].
  wp_step. wp_step. wp_step. wp_step. wp_step. unfold on_button at 1. wp_step.
  wp_step. apply wp_acquire.
  2: { intros z' Hz' Hz0. apply (proj2 HC) in Hz'. rewrite (proj2 (Z.eqb_neq _ _)) by done. cbn [negb].
       apply Hfail; [lia|done|exact Hg]. }
  change (negb (0 =? 0)) with false. cbn iota. wp_step. right. split; [done|].
  eexists. split; [done|]. eexists. split; [by destruct b, s|]. apply owns_add. exact Hg.
Qed.
End loading.

(** The variables before the first [probe]. *)
Definition blank_button : button := Button false false None false false 0.
Definition unbound_board (now : Z) (g : registry) : board := Board blank_button blank_button None now false g.

(** What is held for a button. *)
Definition held (p : pins) (n : Z) : list resource := [irq_of_dev n; gpio (gpioButton p); gpio (gpioLED p)].

Definition bound_to (now : Z) (s : board) : Prop :=
  ∃ p n1 n2 g, s = fresh_board p n1 n2 now g ∧ owns (held p.2 n2 ++ held p.1 n1) g.

(** [probe] failed before the first button was set up, or after. *)
Definition half_bound (s : board) : Prop := owned [] s ∨ ∃ p n, owned (held p n) s.

Lemma wp_get_gpio C s (Q : option Z → board → Prop) : (∀ r, Q r s) → wp C get_gpio Q s.
Proof. intros HQ. unfold get_gpio. repeat wp_step. auto. Qed.

Section binding.
Context (C : contract board) (HC : buttons_contract C).

Lemma wp_probe_buttons p now g :
  owns [] g → wp C probe_buttons (λ z s', z = 0 ∧ bound_to now s' ∨ z ≠ 0 ∧ half_bound s')
    (Board blank_button blank_button (Some p) now false g).
Proof.
  intros Ho. unfold probe_buttons. wp_step. eapply wp_mono; [by apply (wp_led_setup C HC p false [])|].
  intros z1 s1 [(Hz1 & _ & Ho1)|(Hz1 & g1 & -> & Hg1)].
  { rewrite (proj2 (Z.ltb_lt _ _)) by done. wp_step. right. split; [lia|by left]. }
  rewrite (proj2 (Z.ltb_ge _ _)) by done. wp_step.
  eapply wp_mono; [by apply (wp_button_config C HC p false []); [|exact Hg1]|].
  intros z2 s2 [(Hz2 & _ & Ho2)|(-> & n1 & _ & g2 & -> & Hg2)].
  { rewrite (proj2 (Z.eqb_neq _ _)) by lia. cbn [negb]. wp_step. right. split; [lia|by left]. }
  change (negb (0 =? 0)) with false. cbn iota. rewrite app_nil_r in Hg2. fold (held p.1 n1) in Hg2.
  wp_step. unfold on_button at 1. wp_step. wp_step.
  eapply wp_mono; [apply (wp_led_setup C HC p true (held p.1 n1)); [done|exact Hg2]|].
  intros z3 s3 [(Hz3 & _ & Ho3)|(Hz3 & g3 & -> & Hg3)].
  { rewrite (proj2 (Z.ltb_lt _ _)) by done. wp_step. right. split; [lia|right]. by exists p.1, n1. }
  rewrite (proj2 (Z.ltb_ge _ _)) by done. wp_step.
  eapply wp_mono; [by apply (wp_button_config C HC p true (held p.1 n1)); [|exact Hg3]|].
  intros z4 s4 [(Hz4 & _ & Ho4)|(-> & n2 & _ & g4 & -> & Hg4)].
  { rewrite (proj2 (Z.eqb_neq _ _)) by lia. cbn [negb]. wp_step. right. split; [lia|right]. by exists p.1, n1. }
  change (negb (0 =? 0)) with false. cbn iota. wp_step. unfold on_button. wp_step. wp_step.
  left. split; [done|]. by exists p, n1, n2, g4.
Qed.

Lemma wp_bind_driver now g :
  owns [] g → wp C bind_driver (λ z s', z = 0 ∧ bound_to now s' ∨ z ≠ 0 ∧ drvdata s' = None ∧ half_bound s')
    (unbound_board now g).
Proof.
  intros Ho. unfold bind_driver. wp_step.
  eapply (wp_mono _ _ (λ z s', z = 0 ∧ bound_to now s' ∨ z ≠ 0 ∧ half_bound s')).
  - unfold gpio_shortlong_gpio_probe. wp_step. wp_step. wp_step; [wp_step; right; split; [done|by left]|].
    wp_step. wp_step. wp_step; [wp_step; right; split; [done|by left]|].
    do 4 (wp_step; apply wp_get_gpio; intros [?|]; cbn iota; [|wp_step; right; split; [done|by left]]).
    wp_step. wp_step. by apply wp_probe_buttons.
  - intros z s' [[-> Hb]|[Hz Hb]].
    + change (negb (0 =? 0)) with false. cbn iota. wp_step. wp_step. wp_step. by left.
    + rewrite (proj2 (Z.eqb_neq _ _)) by done. cbn [negb]. wp_step. wp_step. wp_step. right. by split_and!.
Qed.

Lemma wp_give_held r L L' B s (Q : unit → board → Prop) :
  owns_but L B (board_regs s) → L ≡ₚ r :: L' → (∀ g, owns_but L' B g → Q tt (set_board_regs g s)) →
  wp C (give_back r) Q s.
Proof. intros [HL HB] HP HQ. apply (wp_give_but _ _ L' B); [|done]. split; [by rewrite <-HP|done]. Qed.

(** The interrupt lines are not given back. *)
Lemma wp_unbind_driver now s :
  bound_to now s → wp C unbind_driver (λ z s', z = 0 ∧ drvdata s' = None ∧ ∃ n1 n2,
    owns_but [irq_of_dev n2; irq_of_dev n1] [irq_of_null n1; irq_of_null n2] (board_regs s')) s.
Proof.
  intros (p & n1 & n2 & g & -> & Ho). unfold unbind_driver, gpio_shortlong_gpio_remove.
  wp_step. wp_step. wp_step. wp_step. apply (wp_deref _ _ _ _ _ p); [done|].
  wp_step. wp_step. wp_step. apply (wp_give_miss _ _ (held p.2 n2 ++ held p.1 n1) []); [apply other_kind; by repeat constructor|exact Ho|].
  intros g1 Hg1.
  wp_step. unfold on_button at 1. wp_step.
  wp_step. eapply (wp_give_held _ _ ([irq_of_dev n2; gpio (gpioButton p.2)] ++ held p.1 n1)); [exact Hg1|solve_Permutation|].
  intros g2 Hg2. wp_step. eapply (wp_give_held _ _ ([irq_of_dev n2] ++ held p.1 n1)); [exact Hg2|solve_Permutation|].
  intros g3 Hg3. wp_step. wp_step. wp_step.
  apply (wp_give_miss _ _ ([irq_of_dev n2] ++ held p.1 n1) [irq_of_null n2]); [apply other_kind; by repeat constructor|exact Hg3|].
  intros g4 Hg4. wp_step. unfold on_button. wp_step.
  wp_step. eapply (wp_give_held _ _ [irq_of_dev n2; irq_of_dev n1; gpio (gpioButton p.1)]); [exact Hg4|solve_Permutation|].
  intros g5 Hg5. wp_step. eapply (wp_give_held _ _ [irq_of_dev n2; irq_of_dev n1]); [exact Hg5|solve_Permutation|].
  intros g6 Hg6. do 4 wp_step. split_and!; [done..|]. by exists n1, n2.
Qed.
End binding.

(** C18: after the driver was bound, and for every sequence of presses, releases and
    ticks of the clock that follows, the machine restarts exactly when, at some
    tick, one of the buttons had been held for four seconds since its last press
    and the other was held too; until then each LED is on after an even number of
    presses of its button, and off after an odd one. *)
Theorem buttons_restart_exactly C evs now g :
  buttons_contract C → 0 < HZ → owns [] g →
  wp C (buttons_run evs) (λ z s', z ≠ 0 ∧ drvdata s' = None ∨
    z = 0 ∧ restarted s' = should_restart (rev evs) ∧
    (restarted s' = false → ∀ b, led_pin (the_button b s') = Nat.even (presses b (rev evs))))
    (unbound_board now g).
Proof.
  intros HC HHZ Ho. unfold buttons_run. wp_step. eapply wp_mono; [by apply wp_bind_driver|].
  intros z s [[-> (p & n1 & n2 & g1 & -> & _)]|(Hz & Hd & _)].
  2: { rewrite (proj2 (Z.eqb_neq _ _)) by done. do 3 wp_step. by left. }
  change (0 =? 0) with true. cbn iota. wp_step. apply (wp_events C HHZ evs []); [apply fresh_follows|].
  rewrite app_nil_r. intros s' (_ & Hr & Hok). wp_step. right. split; [done|]. split; [done|].
  rewrite Hr. intros Hno b. destruct (Hok Hno b) as (_ & _ & _ & H1 & H2). by rewrite H2, H1.
Qed.

(** C19: whatever happened before, when both buttons are held and stay so for four
    seconds, the machine restarts. *)
Theorem buttons_hold_restarts C evs p n1 n2 now g (n : nat) :
  0 < HZ → is_Some (age false (rev evs)) → is_Some (age true (rev evs)) → long_press <= Z.of_nat n →
  wp C (handle_events (evs ++ replicate n Tick)) (λ _ s', restarted s' = true) (fresh_board p n1 n2 now g).
Proof.
  intros HHZ [a1 H1] [a2 H2] Hn. apply (wp_events C HHZ _ []); [apply fresh_follows|].
  rewrite app_nil_r, rev_app_distr. assert (rev (replicate n Tick) = replicate n Tick) as ->.
  { clear. induction n as [|n IH]; [done|]. rewrite replicate_S at 1. cbn [rev]. by rewrite IH, <-replicate_S_end. }
  intros s' (_ & -> & _). pose proof (age_nonneg _ _ _ H1). pose proof (age_nonneg _ _ _ H2).
  apply (both_held HHZ _ (Z.of_nat n + a1) (Z.of_nat n + a2)); [by apply age_ticks..|lia].
Qed.

(** Loading and unloading: both interrupt lines stay with their handlers after
    an unload that succeeds, which tries to give back lines nobody holds; where
    the load fails after the first button was set up all of that button is kept.
    The data of the handlers is freed in each case. *)
Theorem buttons_load_leaks C now g :
  buttons_contract C → owns [] g →
  wp C buttons_load (λ z s', drvdata s' = None ∧
    (z = 0 ∧ (∃ n1 n2, owns_but [irq_of_dev n2; irq_of_dev n1] [irq_of_null n1; irq_of_null n2] (board_regs s')) ∨
     z ≠ 0 ∧ half_bound s')) (unbound_board now g).
Proof.
  intros HC Ho. unfold buttons_load. wp_step. eapply wp_mono; [by apply wp_bind_driver|].
  intros z s [[-> Hb]|(Hz & Hd & Hh)].
  - change (0 =? 0) with true. cbn iota. eapply wp_mono; [by eapply wp_unbind_driver|].
    intros z s' (-> & Hd & Hh). split; [done|]. by left.
  - rewrite (proj2 (Z.eqb_neq _ _)) by done. wp_step. split; [done|]. by right.
Qed.

(** Then the next interrupt of a line that was kept uses freed memory. *)
Lemma buttons_stale_handler b value o t s :
  drvdata s = None → button_irq_handler b value o (t, s) = Oops UseAfterFree.
Proof. intros Hd. unfold button_irq_handler, dev_id, gets, get, deref, mbind, K_bind. cbn. by rewrite Hd. Qed.

(** A press between [request_irq] and [setup_timer]. *)
Lemma buttons_early_press b o t s :
  is_Some (drvdata s) → timer_set (the_button b s) = false → button_irq_handler b 0 o (t, s) = Oops BugOn.
Proof.
  intros [d Hd] Ht. unfold button_irq_handler, dev_id, mod_timer, on_button, modify, gets, get, deref, mbind, K_bind. cbn.
  rewrite Hd. destruct b, s as [x1 x2 dd j r g]; change (u8 0 =? 0) with true; cbn in *; by rewrite Ht.
Qed.
End buttons.

(** ** A kernel, and two buttons *)

Definition buttons_kernel : contract board :=
  Contract (λ k z, doc_ans k z ∧ (k = kint "gpio_request" → z <= 0) ∧ (k = kint "request_irq" → z <= 0)) alone False.

Lemma buttons_kernel_ok : buttons_contract buttons_kernel.
Proof. split; intros z (_ & ? & ?); auto. Qed.

Definition two_presses : list event := [Irq false 0; Tick; Irq true 0; Irq false 1; Irq false 0; Tick].

Lemma buttons_restart_exactly_witness :
  wp buttons_kernel (buttons_run 100 two_presses) (λ z s', z ≠ 0 ∧ drvdata s' = None ∨
    z = 0 ∧ restarted s' = should_restart 100 (rev two_presses) ∧
    (restarted s' = false → ∀ b, led_pin (the_button b s') = Nat.even (presses b (rev two_presses))))
    (unbound_board 0 empty_registry).
Proof. apply (buttons_restart_exactly 100 buttons_kernel); [apply buttons_kernel_ok|done|apply owns_empty]. Defined.

Lemma buttons_hold_restarts_witness :
  wp buttons_kernel (handle_events 100 (two_presses ++ replicate 400 Tick)) (λ _ s', restarted s' = true)
    (fresh_board (Pins 1 2, Pins 3 4) 10 11 0 empty_registry).
Proof. apply (buttons_hold_restarts 100 buttons_kernel two_presses); [done|by eexists|by eexists|done]. Defined.

Lemma buttons_load_leaks_witness :
  wp buttons_kernel buttons_load (λ z s', drvdata s' = None ∧
    (z = 0 ∧ (∃ n1 n2, owns_but [irq_of_dev n2; irq_of_dev n1] [irq_of_null n1; irq_of_null n2] (board_regs s')) ∨
     z ≠ 0 ∧ half_bound s')) (unbound_board 0 empty_registry).
Proof. apply (buttons_load_leaks buttons_kernel); [apply buttons_kernel_ok|apply owns_empty]. Defined.
