(* ===== verification/Chardev.v ===== *)
(** * chardev: the character device of src/lkd-todo/char/chardev/chardev.c

    Opened for writing by one process at a time; ioctls keep and reverse a
    string, a thread prints the clock for readers, and a page with a greeting is
    there to be mapped. *)

From stdpp Require Import base tactics numbers list strings.
From S2P Require Import Prelude KMonad Registry Text Quanta Ring.
From Stdlib Require Import ZArith Lia.

Open Scope Z_scope.

Definition EACCES : Z := 13.

(** ** The commands (chardev_ioctl.h) *)

Definition CD_MAGIC : Z := 89.
Definition CD_IOC_ALLOC_BUF : Z := _IOW CD_MAGIC 0 4.
Definition CD_IOC_WRITE_STRING : Z := _IOW CD_MAGIC 1 4.
Definition CD_IOC_REVERSE_STRING : Z := _IO CD_MAGIC 2.
Definition CD_IOC_READ_STRING : Z := _IOR CD_MAGIC 3 4.
Definition CD_IOC_FREE_BUF : Z := _IO CD_MAGIC 4.
Definition CD_IOC_READ_WRITE_REVERSE_STRING : Z := _IOWR CD_MAGIC 5 4.

(** The members of [struct string] have 20 bytes each. *)
Definition STRING_LEN : nat := 20.

(** ** Data

    A file that is open: its flags, and the [mmap_info] behind [private_data]:
    [page] is [data], [reference] the count. [FileFreed] is one whose memory went
    while it was open. *)
Record mmap_info := MmapInfo { f_flags : Z; page : list cell; reference : Z }.
Inductive cfile := NoFile | FileOpen (info : mmap_info) | FileFreed.

(** [kern_buf] is [None] while NULL, [count] is the member of [chardev_dev];
    [blocks] counts what is allocated and not freed. *)
Record chardev := Chardev {
  readbuf : list cell;
  readbuflen : Z;
  writebuf : list cell;
  kern_buf : option (list cell);
  buf_size : Z;
  chardev_mutex : bool;
  count : Z;
  cfile_of : cfile;
  blocks : Z
}.

Definition set_read (l : list cell) (n : Z) (s : chardev) : chardev :=
  Chardev l n (writebuf s) (kern_buf s) (buf_size s) (chardev_mutex s) (count s) (cfile_of s) (blocks s).
Definition set_writebuf (l : list cell) (s : chardev) : chardev :=
  Chardev (readbuf s) (readbuflen s) l (kern_buf s) (buf_size s) (chardev_mutex s) (count s) (cfile_of s) (blocks s).
Definition set_kern_buf (b : option (list cell)) (s : chardev) : chardev :=
  Chardev (readbuf s) (readbuflen s) (writebuf s) b (buf_size s) (chardev_mutex s) (count s) (cfile_of s) (blocks s).
Definition set_buf_size (n : Z) (s : chardev) : chardev :=
  Chardev (readbuf s) (readbuflen s) (writebuf s) (kern_buf s) n (chardev_mutex s) (count s) (cfile_of s) (blocks s).
Definition set_cmutex (b : bool) (s : chardev) : chardev :=
  Chardev (readbuf s) (readbuflen s) (writebuf s) (kern_buf s) (buf_size s) b (count s) (cfile_of s) (blocks s).
Definition set_count (n : Z) (s : chardev) : chardev :=
  Chardev (readbuf s) (readbuflen s) (writebuf s) (kern_buf s) (buf_size s) (chardev_mutex s) n (cfile_of s) (blocks s).
Definition set_cfile (f : cfile) (s : chardev) : chardev :=
  Chardev (readbuf s) (readbuflen s) (writebuf s) (kern_buf s) (buf_size s) (chardev_mutex s) (count s) f (blocks s).
Definition add_blocks (n : Z) (s : chardev) : chardev :=
  Chardev (readbuf s) (readbuflen s) (writebuf s) (kern_buf s) (buf_size s) (chardev_mutex s) (count s) (cfile_of s) (blocks s + n).

(** ** Strings in memory

    [strlen]; what does not end in its block, or goes through bytes nobody wrote,
    has no length. *)
Fixpoint strlen (l : list cell) : option nat :=
  match l with
  | [] | None :: _ => None
  | Some c :: l => if c =? 0 then Some O else S <$> strlen l
  end.

Definition swap (i j : nat) (l : list cell) : list cell :=
  match l !! i, l !! j with
  | Some a, Some b => <[j := a]> (<[i := b]> l)
  | _, _ => l
  end.

(** The loop of [string_rev], for [n] more values of [i]. *)
Fixpoint rev_loop (n i j : nat) (l : list cell) : list cell :=
  match n with
  | O => l
  | S n => rev_loop n (S i) (pred j) (swap i j l)
  end.

Definition string_rev (l : list cell) : option (list cell) :=
  (λ len, rev_loop (len / 2) 0 (pred len) l) <$> strlen l.

Section chardev.
Local Abbreviation M := (K chardev).

(** [%s] reads the string to its end; a block of no bytes is at an address that
    [printk] does not follow. *)
Definition printk_s (l : list cell) : M unit :=
  match l with
  | [] => mret tt
  | _ => _ ← deref OutOfBounds (strlen l); mret tt
  end.

(** The file of a call. *)
Definition the_file : M mmap_info :=
  f ← gets cfile_of;
  match f with FileOpen i => mret i | FileFreed => oops UseAfterFree | NoFile => oops NullDeref end.

(** ** The operations *)

Definition greeting : list Z := ascii_of "hello from kernel this is file: ".

(** [name] is the name of the file. Neither allocation is checked. *)
Definition chardev_open (flags : Z) (name : list Z) : M Z :=
  if negb (Z.land flags O_ACCMODE =? O_WRONLY) then mret (- EACCES) else
  m ← gets chardev_mutex;
  if m : bool then mret (- EBUSY) else
  modify (set_cmutex true);;
  modify (λ s, set_count (s32 (count s + 1)) s);;
  info ← call (kmalloc 16);
  data ← call (kmalloc PAGE_SIZE);
  if (info =? 0) || (data =? 0) then oops NullDeref else
  modify (add_blocks 2);;
  r ← call (kint "uninitialised");
  modify (set_cfile (FileOpen (MmapInfo flags
    (store 32 (Some <$> name) (store 0 (Some <$> greeting) (zeroed PAGE_SIZE))) r)));;
  mret 0.

Definition chardev_release : M Z :=
  _ ← the_file;
  modify (add_blocks (-2));;
  modify (set_cfile NoFile);;
  modify (set_cmutex false);;
  mret 0.

(** The thread may print while the copy sleeps. *)
Definition chardev_read : M (Z * list cell) :=
  _ ← the_file;
  n ← gets readbuflen;
  l ← gets readbuf;
  '(bytes, ok) ← copy_to_user (slice 0 n l);
  interfere;;
  n ← gets readbuflen;
  modify (λ s, set_read (readbuf s) 0 s);;
  mret (if ok : bool then n else - EFAULT, bytes).

(** [user] is what is in user memory from [buff] on. *)
Definition chardev_write (user : list Z) (cnt : Z) : M Z :=
  _ ← the_file;
  '(bytes, ok) ← copy_from_user (take 8 user);
  modify (λ s, set_writebuf (store 0 bytes (writebuf s)) s);;
  if negb ok then mret (- EFAULT) else
  l ← gets writebuf;
  printk_s l;;
  n ← deref OutOfBounds (strlen l);
  mret (Z.of_nat n).

Definition chardev_poll : M Z :=
  _ ← the_file;
  n ← gets readbuflen;
  mret (if c_bool n then POLLIN else 0).

(** A round of [kthread_func]. *)
Definition kthread_print (jiffies : Z) (s : chardev) : chardev :=
  let text := digits 20 (u64 jiffies) in
  set_read (store 0 (Some <$> text ++ [0]) (readbuf s)) (lenZ text) s.

(** ** The ioctls

    [user] is what is in user memory from [arg] on; the results come with what is
    copied back. A negative size is a huge one for the allocator and the copies. *)
Definition ioc_alloc (arg : Z) : M Z :=
  modify (set_buf_size (s32 arg));;
  p ← call (kmalloc (s32 arg));
  if (p =? 0) || (s32 arg <? 0) then modify (set_kern_buf None);; mret 0 else
  modify (add_blocks 1);;
  modify (set_kern_buf (Some (uninit (s32 arg))));;
  mret 0.

Definition ioc_write (user : list Z) : M Z :=
  n ← gets buf_size;
  b ← gets kern_buf;
  match b with
  | None => if n =? 0 then mret 0 else oops NullDeref
  | Some l =>
      '(bytes, _) ← copy_from_user (take (Z.to_nat n) user);
      modify (set_kern_buf (Some (store 0 bytes l)));;
      printk_s (store 0 bytes l);;
      mret 0
  end.

Definition ioc_reverse : M Z :=
  l ← gets kern_buf ≫= deref NullDeref;
  l ← deref OutOfBounds (string_rev l);
  modify (set_kern_buf (Some l));;
  printk_s l;;
  mret 0.

Definition ioc_read : M (list cell) :=
  n ← gets buf_size;
  if n <=? 0 then mret [] else
  l ← gets kern_buf ≫= deref NullDeref;
  '(bytes, _) ← copy_to_user (slice 0 n l);
  mret bytes.

(** [tmp_s]: [original], and [reverse] behind it. *)
Definition ioc_read_write_reverse (user : list Z) : M (list cell) :=
  '(tmp_s, _) ← copy_from_user (take (2 * STRING_LEN) user);
  printk_s tmp_s;;
  tmp_s ← deref OutOfBounds (string_rev tmp_s);
  printk_s tmp_s;;
  '(bytes, _) ← copy_to_user (take STRING_LEN tmp_s);
  mret bytes.

(** [kfree(file)] frees the file and not the buffer. *)
Definition chardev_ioctl (cmd arg : Z) (user : list Z) : M (Z * list cell) :=
  _ ← the_file;
  if cmd =? CD_IOC_ALLOC_BUF then r ← ioc_alloc arg; mret (r, [])
  else if cmd =? CD_IOC_WRITE_STRING then r ← ioc_write user; mret (r, [])
  else if cmd =? CD_IOC_REVERSE_STRING then r ← ioc_reverse; mret (r, [])
  else if cmd =? CD_IOC_READ_STRING then l ← ioc_read; mret (0, l)
  else if cmd =? CD_IOC_FREE_BUF then modify (set_cfile FileFreed);; mret (0, [])
  else if cmd =? CD_IOC_READ_WRITE_REVERSE_STRING then l ← ioc_read_write_reverse user; mret (0, l)
  else mret (-1, []).

(** ** The mapping *)

Definition mmap_ref (n : Z) : M unit :=
  i ← the_file;
  modify (set_cfile (FileOpen (MmapInfo (f_flags i) (page i) (s32 (reference i + n))))).
Definition mmap_open : M unit := mmap_ref 1.
Definition mmap_close : M unit := mmap_ref (-1).
Definition chardev_mmap : M Z := mmap_open;; mret 0.
Definition mmap_fault : M (list cell) := i ← the_file; mret (page i).

(** ** The attribute in sysfs *)

Definition chardev_show : M (Z * list Z) := let text := fmt_i 0 ++ [10] in mret (lenZ text, text).
Definition chardev_store : M Z :=
  err ← call (kint "kstrtoint");
  if err <? 0 then mret err else mret err.

(** ** The device as a state machine *)

Inductive cop :=
| COpen (flags : Z) (name : list Z)
| CRelease
| CRead
| CWrite (user : list Z) (cnt : Z)
| CPoll
| CIoctl (cmd arg : Z) (user : list Z)
| CMmap
| CVmaOpen
| CVmaClose
| CFault.

Definition chardev_handle (op : cop) : M (Z * list cell) :=
  let int (m : M Z) := kfmap (λ r, (r, [])) m in
  let void (m : M unit) := kfmap (λ _, (0, [])) m in
  match op with
  | COpen flags name => int (chardev_open flags name)
  | CRelease => int chardev_release
  | CRead => chardev_read
  | CWrite user cnt => int (chardev_write user cnt)
  | CPoll => int chardev_poll
  | CIoctl cmd arg user => chardev_ioctl cmd arg user
  | CMmap => int chardev_mmap
  | CVmaOpen => void mmap_open
  | CVmaClose => void mmap_close
  | CFault => kfmap (λ l, (0, l)) mmap_fault
  end.

(** The file is one that can be read. *)
Definition readable (s : chardev) : Prop :=
  match cfile_of s with FileOpen i => Z.land (f_flags i) O_ACCMODE ≠ O_WRONLY | _ => False end.

(** What the kernel calls: nothing but [open] without a file; it reads and maps
    only files that were opened for reading. *)
Definition chardev_allowed (s : chardev) (op : cop) : Prop :=
  match op with
  | COpen _ _ => True
  | CRead | CMmap | CVmaOpen | CVmaClose | CFault => readable s
  | _ => cfile_of s ≠ NoFile
  end.

(** Only the thread runs by itself. *)
Definition chardev_rely (s s' : chardev) : Prop := s' = s ∨ ∃ j, s' = kthread_print j s.

(** As it is loaded. *)
Definition chardev_init_state (s : chardev) : Prop :=
  s = Chardev (zeroed 1024) 0 (zeroed 1024) None 0 false 0 NoFile 0.
End chardev.

(** ** Reversing *)

Lemma strlen_app (str : list Z) rest :
  Forall (.≠ 0) str → strlen ((Some <$> str) ++ Some 0 :: rest) = Some (length str).
Proof.
  induction 1 as [|c str Hc _ IH]; [done|]. cbn.
  by rewrite (proj2 (Z.eqb_neq _ _)), IH by done.
Qed.

Lemma swap_spec i j a b l : l !! i = Some a → l !! j = Some b → swap i j l = <[j := a]> (<[i := b]> l).
Proof. unfold swap. by intros -> ->. Qed.

Lemma length_swap i j l : length (swap i j l) = length l.
Proof. unfold swap. repeat case_match; by rewrite ?length_insert. Qed.

Lemma length_rev_loop n i j l : length (rev_loop n i j l) = length l.
Proof. revert i j l. induction n as [|n IH]; intros; [done|]. cbn. by rewrite IH, length_swap. Qed.

(** After [n] rounds the first [n] elements and the last [n] are exchanged. *)
Lemma lookup_rev_loop n i j l k :
  (i + 2 * n <= S j)%nat → (j < length l)%nat →
  rev_loop n i j l !! k =
    if bool_decide (i <= k < i + n ∨ j < k + n ∧ k <= j)%nat then l !! (i + j - k)%nat else l !! k.
Proof.
  revert i j l. induction n as [|n IH]; intros i j l Hn Hj.
  { rewrite bool_decide_eq_false_2 by lia. done. }
  destruct (lookup_lt_is_Some_2 l i) as [a Ha]; [lia|]. destruct (lookup_lt_is_Some_2 l j) as [b Hb]; [lia|].
  cbn. rewrite IH by (rewrite ?length_swap; lia). rewrite (swap_spec _ _ _ _ _ Ha Hb).
  case_bool_decide as H1.
  - rewrite bool_decide_eq_true_2 by lia. replace (S i + pred j - k)%nat with (i + j - k)%nat by lia.
    by rewrite !list_lookup_insert_ne by lia.
  - destruct (decide (k = j)) as [->|Hkj].
    { rewrite bool_decide_eq_true_2, list_lookup_insert_eq by (rewrite ?length_insert; lia).
      by replace (i + j - j)%nat with i by lia. }
    rewrite list_lookup_insert_ne by done. destruct (decide (k = i)) as [->|Hki].
    { rewrite bool_decide_eq_true_2, list_lookup_insert_eq by lia. by replace (i + j - i)%nat with j by lia. }
    rewrite bool_decide_eq_false_2, list_lookup_insert_ne by lia. done.
Qed.

(** The string is reversed, and what is behind it stays. *)
Lemma string_rev_spec (str : list Z) rest :
  Forall (.≠ 0) str →
  string_rev ((Some <$> str) ++ Some 0 :: rest) = Some ((Some <$> reverse str) ++ Some 0 :: rest).
Proof.
  intros Hs. unfold string_rev. rewrite (strlen_app _ _ Hs). apply (f_equal Some). cbv beta.
  destruct (decide (str = [])) as [->|Hnil]; [done|]. assert (length str ≠ 0)%nat as Hz by (by destruct str).
  set (n := length str) in *. assert (n / 2 * 2 <= n)%nat as Hn by (pose proof (Nat.Div0.div_mod n 2); lia).
  assert (n < n / 2 * 2 + 2)%nat as Hn' by (pose proof (Nat.Div0.div_mod n 2); pose proof (Nat.mod_upper_bound n 2); lia).
  apply list_eq. intros k. rewrite lookup_rev_loop by (rewrite ?length_app, ?length_fmap, ?length_cons; fold n; lia).
  destruct (decide (k < n)%nat) as [Hk|Hk].
  - rewrite (lookup_app_l (_ <$> reverse _)) by (by rewrite length_fmap, length_reverse).
    rewrite list_lookup_fmap, reverse_lookup by done. fold n.
    rewrite !lookup_app_l by (rewrite length_fmap; fold n; lia). rewrite !list_lookup_fmap.
    case_bool_decide; [replace (0 + pred n - k)%nat with (n - S k)%nat by lia|replace (n - S k)%nat with k by lia]; done.
  - rewrite bool_decide_eq_false_2 by lia.
    rewrite !lookup_app_r by (rewrite length_fmap, ?length_reverse; fold n; lia).
    by rewrite !length_fmap, length_reverse.
Qed.

(** ** Whatever the kernel answers

    [m] keeps [I], also where nothing is known of the answers and faults end the
    run. *)
Definition keeps {S A} (I : S → Prop) (m : K S A) : Prop :=
  ∀ o t s a t' s', I s → m o (t, s) = Done (a, (t', s')) → I s'.

Section keeps.
Context {S : Type} (I : S → Prop).

Lemma keeps_ret {A} (a : A) : keeps I (mret a).
Proof. intros o t s a' t' s' HI E. by injection E as _ _ <-. Qed.
Lemma keeps_bind {A B} (m : K S A) (f : A → K S B) :
  keeps I m → (∀ a, keeps I (f a)) → keeps I (m ≫= f).
Proof.
  intros Hm Hf o t s b t' s' HI E. unfold mbind, K_bind in E.
  destruct (m o (t, s)) as [[a [t1 s1]]| |] eqn:E1; [|done..]. by eapply Hf, E; eapply Hm.
Qed.
Lemma keeps_gets {A} (f : S → A) : keeps I (gets f).
Proof. intros o t s a t' s' HI E. by injection E as _ _ <-. Qed.
Lemma keeps_modify f : (∀ s, I s → I (f s)) → keeps I (modify f).
Proof. intros Hf o t s a t' s' HI E. injection E as _ _ <-. by apply Hf. Qed.
Lemma keeps_call c : keeps I (call c).
Proof. intros o t s a t' s' HI E. by injection E as _ _ <-. Qed.
Lemma keeps_junk n : keeps I (junk_bytes n).
Proof. intros o t s a t' s' HI E. by injection E as _ _ <-. Qed.
Lemma keeps_oops {A} f : keeps I (oops (A:=A) f).
Proof. by intros o t s a t' s' HI E. Qed.
Lemma keeps_deref {A} f (p : option A) : keeps I (deref f p).
Proof. destruct p; [apply keeps_ret|apply keeps_oops]. Qed.
Lemma keeps_kfmap {A B} (f : A → B) (m : K S A) : keeps I m → keeps I (kfmap f m).
Proof. intros Hm. apply keeps_bind; [done|intros; apply keeps_ret]. Qed.
End keeps.

Ltac keeps_step :=
  match goal with
  | |- keeps _ (mbind _ _) => apply keeps_bind; [|intros ?]
  | |- keeps _ (mret _) => apply keeps_ret
  | |- keeps _ (gets _) => apply keeps_gets
  | |- keeps _ (modify _) => apply keeps_modify
  | |- keeps _ (call _) => apply keeps_call
  | |- keeps _ (junk_bytes _) => apply keeps_junk
  | |- keeps _ (oops _) => apply keeps_oops
  | |- keeps _ (deref _ _) => apply keeps_deref
  | |- keeps _ (kfmap _ _) => apply keeps_kfmap
  | |- keeps _ (if ?b then _ else _) => destruct b
  | |- keeps _ (match ?x with _ => _ end) => destruct x
  end.
Ltac keeps_go := repeat keeps_step.

(** ** One writer at a time *)

(** The mutex is held while a file is open, and the file is not for reading. *)
Definition file_ok (s : chardev) : Prop :=
  match cfile_of s with
  | NoFile => chardev_mutex s = false
  | FileOpen i => chardev_mutex s = true ∧ Z.land (f_flags i) O_ACCMODE = O_WRONLY
  | FileFreed => chardev_mutex s = true
  end.

Lemma file_ok_unreadable s : file_ok s → ¬ readable s.
Proof. unfold file_ok, readable. destruct (cfile_of s); [by intros _ []|by intros [_ ?] ?|by intros _ []]. Qed.

Ltac run_in E := unfold gets, get, modify, call, mbind, mret, K_bind, K_ret in E; cbn in E.

Lemma open_keeps flags name : keeps file_ok (chardev_open flags name).
Proof.
  intros o t s r t' s' HI E. unfold chardev_open in E.
  destruct (Z.land flags O_ACCMODE =? O_WRONLY) eqn:Hf; run_in E; [|by injection E as _ _ <-].
  destruct (chardev_mutex s) eqn:Hm. { run_in E. by injection E as _ _ <-. } run_in E.
  destruct (_ || _); run_in E; [done|]. injection E as _ _ <-. by apply Z.eqb_eq in Hf.
Qed.

Lemma release_keeps : keeps file_ok chardev_release.
Proof.
  intros o t s r t' s' HI E. unfold chardev_release, the_file in E. run_in E.
  destruct (cfile_of s); run_in E; [done| |done]. by injection E as _ _ <-.
Qed.

Lemma file_keeps : keeps file_ok the_file.
Proof. unfold the_file. keeps_go. Qed.

(** What the other operations change has no part in it, but for [kfree(file)]. *)
Lemma ioctl_keeps cmd arg user : keeps file_ok (chardev_ioctl cmd arg user).
Proof.
  destruct (decide (cmd = CD_IOC_FREE_BUF)) as [->|Hcmd].
  - intros o t s r t' s' HI E. unfold chardev_ioctl, the_file in E. run_in E.
    destruct (cfile_of s) eqn:Hf; run_in E; [done| |done]. unfold file_ok in HI. rewrite Hf in HI.
    by injection E as _ _ <-; destruct HI.
  - unfold chardev_ioctl. rewrite (proj2 (Z.eqb_neq cmd CD_IOC_FREE_BUF)) by done.
    apply keeps_bind; [apply file_keeps|intros _].
    unfold ioc_alloc, ioc_write, ioc_reverse, ioc_read, ioc_read_write_reverse, printk_s, copy_from_user, copy_to_user.
    keeps_go; done.
Qed.

Lemma write_keeps user cnt : keeps file_ok (chardev_write user cnt).
Proof.
  unfold chardev_write. apply keeps_bind; [apply file_keeps|intros _].
  unfold printk_s, copy_from_user. keeps_go; done.
Qed.

Lemma poll_keeps : keeps file_ok chardev_poll.
Proof. unfold chardev_poll. apply keeps_bind; [apply file_keeps|intros _]. keeps_go. Qed.

Lemma handle_keeps o t s op r t' s' :
  file_ok s → chardev_allowed s op → chardev_handle op o (t, s) = Done (r, (t', s')) → file_ok s'.
Proof.
  intros HI Hop. pose proof (file_ok_unreadable s HI) as Hr.
  destruct op; cbn in Hop |- *; try done; clear Hop Hr; revert o t s r t' s' HI.
  - apply keeps_kfmap, open_keeps.
  - apply keeps_kfmap, release_keeps.
  - apply keeps_kfmap, write_keeps.
  - apply keeps_kfmap, poll_keeps.
  - apply ioctl_keeps.
Qed.

(** C21: whatever the kernel answers, and whatever the processes call in whatever
    order, [open] lets in one file at a time, and no file that can be read: while a
    file is open every [open] is refused and changes nothing, and neither [read]
    nor [mmap] of the driver is ever called. *)
Theorem chardev_one_writer C s :
  (∀ s s', c_rely C s s' → chardev_rely s s') →
  reachable chardev_handle chardev_allowed C chardev_init_state s →
  (cfile_of s ≠ NoFile ↔ chardev_mutex s = true) ∧
  ¬ chardev_allowed s CRead ∧ ¬ chardev_allowed s CMmap ∧
  ∀ flags name o t, cfile_of s ≠ NoFile →
    chardev_open flags name o (t, s) =
      Done (if Z.land flags O_ACCMODE =? O_WRONLY then - EBUSY else - EACCES, (t, s)).
Proof.
  intros Hrely Hs.
  assert (file_ok s) as HI.
  { induction Hs as [s ->|s op o t r t' s' _ IH Hop _ E|s s' _ IH Hp]; [done|by eapply handle_keeps|].
    by destruct (Hrely _ _ Hp) as [->|[j ->]]. }
  pose proof (file_ok_unreadable s HI) as Hr.
  assert (cfile_of s ≠ NoFile ↔ chardev_mutex s = true) as Hm.
  { unfold file_ok in HI. destruct (cfile_of s); [rewrite HI|destruct HI as [-> _]|rewrite HI]; done. }
  split_and!; [done..|]. intros flags name o t Hf%Hm. unfold chardev_open.
  destruct (_ =? _); [|done]. cbn. unfold gets, get, mbind, K_bind, mret, K_ret. by rewrite Hf.
Qed.

(** ** Strings *)

Lemma strlen_inv l n : strlen l = Some n →
  ∃ str rest, l = (Some <$> str) ++ Some 0 :: rest ∧ Forall (.≠ 0) str ∧ length str = n.
Proof.
  revert n. induction l as [|[c|] l IH]; intros n; cbn; [done| |done].
  destruct (c =? 0) eqn:Hc.
  - intros [= <-]. apply Z.eqb_eq in Hc as ->. by exists [], l.
  - destruct (strlen l) as [m|]; [|done]. intros [= <-].
    destruct (IH m eq_refl) as (str & rest & -> & Hs & <-). exists (c :: str), rest.
    split_and!; [done| |done]. apply Forall_cons. by apply Z.eqb_neq in Hc.
Qed.

Lemma wp_printk_s C l s (Q : unit → chardev → Prop) :
  l = [] ∨ is_Some (strlen l) → Q tt s → wp C (printk_s l) Q s.
Proof.
  intros Hl HQ. destruct l as [|c l]; [by apply wp_ret|]. destruct Hl as [|[n Hn]]; [done|].
  unfold printk_s. wp_step. apply (wp_deref _ _ _ _ _ n); [done|]. by wp_step.
Qed.

Lemma wp_the_file C i s (Q : mmap_info → chardev → Prop) :
  cfile_of s = FileOpen i → Q i s → wp C the_file Q s.
Proof. intros Hf HQ. unfold the_file. do 2 wp_step. rewrite Hf. by wp_step. Qed.

(** A kernel that faults no user page and has memory; the thread may print. *)
Definition chardev_quiet : contract chardev := Contract good_ans chardev_rely False.

Lemma wp_from_user C (l : list Z) (Q : list cell * bool → chardev → Prop) s :
  (∀ c z, c_ans C c z → good_ans c z) → Q (Some <$> l, true) s → wp C (copy_from_user l) Q s.
Proof.
  intros HC HQ. apply wp_copy_from_user; [intros z [? _]%HC; done|done|].
  intros z l' [_ Hz]%HC Hz0. done.
Qed.

Lemma wp_to_user C (l : list cell) (Q : list cell * bool → chardev → Prop) s :
  (∀ c z, c_ans C c z → good_ans c z) → Q (l, true) s → wp C (copy_to_user l) Q s.
Proof.
  intros HC HQ. apply wp_copy_to_user. intros z [_ Hz]%HC. cbn in Hz. subst.
  by rewrite Nat.sub_0_r, firstn_all.
Qed.

Section quiet.
Context (C : contract chardev) (HC : ∀ c z, c_ans C c z → good_ans c z).

(** ** The ioctls on a kernel without faults *)

Lemma wp_ioc_alloc arg s (Q : Z → chardev → Prop) :
  0 <= s32 arg → Q 0 (set_kern_buf (Some (uninit (s32 arg))) (add_blocks 1 (set_buf_size (s32 arg) s))) →
  wp C (ioc_alloc arg) Q s.
Proof.
  intros Ha HQ. unfold ioc_alloc. wp_step. wp_step. wp_step. apply wp_call. intros p [_ Hp]%HC. cbn in Hp.
  rewrite (proj2 (Z.eqb_neq _ _)), (proj2 (Z.ltb_ge _ _)) by done. cbn. wp_go. done.
Qed.

Lemma wp_ioc_write user l s (Q : Z → chardev → Prop) :
  kern_buf s = Some l → lenZ l = buf_size s → buf_size s <= lenZ user →
  l = [] ∨ is_Some (strlen (Some <$> take (length l) user)) →
  Q 0 (set_kern_buf (Some (Some <$> take (length l) user)) s) → wp C (ioc_write user) Q s.
Proof.
  intros Hk Hn Hu Hstr HQ. unfold ioc_write. do 4 wp_step. rewrite Hk, <-Hn, Nat2Z.id.
  wp_step. apply wp_from_user; [done|]. cbn.
  assert (store 0 (Some <$> take (length l) user) l = Some <$> take (length l) user) as ->.
  { apply store_full. rewrite length_fmap, length_take. lia. }
  wp_step. wp_step. wp_step. apply wp_printk_s; [|by wp_step].
  destruct Hstr as [->|?]; [by left|by right].
Qed.

Lemma wp_ioc_reverse str rest s (Q : Z → chardev → Prop) :
  kern_buf s = Some ((Some <$> str) ++ Some 0 :: rest) → Forall (.≠ 0) str →
  Q 0 (set_kern_buf (Some ((Some <$> reverse str) ++ Some 0 :: rest)) s) → wp C ioc_reverse Q s.
Proof.
  intros Hk Hs HQ. unfold ioc_reverse. do 3 wp_step. rewrite Hk. eapply wp_deref; [done|].
  wp_step. eapply wp_deref; [by apply string_rev_spec|]. wp_step. wp_step. wp_step.
  apply wp_printk_s; [|by wp_step]. right. rewrite strlen_app; [done|by apply Forall_reverse].
Qed.

Lemma wp_ioc_read l s (Q : list cell → chardev → Prop) :
  kern_buf s = Some l → lenZ l = buf_size s → Q l s → wp C ioc_read Q s.
Proof.
  intros Hk Hn HQ. unfold ioc_read. do 2 wp_step. case_match eqn:Hz; zbool.
  - wp_step. destruct l as [|c l]; [done|]. cbn in *. lia.
  - do 3 wp_step. rewrite Hk. eapply wp_deref; [done|]. wp_step. rewrite <-Hn, slice_all.
    apply wp_to_user; [done|]. by wp_step.
Qed.

(** The struct in user memory gets the reversed string, cut to the member. *)
Lemma wp_ioc_struct user str rest s (Q : list cell → chardev → Prop) :
  take (2 * STRING_LEN) user = str ++ 0 :: rest → Forall (.≠ 0) str →
  Q (Some <$> take STRING_LEN (reverse str ++ 0 :: rest)) s → wp C (ioc_read_write_reverse user) Q s.
Proof.
  intros Hu Hs HQ. unfold ioc_read_write_reverse. rewrite Hu.
  wp_step. apply wp_from_user; [done|]. rewrite fmap_app. cbn [fmap list_fmap].
  wp_step. apply wp_printk_s; [right; by rewrite strlen_app|].
  wp_step. eapply wp_deref; [by apply string_rev_spec|].
  wp_step. apply wp_printk_s; [right; rewrite strlen_app; [done|by apply Forall_reverse]|].
  wp_step. apply wp_to_user; [done|]. wp_step.
  by rewrite <-(fmap_cons Some 0), <-fmap_app, <-fmap_take.
Qed.

(** ** A file with a string in it *)

(** [CD_IOC_REVERSE_STRING], [k] times. *)
Fixpoint reverses (k : nat) : K chardev unit :=
  match k with O => mret tt | S k => _ ← chardev_ioctl CD_IOC_REVERSE_STRING 0 []; reverses k end.

(** A process opens the device, allocates as many bytes as there are in [user],
    writes and reverses them, and reads what is there then. *)
Definition chardev_session (name user : list Z) (k : nat) : K chardev (Z * list cell) :=
  r ← chardev_open O_WRONLY name;
  if negb (r =? 0) then mret (r, []) else
  _ ← chardev_ioctl CD_IOC_ALLOC_BUF (lenZ user) [];
  _ ← chardev_ioctl CD_IOC_WRITE_STRING 0 user;
  reverses k;;
  '(_, l) ← chardev_ioctl CD_IOC_READ_STRING 0 [];
  r ← chardev_release;
  mret (r, l).

Lemma wp_open flags name s (Q : Z → chardev → Prop) :
  Z.land flags O_ACCMODE = O_WRONLY → chardev_mutex s = false →
  (∀ i, f_flags i = flags → Q 0 (set_cfile (FileOpen i) (add_blocks 2
    (set_count (s32 (count s + 1)) (set_cmutex true s))))) → wp C (chardev_open flags name) Q s.
Proof.
  intros Hf Hm HQ. unfold chardev_open. rewrite Hf. cbn [negb Z.eqb O_WRONLY Pos.eqb].
  do 2 wp_step. rewrite Hm. do 4 wp_step. wp_step. apply wp_call. intros p [_ Hp]%HC.
  wp_step. apply wp_call. intros q [_ Hq]%HC. cbn in Hp, Hq.
  rewrite !(proj2 (Z.eqb_neq _ _)) by done. cbn [orb]. wp_step. wp_step. wp_step. apply wp_call. intros r _.
  wp_step. wp_step. wp_step. by apply HQ.
Qed.

Lemma wp_ioctl i cmd arg user m s (Q : Z * list cell → chardev → Prop) :
  cfile_of s = FileOpen i → chardev_ioctl cmd arg user = (_ ← the_file; m) →
  wp C m Q s → wp C (chardev_ioctl cmd arg user) Q s.
Proof. intros Hf -> H. wp_step. by apply (wp_the_file _ i). Qed.

(** The calls of [reverses] turn the string round. *)
Definition turned (k : nat) (str : list Z) : list Z := if Nat.even k then str else reverse str.

Lemma wp_reverses k i str rest s (Q : unit → chardev → Prop) :
  cfile_of s = FileOpen i → kern_buf s = Some ((Some <$> str) ++ Some 0 :: rest) → Forall (.≠ 0) str →
  Q tt (set_kern_buf (Some ((Some <$> turned k str) ++ Some 0 :: rest)) s) → wp C (reverses k) Q s.
Proof.
  revert str s. induction k as [|k IH]; intros str s Hf Hk Hs HQ; cbn [reverses].
  { wp_step. cbn in HQ. by rewrite <-Hk in HQ; destruct s. }
  wp_step. apply (wp_ioctl i _ _ _ (r ← ioc_reverse; mret (r, []))); [done..|]. wp_step. apply (wp_ioc_reverse str rest); [done..|]. wp_step.
  apply (IH (reverse str)); [done..|by apply Forall_reverse|].
  unfold turned in *. rewrite Nat.even_succ, <-Nat.negb_even in HQ.
  destruct (Nat.even k); cbn in HQ; [done|by rewrite reverse_involutive].
Qed.

(** C20: on a kernel without faults, a string with its end that is written into the
    buffer of an idle device and reversed [k] times is read back as it was for an
    even [k] and the other way round for an odd one, whatever is behind it; the
    file is closed again, and the buffer is never freed. *)
Theorem chardev_reverses name str rest k s :
  Forall (.≠ 0) str → lenZ str + 1 + lenZ rest < 2 ^ 31 → cfile_of s = NoFile → chardev_mutex s = false →
  wp C (chardev_session name (str ++ 0 :: rest) k)
    (λ '(r, l) s', r = 0 ∧ l = Some <$> turned k str ++ 0 :: rest ∧
      cfile_of s' = NoFile ∧ chardev_mutex s' = false ∧ blocks s' = blocks s + 1) s.
Proof.
  intros Hs Hlen Hf Hm. unfold chardev_session.
  set (user := str ++ 0 :: rest). assert (s32 (lenZ user) = lenZ user) as Hn.
  { apply s32_small. unfold user. rewrite length_app, length_cons. lia. }
  wp_step. apply wp_open; [done..|]. intros i Hi. cbn [negb Z.eqb].
  wp_step. apply (wp_ioctl i _ _ _ (r ← ioc_alloc (lenZ user); mret (r, []))); [done..|].
  wp_step. apply wp_ioc_alloc; [lia|]. rewrite Hn. wp_step.
  assert (length (uninit (lenZ user)) = length user) as Hu by (unfold uninit; rewrite length_replicate; lia).
  assert ((Some <$> take (length user) user) = (Some <$> str) ++ Some 0 :: (Some <$> rest)) as Ht.
  { by rewrite firstn_all; unfold user; rewrite fmap_app. }
  wp_step. apply (wp_ioctl i _ _ _ (r ← ioc_write user; mret (r, []))); [done..|].
  wp_step. apply (wp_ioc_write _ (uninit (lenZ user))); [done|cbn; lia|cbn; lia|..]; rewrite Hu, Ht.
  { right. by rewrite strlen_app. }
  wp_step. wp_step. apply (wp_reverses _ i str (Some <$> rest)); [done..|].
  wp_step. apply (wp_ioctl i _ _ _ (l ← ioc_read; mret (0, l))); [done..|].
  wp_step. eapply wp_ioc_read; [done| |].
  { cbn. unfold user. rewrite !length_app, !length_cons, !length_fmap. unfold turned. case_match; by rewrite ?length_reverse. }
  wp_step. wp_step. unfold chardev_release. wp_step. apply (wp_the_file _ i); [done|]. wp_go.
  split_and!; [done| |done..|cbn; lia]. by rewrite fmap_app.
Qed.

(** ** Writes *)

(** Nothing is ever stored behind the first 8 bytes of [writebuf]. *)
Definition write_ok (s : chardev) : Prop :=
  ∃ first : list Z, length first = 8%nat ∧ writebuf s = (Some <$> first) ++ zeroed 1016.

Lemma strlen_8 (l : list Z) rest : strlen ((Some <$> l) ++ Some 0 :: rest) = strlen ((Some <$> l) ++ [Some 0]).
Proof. induction l as [|c l IH]; [done|]. cbn. by rewrite IH. Qed.

Lemma strlen_end (l : list Z) : is_Some (strlen ((Some <$> l) ++ [Some 0])).
Proof.
  induction l as [|c l [n IH]]; [by exists 0%nat|]. cbn. rewrite IH. by destruct (c =? 0); eexists.
Qed.

Lemma store_8 (first l : list Z) : length first = 8%nat → length l = 8%nat →
  store 0 (Some <$> l) ((Some <$> first) ++ zeroed 1016) = (Some <$> l) ++ zeroed 1016.
Proof.
  intros Hf Hl. apply list_inserts_0_r. by rewrite !length_fmap, Hf.
Qed.

Lemma strlen_lt l n : strlen l = Some n → (n < length l)%nat.
Proof. intros (str & rest & -> & _ & <-)%strlen_inv. rewrite length_app, length_fmap. cbn. lia. Qed.

(** A write takes 8 bytes of user memory whatever its count is, keeps them, and
    returns how many of them are before the first zero: a count of 0 or 1 may be
    answered with 8. *)
Lemma wp_write user cnt i s :
  cfile_of s = FileOpen i → write_ok s → (8 <= length user)%nat →
  wp C (chardev_write user cnt) (λ r s',
    s' = set_writebuf ((Some <$> take 8 user) ++ zeroed 1016) s ∧
    0 <= r <= 8 ∧ strlen ((Some <$> take 8 user) ++ [Some 0]) = Some (Z.to_nat r)) s.
Proof.
  intros Hf (first & Hfirst & Hw) Hu. unfold chardev_write.
  wp_step. apply (wp_the_file _ i); [done|]. wp_step. apply wp_from_user; [done|]. cbn iota.
  wp_step. wp_step. rewrite Hw, store_8 by (rewrite ?length_take; lia). cbn [negb].
  set (l := take 8 user). destruct (strlen_end l) as [n Hn].
  assert (strlen ((Some <$> l) ++ zeroed 1016) = Some n) as Hn' by (rewrite <-Hn; apply strlen_8).
  do 2 wp_step. cbn [writebuf set_writebuf]. wp_step. apply wp_printk_s; [right; by rewrite Hn'|].
  wp_step. apply (wp_deref _ _ _ _ _ n); [done|]. wp_step. rewrite Nat2Z.id. split_and!; [done|lia| |done].
  apply strlen_lt in Hn. rewrite length_app, length_fmap in Hn. unfold l in Hn. rewrite length_take, length_cons in Hn. change (length []) with 0%nat in Hn. lia.
Qed.

(** ** No call faults *)

(** The block is as long as the size that was asked for. *)
Definition buf_ok (s : chardev) : Prop :=
  match kern_buf s with None => buf_size s = 0 | Some l => lenZ l = buf_size s end.

Definition chardev_inv (s : chardev) : Prop :=
  file_ok s ∧ cfile_of s ≠ FileFreed ∧ buf_ok s ∧ write_ok s.

(** Calls that are kept within what the driver checks nothing of: strings end
    where they are expected to, there is a string in the buffer when it is reversed, a
    size is not negative, and nobody frees the file. *)
Definition chardev_sane (s : chardev) (op : cop) : Prop :=
  chardev_allowed s op ∧
  match op with
  | CWrite user _ => (8 <= length user)%nat
  | CIoctl cmd arg user =>
      (cmd = CD_IOC_ALLOC_BUF → 0 <= s32 arg) ∧
      (cmd = CD_IOC_WRITE_STRING → buf_size s = 0 ∨
        buf_size s <= lenZ user ∧ is_Some (strlen (Some <$> take (Z.to_nat (buf_size s)) user))) ∧
      (cmd = CD_IOC_REVERSE_STRING → is_Some (kern_buf s ≫= strlen)) ∧
      cmd ≠ CD_IOC_FREE_BUF ∧
      (cmd = CD_IOC_READ_WRITE_REVERSE_STRING → is_Some (strlen (Some <$> take (2 * STRING_LEN) user)))
  | _ => True
  end.

Lemma wp_open_any flags name s :
  file_ok s → wp C (chardev_open flags name) (λ _ s', s' = s ∨
    ∃ i, file_ok s' ∧ s' = set_cfile (FileOpen i) (add_blocks 2 (set_count (s32 (count s + 1)) (set_cmutex true s)))) s.
Proof.
  intros Hok. destruct (decide (Z.land flags O_ACCMODE = O_WRONLY)) as [Hf|Hf].
  2: { unfold chardev_open. rewrite (proj2 (Z.eqb_neq _ _)) by done. cbn [negb]. wp_step. by left. }
  destruct (chardev_mutex s) eqn:Hm.
  { unfold chardev_open. rewrite (proj2 (Z.eqb_eq _ _)) by done. cbn [negb]. do 2 wp_step. rewrite Hm. wp_step. by left. }
  apply wp_open; [done..|]. intros i Hi. right. exists i. split; [|done]. split; [done|]. cbn. by rewrite Hi.
Qed.

(** What leaves the file, the buffer and [writebuf] alone leaves the invariant. *)
Lemma inv_untouched s s' :
  cfile_of s' = cfile_of s → chardev_mutex s' = chardev_mutex s → kern_buf s' = kern_buf s →
  buf_size s' = buf_size s → writebuf s' = writebuf s → chardev_inv s → chardev_inv s'.
Proof. unfold chardev_inv, file_ok, buf_ok, write_ok. by intros -> -> -> -> ->. Qed.

Lemma inv_buf b n s : chardev_inv s → match b with None => n = 0 | Some l => lenZ l = n end →
  ∀ z, chardev_inv (set_kern_buf b (add_blocks z (set_buf_size n s))).
Proof. by intros (Hf & Hn & _ & Hw) Hb z. Qed.

Lemma wp_handle_open flags name s :
  chardev_inv s → wp C (chardev_handle (COpen flags name)) (λ _, chardev_inv) s.
Proof.
  intros Hinv. apply wp_kfmap. eapply wp_mono; [apply wp_open_any, Hinv|].
  intros r s' [->|(i & Hok & ->)]; [done|]. by destruct Hinv as (_ & _ & Hb & Hw).
Qed.

(** With a file that is open. *)
Lemma wp_handle_release i s :
  cfile_of s = FileOpen i → chardev_inv s → wp C (chardev_handle CRelease) (λ _, chardev_inv) s.
Proof.
  intros Hf (_ & _ & Hb & Hw). apply wp_kfmap. unfold chardev_release. wp_step.
  apply (wp_the_file _ i); [done|]. by wp_go.
Qed.

Lemma wp_handle_poll i s :
  cfile_of s = FileOpen i → chardev_inv s → wp C (chardev_handle CPoll) (λ _, chardev_inv) s.
Proof.
  intros Hf Hinv. apply wp_kfmap. unfold chardev_poll. wp_step. apply (wp_the_file _ i); [done|]. by wp_go.
Qed.

Lemma strlen_str (u : list Z) : is_Some (strlen (Some <$> u)) → ∃ str rest, u = str ++ 0 :: rest ∧ Forall (.≠ 0) str.
Proof.
  induction u as [|c u IH]; intros [n Hn]; [done|]. cbn in Hn. destruct (c =? 0) eqn:Hc; zbool.
  - subst c. by exists [], u.
  - destruct IH as (str & rest & -> & Hs); [by destruct (strlen (Some <$> u)); [eexists|]|].
    exists (c :: str), rest. split; [done|by apply Forall_cons].
Qed.

Lemma wp_handle_struct user s :
  is_Some (strlen (Some <$> take (2 * STRING_LEN) user)) → chardev_inv s →
  wp C (ioc_read_write_reverse user) (λ _, chardev_inv) s.
Proof. intros (str & rest & Hu & Hs)%strlen_str Hinv. by apply (wp_ioc_struct _ str rest). Qed.

Lemma wp_handle_string user s :
  chardev_inv s → buf_size s = 0 ∨ buf_size s <= lenZ user ∧ is_Some (strlen (Some <$> take (Z.to_nat (buf_size s)) user)) →
  wp C (ioc_write user) (λ _, chardev_inv) s.
Proof.
  intros Hinv Hu. pose proof Hinv as (_ & _ & Hb & _). unfold buf_ok in Hb. destruct (kern_buf s) as [l|] eqn:Hk.
  - rewrite <-Hb, Nat2Z.id in Hu. apply (wp_ioc_write _ l); [done..| | |].
    + destruct Hu as [Hz|[? _]]; lia.
    + destruct Hu as [Hz|[_ ?]]; [left|by right]. apply nil_length_inv. lia.
    + change (chardev_inv (set_kern_buf (Some (Some <$> take (length l) user)) s)).
      destruct Hinv as (? & ? & _ & ?). split_and!; [done..| |done]. unfold buf_ok. cbn.
      rewrite length_fmap, length_take. destruct Hu as [Hz|[? _]]; lia.
  - unfold ioc_write. do 4 wp_step. rewrite Hk, Hb. cbn [Z.eqb]. by wp_step.
Qed.

Lemma wp_handle_write i user cnt s :
  cfile_of s = FileOpen i → chardev_inv s → (8 <= length user)%nat →
  wp C (chardev_handle (CWrite user cnt)) (λ _, chardev_inv) s.
Proof.
  intros Hf (Hok & Hn & Hb & Hw) Hu. apply wp_kfmap.
  eapply wp_mono; [by apply (wp_write user cnt i)|]. intros r s' (-> & _).
  split_and!; [done..|]. exists (take 8 user). split; [rewrite length_take; lia|done].
Qed.

Lemma wp_handle_ioctl i cmd arg user s :
  cfile_of s = FileOpen i → chardev_inv s → chardev_sane s (CIoctl cmd arg user) →
  wp C (chardev_ioctl cmd arg user) (λ _, chardev_inv) s.
Proof.
  intros Hf Hinv (_ & Halloc & Hwrite & Hrev & Hfree & Hstruct). unfold chardev_ioctl.
  wp_step. apply (wp_the_file _ i); [done|].
  destruct (cmd =? CD_IOC_ALLOC_BUF) eqn:E1; zbool.
  { wp_step. apply wp_ioc_alloc; [by apply Halloc|]. wp_step. apply inv_buf; [done|].
    cbn. unfold uninit. rewrite length_replicate. specialize (Halloc E1). lia. }
  destruct (cmd =? CD_IOC_WRITE_STRING) eqn:E2; zbool.
  { wp_step. eapply wp_mono; [by apply wp_handle_string; [|apply Hwrite]|]. intros r s' ?. by wp_step. }
  destruct (cmd =? CD_IOC_REVERSE_STRING) eqn:E3; zbool.
  { wp_step. destruct (Hrev E3) as [n Hn]. destruct (kern_buf s) as [l|] eqn:Hk; [|done].
    cbn in Hn. apply strlen_inv in Hn as (str & rest & -> & Hstr & _).
    apply (wp_ioc_reverse str rest); [done..|]. wp_step.
    destruct Hinv as (? & ? & Hb & ?). split_and!; [done..| |done]. unfold buf_ok in *. rewrite Hk in Hb. cbn.
    rewrite <-Hb. by rewrite !length_app, !length_fmap, length_reverse. }
  destruct (cmd =? CD_IOC_READ_STRING) eqn:E4; zbool.
  { wp_step. pose proof Hinv as (_ & _ & Hb & _). unfold buf_ok in Hb. destruct (kern_buf s) as [l|] eqn:Hk.
    - apply (wp_ioc_read l); [done..|]. by wp_step.
    - unfold ioc_read. do 2 wp_step. rewrite Hb. cbn [Z.leb Z.compare]. by do 2 wp_step. }
  rewrite (proj2 (Z.eqb_neq _ _)) by done.
  destruct (cmd =? CD_IOC_READ_WRITE_REVERSE_STRING) eqn:E5; zbool; [|by wp_step].
  wp_step. eapply wp_mono; [by apply wp_handle_struct; [apply Hstruct|]|]. intros l s' ?. by wp_step.
Qed.

(** Calls that keep to what the driver does not check ([chardev_sane]) never
    fault, in whatever order they come and whatever the thread prints meanwhile. *)
Theorem chardev_faultless :
  (∀ s s', c_rely C s s' → chardev_rely s s') →
  faultless chardev_handle chardev_sane C chardev_init_state.
Proof.
  intros Hrely. apply (inv_faultless _ _ _ _ chardev_inv). split_and!.
  - intros s ->. split_and!; [done..|]. by exists (replicate 8 0).
  - intros s op Hinv Hsane. pose proof Hinv as (Hok & Hfree & _).
    pose proof (file_ok_unreadable s Hok) as Hr.
    assert (cfile_of s ≠ NoFile → ∃ i, cfile_of s = FileOpen i) as Hi by (destruct (cfile_of s); naive_solver).
    pose proof Hsane as [Hop Hs]. destruct op; cbn in Hop; try done; [by apply wp_handle_open|destruct (Hi Hop) as [i Hf]..].
    + by apply (wp_handle_release i).
    + by apply (wp_handle_write i).
    + by apply (wp_handle_poll i).
    + by apply (wp_handle_ioctl i).
  - intros s s' Hinv [->|[j ->]]%Hrely; [done|]. by apply (inv_untouched s).
Qed.
End quiet.

(** A read gives the clock as the thread last printed it, and the next one nothing
    until it prints again. *)
Lemma chardev_read_clock j s i :
  cfile_of s = FileOpen i → length (readbuf s) = 1024%nat →
  wp (quiet chardev) chardev_read (λ '(r, l) s',
    readbuflen s' = 0 ∧ ∃ text, l = Some <$> text ∧ r = lenZ text ∧ value text = u64 j) (kthread_print j s).
Proof.
  intros Hf Hlen. unfold chardev_read. wp_step. apply (wp_the_file _ i); [done|].
  wp_step. wp_step. wp_step. wp_step. cbn [readbuf readbuflen set_read kthread_print].
  set (text := digits 20 (u64 j)). pose proof (u64_range j) as Hj.
  assert (length text <= 20)%nat as Ht by (apply length_digits_le; lia).
  assert (slice 0 (lenZ text) (store 0 (Some <$> text ++ [0]) (readbuf s)) = Some <$> text) as ->.
  { unfold slice. rewrite Nat2Z.id, drop_0, fmap_app.
    pose proof (take_store 0 (Some <$> text) (Some <$> [0]) (readbuf s)) as H.
    rewrite !length_fmap, Hlen in H. apply H; [done|]. cbn [length]. lia. }
  wp_step. apply wp_to_user; [done|]. cbn iota. wp_step. apply wp_interfere_quiet. wp_go.
  split; [done|]. exists text. split_and!; [done..|]. apply value_digits. lia.
Qed.

(** After [CD_IOC_FREE_BUF] the next call on the file, closing it included, uses
    freed memory. *)
Lemma chardev_freed_file s op o t :
  cfile_of s = FileFreed → match op with COpen _ _ => False | _ => True end →
  chardev_handle op o (t, s) = Oops UseAfterFree.
Proof.
  intros Hf Hop. destruct op; [done|..]; cbn; unfold kfmap, chardev_release, chardev_read, chardev_write,
    chardev_poll, chardev_ioctl, chardev_mmap, mmap_open, mmap_close, mmap_ref, mmap_fault, the_file, gets, get, mbind, K_bind; cbn;
    by rewrite Hf.
Qed.

(** A file cannot be opened where memory is short. *)
Lemma chardev_open_oops flags name s o t :
  Z.land flags O_ACCMODE = O_WRONLY → chardev_mutex s = false → ans o (kmalloc 16) t = 0 →
  chardev_open flags name o (t, s) = Oops NullDeref.
Proof.
  intros Hf Hm Ho. unfold chardev_open, gets, get, modify, call, mbind, K_bind. rewrite Hf. cbn. rewrite Hm. cbn.
  by rewrite Ho.
Qed.

(** ** Concrete runs *)

Definition idle : chardev := Chardev (zeroed 1024) 0 (zeroed 1024) None 0 false 0 NoFile 0.

(** "abc", the other way round. *)
Example session_run :
  (r ← run quiet_oracle (chardev_session [] [97; 98; 99; 0; 120] 1) idle; mret r.1) =
  Done (0, [Some 99; Some 98; Some 97; Some 0; Some 120]).
Proof. vm_compute. reflexivity. Qed.

(** A buffer into which nothing was written is reversed up to the first zero behind
    it. *)
Example reverse_unwritten :
  run quiet_oracle (_ ← chardev_open O_WRONLY []; _ ← chardev_ioctl CD_IOC_ALLOC_BUF 8 []; chardev_ioctl CD_IOC_REVERSE_STRING 0 []) idle =
  Oops OutOfBounds.
Proof. vm_compute. reflexivity. Qed.

(** A write of one byte returns 8. *)
Example write_one :
  (r ← run quiet_oracle (_ ← chardev_open O_WRONLY []; chardev_write [1; 2; 3; 4; 5; 6; 7; 8] 1) idle; mret r.1) = Done 8.
Proof. vm_compute. reflexivity. Qed.

Lemma chardev_reverses_witness :
  wp chardev_quiet (chardev_session [] ([97; 98; 99] ++ 0 :: [120]) 1)
    (λ '(r, l) s', r = 0 ∧ l = Some <$> turned 1 [97; 98; 99] ++ 0 :: [120] ∧
      cfile_of s' = NoFile ∧ chardev_mutex s' = false ∧ blocks s' = blocks idle + 1) idle.
Proof. apply chardev_reverses; [done|by repeat constructor|cbn; lia|done|done]. Defined.

Lemma chardev_one_writer_witness :
  (cfile_of idle ≠ NoFile ↔ chardev_mutex idle = true) ∧
  ¬ chardev_allowed idle CRead ∧ ¬ chardev_allowed idle CMmap ∧
  ∀ flags name o t, cfile_of idle ≠ NoFile →
    chardev_open flags name o (t, idle) =
      Done (if Z.land flags O_ACCMODE =? O_WRONLY then - EBUSY else - EACCES, (t, idle)).
Proof. apply (chardev_one_writer chardev_quiet idle); [done|by apply reach_init]. Defined.
