(* ===== verification/ChardevModule.v ===== *)
(** * chardev: loading and unloading
    (src/lkd-todo/char/chardev/chardev.c)

    What the module takes from the kernel, the thread among it, and how it gives it
    back. *)

From stdpp Require Import base tactics numbers list strings.
From S2P Require Import Prelude KMonad Registry.
From Stdlib Require Import ZArith Lia.

Open Scope Z_scope.

(** ** Data *)

(** Pointers are 0 for NULL and negative for the errors of [ERR_PTR]. *)
Record chardev_mod := ChardevMod {
  chardev_major : Z;
  chardev_devices : Z;
  charclass : Z;
  chardevice : Z;
  kthread : Z;
  regs : registry
}.

Definition set_chardev_major (v : Z) (m : chardev_mod) : chardev_mod :=
  ChardevMod v (chardev_devices m) (charclass m) (chardevice m) (kthread m) (regs m).
Definition set_chardev_devices (v : Z) (m : chardev_mod) : chardev_mod :=
  ChardevMod (chardev_major m) v (charclass m) (chardevice m) (kthread m) (regs m).
Definition set_charclass (v : Z) (m : chardev_mod) : chardev_mod :=
  ChardevMod (chardev_major m) (chardev_devices m) v (chardevice m) (kthread m) (regs m).
Definition set_chardevice (v : Z) (m : chardev_mod) : chardev_mod :=
  ChardevMod (chardev_major m) (chardev_devices m) (charclass m) v (kthread m) (regs m).
Definition set_kthread (v : Z) (m : chardev_mod) : chardev_mod :=
  ChardevMod (chardev_major m) (chardev_devices m) (charclass m) (chardevice m) v (regs m).
Definition set_regs (v : registry) (m : chardev_mod) : chardev_mod :=
  ChardevMod (chardev_major m) (chardev_devices m) (charclass m) (chardevice m) (kthread m) v.

#[export] Instance chardev_mod_registry : HasRegistry chardev_mod :=
  { registry_of := regs; set_registry := set_regs; registry_set g m := eq_refl }.

Definition dev_mem : resource := Res "chardev_devices" 0.
Definition cdev_ref : resource := Res "cdev" 0.
Definition class_res : resource := Res "class" 0.
Definition device_res : resource := Res "device" 0.
Definition thread_res : resource := Res "kthread" 0.
Definition attr_res : resource := Res "attribute" 0.

(** [device_remove_file] ignores NULL; [kthread_stop] follows its pointer. *)
Definition chardev_cleanup : K chardev_mod unit :=
  d ← gets chardevice;
  (if d <? 0 then oops NullDeref else if d =? 0 then mret tt else give_if_held attr_res);;
  k ← gets kthread;
  (if k <=? 0 then oops NullDeref else give_back thread_res);;
  cls ← gets charclass;
  (if cls =? 0 then mret tt else
   if cls <? 0 then oops NullDeref else give_if_held device_res;; give_back class_res);;
  devs ← gets chardev_devices;
  (if devs =? 0 then mret tt else give_back cdev_ref;; give_back dev_mem);;
  ma ← gets chardev_major;
  give_back (region (MKDEV ma 0)).

(** The reference to the cdev is there whether [cdev_add] fails or not. *)
Definition chardev_setup_cdev : K chardev_mod unit :=
  hold cdev_ref;;
  _ ← call (kint "cdev_add");
  mret tt.

Definition init_fail (ret : Z) : K chardev_mod Z := chardev_cleanup;; mret ret.

(** From [kthread_create] on; [wake_up_process] follows the pointer. *)
Definition start_thread : K chardev_mod Z :=
  k ← call (kint "kthread_create");
  modify (set_kthread k);;
  if k <=? 0 then oops NullDeref else
  hold thread_res;;
  ret ← acquire "device_create_file" attr_res;
  if negb (ret =? 0) then init_fail ret else mret 0.

Definition chardev_init : K chardev_mod Z :=
  ret ← call (kint "alloc_chrdev_region");
  if ret <? 0 then mret ret else
  dyn ← call (kint "dynamic major");
  hold (region (MKDEV dyn 0));;
  modify (set_chardev_major (MAJOR (MKDEV dyn 0)));;
  devs ← call (kmalloc 1);
  modify (set_chardev_devices devs);;
  if devs =? 0 then init_fail (- ENOMEM) else
  hold dev_mem;;
  chardev_setup_cdev;;
  cls ← call (kint "class_create");
  modify (set_charclass cls);;
  if cls <? 0 then init_fail cls else
  hold class_res;;
  d ← call (kint "device_create");
  modify (set_chardevice d);;
  if d <? 0 then init_fail d else
  hold device_res;;
  start_thread.

(** Loaded, and unloaded when that went well. *)
Definition chardev_load : K chardev_mod Z :=
  r ← chardev_init;
  if r =? 0 then chardev_cleanup;; mret 0 else mret r.

(** ** What is held *)

(** The answers with which loading gets as far as the thread: there is memory, and
    class, device and thread can be created. The numbers, the cdev and the
    attribute may be refused. *)
Definition chardev_kernel (K0 : contract chardev_mod) : Prop :=
  (∀ z, c_ans K0 (kint "dynamic major") z → 0 < z < 2 ^ 12) ∧
  (∀ z, c_ans K0 (kmalloc 1) z → z ≠ 0) ∧
  (∀ z, c_ans K0 (kint "class_create") z → 0 < z) ∧
  (∀ z, c_ans K0 (kint "device_create") z → 0 < z) ∧
  (∀ z, c_ans K0 (kint "kthread_create") z → 0 < z) ∧
  (∀ z, c_ans K0 (kint "device_create_file") z → z <= 0).

(** Everything, with the attribute where there is one. *)
Definition loaded (attr : bool) (m : chardev_mod) : Prop :=
  owned (opt attr attr_res ++ [thread_res; device_res; class_res; cdev_ref; dev_mem; region (MKDEV (chardev_major m) 0)]) m ∧
  0 < chardevice m ∧ 0 < kthread m ∧ 0 < charclass m ∧ chardev_devices m ≠ 0.

Lemma wp_chardev_cleanup K0 attr m (Q : unit → chardev_mod → Prop) :
  loaded attr m → (∀ m', owned [] m' → Q tt m') → wp K0 chardev_cleanup Q m.
Proof.
  intros (Ho & Hd & Hk & Hc & Hdv) HQ. unfold chardev_cleanup. set (r := region (MKDEV (chardev_major m) 0)) in *.
  wp_step. wp_step. rewrite (proj2 (Z.ltb_ge _ _)), (proj2 (Z.eqb_neq (chardevice m) 0)) by lia.
  wp_step. eapply (wp_give_if_held _ attr); [by destruct m| |exact Ho|].
  { apply other_kind. by repeat constructor. }
  intros g Hg. wp_step. wp_step. cbn [kthread set_registry chardev_mod_registry set_regs].
  rewrite (proj2 (Z.leb_gt _ _)) by lia.
  wp_step. apply (wp_give_back_owned _ _ _ [device_res; class_res; cdev_ref; dev_mem; r] _ _ Hg); [done|]. intros g1 Hg1.
  wp_step. wp_step. cbn [charclass set_registry chardev_mod_registry set_regs].
  rewrite (proj2 (Z.eqb_neq (charclass m) 0)), (proj2 (Z.ltb_ge _ _)) by lia.
  wp_step. wp_step. apply (wp_give_if_held _ true _ [class_res; cdev_ref; dev_mem; r]); [done| |exact Hg1|].
  { apply other_kind. by repeat constructor. }
  intros g2 Hg2. apply (wp_give_back_owned _ _ _ [cdev_ref; dev_mem; r] _ _ Hg2); [done|]. intros g3 Hg3.
  wp_step. wp_step. cbn [chardev_devices set_registry chardev_mod_registry set_regs].
  rewrite (proj2 (Z.eqb_neq (chardev_devices m) 0)) by done.
  wp_step. wp_step. apply (wp_give_back_owned _ _ _ [dev_mem; r] _ _ Hg3); [done|]. intros g4 Hg4.
  apply (wp_give_back_owned _ _ _ [r] _ _ Hg4); [done|]. intros g5 Hg5.
  wp_step. wp_step. apply (wp_give_back_owned _ _ _ [] _ _ Hg5); [done|]. intros g6 Hg6. by apply HQ.
Qed.

Lemma wp_start_thread K0 m (Q : Z → chardev_mod → Prop) :
  chardev_kernel K0 → 0 < chardevice m → 0 < charclass m → chardev_devices m ≠ 0 →
  owned [device_res; class_res; cdev_ref; dev_mem; region (MKDEV (chardev_major m) 0)] m →
  (∀ m', loaded true m' → Q 0 m') → (∀ r m', r < 0 → owned [] m' → Q r m') → wp K0 start_thread Q m.
Proof.
  intros (_ & _ & _ & _ & Hthread & Hattr) Hd Hc Hdv Ho H0 H1. unfold start_thread.
  wp_step. apply wp_call. intros k Hk%Hthread. wp_step. wp_step. rewrite (proj2 (Z.leb_gt _ _)) by done.
  wp_step. eapply (wp_hold_owned _ _ [device_res; class_res; cdev_ref; dev_mem; region (MKDEV (chardev_major m) 0)]); [exact Ho|]. intros g Hg.
  wp_step. apply wp_acquire.
  - change (0 =? 0) with true. cbn [negb]. wp_step. apply H0. split; [by apply (owned_add attr_res)|done].
  - intros z Hz%Hattr Hz0. rewrite (proj2 (Z.eqb_neq _ _)) by done. cbn [negb]. unfold init_fail. wp_step.
    apply (wp_chardev_cleanup _ false); [done|]. intros m' Hm'. wp_step. apply H1; [lia|done].
Qed.

Lemma wp_chardev_init K0 m (Q : Z → chardev_mod → Prop) :
  chardev_kernel K0 → owned [] m →
  (∀ m', loaded true m' → Q 0 m') → (∀ r m', r < 0 → owned [] m' → Q r m') → wp K0 chardev_init Q m.
Proof.
  intros HK Ho H0 H1. pose proof HK as (Hma & Hmem & Hcls & Hdev & _). unfold chardev_init.
  wp_step. wp_step. wp_step; [wp_step; by apply H1|].
  wp_step. apply wp_call. intros dyn Hdyn%Hma.
  wp_step. apply (wp_hold_owned _ _ _ _ _ Ho). intros g Hg. wp_step. wp_step.
  assert (MAJOR (MKDEV dyn 0) = dyn) as -> by (apply MAJOR_MKDEV; lia).
  wp_step. apply wp_call. intros p Hp%Hmem. wp_step. wp_step. rewrite (proj2 (Z.eqb_neq _ _)) by done.
  wp_step. eapply (wp_hold_owned _ _ [region (MKDEV dyn 0)]); [exact Hg|]. intros g1 Hg1.
  wp_step. unfold chardev_setup_cdev. wp_step. apply (wp_hold_owned _ _ _ _ _ Hg1). intros g2 Hg2.
  wp_step. wp_step. wp_step.
  wp_step. apply wp_call. intros c Hc%Hcls. wp_step. wp_step. rewrite (proj2 (Z.ltb_ge _ _)) by lia.
  wp_step. eapply (wp_hold_owned _ _ [cdev_ref; dev_mem; region (MKDEV dyn 0)]); [exact Hg2|]. intros g3 Hg3.
  wp_step. apply wp_call. intros d Hd%Hdev. wp_step. wp_step. rewrite (proj2 (Z.ltb_ge _ _)) by lia.
  wp_step. eapply (wp_hold_owned _ _ [class_res; cdev_ref; dev_mem; region (MKDEV dyn 0)]); [exact Hg3|]. intros g4 Hg4.
  by apply wp_start_thread.
Qed.

(** Where there is memory and class, device and thread can be created, the
    module gives back whatever it took, once, when a later step of its loading
    fails and when it is unloaded. *)
Theorem chardev_module_unloads K0 m :
  chardev_kernel K0 → owned [] m → wp K0 chardev_load (λ r m', r <= 0 ∧ owned [] m') m.
Proof.
  intros HK Ho. unfold chardev_load. wp_step. apply wp_chardev_init; [done..| |].
  - intros m' Hm'. change (0 =? 0) with true. cbn iota. wp_step.
    apply (wp_chardev_cleanup _ true); [done|]. intros m2 Ho2. by wp_step.
  - intros r m' Hr Hm'. rewrite (proj2 (Z.eqb_neq _ _)) by lia. wp_step. split; [lia|done].
Qed.

(** Without a thread the way out faults. *)
Lemma cleanup_oops m o t : kthread m <= 0 → chardev_cleanup o (t, m) = Oops NullDeref.
Proof.
  intros Hk. unfold chardev_cleanup, give_if_held, give_back, gets, get, modify, mbind, K_bind. cbn.
  destruct (_ <? 0); [done|]. destruct (_ =? 0); cbn; [by rewrite (proj2 (Z.leb_le _ _))|].
  destruct (decide _); cbn; by rewrite (proj2 (Z.leb_le _ _)).
Qed.

(** Once the numbers are granted, loading ends in an oops when the device
    cannot be allocated, or the class, the device or the thread cannot be
    created: the way out stops a thread that was never started. *)
Theorem chardev_init_oops o t m :
  kthread m = 0 → 0 <= ans o (kint "alloc_chrdev_region") t →
  ans o (kmalloc 1) (2 + t)%nat = 0 ∨ ans o (kint "class_create") (4 + t)%nat < 0 ∨
  ans o (kint "device_create") (5 + t)%nat < 0 ∨ ans o (kint "kthread_create") (6 + t)%nat <= 0 →
  chardev_init o (t, m) = Oops NullDeref.
Proof.
  intros Hk Ha Hf. cbn [Nat.add] in Hf.
  unfold chardev_init, start_thread, init_fail, chardev_setup_cdev, hold, mbind, K_bind, call, modify. cbn.
  rewrite (proj2 (Z.ltb_ge _ 0)) by done. cbn.
  destruct (ans o (kmalloc 1) _ =? 0) eqn:E1; zbool; cbn; [by rewrite cleanup_oops by (cbn; lia)|].
  destruct (ans o (kint "class_create") _ <? 0) eqn:E2; zbool; cbn; [by rewrite cleanup_oops by (cbn; lia)|].
  destruct (ans o (kint "device_create") _ <? 0) eqn:E3; zbool; cbn; [by rewrite cleanup_oops by (cbn; lia)|].
  by rewrite (proj2 (Z.leb_le _ _)) by lia.
Qed.

(** ** A kernel *)

Definition unloaded : chardev_mod := ChardevMod 0 0 0 0 0 empty_registry.

Definition some_kernel : contract chardev_mod := Contract (λ k z,
  (k = kint "dynamic major" → 0 < z < 2 ^ 12) ∧ (k = kint "device_create_file" → z <= 0) ∧
  (k = kmalloc 1 ∨ k = kint "class_create" ∨ k = kint "device_create" ∨ k = kint "kthread_create" → 0 < z)) alone False.

(** There is one, and the module can be loaded with it. *)
Definition some_answers (k : kcall) (t : nat) : Z :=
  match k with
  | kint what => if decide (what = "device_create_file" ∨ what = "alloc_chrdev_region") then 0 else 240
  | _ => 240
  end.

Lemma some_kernel_obeyed : obeys (Oracle some_answers (λ _ _, 0) (λ _ m, m)) some_kernel.
Proof.
  split; [|done]. intros k t. cbn. unfold some_answers.
  split_and!; intros H; repeat case_decide; subst; try done; naive_solver.
Qed.

Lemma some_kernel_ok : chardev_kernel some_kernel.
Proof. split_and!; intros z (H1 & H2 & H3); (try (assert (0 < z) by (apply H3; auto); lia)); auto. Qed.

Example module_loads :
  (r ← run (Oracle some_answers (λ _ _, 0) (λ _ m, m)) chardev_init unloaded; mret (r.1, length (holding (regs r.2)))) = Done (0, 7%nat).
Proof. vm_compute. reflexivity. Qed.

Lemma chardev_module_unloads_witness : wp some_kernel chardev_load (λ r m', r <= 0 ∧ owned [] m') unloaded.
Proof. apply chardev_module_unloads; [apply some_kernel_ok|by apply nil_owned]. Defined.

Lemma chardev_init_oops_witness :
  chardev_init (Oracle (λ k _, match k with kmalloc _ => 0 | _ => 4096 end) (λ _ _, 0) (λ _ m, m)) (0%nat, unloaded) = Oops NullDeref.
Proof. apply chardev_init_oops; [done..|by left]. Defined.
