(* ===== verification/LinkList.v ===== *)
(** * The linked lists of src/c/linklist/linklist.c

    Sorted lists of integers: single and double links, ending in NULL or going
    round. Here are the nodes in memory, the routines for each of the four lists, and
    what they have in common as a class; the theorems are in [LinkListSpec]. *)

From stdpp Require Import base tactics numbers list gmap sorting.
From S2P Require Import Prelude KMonad.
From Stdlib Require Import ZArith Lia.

Open Scope Z_scope.

(** ** Memory

    An address of a node; [ptr] is a pointer, [None] is NULL. *)
Abbreviation loc := positive.
Abbreviation ptr := (option loc).

Record node_ts := NodeS { next : ptr; value : Z }.
Record node_td := NodeD { nextd : ptr; prev : ptr; valued : Z }.

Definition set_next (p : ptr) (n : node_ts) : node_ts := NodeS p (value n).
Definition set_value (v : Z) (n : node_ts) : node_ts := NodeS (next n) v.
Definition set_nextd (p : ptr) (n : node_td) : node_td := NodeD p (prev n) (valued n).
Definition set_prev (p : ptr) (n : node_td) : node_td := NodeD (nextd n) p (valued n).

Section memory.
Context {N : Type}.
Implicit Types h : gmap loc N.

(** [malloc], and the assignments to the new node [n] that follow it: they fault
    where there was no memory. *)
Definition malloc (n : N) : K (gmap loc N) loc :=
  r ← call (kmalloc 16);
  if r =? 0 then oops NullDeref else
  l ← gets (λ h, fresh (dom h));
  modify (<[l := n]>);;
  mret l.

Definition load (p : ptr) : K (gmap loc N) N :=
  l ← deref NullDeref p;
  gets (.!! l) ≫= deref UseAfterFree.

Definition update (p : ptr) (f : N → N) : K (gmap loc N) unit :=
  l ← deref NullDeref p;
  n ← load p;
  modify (<[l := f n]>).

(** A loop goes through the nodes there are, and stops at the next. *)
Definition loop_fuel : K (gmap loc N) nat := gets (λ h, S (size h)).
End memory.

(** [*list], here [lst], is passed to a routine and returned by it. *)

(** ** Single links *)

Abbreviation MS := (K (gmap loc node_ts)).

(** The loop of the insertions: [stop] is where the list ends. *)
Fixpoint find_single (fuel : nat) (stop : ptr) (v : Z) (p q : ptr) : MS (ptr * ptr) :=
  match fuel with
  | O => sleep_forever
  | S fuel =>
      if decide (q = stop) then mret (p, q) else
      n ← load q;
      if value n <? v then find_single fuel stop v q (next n) else mret (p, q)
  end.

Definition insert_single (lst : ptr) (v : Z) : MS ptr :=
  new ← malloc (NodeS None v);
  if decide (lst = None) then mret (Some new) else
  n ← load lst;
  if v <? value n then update (Some new) (set_next lst);; mret (Some new) else
  fuel ← loop_fuel;
  '(p, q) ← find_single fuel None v lst (next n);
  update p (set_next (Some new));;
  update (Some new) (set_next q);;
  mret lst.

Fixpoint print_loop (fuel : nat) (lst : ptr) : MS (list Z) :=
  match fuel with
  | O => sleep_forever
  | S fuel =>
      if decide (lst = None) then mret [] else
      n ← load lst;
      l ← print_loop fuel (next n);
      mret (value n :: l)
  end.
Definition print_single (lst : ptr) : MS (list Z) :=
  fuel ← loop_fuel;
  print_loop fuel lst.

Fixpoint reverse_loop (fuel : nat) (p current nxt : ptr) : MS (ptr * ptr) :=
  match fuel with
  | O => sleep_forever
  | S fuel =>
      if decide (nxt = None) then mret (p, current) else
      update current (set_next p);;
      n ← load nxt;
      reverse_loop fuel current nxt (next n)
  end.
Definition reverse_single (lst : ptr) : MS ptr :=
  if decide (lst = None) then mret lst else
  n ← load lst;
  if decide (next n = None) then mret lst else
  fuel ← loop_fuel;
  '(p, current) ← reverse_loop fuel None lst (next n);
  update current (set_next p);;
  mret current.

(** ** Single links, going round

    A new first element gets the node of the old one, which is copied to the new
    node: the last node goes on pointing to the first. The copy has the size of a
    [node_t], a type that is declared nowhere: what it leaves in its destination is
    a parameter. *)
Definition insert_singlecircular (memcpy_node_t : node_ts → node_ts → node_ts) (lst : ptr) (v : Z) : MS ptr :=
  new ← malloc (NodeS None v);
  if decide (lst = None) then update (Some new) (set_next (Some new));; mret (Some new) else
  n ← load lst;
  if v <? value n then
    update (Some new) (λ d, memcpy_node_t d n);;
    update lst (set_value v);;
    update lst (set_next (Some new));;
    mret lst
  else
  fuel ← loop_fuel;
  '(p, q) ← find_single fuel lst v lst (next n);
  update p (set_next (Some new));;
  update (Some new) (set_next q);;
  mret lst.

(** The list is printed before it is seen whether there is one. *)
Fixpoint print_round (fuel : nat) (lst q : ptr) : MS (list Z) :=
  match fuel with
  | O => sleep_forever
  | S fuel =>
      n ← load q;
      if decide (next n = lst) then mret [value n] else
      l ← print_round fuel lst (next n);
      mret (value n :: l)
  end.
Definition print_singlecircular (lst : ptr) : MS (list Z) :=
  fuel ← loop_fuel;
  print_round fuel lst lst.

Fixpoint reverse_round (fuel : nat) (lst p current nxt : ptr) : MS (ptr * ptr) :=
  match fuel with
  | O => sleep_forever
  | S fuel =>
      if decide (current = lst) then mret (p, current) else
      update current (set_next p);;
      n ← load nxt;
      reverse_round fuel lst current nxt (next n)
  end.
Definition reverse_singlecircular (lst : ptr) : MS ptr :=
  if decide (lst = None) then mret lst else
  n ← load lst;
  if decide (next n = lst) then mret lst else
  c ← load (next n);
  fuel ← loop_fuel;
  '(p, current) ← reverse_round fuel lst lst (next n) (next c);
  update current (set_next p);;
  mret p.

(** ** Double links *)

Abbreviation MD := (K (gmap loc node_td)).

Fixpoint find_double (fuel : nat) (v : Z) (q : ptr) : MD ptr :=
  match fuel with
  | O => sleep_forever
  | S fuel =>
      n ← load q;
      if decide (nextd n = None) then mret q else
      m ← load (nextd n);
      if valued m <? v then find_double fuel v (nextd n) else mret q
  end.

Definition insert_double (lst : ptr) (v : Z) : MD ptr :=
  new ← malloc (NodeD None None v);
  if decide (lst = None) then mret (Some new) else
  n ← load lst;
  if v <? valued n then
    update (Some new) (set_nextd lst);;
    update lst (set_prev (Some new));;
    mret (Some new)
  else
  fuel ← loop_fuel;
  q ← find_double fuel v lst;
  update (Some new) (set_prev q);;
  m ← load q;
  update (Some new) (set_nextd (nextd m));;
  update q (set_nextd (Some new));;
  x ← load (Some new);
  (if decide (nextd x = None) then mret tt else update (nextd x) (set_prev (Some new)));;
  mret lst.

Fixpoint printd_loop (fuel : nat) (lst : ptr) : MD (list Z) :=
  match fuel with
  | O => sleep_forever
  | S fuel =>
      if decide (lst = None) then mret [] else
      n ← load lst;
      l ← printd_loop fuel (nextd n);
      mret (valued n :: l)
  end.
Definition print_double (lst : ptr) : MD (list Z) :=
  fuel ← loop_fuel;
  printd_loop fuel lst.

(** The loop of both reversals: [stop] is where the list ends. *)
Fixpoint reversed_loop (fuel : nat) (stop q nxt : ptr) : MD (ptr * ptr) :=
  match fuel with
  | O => sleep_forever
  | S fuel =>
      if decide (nxt = stop) then mret (q, nxt) else
      n ← load q;
      update q (set_nextd (prev n));;
      update q (set_prev nxt);;
      m ← load nxt;
      reversed_loop fuel stop nxt (nextd m)
  end.
Definition reverse_double (lst : ptr) : MD ptr :=
  if decide (lst = None) then mret lst else
  n ← load lst;
  if decide (nextd n = None) then mret lst else
  fuel ← loop_fuel;
  '(q, _) ← reversed_loop fuel None lst (nextd n);
  m ← load q;
  update q (set_nextd (prev m));;
  update q (set_prev None);;
  mret q.

(** ** Double links, going round *)

Fixpoint find_round (fuel : nat) (lst : ptr) (v : Z) (q : ptr) : MD ptr :=
  match fuel with
  | O => sleep_forever
  | S fuel =>
      if decide (q = lst) then mret q else
      n ← load q;
      if valued n <? v then find_round fuel lst v (nextd n) else mret q
  end.

Definition insert_double_circular (lst : ptr) (v : Z) : MD ptr :=
  new ← malloc (NodeD None None v);
  if decide (lst = None) then
    update (Some new) (set_prev (Some new));;
    update (Some new) (set_nextd (Some new));;
    mret (Some new)
  else
  n ← load lst;
  if v <? valued n then
    update (Some new) (set_nextd lst);;
    update (Some new) (set_prev (prev n));;
    update lst (set_prev (Some new));;
    update (prev n) (set_nextd (Some new));;
    mret (Some new)
  else
  fuel ← loop_fuel;
  q ← find_round fuel lst v (nextd n);
  m ← load q;
  update (prev m) (set_nextd (Some new));;
  update q (set_prev (Some new));;
  update (Some new) (set_nextd q);;
  update (Some new) (set_prev (prev m));;
  mret lst.

Fixpoint printd_round (fuel : nat) (lst q : ptr) : MD (list Z) :=
  match fuel with
  | O => sleep_forever
  | S fuel =>
      n ← load q;
      if decide (nextd n = lst) then mret [valued n] else
      l ← printd_round fuel lst (nextd n);
      mret (valued n :: l)
  end.
Definition print_double_circular (lst : ptr) : MD (list Z) :=
  if decide (lst = None) then mret [] else
  fuel ← loop_fuel;
  printd_round fuel lst lst.

Definition reverse_double_circular (lst : ptr) : MD ptr :=
  if decide (lst = None) then mret lst else
  n ← load lst;
  if decide (nextd n = lst) then mret lst else
  fuel ← loop_fuel;
  '(q, nxt) ← reversed_loop fuel lst lst (nextd n);
  m ← load q;
  update q (set_nextd (prev m));;
  update q (set_prev nxt);;
  mret q.

(** ** One interface for the four

    What [main] uses of a list; a print is the list of the numbers it prints. *)
Record list_impl := ListImpl {
  node : Type;
  insert_value : ptr → Z → K (gmap loc node) ptr;
  print_list : ptr → K (gmap loc node) (list Z);
  reverse_list : ptr → K (gmap loc node) ptr
}.

Definition single : list_impl := ListImpl _ insert_single print_single reverse_single.
Definition singlecircular memcpy_node_t : list_impl :=
  ListImpl _ (insert_singlecircular memcpy_node_t) print_singlecircular reverse_singlecircular.
Definition double : list_impl := ListImpl _ insert_double print_double reverse_double.
Definition double_circular : list_impl := ListImpl _ insert_double_circular print_double_circular reverse_double_circular.

(** The numbers of [a] are inserted one by one, with a print after each. *)
Fixpoint fill (I : list_impl) (lst : ptr) (a : list Z) : K (gmap loc (node I)) (ptr * list (list Z)) :=
  match a with
  | [] => mret (lst, [])
  | v :: a =>
      lst ← insert_value I lst v;
      l ← print_list I lst;
      '(lst, ls) ← fill I lst a;
      mret (lst, l :: ls)
  end.

(** Then the list is reversed, and printed. *)
Definition test_list (I : list_impl) (a : list Z) : K (gmap loc (node I)) (list (list Z)) :=
  '(lst, ls) ← fill I None a;
  lst ← reverse_list I lst;
  l ← print_list I lst;
  mret (ls ++ [l]).

(** The memory of the program, by the type of the nodes. *)
Record mem := Mem { ts : gmap loc node_ts; td : gmap loc node_td }.
Definition on_ts {A} : K (gmap loc node_ts) A → K mem A := zoom ts (λ x m, Mem x (td m)).
Definition on_td {A} : K (gmap loc node_td) A → K mem A := zoom td (λ x m, Mem (ts m) x).

Definition main_array : list Z := [3; 1; 6; 5; 9].
Definition main memcpy_node_t : K mem (list (list (list Z))) :=
  s ← on_ts (test_list single main_array);
  d ← on_td (test_list double main_array);
  sc ← on_ts (test_list (singlecircular memcpy_node_t) main_array);
  dc ← on_td (test_list double_circular main_array);
  mret [s; d; sc; dc].
