(* ===== verification/LinkListSpec.v ===== *)
(** * The linked lists of src/c/linklist/linklist.c: theorems

    What the four lists hold as a sequence of addresses and values; that their
    routines keep it, insert in order and reverse, and leave the rest of memory alone;
    the program that tests them. *)

From stdpp Require Import base tactics numbers list gmap sorting.
From S2P Require Import Prelude KMonad LinkList.
From Stdlib Require Import ZArith Lia.

Open Scope Z_scope.

(** ** Sequences of nodes *)

Abbreviation nodes := (list (loc * Z)).
Abbreviation locs := (fmap (M:=list) fst).
Abbreviation values := (fmap (M:=list) snd).

(** The address of the first and of the last node, or what is there instead. *)
Definition first (ns : nodes) (q : ptr) : ptr := match ns with [] => q | n :: _ => Some n.1 end.
Definition final (ns : nodes) (p : ptr) : ptr := match last ns with None => p | Some n => Some n.1 end.

Lemma first_app a b q : first (a ++ b) q = first a (first b q).
Proof. by destruct a. Qed.
Lemma final_app a b p : final (a ++ b) p = final b (final a p).
Proof. unfold final. rewrite last_app. by destruct (last b). Qed.
Lemma final_cons n a p : final (n :: a) p = final a (Some n.1).
Proof. apply (final_app [n]). Qed.
Lemma first_reverse a q : first (reverse a) q = final a q.
Proof. unfold final. rewrite <-head_reverse. by destruct (reverse a). Qed.
Lemma final_reverse a p : final (reverse a) p = first a p.
Proof. by rewrite <-first_reverse, reverse_involutive. Qed.

Lemma final_in s p l : s ≠ [] → final s p = Some l → l ∈ locs s.
Proof.
  intros Hs. destruct (exists_last Hs) as (s' & n & ->). rewrite final_app, fmap_app. intros [= <-].
  apply elem_of_app. right. by left.
Qed.

Lemma nodup_new new v (a b : nodes) :
  NoDup (locs (a ++ b)) → new ∉ locs (a ++ b) → NoDup (locs (a ++ (new, v) :: b)).
Proof.
  rewrite !fmap_app. intros Hnd Hn. change (NoDup (locs a ++ new :: locs b)).
  rewrite <-Permutation_middle. by constructor.
Qed.

(** ** Inserting in order *)

Fixpoint insert_tail (v : Z) (l : list Z) : list Z :=
  match l with
  | [] => [v]
  | x :: l => if x <? v then x :: insert_tail v l else v :: x :: l
  end.
Definition insert_sorted (v : Z) (l : list Z) : list Z :=
  match l with
  | [] => [v]
  | x :: l => if v <? x then v :: x :: l else x :: insert_tail v l
  end.

Lemma insert_tail_perm v l : insert_tail v l ≡ₚ v :: l.
Proof. induction l as [|x l IH]; cbn; [done|]. case_match; [|done]. by rewrite IH, Permutation_swap. Qed.

Lemma insert_sorted_perm v l : insert_sorted v l ≡ₚ v :: l.
Proof. destruct l as [|x l]; [done|]. cbn. case_match; [done|]. by rewrite insert_tail_perm, Permutation_swap. Qed.

Lemma insert_tail_sorted v l : StronglySorted Z.le l → StronglySorted Z.le (insert_tail v l).
Proof.
  induction 1 as [|x l Hl IH Hx]; cbn; [by repeat constructor|]. case_match; zbool.
  - constructor; [done|]. rewrite insert_tail_perm. constructor; [lia|done].
  - constructor; [by constructor|]. constructor; [done|]. eapply Forall_impl; [exact Hx|]. cbn. lia.
Qed.

Lemma insert_sorted_sorted v l : StronglySorted Z.le l → StronglySorted Z.le (insert_sorted v l).
Proof.
  intros Hl. destruct l as [|x l]; [by repeat constructor|]. cbn. inversion Hl as [|? ? Hl' Hx]; subst.
  case_match; zbool.
  - constructor; [done|]. constructor; [lia|]. eapply Forall_impl; [exact Hx|]. cbn. lia.
  - constructor; [by apply insert_tail_sorted|]. rewrite insert_tail_perm. constructor; [lia|done].
Qed.

(** Sorting by insertion. *)
Definition sorted (l : list Z) : list Z := foldl (flip insert_sorted) [] l.

(** ** Memory *)

(** Nothing but the nodes at [ls] differs, and those of them that are not in [old]
    are new. *)
Definition changed_at {N} (old ls : list loc) (h h' : gmap loc N) : Prop :=
  (∀ l, l ∉ ls → h' !! l = h !! l) ∧ (∀ l, l ∈ ls → l ∈ old ∨ h !! l = None).

Section memory.
Context {N : Type}.
Implicit Types h : gmap loc N.
Local Abbreviation C := (quiet (gmap loc N)).

Lemma wp_malloc (n : N) h (Q : loc → gmap loc N → Prop) :
  (∀ l, h !! l = None → Q l (<[l := n]> h)) → wp C (malloc n) Q h.
Proof.
  intros HQ. unfold malloc. wp_step. apply wp_call. intros r [_ Hr]. cbn in Hr.
  rewrite (proj2 (Z.eqb_neq _ _)) by done. wp_go. apply HQ. apply not_elem_of_dom, is_fresh.
Qed.

Lemma wp_load l n h (Q : N → gmap loc N → Prop) :
  h !! l = Some n → Q n h → wp C (load (Some l)) Q h.
Proof.
  intros Hl HQ. unfold load. wp_step. apply (wp_deref _ _ _ _ _ l); [done|]. wp_go.
  by apply (wp_deref _ _ _ _ _ n).
Qed.

Lemma wp_update l f n h (Q : unit → gmap loc N → Prop) :
  h !! l = Some n → Q tt (<[l := f n]> h) → wp C (update (Some l) f) Q h.
Proof.
  intros Hl HQ. unfold update. wp_step. apply (wp_deref _ _ _ _ _ l); [done|].
  wp_step. apply (wp_load l n); [done|]. by wp_step.
Qed.

Lemma wp_loop_fuel h (Q : nat → gmap loc N → Prop) : Q (S (size h)) h → wp C loop_fuel Q h.
Proof. intros HQ. unfold loop_fuel. by wp_step. Qed.

(** Nodes at different addresses are at most as many as there are. *)
Lemma size_ge h (ls : list loc) : NoDup ls → (∀ l, l ∈ ls → is_Some (h !! l)) → (length ls <= size h)%nat.
Proof.
  intros Hnd Hin. rewrite <-size_dom, <-(size_list_to_set (C:=gset loc) ls) by done. apply subseteq_size.
  intros l. rewrite elem_of_list_to_set, elem_of_dom. apply Hin.
Qed.

Lemma changed_refl h ls : changed_at ls ls h h.
Proof. split; auto. Qed.

(** A new node in a sequence. *)
Lemma changed_new new v n (a b : nodes) h h' :
  h !! new = None → (∀ l, l ∉ locs (a ++ (new, v) :: b) → h' !! l = (<[new := n]> h : gmap loc N) !! l) →
  changed_at (locs (a ++ b)) (locs (a ++ (new, v) :: b)) h h'.
Proof.
  intros Hn Hl. split.
  - intros l Hin. rewrite Hl by done. apply lookup_insert_ne. intros ->. apply Hin. rewrite fmap_app. set_solver.
  - intros l Hin. rewrite fmap_app in Hin |- *. cbn in Hin. destruct (decide (l = new)) as [->|]; [by right|left]. set_solver.
Qed.
End memory.

(** ** Single links *)

(** The nodes [ns] one behind the other, and [q] behind them. *)
Fixpoint seg (h : gmap loc node_ts) (ns : nodes) (q : ptr) : Prop :=
  match ns with
  | [] => True
  | (l, v) :: ns => h !! l = Some (NodeS (first ns q) v) ∧ seg h ns q
  end.

Section single.
Implicit Types h : gmap loc node_ts.
Local Abbreviation C := (quiet (gmap loc node_ts)).

Lemma seg_app h a b q : seg h (a ++ b) q ↔ seg h a (first b q) ∧ seg h b q.
Proof.
  induction a as [|[l v] a IH]; cbn; [by split; [|intros [_ ?]]|]. rewrite IH, first_app. by rewrite (assoc (∧)).
Qed.

Lemma seg_frame h h' ns q : (∀ l, l ∈ locs ns → h' !! l = h !! l) → seg h ns q → seg h' ns q.
Proof.
  induction ns as [|[l v] ns IH]; intros Hf; [done|]. cbn. intros [Hl Hs]. split; [rewrite Hf; [done|by left]|].
  apply IH; [|done]. intros. apply Hf. by right.
Qed.

Lemma seg_insert h l n ns q : l ∉ locs ns → seg h ns q → seg (<[l := n]> h) ns q.
Proof. intros Hl. apply seg_frame. intros l' Hl'. apply lookup_insert_ne. by intros ->. Qed.

Lemma seg_dom h ns q l : seg h ns q → l ∈ locs ns → is_Some (h !! l).
Proof.
  induction ns as [|[l' v] ns IH]; cbn; intros Hs Hl; [by apply not_elem_of_nil in Hl|].
  destruct Hs as [Hl' Hs]. apply elem_of_cons in Hl as [->|Hl]; [by eexists|by apply IH].
Qed.

Lemma seg_size h ns q : NoDup (locs ns) → seg h ns q → (length ns <= size h)%nat.
Proof. intros Hnd Hs. rewrite <-(length_fmap fst). apply size_ge; [done|]. intros l. by apply (seg_dom _ _ q). Qed.

(** The loop of an insertion stops between two parts of the list, where the value
    belongs. *)
Lemma wp_find_single v stop b fuel p h (Q : ptr * ptr → gmap loc node_ts → Prop) :
  seg h b stop → (length b < fuel)%nat → (∀ l, stop = Some l → l ∉ locs b) →
  (∀ b1 b2, b = b1 ++ b2 → insert_tail v (values b) = values b1 ++ v :: values b2 →
    Q (final b1 p, first b2 stop) h) →
  wp C (find_single fuel stop v p (first b stop)) Q h.
Proof.
  revert fuel p Q. induction b as [|[l x] b IH]; intros fuel p Q Hs Hf Hstop HQ; (destruct fuel as [|fuel]; [cbn in Hf; lia|]).
  { cbn. rewrite decide_True by done. wp_step. by apply (HQ [] []). }
  destruct Hs as [Hl Hs]. cbn in Hf |- *. rewrite decide_False.
  2: { intros <-. apply (Hstop l); [done|by left]. }
  wp_step. apply (wp_load _ _ _ _ Hl). cbn. destruct (x <? v) eqn:Hx.
  - apply IH; [done|lia|intros l' Hl' Hin; apply (Hstop l' Hl'); by right|].
    intros b1 b2 -> Hb. specialize (HQ ((l, x) :: b1) b2). rewrite final_cons in HQ. apply HQ; [done|].
    cbn. by rewrite Hx, Hb.
  - wp_step. apply (HQ [] ((l, x) :: b)); [done|]. cbn. by rewrite Hx.
Qed.

(** Linking a new node behind the last of [a]. *)
Lemma wp_link new v a b p q h r (Q : ptr → gmap loc node_ts → Prop) :
  seg h (a ++ b) q → a ≠ [] → NoDup (locs (a ++ b)) → new ∉ locs (a ++ b) → h !! new = Some (NodeS None v) →
  (∀ h', seg h' (a ++ (new, v) :: b) q → (∀ l, l ∉ locs (a ++ (new, v) :: b) → h' !! l = h !! l) → Q r h') →
  wp C (update (final a p) (set_next (Some new));; update (Some new) (set_next (first b q));; mret r) Q h.
Proof.
  intros Hs Ha Hnd Hnew Hn HQ. destruct (exists_last Ha) as (a' & [l x] & ->). rewrite final_app. cbn [final last].
  rewrite <-app_assoc in *. apply seg_app in Hs as [Ha' Hs]. cbn in Hs. destruct Hs as [Hl Hb].
  rewrite fmap_app in Hnd, Hnew. cbn in Hnd, Hnew. apply NoDup_app in Hnd as (_ & Hal & Hlb).
  apply NoDup_cons in Hlb as [Hlb _].
  assert (new ≠ l) as Hnl by set_solver. assert (new ∉ locs a') as Hna by set_solver. assert (new ∉ locs b) as Hnb by set_solver.
  wp_step. apply (wp_update l _ _ _ _ Hl). wp_step. apply (wp_update new _ (NodeS None v)); [by rewrite lookup_insert_ne|]. wp_step.
  apply HQ.
  - apply seg_app. split; [|cbn; split_and!].
    + apply seg_insert; [done|]. apply seg_insert; [set_solver|done].
    + by rewrite lookup_insert_ne, lookup_insert_eq by done.
    + by rewrite lookup_insert_eq.
    + by apply seg_insert; [|apply seg_insert].
  - intros l' Hl'. rewrite !fmap_app in Hl'. cbn in Hl'.
    rewrite !lookup_insert_ne by set_solver. done.
Qed.
(** *** Lists that end *)

Definition is_single h (p : ptr) ns : Prop := NoDup (locs ns) ∧ p = first ns None ∧ seg h ns None.

(** A new node is put in front. *)
Lemma insert_front h v new ns :
  h !! new = None → NoDup (locs ns) → seg h ns None →
  is_single (<[new := NodeS (first ns None) v]> h) (Some new) ((new, v) :: ns).
Proof.
  intros Hn Hnd Hs. assert (new ∉ locs ns) as Hnew.
  { intros Hin. destruct (seg_dom _ _ _ _ Hs Hin) as [x Hx]. congruence. }
  split_and!; [by apply NoDup_cons|done|]. cbn. split; [apply lookup_insert_eq|by apply seg_insert].
Qed.

(** What the insertions end in: the same with the value where it belongs. *)
Definition inserted {N} (holds : gmap loc N → ptr → nodes → Prop) (v : Z) ns (h : gmap loc N) (p : ptr) (h' : gmap loc N) : Prop :=
  ∃ ns', holds h' p ns' ∧ values ns' = insert_sorted v (values ns) ∧ changed_at (locs ns) (locs ns') h h'.

Lemma insert_single_spec v p ns h :
  is_single h p ns → wp C (insert_single p v) (inserted is_single v ns h) h.
Proof.
  intros (Hnd & -> & Hs). unfold insert_single. wp_step. apply wp_malloc. intros new Hnew.
  destruct ns as [|[l x] ns]; cbn [first].
  { rewrite decide_True by done. wp_step. exists [(new, v)].
    split_and!; [by apply (insert_front h v new [])|done|by apply (changed_new new v (NodeS None v) [] [])]. }
  rewrite decide_False by done. pose proof Hs as [Hl Hs'].
  assert (new ∉ locs ((l, x) :: ns)) as Hni.
  { intros Hin. destruct (seg_dom _ _ _ _ Hs Hin). congruence. }
  assert (seg (<[new := NodeS None v]> h) ((l, x) :: ns) None) as Hs1 by (by apply seg_insert).
  wp_step. apply (wp_load _ _ _ _ (proj1 Hs1)). cbn [value next]. destruct (v <? x) eqn:Hx.
  - wp_step. apply (wp_update _ _ (NodeS None v)); [by rewrite lookup_insert_eq|]. wp_step.
    rewrite insert_insert_eq. exists ((new, v) :: (l, x) :: ns).
    split_and!; [by apply insert_front|cbn; by rewrite Hx|by eapply (changed_new new v _ [])].
  - wp_step. apply wp_loop_fuel. wp_step. apply NoDup_cons in Hnd as Hnd'. destruct Hnd' as [Hll Hnd'].
    apply wp_find_single; [apply Hs1| |done|].
    { apply le_n_S, (seg_size _ _ None); [done|apply Hs1]. }
    intros b1 b2 -> Hb. rewrite <-(final_cons (l, x) b1 None).
    change ((l, x) :: b1 ++ b2) with (((l, x) :: b1) ++ b2) in *.
    apply (wp_link new v ((l, x) :: b1) b2 None None); [done..|by rewrite lookup_insert_eq|].
    intros h' Hs2 Hc. exists (((l, x) :: b1) ++ (new, v) :: b2). split_and!.
    + split_and!; [by apply nodup_new|done..].
    + cbn. by rewrite Hx, Hb, fmap_app.
    + by apply (changed_new _ _ (NodeS None v)).
Qed.

Lemma wp_print_loop ns fuel h (Q : list Z → gmap loc node_ts → Prop) :
  seg h ns None → (length ns < fuel)%nat → Q (values ns) h → wp C (print_loop fuel (first ns None)) Q h.
Proof.
  revert fuel Q. induction ns as [|[l x] ns IH]; intros fuel Q Hs Hf HQ; (destruct fuel as [|fuel]; [cbn in Hf; lia|]).
  { cbn. rewrite decide_True by done. by wp_step. }
  destruct Hs as [Hl Hs]. cbn in Hf |- *. rewrite decide_False by done. wp_step. apply (wp_load _ _ _ _ Hl). wp_step.
  apply IH; [done|lia|]. by wp_step.
Qed.

Lemma print_single_spec p ns h (Q : list Z → gmap loc node_ts → Prop) :
  is_single h p ns → Q (values ns) h → wp C (print_single p) Q h.
Proof.
  intros (Hnd & -> & Hs) HQ. unfold print_single. wp_step. apply wp_loop_fuel.
  apply wp_print_loop; [done| |done]. by apply le_n_S, (seg_size _ _ None).
Qed.

(** What the reversals end in. *)
Definition turned {N} (holds : gmap loc N → ptr → nodes → Prop) ns (h : gmap loc N) (p : ptr) (h' : gmap loc N) : Prop :=
  holds h' p (reverse ns) ∧ changed_at (locs ns) (locs (reverse ns)) h h'.

Lemma changed_reverse {N} (ns : nodes) (h h' : gmap loc N) :
  (∀ l, l ∉ locs ns → h' !! l = h !! l) → changed_at (locs ns) (locs (reverse ns)) h h'.
Proof.
  intros Hl. split; intros l; rewrite fmap_reverse, elem_of_reverse; [apply Hl|by left].
Qed.

Lemma nodup_reverse (ns : nodes) : NoDup (locs ns) → NoDup (locs (reverse ns)).
Proof. by rewrite reverse_Permutation. Qed.

(** The nodes [a] are turned round, those of [b] are not yet. *)
Lemma wp_reverse_loop b : ∀ a fuel h0 h l v (Q : ptr * ptr → gmap loc node_ts → Prop),
  NoDup (locs (a ++ (l, v) :: b)) → seg h (reverse a) None → seg h ((l, v) :: b) None →
  (∀ l', l' ∉ locs (a ++ (l, v) :: b) → h !! l' = h0 !! l') → (length b < fuel)%nat →
  (∀ a' l' v' h', a ++ (l, v) :: b = a' ++ [(l', v')] → seg h' (reverse a') None → seg h' [(l', v')] None →
    (∀ l', l' ∉ locs (a ++ (l, v) :: b) → h' !! l' = h0 !! l') → Q (first (reverse a') None, Some l') h') →
  wp C (reverse_loop fuel (first (reverse a) None) (Some l) (first b None)) Q h.
Proof.
  induction b as [|[l2 v2] b IH]; intros a fuel h0 h l v Q Hnd Ha [Hl Hb] Hh Hf HQ;
    (destruct fuel as [|fuel]; [cbn in Hf; lia|]).
  { cbn. rewrite decide_True by done. wp_step. by apply (HQ a l v). }
  cbn. cbn in Hf. rewrite decide_False by done. wp_step. apply (wp_update _ _ _ _ _ Hl). wp_step.
  assert (l ∉ locs (reverse a) ∧ l ∉ locs ((l2, v2) :: b)) as [Hla Hlb].
  { rewrite fmap_app in Hnd. cbn in Hnd. apply NoDup_app in Hnd as (_ & Hal & Hnd). apply NoDup_cons in Hnd as [? _].
    split; [|done]. rewrite fmap_reverse, elem_of_reverse. intros Hin. apply (Hal l Hin). by left. }
  set (h1 := <[l := _]> h). assert (seg h1 ((l2, v2) :: b) None) as Hb1 by (by apply seg_insert).
  apply (wp_load _ _ _ _ (proj1 Hb1)). cbn.
  assert (a ++ (l, v) :: (l2, v2) :: b = (a ++ [(l, v)]) ++ (l2, v2) :: b) as Happ by (by rewrite <-app_assoc).
  rewrite Happ in *.
  replace (Some l) with (first (reverse (a ++ [(l, v)])) None) by (by rewrite reverse_app).
  apply (IH (a ++ [(l, v)]) fuel h0 h1 l2 v2); [done| |done| |lia|done].
  - rewrite reverse_app. cbn. split; [by apply (lookup_insert_eq h)|by apply seg_insert].
  - intros l' Hl'. unfold h1. rewrite lookup_insert_ne; [by apply Hh|].
    intros <-. apply Hl'. rewrite !fmap_app. cbn. set_solver.
Qed.

Lemma reverse_single_spec p ns h : is_single h p ns → wp C (reverse_single p) (turned is_single ns h) h.
Proof.
  intros (Hnd & -> & Hs). unfold reverse_single. destruct ns as [|[l v] ns]; cbn [first].
  { rewrite decide_True by done. wp_step. split; [done|by apply changed_refl]. }
  rewrite decide_False by done. wp_step. destruct Hs as [Hl Hs]. apply (wp_load _ _ _ _ Hl). cbn [next].
  destruct ns as [|[l2 v2] ns].
  { rewrite decide_True by done. wp_step. split; [done|by apply changed_refl]. }
  rewrite decide_False by done. wp_step. apply wp_loop_fuel. wp_step.
  apply (wp_reverse_loop ((l2, v2) :: ns) [] _ h h l v); [done..| |].
  { pose proof (seg_size h ((l, v) :: (l2, v2) :: ns) None Hnd ltac:(done)). cbn in *. lia. }
  intros a' l' v' h' E Ha' [Hl' _] Hh'. cbn in E. rewrite E in *.
  wp_step. apply (wp_update _ _ _ _ _ Hl'). wp_step.
  assert (l' ∉ locs (reverse a')) as Hal.
  { rewrite fmap_app in Hnd. apply NoDup_app in Hnd as (_ & Hal & _).
    rewrite fmap_reverse, elem_of_reverse. intros Hin. apply (Hal l' Hin). by left. }
  split.
  - split_and!; [by apply nodup_reverse|by rewrite reverse_app|]. rewrite reverse_app.
    split; [apply lookup_insert_eq|by apply seg_insert].
  - apply changed_reverse. intros l1 Hl1.
    rewrite lookup_insert_ne; [by apply Hh'|]. intros <-. apply Hl1. rewrite fmap_app. set_solver.
Qed.

(** *** Lists that go round *)

Definition is_circular h (p : ptr) ns : Prop := NoDup (locs ns) ∧ p = first ns None ∧ seg h ns (first ns None).

(** The copy of a [node_t] is that of a node. *)
Class CopiesNode (memcpy_node_t : node_ts → node_ts → node_ts) := copies_node d n : memcpy_node_t d n = n.

Lemma insert_singlecircular_spec memcpy_node_t `{!CopiesNode memcpy_node_t} v p ns h :
  is_circular h p ns → wp C (insert_singlecircular memcpy_node_t p v) (inserted is_circular v ns h) h.
Proof.
  intros (Hnd & -> & Hs). unfold insert_singlecircular. wp_step. apply wp_malloc. intros new Hnew.
  destruct ns as [|[l x] ns]; cbn [first].
  { rewrite decide_True by done. wp_step. apply (wp_update _ _ (NodeS None v)); [by rewrite lookup_insert_eq|].
    wp_step. rewrite insert_insert_eq. exists [(new, v)].
    split_and!; [|done|by apply (changed_new new v (NodeS (Some new) v) [] [])].
    split_and!; [by repeat constructor; apply not_elem_of_nil|done|]. cbn. by rewrite lookup_insert_eq. }
  rewrite decide_False by done. cbn [first] in Hs.
  assert (new ∉ locs ((l, x) :: ns)) as Hni.
  { intros Hin. destruct (seg_dom _ _ _ _ Hs Hin). congruence. }
  assert (seg (<[new := NodeS None v]> h) ((l, x) :: ns) (Some l)) as Hs1 by (by apply seg_insert).
  apply NoDup_cons in Hnd as Hnd'. destruct Hnd' as [Hll Hnd'].
  wp_step. apply (wp_load _ _ _ _ (proj1 Hs1)). cbn [value next]. destruct (v <? x) eqn:Hx.
  - destruct Hs as [Hl Hs]. assert (new ≠ l) as Hnl by (intros ->; apply Hni; by left).
    wp_step. apply (wp_update _ _ (NodeS None v)); [by rewrite lookup_insert_eq|]. rewrite insert_insert_eq, copies_node.
    wp_step. apply (wp_update _ _ (NodeS (first ns (Some l)) x)); [by rewrite lookup_insert_ne|].
    wp_step. eapply wp_update; [apply lookup_insert_eq|]. rewrite insert_insert_eq. wp_step.
    exists ((l, v) :: (new, x) :: ns). split_and!; [|cbn; by rewrite Hx|].
    + split_and!; [by apply (nodup_new new x [(l, v)] ns)|done|]. cbn. split_and!.
      * by rewrite lookup_insert_eq.
      * by rewrite lookup_insert_ne, lookup_insert_eq.
      * apply seg_insert; [done|]. apply seg_insert; [|done]. intros Hin. apply Hni. by right.
    + apply (changed_new new x (NodeS (first ns (Some l)) x) [(l, v)] ns); [done|]. intros l' Hl'.
      rewrite lookup_insert_ne; [done|]. intros <-. apply Hl'. by left.
  - wp_step. apply wp_loop_fuel. wp_step.
    apply wp_find_single; [apply Hs1| |by intros ? [= <-]|].
    { apply le_n_S, (seg_size _ _ (Some l)); [done|apply Hs1]. }
    intros b1 b2 -> Hb. rewrite <-(final_cons (l, x) b1 None).
    change ((l, x) :: b1 ++ b2) with (((l, x) :: b1) ++ b2) in *.
    apply (wp_link new v ((l, x) :: b1) b2 None (Some l)); [done..|by rewrite lookup_insert_eq|].
    intros h' Hs2 Hc. exists (((l, x) :: b1) ++ (new, v) :: b2). split_and!.
    + by split_and!; [apply nodup_new|..].
    + cbn. by rewrite Hx, Hb, fmap_app.
    + by apply (changed_new _ _ (NodeS None v)).
Qed.

Lemma wp_print_round ns l x q fuel h (Q : list Z → gmap loc node_ts → Prop) :
  seg h ((l, x) :: ns) q → (∀ l', q = Some l' → l' ∉ locs ns) → (length ns < fuel)%nat →
  Q (values ((l, x) :: ns)) h → wp C (print_round fuel q (Some l)) Q h.
Proof.
  revert l x fuel Q. induction ns as [|[l2 x2] ns IH]; intros l x fuel Q [Hl Hs] Hq Hf HQ;
    (destruct fuel as [|fuel]; [cbn in Hf; lia|]); cbn in Hf |- *; wp_step; apply (wp_load _ _ _ _ Hl); cbn.
  { rewrite decide_True by done. by wp_step. }
  rewrite decide_False by (intros <-; apply (Hq l2); [done|by left]).
  wp_step. apply (IH l2 x2); [exact Hs| |lia|by wp_step]. intros l' Hl' Hin. apply (Hq l' Hl'). by right.
Qed.

Lemma print_singlecircular_spec p ns h (Q : list Z → gmap loc node_ts → Prop) :
  is_circular h p ns → ns ≠ [] → Q (values ns) h → wp C (print_singlecircular p) Q h.
Proof.
  intros (Hnd & -> & Hs) Hne HQ. destruct ns as [|[l x] ns]; [done|]. apply NoDup_cons in Hnd as Hnd'.
  unfold print_singlecircular. wp_step. apply wp_loop_fuel.
  apply (wp_print_round ns l x); [done|intros ? [= <-]; by destruct Hnd'| |done].
  pose proof (seg_size h ((l, x) :: ns) (Some l) Hnd Hs). cbn in *. lia.
Qed.

Lemma seg_first h b l0 : seg h b (Some l0) → is_Some (h !! l0) →
  ∃ l n, first b (Some l0) = Some l ∧ h !! l = Some n ∧ ∀ n' b', b = n' :: b' → next n = first b' (Some l0).
Proof.
  intros Hs [n0 H0]. destruct b as [|[l v] b]; [by exists l0, n0|].
  exists l, (NodeS (first b (Some l0)) v). split_and!; [done|apply Hs|by intros ? ? [= <- <-]].
Qed.

(** The nodes [a] are turned round, those of [b] are not yet; [l0] is the first. *)
Lemma wp_reverse_round l0 b : ∀ a fuel h0 h nxt (Q : ptr * ptr → gmap loc node_ts → Prop),
  NoDup (locs (a ++ b)) → l0 ∉ locs (a ++ b) → seg h (reverse a) (Some l0) → seg h b (Some l0) →
  h !! l0 = h0 !! l0 → is_Some (h !! l0) →
  (∀ l', l' ∉ locs (a ++ b) → h !! l' = h0 !! l') → (length b < fuel)%nat →
  (∀ n b', b = n :: b' → nxt = first b' (Some l0)) →
  (∀ h', seg h' (reverse (a ++ b)) (Some l0) → (∀ l', l' ∉ locs (a ++ b) → h' !! l' = h0 !! l') →
    Q (first (reverse (a ++ b)) (Some l0), Some l0) h') →
  wp C (reverse_round fuel (Some l0) (first (reverse a) (Some l0)) (first b (Some l0)) nxt) Q h.
Proof.
  induction b as [|[l v] b IH]; intros a fuel h0 h nxt Q Hnd Hl0 Ha Hb H0 Hl0h Hh Hf Hn HQ;
    (destruct fuel as [|fuel]; [cbn in Hf; lia|]); cbn.
  { rewrite decide_True by done. wp_step. rewrite app_nil_r in *. by apply HQ. }
  destruct Hb as [Hl Hb]. cbn in Hf. rewrite (Hn _ _ eq_refl).
  rewrite fmap_app in Hnd. apply NoDup_app in Hnd as Hnd'. destruct Hnd' as (_ & Hal & Hnd').
  apply NoDup_cons in Hnd' as [Hlb _]. rewrite <-fmap_app in Hnd.
  assert (l ∉ locs (reverse a)) as Hla.
  { rewrite fmap_reverse, elem_of_reverse. intros Hin. apply (Hal l Hin). by left. }
  assert (l ≠ l0) as Hll0 by (intros ->; apply Hl0; rewrite fmap_app; set_solver).
  rewrite decide_False by congruence. wp_step. apply (wp_update _ _ _ _ _ Hl). wp_step.
  set (h1 := <[l := _]> h). assert (seg h1 b (Some l0)) as Hb1 by (by apply seg_insert).
  assert (h1 !! l0 = h !! l0) as H1 by (by apply lookup_insert_ne).
  destruct (seg_first h1 b l0) as (l2 & n & Hf2 & Hn2 & Hnext); [done|by rewrite H1|].
  rewrite Hf2. apply (wp_load _ _ _ _ Hn2). rewrite <-Hf2.
  assert (a ++ (l, v) :: b = (a ++ [(l, v)]) ++ b) as Happ by (by rewrite <-app_assoc). rewrite Happ in *.
  replace (Some l) with (first (reverse (a ++ [(l, v)])) (Some l0)) by (by rewrite reverse_app).
  apply (IH (a ++ [(l, v)]) fuel h0 h1); [done|done| |done|congruence|by rewrite H1| |lia|done|done].
  - rewrite reverse_app. cbn. split; [by apply (lookup_insert_eq h)|by apply seg_insert].
  - intros l' Hl'. unfold h1. rewrite lookup_insert_ne; [by apply Hh|].
    intros <-. apply Hl'. rewrite !fmap_app. set_solver.
Qed.

Lemma reverse_singlecircular_spec p ns h :
  is_circular h p ns → wp C (reverse_singlecircular p) (turned is_circular ns h) h.
Proof.
  intros (Hnd & -> & Hs). unfold reverse_singlecircular. destruct ns as [|[l v] ns]; cbn [first].
  { rewrite decide_True by done. wp_step. split; [done|by apply changed_refl]. }
  rewrite decide_False by done. wp_step. cbn in Hs. destruct Hs as [Hl Hs]. apply (wp_load _ _ _ _ Hl). cbn [next].
  apply NoDup_cons in Hnd as Hnd'. destruct Hnd' as [Hl0 Hnd'].
  destruct ns as [|[l2 v2] ns].
  { cbn. rewrite decide_True by done. wp_step. split; [done|by apply changed_refl]. }
  cbn [first]. rewrite decide_False by (intros [= ->]; apply Hl0; by left).
  wp_step. apply (wp_load _ _ _ _ (proj1 Hs)). wp_step. apply wp_loop_fuel. wp_step.
  apply (wp_reverse_round l ((l2, v2) :: ns) [] _ h h); [done|done|done|done|done|by eexists|done| |by intros ? ? [= <- <-]|].
  { pose proof (seg_size h ((l, v) :: (l2, v2) :: ns) (Some l) Hnd ltac:(done)). cbn in *. lia. }
  intros h' Hs' Hh'. cbn [app] in *. set (b := (l2, v2) :: ns) in *.
  assert (l ∉ locs (reverse b)) as Hlr by (by rewrite fmap_reverse, elem_of_reverse).
  wp_step. eapply wp_update; [by rewrite Hh'|]. wp_step. cbn [value set_next].
  set (q := first (reverse b) (Some l)) in *.
  assert (q = first (reverse ((l, v) :: b)) None) as Hq.
  { unfold q. by rewrite !first_reverse, final_cons. }
  split.
  - split_and!; [by apply nodup_reverse|done|]. rewrite <-Hq, reverse_cons. apply seg_app. split.
    + cbn [first fst]. by apply seg_insert.
    + cbn. by rewrite lookup_insert_eq.
  - apply changed_reverse. intros l' Hl'. apply not_elem_of_cons in Hl' as [??].
    rewrite lookup_insert_ne by done. by apply Hh'.
Qed.
End single.

(** ** Double links *)

(** The nodes [ns] one behind the other, [p] before and [q] behind them. *)
Fixpoint dseg (h : gmap loc node_td) (p : ptr) (ns : nodes) (q : ptr) : Prop :=
  match ns with
  | [] => True
  | (l, v) :: ns => h !! l = Some (NodeD (first ns q) p v) ∧ dseg h (Some l) ns q
  end.

Section double.
Implicit Types h : gmap loc node_td.
Local Abbreviation C := (quiet (gmap loc node_td)).

Lemma dseg_app h p a b q : dseg h p (a ++ b) q ↔ dseg h p a (first b q) ∧ dseg h (final a p) b q.
Proof.
  revert p. induction a as [|[l v] a IH]; intros p; cbn; [by split; [|intros [_ ?]]|].
  by rewrite IH, first_app, final_cons, (assoc (∧)).
Qed.

Lemma dseg_frame h h' p ns q : (∀ l, l ∈ locs ns → h' !! l = h !! l) → dseg h p ns q → dseg h' p ns q.
Proof.
  revert p. induction ns as [|[l v] ns IH]; intros p Hf; [done|]. cbn. intros [Hl Hs].
  split; [rewrite Hf; [done|by left]|]. apply IH; [|done]. intros. apply Hf. by right.
Qed.

Lemma dseg_insert h l n p ns q : l ∉ locs ns → dseg h p ns q → dseg (<[l := n]> h) p ns q.
Proof. intros Hl. apply dseg_frame. intros l' Hl'. apply lookup_insert_ne. by intros ->. Qed.

Lemma dseg_dom h p ns q l : dseg h p ns q → l ∈ locs ns → is_Some (h !! l).
Proof.
  revert p. induction ns as [|[l' v] ns IH]; cbn; intros p Hs Hl; [by apply not_elem_of_nil in Hl|].
  destruct Hs as [Hl' Hs]. apply elem_of_cons in Hl as [->|Hl]; [by eexists|by eapply IH].
Qed.

Lemma dseg_size h p ns q : NoDup (locs ns) → dseg h p ns q → (length ns <= size h)%nat.
Proof. intros Hnd Hs. rewrite <-(length_fmap fst). apply size_ge; [done|]. intros l. by apply (dseg_dom _ p _ q). Qed.

Lemma dseg_fresh h p ns q new : dseg h p ns q → h !! new = None → new ∉ locs ns.
Proof. intros Hs Hn Hin. destruct (dseg_dom _ _ _ _ _ Hs Hin). congruence. Qed.

(** A node of another predecessor. *)
Lemma dseg_set_prev h p p' l v ns q :
  l ∉ locs ns → dseg h p ((l, v) :: ns) q → dseg (<[l := NodeD (first ns q) p' v]> h) p' ((l, v) :: ns) q.
Proof. intros Hl [_ Hs]. cbn. split; [apply lookup_insert_eq|by apply dseg_insert]. Qed.

(** And of another successor. *)
Lemma dseg_set_next h p ns l v q q' :
  l ∉ locs ns → dseg h p (ns ++ [(l, v)]) q →
  dseg (<[l := NodeD q' (final ns p) v]> h) p (ns ++ [(l, v)]) q'.
Proof.
  intros Hl Hs. apply dseg_app in Hs as [Hs _]. apply dseg_app. split; [by apply dseg_insert|].
  cbn. split; [apply lookup_insert_eq|done].
Qed.

(** A new node behind [l] that both its neighbours know. *)
Lemma dseg_linked h h' p a l x b q new v :
  dseg h p (a ++ (l, x) :: b) q → NoDup (locs (a ++ (l, x) :: b)) → new ∉ locs (a ++ (l, x) :: b) →
  h' !! l = Some (NodeD (Some new) (final a p) x) → h' !! new = Some (NodeD (first b q) (Some l) v) →
  (∀ l2 v2 b', b = (l2, v2) :: b' → h' !! l2 = Some (NodeD (first b' q) (Some new) v2)) →
  (∀ l', l' ≠ l → l' ≠ new → first b None ≠ Some l' → h' !! l' = h !! l') →
  dseg h' p (a ++ (l, x) :: (new, v) :: b) q.
Proof.
  intros Hs Hnd Hnew Hl Hn Hb Hother. rewrite fmap_app in Hnd, Hnew. cbn in Hnd, Hnew.
  apply NoDup_app in Hnd as (_ & Hal & Hlb). apply NoDup_cons in Hlb as [Hlb Hnb].
  apply not_elem_of_app in Hnew as [Hna Hnew]. apply not_elem_of_cons in Hnew as [Hnl Hnewb].
  apply dseg_app in Hs as [Ha [_ Hs]]. apply dseg_app. split; [|cbn; split_and!; [done..|]].
  - eapply dseg_frame; [|exact Ha]. intros l' Hl'. apply Hother; [intros ->; apply (Hal l Hl'); by left|by intros ->|].
    intros Hf. apply (Hal l' Hl'). right. destruct b as [|[l2 v2] b]; [done|]. injection Hf as [= <-]. by left.
  - destruct b as [|[l2 v2] b]; [done|]. split; [by apply Hb|]. destruct Hs as [_ Hs].
    apply NoDup_cons in Hnb as [Hl2 _].
    eapply dseg_frame; [|exact Hs]. intros l' Hl'. apply Hother; [intros ->; apply Hlb; by right|intros ->; apply Hnewb; by right|].
    intros [= ->]. done.
Qed.

(** *** Lists that end *)

Definition is_double h (p : ptr) ns : Prop := NoDup (locs ns) ∧ p = first ns None ∧ dseg h None ns None.

Lemma wp_find_double v b : ∀ a l x fuel p h (Q : ptr → gmap loc node_td → Prop),
  dseg h p ((l, x) :: b) None → (length b < fuel)%nat →
  (∀ b1 b2, b = b1 ++ b2 → insert_tail v (values b) = values b1 ++ v :: values b2 → Q (final (a ++ (l, x) :: b1) None) h) →
  wp C (find_double fuel v (Some l)) Q h.
Proof.
  induction b as [|[l2 x2] b IH]; intros a l x fuel p h Q [Hl Hs] Hf HQ; (destruct fuel as [|fuel]; [cbn in Hf; lia|]);
    cbn in Hf |- *; wp_step; apply (wp_load _ _ _ _ Hl); cbn.
  { rewrite decide_True by done. wp_step. specialize (HQ [] []). rewrite final_app in HQ. by apply HQ. }
  rewrite decide_False by done. wp_step. apply (wp_load _ _ _ _ (proj1 Hs)). cbn.
  destruct (x2 <? v) eqn:Hx.
  - apply (IH (a ++ [(l, x)]) l2 x2 fuel (Some l)); [done|lia|]. intros b1 b2 -> Hb.
    rewrite <-app_assoc. cbn. apply (HQ ((l2, x2) :: b1) b2); [done|]. cbn. by rewrite Hx, Hb.
  - wp_step. specialize (HQ [] ((l2, x2) :: b)). rewrite final_app in HQ. apply HQ; [done|]. cbn. by rewrite Hx.
Qed.

(** The last steps of the insertion. *)
Lemma wp_linkd new v a b (r : ptr) h :
  NoDup (locs (a ++ b)) → a ≠ [] → new ∉ locs (a ++ b) → dseg (<[new := NodeD None None v]> h) None (a ++ b) None →
  wp C (let q := final a None in
    update (Some new) (set_prev q);;
    m ← load q;
    update (Some new) (set_nextd (nextd m));;
    update q (set_nextd (Some new));;
    x ← load (Some new);
    (if decide (nextd x = None) then mret tt else update (nextd x) (set_prev (Some new)));;
    mret r)
  (λ (r' : ptr) h', r' = r ∧ dseg h' None (a ++ (new, v) :: b) None ∧
    ∀ l, l ∉ locs (a ++ (new, v) :: b) → h' !! l = (<[new := NodeD None None v]> h : gmap loc node_td) !! l)
  (<[new := NodeD None None v]> h).
Proof.
  set (h1 := <[new := _]> h). intros Hnd Ha Hni Hs. destruct (exists_last Ha) as (a' & [l x] & ->). rewrite final_app. cbn [final last].
  rewrite <-app_assoc in *. cbn [app] in *.
  assert (h1 !! l = Some (NodeD (first b None) (final a' None) x)) as Hl by (by apply dseg_app in Hs as [_ [Hl _]]).
  assert (l ≠ new) as Hln by (intros ->; apply Hni; rewrite fmap_app; set_solver).
  assert (h1 !! new = Some (NodeD None None v)) as Hn by apply lookup_insert_eq. clearbody h1.
  wp_step. eapply wp_update; [exact Hn|]. wp_step. apply (wp_load _ (NodeD (first b None) (final a' None) x)); [by rewrite lookup_insert_ne|].
  wp_step. eapply wp_update; [apply lookup_insert_eq|]. rewrite insert_insert_eq. cbn.
  wp_step. eapply wp_update; [by rewrite lookup_insert_ne|]. cbn.
  wp_step. eapply wp_load; [by rewrite lookup_insert_ne, lookup_insert_eq|]. cbn.
  assert (∀ l', l' ∉ locs (a' ++ (l, x) :: (new, v) :: b) → l' ≠ l ∧ l' ≠ new ∧ first b None ≠ Some l') as Hout.
  { intros l' Hl'. rewrite fmap_app in Hl'. destruct b as [|[l2 v2] b]; set_solver. }
  destruct b as [|[l2 v2] b]; cbn [first].
  - rewrite decide_True by done. wp_step. wp_step. wp_step. split_and!; [done| |].
    + apply (dseg_linked h1 _ None a' l x [] None new v); [done..|by rewrite lookup_insert_eq| |done|].
      * by rewrite lookup_insert_ne, lookup_insert_eq.
      * intros l' ? ? _. by rewrite !lookup_insert_ne.
    + intros l' (? & ? & _)%Hout. by rewrite !lookup_insert_ne.
  - assert (l2 ≠ l ∧ l2 ≠ new) as [Hl2l Hl2n].
    { rewrite fmap_app in Hnd, Hni. apply NoDup_app in Hnd as (_ & _ & Hnd). apply NoDup_cons in Hnd as [Hlb _].
      cbn in Hlb, Hni. set_solver. }
    assert (h1 !! l2 = Some (NodeD (first b None) (Some l) v2)) as Hl2 by (by apply dseg_app in Hs as [_ (_ & Hl2 & _)]).
    rewrite decide_False by done. wp_step. eapply wp_update; [by rewrite !lookup_insert_ne|]. wp_step. cbn.
    split_and!; [done| |].
    + apply (dseg_linked h1 _ None a' l x ((l2, v2) :: b) None new v); [done..| | | |].
      * by rewrite lookup_insert_ne, lookup_insert_eq.
      * by rewrite lookup_insert_ne, lookup_insert_ne, lookup_insert_eq.
      * intros ? ? ? [= <- <- <-]. by rewrite lookup_insert_eq.
      * intros l' ? ? Hf. cbn in Hf. by rewrite !lookup_insert_ne by congruence.
    + intros l' (? & ? & Hf)%Hout. cbn in Hf. by rewrite !lookup_insert_ne by congruence.
Qed.

Lemma insert_double_spec v p ns h :
  is_double h p ns → wp C (insert_double p v) (inserted is_double v ns h) h.
Proof.
  intros (Hnd & -> & Hs). unfold insert_double. wp_step. apply wp_malloc. intros new Hnew.
  pose proof (dseg_fresh _ _ _ _ _ Hs Hnew) as Hni.
  destruct ns as [|[l x] ns]; cbn [first].
  { rewrite decide_True by done. wp_step. exists [(new, v)].
    split_and!; [|done|by apply (changed_new new v (NodeD None None v) [] [])].
    split_and!; [by repeat constructor; apply not_elem_of_nil|done|]. cbn. by rewrite lookup_insert_eq. }
  rewrite decide_False by done.
  assert (dseg (<[new := NodeD None None v]> h) None ((l, x) :: ns) None) as Hs1 by (by apply dseg_insert).
  apply NoDup_cons in Hnd as Hnd'. destruct Hnd' as [Hll Hnd'].
  assert (new ≠ l) as Hnl by (intros ->; apply Hni; by left).
  wp_step. apply (wp_load _ _ _ _ (proj1 Hs1)). cbn [valued]. destruct (v <? x) eqn:Hx.
  - wp_step. eapply wp_update; [apply lookup_insert_eq|]. rewrite insert_insert_eq.
    wp_step. eapply wp_update; [rewrite lookup_insert_ne by done; apply (proj1 Hs)|]. wp_step.
    exists ((new, v) :: (l, x) :: ns). split_and!; [|cbn; by rewrite Hx|].
    + split_and!; [by apply NoDup_cons|done|]. split; [by rewrite lookup_insert_ne, lookup_insert_eq by done|].
      apply (dseg_set_prev _ None); [done|]. by apply dseg_insert.
    + apply (changed_new new v (NodeD (Some l) None v) [] ((l, x) :: ns)); [done|]. intros l' Hl'.
      rewrite lookup_insert_ne; [done|]. intros <-. apply Hl'. right. by left.
  - wp_step. apply wp_loop_fuel. wp_step.
    eapply (wp_find_double v ns [] l x); [exact Hs1| |].
    { pose proof (dseg_size _ None ((l, x) :: ns) None Hnd Hs1). cbn in *. lia. }
    intros b1 b2 -> Hb. change ((l, x) :: b1 ++ b2) with (((l, x) :: b1) ++ b2) in *. cbn [app].
    eapply wp_mono; [by apply (wp_linkd new v ((l, x) :: b1) b2 (Some l))|].
    intros r h' (-> & Hs2 & Hc). exists (((l, x) :: b1) ++ (new, v) :: b2). split_and!.
    + by split_and!; [apply nodup_new|..].
    + cbn. by rewrite Hx, Hb, fmap_app.
    + by apply (changed_new _ _ (NodeD None None v)).
Qed.

Lemma wp_printd_loop ns p fuel h (Q : list Z → gmap loc node_td → Prop) :
  dseg h p ns None → (length ns < fuel)%nat → Q (values ns) h → wp C (printd_loop fuel (first ns None)) Q h.
Proof.
  revert p fuel Q. induction ns as [|[l x] ns IH]; intros p fuel Q Hs Hf HQ; (destruct fuel as [|fuel]; [cbn in Hf; lia|]).
  { cbn. rewrite decide_True by done. by wp_step. }
  destruct Hs as [Hl Hs]. cbn in Hf |- *. rewrite decide_False by done. wp_step. apply (wp_load _ _ _ _ Hl). wp_step.
  apply (IH (Some l)); [done|lia|]. by wp_step.
Qed.

Lemma print_double_spec p ns h (Q : list Z → gmap loc node_td → Prop) :
  is_double h p ns → Q (values ns) h → wp C (print_double p) Q h.
Proof.
  intros (Hnd & -> & Hs) HQ. unfold print_double. wp_step. apply wp_loop_fuel.
  apply (wp_printd_loop _ None); [done| |done]. by apply le_n_S, (dseg_size _ None _ None).
Qed.

(** A node whose links were exchanged. *)
Lemma dseg_turn h p0 a l v q q' :
  l ∉ locs a → dseg h (Some l) (reverse a) p0 → h !! l = Some (NodeD q (final a p0) v) →
  dseg (<[l := NodeD (final a p0) q' v]> h) q' (reverse (a ++ [(l, v)])) p0.
Proof.
  intros Hl Ha Hn. rewrite reverse_snoc. cbn. rewrite first_reverse. split; [apply lookup_insert_eq|].
  apply dseg_insert; [|done]. by rewrite fmap_reverse, elem_of_reverse.
Qed.

(** The nodes [a] are turned round, those of [b] are not yet; [stop] is behind the
    last and [p0] before the first. *)
Lemma wp_reversed_loop stop p0 b : ∀ a fuel h0 h l v (Q : ptr * ptr → gmap loc node_td → Prop),
  NoDup (locs (a ++ (l, v) :: b)) → (∀ l', stop = Some l' → l' ∉ locs b) →
  dseg h (Some l) (reverse a) p0 → dseg h (final a p0) ((l, v) :: b) stop →
  (∀ l', l' ∉ locs (a ++ (l, v) :: b) → h !! l' = h0 !! l') → (length b < fuel)%nat →
  (∀ a' l' v' h', a ++ (l, v) :: b = a' ++ [(l', v')] → dseg h' (Some l') (reverse a') p0 →
    h' !! l' = Some (NodeD stop (final a' p0) v') →
    (∀ l', l' ∉ locs (a ++ (l, v) :: b) → h' !! l' = h0 !! l') → Q (Some l', stop) h') →
  wp C (reversed_loop fuel stop (Some l) (first b stop)) Q h.
Proof.
  induction b as [|[l2 v2] b IH]; intros a fuel h0 h l v Q Hnd Hstop Ha [Hl Hb] Hh Hf HQ;
    (destruct fuel as [|fuel]; [cbn in Hf; lia|]); cbn.
  { rewrite decide_True by done. wp_step. by apply (HQ a l v). }
  cbn in Hf. rewrite decide_False by (intros <-; apply (Hstop l2); [done|by left]).
  wp_step. apply (wp_load _ _ _ _ Hl). wp_step. apply (wp_update _ _ _ _ _ Hl).
  wp_step. eapply wp_update; [apply lookup_insert_eq|]. rewrite insert_insert_eq. cbn. wp_step.
  assert (l ∉ locs a ∧ l ∉ locs ((l2, v2) :: b)) as [Hla Hlb].
  { rewrite fmap_app in Hnd. cbn in Hnd. apply NoDup_app in Hnd as (_ & Hal & Hnd). apply NoDup_cons in Hnd as [? _].
    split; [|done]. intros Hin. apply (Hal l Hin). by left. }
  pose proof (dseg_turn h p0 a l v _ (Some l2) Hla Ha Hl) as Ha1.
  set (h1 := <[l := _]> h) in *. assert (dseg h1 (Some l) ((l2, v2) :: b) stop) as Hb1 by (by apply dseg_insert).
  apply (wp_load _ _ _ _ (proj1 Hb1)). cbn.
  assert (a ++ (l, v) :: (l2, v2) :: b = (a ++ [(l, v)]) ++ (l2, v2) :: b) as Happ by (by rewrite <-app_assoc).
  rewrite Happ in *. apply (IH (a ++ [(l, v)]) fuel h0 h1 l2 v2); [done| |done| | |lia|done].
  - intros l' Hl' Hin. apply (Hstop l' Hl'). by right.
  - by rewrite final_app.
  - intros l' Hl'. unfold h1. rewrite lookup_insert_ne; [by apply Hh|].
    intros <-. apply Hl'. rewrite !fmap_app. cbn. set_solver.
Qed.

(** The last steps of both reversals. *)
Lemma wp_turn_last h0 h p0 stop a l v ns (r : ptr) :
  NoDup (locs ns) → ns = a ++ [(l, v)] → dseg h (Some l) (reverse a) p0 → h !! l = Some (NodeD stop (final a p0) v) →
  (∀ l', l' ∉ locs ns → h !! l' = h0 !! l') →
  wp C (m ← load (Some l); update (Some l) (set_nextd (prev m));; update (Some l) (set_prev stop);; mret (Some l))
    (λ p' h', p' = first (reverse ns) None ∧ dseg h' stop (reverse ns) p0 ∧ changed_at (locs ns) (locs (reverse ns)) h0 h') h.
Proof.
  intros Hnd -> Ha Hl Hh. wp_step. apply (wp_load _ _ _ _ Hl). wp_step. apply (wp_update _ _ _ _ _ Hl).
  wp_step. eapply wp_update; [apply lookup_insert_eq|]. rewrite insert_insert_eq. wp_step. cbn.
  assert (l ∉ locs a) as Hla.
  { rewrite fmap_app in Hnd. apply NoDup_app in Hnd as (_ & Hal & _). intros Hin. apply (Hal l Hin). by left. }
  split_and!; [by rewrite reverse_app|by eapply dseg_turn|]. apply changed_reverse. intros l' Hl'.
  rewrite lookup_insert_ne; [by apply Hh|]. intros <-. apply Hl'. rewrite fmap_app. set_solver.
Qed.

Lemma reverse_double_spec p ns h : is_double h p ns → wp C (reverse_double p) (turned is_double ns h) h.
Proof.
  intros (Hnd & -> & Hs). unfold reverse_double. destruct ns as [|[l v] ns]; cbn [first].
  { rewrite decide_True by done. wp_step. split; [done|by apply changed_refl]. }
  rewrite decide_False by done. wp_step. pose proof Hs as [Hl Hs']. apply (wp_load _ _ _ _ Hl). cbn [nextd].
  destruct ns as [|[l2 v2] ns].
  { cbn. rewrite decide_True by done. wp_step. split; [done|by apply changed_refl]. }
  rewrite decide_False by done. wp_step. apply wp_loop_fuel. wp_step.
  apply (wp_reversed_loop None None ((l2, v2) :: ns) [] _ h h l v); [done..| |].
  { pose proof (dseg_size _ _ _ _ Hnd Hs). cbn in *. lia. }
  intros a' l' v' h' E Ha' Hl' Hh'. cbn [app] in *.
  eapply wp_mono; [by apply (wp_turn_last h h' None None a' l' v' ((l, v) :: (l2, v2) :: ns) None)|].
  intros p' h2 (-> & Hs2 & Hc). split; [|done]. by split_and!; [apply nodup_reverse|..].
Qed.

(** *** Lists that go round *)

Definition is_round h (p : ptr) ns : Prop :=
  NoDup (locs ns) ∧ p = first ns None ∧ dseg h (final ns None) ns (first ns None).

Lemma reverse_double_circular_spec p ns h :
  is_round h p ns → wp C (reverse_double_circular p) (turned is_round ns h) h.
Proof.
  intros (Hnd & -> & Hs). unfold reverse_double_circular. destruct ns as [|[l v] ns]; cbn [first].
  { rewrite decide_True by done. wp_step. split; [done|by apply changed_refl]. }
  rewrite decide_False by done. wp_step. pose proof Hs as [Hl Hs']. apply (wp_load _ _ _ _ Hl). cbn [nextd fst].
  apply NoDup_cons in Hnd as Hnd'. destruct Hnd' as [Hll _].
  destruct ns as [|[l2 v2] ns].
  { cbn. rewrite decide_True by done. wp_step. split; [done|by apply changed_refl]. }
  cbn [first fst]. rewrite decide_False by (intros [= ->]; apply Hll; by left). wp_step. apply wp_loop_fuel. wp_step.
  set (p0 := final ((l, v) :: (l2, v2) :: ns) None) in *.
  apply (wp_reversed_loop (Some l) p0 ((l2, v2) :: ns) [] _ h h l v); [done|by intros ? [= <-]|done|done|done| |].
  { pose proof (dseg_size _ _ _ _ Hnd Hs). cbn in *. lia. }
  intros a' l' v' h' E Ha' Hl' Hh'. cbn [app] in *.
  eapply wp_mono; [by apply (wp_turn_last h h' p0 (Some l) a' l' v' ((l, v) :: (l2, v2) :: ns) None)|].
  intros p' h2 (-> & Hs2 & Hc). split; [|done]. split_and!; [by apply nodup_reverse|done|].
  by rewrite final_reverse, first_reverse.
Qed.

(** Where a list that goes round starts does not matter. *)
Lemma round_rotate h a b :
  dseg h (final (a ++ b) None) (a ++ b) (first (a ++ b) None) →
  dseg h (final (b ++ a) None) (b ++ a) (first (b ++ a) None).
Proof.
  destruct a as [|na a]; [by rewrite app_nil_r|]. destruct b as [|nb b]; [by rewrite app_nil_r|].
  rewrite !dseg_app, !final_app, !first_app, !final_cons. cbn [first]. tauto.
Qed.

(** The same nodes between other neighbours. *)
Lemma dseg_relink h h' p q p' q' s :
  dseg h p s q → NoDup (locs s) →
  (∀ l n, l ∈ locs s → h !! l = Some n →
    h' !! l = Some (NodeD (if decide (Some l = final s None) then q' else nextd n)
      (if decide (Some l = first s None) then p' else prev n) (valued n))) →
  dseg h' p' s q'.
Proof.
  revert p p'. induction s as [|[l v] s IH]; intros p p' Hs Hnd Hh; [done|]. destruct Hs as [Hl Hs].
  apply NoDup_cons in Hnd as [Hls Hnd]. cbn. split.
  - rewrite (Hh l _ ltac:(by left) Hl), final_cons. cbn. rewrite (decide_True (P := Some l = Some l)) by done.
    destruct s as [|[l2 v2] s]; [by rewrite decide_True|].
    rewrite decide_False; [done|]. intros Hf. apply Hls. change (l ∈ locs ((l2, v2) :: s)). by apply (final_in _ (Some l)).
  - apply (IH (Some l)); [done..|]. intros l' n Hl' Hn. rewrite (Hh l' n ltac:(by right) Hn).
    rewrite (decide_False (P := Some l' = first ((l, v) :: s) None)) by (cbn; intros [= ->]; by apply Hls).
    destruct s as [|[l2 v2] s]; [by apply not_elem_of_nil in Hl'|]. rewrite !final_cons.
    do 2 f_equal. cbn [first fst]. destruct (decide (Some l' = Some l2)) as [[= ->]|]; [|done].
    destruct Hs as [Hl2 _]. rewrite Hl2 in Hn. by injection Hn as <-.
Qed.

(** A new node between the last and the first. *)
Lemma round_linked h h' r new v :
  dseg h (final r None) r (first r None) → NoDup (locs r) → new ∉ locs r → r ≠ [] →
  h' !! new = Some (NodeD (first r None) (final r None) v) →
  (∀ l n, l ≠ new → h !! l = Some n →
    h' !! l = Some (NodeD (if decide (Some l = final r None) then Some new else nextd n)
      (if decide (Some l = first r None) then Some new else prev n) (valued n))) →
  dseg h' (Some new) (r ++ [(new, v)]) (first r None).
Proof.
  intros Hs Hnd Hnew Hr Hn Hh. apply dseg_app. split; [|split; [|done]].
  - apply (dseg_relink h h' _ _ _ _ r Hs Hnd). intros l n Hl Hln. apply Hh; [|done]. by intros ->.
  - rewrite Hn. cbn. do 2 f_equal. destruct (exists_last Hr) as (r' & n & ->). by rewrite !final_app.
Qed.

Lemma wp_find_round v l0 b fuel p h (Q : ptr → gmap loc node_td → Prop) :
  dseg h p b (Some l0) → (length b < fuel)%nat → l0 ∉ locs b →
  (∀ b1 b2, b = b1 ++ b2 → insert_tail v (values b) = values b1 ++ v :: values b2 → Q (first b2 (Some l0)) h) →
  wp C (find_round fuel (Some l0) v (first b (Some l0))) Q h.
Proof.
  revert fuel p Q. induction b as [|[l x] b IH]; intros fuel p Q Hs Hf Hl0 HQ; (destruct fuel as [|fuel]; [cbn in Hf; lia|]).
  { cbn. rewrite decide_True by done. wp_step. by apply (HQ [] []). }
  destruct Hs as [Hl Hs]. cbn in Hf |- *. rewrite decide_False by (intros [= ->]; apply Hl0; by left).
  wp_step. apply (wp_load _ _ _ _ Hl). cbn. destruct (x <? v) eqn:Hx.
  - apply (IH _ (Some l)); [done|lia|intros Hin; apply Hl0; by right|]. intros b1 b2 -> Hb.
    apply (HQ ((l, x) :: b1) b2); [done|]. cbn. by rewrite Hx, Hb.
  - wp_step. apply (HQ [] ((l, x) :: b)); [done|]. cbn. by rewrite Hx.
Qed.

(** The ends of a list that goes round. *)
Lemma round_ends h r :
  dseg h (final r None) r (first r None) → r ≠ [] →
  ∃ lq lp nq np, first r None = Some lq ∧ final r None = Some lp ∧ lq ∈ locs r ∧ lp ∈ locs r ∧
    h !! lq = Some nq ∧ h !! lp = Some np ∧ prev nq = Some lp ∧ nextd np = Some lq.
Proof.
  intros Hs Hr. destruct (exists_last Hr) as (r' & [lp x] & E).
  assert (final r None = Some lp) as Hf by (by rewrite E, final_app). rewrite Hf in Hs |- *.
  destruct r as [|[lq y] r]; [done|]. cbn [first] in *. exists lq, lp.
  assert (h !! lq = Some (NodeD (first r (Some lq)) (Some lp) y)) as Hq by apply Hs.
  rewrite E in Hs. apply dseg_app in Hs as [_ [Hp _]]. cbn in Hp.
  do 2 eexists. split_and!; [done|done|by left| |exact Hq|exact Hp|done|done].
  by apply (final_in _ None).
Qed.

(** The links of a new node, set in either order. *)
Lemma round_new h0 h h' lq lp new v r :
  h = <[new := NodeD None None v]> h0 → h0 !! new = None →
  NoDup (locs r) → r ≠ [] → dseg h0 (final r None) r (first r None) →
  first r None = Some lq → final r None = Some lp →
  h' !! new = Some (NodeD (Some lq) (Some lp) v) →
  (∀ l n, l ≠ new → h0 !! l = Some n →
    h' !! l = Some (NodeD (if decide (l = lp) then Some new else nextd n) (if decide (l = lq) then Some new else prev n) (valued n))) →
  (∀ l, l ≠ new → h0 !! l = None → h' !! l = None) →
  dseg h' (Some new) (r ++ [(new, v)]) (Some lq) ∧
    ∀ l, l ∉ locs (r ++ [(new, v)]) → h' !! l = h !! l.
Proof.
  intros -> Hn Hnd Hr Hs Hq Hp Hnew Hh Hnone.
  assert (lq ∈ locs r ∧ lp ∈ locs r) as [Hlq Hlp].
  { split; [|by apply (final_in _ None)]. destruct r as [|[l x] r]; [done|]. injection Hq as ->. by left. }
  split.
  - rewrite <-Hq. apply (round_linked h0); [done|done|by apply (dseg_fresh h0 (final r None) r (first r None))|done|congruence|].
    intros l n Hl Hln. rewrite (Hh l n Hl Hln), Hq, Hp. do 2 f_equal; apply decide_ext; naive_solver.
  - intros l Hl. rewrite fmap_app in Hl. apply not_elem_of_app in Hl as [Hlr Hl]. apply not_elem_of_cons in Hl as [Hl _]. cbn in Hl.
    rewrite lookup_insert_ne by done. destruct (h0 !! l) as [n|] eqn:E; [|by apply Hnone].
    rewrite (Hh l n Hl E), !decide_False by (intros ->; done). by destruct n.
Qed.

(** From the code of both places. *)
Lemma wp_link_round new v r h (res : ptr) :
  h !! new = None → NoDup (locs r) → r ≠ [] → dseg h (final r None) r (first r None) →
  wp C (let q := first r None in
    m ← load q;
    update (prev m) (set_nextd (Some new));;
    update q (set_prev (Some new));;
    update (Some new) (set_nextd q);;
    update (Some new) (set_prev (prev m));;
    mret res)
  (λ (res' : ptr) h', res' = res ∧ dseg h' (Some new) (r ++ [(new, v)]) (first r None) ∧
    ∀ l, l ∉ locs (r ++ [(new, v)]) → h' !! l = (<[new := NodeD None None v]> h : gmap loc node_td) !! l)
  (<[new := NodeD None None v]> h).
Proof.
  intros Hn Hnd Hr Hs. destruct (round_ends h r Hs Hr) as (lq & lp & nq & np & Hq & Hp & Hlq & Hlp & Hhq & Hhp & Hprev & Hnext).
  set (h1 := <[new := _]> h). cbv zeta. rewrite Hq.
  assert (∀ l, l ≠ new → h1 !! l = h !! l) as H1 by (intros l ?; by apply lookup_insert_ne).
  assert (h1 !! new = Some (NodeD None None v)) as H1n by apply lookup_insert_eq.
  assert (new ∉ locs r) as Hnew by (by apply (dseg_fresh h (final r None) r (first r None))).
  assert (lq ≠ new ∧ lp ≠ new) as [Hqn Hpn] by (split; intros ->; done).
  wp_step. apply (wp_load _ nq); [by rewrite H1|]. rewrite Hprev.
  wp_step. apply (wp_update _ _ np); [by rewrite H1|].
  wp_step. apply (wp_update _ _ (if decide (lq = lp) then set_nextd (Some new) np else nq)).
  { case_decide as E; [rewrite E; apply lookup_insert_eq|]. by rewrite lookup_insert_ne, H1. }
  wp_step. apply (wp_update _ _ (NodeD None None v)); [by rewrite 2!lookup_insert_ne|].
  wp_step. eapply wp_update; [apply lookup_insert_eq|]. rewrite insert_insert_eq. wp_step. cbn. split; [done|].
  apply (round_new h h1 _ lq lp); [done..|apply lookup_insert_eq| |].
  - intros l n Hl Hln. rewrite lookup_insert_ne by done. destruct (decide (l = lq)) as [->|Hlq'].
    + rewrite lookup_insert_eq. case_decide; [subst; simplify_eq; by destruct nq|].
      simplify_eq. by destruct nq.
    + rewrite lookup_insert_ne by done. destruct (decide (l = lp)) as [->|].
      * rewrite lookup_insert_eq. simplify_eq. by destruct np.
      * rewrite lookup_insert_ne, H1 by done. simplify_eq. by destruct n.
  - intros l Hl Hln. by rewrite !lookup_insert_ne, H1 by congruence.
Qed.

(** From the code of the front, where [n] is the first node. *)
Lemma wp_link_front new v r l n h :
  h !! new = None → NoDup (locs r) → r ≠ [] → dseg h (final r None) r (first r None) →
  first r None = Some l → h !! l = Some n →
  wp C (update (Some new) (set_nextd (Some l));;
    update (Some new) (set_prev (prev n));;
    update (Some l) (set_prev (Some new));;
    update (prev n) (set_nextd (Some new));;
    mret (Some new))
  (λ (res' : ptr) h', res' = Some new ∧ dseg h' (Some new) (r ++ [(new, v)]) (Some l) ∧
    ∀ l, l ∉ locs (r ++ [(new, v)]) → h' !! l = (<[new := NodeD None None v]> h : gmap loc node_td) !! l)
  (<[new := NodeD None None v]> h).
Proof.
  intros Hn Hnd Hr Hs Hq0 Hl. destruct (round_ends h r Hs Hr) as (lq & lp & nq & np & Hq & Hp & Hlq & Hlp & Hhq & Hhp & Hprev & Hnext).
  rewrite Hq in Hq0. injection Hq0 as <-. rewrite Hhq in Hl. injection Hl as <-. rewrite Hprev.
  assert (new ∉ locs r) as Hnew by (by apply (dseg_fresh h (final r None) r (first r None))).
  assert (lq ≠ new ∧ lp ≠ new) as [Hqn Hpn] by (split; intros ->; done).
  wp_step. eapply wp_update; [apply lookup_insert_eq|]. rewrite insert_insert_eq.
  wp_step. eapply wp_update; [apply lookup_insert_eq|]. rewrite insert_insert_eq. cbn.
  wp_step. apply (wp_update _ _ nq); [by rewrite lookup_insert_ne|].
  wp_step. apply (wp_update _ _ (if decide (lp = lq) then set_prev (Some new) nq else np)).
  { case_decide as E; [rewrite E; apply lookup_insert_eq|]. by rewrite !lookup_insert_ne. }
  wp_step. split; [done|].
  apply (round_new h _ _ lq lp); [done..|rewrite !lookup_insert_ne by done; apply lookup_insert_eq| |].
  - intros l n Hl Hln. destruct (decide (l = lp)) as [->|Hlp'].
    + rewrite lookup_insert_eq. case_decide; subst; simplify_eq; first [by destruct nq|by destruct np].
    + rewrite lookup_insert_ne by done. destruct (decide (l = lq)) as [->|].
      * rewrite lookup_insert_eq. simplify_eq. by destruct nq.
      * rewrite !lookup_insert_ne by done. simplify_eq. by destruct n.
  - intros l Hl Hln. by rewrite !lookup_insert_ne by congruence.
Qed.

Lemma insert_double_circular_spec v p ns h :
  is_round h p ns → wp C (insert_double_circular p v) (inserted is_round v ns h) h.
Proof.
  intros (Hnd & -> & Hs). unfold insert_double_circular. wp_step. apply wp_malloc. intros new Hnew.
  pose proof (dseg_fresh _ _ _ _ _ Hs Hnew) as Hni.
  destruct ns as [|[l x] ns]; cbn [first].
  { rewrite decide_True by done. wp_step. eapply wp_update; [apply lookup_insert_eq|]. rewrite insert_insert_eq.
    wp_step. eapply wp_update; [apply lookup_insert_eq|]. rewrite insert_insert_eq. wp_step. exists [(new, v)].
    split_and!; [|done|by apply (changed_new new v (NodeD (Some new) (Some new) v) [] [])].
    split_and!; [by repeat constructor; apply not_elem_of_nil|done|]. cbn. by rewrite lookup_insert_eq. }
  rewrite decide_False by done. cbn [first fst] in Hs.
  set (ns1 := (l, x) :: ns) in *. set (h1 := <[new := _]> h).
  assert (dseg h1 (final ns1 None) ns1 (Some l)) as Hs1 by (by apply dseg_insert).
  apply NoDup_cons in Hnd as Hnd'. destruct Hnd' as [Hll Hnd'].
  wp_step. apply (wp_load _ _ _ _ (proj1 Hs1)). cbn [valued]. destruct (v <? x) eqn:Hx.
  - eapply wp_mono; [by apply (wp_link_front new v ns1 l _ h); [..|apply (proj1 Hs)]|].
    intros r h' (-> & Hs2 & Hc). exists ((new, v) :: ns1). split_and!; [|cbn; by rewrite Hx|].
    + split_and!; [by apply NoDup_cons|done|]. apply (round_rotate h' ns1 [(new, v)]). rewrite final_app. done.
    + apply (changed_new new v (NodeD None None v) [] ns1); [done|]. intros l' Hl'. apply Hc.
      rewrite fmap_app. cbn in Hl'. set_solver.
  - wp_step. apply wp_loop_fuel. wp_step.
    apply (wp_find_round v l ns _ (Some l)); [apply Hs1| |done|].
    { pose proof (dseg_size _ _ _ _ Hnd Hs1). cbn in *. lia. }
    intros b1 b2 -> Hb. unfold ns1 in *. change ((l, x) :: b1 ++ b2) with (((l, x) :: b1) ++ b2) in *.
    set (a := (l, x) :: b1) in *. set (r := b2 ++ a).
    assert (NoDup (locs r)) as Hndr by (unfold r; rewrite Permutation_app_comm; done).
    assert (r ≠ []) as Hr by (by unfold r; destruct b2).
    pose proof (round_rotate h a b2 Hs) as Hsr.
    assert (first r None = first b2 (Some l)) as Hq by (unfold r; by rewrite first_app).
    rewrite <-Hq. eapply wp_mono; [by apply (wp_link_round new v r h)|].
    intros res h' (-> & Hs2 & Hc). exists (a ++ (new, v) :: b2). split_and!.
    + split_and!; [by apply nodup_new|done|].
      pose proof (round_rotate h' b2 (a ++ [(new, v)])) as Hrot. rewrite <-!(assoc_L (++) a) in Hrot. apply Hrot.
      rewrite (assoc_L (++) b2 a). fold r. rewrite final_app, first_app. cbn.
      by destruct r.
    + cbn. by rewrite Hx, Hb, fmap_app.
    + apply (changed_new new v (NodeD None None v)); [done|]. intros l' Hl'. apply Hc. unfold r.
      rewrite !fmap_app in Hl' |- *. cbn in Hl' |- *. set_solver.
Qed.

Lemma wp_printd_round ns p l x q fuel h (Q : list Z → gmap loc node_td → Prop) :
  dseg h p ((l, x) :: ns) q → (∀ l', q = Some l' → l' ∉ locs ns) → (length ns < fuel)%nat →
  Q (values ((l, x) :: ns)) h → wp C (printd_round fuel q (Some l)) Q h.
Proof.
  revert p l x fuel Q. induction ns as [|[l2 x2] ns IH]; intros p l x fuel Q [Hl Hs] Hq Hf HQ;
    (destruct fuel as [|fuel]; [cbn in Hf; lia|]); cbn in Hf |- *; wp_step; apply (wp_load _ _ _ _ Hl); cbn.
  { rewrite decide_True by done. by wp_step. }
  rewrite decide_False by (intros <-; apply (Hq l2); [done|by left]).
  wp_step. apply (IH (Some l) l2 x2); [exact Hs| |lia|by wp_step]. intros l' Hl' Hin. apply (Hq l' Hl'). by right.
Qed.

Lemma print_double_circular_spec p ns h (Q : list Z → gmap loc node_td → Prop) :
  is_round h p ns → Q (values ns) h → wp C (print_double_circular p) Q h.
Proof.
  intros (Hnd & -> & Hs) HQ. unfold print_double_circular. destruct ns as [|[l x] ns].
  { cbn [first]. rewrite decide_True by done. by wp_step. }
  cbn [first]. rewrite decide_False by done. apply NoDup_cons in Hnd as Hnd'.
  wp_step. apply wp_loop_fuel. eapply (wp_printd_round ns _ l x); [exact Hs|intros ? [= <-]; by destruct Hnd'| |done].
  pose proof (dseg_size _ _ _ _ Hnd Hs). cbn in *. lia.
Qed.
End double.

(** ** The interface *)

(** What each of the four lists promises: [holds h p ns] says that [p] designates a
    list of the nodes [ns] in [h]. *)
Class SortedList (I : list_impl) := {
  holds : gmap loc (node I) → ptr → nodes → Prop;
  holds_nil : ∀ h, holds h None [];
  insert_law : ∀ v p ns h,
    holds h p ns → wp (quiet _) (insert_value I p v) (inserted holds v ns h) h;
  print_law : ∀ p ns h (Q : list Z → gmap loc (node I) → Prop),
    holds h p ns → ns ≠ [] → Q (values ns) h → wp (quiet _) (print_list I p) Q h;
  reverse_law : ∀ p ns h,
    holds h p ns → wp (quiet _) (reverse_list I p) (turned holds ns h) h
}.

#[export] Instance single_sorted : SortedList single := {
  holds := is_single; insert_law := insert_single_spec; reverse_law := reverse_single_spec;
  print_law p ns h Q H _ := print_single_spec p ns h Q H; holds_nil h := conj (NoDup_nil_2) (conj eq_refl I)
}.
#[export] Instance singlecircular_sorted memcpy_node_t `{!CopiesNode memcpy_node_t} : SortedList (singlecircular memcpy_node_t) := {
  holds := is_circular; insert_law := insert_singlecircular_spec memcpy_node_t; reverse_law := reverse_singlecircular_spec;
  print_law := print_singlecircular_spec; holds_nil h := conj (NoDup_nil_2) (conj eq_refl I)
}.
#[export] Instance double_sorted : SortedList double := {
  holds := is_double; insert_law := insert_double_spec; reverse_law := reverse_double_spec;
  print_law p ns h Q H _ := print_double_spec p ns h Q H; holds_nil h := conj (NoDup_nil_2) (conj eq_refl I)
}.
#[export] Instance double_circular_sorted : SortedList double_circular := {
  holds := is_round; insert_law := insert_double_circular_spec; reverse_law := reverse_double_circular_spec;
  print_law p ns h Q H _ := print_double_circular_spec p ns h Q H; holds_nil h := conj (NoDup_nil_2) (conj eq_refl I)
}.

(** What is printed while the numbers of [a] are put into a list of [l]. *)
Fixpoint prints (l a : list Z) : list (list Z) :=
  match a with [] => [] | v :: a => insert_sorted v l :: prints (insert_sorted v l) a end.

Section client.
Context (I : list_impl) `{!SortedList I}.

Lemma wp_fill_list a p ns h (Q : ptr * list (list Z) → gmap loc (node I) → Prop) :
  holds h p ns →
  (∀ p' ns' h', holds h' p' ns' → values ns' = foldl (flip insert_sorted) (values ns) a →
    Q (p', prints (values ns) a) h') →
  wp (quiet _) (fill I p a) Q h.
Proof.
  revert p ns h Q. induction a as [|v a IH]; intros p ns h Q Hh HQ; cbn.
  { wp_step. by apply (HQ p ns). }
  wp_step. eapply wp_mono; [by apply insert_law|]. intros p1 h1 (ns1 & Hh1 & Hv & _).
  assert (ns1 ≠ []) as Hne.
  { intros ->. pose proof (Permutation_length (insert_sorted_perm v (values ns))) as Hl. by rewrite <-Hv in Hl. }
  wp_step. apply (print_law _ ns1); [done..|]. wp_step. apply (IH _ ns1); [done|].
  intros p' ns' h' Hh' Hv'. wp_step. rewrite Hv in *. by apply (HQ p' ns').
Qed.

Lemma sorted_foldl a l : StronglySorted Z.le l →
  StronglySorted Z.le (foldl (flip insert_sorted) l a) ∧ foldl (flip insert_sorted) l a ≡ₚ l ++ a.
Proof.
  revert l. induction a as [|v a IH]; intros l Hl; cbn; [by rewrite app_nil_r|].
  destruct (IH (insert_sorted v l)) as [Hs Hp]; [by apply insert_sorted_sorted|]. split; [done|].
  rewrite Hp. rewrite insert_sorted_perm. apply Permutation_middle.
Qed.

(** What a test of the list prints, in whatever memory. *)
Lemma wp_test_list a h (Q : list (list Z) → gmap loc (node I) → Prop) :
  a ≠ [] → (∀ h', Q (prints [] a ++ [reverse (sorted a)]) h') → wp (quiet _) (test_list I a) Q h.
Proof.
  intros Ha HQ. unfold test_list. wp_step. apply (wp_fill_list a None []); [apply holds_nil|].
  intros p ns h1 Hh Hv. wp_step. eapply wp_mono; [by apply reverse_law|]. intros p2 h2 [Hh2 _].
  assert (ns ≠ []) as Hne.
  { intros ->. destruct (sorted_foldl a []) as [_ Hp]; [constructor|]. cbn in Hv. rewrite <-Hv in Hp.
    by apply Permutation_nil in Hp. }
  wp_step. apply (print_law _ (reverse ns)); [done| |].
  { intros E. apply Hne. by rewrite <-(reverse_involutive ns), E. }
  wp_step. rewrite fmap_reverse, Hv. apply HQ.
Qed.
End client.

(** C24: when there is memory for the node, inserting a value into the single list, the
    double list or the double list that goes round gives the list with the value
    where it belongs, in order again when it was: the new node is the only one there was
    not before, and nothing outside of the list is changed. *)
Theorem linklist_insert v p ns :
  (∀ h, is_single h p ns → wp (quiet _) (insert_single p v) (inserted is_single v ns h) h) ∧
  (∀ h, is_double h p ns → wp (quiet _) (insert_double p v) (inserted is_double v ns h) h) ∧
  (∀ h, is_round h p ns → wp (quiet _) (insert_double_circular p v) (inserted is_round v ns h) h) ∧
  (StronglySorted Z.le (values ns) → StronglySorted Z.le (insert_sorted v (values ns))) ∧
  insert_sorted v (values ns) ≡ₚ v :: values ns.
Proof.
  split_and!; intros.
  - by apply insert_single_spec.
  - by apply insert_double_spec.
  - by apply insert_double_circular_spec.
  - by apply insert_sorted_sorted.
  - apply insert_sorted_perm.
Qed.

(** Reversing any of the four lists gives its nodes in the opposite order, and
    changes nothing else. *)
Theorem linklist_reverse p ns :
  (∀ h, is_single h p ns → wp (quiet _) (reverse_single p) (turned is_single ns h) h) ∧
  (∀ h, is_circular h p ns → wp (quiet _) (reverse_singlecircular p) (turned is_circular ns h) h) ∧
  (∀ h, is_double h p ns → wp (quiet _) (reverse_double p) (turned is_double ns h) h) ∧
  (∀ h, is_round h p ns → wp (quiet _) (reverse_double_circular p) (turned is_round ns h) h).
Proof.
  split_and!; intros h Hh.
  - by apply reverse_single_spec.
  - by apply reverse_singlecircular_spec.
  - by apply reverse_double_spec.
  - by apply reverse_double_circular_spec.
Qed.

Lemma last_prints a l : a ≠ [] → last (prints l a) = Some (foldl (flip insert_sorted) l a).
Proof.
  revert l. induction a as [|v a IH]; intros l Ha; [done|]. cbn [prints foldl]. destruct a as [|w a]; [done|].
  rewrite last_cons, IH by done. done.
Qed.

(** With memory, the test of a list ends for every array: after each number it prints
    those so far in order, and in the end all of them the other way round. *)
Definition sorts (I : list_impl) (a : list Z) : Prop :=
  ∀ h, wp (quiet _) (test_list I a) (λ out _, ∃ s, out = prints [] a ++ [reverse s] ∧
    last (prints [] a) = Some s ∧ StronglySorted Z.le s ∧ s ≡ₚ a) h.

Lemma list_sorts I (L : SortedList I) a : a ≠ [] → sorts I a.
Proof.
  intros Ha h. apply wp_test_list; [done..|]. intros _. exists (sorted a).
  destruct (sorted_foldl a []) as [Hs Hp]; [constructor|]. split_and!; [done|by apply last_prints|done..].
Qed.

(** C25: with memory for every node, the tests of the single list, the double list and
    the double list that goes round end for every array that is not empty, whatever
    else is in memory, and print what sorting by insertion gives. *)
Theorem linklist_sorts a : a ≠ [] → sorts single a ∧ sorts double a ∧ sorts double_circular a.
Proof. intros Ha. split_and!; apply list_sorts; (done || apply _). Qed.

(** The same of the single list that goes round, were [node_t] the type of its
    nodes. *)
Lemma singlecircular_sorts memcpy_node_t `{!CopiesNode memcpy_node_t} a : a ≠ [] → sorts (singlecircular memcpy_node_t) a.
Proof. intros Ha. apply list_sorts; (done || apply _). Qed.

(** The program, were it so. *)
Example main_run :
  (r ← run quiet_oracle (main (λ _ n, n)) (Mem ∅ ∅); mret r.1) =
  Done (replicate 4 [[3]; [1; 3]; [1; 3; 6]; [1; 3; 5; 6]; [1; 3; 5; 6; 9]; [9; 6; 5; 3; 1]]).
Proof. vm_compute. reflexivity. Qed.

(** Without memory, and for a list that goes round and is empty, they fault. *)
Lemma insert_no_memory v p o t h :
  ans o (kmalloc 16) t = 0 → insert_single p v o (t, h) = Oops NullDeref.
Proof. intros Ho. unfold insert_single, malloc, call, mbind, K_bind. cbn. by rewrite Ho. Qed.

Lemma print_empty_round o t h : print_singlecircular None o (t, h) = Oops NullDeref.
Proof. done. Qed.

Lemma linklist_sorts_witness : sorts single [3; 1; 6; 5; 9] ∧
  sorts double [3; 1; 6; 5; 9] ∧ sorts double_circular [3; 1; 6; 5; 9].
Proof. apply linklist_sorts. done. Defined.

Lemma linklist_insert_witness :
  let h : gmap loc node_ts := ∅ in
  is_single h None [] ∧ wp (quiet _) (insert_single None 3) (inserted is_single 3 [] h) h.
Proof.
  intros h. assert (is_single h None []) as Hh by (split_and!; [constructor|done|done]).
  split; [done|]. by apply (linklist_insert 3 None []).
Defined.

Lemma linklist_reverse_witness :
  let h : gmap loc node_td := {[1%positive := NodeD (Some 2%positive) (Some 2%positive) 3; 2%positive := NodeD (Some 1%positive) (Some 1%positive) 7]} in
  is_round h (Some 1%positive) [(1%positive, 3); (2%positive, 7)] ∧
  wp (quiet _) (reverse_double_circular (Some 1%positive)) (turned is_round [(1%positive, 3); (2%positive, 7)] h) h.
Proof.
  intros h. assert (is_round h (Some 1%positive) [(1%positive, 3); (2%positive, 7)]) as Hh.
  { split_and!; [by apply (bool_decide_unpack _)|done|]. by split_and!. }
  split; [done|]. by apply (linklist_reverse (Some 1%positive) [(1%positive, 3); (2%positive, 7)]).
Defined.
