(* ===== verification/PollDev.v ===== *)
(** * poll_dev: a blocking buffer (src/lkd-todo/kernel-internals/poll_kernel.c)

    Writers leave bytes in a buffer of 22 for readers; both wait for their turn,
    or do not when they were opened not to. *)

From stdpp Require Import base tactics numbers list strings.
From S2P Require Import Prelude KMonad Registry Ring.
From Stdlib Require Import ZArith Lia.

Open Scope Z_scope.

(** ** Data *)

Definition N : Z := 23.

(** What becomes of a byte of the buffer: a read hands it over, or counts it although
    it does not reach the user, or the buffer is emptied. *)
Inductive fate := Handed (c : Z) | Faulted | Discarded.

(** [sema] says whether the running task has the semaphore. Two ghosts: the bytes
    of users that writes counted as [accepted], and those that are [gone]. *)
Record polldev := PollDev {
  rbuf : list Z;
  use_count : Z;
  ir : Z;
  iw : Z;
  ih : Z;
  sema : bool;
  accepted : list Z;
  gone : list fate
}.

Definition set_use_count (n : Z) (s : polldev) : polldev :=
  PollDev (rbuf s) n (ir s) (iw s) (ih s) (sema s) (accepted s) (gone s).
Definition set_ih (n : Z) (s : polldev) : polldev :=
  PollDev (rbuf s) (use_count s) (ir s) (iw s) n (sema s) (accepted s) (gone s).
Definition set_sema (b : bool) (s : polldev) : polldev :=
  PollDev (rbuf s) (use_count s) (ir s) (iw s) (ih s) b (accepted s) (gone s).

#[export] Instance poll_lock : HasLock polldev :=
  { lock_of := sema; set_lock := set_sema; lock_set b s := eq_refl }.

(** What the buffer holds. *)
Definition contents (s : polldev) : list Z := ring (take 23 (rbuf s)) (ir s) (iw s).

(** An open with no other file open empties the buffer. *)
Definition reset (s : polldev) : polldev :=
  PollDev (rbuf s) (use_count s) 0 0 (ih s) (sema s) (accepted s) (gone s ++ replicate (length (contents s)) Discarded).

(** [rbuf[iw++] = x], and back to the start at the end; the user meant [c]. *)
Definition put_byte (c x : Z) (s : polldev) : polldev :=
  PollDev (<[Z.to_nat (iw s) := x]> (rbuf s)) (use_count s) (ir s) (wrap N (iw s + 1)) (ih s) (sema s)
    (accepted s ++ [c]) (gone s).
(** [rbuf[ir++]], the same. *)
Definition take_byte (o : fate) (s : polldev) : polldev :=
  PollDev (rbuf s) (use_count s) (wrap N (ir s + 1)) (iw s) (ih s) (sema s) (accepted s) (gone s ++ [o]).

Section polldev.
Local Abbreviation M := (K polldev).

(** ** The operations *)

(** Nothing guards the two assignments to [ih]. *)
Definition is_buffer_full : M bool :=
  modify (λ s, set_ih (ir s - 1) s);;
  interfere;;
  modify (λ s, if ih s <? 0 then set_ih (ih s + N) s else s);;
  gets (λ s, iw s =? ih s).

Definition is_buffer_empty : M bool := gets (λ s, ir s =? iw s).

Definition device_poll : M Z :=
  e ← is_buffer_empty;
  f ← is_buffer_full;
  mret (Z.lor (if e : bool then 0 else Z.lor POLLIN POLLRDNORM) (if f : bool then 0 else Z.lor POLLOUT POLLWRNORM)).

(** A byte that does not reach the user is taken out all the same. *)
Fixpoint read_loop (n : nat) : M (list (option Z)) :=
  match n with
  | O => mret []
  | S n =>
      s ← get;
      if ir s =? iw s then mret [] else
      c ← deref OutOfBounds (lookupZ (rbuf s) (ir s));
      r ← call put_user;
      modify (take_byte (if r =? 0 then Handed c else Faulted));;
      l ← read_loop n;
      mret ((if r =? 0 then Some c else None) :: l)
  end.

(** A signal that ended the wait is pending. *)
Definition signal_after (w : Z) : M Z := if w =? 0 then call signal_pending else mret 1.

Definition device_read (f_flags len : Z) : M (Z * list (option Z)) :=
  e ← is_buffer_empty;
  if (e : bool) && c_bool (Z.land f_flags O_NONBLOCK) then mret (- EAGAIN, []) else
  w ← wait_event_interruptible (λ s, negb (ir s =? iw s));
  sig ← signal_after w;
  if c_bool sig then mret (- ERESTARTSYS, []) else
  ok ← lock_interruptible;
  if negb ok then mret (- ERESTARTSYS, []) else
  l ← read_loop (Z.to_nat len);
  unlock;;
  mret (lenZ l, l).

(** [wait_event_interruptible(qout, !is_buffer_full())], whose condition sets [ih]. *)
Definition wait_not_full : M Z :=
  interfere;;
  f ← is_buffer_full;
  if negb f then mret 0 else
  interfere;;
  r ← call wait_event;
  if negb (r =? 0) then mret (- ERESTARTSYS) else
  f ← is_buffer_full;
  if negb f then mret 0 else sleep_forever.

(** A byte that cannot be read is a zero. *)
Fixpoint write_loop (l : list Z) : M Z :=
  match l with
  | [] => mret 0
  | c :: l =>
      s ← get;
      if iw s =? ih s then mret 0 else
      r ← call get_user;
      _ ← deref OutOfBounds (lookupZ (rbuf s) (iw s));
      modify (put_byte c (if r =? 0 then c else 0));;
      i ← write_loop l;
      mret (i + 1)
  end.

Definition device_write (f_flags : Z) (user : list Z) : M Z :=
  f ← is_buffer_full;
  if (f : bool) && c_bool (Z.land f_flags O_NONBLOCK) then mret (- EAGAIN) else
  w ← wait_not_full;
  sig ← signal_after w;
  if c_bool sig then mret (- ERESTARTSYS) else
  ok ← lock_interruptible;
  if negb ok then mret (- ERESTARTSYS) else
  i ← write_loop user;
  unlock;;
  mret i.

Definition device_open : M Z :=
  n ← gets use_count;
  (if n =? 0 then modify reset else mret tt);;
  modify (λ s, set_use_count (s32 (use_count s + 1)) s);;
  mret 0.

Definition device_release : M Z :=
  modify (λ s, set_use_count (s32 (use_count s - 1)) s);;
  mret 0.
End polldev.

(** ** What the buffer holds *)

(** The index before, and how far [iw] may go before it meets [i]. *)
Definition before (i : Z) : Z := if i - 1 <? 0 then i - 1 + N else i - 1.
Definition dist (i : Z) (s : polldev) : Z := if i - iw s <? 0 then i - iw s + N else i - iw s.

(** [ih] may be older than [ir], but never so that it lets [iw] pass [ir]. *)
Definition buf_ok (s : polldev) : Prop :=
  length (rbuf s) = 24%nat ∧ 0 <= ir s < N ∧ 0 <= iw s < N ∧ 0 <= ih s < N ∧
  dist (ih s) s <= dist (before (ir s)) s.

Section stream.
(** [exact]: the kernel faults no user page. *)
Context (exact : bool).

(** What arrives for a byte, of the user or of the device. *)
Definition read_as (o : option Z) (c : Z) : Prop := o = Some c ∨ exact = false ∧ o = None.
Definition gone_as (o : fate) (c : Z) : Prop :=
  match o with Handed x => x = c | Faulted => exact = false | Discarded => True end.
Definition kept_as (x c : Z) : Prop := x = c ∨ exact = false ∧ x = 0.

(** What was accepted is what was taken out and what is there, but for faults. *)
Definition stream_ok (s : polldev) : Prop :=
  ∃ taken, Forall2 gone_as (gone s) taken ∧ Forall2 kept_as (taken ++ contents s) (accepted s).

Definition poll_inv (s : polldev) : Prop := buf_ok s ∧ stream_ok s ∧ sema s = false.
End stream.

Lemma read_as_exact l k : Forall2 (read_as true) l k → l = Some <$> k.
Proof. induction 1 as [|? ? ? ? [->|[? _]]]; [done| |done]. cbn. by f_equal. Qed.

Lemma kept_as_exact l k : Forall2 (kept_as true) l k → l = k.
Proof. induction 1 as [|? ? ? ? [->|[? _]]]; [done| |done]. by f_equal. Qed.

Ltac indices :=
  unfold dist, before in *; cbn in *; unfold wrap, N in *;
  repeat match goal with
  | |- context [if ?b then _ else _] => destruct b eqn:?
  | H : context [if ?b then _ else _] |- _ => destruct b eqn:?
  end; zbool; lia.

Lemma length_take23 s : buf_ok s → lenZ (take 23 (rbuf s)) = N.
Proof. intros (H & _). rewrite length_take, H. done. Qed.

Lemma length_contents s : buf_ok s → lenZ (contents s) = 22 - dist (before (ir s)) s.
Proof.
  intros Hs. pose proof (length_take23 s Hs) as Hl. destruct Hs as (_ & Hr & Hw & _). unfold contents.
  rewrite length_ring by (rewrite Hl; lia). rewrite Hl. indices.
Qed.

(** A byte taken out. *)
Lemma take_one c o s :
  buf_ok s → ir s ≠ iw s → lookupZ (rbuf s) (ir s) = Some c →
  contents s = c :: contents (take_byte o s) ∧ buf_ok (take_byte o s).
Proof.
  intros Hs Hne Hc. pose proof (length_take23 s Hs) as Hl. pose proof Hs as (Hlen & Hr & Hw & Hh & Hd). split.
  - unfold contents. rewrite (ring_pop _ _ _ 1) by (rewrite ?Hl; unfold ring_avail; indices).
    rewrite Hl. change (c :: ?x) with ([c] ++ x). f_equal.
    apply lookupZ_Some in Hc as [_ Hc]. unfold slice. change (Z.to_nat 1) with 1%nat.
    rewrite (drop_S _ c) by (rewrite lookup_take_lt by (unfold N in *; lia); done). done.
  - unfold buf_ok. cbn. split_and!; [done|clear Hd; indices..|].
    clear -Hd Hr Hw Hh Hne. indices.
Qed.

(** A byte put in. *)
Lemma put_one c x s :
  buf_ok s → iw s ≠ ih s →
  contents (put_byte c x s) = contents s ++ [x] ∧ buf_ok (put_byte c x s) ∧
  dist (ih s) (put_byte c x s) = dist (ih s) s - 1.
Proof.
  intros Hs Hne. pose proof (length_take23 s Hs) as Hl. pose proof Hs as (Hlen & Hr & Hw & Hh & Hd). split_and!.
  - unfold contents. cbn. rewrite take_insert_lt by (unfold N in *; lia).
    change (<[Z.to_nat (iw s) := x]> (take 23 (rbuf s))) with (store (iw s) [x] (take 23 (rbuf s))).
    rewrite <-Hl. apply (ring_push _ _ _ [x]); [by rewrite Hl..|]. rewrite Hl. unfold ring_room. cbn [length].
    clear -Hd Hr Hw Hh Hne. indices.
  - unfold buf_ok. cbn. split_and!; [by rewrite length_insert|clear Hd; indices..|]. clear -Hd Hr Hw Hh Hne. indices.
  - clear -Hd Hr Hw Hh Hne. indices.
Qed.

(** ** The operations keep the stream *)

Lemma fresh_ih s : buf_ok s → buf_ok (set_ih (before (ir s)) s).
Proof.
  intros (Hl & Hr & Hw & Hh & Hd). unfold buf_ok. cbn [rbuf ir iw ih set_ih]. split_and!; try done; clear Hd; indices.
Qed.

Section ops.
(** The kernel of these calls is [exact]; those before may have been less so ([e]). *)
Context (C : contract polldev) (exact e : bool) (He : exact = false → e = false).
Local Abbreviation read_as := (read_as exact).
Local Abbreviation gone_as := (gone_as e).
Local Abbreviation kept_as := (kept_as exact).
Local Abbreviation stream_ok := (stream_ok e).
Context (Hget : exact = true → ∀ z, c_ans C get_user z → z = 0).
Context (Hput : exact = true → ∀ z, c_ans C put_user z → z = 0).

(** A read takes the oldest bytes, as many as are there and are asked for. *)
Lemma wp_read_loop n s (Q : list (option Z) → polldev → Prop) :
  buf_ok s → stream_ok s →
  (∀ l s', Forall2 read_as l (take n (contents s)) → contents s' = drop n (contents s) →
    buf_ok s' → stream_ok s' → sema s' = sema s → use_count s' = use_count s → Q l s') →
  wp C (read_loop n) Q s.
Proof.
  revert s Q. induction n as [|n IH]; intros s Q Hs Hst HQ; cbn.
  { wp_step. by apply HQ. }
  wp_step. wp_step. wp_step.
  { wp_step. assert (contents s = []) as E by (unfold contents; rewrite Heqb; apply ring_empty).
    apply HQ; rewrite ?E; done. }
  pose proof Hs as (Hlen & Hr & _). destruct (lookupZ (rbuf s) (ir s)) as [c|] eqn:Hc.
  2: { exfalso. destruct (proj2 (lookupZ_is_Some (rbuf s) (ir s))) as [x Hx]; [rewrite Hlen; unfold N in *; lia|]. congruence. }
  wp_step. apply (wp_deref _ _ _ _ _ c); [done|]. wp_step. apply wp_call. intros r Hr0.
  set (o := if r =? 0 then Handed c else Faulted). destruct (take_one c o s Hs Heqb Hc) as [Ec Hs'].
  assert (gone_as o c ∧ read_as (if r =? 0 then Some c else None) c) as [Ho Ho'].
  { unfold o. case_match; zbool; [by split; [|left]|]. assert (exact = false) as E by (destruct exact eqn:E; auto; by specialize (Hput eq_refl r Hr0)).
    split; [by apply He|by right]. }
  wp_step. wp_step. wp_step. apply IH; [done| |].
  { destruct Hst as (taken & H1 & H2). exists (taken ++ [c]). cbn [accepted gone take_byte]. split.
    - apply Forall2_app; [done|]. by constructor.
    - rewrite <-app_assoc. by rewrite Ec in H2. }
  intros l s' Hl Hc' Hb' Hst' Hse Hu. wp_step. apply HQ; rewrite ?Ec; [|done..]. cbn. by constructor.
Qed.

(** A write adds what there is room for, as [ih] has it. *)
Lemma wp_poll_write_loop l s (Q : Z → polldev → Prop) :
  buf_ok s → stream_ok s →
  (∀ k x s', k = (length l `min` Z.to_nat (dist (ih s) s))%nat → Forall2 kept_as x (take k l) →
    contents s' = contents s ++ x → buf_ok s' → stream_ok s' → sema s' = sema s → use_count s' = use_count s →
    Q (Z.of_nat k) s') →
  wp C (write_loop l) Q s.
Proof.
  revert s Q. induction l as [|c l IH]; intros s Q Hs Hst HQ; cbn [write_loop].
  { wp_step. apply (HQ 0%nat []); [done|done|by rewrite app_nil_r|done..]. }
  pose proof Hs as (Hlen & Hr & Hw & Hh & Hd).
  wp_step. wp_step. wp_step.
  { wp_step. assert (dist (ih s) s = 0) as E by (clear -Heqb; indices).
    apply (HQ 0%nat []); [rewrite E; change (Z.to_nat 0) with 0%nat; lia|done|by rewrite app_nil_r|done..]. }
  wp_step. apply wp_call. intros r Hr0. set (c' := if r =? 0 then c else 0).
  destruct (put_one c c' s Hs Heqb) as (Ec & Hs' & Hdist).
  assert (kept_as c' c ∧ PollDev.kept_as e c' c) as [Hk0 Hk1].
  { unfold c'. case_match; zbool; [by split; left|].
    assert (exact = false) as E by (destruct exact eqn:E; auto; by specialize (Hget eq_refl r Hr0)).
    split; right; auto. }
  destruct (proj2 (lookupZ_is_Some (rbuf s) (iw s))) as [x Hx]; [rewrite Hlen; unfold N in *; lia|].
  wp_step. apply (wp_deref _ _ _ _ _ x); [done|]. wp_step. wp_step. wp_step. apply IH; [done| |].
  { destruct Hst as (taken & H1 & H2). exists taken. cbn [accepted gone put_byte]. split; [done|].
    rewrite Ec, app_assoc. apply Forall2_app; [done|]. by constructor. }
  cbn [ih put_byte]. rewrite Hdist. assert (0 < dist (ih s) s) as Hpos by (clear -Heqb Hh Hw; indices).
  intros k y s' -> Hk Hc' Hb' Hst' Hse Hu. wp_step.
  set (k := (length l `min` Z.to_nat (dist (ih s) s - 1))%nat) in *.
  replace (Z.of_nat k + 1) with (Z.of_nat (S k)) by lia.
  apply (HQ _ (c' :: y)); [unfold k; cbn [length]; lia| |by rewrite Hc', Ec, <-app_assoc|done..]. cbn. by constructor.
Qed.
End ops.

(** ** The device as a state machine *)

Inductive pop := POpen | PRelease | PRead (f_flags len : Z) | PWrite (f_flags : Z) (user : list Z) | PPoll.

Definition poll_handle (op : pop) : K polldev (Z * list (option Z)) :=
  let int (m : K polldev Z) := kfmap (λ r, (r, [])) m in
  match op with
  | POpen => int device_open
  | PRelease => int device_release
  | PRead f_flags len => device_read f_flags len
  | PWrite f_flags user => int (device_write f_flags user)
  | PPoll => int device_poll
  end.

(** Other tasks use the device through the same calls, but not while [ih] is
    negative, between the two assignments of [is_buffer_full]. *)
Definition poll_rely (exact : bool) (s s' : polldev) : Prop :=
  if ih s <? 0 then s' = s else poll_inv exact s → poll_inv exact s'.

(** Documented answers; with [exact] no access to user memory fails. *)
Definition poll_contract (exact : bool) : contract polldev :=
  Contract (λ k z, doc_ans k z ∧ (exact = true → k = get_user ∨ k = put_user → z = 0)) (poll_rely exact) True.

Definition poll_start (s : polldev) : Prop :=
  s = PollDev (replicate 24 0) 0 0 0 0 false [] [].

Section calls.
Context (exact : bool).
Local Abbreviation poll_inv := (poll_inv exact).
Local Abbreviation poll_contract := (poll_contract exact).

Lemma get_exact : exact = true → ∀ z, c_ans poll_contract get_user z → z = 0.
Proof. intros He z [_ H]. apply H; auto. Qed.
Lemma put_exact : exact = true → ∀ z, c_ans poll_contract put_user z → z = 0.
Proof. intros He z [_ H]. apply H; auto. Qed.

Lemma inv_rely s s' : poll_inv s → c_rely poll_contract s s' → poll_inv s'.
Proof.
  intros Hs Hr. cbn in Hr. unfold poll_rely in Hr. pose proof Hs as ((_ & _ & _ & Hh & _) & _).
  rewrite (proj2 (Z.ltb_ge _ _)) in Hr by lia. by apply Hr.
Qed.

Lemma inv_ih s : poll_inv s → poll_inv (set_ih (before (ir s)) s).
Proof. intros (Hb & Hst & Hse). split_and!; [by apply fresh_ih|done..]. Qed.

(** The bound may be older than the index of the reader by the time it is
    compared. *)
Lemma wp_full_inv s (Q : bool → polldev → Prop) :
  poll_inv s → (∀ s', poll_inv s' → Q (iw s' =? ih s') s') → wp poll_contract is_buffer_full Q s.
Proof.
  intros Hs HQ. pose proof (inv_ih s Hs) as Hs1. unfold is_buffer_full. wp_step. wp_step. wp_step.
  apply wp_interfere. intros s' Hr. wp_step. wp_step. wp_step.
  destruct (ir s - 1 <? 0) eqn:Hneg.
  - cbn in Hr. unfold poll_rely in Hr. cbn [ih set_ih] in Hr. rewrite Hneg in Hr. subst s'. cbn [ih set_ih]. rewrite Hneg.
    unfold before in Hs1. rewrite Hneg in Hs1. by apply HQ in Hs1.
  - unfold before in Hs1. rewrite Hneg in Hs1. pose proof (inv_rely _ _ Hs1 Hr) as Hs'.
    pose proof Hs' as ((_ & _ & _ & Hh & _) & _). rewrite (proj2 (Z.ltb_ge _ _)) by lia. by apply HQ.
Qed.

Lemma wp_signal_after (Q : Z → polldev → Prop) w s : (∀ z, Q z s) → wp poll_contract (signal_after w) Q s.
Proof. intros HQ. unfold signal_after. wp_go; auto. Qed.

Lemma wp_wait_not_full s (Q : Z → polldev → Prop) :
  poll_inv s → (∀ z s', poll_inv s' → Q z s') → wp poll_contract wait_not_full Q s.
Proof.
  intros Hs HQ. unfold wait_not_full. wp_step. apply wp_interfere. intros s1 H1. pose proof (inv_rely _ _ Hs H1) as Hs1.
  wp_step. apply wp_full_inv; [done|]. intros s2 Hs2. destruct (_ =? _); cbn [negb]; [|wp_step; by apply HQ].
  wp_step. apply wp_interfere. intros s3 H3. pose proof (inv_rely _ _ Hs2 H3) as Hs3. wp_step. wp_step. wp_step; [wp_step; by apply HQ|].
  wp_step. apply wp_full_inv; [done|]. intros s4 Hs4. destruct (_ =? _); cbn [negb]; [by apply wp_sleep|]. wp_step. by apply HQ.
Qed.

Lemma wp_device_read f_flags len s :
  poll_inv s → wp poll_contract (device_read f_flags len) (λ _, poll_inv) s.
Proof.
  intros Hs. unfold device_read, is_buffer_empty. wp_step. wp_step. wp_step; [by wp_step|].
  assert (∀ w s', poll_inv s' → wp poll_contract (sig ← signal_after w;
    if c_bool sig then mret (- ERESTARTSYS, []) else
    ok ← lock_interruptible;
    if negb ok then mret (- ERESTARTSYS, []) else
    l ← read_loop (Z.to_nat len); unlock;; mret (lenZ l, l)) (λ _, poll_inv) s') as Hrest.
  { intros w s1 Hs1. wp_step. apply wp_signal_after. intros z. wp_step; [by wp_step|].
    wp_step. apply wp_lock_interruptible.
    - intros s2 H2. by destruct (inv_rely _ _ Hs1 H2) as (_ & _ & ?).
    - intros s2 z2 H2 _ _. destruct (inv_rely _ _ Hs1 H2) as (Hb & Hst & _). cbn [negb].
      wp_step. apply (wp_read_loop _ exact exact); [done|exact get_exact|exact put_exact|done..|]. intros l s3 _ _ Hb3 Hst3 Hse _.
      wp_step. apply wp_unlock; [done|]. by wp_step.
    - intros s2 z2 H2 _ _. cbn [negb]. wp_step. by apply (inv_rely s1). }
  wp_step. apply wp_wait_event; [done|..].
  - intros s1 H1 _. by apply Hrest, (inv_rely s).
  - intros s1 s2 H1 H2 _. by apply Hrest, (inv_rely s1), H2; apply (inv_rely s).
  - intros s1 s2 z H1 H2 _ _. by apply Hrest, (inv_rely s1), H2; apply (inv_rely s).
Qed.

Lemma wp_device_write f_flags user s :
  poll_inv s → wp poll_contract (device_write f_flags user) (λ _, poll_inv) s.
Proof.
  intros Hs. unfold device_write. wp_step. apply wp_full_inv; [done|]. intros s0 Hs0. wp_step; [by wp_step|].
  wp_step. apply wp_wait_not_full; [done|]. intros w s1 Hs1.
  wp_step. apply wp_signal_after. intros z. wp_step; [by wp_step|].
  wp_step. apply wp_lock_interruptible.
  - intros s2 H2. by destruct (inv_rely _ _ Hs1 H2) as (_ & _ & ?).
  - intros s2 z2 H2 _ _. destruct (inv_rely _ _ Hs1 H2) as (Hb & Hst & _). cbn [negb].
    wp_step. apply (wp_poll_write_loop _ exact exact); [done|exact get_exact|exact put_exact|done..|]. intros k x s3 _ _ _ Hb3 Hst3 Hse _.
    wp_step. apply wp_unlock; [done|]. by wp_step.
  - intros s2 z2 H2 _ _. cbn [negb]. wp_step. by apply (inv_rely s1).
Qed.

Lemma reset_inv s : poll_inv s → poll_inv (reset s).
Proof.
  intros ((Hl & Hr & Hw & Hh & _) & (taken & H1 & H2) & Hse). split_and!; [| |done].
  - unfold buf_ok. cbn [rbuf ir iw ih reset]. split_and!; try done; try lia. clear -Hh. indices.
  - exists (taken ++ contents s). cbn [accepted gone reset]. split.
    + apply Forall2_app; [done|]. apply Forall2_replicate_l; [done|]. by apply Forall_true.
    + unfold contents at 2. cbn [rbuf ir iw reset]. by rewrite (ring_empty (take 23 (rbuf s)) 0), app_nil_r.
Qed.

Lemma wp_poll_handle op s : poll_inv s → wp poll_contract (poll_handle op) (λ _, poll_inv) s.
Proof.
  intros Hs. destruct op; cbn [poll_handle]; [apply wp_kfmap..|by apply wp_device_read|apply wp_kfmap|apply wp_kfmap].
  - unfold device_open. wp_step. wp_step. wp_step. destruct (_ =? 0); do 4 wp_step; [by apply reset_inv|done].
  - unfold device_release. by wp_go.
  - by apply wp_device_write.
  - unfold device_poll, is_buffer_empty. wp_step. wp_step. wp_step. apply wp_full_inv; [done|]. intros s' Hs'. by wp_step.
Qed.
End calls.

(** C22: whatever calls come, in whatever order, and whatever other tasks do with the
    device while one waits (but between the two assignments of [is_buffer_full], see
    [ih_race]), no call faults and the buffer holds 22 bytes at most. The bytes that
    writes accepted are, in order, those that are gone and those the buffer holds:
    each was handed to one reader, once, or discarded by an open with no other file
    open, or, where access to user memory may fail, counted by a read that
    did not hand it over; and where it may fail a byte may have become a zero. *)
Theorem poll_stream (exact : bool) :
  faultless poll_handle (λ _ _, True) (poll_contract exact) poll_start ∧
  ∀ s, reachable poll_handle (λ _ _, True) (poll_contract exact) poll_start s →
    0 <= lenZ (contents s) <= 22 ∧
    ∃ taken, Forall2 (gone_as exact) (gone s) taken ∧ Forall2 (kept_as exact) (taken ++ contents s) (accepted s).
Proof.
  assert (inductive_inv poll_handle (λ _ _, True) (poll_contract exact) poll_start (poll_inv exact)) as Hinv.
  { split_and!; [|intros s op Hs _; by apply wp_poll_handle|apply inv_rely].
    intros s ->. split_and!; [done| |done]. exists []. by split. }
  split; [by eapply inv_faultless|]. intros s Hs. destruct (reachable_inv _ _ _ _ _ _ Hinv Hs) as (Hb & Hst & _).
  split; [|done]. rewrite (length_contents s Hb). destruct Hb as (_ & Hr & Hw & _). clear -Hr Hw. indices.
Qed.

(** ** What a write stores a read gives back *)

Definition write_then_read (wf rf len : Z) (user : list Z) : K polldev (Z * (Z * list (option Z))) :=
  w ← device_write wf user;
  r ← device_read rf len;
  mret (w, r).

Lemma wp_full_quiet s (Q : bool → polldev → Prop) :
  Q (iw s =? before (ir s)) (set_ih (before (ir s)) s) → wp (quiet polldev) is_buffer_full Q s.
Proof.
  intros HQ. unfold is_buffer_full. wp_step. wp_step. wp_step. apply wp_interfere_quiet. do 2 wp_step. cbn [ih set_ih].
  unfold before in HQ. wp_step. by destruct (ir s - 1 <? 0).
Qed.

Lemma wp_signal_quiet (Q : Z → polldev → Prop) s : Q 0 s → wp (quiet polldev) (signal_after 0) Q s.
Proof. intros HQ. unfold signal_after. cbn. apply wp_call. by intros z [_ ->]. Qed.

Lemma wp_write_quiet e f_flags user s (Q : Z → polldev → Prop) :
  poll_inv e s → (length (contents s) < 22)%nat →
  (∀ s', poll_inv e s' → contents s' = contents s ++ take (22 - length (contents s)) user →
    Q (Z.of_nat (length user `min` (22 - length (contents s)))) s') →
  wp (quiet polldev) (device_write f_flags user) Q s.
Proof.
  intros Hs Hroom HQ. pose proof (inv_ih e s Hs) as (Hb1 & Hst1 & Hse1). pose proof Hs as (Hb & _).
  pose proof (length_contents s Hb) as Hlen.
  assert ((iw s =? before (ir s)) = false) as Hfull.
  { apply Z.eqb_neq. intros E. destruct Hb as (_ & Hr & Hw & _). assert (dist (before (ir s)) s = 0) by (clear -E; indices). lia. }
  unfold device_write, wait_not_full. wp_step. apply wp_full_quiet. rewrite Hfull. cbn [andb].
  set (s1 := set_ih (before (ir s)) s) in *. wp_step. wp_step. apply wp_interfere_quiet.
  wp_step. apply wp_full_quiet. change (iw s1 =? before (ir s1)) with (iw s =? before (ir s)). rewrite Hfull. cbn [negb].
  change (set_ih (before (ir s1)) s1) with s1. wp_step. wp_step. apply wp_signal_quiet. cbn [c_bool negb Z.eqb].
  wp_step. apply wp_lock_interruptible_quiet; [done|]. cbn [negb]. wp_step.
  apply (wp_poll_write_loop _ true e); [done|by intros _ z [_ ?]|by intros _ z [_ ?]|exact Hb1|exact Hst1|].
  intros k x s3 Hk Hx Hc Hb3 Hst3 Hse3 _. wp_step. apply wp_unlock; [done|]. wp_step.
  assert (Z.to_nat (dist (ih (set_lock true s1)) (set_lock true s1)) = 22 - length (contents s))%nat as Hd.
  { change (dist _ _) with (dist (before (ir s)) s). lia. }
  rewrite Hd in Hk. rewrite Hk. apply HQ; [by split_and!|].
  change (contents (set_lock false s3)) with (contents s3). rewrite Hc. change (contents _) with (contents s) at 1. f_equal.
  rewrite (kept_as_exact _ _ Hx), Hk. destruct (decide (length user <= 22 - length (contents s))%nat).
  - by rewrite !take_ge by lia.
  - f_equal. lia.
Qed.

Lemma wp_read_quiet e f_flags len s (Q : Z * list (option Z) → polldev → Prop) :
  poll_inv e s → contents s ≠ [] →
  (∀ s', poll_inv e s' → contents s' = drop (Z.to_nat len) (contents s) →
    Q (lenZ (take (Z.to_nat len) (contents s)), Some <$> take (Z.to_nat len) (contents s)) s') →
  wp (quiet polldev) (device_read f_flags len) Q s.
Proof.
  intros (Hb & Hst & Hse) Hne HQ.
  assert ((ir s =? iw s) = false) as Hem.
  { apply Z.eqb_neq. intros E. apply Hne. unfold contents. rewrite E. apply ring_empty. }
  unfold device_read, is_buffer_empty, wait_event_interruptible. wp_step. wp_step. rewrite Hem. cbn [andb].
  wp_step. wp_step. apply wp_interfere_quiet. wp_step. wp_step. rewrite Hem. cbn [negb]. wp_step.
  wp_step. apply wp_signal_quiet. cbn [c_bool negb Z.eqb].
  wp_step. apply wp_lock_interruptible_quiet; [done|]. cbn [negb]. wp_step.
  apply (wp_read_loop _ true e); [done|by intros _ z [_ ?]|by intros _ z [_ ?]|exact Hb|exact Hst|].
  intros l s3 Hl Hc Hb3 Hst3 Hse3 _. wp_step. apply wp_unlock; [done|]. wp_step.
  rewrite (read_as_exact _ _ Hl). change (contents (set_lock true s)) with (contents s).
  rewrite length_fmap. by apply HQ; [split_and!|].
Qed.

(** C23: with room in the buffer, and without signals and faults, a write stores as
    much of its bytes as there is room for behind those that are there, and a read
    then returns the oldest, as many as it asks for or there are; neither waits. *)
Theorem poll_write_read e wf rf len user s :
  poll_inv e s → lenZ (contents s) < 22 → 0 < lenZ user →
  wp (quiet polldev) (write_then_read wf rf len user) (λ '(w, (r, l)) s',
    let q := contents s ++ take (22 - length (contents s)) user in
    w = Z.min (lenZ user) (22 - lenZ (contents s)) ∧ l = Some <$> take (Z.to_nat len) q ∧ r = lenZ l ∧
    contents s' = drop (Z.to_nat len) q ∧ poll_inv e s') s.
Proof.
  intros Hs Hroom Huser. unfold write_then_read. wp_step. apply (wp_write_quiet e); [done|lia|].
  intros s1 Hs1 Hc. wp_step. apply (wp_read_quiet e); [done| |].
  { rewrite Hc. intros [_ E]%app_eq_nil. apply (f_equal length) in E. rewrite length_take in E. cbn in E. lia. }
  intros s2 Hs2 Hc2. rewrite Hc in *. wp_step. split_and!; [lia|done|by rewrite length_fmap|done|done].
Qed.

(** [poll] tells of the buffer as it is. *)
Lemma poll_ready e s :
  poll_inv e s → wp (quiet polldev) device_poll (λ m _,
    (Z.land m POLLIN ≠ 0 ↔ contents s ≠ []) ∧ (Z.land m POLLOUT ≠ 0 ↔ lenZ (contents s) < 22)) s.
Proof.
  intros (Hb & _). pose proof (length_contents s Hb) as Hl. pose proof Hb as (_ & Hr & Hw & _).
  unfold device_poll, is_buffer_empty. wp_step. wp_step. wp_step. apply wp_full_quiet. wp_step.
  assert (contents s = [] ↔ ir s = iw s) as He.
  { split; [intros E; rewrite E in Hl; clear -Hl Hr Hw; indices|]. intros E. unfold contents. rewrite E. apply ring_empty. }
  assert (dist (before (ir s)) s = 0 ↔ iw s = before (ir s)) as Hf by (clear -Hr Hw; split; indices).
  assert (0 <= dist (before (ir s)) s) as H0 by (clear -Hr Hw; indices).
  destruct (ir s =? iw s) eqn:E1, (iw s =? before (ir s)) eqn:E2; zbool; cbn; split; try (split; [try done|try lia]; intros); naive_solver lia.
Qed.

(** ** Concrete runs *)

Definition started (b : list Z) (r w h : Z) : polldev := PollDev b 1 r w h false [] [].
Definition empty_dev : polldev := started (replicate 24 0) 0 0 0.

(** 30 bytes are cut to 22; those of a second write go round the end. *)
Example write_30 :
  (x ← run quiet_oracle (write_then_read 0 0 5 (Z.of_nat <$> seq 1 30)) empty_dev; mret x.1) =
  Done (22, (5, [Some 1; Some 2; Some 3; Some 4; Some 5])).
Proof. vm_compute. reflexivity. Qed.

(** A reader that another one overtakes between the wait and the semaphore returns 0,
    which is the end of the file. *)
Example read_overtaken :
  (x ← run (Oracle quiet_ans (λ _ _, 0) (λ t s, if (t =? 2)%nat then take_byte (Handed 7) s else s))
    (device_read 0 10) (put_byte 7 7 empty_dev); mret x.1) = Done (0, []).
Proof. vm_compute. reflexivity. Qed.

(** A byte that cannot be read is stored as a zero and counted. *)
Example write_fault :
  (x ← run (Oracle (λ k t, match k with get_user => - EFAULT | _ => quiet_ans k t end) (λ _ _, 0) (λ _ s, s))
    (device_write 0 [7; 8]) empty_dev; mret (x.1, contents x.2)) = Done (2, [0; 0]).
Proof. vm_compute. reflexivity. Qed.

(** A writer that runs while [ih] is -1 does not meet it: of 30 bytes it reports all
    30 written, and 7 are there. *)
Example ih_race :
  (x ← run (Oracle quiet_ans (λ _ _, 0) (λ t s, match run quiet_oracle (write_loop (Z.of_nat <$> seq 1 30)) s with
      Done (_, s') => s' | _ => s end))
    is_buffer_full empty_dev; mret (lenZ (accepted x.2), contents x.2)) = Done (30, [24; 25; 26; 27; 28; 29; 30]).
Proof. vm_compute. reflexivity. Qed.

Lemma poll_write_read_witness :
  wp (quiet polldev) (write_then_read 0 0 5 [1; 2; 3]) (λ '(w, (r, l)) s',
    let q := contents empty_dev ++ take (22 - length (contents empty_dev)) [1; 2; 3] in
    w = Z.min (lenZ [1; 2; 3]) (22 - lenZ (contents empty_dev)) ∧ l = Some <$> take (Z.to_nat 5) q ∧ r = lenZ l ∧
    contents s' = drop (Z.to_nat 5) q ∧ poll_inv true s') empty_dev.
Proof. apply (poll_write_read true 0 0 5 [1; 2; 3] empty_dev);
  [split; [by split_and!|split; [by exists []|done]]|done|done].
Defined.

(** ** Loading and unloading *)

(** [poll_class] is a pointer, negative for an error; [dev] the number. *)
Record poll_mod := PollMod { dev : Z; poll_class : Z; poll_regs : registry }.

Definition set_dev (v : Z) (m : poll_mod) : poll_mod := PollMod v (poll_class m) (poll_regs m).
Definition set_poll_class (v : Z) (m : poll_mod) : poll_mod := PollMod (dev m) v (poll_regs m).

#[export] Instance poll_mod_registry : HasRegistry poll_mod :=
  { registry_of := poll_regs; set_registry g m := PollMod (dev m) (poll_class m) g; registry_set g m := eq_refl }.

Definition my_cdev : resource := Res "cdev_alloc" 0.
Definition cdev_added : resource := Res "cdev_add" 0.
Definition class_of : resource := Res "class" 0.
Definition device_of : resource := Res "device" 0.

(** [cdev_init] follows its pointer; [device_create] refuses the error of a class. *)
Definition my_init : K poll_mod Z :=
  res ← call (kint "alloc_chrdev_region");
  if res <? 0 then mret res else
  dyn ← call (kint "dynamic major");
  hold (region (MKDEV dyn 0));;
  modify (set_dev (MKDEV dyn 0));;
  p ← acquire_ptr "cdev_alloc" my_cdev;
  if p =? 0 then oops NullDeref else
  res ← acquire "cdev_add" cdev_added;
  if res <? 0 then
    d ← gets dev;
    give_back (region d);;
    mret res
  else
  cls ← call (kint "class_create");
  modify (set_poll_class cls);;
  (if cls <? 0 then mret tt else
     hold class_of;;
     d ← call (kint "device_create");
     if d <? 0 then mret tt else hold device_of);;
  mret res.

(** [cdev_init] made a cdev of the kind that [cdev_del] does not free. *)
Definition my_exit : K poll_mod unit :=
  give_back cdev_added;;
  d ← gets dev;
  give_back (region d);;
  cls ← gets poll_class;
  if cls <? 0 then oops NullDeref else
  give_if_held device_of;;
  give_back class_of.

Definition poll_load : K poll_mod Z :=
  r ← my_init;
  if r =? 0 then my_exit;; mret 0 else mret r.

(** A kernel that has a cdev and a class to give. *)
Definition poll_kernel (K0 : contract poll_mod) : Prop :=
  (∀ z, c_ans K0 (kint "cdev_alloc") z → z ≠ 0) ∧ (∀ z, c_ans K0 (kint "class_create") z → 0 < z) ∧
  (∀ z, c_ans K0 (kint "cdev_add") z → z <= 0).

(** The device node may have failed to come ([b]); the cdev stays. *)
Lemma wp_my_exit K0 b m (Q : unit → poll_mod → Prop) :
  0 < poll_class m → owned (opt b device_of ++ [class_of; cdev_added; my_cdev; region (dev m)]) m →
  (∀ m', owned [my_cdev] m' → Q tt m') → wp K0 my_exit Q m.
Proof.
  intros Hcls Ho HQ. unfold my_exit. set (r0 := region (dev m)) in *. wp_step.
  apply (wp_give_back_owned _ cdev_added _ (opt b device_of ++ [class_of; my_cdev; r0]) _ _ Ho); [destruct b; cbn; solve_Permutation|].
  intros g1 Hg1. wp_step. wp_step. wp_step.
  apply (wp_give_back_owned _ r0 _ (opt b device_of ++ [class_of; my_cdev]) _ _ Hg1); [destruct b; cbn; solve_Permutation|].
  intros g2 Hg2. wp_step. wp_step. cbn [poll_class set_registry poll_mod_registry]. rewrite (proj2 (Z.ltb_ge _ 0)) by lia.
  wp_step. apply (wp_give_if_held _ b _ [class_of; my_cdev]); [done|by apply other_kind; repeat constructor|exact Hg2|].
  intros g3 Hg3. apply (wp_give_back_owned _ class_of _ [my_cdev] _ _ Hg3); [done|]. intros g4 Hg4. by apply HQ.
Qed.

(** Everything is given back but the cdev, whether [cdev_add] fails or the module is
    unloaded. *)
Lemma poll_load_leaks K0 m :
  poll_kernel K0 → owned [] m → wp K0 poll_load (λ r m', r <= 0 ∧ (owned [] m' ∧ r < 0 ∨ owned [my_cdev] m')) m.
Proof.
  intros (Hp & Hcls & Hadd) Ho. unfold poll_load, my_init. wp_step. wp_step. wp_step. wp_step.
  { wp_step. rewrite (proj2 (Z.eqb_neq _ _)) by lia. wp_step. split; [lia|]. by left. }
  wp_step. wp_step. rename z0 into dyn. set (r0 := region (MKDEV dyn 0)).
  wp_step. apply (wp_hold_owned _ _ _ _ _ Ho). intros g Hg. wp_step. wp_step.
  unfold acquire_ptr. wp_step. wp_step. apply wp_call. intros p Hp0%Hp. rewrite (proj2 (Z.eqb_neq p 0)) by done.
  wp_step. eapply (wp_hold_owned _ _ [r0]); [exact Hg|]. intros g1 Hg1. wp_step.
  rewrite (proj2 (Z.eqb_neq p 0)) by done. wp_step. apply wp_acquire.
  2: { intros res Hres%Hadd Hne. rewrite (proj2 (Z.ltb_lt _ _)) by lia. wp_step. wp_step. wp_step.
       apply (wp_give_back_owned _ r0 _ [my_cdev] _ _ Hg1); [solve_Permutation|]. intros g2 Hg2. wp_step.
       rewrite (proj2 (Z.eqb_neq _ _)) by done. wp_step. split; [lia|]. by right. }
  pose proof (owned_add cdev_added _ _ Hg1) as Hg2. set (m1 := set_registry _ _) in *.
  change (0 <? 0) with false. cbn iota. wp_step. apply wp_call. intros cls Hc%Hcls.
  wp_step. wp_step. rewrite (proj2 (Z.ltb_ge _ _)) by lia. wp_step. wp_step.
  eapply (wp_hold_owned _ _ [cdev_added; my_cdev; r0]); [exact Hg2|]. intros g3 Hg3. wp_step. apply wp_call. intros d _.
  destruct (d <? 0); [wp_step|apply (wp_hold_owned _ _ _ _ _ Hg3); intros g4 Hg4]; wp_step; change (0 =? 0) with true; cbn iota;
    wp_step; [apply (wp_my_exit _ false)|apply (wp_my_exit _ true)]; try done; intros m' Hm'; wp_step; (split; [done|by right]).
Qed.
